(* ===== verification/_CoqProject ===== *)
-Q . S2P
Prelude.v
Base64.v
Ids.v
Domain.v
Protocol.v
Outcomes.v
Capabilities.v
Inventory.v
Crypto.v
Store.v
Service.v
Admission.v
AdmissionSpec.v
Deletion.v
Commands.v
Placement.v
Evolution.v
Fleet.v
CommandsSpec.v
Secrets.v
Settlement.v
Races.v
Agent.v
AgentSpec.v
EndToEnd.v
RegistryStore.v
Registry.v
Observation.v
Reconcile.v
RegistrySpec.v
ObservationSpec.v
ReconcileSpec.v
RegistryTrace.v
RegistrySample.v
InventoryProps.v
RegistryProps.v
RotationProps.v
ApprovalProps.v
RegistryWitnesses.v
SessionFrame.v
Autoscaling.v
AutoscalingSpec.v
Targets.v
TargetsSpec.v
Platforms.v
PlatformsSpec.v
Driver.v
DriverSpec.v
Scaling.v
ScalingSpec.v
Manager.v
ManagerSpec.v
Sandbox.v
SandboxSpec.v
Cursor.v
CursorSpec.v
Output.v
OutputSpec.v
AgentLogs.v
AgentLogsSpec.v
OutputRows.v
Wire.v
Shipper.v
ShipperSpec.v
ActivitySpec.v
Authorization.v
Supervisor.v
SupervisorSpec.v
