(* ===== verification/Prelude.v ===== *)
(** * GridOps fleet: verification development

    GridOps runs CI runners and agent sandboxes on a fleet of machines.  This
    library models the fleet: the control plane that decides where work runs
    and what it may use, the reconciler that keeps pools at the size their
    queues ask for, and the agent on every machine that carries the work out.

    ** The program and its parts

    The control plane keeps everything in one SQLite database and changes it
    in transactions.  A machine enrolls with a code, is approved, and keeps a
    session by handshakes, heartbeats and inventories ([fleet/registry]).  The
    service ([fleet/service.rs]) takes submissions; the admission slice
    ([fleet/admission.rs]) places a queued intent on a machine, charges its
    resource domains and writes the prepare command; machines poll for
    commands and report results ([fleet/registry/commands.rs]); an
    administrator may repair what nobody confirmed
    ([fleet/registry/unconfirmed.rs]).  A pool's platforms and its CI targets
    are saved by [fleet/targets.rs], which also says which platform lacks
    runners; [autoscaling.rs] counts queued jobs and runners.  The reconciler
    ([gridops-reconciler]) scales pools with these counts ([main.rs]), submits
    an intent per runner and drives its placement to a running runner and to
    its end ([fleet.rs], with the statements of [fleet/placement.rs]).  The
    agent ([gridops-host-agent]) journals each command before it acts, drives a
    runtime through a helper, and redelivers its results after a reconnect.
    Containers on the built-in host are made by the manager
    ([gridops-manager]), which grants capacity leases for them first.
    Both sides check the same envelopes and results ([fleet/protocol]).
    Paths are under [src/crates/gridops-core/src] unless they name a crate.

    ** Files

    - [Prelude] (this file): [Result] with [let?], machine integers with
      their bounds, tables as lists of rows with the queries and updates the
      SQL uses, hint databases and tactics.
    - [Base64], [Ids] ([fleet/ids.rs]), [Domain] ([fleet/domain.rs]): the
      encoding, identifiers and counters, resource arithmetic and lifecycles.
    - [Protocol] ([protocol/primitives.rs], [protocol/agent.rs]), [Outcomes]
      ([protocol/chunks.rs], [protocol/outcomes.rs]), [Inventory]
      ([protocol/inventory.rs]): commands, chunks, results, inventories.
    - [Capabilities] ([fleet/capabilities.rs]), [Crypto] ([crypto.rs]).
    - [Store] ([src/migrations], [fleet/store.rs]): the tables.  [Policy] is
      what the transactions on work only read, [Work] what they write.
    - [Service] ([fleet/service.rs]), [Admission] ([fleet/admission.rs]),
      [Commands] ([registry/commands.rs], [registry/unconfirmed.rs]),
      [Placement] ([fleet/placement.rs]): the transactions, each a function
      from the database to the database it commits or the error that rolls it
      back.  Clock readings and drawn identifiers are arguments.
    - [AdmissionSpec]: what one admission and one slice guarantee.  [Deletion]
      ([delete_pool] of [fleet/targets.rs], on the tables of work): what goes
      with a pool, and that only ended work does.
    - [Evolution]: the preorder in which the written tables change between
      admissions.  [Fleet]: the transactions as the steps of a state machine,
      deletions of pools included, with its invariants.  [CommandsSpec], [Secrets], [Settlement]: reach and
      causes of each transaction, bootstrap material, settled commands.
      [Races]: an interleaving of two transactions of the reconciler.
    - [Agent] ([gridops-host-agent]: [journal.rs], [dispatch.rs], [helper.rs],
      [deliver_results] of [supervisor.rs]), [AgentSpec]: the agent, whose
      operations may be cut off after any number of actions, and its safety.
    - [EndToEnd]: a command from the control plane to the agent and back.
    - [RegistryStore], [Registry] ([registry/mod.rs], [enrollment.rs],
      [credentials.rs]), [Observation] ([handshake.rs]), [Reconcile]
      ([registry/inventory.rs]): the registry's tables with their triggers and
      its transactions.  [RegistrySpec], [ObservationSpec], [ReconcileSpec]:
      what each writes.  [RegistryTrace]: the registry as a state machine.
      [RegistrySample], [RegistryWitnesses]: a machine from its code to its
      first inventory.  [InventoryProps], [RegistryProps], [RotationProps],
      [ApprovalProps]: its properties.  [SessionFrame]: what handshakes,
      heartbeats and inventories leave alone.
    - [Autoscaling] ([autoscaling.rs]), [Targets] and [Platforms]
      ([fleet/targets.rs]): counts, targets, fleet settings and the choice of
      a platform, with [AutoscalingSpec], [TargetsSpec], [PlatformsSpec].
    - [Driver] ([gridops-reconciler/src/fleet.rs]), [DriverSpec]: the passes
      over placements, statement by statement, between which anything else may
      commit.  [Scaling] ([gridops-reconciler/src/main.rs], with the decisions
      of [provisioning.rs]), [ScalingSpec]: the pass over the pools, in the
      same way: sizes, rotation, evictions, runners of the built-in host.
    - [Manager] ([gridops-manager]), [ManagerSpec]: leases, and the runners and
      sandboxes made, started, stopped and removed on the built-in host.
      [Sandbox], [SandboxSpec]: commands and archives in sandboxes.
    - [Cursor] ([fleet/cursor.rs]), [CursorSpec]: signed positions in streams.
    - [Output] ([registry/output.rs]), [OutputSpec]: the log of a runner, whose
      file is written between two transactions.  [AgentLogs]
      ([registry/logs.rs], [gridops-host-agent/src/logs.rs]), [AgentLogsSpec]:
      the agent's own log, on the machine and in the database.
    - [Shipper] ([output.rs] and [activity.rs] of [gridops-host-agent]): the
      followers that ship a runner's output, machines whose states are their
      awaits.  [OutputRows]: what an append does to the rows of a stream.
      [ShipperSpec]: agents, network and control plane as one system.
      [ActivitySpec]: the jobs picked out of the output.
    - [Authorization] ([fleet/authorization.rs]): grants and their proofs.
    - [Wire] ([error.rs] of [gridops-api], [client.rs] of
      [gridops-host-agent]): which error of the control plane reaches an agent
      as what.  [Supervisor] ([supervisor.rs], and the handlers of
      [credentials.rs] it calls), [SupervisorSpec]: the agent's credentials and
      its polls, with rotations that may be cut off anywhere.

    Modules named [Sample...], [Plain], [PlainAead] and [Hyphenated] hold a
    concrete fleet, machine and instances of the classes, on which the
    hypotheses of the theorems are shown to hold.

    ** What the theorems show

    - Capacity: however the policy changes meanwhile, the use of a resource
      domain stays within what its budget never fell below, and a transaction
      that raises it ends within the budget of the moment, and so does a slice;
      pools and desktop sessions keep their limits; charges are freed only for
      the listed causes, by a transaction run when the cause holds, with
      evidence, and for good.
    - Placement: work goes only to approved, fresh, verified machines with a
      grant; the slice takes turns between pools; an operation is admitted
      once; a refusal changes only reasons; submissions replay.
    - Delivery: a poll hands out at most one command, which its agent accepts;
      reports reach one placement, duplicates change nothing and the first
      conclusive report decides; bootstrap material reaches only its machine
      and is erased only by what resolves the start.
    - Agent: a command runs at most once across restarts, only on what the
      agent owns; its answer is final, answers its command, and is journaled
      before it is told; the registry takes every such answer, unless the
      command was deleted with its pool.
    - Registry: a code is used once and yields the credential it promised;
      recovery and revocation fence old credentials for good, rotation
      completes, approval grants only what was enrolled, work authority needs
      evidence, and a second session quarantines the machine; an inventory
      stays within the operator's policy and is answered alike when repeated.
    - Pools: saving fleet settings takes effect whole or not at all, targets
      keep their identifiers, a pool is deleted only when its work has ended,
      and frees no charge; queued jobs are counted for one pool and one
      platform, the room counted for them is the room admission finds, and
      bookings take it exactly.
    - Reconciler: its passes are sequences of the fleet's transactions,
      whatever others commit in between; a placement is started once; ended
      placements retire their runners, waiting ones give up in time; the size
      of a pool stays within its bounds, a busy runner is not removed, and
      every capacity lease it was granted is given back or becomes a container,
      unless the manager does not take it back.
    - Values: checked resource arithmetic agrees with comparison, lifecycles
      have no way back from retirement or release, chunks, sealed values and
      bootstrap material round-trip, the capability evaluation and the domain
      walks meet their specifications and end.
    - Manager: containers and leases stay within the runners and the memory of
      the host, and a lease is used once; the output of a command is kept at
      its two ends, and archives land inside the sandbox's workspace.
    - Logs: a runner's stored log is what it wrote, wherever a write was cut
      off; an agent that records it as shipped has shipped all of it, whatever
      was lost, repeated or restarted on the way, as long as reads do not
      fail; an agent's lines are sent, kept or counted, or lost with an upload
      its session abandoned, capped per hour and stored once.  A cursor is good
      for its reader and for its time.
    - Grants: a proof passes its recheck as long as the grant would mint it
      again.
    - Credentials: a rotation that is interrupted anywhere before its
      acknowledgement arrives, on either side, and repeated in later sessions
      leaves the agent with a credential the registry takes.
    - Ten theorems describe what the code does where it should not:
      [Races.start_answer_overwritten], [EndToEnd.SampleAgent.old_start_forgotten],
      [AutoscalingSpec.SampleScaling.runner_for_idle_repository],
      [TargetsSpec.SampleTargets.emptied_settings_reported_as_failure],
      [ManagerSpec.SampleHost.restart_overcommits],
      [ShipperSpec.unopened_output_is_abandoned],
      [AgentLogsSpec.SampleLogs.abandoned_upload_forgets],
      [AgentLogsSpec.SampleLogs.dropped_lines_told_twice],
      [SupervisorSpec.lost_acknowledgement_locks_out] and
      [SupervisorSpec.rotation_stops_polling_agent].

    ** Parameters

    Code of other crates is a class: [UuidText] (printing and parsing UUIDs,
    with the round trip and the length of the text), [Codec] (SHA-256 and the
    JSON text of an envelope), [Aead] (AES-256-GCM and HMAC-SHA-256, with
    decryption undoing encryption), [RequestJson], [ResultJson], [ScopeJson],
    [ObservationJson] and [EnvelopeReader] (serde), [RuntimeHelper], the runtime
    behind the agent's helper, [Upstream] and [Services], the answers of
    GitHub, Bitbucket and the manager, [Engine], Docker as the manager uses it,
    [Machine], its clock, disk and Tart agent, and [Execs], Docker's answers to
    a command; [CursorJson] and [MacBytes], the text of a cursor's claims and
    the length of a MAC; [Circumstances], the faults an append of output meets.
    [ShipperSpec] takes from the runtimes that reading an output again yields the
    same bytes, and that nothing expires or closes a log while it is shipped.
    [Surroundings] gives the reconciler's clock and draws and what other
    processes commit between its statements.  The build's architecture,
    [std::env::consts::ARCH], is an argument.  No theorem assumes that hashes
    are free of collisions for all inputs; the agent's theorems ask it of the
    command at hand ([AgentSpec.no_collision]).

    ** Bounds and fuel

    Integers that the code keeps in [i64] or [u64] are [Z] with the range
    checks and checked or saturating operations of the source written out.
    The domain walks stop at [MAX_RESOURCE_DOMAIN_DEPTH] as the code does, and
    a slice admits at most its limit.  One loop of the source has no bound of
    its own, the path of [Platforms.Room_path]: it runs on fuel, two more than
    the number of domains, which [PlatformsSpec.path_terminates] shows enough.
    The agent's number of actions is not fuel: running out is the process
    dying there, and the theorems hold for every number.  [Sandbox.lossy] runs
    on as many steps as there are bytes, and each step takes one at least.

    ** Not modelled

    Console queries, the agent's runtimes and the timers of its session loop
    (its polls, its results and its credentials are modelled), the manager's logs,
    health and listings, the Tart agent, the fix agent, the HTTP layer, and the
    clients of external services.  Of the reconciler, the synchronisation of workflow runs, archived logs and the
    deletion of old rows are not modelled.  Authority tables that other parts
    write are arbitrary in the theorems: every step of [Fleet.any_step] may see
    a different [Policy].  Audit rows and events are not kept.  A handler of the
    manager that the request timeout drops between two statements is not
    modelled. *)
From stdpp Require Export base list strings numbers gmap.
From Stdlib Require Export ZArith Lia Sorted.
From Stdlib Require String Ascii.

#[global] Open Scope Z_scope.

(** ** Results

    Rust's [Result<A, E>], with the [?] operator as [let?]. *)
Inductive Result (A E : Type) : Type :=
| Ok (a : A)
| Err (e : E).
Arguments Ok {A E} a.
Arguments Err {A E} e.

Definition result_bind {A B E} (r : Result A E) (k : A → Result B E) : Result B E :=
  match r with Ok a => k a | Err e => Err e end.

Definition map_err {A E F} (f : E → F) (r : Result A E) : Result A F :=
  match r with Ok a => Ok a | Err e => Err (f e) end.

Definition ok_or {A E} (e : E) (o : option A) : Result A E :=
  match o with Some a => Ok a | None => Err e end.

Definition is_ok {A E} (r : Result A E) : bool :=
  match r with Ok _ => true | Err _ => false end.

Declare Scope fleet_scope.
Delimit Scope fleet_scope with fleet.
#[global] Open Scope fleet_scope.

Notation "'let?' x ':=' c 'in' k" := (result_bind c (λ x, k))
  (at level 10, x pattern, c at level 100, k at level 200) : fleet_scope.

(** [collect::<Result<Vec<_>, _>>()]: the first error wins. *)
Fixpoint traverse {A B E} (f : A → Result B E) (l : list A) : Result (list B) E :=
  match l with
  | [] => Ok []
  | a :: l => let? b := f a in let? bs := traverse f l in Ok (b :: bs)
  end.

(** A fallible left fold: the body of a [for] loop that uses [?]. *)
Fixpoint try_fold {S A E} (f : S → A → Result S E) (s : S) (l : list A) : Result S E :=
  match l with
  | [] => Ok s
  | a :: l => let? s' := f s a in try_fold f s' l
  end.

(** ** Record update

    [r <| field := v |>] is [r] with one column changed, as an [UPDATE]
    writes it.  A record declares its columns once, by an instance of [Fields]
    that spells it out field by field; updates are derived from that. *)
Class Fields (R : Type) := spell_out : R → R.
Class Updater {R T} (field : R → T) := updater : (T → T) → R → R.
Arguments updater {R T} field {_} f r.

Ltac derive_updater :=
  match goal with
  | |- @Updater ?R ?T ?field =>
      let columns := constr:(ltac:(typeclasses eauto) : Fields R) in
      let columns := eval hnf in columns in
      match eval pattern field in columns with
      | ?with_field _ =>
          let u := eval cbv beta in (λ (f : T → T), with_field (λ r, f (field r))) in
          exact u
      end
  end.
#[export] Hint Extern 0 (Updater _) => derive_updater : typeclass_instances.

Notation "r '<|' field ':=' v '|>'" := (updater field (λ _, v) r)
  (at level 12, left associativity, field at level 11, v at level 200) : fleet_scope.
Notation "r '<|' field '::=' f '|>'" := (updater field f r)
  (at level 12, left associativity, field at level 11, f at level 200) : fleet_scope.

(** ** Machine integers

    Values of [u32], [u64], [i64] and [usize] are [Z]; the operations that
    check or clamp a width say so. *)
Definition u32_max : Z := 4294967295.
Definition u64_max : Z := 18446744073709551615.
Definition i64_max : Z := 9223372036854775807.
Definition i64_min : Z := -9223372036854775808.

Definition in_u64 (z : Z) : Prop := 0 ≤ z ≤ u64_max.
Definition in_i64 (z : Z) : Prop := i64_min ≤ z ≤ i64_max.

Definition u32_checked_add (a b : Z) : option Z :=
  if a + b <=? u32_max then Some (a + b) else None.
Definition u64_checked_add (a b : Z) : option Z :=
  if a + b <=? u64_max then Some (a + b) else None.
Definition u64_checked_sub (a b : Z) : option Z :=
  if b <=? a then Some (a - b) else None.
Definition i64_checked_add (a b : Z) : option Z :=
  if (i64_min <=? a + b) && (a + b <=? i64_max) then Some (a + b) else None.
Definition i64_checked_sub (a b : Z) : option Z :=
  if (i64_min <=? a - b) && (a - b <=? i64_max) then Some (a - b) else None.

(** [u64::try_from(i64)] and [u32::try_from(i64)]. *)
Definition u64_try_from (z : Z) : option Z :=
  if 0 <=? z then Some z else None.
Definition u32_try_from (z : Z) : option Z :=
  if (0 <=? z) && (z <=? u32_max) then Some z else None.

Definition i64_clamp (z : Z) : Z := Z.max i64_min (Z.min i64_max z).
Definition i64_saturating_add (a b : Z) : Z := i64_clamp (a + b).
Definition i64_saturating_sub (a b : Z) : Z := i64_clamp (a - b).
Definition i64_saturating_mul (a b : Z) : Z := i64_clamp (a * b).

Lemma i64_clamp_range z : in_i64 (i64_clamp z).
Proof. unfold in_i64, i64_clamp, i64_min, i64_max. lia. Qed.

Lemma i64_clamp_id z : in_i64 z → i64_clamp z = z.
Proof. unfold in_i64, i64_clamp. lia. Qed.

Lemma i64_clamp_mono a b : a ≤ b → i64_clamp a ≤ i64_clamp b.
Proof. unfold i64_clamp. lia. Qed.

(** ** Text

    A Rust [String] is its UTF-8 bytes, a [string]. *)
Definition byte_of (c : Ascii.ascii) : Z := Z.of_N (Ascii.N_of_ascii c).

Definition bytes (s : string) : list Z := byte_of <$> String.list_ascii_of_string s.

(** [s.len()]. *)
Definition byte_len (s : string) : Z := Z.of_nat (String.length s).

(** [s.chars().count()]: UTF-8 continuation bytes are [10xxxxxx]. *)
Definition is_continuation (b : Z) : bool := (128 <=? b) && (b <? 192).

Definition chars_count (s : string) : Z :=
  Z.of_nat (length (List.filter (λ b, negb (is_continuation b)) (bytes s))).

(** [s.chars().take(n)]. *)
Fixpoint take_chars (n : nat) (s : string) : string :=
  match s with
  | String.EmptyString => String.EmptyString
  | String.String c rest =>
      if is_continuation (byte_of c) then String.String c (take_chars n rest)
      else match n with
           | O => String.EmptyString
           | S n => String.String c (take_chars n rest)
           end
  end.

(** [s.chars().any(char::is_control)]: U+0000..U+001F and U+007F are one
    byte, U+0080..U+009F are encoded as [C2 80]..[C2 9F]. *)
Fixpoint any_control (l : list Z) : bool :=
  match l with
  | [] => false
  | b :: l' =>
      (b <? 32) || (b =? 127)
      || match l' with
         | b' :: _ => (b =? 194) && (128 <=? b') && (b' <? 160)
         | [] => false
         end
      || any_control l'
  end.

Definition has_control (s : string) : bool := any_control (bytes s).

Definition is_empty (s : string) : bool := String.eqb s String.EmptyString.

(** [to_ascii_lowercase] and [eq_ignore_ascii_case]. *)
Definition ascii_lower (c : Ascii.ascii) : Ascii.ascii :=
  let n := Ascii.N_of_ascii c in
  if ((65 <=? n) && (n <=? 90))%N then Ascii.ascii_of_N (n + 32) else c.

Fixpoint lower (s : string) : string :=
  match s with
  | String.EmptyString => String.EmptyString
  | String.String c s => String.String (ascii_lower c) (lower s)
  end.

Definition eq_ignore_ascii_case (a b : string) : bool := String.eqb (lower a) (lower b).

(** [str::trim]: the characters with the Unicode property White_Space, as
    UTF-8, are dropped from both ends. *)
Definition WHITE_SPACE : list (list Ascii.ascii) :=
  map (map Ascii.ascii_of_N)
    [[9]; [10]; [11]; [12]; [13]; [32]; [194; 133]; [194; 160]; [225; 154; 128];
     [226; 128; 128]; [226; 128; 129]; [226; 128; 130]; [226; 128; 131]; [226; 128; 132];
     [226; 128; 133]; [226; 128; 134]; [226; 128; 135]; [226; 128; 136]; [226; 128; 137];
     [226; 128; 138]; [226; 128; 168]; [226; 128; 169]; [226; 128; 175]; [226; 129; 159];
     [227; 128; 128]]%N.

Fixpoint strip_prefix (x l : list Ascii.ascii) : option (list Ascii.ascii) :=
  match x, l with
  | [], _ => Some l
  | a :: x, b :: l => if Ascii.eqb a b then strip_prefix x l else None
  | _, [] => None
  end.

Fixpoint skip_space (spaces : list (list Ascii.ascii)) (l : list Ascii.ascii)
    : option (list Ascii.ascii) :=
  match spaces with
  | [] => None
  | x :: spaces => match strip_prefix x l with Some l' => Some l' | None => skip_space spaces l end
  end.

Fixpoint trim_spaces (fuel : nat) (spaces : list (list Ascii.ascii)) (l : list Ascii.ascii)
    : list Ascii.ascii :=
  match fuel with
  | O => l
  | S fuel => match skip_space spaces l with Some l' => trim_spaces fuel spaces l' | None => l end
  end.

Definition trim (s : string) : string :=
  let l := String.list_ascii_of_string s in
  let l := trim_spaces (length l) WHITE_SPACE l in
  String.string_of_list_ascii (rev (trim_spaces (length l) (map (@rev _) WHITE_SPACE) (rev l))).

Lemma strip_prefix_Some x l l' : strip_prefix x l = Some l' ↔ l = x ++ l'.
Proof.
  revert l. induction x as [|a x IH]; intros [|b l]; simpl; try naive_solver.
  destruct (Ascii.eqb_spec a b) as [->|]; [rewrite IH|]; naive_solver.
Qed.

Lemma skip_space_None spaces l : skip_space spaces l = None ↔ ∀ x l', x ∈ spaces → l ≠ x ++ l'.
Proof.
  induction spaces as [|x spaces IH]; simpl; [set_solver|].
  destruct (strip_prefix x l) as [l'|] eqn:E.
  - apply strip_prefix_Some in E. split; [done|]. intros H. exfalso. by eapply (H x); [left|].
  - rewrite IH. split; [|set_solver]. intros H y l' [->|?]%elem_of_cons; [|naive_solver].
    intros Hl. apply strip_prefix_Some in Hl. congruence.
Qed.

Lemma skip_space_Some spaces l l' : skip_space spaces l = Some l' → ∃ x, x ∈ spaces ∧ l = x ++ l'.
Proof.
  induction spaces as [|x spaces IH]; simpl; [done|].
  destruct (strip_prefix x l) eqn:E; [|set_solver].
  intros [= ->]. exists x. apply strip_prefix_Some in E. set_solver.
Qed.

(** Enough fuel leaves a suffix that starts with no white space. *)
Lemma trim_front_spec fuel spaces l :
  [] ∉ spaces → (length l ≤ fuel)%nat →
  skip_space spaces (trim_spaces fuel spaces l) = None ∧ trim_spaces fuel spaces l `suffix_of` l.
Proof.
  intros Hne. revert l. induction fuel as [|fuel IH]; intros l Hl; simpl.
  - destruct l; [|simpl in Hl; lia]. split; [|done]. apply skip_space_None.
    intros [|] l' Hx; by simplify_list_eq.
  - destruct (skip_space spaces l) as [l'|] eqn:E; [|done].
    apply skip_space_Some in E as ([|a x] & Hx & ->); [done|].
    destruct (IH l') as [? Hs]; [simpl in Hl; rewrite length_app in Hl; lia|].
    split; [done|]. by apply suffix_app_r.
Qed.

Lemma trim_front_id fuel spaces l : skip_space spaces l = None → trim_spaces fuel spaces l = l.
Proof. destruct fuel; simpl; [done|]. by intros ->. Qed.

Lemma skip_space_prefix spaces l l' :
  l' `prefix_of` l → skip_space spaces l = None → skip_space spaces l' = None.
Proof.
  rewrite !skip_space_None. intros [k ->] H x y Hx ->. apply (H x (y ++ k) Hx). by rewrite <-app_assoc.
Qed.

Lemma trim_idem s : trim (trim s) = trim s.
Proof.
  unfold trim. rewrite String.list_ascii_of_string_of_list_ascii.
  set (l := trim_spaces _ WHITE_SPACE (String.list_ascii_of_string s)).
  set (r := trim_spaces (length l) _ (rev l)).
  assert (skip_space WHITE_SPACE l = None) as Hl.
  { apply trim_front_spec; [|lia]. apply (bool_decide_unpack ([] ∉ _)). by vm_compute. }
  assert (skip_space (map (@rev _) WHITE_SPACE) r = None ∧ r `suffix_of` rev l) as [Hr [k Hk]].
  { apply trim_front_spec; [|rewrite length_rev; lia]. apply (bool_decide_unpack ([] ∉ _)). by vm_compute. }
  rewrite (trim_front_id _ WHITE_SPACE (rev r)), rev_involutive; [by rewrite trim_front_id|].
  apply (skip_space_prefix _ l); [|done]. exists (rev k).
  by rewrite <-rev_app_distr, <-Hk, rev_involutive.
Qed.

(** ** Tables

    A table is the list of its rows; [SELECT], [UPDATE] and [ORDER BY] are
    the functions below. *)
Section tables.
Context {A : Type}.
Implicit Types (p : A → bool) (l : list A).

Fixpoint select p l : list A :=
  match l with
  | [] => []
  | a :: l => if p a then a :: select p l else select p l
  end.

(** [SELECT ... LIMIT 1] and [fetch_optional] by a unique key. *)
Fixpoint fetch p l : option A :=
  match l with
  | [] => None
  | a :: l => if p a then Some a else fetch p l
  end.

(** [UPDATE t SET ... WHERE p]. *)
Definition update_where p (f : A → A) l : list A :=
  (λ a, if p a then f a else a) <$> l.

(** [EXISTS (SELECT 1 FROM t WHERE p)]. *)
Definition exists_row p l : bool := existsb p l.

(** [SELECT COUNT( * ) FROM t WHERE p]. *)
Definition count_rows p l : Z := Z.of_nat (length (select p l)).

(** [SELECT SUM(f) FROM t WHERE p]. *)
Fixpoint sum_rows (f : A → Z) l : Z :=
  match l with
  | [] => 0
  | a :: l => f a + sum_rows f l
  end.

(** A stable insertion sort, for [ORDER BY] and [sort_by]. *)
Fixpoint insert_by (le : A → A → bool) a l : list A :=
  match l with
  | [] => [a]
  | b :: l' => if le a b then a :: l else b :: insert_by le a l'
  end.

Fixpoint order_by (le : A → A → bool) l : list A :=
  match l with
  | [] => []
  | a :: l => insert_by le a (order_by le l)
  end.

Lemma elem_of_select p l a : a ∈ select p l ↔ a ∈ l ∧ p a = true.
Proof.
  induction l as [|b l IH]; simpl; [set_solver|].
  destruct (p b) eqn:E; rewrite ?elem_of_cons, IH, ?elem_of_cons; intuition congruence.
Qed.

Lemma select_app p l1 l2 : select p (l1 ++ l2) = select p l1 ++ select p l2.
Proof. induction l1; simpl; [done|]. case_match; simpl; by f_equal. Qed.

Lemma select_ext p q l : (∀ a, a ∈ l → p a = q a) → select p l = select q l.
Proof.
  induction l as [|a l IH]; intros H; simpl; [done|].
  rewrite (H a) by constructor.
  rewrite IH; [done|]. intros b Hb. apply H. by constructor.
Qed.

Lemma fetch_Some p l a : fetch p l = Some a → a ∈ l ∧ p a = true.
Proof.
  induction l as [|b l IH]; simpl; [done|].
  destruct (p b) eqn:E; [intros [= ->]; split; [constructor|done]|].
  intros [? ?]%IH. split; [by constructor|done].
Qed.

Lemma fetch_None p l : fetch p l = None ↔ ∀ a, a ∈ l → p a = false.
Proof.
  induction l as [|b l IH]; simpl.
  - split; [|done]. intros _ a. set_solver.
  - destruct (p b) eqn:E; split.
    + done.
    + intros H. rewrite H in E; [done|constructor].
    + intros H a [->|?]%elem_of_cons; [done|]. by apply IH.
    + intros H. apply IH. intros a Ha. apply H. by constructor.
Qed.

Lemma fetch_app p l1 l2 :
  fetch p (l1 ++ l2) = match fetch p l1 with Some a => Some a | None => fetch p l2 end.
Proof. induction l1 as [|a l1 IH]; simpl; [done|]. by destruct (p a). Qed.

Lemma exists_row_true p l : exists_row p l = true ↔ ∃ a, a ∈ l ∧ p a = true.
Proof.
  unfold exists_row. rewrite existsb_exists. by setoid_rewrite list_elem_of_In.
Qed.

Lemma exists_row_false p l : exists_row p l = false ↔ ∀ a, a ∈ l → p a = false.
Proof.
  rewrite <-not_true_iff_false, exists_row_true. split.
  - intros H a Ha. destruct (p a) eqn:E; [|done]. exfalso. eauto.
  - intros H (a & Ha & E). rewrite H in E; done.
Qed.

Lemma elem_of_update_where p f l b :
  b ∈ update_where p f l ↔ ∃ a, a ∈ l ∧ b = if p a then f a else a.
Proof. unfold update_where. rewrite list_elem_of_fmap. naive_solver. Qed.

Lemma update_where_id p f l : (∀ a, a ∈ l → p a = false) → update_where p f l = l.
Proof.
  unfold update_where. induction l as [|a l IH]; intros H; simpl; [done|].
  rewrite (H a); [|constructor]. f_equal. apply IH. intros b Hb. apply H. by constructor.
Qed.

Lemma update_where_fmap {B} (g : A → B) p f l :
  (∀ a, g (f a) = g a) → g <$> update_where p f l = g <$> l.
Proof.
  intros H. unfold update_where. rewrite <-list_fmap_compose.
  apply list_fmap_ext. intros i a _. simpl. by case_match.
Qed.

Lemma sum_rows_app f l1 l2 : sum_rows f (l1 ++ l2) = sum_rows f l1 + sum_rows f l2.
Proof. induction l1; simpl; lia. Qed.

Lemma sum_rows_nonneg f l : (∀ a, a ∈ l → 0 ≤ f a) → 0 ≤ sum_rows f l.
Proof.
  induction l as [|a l IH]; intros H; simpl; [done|].
  assert (0 ≤ f a) by (apply H; constructor).
  assert (0 ≤ sum_rows f l) by (apply IH; intros; apply H; by constructor). lia.
Qed.

Lemma insert_by_perm le a l : insert_by le a l ≡ₚ a :: l.
Proof.
  induction l as [|b l IH]; simpl; [done|].
  case_match; [done|]. rewrite IH. constructor.
Qed.

Lemma order_by_perm le l : order_by le l ≡ₚ l.
Proof. induction l; simpl; [done|]. rewrite insert_by_perm. by f_equiv. Qed.

Lemma elem_of_order_by le l a : a ∈ order_by le l ↔ a ∈ l.
Proof. by rewrite order_by_perm. Qed.

Lemma order_by_head_elem le l a : head (order_by le l) = Some a → a ∈ l.
Proof.
  intros E. apply (elem_of_order_by le). destruct (order_by le l); [done|].
  injection E as ->. constructor.
Qed.
End tables.

Lemma update_where_exists {A} (q r : A → bool) (f : A → A) l :
  (∀ a, q (f a) = q a) → exists_row q (update_where r f l) = exists_row q l.
Proof.
  intros Hq. unfold exists_row, update_where. induction l as [|a l IH]; simpl; [done|].
  rewrite <-IH. by destruct (r a); rewrite ?Hq.
Qed.

Lemma exists_row_app {A} (q : A → bool) l l' :
  exists_row q (l ++ l') = exists_row q l || exists_row q l'.
Proof. apply existsb_app. Qed.

Lemma count_rows_app {A} (q : A → bool) l l' : count_rows q (l ++ l') = count_rows q l + count_rows q l'.
Proof. unfold count_rows. rewrite select_app, length_app. lia. Qed.

Lemma count_rows_ext {A} (q r : A → bool) l :
  (∀ a, a ∈ l → q a = r a) → count_rows q l = count_rows r l.
Proof. intros Hq. unfold count_rows. by rewrite (select_ext q r). Qed.

Lemma count_rows_one {A} (q : A → bool) a : count_rows q [a] = if q a then 1 else 0.
Proof. unfold count_rows. simpl. by destruct (q a). Qed.

(** A primary key tells rows apart. *)
Lemma count_rows_pos {A} (q : A → bool) l : 0 < count_rows q l → ∃ a, a ∈ l ∧ q a = true.
Proof.
  unfold count_rows. destruct (select q l) as [|a l'] eqn:E; simpl; [lia|]. intros _. exists a.
  apply elem_of_select. rewrite E. left.
Qed.

Lemma unique_by {A B} (key : A → B) (l : list A) a b :
  NoDup (key <$> l) → a ∈ l → b ∈ l → key a = key b → a = b.
Proof.
  intros Hnd [i Hi]%list_elem_of_lookup [j Hj]%list_elem_of_lookup Hk.
  assert (i = j) as ->; [|congruence].
  apply (NoDup_lookup _ i j (key a) Hnd); rewrite list_lookup_fmap, ?Hi, ?Hj; simpl; congruence.
Qed.

(** No row carries a name that [EXISTS] did not find, and conversely. *)
Lemma no_row_named {A} (name : A → string) (id : string) (l : list A) :
  exists_row (λ a, String.eqb (name a) id) l = false ↔ ∀ a, a ∈ l → name a ≠ id.
Proof. rewrite exists_row_false. by setoid_rewrite String.eqb_neq. Qed.

(** A row inserted under a fresh name is the one a lookup by it finds. *)
Lemma fetch_fresh {A} (name : A → string) (id : string) (l : list A) (a : A) :
  (∀ b, b ∈ l → name b ≠ id) → name a = id →
  fetch (λ b, String.eqb (name b) id) (l ++ [a]) = Some a.
Proof.
  intros Hl <-. rewrite fetch_app, (proj2 (fetch_None _ _)); simpl.
  - by rewrite String.eqb_refl.
  - intros b Hb. apply String.eqb_neq. by apply Hl.
Qed.

(** ** Appended texts *)
Lemma string_length_app (s t : string) :
  String.length (s +:+ t) = (String.length s + String.length t)%nat.
Proof.
  induction s as [|c s IH]; [done|].
  change (S (String.length (s +:+ t)) = S (String.length s) + String.length t)%nat. by rewrite IH.
Qed.

Lemma same_length_split (s s' t t' : string) :
  String.length s = String.length s' → s +:+ t = s' +:+ t' → s = s' ∧ t = t'.
Proof.
  revert s'. induction s as [|x s IH]; intros [|x' s'] Hl Heq; simpl in *; try done.
  injection Heq as <- Heq. injection Hl as Hl. by destruct (IH s' Hl Heq) as [-> ->].
Qed.

(** ** Sortedness of [order_by] *)
Section order_by_sorted.
Context {A : Type} (le : A → A → bool).
Hypothesis le_total : ∀ a b, le a b = true ∨ le b a = true.
Hypothesis le_trans : ∀ a b c, le a b = true → le b c = true → le a c = true.

Lemma insert_by_sorted a l :
  StronglySorted (λ x y, le x y = true) l →
  StronglySorted (λ x y, le x y = true) (insert_by le a l).
Proof.
  induction 1 as [|b l Hl IH Hb]; simpl; [repeat constructor|].
  destruct (le a b) eqn:E.
  - constructor; [by constructor|]. constructor; [done|].
    eapply Forall_impl; [exact Hb|]. simpl. eauto.
  - constructor; [done|]. rewrite insert_by_perm. constructor; [|done].
    destruct (le_total a b); congruence.
Qed.

Lemma order_by_sorted l : StronglySorted (λ x y, le x y = true) (order_by le l).
Proof. induction l; simpl; [constructor|]. by apply insert_by_sorted. Qed.

(** The row [ORDER BY ... LIMIT 1] returns is below every row. *)
Lemma order_by_head l a l' :
  order_by le l = a :: l' → ∀ b, b ∈ l → le a b = true.
Proof.
  intros E b Hb. pose proof (order_by_sorted l) as S. rewrite E in S.
  apply (elem_of_order_by le) in Hb. rewrite E in Hb.
  inversion S as [|? ? _ HF]; subst.
  apply elem_of_cons in Hb as [->|Hb].
  - by destruct (le_total a a).
  - rewrite Forall_forall in HF. by apply HF.
Qed.
End order_by_sorted.

Lemma gtb_false a b : a ≤ b → (a >? b) = false.
Proof. rewrite Z.gtb_ltb. apply Z.ltb_ge. Qed.

(** Text is ordered as SQLite's [BINARY] collation orders it. *)
Lemma string_leb_trans a b c :
  String.leb a b = true → String.leb b c = true → String.leb a c = true.
Proof.
  unfold String.leb. revert b c.
  induction a as [|x a IH]; intros [|y b] [|z c]; simpl; try done.
  unfold Ascii.compare. specialize (IH b c).
  destruct (N.compare_spec (Ascii.N_of_ascii x) (Ascii.N_of_ascii y)),
    (N.compare_spec (Ascii.N_of_ascii y) (Ascii.N_of_ascii z)),
    (N.compare_spec (Ascii.N_of_ascii x) (Ascii.N_of_ascii z)); try done; try lia.
Qed.

(** A lexicographic order: the integer key decides unless it is equal. *)
Definition lex_le {A} (key : A → Z) (le : A → A → bool) (a b : A) : bool :=
  if key a <? key b then true else if key b <? key a then false else le a b.

Lemma lex_le_total {A} (key : A → Z) le :
  (∀ a b : A, le a b = true ∨ le b a = true) →
  ∀ a b, lex_le key le a b = true ∨ lex_le key le b a = true.
Proof.
  intros Ht a b. unfold lex_le.
  destruct (Z.ltb_spec (key a) (key b)), (Z.ltb_spec (key b) (key a)); auto.
Qed.

Lemma lex_le_trans {A} (key : A → Z) le :
  (∀ a b c : A, le a b = true → le b c = true → le a c = true) →
  ∀ a b c, lex_le key le a b = true → lex_le key le b c = true → lex_le key le a c = true.
Proof.
  intros Ht a b c. unfold lex_le.
  destruct (Z.ltb_spec (key a) (key b)), (Z.ltb_spec (key b) (key a)), (Z.ltb_spec (key b) (key c)),
    (Z.ltb_spec (key c) (key b)), (Z.ltb_spec (key a) (key c)), (Z.ltb_spec (key c) (key a));
    try done; try lia. apply Ht.
Qed.

(** A prefix of a sorted list is closed downwards. *)
Lemma sorted_take_closed {A} (R : A → A → Prop) (l : list A) n a b :
  StronglySorted R l → a ∈ l → b ∈ take n l → ¬ R b a → a ∈ take n l.
Proof.
  intros Hs Ha Hb Hn. rewrite <-(take_drop n l) in Hs, Ha.
  apply elem_of_app in Ha as [Ha|Ha]; [done|]. exfalso. apply Hn.
  clear Hn. induction (take n l) as [|x t IH]; [set_solver|].
  inversion Hs as [|? ? Hs' Hf]; subst. apply elem_of_cons in Hb as [->|Hb]; [|by apply IH].
  rewrite Forall_forall in Hf. apply Hf. set_solver.
Qed.

(** ** Automation *)
Create HintDb fleet.
#[export] Hint Constructors rtc : fleet.

Lemma bind_Ok {A B E} (r : Result A E) (k : A → Result B E) b :
  result_bind r k = Ok b ↔ ∃ a, r = Ok a ∧ k a = Ok b.
Proof.
  destruct r as [a|e]; simpl; split.
  - eauto.
  - by intros (? & [= ->] & ?).
  - done.
  - by intros (? & ? & ?).
Qed.

Lemma map_err_Ok {A E F} (f : E → F) (r : Result A E) a : map_err f r = Ok a ↔ r = Ok a.
Proof. destruct r; simpl; split; congruence. Qed.

Lemma ok_or_Ok {A E} (e : E) (o : option A) a : ok_or e o = Ok a ↔ o = Some a.
Proof. destruct o; simpl; split; congruence. Qed.

(** Read a successful run of a fallible block backwards: every [?] on the way
    returned a value and every guard that returns an error was false. *)
Ltac inv_result :=
  repeat match goal with
  | H : Ok _ = Ok _ |- _ => injection H as H; try subst
  | H : Err _ = Ok _ |- _ => discriminate H
  | H : Ok _ = Err _ |- _ => discriminate H
  | H : Some _ = Some _ |- _ => injection H as H; try subst
  | H : None = Some _ |- _ => discriminate H
  | H : Some _ = None |- _ => discriminate H
  | H : result_bind _ _ = Ok _ |- _ =>
      let x := fresh "x" in let Hx := fresh "Hx" in
      apply bind_Ok in H as (x & Hx & H)
  | H : map_err _ _ = Ok _ |- _ => apply map_err_Ok in H
  | H : ok_or _ _ = Ok _ |- _ => apply ok_or_Ok in H
  | H : (if ?b then Err _ else _) = Ok _ |- _ =>
      let E := fresh "E" in destruct b eqn:E; [discriminate H|]
  | H : (if ?b then _ else Err _) = Ok _ |- _ =>
      let E := fresh "E" in destruct b eqn:E; [|discriminate H]
  | H : (if ?b then None else _) = Some _ |- _ =>
      let E := fresh "E" in destruct b eqn:E; [discriminate H|]
  | H : (if ?b then _ else None) = Some _ |- _ =>
      let E := fresh "E" in destruct b eqn:E; [|discriminate H]
  end.

(** Turn the boolean tests of the code into the propositions they decide. *)
Ltac bool_to_prop :=
  repeat match goal with
  | H : (_ && _)%bool = true |- _ => apply andb_true_iff in H as [? ?]
  | H : (_ || _)%bool = false |- _ => apply orb_false_iff in H as [? ?]
  | H : negb _ = true |- _ => apply negb_true_iff in H
  | H : negb _ = false |- _ => apply negb_false_iff in H
  | H : (_ <=? _) = true |- _ => apply Z.leb_le in H
  | H : (_ <=? _) = false |- _ => apply Z.leb_gt in H
  | H : (_ <? _) = true |- _ => apply Z.ltb_lt in H
  | H : (_ <? _) = false |- _ => apply Z.ltb_ge in H
  | H : (_ =? _) = true |- _ => apply Z.eqb_eq in H
  | H : (_ =? _) = false |- _ => apply Z.eqb_neq in H
  | H : String.eqb _ _ = true |- _ => apply String.eqb_eq in H
  | H : String.eqb _ _ = false |- _ => apply String.eqb_neq in H
  | H : bool_decide _ = true |- _ => apply bool_decide_eq_true in H
  | H : bool_decide _ = false |- _ => apply bool_decide_eq_false in H
  end.

(** Also split the tests that leave two possibilities. *)
Ltac bool_cases :=
  repeat (bool_to_prop;
    match goal with
    | H : (_ || _)%bool = true |- _ => apply orb_true_iff in H as [H|H]
    | H : (_ && _)%bool = false |- _ => apply andb_false_iff in H as [H|H]
    end); bool_to_prop.

(** Case analysis on every scrutinee in the goal, closing what is closed. *)
Ltac crush_match := repeat (case_match; simplify_eq/=; try done).

Lemma traverse_Ok {A B E} (f : A → Result B E) l bs :
  traverse f l = Ok bs ↔ Forall2 (λ a b, f a = Ok b) l bs.
Proof.
  revert bs. induction l as [|a l IH]; intros bs; simpl.
  - split; [intros [= <-]; constructor|by inversion 1].
  - rewrite bind_Ok. setoid_rewrite bind_Ok. split.
    + intros (b & Hb & bs' & Hbs & [= <-]). constructor; [done|by apply IH].
    + inversion 1; subst. eexists; split; [done|]. eexists; split; [by apply IH|done].
Qed.

Lemma NoDup_snoc {A B} (f : A → B) l a :
  NoDup (f <$> l) → (∀ b, b ∈ l → f b ≠ f a) → NoDup (f <$> (l ++ [a])%list).
Proof.
  intros Hnd Hf. rewrite fmap_app. apply NoDup_app. split; [done|]. split; [|by apply NoDup_singleton].
  intros x (b & -> & Hb)%list_elem_of_fmap Hx%list_elem_of_singleton. by apply (Hf b).
Qed.

Lemma update_where_fmap_in {A B} (g : A → B) q f l :
  (∀ a, a ∈ l → q a = true → g (f a) = g a) → g <$> update_where q f l = g <$> l.
Proof.
  intros Hg. unfold update_where. rewrite <-list_fmap_compose. apply list_fmap_ext.
  intros i a Ha%list_elem_of_lookup_2. simpl. destruct (q a) eqn:E; [by apply Hg|done].
Qed.

(** The one row with a key. *)
Lemma count_one {A B} (key : A → B) (q : A → bool) l a :
  NoDup (key <$> l) → a ∈ l → q a = true → (∀ b, b ∈ l → q b = true → key b = key a) →
  count_rows q l = 1.
Proof.
  intros Hnd Ha Hq Hkey. unfold count_rows.
  assert (select q l = [a]) as ->; [|done].
  assert (NoDup (key <$> select q l)) as Hs.
  { clear -Hnd. induction l as [|b l IH]; simpl in *; [constructor|].
    apply NoDup_cons in Hnd as [Hb Hnd]. destruct (q b); simpl; [|auto]. apply NoDup_cons. split; [|auto].
    intros (c & Ec & [Hc _]%elem_of_select)%list_elem_of_fmap. apply Hb, list_elem_of_fmap. eauto. }
  assert (a ∈ select q l) as Hin by by apply elem_of_select.
  assert (∀ b, b ∈ select q l → b = a) as Hall.
  { intros b [Hb Hqb]%elem_of_select. eapply unique_by; [exact Hnd|done..|by apply Hkey]. }
  destruct (select q l) as [|x [|y l']]; [by apply elem_of_nil in Hin| |].
  - by rewrite (Hall x) by left.
  - exfalso. rewrite (Hall x), (Hall y) in Hs by set_solver. simpl in Hs.
    apply NoDup_cons in Hs as [Hs _]. apply Hs. left.
Qed.

Lemma fetch_unique {A B} (key : A → B) (q : A → bool) l a :
  NoDup (key <$> l) → a ∈ l → q a = true → (∀ b, b ∈ l → q b = true → key b = key a) →
  fetch q l = Some a.
Proof.
  intros Hnd Ha Hq Hkey. destruct (fetch q l) as [b|] eqn:E.
  - apply fetch_Some in E as [Hb Hqb]. f_equal. eapply unique_by; [exact Hnd|done..|by apply Hkey].
  - rewrite fetch_None in E. rewrite (E a Ha) in Hq. done.
Qed.

(** Counting pairs by rows or by columns. *)
Lemma count_rows_cons {A} (q : A → bool) a l :
  count_rows q (a :: l) = (if q a then 1 else 0) + count_rows q l.
Proof. unfold count_rows. simpl. destruct (q a); simpl; lia. Qed.

Lemma count_rows_none {A} (q : A → bool) l : (∀ a, a ∈ l → q a = false) → count_rows q l = 0.
Proof.
  intros Hq. induction l as [|a l IH]; [done|]. rewrite count_rows_cons, Hq by left.
  rewrite IH; [done|]. intros b Hb. apply Hq. by right.
Qed.

Lemma sum_rows_plus {A} (f g : A → Z) l : sum_rows (λ a, f a + g a) l = sum_rows f l + sum_rows g l.
Proof. induction l; simpl; lia. Qed.

Lemma sum_rows_ext {A} (f g : A → Z) l : (∀ a, a ∈ l → f a = g a) → sum_rows f l = sum_rows g l.
Proof.
  induction l as [|a l IH]; simpl; intros Hf; [done|]. rewrite Hf by left. rewrite IH; [done|].
  intros b Hb. apply Hf. by right.
Qed.

Lemma count_rows_sum {A} (q : A → bool) l : count_rows q l = sum_rows (λ a, if q a then 1 else 0) l.
Proof. induction l as [|a l IH]; [done|]. rewrite count_rows_cons, IH. done. Qed.

Lemma count_rows_swap {A B} (r : A → B → bool) (la : list A) (lb : list B) :
  sum_rows (λ a, count_rows (r a) lb) la = sum_rows (λ b, count_rows (λ a, r a b) la) lb.
Proof.
  induction la as [|a la IH]; simpl.
  - induction lb; simpl; [done|]. unfold count_rows at 1. simpl. lia.
  - rewrite IH, count_rows_sum, <-sum_rows_plus. apply sum_rows_ext. intros b _.
    by rewrite count_rows_cons.
Qed.

(** Loop invariants for [try_fold]. *)
Lemma try_fold_ind {S A E} (f : S → A → Result S E) (P : S → Prop) l s s' :
  (∀ s a s', a ∈ l → P s → f s a = Ok s' → P s') →
  P s → try_fold f s l = Ok s' → P s'.
Proof.
  revert s. induction l as [|a l IH]; intros s HP Hs H; simpl in H.
  - by injection H as <-.
  - inv_result. eapply (IH x); [|eapply HP; [by constructor| |]; eauto|done].
    intros s1 b s2 Hb. apply HP. by constructor.
Qed.

(** A loop that only checks, checks every element. *)
Lemma try_fold_each {A E} (f : A → Result unit E) l u :
  try_fold (λ _ a, f a) tt l = Ok u → ∀ a, a ∈ l → f a = Ok tt.
Proof.
  induction l as [|b l IH]; simpl; intros H a Ha; [by inversion Ha|].
  inv_result. destruct x. apply elem_of_cons in Ha as [->|Ha]; [done|by apply IH].
Qed.

Lemma fold_left_ind {S A} (f : S → A → S) (P : S → Prop) l s :
  (∀ s a, a ∈ l → P s → P (f s a)) → P s → P (fold_left f l s).
Proof.
  revert s. induction l as [|a l IH]; intros s HP Hs; simpl; [done|].
  apply IH; [|apply HP; [constructor|done]].
  intros. apply HP; [by constructor|done].
Qed.
