(* ===== verification/Base64.v ===== *)
(** * URL-safe base64 without padding
    (the [base64] crate's [URL_SAFE_NO_PAD] engine, which the sources use for
    chunk content, digests and sealed values).

    Decoding is strict, as the engine's default is: no padding, no trailing
    bits, no character outside the alphabet. *)
From S2P Require Import Prelude.

Definition is_byte (b : Z) : Prop := 0 ≤ b < 256.

Definition char_of (b : Z) : Ascii.ascii := Ascii.ascii_of_N (Z.to_N b).

(** Digits to characters: [A]..[Z], [a]..[z], [0]..[9], [-], [_]. *)
Definition alphabet (d : Z) : Ascii.ascii :=
  char_of (if d <? 26 then 65 + d
           else if d <? 52 then 71 + d
           else if d <? 62 then d - 4
           else if d =? 62 then 45 else 95).

Definition digit (c : Ascii.ascii) : option Z :=
  let n := byte_of c in
  if (65 <=? n) && (n <=? 90) then Some (n - 65)
  else if (97 <=? n) && (n <=? 122) then Some (n - 71)
  else if (48 <=? n) && (n <=? 57) then Some (n + 4)
  else if n =? 45 then Some 62
  else if n =? 95 then Some 63 else None.

Fixpoint to_digits (bs : list Z) : list Z :=
  match bs with
  | b0 :: b1 :: b2 :: bs =>
      b0 / 4 :: b0 mod 4 * 16 + b1 / 16 :: b1 mod 16 * 4 + b2 / 64 :: b2 mod 64 :: to_digits bs
  | [b0; b1] => [b0 / 4; b0 mod 4 * 16 + b1 / 16; b1 mod 16 * 4]
  | [b0] => [b0 / 4; b0 mod 4 * 16]
  | [] => []
  end.

Fixpoint of_digits (ds : list Z) : option (list Z) :=
  match ds with
  | d0 :: d1 :: d2 :: d3 :: ds =>
      bs ← of_digits ds;
      Some (d0 * 4 + d1 / 16 :: d1 mod 16 * 16 + d2 / 4 :: d2 mod 4 * 64 + d3 :: bs)
  | [d0; d1; d2] =>
      if d2 mod 4 =? 0 then Some [d0 * 4 + d1 / 16; d1 mod 16 * 16 + d2 / 4] else None
  | [d0; d1] => if d1 mod 16 =? 0 then Some [d0 * 4 + d1 / 16] else None
  | [_] => None
  | [] => Some []
  end.

Definition b64_encode (bs : list Z) : string :=
  String.string_of_list_ascii (alphabet <$> to_digits bs).

Definition b64_decode (s : string) : option (list Z) :=
  mapM digit (String.list_ascii_of_string s) ≫= of_digits.

(** ** Round trip *)
Lemma byte_of_char_of b : is_byte b → byte_of (char_of b) = b.
Proof. unfold is_byte, byte_of, char_of. intros Hb. rewrite Ascii.N_ascii_embedding; lia. Qed.

Lemma byte_of_range c : is_byte (byte_of c).
Proof. unfold is_byte, byte_of. pose proof (Ascii.N_ascii_bounded c). lia. Qed.

Definition is_digit (d : Z) : Prop := 0 ≤ d < 64.

Lemma digit_alphabet d : is_digit d → digit (alphabet d) = Some d.
Proof.
  unfold is_digit, digit, alphabet. intros Hd.
  destruct (Z.ltb_spec d 26); [|destruct (Z.ltb_spec d 52); [|destruct (Z.ltb_spec d 62);
    [|destruct (Z.eqb_spec d 62)]]]; rewrite byte_of_char_of by (unfold is_byte; lia);
    repeat (case_match; bool_cases; try lia); f_equal; lia.
Qed.

Lemma digit_range c d : digit c = Some d → is_digit d.
Proof.
  unfold digit, is_digit. intros H.
  repeat (case_match; bool_to_prop; simplify_eq; try lia).
Qed.

Ltac div_lia := Z.to_euclidean_division_equations; lia.

Lemma to_digits_range bs : Forall is_byte bs → Forall is_digit (to_digits bs).
Proof.
  unfold is_byte, is_digit. revert bs. fix IH 1. intros [|b0 [|b1 [|b2 bs]]] Hb; simpl; [constructor|..];
    repeat match goal with H : Forall _ (_ :: _) |- _ => inversion H; clear H; subst end.
  - repeat constructor; div_lia.
  - repeat constructor; div_lia.
  - repeat (constructor; [div_lia|]). by apply IH.
Qed.

Lemma of_to_digits bs : Forall is_byte bs → of_digits (to_digits bs) = Some bs.
Proof.
  unfold is_byte. revert bs. fix IH 1. intros [|b0 [|b1 [|b2 bs]]] Hb; simpl; [done|..];
    repeat match goal with H : Forall _ (_ :: _) |- _ => inversion H; clear H; subst end.
  - case_match; bool_to_prop; [|exfalso; div_lia]. repeat f_equal. div_lia.
  - case_match; bool_to_prop; [|exfalso; div_lia]. do 2 f_equal; [div_lia|f_equal; div_lia].
  - rewrite IH by done. simpl. do 2 f_equal; [div_lia|]. f_equal; [div_lia|]. f_equal. div_lia.
Qed.

Lemma of_digits_bytes ds bs : Forall is_digit ds → of_digits ds = Some bs → Forall is_byte bs.
Proof.
  unfold is_byte, is_digit. revert ds bs. fix IH 1. intros [|d0 [|d1 [|d2 [|d3 ds]]]] bs Hd E; simpl in E;
    repeat match goal with H : Forall _ (_ :: _) |- _ => inversion H; clear H; subst end.
  - injection E as <-. constructor.
  - done.
  - case_match; simplify_eq. bool_to_prop. constructor; [div_lia|constructor].
  - case_match; simplify_eq. bool_to_prop. constructor; [div_lia|]. constructor; [div_lia|constructor].
  - apply bind_Some in E as (bs' & E & [= <-]). repeat (constructor; [div_lia|]). by eapply IH.
Qed.

Lemma mapM_digit ds : Forall is_digit ds → mapM digit (alphabet <$> ds) = Some ds.
Proof.
  intros Hd. apply mapM_Some, Forall2_fmap_l, Forall_Forall2_diag.
  eapply Forall_impl; [exact Hd|]. intros. by apply digit_alphabet.
Qed.

Lemma b64_decode_encode bs : Forall is_byte bs → b64_decode (b64_encode bs) = Some bs.
Proof.
  intros Hb. unfold b64_decode, b64_encode. rewrite String.list_ascii_of_string_of_list_ascii.
  rewrite mapM_digit by by apply to_digits_range. simpl. by apply of_to_digits.
Qed.

Lemma b64_decode_bytes s bs : b64_decode s = Some bs → Forall is_byte bs.
Proof.
  unfold b64_decode. intros (ds & Hd & E)%bind_Some. eapply of_digits_bytes; [|exact E].
  apply mapM_Some in Hd. clear E. induction Hd; constructor; eauto using digit_range.
Qed.

Lemma to_digits_length bs :
  Z.of_nat (length (to_digits bs)) ≤ (Z.of_nat (length bs) + 2) / 3 * 4.
Proof.
  revert bs. fix IH 1. intros [|b0 [|b1 [|b2 bs]]]; simpl; [done..|].
  specialize (IH bs). div_lia.
Qed.

Lemma string_of_list_length l : String.length (String.string_of_list_ascii l) = length l.
Proof. induction l; simpl; by f_equal. Qed.

Lemma b64_encode_len bs : byte_len (b64_encode bs) ≤ (Z.of_nat (length bs) + 2) / 3 * 4.
Proof.
  unfold byte_len, b64_encode. rewrite string_of_list_length, length_fmap. apply to_digits_length.
Qed.

(** No encoded text contains a full stop, which sealed values split on. *)
Lemma alphabet_no_dot d : is_digit d → byte_of (alphabet d) ≠ 46.
Proof.
  unfold is_digit, alphabet. intros Hd.
  repeat case_match; bool_to_prop; rewrite byte_of_char_of by (unfold is_byte; lia); lia.
Qed.
