(* ===== verification/Ids.v ===== *)
(** * Strong identifiers, bounded counters and bounded text
    ([crates/gridops-core/src/fleet/ids.rs]).

    A UUID is its 128-bit value; the nil UUID is 0.  How UUID text is parsed
    and printed belongs to the [uuid] crate, so it is the class [UuidText]. *)
From S2P Require Import Prelude.

Notation Uuid := Z (only parsing).

Definition is_nil (u : Uuid) : bool := u =? 0.

(** What the [uuid] crate provides: [Uuid::parse_str] and [Display].  The laws
    are the crate's documented behaviour for 128-bit values: printing is the
    36-character hyphenated form and parsing reads it back. *)
Class UuidText := {
  parse_str : string → option Uuid;
  to_string : Uuid → string;
  parse_to_string : ∀ u, 0 ≤ u < 2 ^ 128 → parse_str (to_string u) = Some u;
  to_string_length : ∀ u, String.length (to_string u) = 36%nat;
}.

Inductive NilFleetUuid := NilFleetUuidError.

Inductive FleetIdParseError :=
| Malformed
| Nil.

(** The [fleet_uuid!] macro: [try_new] and [FromStr]. *)
Definition fleet_uuid_try_new (value : Uuid) : Result Uuid NilFleetUuid :=
  if is_nil value then Err NilFleetUuidError else Ok value.

Definition fleet_uuid_from_str `{UuidText} (value : string) : Result Uuid FleetIdParseError :=
  let? u := ok_or Malformed (parse_str value) in
  map_err (λ _, Nil) (fleet_uuid_try_new u).

Definition MAX_COUNTER : Z := i64_max.

Inductive CounterKind := CounterHostEpoch | CounterGeneration | CounterRevision.

Record CounterError := { counter_kind : CounterKind; counter_value : Z }.

(** The [bounded_counter!] macro: [TryFrom<u64>]. *)
Definition counter_try_from (kind : CounterKind) (value : Z) : Result Z CounterError :=
  if (value =? 0) || (value >? MAX_COUNTER)
  then Err {| counter_kind := kind; counter_value := value |}
  else Ok value.

Definition HostEpoch_new : Z → Result Z CounterError := counter_try_from CounterHostEpoch.
Definition Generation_new : Z → Result Z CounterError := counter_try_from CounterGeneration.
Definition Revision_new : Z → Result Z CounterError := counter_try_from CounterRevision.

Inductive FleetTextError := TextEmpty | TextTooLong (max : Z) | TextControl.

Definition UpstreamText_new (value : string) : Result string FleetTextError :=
  if is_empty value then Err TextEmpty
  else if chars_count value >? 128 then Err (TextTooLong 128)
  else if has_control value then Err TextControl
  else Ok value.

Lemma fleet_uuid_try_new_Ok u v : fleet_uuid_try_new u = Ok v ↔ v = u ∧ u ≠ 0.
Proof.
  unfold fleet_uuid_try_new, is_nil. destruct (Z.eqb_spec u 0); split; intros; simplify_eq; naive_solver.
Qed.

Lemma counter_try_from_Ok k z v :
  in_u64 z → counter_try_from k z = Ok v ↔ v = z ∧ 1 ≤ z ≤ MAX_COUNTER.
Proof.
  unfold in_u64, counter_try_from, MAX_COUNTER. intros Hz.
  destruct (Z.eqb_spec z 0); [simpl; split; [done|lia]|].
  destruct (Z.gtb_spec z i64_max); simpl; split.
  - done.
  - lia.
  - intros [= <-]. lia.
  - by intros [-> _].
Qed.

Lemma UpstreamText_new_Ok s v :
  UpstreamText_new s = Ok v ↔
  v = s ∧ s ≠ String.EmptyString ∧ chars_count s ≤ 128 ∧ has_control s = false.
Proof.
  unfold UpstreamText_new, is_empty.
  destruct (String.eqb_spec s String.EmptyString); [naive_solver|].
  destruct (Z.gtb_spec (chars_count s) 128); [split; [done|intros (?&?&?&?); lia]|].
  destruct (has_control s) eqn:E; split; intros; simplify_eq; naive_solver.
Qed.

(** Printing a non-nil identifier and reading it back gives it back. *)
Lemma fleet_uuid_roundtrip `{UuidText} u :
  0 < u < 2 ^ 128 → fleet_uuid_from_str (to_string u) = Ok u.
Proof.
  intros Hu. unfold fleet_uuid_from_str. rewrite parse_to_string by lia. simpl.
  unfold fleet_uuid_try_new, is_nil. destruct (Z.eqb_spec u 0); [lia|done].
Qed.

(** ** The hyphenated UUID form, a concrete [UuidText] *)
Module Hyphenated.
(** [n] hexadecimal digits of [u], most significant first. *)
Fixpoint digits (n : nat) (u : Z) : list Z :=
  match n with
  | O => []
  | S n => digits n (u / 16) ++ [u mod 16]
  end.

Definition value (l : list Z) : Z := fold_left (λ acc d, 16 * acc + d) l 0.

Definition digit_char (d : Z) : Ascii.ascii :=
  Ascii.ascii_of_N (Z.to_N (if d <? 10 then 48 + d else 87 + d)).

Definition char_digit (c : Ascii.ascii) : option Z :=
  let n := Z.of_N (Ascii.N_of_ascii c) in
  if (48 <=? n) && (n <=? 57) then Some (n - 48)
  else if (97 <=? n) && (n <=? 102) then Some (n - 87) else None.

Definition hyphen : Ascii.ascii := Ascii.ascii_of_N 45.

Definition hyphenate (l : list Ascii.ascii) : list Ascii.ascii :=
  take 8 l ++ hyphen :: take 4 (drop 8 l) ++ hyphen :: take 4 (drop 12 l)
    ++ hyphen :: take 4 (drop 16 l) ++ hyphen :: drop 20 l.

Definition unhyphenate (l : list Ascii.ascii) : list Ascii.ascii :=
  take 8 l ++ take 4 (drop 9 l) ++ take 4 (drop 14 l) ++ take 4 (drop 19 l) ++ drop 24 l.

Definition print (u : Uuid) : string :=
  String.string_of_list_ascii (hyphenate (digit_char <$> digits 32 u)).

Definition parse (s : string) : option Uuid :=
  value <$> mapM char_digit (unhyphenate (String.list_ascii_of_string s)).

Lemma digits_length n u : length (digits n u) = n.
Proof.
  revert u. induction n as [|n IH]; intros u; simpl; [done|].
  rewrite length_app, IH. simpl. lia.
Qed.

Lemma value_digits n u : 0 ≤ u < 16 ^ Z.of_nat n → value (digits n u) = u.
Proof.
  revert u. induction n as [|n IH]; intros u Hu; [cbn in *; lia|].
  rewrite Nat2Z.inj_succ, Z.pow_succ_r in Hu by lia.
  cbn [digits]. unfold value in *. rewrite fold_left_app, IH; cbn [fold_left].
  - pose proof (Z.div_mod u 16 ltac:(done)). lia.
  - split; [apply Z.div_pos; lia|]. apply Z.div_lt_upper_bound; lia.
Qed.

Lemma digits_range n u : Forall (λ d, 0 ≤ d < 16) (digits n u).
Proof.
  revert u. induction n as [|n IH]; intros u; simpl; [constructor|].
  apply Forall_app. split; [done|]. constructor; [|done]. apply Z.mod_pos_bound. lia.
Qed.

Lemma char_digit_char d : 0 ≤ d < 16 → char_digit (digit_char d) = Some d.
Proof.
  intros Hd.
  assert (d = 0 ∨ d = 1 ∨ d = 2 ∨ d = 3 ∨ d = 4 ∨ d = 5 ∨ d = 6 ∨ d = 7 ∨ d = 8 ∨ d = 9
    ∨ d = 10 ∨ d = 11 ∨ d = 12 ∨ d = 13 ∨ d = 14 ∨ d = 15) as Hcases by lia.
  destruct_or! Hcases; by subst.
Qed.

Lemma unhyphenate_hyphenate l : length l = 32%nat → unhyphenate (hyphenate l) = l.
Proof.
  intros Hl. do 32 (destruct l as [|? l]; [done|]). by destruct l.
Qed.

Lemma mapM_char_digit l :
  Forall (λ d, 0 ≤ d < 16) l → mapM char_digit (digit_char <$> l) = Some l.
Proof.
  intros Hl. apply mapM_Some. rewrite Forall2_fmap_l. apply Forall_Forall2_diag.
  eapply Forall_impl; [exact Hl|]. intros. by apply char_digit_char.
Qed.

#[program] Definition uuid_text : UuidText :=
  {| parse_str := parse; to_string := print |}.
Next Obligation.
  intros u Hu. unfold parse, print. rewrite String.list_ascii_of_string_of_list_ascii.
  rewrite unhyphenate_hyphenate by (by rewrite length_fmap, digits_length).
  rewrite mapM_char_digit by apply digits_range.
  transitivity (Some (value (digits 32 u))); [reflexivity|]. f_equal.
  apply value_digits. change (16 ^ Z.of_nat 32) with (2 ^ 128). lia.
Qed.
Next Obligation.
  intros u. unfold print. pose proof (digits_length 32 u) as Hl.
  rewrite <-(length_fmap digit_char) in Hl.
  remember (digit_char <$> digits 32 u) as l eqn:E. clear E.
  do 32 (destruct l as [|? l]; [done|]). by destruct l.
Qed.
End Hyphenated.
