(* ===== verification/Domain.v ===== *)
(** * Fleet domain values, lifecycle axes and resource arithmetic
    ([crates/gridops-core/src/fleet/domain.rs]).

    Every enum keeps the source's constructors; every [transition] is the
    source's match on (current, next).  A setter that takes [&mut self] is a
    function returning the new value, and leaves [self] alone on [Err]. *)
From S2P Require Import Prelude Ids.
From stdpp Require Import pretty.
#[local] Open Scope string_scope.
#[local] Open Scope Z_scope.

(** ** Upstream identities *)
Record ExternalIdError := { ext_value : Z; ext_max : Z }.

Definition ExternalId_try_from (value : Z) : Result Z ExternalIdError :=
  if (value =? 0) || (value >? i64_max)
  then Err {| ext_value := value; ext_max := i64_max |}
  else Ok value.

Definition BitbucketConnectionId_new (value : string) : Result string FleetTextError :=
  UpstreamText_new value.

Definition NonNilTargetUuid_new (value : Uuid) : Result Uuid NilFleetUuid :=
  if is_nil value then Err NilFleetUuidError else Ok value.

Inductive CiTarget :=
| GithubRepository (installation_id repository_id : Z)
| GithubOrganization (installation_id organization_id : Z)
| BitbucketWorkspace (connection_id : string) (workspace_uuid : Uuid)
| BitbucketRepository (connection_id : string) (workspace_uuid repository_uuid : Uuid).

Definition is_github (t : CiTarget) : bool :=
  match t with
  | GithubRepository _ _ | GithubOrganization _ _ => true
  | _ => false
  end.

Definition is_bitbucket (t : CiTarget) : bool := negb (is_github t).

(** [canonical_key]: the scope key used for authorization and audit. *)
Definition canonical_key `{UuidText} (t : CiTarget) : string :=
  match t with
  | GithubRepository installation_id repository_id =>
      "github:repository:" +:+ pretty installation_id +:+ ":" +:+ pretty repository_id
  | GithubOrganization installation_id organization_id =>
      "github:organization:" +:+ pretty installation_id +:+ ":" +:+ pretty organization_id
  | BitbucketWorkspace connection_id workspace_uuid =>
      "bitbucket:workspace:" +:+ connection_id +:+ ":" +:+ to_string workspace_uuid
  | BitbucketRepository connection_id workspace_uuid repository_uuid =>
      "bitbucket:repository:" +:+ connection_id +:+ ":" +:+ to_string workspace_uuid
        +:+ ":" +:+ to_string repository_uuid
  end.

Inductive RuntimeKind := Docker | TartVm | NativeProcess.
Inductive ExecutionOs := Linux | Macos | Windows.
Inductive Architecture := X64 | Arm64.
Inductive CiPlatform := Github | Bitbucket.

#[export] Instance CiTarget_eq_dec : EqDecision CiTarget.
Proof. solve_decision. Defined.
#[export] Instance RuntimeKind_eq_dec : EqDecision RuntimeKind.
Proof. solve_decision. Defined.
#[export] Instance ExecutionOs_eq_dec : EqDecision ExecutionOs.
Proof. solve_decision. Defined.
#[export] Instance Architecture_eq_dec : EqDecision Architecture.
Proof. solve_decision. Defined.

(** ** Resources *)
Definition MAX_CPU_MILLIS : Z := 4000000.
Definition MAX_MEMORY_MIB : Z := 4 * 1024 * 1024.
Definition MAX_DISK_BYTES : Z := 64 * 1024 * 1024 * 1024 * 1024.

Inductive ResourceError :=
| CpuOutOfRange | MemoryOutOfRange | DiskOutOfRange
| AmountOutOfRange (max : Z) | Underflow | Overflow.

Record ResourceRequest := {
  rq_cpu_millis : Z;
  rq_memory_mib : Z;
  rq_disk_bytes : Z;
}.

Definition ResourceRequest_new (cpu_millis memory_mib disk_bytes : Z)
    : Result ResourceRequest ResourceError :=
  if (cpu_millis =? 0) || (cpu_millis >? MAX_CPU_MILLIS) then Err CpuOutOfRange
  else if (memory_mib =? 0) || (memory_mib >? MAX_MEMORY_MIB) then Err MemoryOutOfRange
  else if disk_bytes >? MAX_DISK_BYTES then Err DiskOutOfRange
  else Ok {| rq_cpu_millis := cpu_millis; rq_memory_mib := memory_mib;
             rq_disk_bytes := disk_bytes |}.

Definition ResourceRequest_checked_add (self other : ResourceRequest)
    : Result ResourceRequest ResourceError :=
  let? cpu := ok_or Overflow (u32_checked_add (rq_cpu_millis self) (rq_cpu_millis other)) in
  let? memory := ok_or Overflow (u64_checked_add (rq_memory_mib self) (rq_memory_mib other)) in
  let? disk := ok_or Overflow (u64_checked_add (rq_disk_bytes self) (rq_disk_bytes other)) in
  ResourceRequest_new cpu memory disk.

Record ResourceAmount := {
  ra_cpu_millis : Z;
  ra_memory_mib : Z;
  ra_disk_bytes : Z;
}.

Definition ResourceAmount_ZERO : ResourceAmount :=
  {| ra_cpu_millis := 0; ra_memory_mib := 0; ra_disk_bytes := 0 |}.

Definition ResourceAmount_new (cpu_millis memory_mib disk_bytes : Z)
    : Result ResourceAmount ResourceError :=
  if existsb (λ value, value >? i64_max) [cpu_millis; memory_mib; disk_bytes]
  then Err (AmountOutOfRange i64_max)
  else Ok {| ra_cpu_millis := cpu_millis; ra_memory_mib := memory_mib;
             ra_disk_bytes := disk_bytes |}.

Definition ResourceAmount_from_request (request : ResourceRequest)
    : Result ResourceAmount ResourceError :=
  ResourceAmount_new (rq_cpu_millis request) (rq_memory_mib request) (rq_disk_bytes request).

Definition ResourceAmount_checked_add (self other : ResourceAmount)
    : Result ResourceAmount ResourceError :=
  let? cpu := ok_or Overflow (u64_checked_add (ra_cpu_millis self) (ra_cpu_millis other)) in
  let? memory := ok_or Overflow (u64_checked_add (ra_memory_mib self) (ra_memory_mib other)) in
  let? disk := ok_or Overflow (u64_checked_add (ra_disk_bytes self) (ra_disk_bytes other)) in
  ResourceAmount_new cpu memory disk.

Definition ResourceAmount_checked_sub (self other : ResourceAmount)
    : Result ResourceAmount ResourceError :=
  let? cpu := ok_or Underflow (u64_checked_sub (ra_cpu_millis self) (ra_cpu_millis other)) in
  let? memory := ok_or Underflow (u64_checked_sub (ra_memory_mib self) (ra_memory_mib other)) in
  let? disk := ok_or Underflow (u64_checked_sub (ra_disk_bytes self) (ra_disk_bytes other)) in
  ResourceAmount_new cpu memory disk.

Definition ResourceAmount_fits (self : ResourceAmount) (request : ResourceRequest) : bool :=
  (rq_cpu_millis request <=? ra_cpu_millis self)
  && (rq_memory_mib request <=? ra_memory_mib self)
  && (rq_disk_bytes request <=? ra_disk_bytes self).

(** ** Lifecycle axes *)
Inductive EnrollmentState := EnrPending | EnrApproved | EnrRevoked.
Inductive HostIntent := IntActive | IntPaused | IntDraining | IntMaintenance | IntRetired.
Inductive Freshness := Fresh | Stale | Offline | FreshnessUnknown.
Inductive IntegrityState := Unverified | Verified | Quarantined.
Inductive PressureState := PressureNormal | Pressured | PressureUnknown.
Inductive BackendReadiness :=
| BackendReady | BackendReconciling | BackendUnavailable | BackendUnsupported | BackendUnknown.

Inductive LifecycleAxis :=
| AxisEnrollment | AxisHostIntent | AxisFreshness | AxisBackendReadiness
| AxisPlacement | AxisAllocation.

#[export] Instance EnrollmentState_eq_dec : EqDecision EnrollmentState.
Proof. solve_decision. Defined.
#[export] Instance HostIntent_eq_dec : EqDecision HostIntent.
Proof. solve_decision. Defined.
#[export] Instance Freshness_eq_dec : EqDecision Freshness.
Proof. solve_decision. Defined.
#[export] Instance BackendReadiness_eq_dec : EqDecision BackendReadiness.
Proof. solve_decision. Defined.

(** The error keeps the axis and both states (the source keeps their
    [Debug] text). *)
Record LifecycleTransitionError (A : Type) := {
  lte_axis : LifecycleAxis;
  lte_from : A;
  lte_to : A;
}.
Arguments lte_axis {A}. Arguments lte_from {A}. Arguments lte_to {A}.
Definition transition_error {A} (axis : LifecycleAxis) (from to : A)
    : LifecycleTransitionError A :=
  {| lte_axis := axis; lte_from := from; lte_to := to |}.

Record HostLifecycle := {
  enrollment : EnrollmentState;
  intent : HostIntent;
  freshness : Freshness;
}.

Inductive LifecycleValidationError := InvalidLifecycle.

(** [TryFrom<RawHostLifecycle>]; the raw record has the same three fields. *)
Definition HostLifecycle_try_from (value : HostLifecycle)
    : Result HostLifecycle LifecycleValidationError :=
  if bool_decide (intent value = IntActive) && negb (bool_decide (enrollment value = EnrApproved))
  then Err InvalidLifecycle
  else Ok value.

Definition HostLifecycle_pending : HostLifecycle :=
  {| enrollment := EnrPending; intent := IntPaused; freshness := FreshnessUnknown |}.

Definition enrollment_legal (from next : EnrollmentState) : bool :=
  match from, next with
  | EnrPending, (EnrPending | EnrApproved | EnrRevoked)
  | EnrApproved, (EnrApproved | EnrRevoked)
  | EnrRevoked, (EnrRevoked | EnrPending) => true
  | _, _ => false
  end.

Definition transition_enrollment (self : HostLifecycle) (next : EnrollmentState)
    : Result HostLifecycle (LifecycleTransitionError EnrollmentState) :=
  if negb (enrollment_legal (enrollment self) next)
  then Err (transition_error AxisEnrollment (enrollment self) next)
  else if bool_decide (next = EnrRevoked) && bool_decide (intent self = IntActive)
  then Err (transition_error AxisEnrollment (enrollment self) next)
  else Ok {| enrollment := next; intent := intent self; freshness := freshness self |}.

Definition intent_legal (from next : HostIntent) : bool :=
  match from, next with
  | IntActive, (IntActive | IntPaused | IntDraining | IntMaintenance | IntRetired)
  | IntPaused, (IntPaused | IntActive | IntDraining | IntMaintenance | IntRetired)
  | IntDraining, (IntDraining | IntActive | IntPaused | IntMaintenance | IntRetired)
  | IntMaintenance, (IntMaintenance | IntActive | IntPaused | IntDraining | IntRetired)
  | IntRetired, IntRetired => true
  | _, _ => false
  end.

Definition transition_intent (self : HostLifecycle) (next : HostIntent)
    : Result HostLifecycle (LifecycleTransitionError HostIntent) :=
  if bool_decide (next = IntActive) && negb (bool_decide (enrollment self = EnrApproved))
  then Err (transition_error AxisHostIntent (intent self) next)
  else if negb (intent_legal (intent self) next)
  then Err (transition_error AxisHostIntent (intent self) next)
  else Ok {| enrollment := enrollment self; intent := next; freshness := freshness self |}.

Definition freshness_legal (from next : Freshness) : bool :=
  match from, next with
  | FreshnessUnknown, (FreshnessUnknown | Fresh | Stale | Offline)
  | Fresh, (Fresh | Stale | Offline)
  | Stale, (Stale | Fresh | Offline)
  | Offline, (Offline | Fresh | FreshnessUnknown) => true
  | _, _ => false
  end.

Definition transition_freshness (self : HostLifecycle) (next : Freshness)
    : Result HostLifecycle (LifecycleTransitionError Freshness) :=
  if negb (freshness_legal (freshness self) next)
  then Err (transition_error AxisFreshness (freshness self) next)
  else Ok {| enrollment := enrollment self; intent := intent self; freshness := next |}.

Definition BackendReadiness_transition (self next : BackendReadiness)
    : Result BackendReadiness (LifecycleTransitionError BackendReadiness) :=
  match self, next with
  | BackendReady, (BackendReady | BackendReconciling | BackendUnavailable | BackendUnknown)
  | BackendReconciling, (BackendReconciling | BackendReady | BackendUnavailable
                         | BackendUnsupported | BackendUnknown)
  | BackendUnavailable, (BackendUnavailable | BackendReady | BackendReconciling | BackendUnknown)
  | BackendUnsupported, (BackendUnsupported | BackendReconciling | BackendUnknown)
  | BackendUnknown, (BackendUnknown | BackendReconciling | BackendReady | BackendUnavailable
                     | BackendUnsupported) => Ok next
  | _, _ => Err (transition_error AxisBackendReadiness self next)
  end.

Inductive PlacementState :=
| Reserved | Preparing | Registering | Starting | Running | Draining | Stopping
| Stopped | Cleaned | RetryableFailure | TerminalFailure | Uncertain.

#[export] Instance PlacementState_eq_dec : EqDecision PlacementState.
Proof. solve_decision. Defined.

Definition PlacementState_transition (self next : PlacementState)
    : Result PlacementState (LifecycleTransitionError PlacementState) :=
  match self, next with
  | Reserved, (Reserved | Preparing | RetryableFailure | Uncertain)
  | Preparing, (Preparing | Registering | RetryableFailure | TerminalFailure | Uncertain)
  | Registering, (Registering | Starting | RetryableFailure | TerminalFailure | Uncertain)
  | Starting, (Starting | Running | RetryableFailure | TerminalFailure | Uncertain)
  | Running, (Running | Draining | Stopping | Uncertain)
  | Draining, (Draining | Stopping | Stopped | Uncertain)
  | Stopping, (Stopping | Stopped | Cleaned | RetryableFailure | Uncertain)
  | Stopped, (Stopped | Cleaned | Uncertain)
  | Cleaned, Cleaned
  | RetryableFailure, (RetryableFailure | Reserved | TerminalFailure | Uncertain)
  | TerminalFailure, (TerminalFailure | Cleaned)
  | Uncertain, (Uncertain | RetryableFailure | TerminalFailure | Running | Stopped | Cleaned)
    => Ok next
  | _, _ => Err (transition_error AxisPlacement self next)
  end.

(** ** Allocations *)
Inductive AllocationState :=
| AllocReserved | AllocCommitted | AllocReleasing | AllocUncertain | AllocReleased.
Inductive ProviderCleanupState :=
| CleanupNotRegistered | CleanupPending | CleanupUncertain | CleanupRemoved.

#[export] Instance AllocationState_eq_dec : EqDecision AllocationState.
Proof. solve_decision. Defined.

Inductive AllocationReleaseError := ReleaseRefused.

Record ProvenLocalAbsence := {
  la_placement_id : Uuid;
  la_observed_generation : Z;
  la_observed_epoch : Z;
}.

Record DelayedStartExclusion := {
  ds_placement_id : Uuid;
  ds_generation : Z;
  ds_host_epoch : Z;
}.

Definition AllocationState_transition (self next : AllocationState)
    : Result AllocationState (LifecycleTransitionError AllocationState) :=
  match self, next with
  | AllocReserved, (AllocReserved | AllocCommitted | AllocUncertain)
  | AllocCommitted, (AllocCommitted | AllocReleasing | AllocUncertain)
  | AllocReleasing, (AllocReleasing | AllocUncertain)
  | AllocUncertain, (AllocUncertain | AllocReleasing)
  | AllocReleased, AllocReleased => Ok next
  | _, _ => Err (transition_error AxisAllocation self next)
  end.

Definition AllocationState_release (self : AllocationState)
    (expected_placement_id : Uuid) (expected_generation expected_epoch : Z)
    (local_absence : ProvenLocalAbsence) (delayed_start : DelayedStartExclusion)
    : Result AllocationState AllocationReleaseError :=
  if negb (la_placement_id local_absence =? expected_placement_id)
     || negb (ds_placement_id delayed_start =? expected_placement_id)
     || negb (la_observed_generation local_absence =? expected_generation)
     || negb (ds_generation delayed_start =? expected_generation)
     || negb (la_observed_epoch local_absence =? expected_epoch)
     || negb (ds_host_epoch delayed_start =? expected_epoch)
  then Err ReleaseRefused
  else match self with
       | AllocReserved | AllocCommitted | AllocReleasing | AllocUncertain => Ok AllocReleased
       | AllocReleased => Err ReleaseRefused
       end.

Record PlacementOwnership := {
  po_host_id : Uuid;
  po_backend_id : Uuid;
  po_original_epoch : Z;
  po_generation : Z;
}.

Definition PlacementOwnership_recovered (self : PlacementOwnership) (new_epoch new_generation : Z)
    : PlacementOwnership :=
  {| po_host_id := po_host_id self; po_backend_id := po_backend_id self;
     po_original_epoch := new_epoch; po_generation := new_generation |}.

(** ** Well-formedness *)
Definition request_wf (r : ResourceRequest) : Prop :=
  1 ≤ rq_cpu_millis r ≤ MAX_CPU_MILLIS ∧ 1 ≤ rq_memory_mib r ≤ MAX_MEMORY_MIB
  ∧ 0 ≤ rq_disk_bytes r ≤ MAX_DISK_BYTES.

Definition amount_wf (a : ResourceAmount) : Prop :=
  0 ≤ ra_cpu_millis a ≤ i64_max ∧ 0 ≤ ra_memory_mib a ≤ i64_max
  ∧ 0 ≤ ra_disk_bytes a ≤ i64_max.

(** Component-wise order and sum of aggregates, the specification that the
    checked operations implement. *)
Definition amount_le (a b : ResourceAmount) : Prop :=
  ra_cpu_millis a ≤ ra_cpu_millis b ∧ ra_memory_mib a ≤ ra_memory_mib b
  ∧ ra_disk_bytes a ≤ ra_disk_bytes b.

Definition amount_plus (a b : ResourceAmount) : ResourceAmount :=
  {| ra_cpu_millis := ra_cpu_millis a + ra_cpu_millis b;
     ra_memory_mib := ra_memory_mib a + ra_memory_mib b;
     ra_disk_bytes := ra_disk_bytes a + ra_disk_bytes b |}.

Definition request_amount (r : ResourceRequest) : ResourceAmount :=
  {| ra_cpu_millis := rq_cpu_millis r; ra_memory_mib := rq_memory_mib r;
     ra_disk_bytes := rq_disk_bytes r |}.

Ltac unfold_resources :=
  unfold request_wf, amount_wf, amount_le, amount_plus, request_amount,
    MAX_CPU_MILLIS, MAX_MEMORY_MIB, MAX_DISK_BYTES, i64_max, u32_max, u64_max in *; simpl in *.

Lemma ResourceRequest_new_Ok c m d r :
  0 ≤ c → 0 ≤ m → 0 ≤ d →
  ResourceRequest_new c m d = Ok r ↔
  r = {| rq_cpu_millis := c; rq_memory_mib := m; rq_disk_bytes := d |} ∧ request_wf r.
Proof.
  intros Hc Hm Hd. unfold ResourceRequest_new. split.
  - intros H. inv_result. bool_to_prop. rewrite Z.gtb_ltb in *. bool_to_prop.
    split; [done|]. unfold_resources. lia.
  - intros [-> Hwf]. unfold_resources.
    repeat (case_match; bool_to_prop; rewrite ?Z.gtb_ltb in *; bool_to_prop; try lia); done.
Qed.

Lemma ResourceAmount_new_Ok c m d a :
  ResourceAmount_new c m d = Ok a ↔
  a = {| ra_cpu_millis := c; ra_memory_mib := m; ra_disk_bytes := d |}
  ∧ c ≤ i64_max ∧ m ≤ i64_max ∧ d ≤ i64_max.
Proof.
  unfold ResourceAmount_new. simpl. rewrite !Z.gtb_ltb.
  destruct (Z.ltb_spec i64_max c), (Z.ltb_spec i64_max m), (Z.ltb_spec i64_max d);
    simpl; split; try (intros [= <-]); try done; try (intros (?&?&?&?); lia).
  intros (-> & _). done.
Qed.

Lemma checked_add_amount_Ok a b c :
  amount_wf a → amount_wf b →
  ResourceAmount_checked_add a b = Ok c ↔ c = amount_plus a b ∧ amount_wf c.
Proof.
  intros Ha Hb. unfold ResourceAmount_checked_add, u64_checked_add. split.
  - intros H. inv_result. apply ResourceAmount_new_Ok in H as (-> & ?).
    split; [done|]. unfold_resources. lia.
  - intros [-> Hw]. unfold_resources.
    repeat (case_match; bool_to_prop; [|lia]; simpl). apply ResourceAmount_new_Ok.
    split; [done|]. unfold i64_max. lia.
Qed.

Lemma checked_sub_amount_Ok a b c :
  amount_wf a → amount_wf b →
  ResourceAmount_checked_sub a b = Ok c ↔ a = amount_plus c b ∧ amount_wf c.
Proof.
  intros Ha Hb. unfold ResourceAmount_checked_sub, u64_checked_sub. split.
  - intros H. inv_result. bool_to_prop. apply ResourceAmount_new_Ok in H as (-> & ?).
    destruct a, b. unfold_resources. split; [f_equal; lia|lia].
  - intros [Hab Hw]. destruct a, b, c. unfold_resources. simplify_eq.
    repeat (case_match; bool_to_prop; [|lia]; simpl). apply ResourceAmount_new_Ok.
    unfold i64_max. split; [f_equal; lia|lia].
Qed.

Lemma checked_sub_amount_exists a b :
  amount_wf a → amount_wf b →
  (∃ c, ResourceAmount_checked_sub a b = Ok c) ↔ amount_le b a.
Proof.
  intros Ha Hb. split.
  - intros [c Hc]. apply checked_sub_amount_Ok in Hc as [-> Hw]; [|done..].
    unfold_resources. lia.
  - intros Hle.
    exists {| ra_cpu_millis := ra_cpu_millis a - ra_cpu_millis b;
         ra_memory_mib := ra_memory_mib a - ra_memory_mib b;
         ra_disk_bytes := ra_disk_bytes a - ra_disk_bytes b |}.
    apply checked_sub_amount_Ok; [done..|]. destruct a, b.
    unfold_resources. split; [f_equal; lia|lia].
Qed.

Lemma from_request_wf r :
  request_wf r → ResourceAmount_from_request r = Ok (request_amount r) ∧ amount_wf (request_amount r).
Proof.
  intros Hr. unfold ResourceAmount_from_request. split; [|unfold_resources; lia].
  apply ResourceAmount_new_Ok. unfold_resources. split; [done|lia].
Qed.

(** [fits] is exactly "subtracting the request does not underflow". *)
Theorem fits_iff_subtraction (a : ResourceAmount) (r : ResourceRequest) :
  amount_wf a → request_wf r →
  ResourceAmount_fits a r = true ↔
  ∃ amount rest, ResourceAmount_from_request r = Ok amount
                 ∧ ResourceAmount_checked_sub a amount = Ok rest.
Proof.
  intros Ha Hr. destruct (from_request_wf r Hr) as [E Hw]. rewrite E.
  pose proof (checked_sub_amount_exists a (request_amount r) Ha Hw) as Hsub.
  unfold ResourceAmount_fits. rewrite !andb_true_iff, !Z.leb_le. unfold amount_le in Hsub.
  simpl in Hsub. split.
  - intros ?. exists (request_amount r). destruct Hsub as [_ [rest Hrest]]; [tauto|].
    by exists rest.
  - intros (amount & rest & [= <-] & H). destruct Hsub as [Hsub _].
    destruct Hsub; [by exists rest|]. tauto.
Qed.

Lemma fits_iff_subtraction_witness :
  ∃ amount rest,
    ResourceAmount_from_request {| rq_cpu_millis := 500; rq_memory_mib := 1024; rq_disk_bytes := 0 |}
      = Ok amount
    ∧ ResourceAmount_checked_sub
        {| ra_cpu_millis := 2000; ra_memory_mib := 4096; ra_disk_bytes := 10 |} amount = Ok rest.
Proof.
  apply (fits_iff_subtraction
    {| ra_cpu_millis := 2000; ra_memory_mib := 4096; ra_disk_bytes := 10 |}
    {| rq_cpu_millis := 500; rq_memory_mib := 1024; rq_disk_bytes := 0 |}).
  - unfold_resources. lia.
  - unfold_resources. lia.
  - reflexivity.
Defined.

(** Requests add inside their own bounds or not at all, and never wrap. *)
Theorem request_add_bounded (a b c : ResourceRequest) :
  request_wf a → request_wf b →
  ResourceRequest_checked_add a b = Ok c ↔
  request_amount c = amount_plus (request_amount a) (request_amount b) ∧ request_wf c.
Proof.
  intros Ha Hb. unfold ResourceRequest_checked_add, u32_checked_add, u64_checked_add. split.
  - intros H. inv_result. apply ResourceRequest_new_Ok in H as [-> Hw]; [|unfold_resources; lia..].
    split; done.
  - intros [E Hw]. destruct a, b, c. unfold_resources. simplify_eq.
    repeat (case_match; bool_to_prop; [|lia]; simpl). apply ResourceRequest_new_Ok; [lia..|].
    split; [f_equal; lia|]. unfold_resources. lia.
Qed.

Lemma request_add_bounded_witness :
  request_wf {| rq_cpu_millis := 1000; rq_memory_mib := 2048; rq_disk_bytes := 8192 |}.
Proof.
  apply (request_add_bounded
    {| rq_cpu_millis := 500; rq_memory_mib := 1024; rq_disk_bytes := 4096 |}
    {| rq_cpu_millis := 500; rq_memory_mib := 1024; rq_disk_bytes := 4096 |}
    {| rq_cpu_millis := 1000; rq_memory_mib := 2048; rq_disk_bytes := 8192 |}).
  - unfold_resources. lia.
  - unfold_resources. lia.
  - reflexivity.
Defined.

(** ** Host lifecycle *)

(** The operations of [HostLifecycle] as one step relation. *)
Inductive lifecycle_step : HostLifecycle → HostLifecycle → Prop :=
| step_enrollment h h' n : transition_enrollment h n = Ok h' → lifecycle_step h h'
| step_intent h h' n : transition_intent h n = Ok h' → lifecycle_step h h'
| step_freshness h h' n : transition_freshness h n = Ok h' → lifecycle_step h h'.

(** What [HostLifecycle_try_from] checks: an active host is approved. *)
Definition lifecycle_wf (h : HostLifecycle) : Prop :=
  intent h = IntActive → enrollment h = EnrApproved.

Lemma try_from_lifecycle_wf h : HostLifecycle_try_from h = Ok h ↔ lifecycle_wf h.
Proof.
  unfold HostLifecycle_try_from, lifecycle_wf. destruct h as [[] [] f]; simpl; split; naive_solver.
Qed.

Lemma lifecycle_step_wf h h' : lifecycle_step h h' → lifecycle_wf h → lifecycle_wf h'.
Proof.
  unfold lifecycle_wf. destruct h as [e i f].
  destruct 1 as [? ? n H|? ? n H|? ? n H]; revert H;
    unfold transition_enrollment, transition_intent, transition_freshness;
    destruct h as [[] [] []], n; simpl; intros [=]; subst; simpl; try done; naive_solver.
Qed.

(** Whatever sequence of transitions is applied to a pending host, the record
    it produces is accepted by the deserializer, and a retired host never
    comes back. *)
Theorem lifecycle_reachable (h : HostLifecycle) :
  rtc lifecycle_step HostLifecycle_pending h →
  HostLifecycle_try_from h = Ok h
  ∧ (intent h = IntRetired → ∀ h', rtc lifecycle_step h h' → intent h' = IntRetired).
Proof.
  intros Hr. split.
  - apply try_from_lifecycle_wf. revert Hr.
    apply (rtc_ind_r lifecycle_wf); [done|]. intros. by eapply lifecycle_step_wf.
  - intros Hi h' Hs. revert h' Hs. apply (rtc_ind_r (λ h, intent h = IntRetired)); [done|].
    intros x y _ Hxy Hx. destruct Hxy as [? ? n H|? ? n H|? ? n H]; revert H;
      unfold transition_enrollment, transition_intent, transition_freshness;
      destruct h0 as [[] [] []], n; simpl in *; try done; intros [=]; by subst.
Qed.

Lemma lifecycle_reachable_witness :
  HostLifecycle_try_from {| enrollment := EnrApproved; intent := IntActive;
                            freshness := FreshnessUnknown |}
  = Ok {| enrollment := EnrApproved; intent := IntActive; freshness := FreshnessUnknown |}.
Proof.
  apply lifecycle_reachable.
  eapply rtc_l; [by eapply (step_enrollment _ _ EnrApproved)|].
  eapply rtc_l; [by eapply (step_intent _ _ IntActive)|]. apply rtc_refl.
Defined.

(** ** Placement lifecycle *)
Definition placement_step (s s' : PlacementState) : Prop :=
  PlacementState_transition s s' = Ok s'.

Lemma placement_transition_Ok s n v :
  PlacementState_transition s n = Ok v → v = n ∧ placement_step s n.
Proof. unfold placement_step. destruct s, n; simpl; intros [=]; by subst. Qed.

(** States in which a runtime object may still exist or appear. *)
Definition settled (s : PlacementState) : bool :=
  match s with TerminalFailure | Cleaned => true | _ => false end.

Lemma settled_step s s' : placement_step s s' → settled s = true → settled s' = true.
Proof. unfold placement_step. by destruct s, s'; simpl. Qed.

(** The placement state machine: a placement that failed for good or was
    cleaned never runs again, [Cleaned] is final, and every state still has a
    path to [Cleaned] (no placement is stuck). *)
Theorem placement_lifecycle (s s' : PlacementState) :
  rtc placement_step s s' →
  (settled s = true → settled s' = true)
  ∧ (s = Cleaned → s' = Cleaned)
  ∧ rtc placement_step s' Cleaned.
Proof.
  intros Hr. split_and!.
  - revert s' Hr. apply (rtc_ind_r (λ x, settled s = true → settled x = true)); [done|].
    intros x y _ Hxy IH Hs. eauto using settled_step.
  - intros ->. revert s' Hr. apply (rtc_ind_r (λ x, x = Cleaned)); [done|].
    intros x y _ Hxy ->. by destruct y.
  - assert (rtc placement_step Uncertain Cleaned) by (by apply rtc_once).
    destruct s'; try done; try (by apply rtc_once); try (by eapply rtc_l; [|done]); by apply rtc_refl.
Qed.

Lemma placement_lifecycle_witness : settled Cleaned = true.
Proof.
  apply (placement_lifecycle TerminalFailure Cleaned); [|reflexivity].
  by apply rtc_once.
Defined.

(** ** Allocation lifecycle *)

(** Both ways an allocation changes state, with the evidence it was given. *)
Inductive allocation_step (p : Uuid) (g e : Z) : AllocationState → AllocationState → Prop :=
| alloc_transition s n s' : AllocationState_transition s n = Ok s' → allocation_step p g e s s'
| alloc_release s s' la ds :
    AllocationState_release s p g e la ds = Ok s' → allocation_step p g e s s'.

Lemma release_Ok s p g e la ds s' :
  AllocationState_release s p g e la ds = Ok s' ↔
  s' = AllocReleased ∧ s ≠ AllocReleased
  ∧ la = {| la_placement_id := p; la_observed_generation := g; la_observed_epoch := e |}
  ∧ ds = {| ds_placement_id := p; ds_generation := g; ds_host_epoch := e |}.
Proof.
  unfold AllocationState_release. destruct la as [lp lg le], ds as [dp dg de]. simpl. split.
  - intros H. inv_result. bool_to_prop. subst. destruct s; inv_result; done.
  - intros (-> & Hs & [= -> -> ->] & [= -> -> ->]). rewrite !Z.eqb_refl. simpl. by destruct s.
Qed.

(** Capacity is given back only against evidence: the one way into
    [Released] is [release] with a local-absence proof and a delayed-start
    exclusion for exactly this placement, generation and epoch, and it can
    happen once. *)
Theorem allocation_release_needs_evidence (p : Uuid) (g e : Z) (s s' : AllocationState) :
  allocation_step p g e s s' →
  (s' = AllocReleased ∧ s ≠ AllocReleased →
     AllocationState_release s p g e
       {| la_placement_id := p; la_observed_generation := g; la_observed_epoch := e |}
       {| ds_placement_id := p; ds_generation := g; ds_host_epoch := e |} = Ok AllocReleased
     ∧ ∀ n, AllocationState_transition s n ≠ Ok AllocReleased)
  ∧ (s = AllocReleased → s' = AllocReleased
     ∧ ∀ la ds, AllocationState_release s p g e la ds = Err ReleaseRefused).
Proof.
  intros Hstep. split.
  - intros [-> Hs]. split; [by apply release_Ok|]. intros n. by destruct s, n.
  - intros ->. split.
    + inversion Hstep as [? n ? H|? ? la ds H]; subst.
      * by destruct n, s'.
      * by apply release_Ok in H as [-> _].
    + intros la ds. unfold AllocationState_release. by case_match.
Qed.

Lemma allocation_release_needs_evidence_witness :
  AllocationState_transition AllocUncertain AllocReleased ≠ Ok AllocReleased.
Proof.
  apply (allocation_release_needs_evidence 7 1 1 AllocUncertain AllocReleased).
  - eapply (alloc_release 7 1 1 _ _
      {| la_placement_id := 7; la_observed_generation := 1; la_observed_epoch := 1 |}
      {| ds_placement_id := 7; ds_generation := 1; ds_host_epoch := 1 |}). reflexivity.
  - split; [reflexivity|discriminate].
Defined.

(** ** Canonical keys *)
Definition target_wf (t : CiTarget) : Prop :=
  match t with
  | GithubRepository i r => 1 ≤ i ≤ i64_max ∧ 1 ≤ r ≤ i64_max
  | GithubOrganization i o => 1 ≤ i ≤ i64_max ∧ 1 ≤ o ≤ i64_max
  | BitbucketWorkspace _ w => 0 < w < 2 ^ 128
  | BitbucketRepository _ w r => 0 < w < 2 ^ 128 ∧ 0 < r < 2 ^ 128
  end.

Definition colon : Ascii.ascii := Ascii.ascii_of_N 58.

(** No character of [s] is a colon. *)
Fixpoint no_colon (s : string) : bool :=
  match s with
  | String.EmptyString => true
  | String.String c s => negb (Ascii.eqb c colon) && no_colon s
  end.

Lemma no_colon_split a b a' b' :
  no_colon a = true → no_colon a' = true →
  a +:+ ":" +:+ b = a' +:+ ":" +:+ b' → a = a' ∧ b = b'.
Proof.
  revert a'. induction a as [|c a IH]; intros [|c' a']; cbn; intros Ha Ha' [=]; subst.
  - done.
  - done.
  - done.
  - bool_to_prop. destruct (IH a') as [-> ->]; done.
Qed.

Lemma pretty_N_go_no_colon x s : no_colon s = true → no_colon (pretty_N_go x s) = true.
Proof.
  revert s. induction (N.lt_wf_0 x) as [x _ IH]; intros s Hs.
  destruct (decide (x = 0)%N) as [->|Hx]; [done|].
  rewrite pretty_N_go_step by lia. apply IH; [apply N.div_lt; lia|].
  simpl. rewrite Hs, andb_true_r. unfold pretty_N_char. by repeat case_match.
Qed.

Lemma pretty_no_colon z : 0 ≤ z → no_colon (pretty z) = true.
Proof.
  intros Hz. destruct z as [|p|p]; [done| |lia].
  change (no_colon (pretty (N.pos p)) = true). unfold pretty, pretty_N.
  case_decide; [done|]. by apply pretty_N_go_no_colon.
Qed.

Lemma append_length a b : String.length (a +:+ b) = (String.length a + String.length b)%nat.
Proof.
  induction a as [|c a IH]; [done|].
  change (S (String.length (a +:+ b)) = S (String.length a + String.length b)). by rewrite IH.
Qed.

Lemma append_suffix_inj a b x y :
  String.length x = String.length y → a +:+ x = b +:+ y → a = b ∧ x = y.
Proof.
  intros Hl. revert b. induction a as [|c a IH]; intros [|c' b] E.
  - done.
  - apply (f_equal String.length) in E. rewrite !append_length in E. cbn in E. lia.
  - apply (f_equal String.length) in E. rewrite !append_length in E. cbn in E. lia.
  - injection E as -> E. destruct (IH _ E) as [-> ->]. done.
Qed.

Lemma to_string_inj `{UuidText} u v :
  0 < u < 2 ^ 128 → 0 < v < 2 ^ 128 → to_string u = to_string v → u = v.
Proof.
  intros Hu Hv E. apply (f_equal parse_str) in E.
  rewrite !parse_to_string in E by lia. congruence.
Qed.

Lemma colon_suffix_inj `{UuidText} a b u v :
  0 < u < 2 ^ 128 → 0 < v < 2 ^ 128 →
  a +:+ ":" +:+ to_string u = b +:+ ":" +:+ to_string v → a = b ∧ u = v.
Proof.
  intros Hu Hv E. apply append_suffix_inj in E as [-> E].
  - split; [done|]. injection E as E. by apply to_string_inj.
  - rewrite !append_length, !to_string_length. done.
Qed.

Lemma append_assoc a b c : a +:+ (b +:+ c) = (a +:+ b) +:+ c.
Proof.
  induction a as [|x a IH]; [done|].
  change (String.String x (a +:+ (b +:+ c)) = String.String x ((a +:+ b) +:+ c)). by rewrite IH.
Qed.

(** Two well-formed targets with the same canonical key are the same
    target, although a Bitbucket connection id may itself contain colons: the
    key is safe to use for authorization and as a unique column. *)
Theorem canonical_key_inj `{UuidText} (t t' : CiTarget) :
  target_wf t → target_wf t' → canonical_key t = canonical_key t' → t = t'.
Proof.
  destruct t, t'; simpl; intros Hw Hw' E; try (cbn in E; discriminate E).
  - apply String.app_inj, no_colon_split in E as [E1 E2];
      [|apply pretty_no_colon; lia..]. f_equal; by apply (inj pretty).
  - apply String.app_inj, no_colon_split in E as [E1 E2];
      [|apply pretty_no_colon; lia..]. f_equal; by apply (inj pretty).
  - apply String.app_inj, colon_suffix_inj in E as [-> ->]; done.
  - apply String.app_inj in E. destruct Hw, Hw'.
    rewrite (append_assoc (":" : string)), (append_assoc (":" : string) (to_string workspace_uuid0)),
      !append_assoc, <-!(append_assoc _ (":" : string) (to_string repository_uuid)),
      <-!(append_assoc _ (":" : string) (to_string repository_uuid0)) in E.
    apply colon_suffix_inj in E as [E ->]; [|done..].
    rewrite <-!append_assoc in E. apply colon_suffix_inj in E as [-> ->]; done.
Qed.

Lemma canonical_key_inj_witness :
  GithubRepository 12 3 = GithubRepository 12 3.
Proof.
  apply (canonical_key_inj (H := Hyphenated.uuid_text)).
  - cbn. unfold i64_max. lia.
  - cbn. unfold i64_max. lia.
  - reflexivity.
Defined.
