(* ===== verification/Protocol.v ===== *)
(** * Agent protocol: bounded primitives and commands
    ([crates/gridops-core/src/fleet/protocol/{primitives,agent}.rs]).

    SHA-256 and the JSON text of an envelope belong to third-party crates:
    they are the class [Codec].  Constructors of enums whose names clash carry
    the enum's prefix ([Op] for [AgentOperation], [Res] for
    [LocalResourceIdentity]). *)
From S2P Require Import Prelude Base64 Ids Domain.
#[local] Open Scope string_scope.
#[local] Open Scope Z_scope.

(** ** Primitives *)
Definition MAX_SAFE_INTEGER : Z := 9007199254740991.
Definition MAX_DATABASE_INTEGER : Z := i64_max.
Definition MAX_CHUNK_BYTES : Z := 256 * 1024.
Definition MAX_RESOURCE_DOMAIN_DEPTH : Z := 64.

Inductive ContractError :=
| IntegerRange | PayloadTooLarge | InvalidJson | InvalidTimestamp | InvalidText | UnsafePath.

Definition BoundedInteger_new (min max value : Z) : Result Z ContractError :=
  if (min <=? value) && (value <=? max) then Ok value else Err IntegerRange.

Definition ByteOffset_new : Z → Result Z ContractError :=
  BoundedInteger_new 0 MAX_DATABASE_INTEGER.
Definition ProtocolVersion_new : Z → Result Z ContractError := BoundedInteger_new 1 1.

(** A timestamp is its milliseconds; years 0 to 9999 are accepted. *)
Definition year_0_millis : Z := -62167219200000.
Definition year_9999_end_millis : Z := 253402300799999.

Definition WireTimestamp_from_millis (value : Z) : Result Z ContractError :=
  if (year_0_millis <=? value) && (value <=? year_9999_end_millis)
  then Ok value else Err InvalidTimestamp.

Definition ImageReference_try_from (value : string) : Result string ContractError :=
  if is_empty value || (chars_count value >? 300) || has_control value
  then Err InvalidText else Ok value.

Definition IdempotencyKey_parse (value : string) : Result string ContractError :=
  if is_empty value || (byte_len value >? 128)
     || negb (forallb (λ byte, (33 <=? byte) && (byte <=? 126)) (bytes value))
  then Err InvalidText else Ok value.

Definition Sha256Digest_try_from (value : string) : Result (list Z) ContractError :=
  if negb (byte_len value =? 43) then Err InvalidText else
  let? digest := ok_or InvalidText (b64_decode value) in
  if negb (String.eqb (b64_encode digest) value) then Err InvalidText
  else if Z.of_nat (length digest) =? 32 then Ok digest else Err InvalidText.

(** [value.split('/')] over characters. *)
Fixpoint split_slash (acc : list Z) (l : list Z) : list (list Z) :=
  match l with
  | [] => [rev acc]
  | b :: l => if b =? 47 then rev acc :: split_slash [] l else split_slash (b :: acc) l
  end.

Definition SandboxPath_try_from (value : string) : Result string ContractError :=
  if is_empty value || (byte_len value >? 1024)
     || (has_control value || existsb (λ ch, (ch =? 92) || (ch =? 58)) (bytes value))
     || existsb (λ part, bool_decide (part = []) || bool_decide (part = [46])
                         || bool_decide (part = [46; 46]))
          (split_slash [] (bytes value))
  then Err UnsafePath else Ok value.

(** ** Commands *)
Inductive RunnerMode := Ephemeral | Persistent.
Inductive PreparedWorkload := WorkCiRunner | WorkFixSandbox.

Inductive CommandScope :=
| ScopeHost
| ScopePlacement (placement_id backend_id : Uuid) (generation : Z).

Record ExecutionConfiguration := {
  ec_network : option string;
  ec_session_id : option Uuid;
  ec_requires_interactive : bool;
  ec_requires_docker_socket : bool;
}.

Record PrepareEnvironment := {
  pe_execution_profile_id : Uuid;
  pe_profile_revision : Z;
  pe_workload : PreparedWorkload;
  pe_target : CiTarget;
  pe_runtime_kind : RuntimeKind;
  pe_execution_os : ExecutionOs;
  pe_architecture : Architecture;
  pe_mode : RunnerMode;
  pe_image : string;
  pe_labels : list string;
  pe_configuration : ExecutionConfiguration;
  pe_resource_request : ResourceRequest;
  pe_allocation_ids : list Uuid;
}.

Inductive LocalResourceIdentity :=
| ResDocker (object_id : string)
| ResTartVm (name : string)
| ResNativeProcess (boot_id : string) (process_id : Z) (start_marker : string).

Record StartRunner := {
  sr_prepared_environment_id : Uuid;
  sr_execution_profile_id : Uuid;
  sr_profile_revision : Z;
  sr_bootstrap_reference : Uuid;
  sr_bootstrap_expires_at : Z;
  sr_resource_request : ResourceRequest;
  sr_allocation_ids : list Uuid;
}.

Inductive StopMode := IdleOnly | CancelBusy.

Inductive SandboxFileAction :=
| FileRead (path : string) (offset max_bytes : Z)
| FileWrite (path : string) (artifact_id : Uuid) (expected_length : Z) (sha256 : list Z).

Inductive SandboxArtifactAction :=
| ArtifactPublish (path : string) (artifact_id : Uuid)
| ArtifactFetch (artifact_id : Uuid) (offset max_bytes : Z).

Inductive AgentOperation :=
| OpPrepareEnvironment (p : PrepareEnvironment)
| OpStartRunner (s : StartRunner)
| OpInspectHost
| OpDrainHost
| OpInspect (expected_resource : LocalResourceIdentity)
| OpDrain (expected_resource : LocalResourceIdentity)
| OpStop (expected_resource : LocalResourceIdentity) (mode : StopMode)
| OpCleanup (expected_resource : LocalResourceIdentity)
| OpUpgradeAgent (signed_manifest_reference : Uuid) (expected_version current_version : string)
    (drain_operation_id : Uuid)
| OpExecuteSandbox (expected_resource : LocalResourceIdentity) (program : string)
    (argv : list string) (working_directory : option string) (timeout_ms output_limit_bytes : Z)
| OpSandboxFile (expected_resource : LocalResourceIdentity) (action : SandboxFileAction)
| OpSandboxArtifact (expected_resource : LocalResourceIdentity) (action : SandboxArtifactAction).

Definition database_kind (op : AgentOperation) : string :=
  match op with
  | OpPrepareEnvironment _ => "prepare_environment"
  | OpStartRunner _ => "start_runner"
  | OpInspectHost | OpInspect _ => "inspect"
  | OpDrainHost | OpDrain _ => "drain"
  | OpStop _ _ => "stop"
  | OpCleanup _ => "cleanup"
  | OpUpgradeAgent _ _ _ _ => "upgrade_agent"
  | OpExecuteSandbox _ _ _ _ _ _ => "execute_sandbox"
  | OpSandboxFile _ _ => "sandbox_file"
  | OpSandboxArtifact _ _ => "sandbox_artifact"
  end.

#[export] Instance RunnerMode_eq_dec : EqDecision RunnerMode.
Proof. solve_decision. Defined.
#[export] Instance PreparedWorkload_eq_dec : EqDecision PreparedWorkload.
Proof. solve_decision. Defined.
#[export] Instance CommandScope_eq_dec : EqDecision CommandScope.
Proof. solve_decision. Defined.
#[export] Instance LocalResourceIdentity_eq_dec : EqDecision LocalResourceIdentity.
Proof. solve_decision. Defined.
#[export] Instance SandboxFileAction_eq_dec : EqDecision SandboxFileAction.
Proof. solve_decision. Defined.
#[export] Instance SandboxArtifactAction_eq_dec : EqDecision SandboxArtifactAction.
Proof. solve_decision. Defined.

Record AgentCommandEnvelope := {
  protocol_version : Z;
  command_id : Uuid;
  operation_id : Uuid;
  idempotency_key : string;
  host_id : Uuid;
  host_epoch : Z;
  control_plane_incarnation : Uuid;
  authority_session_id : Uuid;
  scope : CommandScope;
  expected_revision : Z;
  issued_at : Z;
  deadline_at : Z;
  request_hash : string;
  operation : AgentOperation;
}.

Record ExpectedAgentSession := {
  es_host_id : Uuid;
  es_host_epoch : Z;
  es_control_plane_incarnation : Uuid;
  es_authority_session_id : Uuid;
  es_credential_generation : Z;
  es_authority_expires_at : Z;
}.

Definition COMMAND_CLOCK_SKEW_MILLIS : Z := 5000.

Inductive CommandError :=
| CmdAuthority | CmdScope | CmdConfiguration | CmdDeadline | CmdHash | CmdSerialization.


(** What the SHA-256 and JSON crates provide: a digest, and the text of an
    envelope where it serializes. *)
Class Codec := {
  sha256 : list Z → list Z;
  envelope_json : AgentCommandEnvelope → option (list Z);
}.

(** A concrete [Codec], for the examples that run the definitions: the digest
    is the first 32 bytes. *)
Module Plain.
Definition codec : Codec :=
  {| sha256 := take 32; envelope_json e := Some (bytes (idempotency_key e)) |}.
End Plain.

Definition nodup_b {A} `{EqDecision A} (l : list A) : bool := bool_decide (NoDup l).

Definition check_allocations (ids : list Uuid) : Result unit CommandError :=
  if bool_decide (ids = [])
     || (Z.of_nat (length ids) >? MAX_RESOURCE_DOMAIN_DEPTH)
     || negb (nodup_b ids)
  then Err CmdConfiguration else Ok tt.

Definition is_docker_resource (r : LocalResourceIdentity) : bool :=
  match r with ResDocker _ => true | _ => false end.

Definition is_github_repository (t : CiTarget) : bool :=
  match t with GithubRepository _ _ => true | _ => false end.

Definition prepare_inconsistent (prepare : PrepareEnvironment) (revision : Z) : bool :=
  negb (pe_profile_revision prepare =? revision)
  || (Z.of_nat (length (pe_labels prepare)) >? 100)
  || negb (Bool.eqb (ec_requires_interactive (pe_configuration prepare))
             (bool_decide (is_Some (ec_session_id (pe_configuration prepare)))))
  || (bool_decide (pe_workload prepare = WorkFixSandbox)
      && (negb (bool_decide (pe_runtime_kind prepare = Docker))
          || negb (bool_decide (pe_execution_os prepare = Linux))
          || negb (is_github_repository (pe_target prepare))))
  || (bool_decide (pe_runtime_kind prepare = Docker)
      && negb (bool_decide (pe_execution_os prepare = Linux)))
  || (bool_decide (pe_runtime_kind prepare = TartVm)
      && (negb (bool_decide (pe_execution_os prepare = Macos))
          || negb (bool_decide (pe_architecture prepare = Arm64))))
  || (is_bitbucket (pe_target prepare) && negb (bool_decide (pe_mode prepare = Persistent)))
  || (is_github (pe_target prepare) && bool_decide (pe_runtime_kind prepare = TartVm)
      && negb (bool_decide (pe_mode prepare = Ephemeral)))
  || (is_bitbucket (pe_target prepare) && bool_decide (pe_execution_os prepare = Windows)
      && bool_decide (pe_architecture prepare = Arm64)).

Definition AgentOperation_check (op : AgentOperation) (scope : CommandScope) (revision : Z)
    : Result unit CommandError :=
  let host_operation :=
    match op with OpInspectHost | OpDrainHost | OpUpgradeAgent _ _ _ _ => true | _ => false end in
  if negb (Bool.eqb host_operation (bool_decide (scope = ScopeHost))) then Err CmdScope else
  match op with
  | OpPrepareEnvironment prepare =>
      let? _ := check_allocations (pe_allocation_ids prepare) in
      if prepare_inconsistent prepare revision then Err CmdConfiguration else Ok tt
  | OpStartRunner start =>
      let? _ := check_allocations (sr_allocation_ids start) in
      if negb (sr_profile_revision start =? revision) then Err CmdConfiguration else Ok tt
  | OpExecuteSandbox expected_resource _ argv _ _ _ =>
      if negb (is_docker_resource expected_resource)
         || (Z.of_nat (length argv) >? 128)
         || (sum_rows byte_len argv >? 65536)
      then Err CmdConfiguration else Ok tt
  | OpSandboxFile expected_resource _ | OpSandboxArtifact expected_resource _ =>
      if negb (is_docker_resource expected_resource) then Err CmdConfiguration else Ok tt
  | _ => Ok tt
  end.

Definition set_request_hash (e : AgentCommandEnvelope) (h : string) : AgentCommandEnvelope :=
  {| protocol_version := protocol_version e; command_id := command_id e;
     operation_id := operation_id e; idempotency_key := idempotency_key e;
     host_id := host_id e; host_epoch := host_epoch e;
     control_plane_incarnation := control_plane_incarnation e;
     authority_session_id := authority_session_id e; scope := scope e;
     expected_revision := expected_revision e; issued_at := issued_at e;
     deadline_at := deadline_at e; request_hash := h; operation := operation e |}.

Definition canonical_hash `{Codec} (e : AgentCommandEnvelope) : Result string CommandError :=
  let canonical := set_request_hash e "" in
  let? bytes := ok_or CmdSerialization (envelope_json canonical) in
  Ok (b64_encode (sha256 bytes)).

Definition check_shape (e : AgentCommandEnvelope) : Result unit CommandError :=
  let? _ := AgentOperation_check (operation e) (scope e) (expected_revision e) in
  let? duration := ok_or CmdDeadline (i64_checked_sub (deadline_at e) (issued_at e)) in
  let cap := match operation e with OpStartRunner _ => 60000 | _ => 3600000 end in
  if (duration <=? 0) || (duration >? cap) then Err CmdDeadline else
  match operation e with
  | OpStartRunner start =>
      if deadline_at e >? sr_bootstrap_expires_at start then Err CmdDeadline else Ok tt
  | _ => Ok tt
  end.

Definition seal_hash `{Codec} (e : AgentCommandEnvelope)
    : Result AgentCommandEnvelope CommandError :=
  let? _ := check_shape e in
  let? h := canonical_hash e in
  Ok (set_request_hash e h).

Definition validate_binding `{Codec} (e : AgentCommandEnvelope) (session : ExpectedAgentSession)
    : Result unit CommandError :=
  let? _ := check_shape e in
  if negb (host_id e =? es_host_id session)
     || negb (host_epoch e =? es_host_epoch session)
     || negb (control_plane_incarnation e =? es_control_plane_incarnation session)
     || negb (authority_session_id e =? es_authority_session_id session)
  then Err CmdAuthority else
  let? h := canonical_hash e in
  if negb (String.eqb (request_hash e) h) then Err CmdHash else Ok tt.

Definition is_start_runner (op : AgentOperation) : bool :=
  match op with OpStartRunner _ => true | _ => false end.

Definition validate_against `{Codec} (e : AgentCommandEnvelope) (session : ExpectedAgentSession)
    (now : Z) : Result AgentCommandEnvelope CommandError :=
  let? _ := validate_binding e session in
  if (now <? issued_at e) || (deadline_at e <=? now) || (es_authority_expires_at session <=? now)
  then Err CmdDeadline
  else if is_start_runner (operation e) && (deadline_at e >? es_authority_expires_at session)
  then Err CmdDeadline
  else Ok e.

(** ** Sealing and validating *)
Lemma canonical_hash_reseal `{Codec} e h : canonical_hash (set_request_hash e h) = canonical_hash e.
Proof. done. Qed.

Lemma check_shape_reseal e h : check_shape (set_request_hash e h) = check_shape e.
Proof. done. Qed.

(** The session an envelope was sealed for. *)
Definition bound_to (e : AgentCommandEnvelope) (session : ExpectedAgentSession) : Prop :=
  host_id e = es_host_id session ∧ host_epoch e = es_host_epoch session
  ∧ control_plane_incarnation e = es_control_plane_incarnation session
  ∧ authority_session_id e = es_authority_session_id session.

Lemma validate_binding_Ok `{Codec} e session :
  validate_binding e session = Ok tt ↔
  check_shape e = Ok tt ∧ bound_to e session ∧ canonical_hash e = Ok (request_hash e).
Proof.
  unfold validate_binding, bound_to. split.
  - intros H0. inv_result. bool_to_prop. subst. destruct x. done.
  - intros (-> & (-> & -> & -> & ->) & ->). simpl. rewrite !Z.eqb_refl, String.eqb_refl. done.
Qed.

Lemma seal_validate `{Codec} (e sealed : AgentCommandEnvelope)
    (session : ExpectedAgentSession) (now : Z) :
  seal_hash e = Ok sealed →
  validate_against sealed session now = Ok sealed ↔
  bound_to e session
  ∧ issued_at e ≤ now < deadline_at e ∧ now < es_authority_expires_at session
  ∧ (is_start_runner (operation e) = true → deadline_at e ≤ es_authority_expires_at session).
Proof.
  unfold seal_hash. intros Hs. inv_result. destruct x.
  assert (∀ P, (validate_binding (set_request_hash e x0) session = Ok tt ∧ P)
               ↔ (bound_to e session ∧ P)) as Hbind.
  { intros P. rewrite validate_binding_Ok, check_shape_reseal, canonical_hash_reseal. simpl. tauto. }
  rewrite <-Hbind. unfold validate_against.
  destruct (validate_binding _ _) as [[]|] eqn:E; simpl; [|naive_solver].
  rewrite Z.gtb_ltb.
  destruct (Z.ltb_spec now (issued_at e)), (Z.leb_spec (deadline_at e) now),
    (Z.leb_spec (es_authority_expires_at session) now); simpl; try (split; [done|lia]).
  destruct (is_start_runner (operation e)) eqn:Es; simpl.
  - destruct (Z.ltb_spec (es_authority_expires_at session) (deadline_at e)); split; try done; lia.
  - split; [|done]. intros _. split_and!; done || lia.
Qed.

(** A sealed command is accepted by the agent session it names, exactly
    from its issue time until its deadline or the end of the session's
    authority, whichever comes first; a start must also end inside that
    authority.  Another session refuses it at any time. *)
Theorem sealed_command_window `{Codec} (e sealed : AgentCommandEnvelope)
    (session : ExpectedAgentSession) (now : Z) :
  seal_hash e = Ok sealed →
  validate_against sealed session now = Ok sealed ↔
  bound_to e session
  ∧ issued_at e ≤ now < deadline_at e ∧ now < es_authority_expires_at session
  ∧ (is_start_runner (operation e) = true → deadline_at e ≤ es_authority_expires_at session).
Proof. apply seal_validate. Qed.

(** A host-scoped inspection, used by the concrete runs. *)
Module Sample.
Definition envelope : AgentCommandEnvelope :=
  {| protocol_version := 1; command_id := 21; operation_id := 22; idempotency_key := "inspect:1";
     host_id := 5; host_epoch := 1; control_plane_incarnation := 6; authority_session_id := 7;
     scope := ScopeHost; expected_revision := 1; issued_at := 1000; deadline_at := 31000;
     request_hash := ""; operation := OpInspectHost |}.

Definition sealed : AgentCommandEnvelope := set_request_hash envelope "aW5zcGVjdDox".

Definition session : ExpectedAgentSession :=
  {| es_host_id := 5; es_host_epoch := 1; es_control_plane_incarnation := 6;
     es_authority_session_id := 7; es_credential_generation := 1;
     es_authority_expires_at := 60000 |}.
End Sample.

Lemma sealed_command_window_witness :
  validate_against (H := Plain.codec) Sample.sealed Sample.session 2000 = Ok Sample.sealed.
Proof.
  apply (sealed_command_window (H := Plain.codec) Sample.envelope Sample.sealed Sample.session 2000).
  - vm_compute. reflexivity.
  - repeat split; cbn; lia || discriminate.
Defined.
