(* ===== verification/Outcomes.v ===== *)
(** * Transfer chunks and command results
    ([crates/gridops-core/src/fleet/protocol/{chunks,outcomes}.rs]).

    What an agent sends back: byte ranges of logs and artifacts, and the
    result of a command, which is checked against the command it answers. *)
From S2P Require Import Prelude Base64 Ids Domain Protocol.
#[local] Open Scope Z_scope.

(** ** Chunks *)
Inductive StreamReference :=
| StreamLog (stream_id : Uuid)
| StreamArtifact (artifact_id : Uuid).

Record ChunkOwnership := {
  co_placement_id : Uuid;
  co_backend_id : Uuid;
  co_generation : Z;
}.

Record DroppedByteGap := { gap_from : Z; gap_to : Z }.

Record TransferChunk := {
  tc_stream : StreamReference;
  tc_owner : ChunkOwnership;
  tc_offset : Z;
  tc_bytes : list Z;
  tc_eof : bool;
  tc_gap : option DroppedByteGap;
}.

Record RawChunk := {
  raw_stream : StreamReference;
  raw_owner : ChunkOwnership;
  raw_offset : Z;
  raw_data_base64 : string;
  raw_decoded_length : Z;
  raw_sha256 : string;
  raw_eof : bool;
  raw_gap : option DroppedByteGap;
}.

Inductive ChunkError := ChunkTooLarge | ChunkInvalidBytes | ChunkOffsetOverflow
                      | ChunkInvalidGap | ChunkEmpty.

Definition is_log (s : StreamReference) : bool :=
  match s with StreamLog _ => true | _ => false end.

Definition gap_invalid (stream : StreamReference) (offset : Z) (gap : option DroppedByteGap) : bool :=
  match gap with
  | Some gap => negb (is_log stream) || (gap_to gap <=? gap_from gap) || negb (gap_to gap =? offset)
  | None => false
  end.

Definition TransferChunk_try_from `{Codec} (raw : RawChunk) : Result TransferChunk ChunkError :=
  if (raw_decoded_length raw >? MAX_CHUNK_BYTES)
     || (byte_len (raw_data_base64 raw) >? (MAX_CHUNK_BYTES + 2) / 3 * 4)
  then Err ChunkTooLarge else
  let? bytes := ok_or ChunkInvalidBytes (b64_decode (raw_data_base64 raw)) in
  let len := Z.of_nat (length bytes) in
  if negb (len =? raw_decoded_length raw)
     || (len >? MAX_CHUNK_BYTES)
     || negb (String.eqb (b64_encode bytes) (raw_data_base64 raw))
     || negb (String.eqb (raw_sha256 raw) (b64_encode (sha256 bytes)))
  then Err ChunkInvalidBytes else
  let? end_ := ok_or ChunkOffsetOverflow (u64_checked_add (raw_offset raw) len) in
  let? _ := map_err (λ _, ChunkOffsetOverflow) (ByteOffset_new end_) in
  if gap_invalid (raw_stream raw) (raw_offset raw) (raw_gap raw) then Err ChunkInvalidGap
  else if bool_decide (bytes = []) && negb (raw_eof raw) && bool_decide (raw_gap raw = None)
  then Err ChunkEmpty
  else Ok {| tc_stream := raw_stream raw; tc_owner := raw_owner raw; tc_offset := raw_offset raw;
             tc_bytes := bytes; tc_eof := raw_eof raw; tc_gap := raw_gap raw |}.

Definition RawChunk_from `{Codec} (chunk : TransferChunk) : RawChunk :=
  {| raw_stream := tc_stream chunk; raw_owner := tc_owner chunk; raw_offset := tc_offset chunk;
     raw_data_base64 := b64_encode (tc_bytes chunk);
     raw_decoded_length := Z.of_nat (length (tc_bytes chunk));
     raw_sha256 := b64_encode (sha256 (tc_bytes chunk));
     raw_eof := tc_eof chunk; raw_gap := tc_gap chunk |}.

Definition TransferChunk_from_bytes `{Codec} (stream : StreamReference) (owner : ChunkOwnership)
    (offset : Z) (bytes : list Z) (eof : bool) (gap : option DroppedByteGap)
    : Result TransferChunk ChunkError :=
  if Z.of_nat (length bytes) >? MAX_CHUNK_BYTES then Err ChunkTooLarge else
  TransferChunk_try_from
    {| raw_stream := stream; raw_owner := owner; raw_offset := offset;
       raw_data_base64 := b64_encode bytes; raw_decoded_length := Z.of_nat (length bytes);
       raw_sha256 := b64_encode (sha256 bytes); raw_eof := eof; raw_gap := gap |}.

(** ** Results *)
Inductive DiagnosticCode :=
| DiagAuthority | DiagConfiguration | DiagDeadline | DiagDependency | DiagImageUnavailable
| DiagPermission | DiagResourceUnavailable | DiagRuntime | DiagStale | DiagUnknown.

Inductive FailureCode :=
| FailCancelled | FailConfiguration | FailDependency | FailDeadline | FailPermission
| FailResourceUnavailable | FailRuntime | FailUnsupported.

Inductive UncertainCode :=
| UncAuthorityLost | UncDeliveryUnknown | UncLocalStateUnknown | UncTimeout.

Record DiagnosticReference := { diag_id : Uuid; diag_code : DiagnosticCode }.

Record LocalAbsenceClaim := {
  lac_resource : LocalResourceIdentity;
  lac_observed_at : Z;
  lac_evidence : DiagnosticReference;
}.

Record DelayedStartExclusionClaim := {
  dsc_resource : LocalResourceIdentity;
  dsc_excluded_at : Z;
  dsc_evidence : DiagnosticReference;
}.

Inductive SandboxExitStatus := Exited (code : Z) | Signaled (signal : Z) | TimedOut.

Record LogStreamReference := { ls_stream_id : Uuid; ls_bytes : Z }.

Record ArtifactReceipt := { ar_artifact_id : Uuid; ar_size_bytes : Z; ar_digest : list Z }.

Inductive SandboxFileResult :=
| FileReadResult (chunk : option TransferChunk) (size_bytes : Z) (digest : list Z)
| FileWritten (artifact : ArtifactReceipt).

Inductive SandboxArtifactResult :=
| ArtifactPublished (artifact : ArtifactReceipt)
| ArtifactFetched (chunk : TransferChunk) (size_bytes : Z) (digest : list Z).

Inductive SuccessEvidence :=
| EvPreparedEnvironment (prepared_environment_id : Uuid)
| EvRunnerStarted (prepared_environment_id execution_profile_id : Uuid) (profile_revision : Z)
    (local_identity : LocalResourceIdentity)
| EvInspected (local_identity : option LocalResourceIdentity)
| EvDrained (local_identity : option LocalResourceIdentity)
| EvStopped (local_identity : LocalResourceIdentity)
| EvCleaned (local_identity : LocalResourceIdentity) (local_absence : LocalAbsenceClaim)
    (delayed_start_exclusion : DelayedStartExclusionClaim)
| EvAgentUpgraded (signed_manifest_reference : Uuid) (version : string)
| EvSandboxExecuted (local_identity : LocalResourceIdentity) (exit_status : SandboxExitStatus)
    (stdout stderr : option LogStreamReference)
| EvSandboxFileApplied (local_identity : LocalResourceIdentity) (action : SandboxFileAction)
    (result : SandboxFileResult)
| EvSandboxArtifactApplied (local_identity : LocalResourceIdentity)
    (action : SandboxArtifactAction) (result : SandboxArtifactResult).

Inductive CommandOutcome :=
| OutAccepted (attempt : Z)
| OutRunning (attempt : Z)
| OutSucceeded (evidence : SuccessEvidence)
| OutFailed (code : FailureCode) (retryable : bool) (diagnostic : option DiagnosticReference)
| OutUncertain (code : UncertainCode) (diagnostic : option DiagnosticReference).

Record AgentCommandResult := {
  res_result_id : Uuid;
  res_command_id : Uuid;
  res_operation_id : Uuid;
  res_host_id : Uuid;
  res_host_epoch : Z;
  res_control_plane_incarnation : Uuid;
  res_authority_session_id : Uuid;
  res_scope : CommandScope;
  res_generation : option Z;
  res_request_hash : list Z;
  res_observed_at : Z;
  res_outcome : CommandOutcome;
}.

Inductive OutcomeError := OutcomeCorrelation | OutcomeScope | OutcomeEvidence | OutcomeHash.

Definition scope_generation_matches (scope : CommandScope) (generation : option Z) : bool :=
  match scope, generation with
  | ScopeHost, None => true
  | ScopePlacement _ _ expected, Some actual => expected =? actual
  | _, _ => false
  end.

Definition owner_is (chunk : TransferChunk) (placement_id backend_id : Uuid) (generation : Z) : bool :=
  (co_placement_id (tc_owner chunk) =? placement_id)
  && (co_backend_id (tc_owner chunk) =? backend_id)
  && (co_generation (tc_owner chunk) =? generation).

Definition file_result_matches `{Codec} (action : SandboxFileAction) (result : SandboxFileResult)
    (scope : CommandScope) : bool :=
  match action, result with
  | FileRead _ offset max_bytes, FileReadResult chunk size_bytes digest =>
      match chunk with
      | Some chunk =>
          match scope with
          | ScopePlacement placement_id backend_id generation =>
              (tc_offset chunk =? offset)
              && (size_bytes =? Z.of_nat (length (tc_bytes chunk)))
              && (size_bytes <=? max_bytes)
              && bool_decide (digest = sha256 (tc_bytes chunk))
              && owner_is chunk placement_id backend_id generation
          | ScopeHost => false
          end
      | None => (size_bytes =? 0) && bool_decide (digest = sha256 [])
      end
  | FileWrite _ artifact_id expected_length sha, FileWritten artifact =>
      (ar_artifact_id artifact =? artifact_id)
      && (ar_size_bytes artifact =? expected_length)
      && bool_decide (ar_digest artifact = sha)
  | _, _ => false
  end.

Definition artifact_result_matches `{Codec} (action : SandboxArtifactAction)
    (result : SandboxArtifactResult) (scope : CommandScope) : bool :=
  match action, result with
  | ArtifactPublish _ artifact_id, ArtifactPublished artifact =>
      artifact_id =? ar_artifact_id artifact
  | ArtifactFetch artifact_id offset max_bytes, ArtifactFetched chunk size_bytes digest =>
      match scope with
      | ScopePlacement placement_id backend_id generation =>
          match tc_stream chunk with
          | StreamArtifact stream_id => stream_id =? artifact_id
          | StreamLog _ => false
          end
          && (tc_offset chunk =? offset)
          && (size_bytes =? Z.of_nat (length (tc_bytes chunk)))
          && (size_bytes <=? max_bytes)
          && bool_decide (digest = sha256 (tc_bytes chunk))
          && owner_is chunk placement_id backend_id generation
      | ScopeHost => false
      end
  | _, _ => false
  end.

Definition evidence_matches `{Codec} (command : AgentCommandEnvelope) (evidence : SuccessEvidence)
    : bool :=
  match operation command, evidence with
  | OpPrepareEnvironment _, EvPreparedEnvironment _ => true
  | OpStartRunner start, EvRunnerStarted prepared_environment_id execution_profile_id
                           profile_revision _ =>
      (sr_prepared_environment_id start =? prepared_environment_id)
      && (sr_execution_profile_id start =? execution_profile_id)
      && (sr_profile_revision start =? profile_revision)
  | OpInspectHost, EvInspected _ => true
  | OpInspect expected_resource, EvInspected local_identity =>
      bool_decide (local_identity = Some expected_resource)
  | OpDrainHost, EvDrained local_identity => bool_decide (local_identity = None)
  | OpDrain expected_resource, EvDrained local_identity =>
      bool_decide (local_identity = Some expected_resource)
  | OpStop expected_resource _, EvStopped local_identity =>
      bool_decide (expected_resource = local_identity)
  | OpCleanup expected_resource, EvCleaned local_identity local_absence delayed_start_exclusion =>
      bool_decide (expected_resource = local_identity)
      && bool_decide (lac_resource local_absence = local_identity)
      && bool_decide (dsc_resource delayed_start_exclusion = local_identity)
  | OpUpgradeAgent signed_manifest_reference expected_version _ _,
    EvAgentUpgraded actual_manifest version =>
      (signed_manifest_reference =? actual_manifest) && String.eqb expected_version version
  | OpExecuteSandbox expected_resource _ _ _ _ _, EvSandboxExecuted local_identity _ _ _ =>
      bool_decide (expected_resource = local_identity)
  | OpSandboxFile expected_resource action, EvSandboxFileApplied local_identity actual_action result =>
      bool_decide (expected_resource = local_identity) && bool_decide (action = actual_action)
      && file_result_matches action result (scope command)
  | OpSandboxArtifact expected_resource action,
    EvSandboxArtifactApplied local_identity actual_action result =>
      bool_decide (expected_resource = local_identity) && bool_decide (action = actual_action)
      && artifact_result_matches action result (scope command)
  | _, _ => false
  end.

Definition result_validate_against `{Codec} (result : AgentCommandResult)
    (command : AgentCommandEnvelope) : Result AgentCommandResult OutcomeError :=
  if negb (res_command_id result =? command_id command)
     || negb (res_operation_id result =? operation_id command)
     || negb (res_host_id result =? host_id command)
     || negb (res_host_epoch result =? host_epoch command)
     || negb (res_control_plane_incarnation result =? control_plane_incarnation command)
     || negb (res_authority_session_id result =? authority_session_id command)
     || negb (bool_decide (res_scope result = scope command))
  then Err OutcomeCorrelation
  else if negb (String.eqb (b64_encode (res_request_hash result)) (request_hash command))
  then Err OutcomeHash
  else if negb (scope_generation_matches (res_scope result) (res_generation result))
  then Err OutcomeScope
  else match res_outcome result with
       | OutSucceeded evidence =>
           if evidence_matches command evidence then Ok result else Err OutcomeEvidence
       | _ => Ok result
       end.

(** ** Chunks round-trip *)
Definition chunk_wf (c : TransferChunk) : Prop :=
  Forall is_byte (tc_bytes c)
  ∧ Z.of_nat (length (tc_bytes c)) ≤ MAX_CHUNK_BYTES
  ∧ 0 ≤ tc_offset c ∧ tc_offset c + Z.of_nat (length (tc_bytes c)) ≤ MAX_DATABASE_INTEGER
  ∧ gap_invalid (tc_stream c) (tc_offset c) (tc_gap c) = false
  ∧ (tc_bytes c = [] → tc_eof c = true ∨ is_Some (tc_gap c)).

Lemma try_from_chunk_wf `{Codec} raw c :
  0 ≤ raw_offset raw → TransferChunk_try_from raw = Ok c → chunk_wf c.
Proof.
  unfold TransferChunk_try_from, ByteOffset_new, BoundedInteger_new, u64_checked_add.
  intros Hoff Hc. inv_result. bool_to_prop. rewrite Z.gtb_ltb in *. bool_to_prop.
  unfold chunk_wf. simpl. split_and!; [by eapply b64_decode_bytes|lia..|done|].
  intros Hnil. destruct (raw_eof raw), (raw_gap raw); simpl in *; eauto.
  exfalso. bool_cases; done.
Qed.

Lemma try_from_RawChunk_from `{Codec} c :
  chunk_wf c → TransferChunk_try_from (RawChunk_from c) = Ok c.
Proof.
  intros (Hb & Hlen & Hoff & Hend & Hgap & Hempty).
  unfold TransferChunk_try_from, RawChunk_from. simpl.
  pose proof (b64_encode_len (tc_bytes c)) as He.
  assert ((Z.of_nat (length (tc_bytes c)) + 2) / 3 ≤ (MAX_CHUNK_BYTES + 2) / 3)
    by (apply Z.div_le_mono; lia).
  rewrite !gtb_false by lia. simpl.
  rewrite b64_decode_encode by done. simpl.
  rewrite Z.eqb_refl, !String.eqb_refl, ?gtb_false by lia. simpl.
  unfold u64_checked_add, MAX_DATABASE_INTEGER, i64_max, u64_max in *.
  rewrite (proj2 (Z.leb_le _ _)) by lia. simpl.
  unfold ByteOffset_new, BoundedInteger_new, MAX_DATABASE_INTEGER, i64_max.
  rewrite (proj2 (Z.leb_le _ _)), (proj2 (Z.leb_le _ _)) by lia. simpl.
  rewrite Hgap. destruct c as [st ow off bs eof gap]; simpl in *.
  case_match; [|done]. bool_to_prop. destruct (Hempty ltac:(done)) as [|[? ->]]; congruence.
Qed.

(** A transfer chunk that was accepted, or built from bytes, can be sent
    and is accepted again unchanged; it holds at most 256 KiB, ends inside the
    signed 64-bit offset range, and a dropped-byte gap ends where it starts. *)
Theorem chunk_roundtrip `{Codec} (raw : RawChunk) (c : TransferChunk) :
  0 ≤ raw_offset raw → TransferChunk_try_from raw = Ok c →
  TransferChunk_try_from (RawChunk_from c) = Ok c
  ∧ TransferChunk_from_bytes (tc_stream c) (tc_owner c) (tc_offset c) (tc_bytes c) (tc_eof c)
      (tc_gap c) = Ok c
  ∧ Z.of_nat (length (tc_bytes c)) ≤ MAX_CHUNK_BYTES
  ∧ tc_offset c + Z.of_nat (length (tc_bytes c)) ≤ i64_max
  ∧ (∀ gap, tc_gap c = Some gap → gap_from gap < gap_to gap ∧ gap_to gap = tc_offset c).
Proof.
  intros Hoff Hc. apply try_from_chunk_wf in Hc; [|done]. pose proof Hc as (Hb & Hlen & ? & ? & Hgap & ?).
  split_and!; try done.
  - by apply try_from_RawChunk_from.
  - unfold TransferChunk_from_bytes. rewrite gtb_false by lia.
    by apply try_from_RawChunk_from.
  - intros gap E. rewrite E in Hgap. simpl in Hgap. bool_to_prop. lia.
Qed.

Module SampleChunk.
Definition raw : RawChunk :=
  {| raw_stream := StreamLog 3;
     raw_owner := {| co_placement_id := 1; co_backend_id := 2; co_generation := 1 |};
     raw_offset := 10; raw_data_base64 := "b2s"; raw_decoded_length := 2; raw_sha256 := "b2s";
     raw_eof := false; raw_gap := Some {| gap_from := 4; gap_to := 10 |} |}.
Definition chunk : TransferChunk :=
  {| tc_stream := StreamLog 3;
     tc_owner := {| co_placement_id := 1; co_backend_id := 2; co_generation := 1 |};
     tc_offset := 10; tc_bytes := bytes "ok"; tc_eof := false;
     tc_gap := Some {| gap_from := 4; gap_to := 10 |} |}.
End SampleChunk.

Lemma chunk_roundtrip_witness :
  TransferChunk_try_from (H := Plain.codec) (RawChunk_from (H := Plain.codec) SampleChunk.chunk)
  = Ok SampleChunk.chunk.
Proof.
  apply (chunk_roundtrip (H := Plain.codec) SampleChunk.raw SampleChunk.chunk).
  - discriminate.
  - vm_compute. reflexivity.
Defined.

(** ** Results answer their command *)

(** The command kind a piece of success evidence is for. *)
Definition evidence_kind (ev : SuccessEvidence) : string :=
  match ev with
  | EvPreparedEnvironment _ => "prepare_environment"
  | EvRunnerStarted _ _ _ _ => "start_runner"
  | EvInspected _ => "inspect"
  | EvDrained _ => "drain"
  | EvStopped _ => "stop"
  | EvCleaned _ _ _ => "cleanup"
  | EvAgentUpgraded _ _ => "upgrade_agent"
  | EvSandboxExecuted _ _ _ _ => "execute_sandbox"
  | EvSandboxFileApplied _ _ _ => "sandbox_file"
  | EvSandboxArtifactApplied _ _ _ => "sandbox_artifact"
  end.

Lemma evidence_matches_kind `{Codec} command ev :
  evidence_matches command ev = true → evidence_kind ev = database_kind (operation command).
Proof. unfold evidence_matches. by destruct (operation command), ev. Qed.

Lemma result_validate_Ok `{Codec} result command r :
  result_validate_against result command = Ok r →
  r = result ∧ res_command_id result = command_id command
  ∧ res_scope result = scope command
  ∧ ∀ ev, res_outcome result = OutSucceeded ev → evidence_matches command ev = true.
Proof.
  unfold result_validate_against. intros Hr. inv_result. bool_to_prop.
  destruct (res_outcome result) eqn:E; inv_result; split_and!; naive_solver.
Qed.

(** A result that validates against a command answers that very command
    (identity, host, epoch, session and scope), its success evidence is of the
    command's kind, and a successful cleanup carries absence and delayed-start
    claims about exactly the resource the command named. *)
Theorem validated_result_answers_command `{Codec} (result r : AgentCommandResult)
    (command : AgentCommandEnvelope) :
  result_validate_against result command = Ok r →
  res_command_id result = command_id command
  ∧ res_host_id result = host_id command ∧ res_host_epoch result = host_epoch command
  ∧ res_authority_session_id result = authority_session_id command
  ∧ res_scope result = scope command
  ∧ (∀ ev, res_outcome result = OutSucceeded ev →
       evidence_kind ev = database_kind (operation command)
       ∧ ∀ id la ds, ev = EvCleaned id la ds →
           operation command = OpCleanup id ∧ lac_resource la = id ∧ dsc_resource ds = id).
Proof.
  intros Hr. pose proof (result_validate_Ok _ _ _ Hr) as (_ & _ & _ & Hev).
  unfold result_validate_against in Hr. inv_result. bool_to_prop. split_and!; try done.
  intros ev Hsucc. specialize (Hev _ Hsucc). split; [by apply evidence_matches_kind|].
  intros id la ds ->. unfold evidence_matches in Hev.
  destruct (operation command); try discriminate. bool_to_prop. by subst.
Qed.

Module SampleResult.
Definition result : AgentCommandResult :=
  {| res_result_id := 31; res_command_id := 21; res_operation_id := 22; res_host_id := 5;
     res_host_epoch := 1; res_control_plane_incarnation := 6; res_authority_session_id := 7;
     res_scope := ScopeHost; res_generation := None; res_request_hash := bytes "inspect:1";
     res_observed_at := 3000; res_outcome := OutSucceeded (EvInspected None) |}.
End SampleResult.

Lemma validated_result_answers_command_witness :
  res_command_id SampleResult.result = command_id Sample.sealed.
Proof.
  apply (validated_result_answers_command (H := Plain.codec)
    SampleResult.result SampleResult.result Sample.sealed).
  vm_compute. reflexivity.
Defined.
