(* ===== verification/Capabilities.v ===== *)
(** * Observed execution capabilities and admission compatibility
    ([crates/gridops-core/src/fleet/capabilities.rs]).

    [evaluate] decides whether a backend's report, probed under the current
    authority, can run what a profile asks for; [static_compatibility] holds
    the ceilings no report can lift. *)
From S2P Require Import Prelude Base64 Ids Domain Protocol.
#[local] Open Scope string_scope.
#[local] Open Scope Z_scope.

Inductive TargetKind :=
| KindGithubRepository | KindGithubOrganization | KindBitbucketWorkspace | KindBitbucketRepository.

Definition TargetKind_from (target : CiTarget) : TargetKind :=
  match target with
  | GithubRepository _ _ => KindGithubRepository
  | GithubOrganization _ _ => KindGithubOrganization
  | BitbucketWorkspace _ _ => KindBitbucketWorkspace
  | BitbucketRepository _ _ _ => KindBitbucketRepository
  end.

Definition TargetKind_is_bitbucket (k : TargetKind) : bool :=
  match k with KindBitbucketWorkspace | KindBitbucketRepository => true | _ => false end.

Record SupportedRunner := { target_kind : TargetKind; mode : RunnerMode }.

Inductive EnvironmentReadiness := EnvReady | EnvPreparable | EnvUnavailable | EnvUnknown.

Record EnvironmentCapability := {
  env_reference : string;
  env_readiness : EnvironmentReadiness;
  env_version : option string;
}.

Inductive CpuMemoryEnforcement := Reservation | HardLimit | CpuMemoryUnsupported.
Inductive DiskEnforcement := Estimate | Quota | DiskUnsupported.
Record ResourceEnforcement := {
  enf_cpu : CpuMemoryEnforcement;
  enf_memory : CpuMemoryEnforcement;
  enf_disk : DiskEnforcement;
}.
Inductive InteractiveCapability := InteractiveUnsupported | RequiresAuthorizedHelper.
Inductive DockerSocketCapability := DockerSocketUnsupported | RequiresExplicitGrant.

#[export] Instance TargetKind_eq_dec : EqDecision TargetKind.
Proof. solve_decision. Defined.
#[export] Instance SupportedRunner_eq_dec : EqDecision SupportedRunner.
Proof. solve_decision. Defined.
#[export] Instance EnvironmentReadiness_eq_dec : EqDecision EnvironmentReadiness.
Proof. solve_decision. Defined.
#[export] Instance CpuMemoryEnforcement_eq_dec : EqDecision CpuMemoryEnforcement.
Proof. solve_decision. Defined.
#[export] Instance DiskEnforcement_eq_dec : EqDecision DiskEnforcement.
Proof. solve_decision. Defined.
#[export] Instance InteractiveCapability_eq_dec : EqDecision InteractiveCapability.
Proof. solve_decision. Defined.
#[export] Instance DockerSocketCapability_eq_dec : EqDecision DockerSocketCapability.
Proof. solve_decision. Defined.

Record CapabilityReport := {
  rep_schema_version : Z;
  rep_runtime_kind : RuntimeKind;
  rep_execution_os : ExecutionOs;
  rep_architecture : Architecture;
  rep_supported_runners : list SupportedRunner;
  rep_environments : list EnvironmentCapability;
  rep_any_image : bool;
  rep_resources : ResourceEnforcement;
  rep_interactive : InteractiveCapability;
  rep_docker_socket : DockerSocketCapability;
}.

(** [TryFrom<CapabilityReport> for BackendCapabilities]: bounded, without
    duplicate runners or duplicate environment references. *)
Definition BackendCapabilities_try_from (report : CapabilityReport)
    : Result CapabilityReport ContractError :=
  if (Z.of_nat (length (rep_supported_runners report)) >? 32)
     || (Z.of_nat (length (rep_environments report)) >? 128)
  then Err PayloadTooLarge
  else if negb (nodup_b (rep_supported_runners report))
          || negb (nodup_b (env_reference <$> rep_environments report))
  then Err InvalidText
  else Ok report.

Record ExecutionRequirement := {
  req_runtime_kind : RuntimeKind;
  req_execution_os : ExecutionOs;
  req_architecture : Architecture;
  req_runner : SupportedRunner;
  req_environment : string;
  req_resources : ResourceRequest;
  req_requires_interactive : bool;
  req_requires_docker_socket : bool;
}.

Record BackendIdentity := {
  bi_host_id : Uuid;
  bi_backend_id : Uuid;
  bi_runtime_kind : RuntimeKind;
  bi_execution_os : ExecutionOs;
  bi_architecture : Architecture;
}.

Record CurrentProbe := {
  pr_host_id : Uuid;
  pr_backend_id : Uuid;
  pr_received_at : Z;
  pr_host_epoch : Z;
  pr_authority_session_id : Uuid;
  pr_boot_id : string;
  pr_control_plane_incarnation : Uuid;
}.

Record CurrentAuthority := {
  ca_host_id : Uuid;
  ca_host_epoch : Z;
  ca_authority_session_id : Uuid;
  ca_boot_id : string;
  ca_control_plane_incarnation : Uuid;
}.

Inductive CapabilityRejection :=
| IdentityMismatch | AuthorityMismatch | StaleProbe | IncompatibleRuntime | IncompatibleOs
| IncompatibleArchitecture | UnsupportedMode | ImageUnavailable | ResourceUnsupported
| InteractiveIsUnsupported | DockerSocketIsUnsupported.

Definition CapabilityRejection_reason_code (r : CapabilityRejection) : string :=
  match r with
  | IdentityMismatch => "capability_unverified"
  | AuthorityMismatch => "stale_inventory"
  | StaleProbe => "stale_health"
  | IncompatibleRuntime => "incompatible_runtime"
  | IncompatibleOs => "incompatible_os"
  | IncompatibleArchitecture => "incompatible_architecture"
  | UnsupportedMode => "unsupported_mode"
  | ImageUnavailable => "image_unavailable"
  | ResourceUnsupported => "resource_unsupported"
  | InteractiveIsUnsupported => "session_unavailable"
  | DockerSocketIsUnsupported => "capability_unverified"
  end.

(** Upstream and runtime ceilings. *)
Definition static_compatibility (requirement : ExecutionRequirement)
    : Result unit CapabilityRejection :=
  let runtime := req_runtime_kind requirement in
  let os := req_execution_os requirement in
  let arch := req_architecture requirement in
  let runner := req_runner requirement in
  let bitbucket := TargetKind_is_bitbucket (target_kind runner) in
  if bool_decide (runtime = Docker) && negb (bool_decide (os = Linux)) then Err IncompatibleOs else
  let? _ :=
    if bool_decide (runtime = TartVm) then
      if negb (bool_decide (os = Macos)) then Err IncompatibleOs
      else if negb (bool_decide (arch = Arm64)) then Err IncompatibleArchitecture
      else if negb bitbucket && negb (bool_decide (mode runner = Ephemeral))
      then Err UnsupportedMode else Ok tt
    else Ok tt in
  if bitbucket then
    if negb (bool_decide (mode runner = Persistent)) then Err UnsupportedMode
    else if bool_decide (os = Windows)
            && (negb (bool_decide (arch = X64)) || negb (bool_decide (runtime = NativeProcess)))
    then Err IncompatibleArchitecture else Ok tt
  else Ok tt.

Definition env_usable (e : EnvironmentCapability) (reference : string) : bool :=
  String.eqb (env_reference e) reference
  && (bool_decide (env_readiness e = EnvReady) || bool_decide (env_readiness e = EnvPreparable)).

Definition evaluate (report : CapabilityReport) (identity : BackendIdentity)
    (requirement : ExecutionRequirement) (probe : option CurrentProbe)
    (authority : CurrentAuthority) (now : Z)
    : Result EnvironmentReadiness CapabilityRejection :=
  if negb (bool_decide ((rep_runtime_kind report, rep_execution_os report, rep_architecture report)
                        = (bi_runtime_kind identity, bi_execution_os identity, bi_architecture identity)))
  then Err IdentityMismatch else
  let? probe := ok_or StaleProbe probe in
  if negb (pr_host_id probe =? bi_host_id identity)
     || negb (pr_backend_id probe =? bi_backend_id identity)
     || negb (ca_host_id authority =? bi_host_id identity)
     || negb (pr_host_epoch probe =? ca_host_epoch authority)
     || negb (pr_authority_session_id probe =? ca_authority_session_id authority)
     || negb (String.eqb (pr_boot_id probe) (ca_boot_id authority))
     || negb (pr_control_plane_incarnation probe =? ca_control_plane_incarnation authority)
  then Err AuthorityMismatch else
  let? age := ok_or StaleProbe (i64_checked_sub now (pr_received_at probe)) in
  if negb ((0 <=? age) && (age <? 45000)) then Err StaleProbe
  else if negb (bool_decide (rep_runtime_kind report = req_runtime_kind requirement))
  then Err IncompatibleRuntime
  else if negb (bool_decide (rep_execution_os report = req_execution_os requirement))
  then Err IncompatibleOs
  else if negb (bool_decide (rep_architecture report = req_architecture requirement))
  then Err IncompatibleArchitecture else
  let? _ := static_compatibility requirement in
  if negb (bool_decide (req_runner requirement ∈ rep_supported_runners report))
  then Err UnsupportedMode else
  let? environment_readiness :=
    match fetch (λ e, env_usable e (req_environment requirement)) (rep_environments report) with
    | Some environment => Ok (env_readiness environment)
    | None => if rep_any_image report then Ok EnvPreparable else Err ImageUnavailable
    end in
  if ((rq_cpu_millis (req_resources requirement) >? 0)
      && bool_decide (enf_cpu (rep_resources report) = CpuMemoryUnsupported))
     || ((rq_memory_mib (req_resources requirement) >? 0)
         && bool_decide (enf_memory (rep_resources report) = CpuMemoryUnsupported))
     || ((rq_disk_bytes (req_resources requirement) >? 0)
         && bool_decide (enf_disk (rep_resources report) = DiskUnsupported))
  then Err ResourceUnsupported
  else if req_requires_interactive requirement
          && negb (bool_decide (rep_interactive report = RequiresAuthorizedHelper))
  then Err InteractiveIsUnsupported
  else if req_requires_docker_socket requirement
          && negb (bool_decide (rep_docker_socket report = RequiresExplicitGrant))
  then Err DockerSocketIsUnsupported
  else Ok environment_readiness.

(** ** The specification [evaluate] implements *)

(** A probe taken for this backend under the current authority, less than 45
    seconds ago and not in the future. *)
Definition probe_current (identity : BackendIdentity) (authority : CurrentAuthority) (now : Z)
    (probe : CurrentProbe) : Prop :=
  pr_host_id probe = bi_host_id identity ∧ pr_backend_id probe = bi_backend_id identity
  ∧ ca_host_id authority = bi_host_id identity
  ∧ pr_host_epoch probe = ca_host_epoch authority
  ∧ pr_authority_session_id probe = ca_authority_session_id authority
  ∧ pr_boot_id probe = ca_boot_id authority
  ∧ pr_control_plane_incarnation probe = ca_control_plane_incarnation authority
  ∧ pr_received_at probe ≤ now < pr_received_at probe + 45000.

(** The platform an execution runs on, in one place. *)
Definition platform_ok (runtime : RuntimeKind) (os : ExecutionOs) (arch : Architecture)
    (bitbucket : bool) (m : RunnerMode) : Prop :=
  (runtime = Docker → os = Linux)
  ∧ (runtime = TartVm → os = Macos ∧ arch = Arm64)
  ∧ (runtime = TartVm → bitbucket = false → m = Ephemeral)
  ∧ (bitbucket = true → m = Persistent)
  ∧ (bitbucket = true → os = Windows → arch = X64).

Definition image_ok (report : CapabilityReport) (reference : string) (r : EnvironmentReadiness) : Prop :=
  (∃ e, fetch (λ e, env_usable e reference) (rep_environments report) = Some e ∧ r = env_readiness e)
  ∨ ((∀ e, e ∈ rep_environments report → env_usable e reference = false)
     ∧ rep_any_image report = true ∧ r = EnvPreparable).

Record compatible (report : CapabilityReport) (identity : BackendIdentity)
    (requirement : ExecutionRequirement) (probe : CurrentProbe) (authority : CurrentAuthority)
    (now : Z) (r : EnvironmentReadiness) : Prop := {
  comp_identity : (rep_runtime_kind report, rep_execution_os report, rep_architecture report)
    = (bi_runtime_kind identity, bi_execution_os identity, bi_architecture identity);
  comp_requirement : (rep_runtime_kind report, rep_execution_os report, rep_architecture report)
    = (req_runtime_kind requirement, req_execution_os requirement, req_architecture requirement);
  comp_probe : probe_current identity authority now probe;
  comp_platform : platform_ok (req_runtime_kind requirement) (req_execution_os requirement)
    (req_architecture requirement) (TargetKind_is_bitbucket (target_kind (req_runner requirement)))
    (mode (req_runner requirement));
  comp_runner : req_runner requirement ∈ rep_supported_runners report;
  comp_image : image_ok report (req_environment requirement) r;
  comp_cpu : 0 < rq_cpu_millis (req_resources requirement) →
    enf_cpu (rep_resources report) ≠ CpuMemoryUnsupported;
  comp_memory : 0 < rq_memory_mib (req_resources requirement) →
    enf_memory (rep_resources report) ≠ CpuMemoryUnsupported;
  comp_disk : 0 < rq_disk_bytes (req_resources requirement) →
    enf_disk (rep_resources report) ≠ DiskUnsupported;
  comp_interactive : req_requires_interactive requirement = true →
    rep_interactive report = RequiresAuthorizedHelper;
  comp_docker_socket : req_requires_docker_socket requirement = true →
    rep_docker_socket report = RequiresExplicitGrant;
}.

Lemma static_compatibility_spec requirement :
  static_compatibility requirement = Ok tt ↔
  platform_ok (req_runtime_kind requirement) (req_execution_os requirement)
    (req_architecture requirement) (TargetKind_is_bitbucket (target_kind (req_runner requirement)))
    (mode (req_runner requirement)).
Proof.
  unfold static_compatibility, platform_ok.
  destruct requirement as [runtime os arch [k m] env res i d]. simpl.
  destruct runtime, os, arch, (TargetKind_is_bitbucket k), m; simpl; intuition congruence.
Qed.

Lemma image_readiness_Ok report reference r :
  match fetch (λ e, env_usable e reference) (rep_environments report) with
  | Some environment => Ok (env_readiness environment)
  | None => if rep_any_image report then Ok EnvPreparable else Err ImageUnavailable
  end = Ok r ↔ image_ok report reference r.
Proof.
  unfold image_ok. destruct (fetch _ _) as [e|] eqn:E.
  - split; [intros [= <-]; eauto|]. intros [(e' & [= <-] & ->)|[Hno _]]; [done|].
    apply fetch_Some in E as [Hin Hu]. by rewrite Hno in Hu.
  - rewrite fetch_None in E.
    destruct (rep_any_image report); split; naive_solver.
Qed.

Lemma unsupported_false z {A} `{EqDecision A} (x y : A) :
  (z >? 0) && bool_decide (x = y) = false ↔ (0 < z → x ≠ y).
Proof.
  rewrite Z.gtb_ltb, andb_false_iff, Z.ltb_ge, bool_decide_eq_false.
  split; [intros [?|?] ?; [lia|done]|]. intros Hz. destruct (Z.le_gt_cases z 0); eauto.
Qed.

Lemma requires_false (b : bool) {A} `{EqDecision A} (x y : A) :
  b && negb (bool_decide (x = y)) = false ↔ (b = true → x = y).
Proof. destruct b; case_bool_decide; simpl; intuition congruence. Qed.

(** [evaluate] accepts a backend exactly when every condition of the
    compatibility contract holds: the report is for this backend and this
    platform, the probe is current, the upstream ceilings allow it, runner,
    image and resource accounting are supported, and interactive or Docker
    socket access is only ever granted through its explicit gate. *)
Theorem evaluate_spec (report : CapabilityReport) (identity : BackendIdentity)
    (requirement : ExecutionRequirement) (probe : option CurrentProbe)
    (authority : CurrentAuthority) (now : Z) (r : EnvironmentReadiness) :
  evaluate report identity requirement probe authority now = Ok r ↔
  ∃ p, probe = Some p ∧ compatible report identity requirement p authority now r.
Proof.
  unfold evaluate. split.
  - intros H. inv_result. destruct x1. bool_to_prop.
    apply static_compatibility_spec in Hx1. apply image_readiness_Ok in Hx2.
    repeat match goal with
    | H : (_ >? 0) && _ = false |- _ => rewrite unsupported_false in H
    | H : _ && negb _ = false |- _ => rewrite requires_false in H
    end.
    unfold i64_checked_sub in Hx0. inv_result.
    eexists; split; [done|]. split; try done; [congruence|].
    unfold probe_current. split_and!; done || lia.
  - intros (p & -> & [Hid Hreq Hp Hplat Hrun Himg Hcpu Hmem Hdisk Hint Hsock]).
    rewrite bool_decide_eq_true_2 by done. simpl.
    destruct Hp as (-> & -> & -> & -> & -> & -> & -> & Hage).
    rewrite !Z.eqb_refl, String.eqb_refl. simpl.
    unfold i64_checked_sub, i64_min, i64_max.
    rewrite !(proj2 (Z.leb_le _ _)) by lia. simpl.
    rewrite (proj2 (Z.leb_le _ _)), (proj2 (Z.ltb_lt _ _)) by lia. simpl.
    rewrite !bool_decide_eq_true_2 by congruence. simpl.
    rewrite (proj2 (static_compatibility_spec requirement) Hplat). simpl.
    rewrite (proj2 (image_readiness_Ok _ _ _) Himg). simpl.
    rewrite !(proj2 (unsupported_false _ _ _)) by done. simpl.
    rewrite !(proj2 (requires_false _ _ _)) by done. done.
Qed.

Module SampleBackend.
Definition runner : SupportedRunner :=
  {| target_kind := KindGithubRepository; mode := Ephemeral |}.
Definition report : CapabilityReport :=
  {| rep_schema_version := 1; rep_runtime_kind := Docker; rep_execution_os := Linux;
     rep_architecture := X64; rep_supported_runners := [runner]; rep_environments := [];
     rep_any_image := true;
     rep_resources := {| enf_cpu := HardLimit; enf_memory := HardLimit; enf_disk := Estimate |};
     rep_interactive := InteractiveUnsupported; rep_docker_socket := DockerSocketUnsupported |}.
Definition identity : BackendIdentity :=
  {| bi_host_id := 5; bi_backend_id := 8; bi_runtime_kind := Docker; bi_execution_os := Linux;
     bi_architecture := X64 |}.
Definition requirement : ExecutionRequirement :=
  {| req_runtime_kind := Docker; req_execution_os := Linux; req_architecture := X64;
     req_runner := runner; req_environment := "runner:latest";
     req_resources := {| rq_cpu_millis := 2000; rq_memory_mib := 2048; rq_disk_bytes := 0 |};
     req_requires_interactive := false; req_requires_docker_socket := false |}.
Definition probe : CurrentProbe :=
  {| pr_host_id := 5; pr_backend_id := 8; pr_received_at := 1000; pr_host_epoch := 1;
     pr_authority_session_id := 7; pr_boot_id := "boot"; pr_control_plane_incarnation := 6 |}.
Definition authority : CurrentAuthority :=
  {| ca_host_id := 5; ca_host_epoch := 1; ca_authority_session_id := 7; ca_boot_id := "boot";
     ca_control_plane_incarnation := 6 |}.
End SampleBackend.

(** The last moment the probe counts, and the first moment it does not. *)
Example evaluate_probe_boundary :
  evaluate SampleBackend.report SampleBackend.identity SampleBackend.requirement
    (Some SampleBackend.probe) SampleBackend.authority 45999 = Ok EnvPreparable
  ∧ evaluate SampleBackend.report SampleBackend.identity SampleBackend.requirement
      (Some SampleBackend.probe) SampleBackend.authority 46000 = Err StaleProbe.
Proof. split; vm_compute; reflexivity. Qed.

(** ** Agreement with the command check *)

(** The requirement admission evaluates for a prepare command. *)
Definition prepare_requirement (p : PrepareEnvironment) : ExecutionRequirement :=
  {| req_runtime_kind := pe_runtime_kind p; req_execution_os := pe_execution_os p;
     req_architecture := pe_architecture p;
     req_runner := {| target_kind := TargetKind_from (pe_target p); mode := pe_mode p |};
     req_environment := pe_image p; req_resources := pe_resource_request p;
     req_requires_interactive := ec_requires_interactive (pe_configuration p);
     req_requires_docker_socket := ec_requires_docker_socket (pe_configuration p) |}.

(** The parts of the command check that are not about the platform. *)
Definition prepare_consistent (p : PrepareEnvironment) (revision : Z) : Prop :=
  pe_profile_revision p = revision
  ∧ Z.of_nat (length (pe_labels p)) ≤ 100
  ∧ (ec_requires_interactive (pe_configuration p) = true ↔ is_Some (ec_session_id (pe_configuration p)))
  ∧ (pe_workload p = WorkFixSandbox →
       pe_runtime_kind p = Docker ∧ pe_execution_os p = Linux ∧ is_github_repository (pe_target p) = true).

Lemma TargetKind_from_bitbucket t : TargetKind_is_bitbucket (TargetKind_from t) = is_bitbucket t.
Proof. by destruct t. Qed.

Lemma fix_sandbox_clause p :
  bool_decide (pe_workload p = WorkFixSandbox)
    && (negb (bool_decide (pe_runtime_kind p = Docker))
        || negb (bool_decide (pe_execution_os p = Linux))
        || negb (is_github_repository (pe_target p))) = false
  ↔ (pe_workload p = WorkFixSandbox →
       pe_runtime_kind p = Docker ∧ pe_execution_os p = Linux ∧ is_github_repository (pe_target p) = true).
Proof.
  destruct (pe_workload p); simpl; [intuition congruence|].
  rewrite !orb_false_iff, !negb_false_iff, !bool_decide_eq_true. tauto.
Qed.

(** The scheduler and the agent protocol agree on platforms: what
    [static_compatibility] admits for a target, mode and platform is exactly
    what the sealed prepare command's own check accepts, so compatibility is
    never decided differently when the command is built. *)
Theorem static_compatibility_agrees (p : PrepareEnvironment) (revision : Z) :
  prepare_inconsistent p revision = false ↔
  prepare_consistent p revision ∧ static_compatibility (prepare_requirement p) = Ok tt.
Proof.
  rewrite static_compatibility_spec. unfold prepare_inconsistent, prepare_consistent, platform_ok.
  simpl. rewrite TargetKind_from_bitbucket, !orb_false_iff, fix_sandbox_clause.
  rewrite negb_false_iff, Z.eqb_eq, Z.gtb_ltb, Z.ltb_ge, negb_false_iff, Bool.eqb_true_iff.
  assert (∀ b (o : option Uuid), b = bool_decide (is_Some o) ↔ (b = true ↔ is_Some o)) as ->.
  { intros [] o; case_bool_decide; naive_solver. }
  unfold is_bitbucket. destruct (is_github (pe_target p)) eqn:Eg;
    destruct (pe_runtime_kind p), (pe_execution_os p), (pe_architecture p), (pe_mode p); simpl;
    intuition congruence.
Qed.
