(* ===== verification/Inventory.v ===== *)
(** * Agent protocol: handshake, inventory and heartbeat
    ([crates/gridops-core/src/fleet/protocol/inventory.rs]).

    What an agent reports of its machine, what it is answered, and the shape a
    report must have.  A bounded text, counter or timestamp is its content. *)
From S2P Require Import Prelude Base64 Ids Domain Protocol Outcomes Capabilities.
#[local] Open Scope string_scope.
#[local] Open Scope Z_scope.

Definition MAX_INVENTORY_ITEMS : Z := 64.
Definition MAX_INVENTORY_SAMPLES : Z := 64.

Definition BrowserUint53_new : Z → Result Z ContractError := BoundedInteger_new 0 MAX_SAFE_INTEGER.
Definition BrowserCounter_new : Z → Result Z ContractError := BoundedInteger_new 1 MAX_SAFE_INTEGER.

Inductive InventoryPayloadError :=
| InvalidProtocolRange | TooManyItems | TooManySamples | DuplicateLocalKey | InvalidDomainGraph
| BackendIdentityMismatch.

(** ** Handshake *)
Record ProtocolRange := { pr_min : Z; pr_max : Z }.

Definition ProtocolRange_new (min max : Z) : Result ProtocolRange InventoryPayloadError :=
  if (min =? 0) || (min >? max) then Err InvalidProtocolRange
  else Ok {| pr_min := min; pr_max := max |}.

Definition includes (range : ProtocolRange) (version : Z) : bool :=
  (pr_min range <=? version) && (version <=? pr_max range).

Record HandshakeRequest := {
  hs_request_id : Uuid; hs_agent_session_id : Uuid; hs_boot_id : string;
  hs_supported_protocol : ProtocolRange; hs_agent_version : string;
  hs_expected_host_epoch : option Z; hs_results_flushed : bool }.

Inductive ProtocolNegotiation := Supported (version : Z) | Incompatible.
Inductive ObservationSessionState := Observing | SessReconciling | SessReady | Conflicted.

#[export] Instance ObservationSessionState_eq_dec : EqDecision ObservationSessionState.
Proof. solve_decision. Defined.

Record ObservationLease := { lease_expires_at : Z; lease_heartbeat_ms : Z }.
Record HandshakeResponse := {
  hr_request_id : Uuid; hr_host_id : Uuid; hr_host_epoch : Z; hr_control_plane_incarnation : Uuid;
  hr_agent_session_id : Uuid; hr_boot_id : string; hr_negotiated_protocol : ProtocolNegotiation;
  hr_state : ObservationSessionState; hr_lease : option ObservationLease; hr_received_at : Z }.

(** ** Observations *)
Inductive DomainKind := Physical | VirtualMachine | DomainContainer.
Inductive HelperState := HelperReady | HelperUnavailable | HelperUnknown.
Inductive SampleCoverage := CoverageComplete | CoveragePartial | CoverageUnknown.

#[export] Instance DomainKind_eq_dec : EqDecision DomainKind.
Proof. solve_decision. Defined.

Record ObservedCapacity := {
  oc_cpu_millis : option Z; oc_memory_mib : option Z; oc_disk_bytes : option Z }.
Record ObservedDomain := {
  od_local_key : string; od_known_id : option Uuid; od_parent_local_key : option string;
  od_kind : DomainKind; od_name : string; od_runtime_identity : option string;
  od_capacity : ObservedCapacity }.
Record ObservedBackend := {
  obk_local_key : string; obk_known_id : option Uuid; obk_domain_local_key : string;
  obk_runtime_kind : RuntimeKind; obk_execution_os : ExecutionOs; obk_architecture : Architecture;
  obk_capabilities : CapabilityReport; obk_readiness : BackendReadiness;
  obk_reason : option string; obk_runtime_identity : option string }.
Record ObservedInteractiveSession := {
  ois_local_key : string; ois_known_id : option Uuid; ois_os_user_id : string;
  ois_helper_state : HelperState }.
Record ObservedSample := {
  os_domain_local_key : string; os_observed_at : Z; os_coverage : SampleCoverage;
  os_cpu_used_millis : option Z; os_memory_used_mib : option Z; os_disk_free_bytes : option Z;
  os_uptime_seconds : option Z }.

Record InventoryReport := {
  ir_host_epoch : Z; ir_control_plane_incarnation : Uuid; ir_authority_session_id : Uuid;
  ir_boot_id : string; ir_inventory_sequence : Z; ir_observed_at : Z;
  ir_domains : list ObservedDomain; ir_backends : list ObservedBackend;
  ir_interactive_sessions : list ObservedInteractiveSession; ir_samples : list ObservedSample }.
#[export] Instance InventoryReport_fields : Fields InventoryReport := λ r,
  {| ir_host_epoch := ir_host_epoch r;
    ir_control_plane_incarnation := ir_control_plane_incarnation r;
    ir_authority_session_id := ir_authority_session_id r; ir_boot_id := ir_boot_id r;
    ir_inventory_sequence := ir_inventory_sequence r; ir_observed_at := ir_observed_at r;
    ir_domains := ir_domains r; ir_backends := ir_backends r;
    ir_interactive_sessions := ir_interactive_sessions r; ir_samples := ir_samples r |}.

Definition check_count {A} (items : list A) : Result unit InventoryPayloadError :=
  if Z.of_nat (length items) >? MAX_INVENTORY_ITEMS then Err TooManyItems else Ok tt.

Definition parent_ok (keys : list string) (domain : ObservedDomain) : bool :=
  match od_parent_local_key domain with
  | Some parent => negb (String.eqb parent (od_local_key domain))
                   && existsb (String.eqb parent) keys
  | None => true
  end.

Definition backend_ok (keys : list string) (backend : ObservedBackend)
    : Result unit InventoryPayloadError :=
  if negb (existsb (String.eqb (obk_domain_local_key backend)) keys) then Err InvalidDomainGraph else
  let report := obk_capabilities backend in
  if bool_decide ((rep_runtime_kind report, rep_execution_os report, rep_architecture report)
                  = (obk_runtime_kind backend, obk_execution_os backend, obk_architecture backend))
  then Ok tt else Err BackendIdentityMismatch.

(** [InventoryReport::validate_shape]. *)
Definition validate_shape (report : InventoryReport) : Result unit InventoryPayloadError :=
  let? _ := check_count (ir_domains report) in
  let? _ := check_count (ir_backends report) in
  let? _ := check_count (ir_interactive_sessions report) in
  if Z.of_nat (length (ir_samples report)) >? MAX_INVENTORY_SAMPLES then Err TooManySamples else
  let keys := od_local_key <$> ir_domains report in
  if negb (nodup_b keys) then Err DuplicateLocalKey
  else if negb (nodup_b (obk_local_key <$> ir_backends report))
          || negb (nodup_b (ois_local_key <$> ir_interactive_sessions report))
  then Err DuplicateLocalKey
  else if negb (forallb (parent_ok keys) (ir_domains report)) then Err InvalidDomainGraph else
  let? _ := try_fold (λ _ backend, backend_ok keys backend) tt (ir_backends report) in
  if forallb (λ sample, existsb (String.eqb (os_domain_local_key sample)) keys) (ir_samples report)
  then Ok tt else Err InvalidDomainGraph.

Record InventoryRequest := { iq_request_id : Uuid; iq_report : InventoryReport }.

Record HeartbeatRequest := {
  hb_request_id : Uuid; hb_host_epoch : Z; hb_control_plane_incarnation : Uuid;
  hb_authority_session_id : Uuid; hb_boot_id : string; hb_heartbeat_sequence : Z;
  hb_observed_at : Z; hb_samples : list ObservedSample }.

(** [HeartbeatRequest::validate_shape]. *)
Definition heartbeat_validate_shape (request : HeartbeatRequest) : Result unit InventoryPayloadError :=
  if Z.of_nat (length (hb_samples request)) >? MAX_INVENTORY_SAMPLES then Err TooManySamples
  else if nodup_b (os_domain_local_key <$> hb_samples request) then Ok tt else Err DuplicateLocalKey.

(** ** Answers *)

(** [InventoryIdMapping]. *)
Record InventoryIdMapping := { im_local_key : string; im_server_id : Uuid }.
Record InventoryResponse := {
  iv_request_id : Uuid; iv_host_id : Uuid; iv_host_epoch : Z; iv_control_plane_incarnation : Uuid;
  iv_authority_session_id : Uuid; iv_inventory_sequence : Z; iv_inventory_revision : Z;
  iv_digest : string; iv_domain_ids : list InventoryIdMapping;
  iv_backend_ids : list InventoryIdMapping; iv_interactive_session_ids : list InventoryIdMapping;
  iv_received_at : Z; iv_state : ObservationSessionState; iv_lease : ObservationLease }.
Record PendingRotation := { pend_operation_id : Uuid; pend_next_generation : Z }.
Record HeartbeatResponse := {
  hp_request_id : Uuid; hp_host_id : Uuid; hp_host_epoch : Z; hp_control_plane_incarnation : Uuid;
  hp_authority_session_id : Uuid; hp_heartbeat_sequence : Z; hp_received_at : Z;
  hp_state : ObservationSessionState; hp_lease : ObservationLease;
  hp_pending_rotation : option PendingRotation; hp_work_authority_expires_at : option Z }.

(** ** Names in the database ([registry/inventory.rs]) *)
Definition runtime_name (value : RuntimeKind) : string :=
  match value with
  | Docker => "docker" | TartVm => "tart_vm" | NativeProcess => "native_process"
  end.
Definition os_name (value : ExecutionOs) : string :=
  match value with Linux => "linux" | Macos => "macos" | Windows => "windows" end.
Definition arch_name (value : Architecture) : string :=
  match value with X64 => "x64" | Arm64 => "arm64" end.
Definition helper_state_name (value : HelperState) : string :=
  match value with
  | HelperReady => "ready" | HelperUnavailable => "unavailable" | HelperUnknown => "unknown"
  end.
