(* ===== verification/Crypto.v ===== *)
(** * Sealing, signing and token digests
    ([crates/gridops-core/src/crypto.rs]).

    AES-256-GCM and HMAC-SHA-256 come from crates, so they are the class
    [Aead]; the envelope format around them is the source's. *)
From S2P Require Import Prelude Base64 Ids Domain Protocol.
#[local] Open Scope string_scope.
#[local] Open Scope Z_scope.

(** What the [aes_gcm] and [hmac] crates provide.  The laws are their
    documented behaviour: decryption undoes encryption under the same key and
    nonce, and both work on bytes. *)
Class Aead := {
  aes_encrypt : list Z → list Z → list Z → option (list Z);
  aes_decrypt : list Z → list Z → list Z → option (list Z);
  hmac_sha256 : list Z → list Z → list Z;
  aes_decrypt_encrypt : ∀ key nonce text sealed,
    aes_encrypt key nonce text = Some sealed → aes_decrypt key nonce sealed = Some text;
  aes_encrypt_bytes : ∀ key nonce text sealed,
    aes_encrypt key nonce text = Some sealed → Forall is_byte text → Forall is_byte sealed;
}.

Record Vault := { encryption_key : list Z; session_secret : list Z }.

Inductive VaultError :=
| EncryptionFailed | InvalidEncryptedValue | InvalidEncryptedNonce | InvalidNonceLength
| InvalidCiphertext | AuthenticationFailed | NotUtf8.

Definition in_range (lo hi b : Z) : bool := (lo <=? b) && (b <=? hi).

(** [String::from_utf8]: the well-formed sequences of the Unicode standard. *)
Fixpoint utf8_valid (l : list Z) : bool :=
  match l with
  | [] => true
  | b0 :: l0 =>
      if b0 <? 128 then utf8_valid l0
      else match l0 with
      | [] => false
      | b1 :: l1 =>
          if in_range 194 223 b0 then is_continuation b1 && utf8_valid l1
          else match l1 with
          | [] => false
          | b2 :: l2 =>
              if (b0 =? 224) && in_range 160 191 b1
                 || in_range 225 236 b0 && is_continuation b1
                 || (b0 =? 237) && in_range 128 159 b1
                 || in_range 238 239 b0 && is_continuation b1
              then is_continuation b2 && utf8_valid l2
              else match l2 with
              | [] => false
              | b3 :: l3 =>
                  ((b0 =? 240) && in_range 144 191 b1
                   || in_range 241 243 b0 && is_continuation b1
                   || (b0 =? 244) && in_range 128 143 b1)
                  && is_continuation b2 && is_continuation b3 && utf8_valid l3
              end
          end
      end
  end.

(** [split_once('.')]. *)
Fixpoint split_dot (s : string) : option (string * string) :=
  match s with
  | String.EmptyString => None
  | String.String c s =>
      if byte_of c =? 46 then Some ("", s)
      else '(a, b) ← split_dot s; Some (String.String c a, b)
  end.

Definition text_of (bs : list Z) : string := String.string_of_list_ascii (char_of <$> bs).

Section vault.
Context `{Aead, Codec}.

(** [seal], with the nonce that was drawn. *)
Definition seal (v : Vault) (nonce : list Z) (plaintext : string) : Result string VaultError :=
  let? ciphertext := ok_or EncryptionFailed
                       (aes_encrypt (encryption_key v) nonce (bytes plaintext)) in
  Ok (b64_encode nonce +:+ "." +:+ b64_encode ciphertext).

Definition open (v : Vault) (envelope : string) : Result string VaultError :=
  let? parts := ok_or InvalidEncryptedValue (split_dot envelope) in
  let? nonce := ok_or InvalidEncryptedNonce (b64_decode parts.1) in
  if negb (Z.of_nat (length nonce) =? 12) then Err InvalidNonceLength else
  let? ciphertext := ok_or InvalidCiphertext (b64_decode parts.2) in
  let? plaintext := ok_or AuthenticationFailed
                      (aes_decrypt (encryption_key v) nonce ciphertext) in
  if utf8_valid plaintext then Ok (text_of plaintext) else Err NotUtf8.

Definition sign (v : Vault) (value : string) : string :=
  b64_encode (hmac_sha256 (session_secret v) (bytes value)).

Definition verify (v : Vault) (value signature : string) : bool :=
  bool_decide (bytes (sign v value) = bytes signature).

Definition hash_token (value : string) : string := b64_encode (sha256 (bytes value)).

(** ** Round trip *)
Lemma bytes_range s : Forall is_byte (bytes s).
Proof. unfold bytes. apply Forall_fmap, Forall_forall. intros c _. apply byte_of_range. Qed.

Lemma text_of_bytes s : text_of (bytes s) = s.
Proof.
  unfold text_of, bytes, char_of, byte_of. rewrite <-list_fmap_compose.
  rewrite (list_fmap_ext _ id).
  - rewrite list_fmap_id. apply String.string_of_list_ascii_of_string.
  - intros i c _. simpl. rewrite N2Z.id. apply Ascii.ascii_N_embedding.
Qed.

Lemma split_dot_append s t :
  (∀ c, c ∈ String.list_ascii_of_string s → byte_of c ≠ 46) →
  split_dot (s +:+ "." +:+ t) = Some (s, t).
Proof.
  induction s as [|c s IH]; intros Hs; simpl; [done|].
  destruct (Z.eqb_spec (byte_of c) 46) as [E|E].
  { exfalso. eapply Hs; [|exact E]. simpl. constructor. }
  change (s +:+ "." +:+ t)%string with (s +:+ ("." +:+ t)) in *.
  rewrite IH; [done|]. intros x Hx. apply Hs. simpl. by constructor.
Qed.

Lemma b64_no_dot bs c :
  Forall is_byte bs → c ∈ String.list_ascii_of_string (b64_encode bs) → byte_of c ≠ 46.
Proof.
  intros Hb%to_digits_range. unfold b64_encode. rewrite String.list_ascii_of_string_of_list_ascii.
  intros (d & -> & Hd)%list_elem_of_fmap. rewrite Forall_forall in Hb. by apply alphabet_no_dot, Hb.
Qed.

Lemma bytes_inj s t : bytes s = bytes t → s = t.
Proof. intros E. rewrite <-(text_of_bytes s), <-(text_of_bytes t). by rewrite E. Qed.

Lemma open_seal v nonce text sealed :
  Forall is_byte nonce → length nonce = 12%nat → utf8_valid (bytes text) = true →
  seal v nonce text = Ok sealed → open v sealed = Ok text.
Proof.
  intros Hn Hl Hu E. unfold seal in E. apply bind_Ok in E as (ct & Hc%ok_or_Ok & [= <-]).
  unfold open. rewrite split_dot_append by (intros c; by apply b64_no_dot). simpl.
  rewrite b64_decode_encode by done. simpl. rewrite Hl. simpl.
  rewrite b64_decode_encode by (eapply aes_encrypt_bytes; [exact Hc|apply bytes_range]). simpl.
  erewrite aes_decrypt_encrypt by exact Hc. simpl. by rewrite Hu, text_of_bytes.
Qed.

(** What the vault seals under a 12-byte nonce it opens again, to the
    same text; and it accepts a signature exactly when it is the one it
    would make for that value. *)
Theorem vault_roundtrip (v : Vault) (nonce : list Z) (text sealed : string) :
  Forall is_byte nonce → length nonce = 12%nat → utf8_valid (bytes text) = true →
  seal v nonce text = Ok sealed →
  open v sealed = Ok text
  ∧ ∀ value signature, verify v value signature = true ↔ signature = sign v value.
Proof.
  intros Hn Hl Hu E. split; [by eapply open_seal|].
  intros value signature. unfold verify. rewrite bool_decide_eq_true. split; [|by intros ->].
  intros Es. symmetry. by apply bytes_inj.
Qed.
End vault.

(** A concrete [Aead], for the examples: the text is its own ciphertext. *)
Module PlainAead.
#[program] Definition aead : Aead :=
  {| aes_encrypt _ _ text := Some text; aes_decrypt _ _ sealed := Some sealed;
     hmac_sha256 _ value := value |}.
Next Obligation. by intros ? ? ? ? [= <-]. Qed.
Next Obligation. by intros ? ? ? ? [= <-]. Qed.

Definition vault : Vault := {| encryption_key := replicate 32 7; session_secret := [] |}.
End PlainAead.

Lemma vault_roundtrip_witness :
  open (H := PlainAead.aead) PlainAead.vault "AAAAAAAAAAAAAAAA.aml0" = Ok "jit".
Proof.
  apply (vault_roundtrip (H := PlainAead.aead) PlainAead.vault (replicate 12 0) "jit"
    "AAAAAAAAAAAAAAAA.aml0").
  - apply Forall_replicate. done.
  - reflexivity.
  - reflexivity.
  - reflexivity.
Defined.
