(* ===== verification/Store.v ===== *)
(** * The fleet database
    ([migrations/*.sql] as the Rust code reads and writes it, and
    [crates/gridops-core/src/fleet/store.rs]).

    A table is a list of rows.  [Policy] holds the tables the modelled
    operations only read; [Work] holds the tables they write.  A column whose
    text is JSON holds the value it decodes to, and [None] where the text does
    not decode.  A column with a [CHECK (... IN ...)] over states is the
    corresponding enum.  Identifiers are text, as in the database. *)
From S2P Require Import Prelude Base64 Ids Domain Protocol Outcomes Capabilities.
#[local] Open Scope string_scope.
#[local] Open Scope Z_scope.

(** ** Tables that are only read *)
Record UserRow := { u_id : string; u_role : string }.
Record UserInstallationRow := { ui_user_id : string; ui_installation_id : Z; ui_permission : string }.
Record InstallationRow := {
  ins_id : Z; ins_account_id : Z; ins_suspended_at : option Z; ins_account_type : string;
  ins_account_login : string }.
Record RepositoryRow := {
  repo_id : Z; repo_installation_id : Z; repo_owner : string; repo_name : string;
  repo_archived : bool }.
Record PoolRow := {
  pool_id : string; pool_installation_id : option Z; pool_repository_id : option Z;
  pool_scope : string; pool_paused : bool; pool_state : string; pool_max_count : Z;
  pool_autoscaling_enabled : bool; pool_providers : list string; pool_labels : list string;
  pool_created_at : Z; pool_provider : string; pool_image : string; pool_docker_image : string;
  pool_desired_count : Z; pool_min_count : Z; pool_queue_scale_factor : Z;
  pool_idle_timeout_minutes : Z; pool_name : string; pool_mode : string; pool_ephemeral : bool;
  pool_macos_runtime : string; pool_tart_image : string; pool_runner_group_id : Z;
  pool_configuration_version : Z; pool_provision_failure_count : Z;
  pool_provision_retry_at : option Z; pool_provision_circuit_open : bool }.
#[export] Instance PoolRow_fields : Fields PoolRow := λ q,
  {| pool_id := pool_id q; pool_installation_id := pool_installation_id q;
    pool_repository_id := pool_repository_id q; pool_scope := pool_scope q;
    pool_paused := pool_paused q; pool_state := pool_state q;
    pool_max_count := pool_max_count q;
    pool_autoscaling_enabled := pool_autoscaling_enabled q;
    pool_providers := pool_providers q; pool_labels := pool_labels q;
    pool_created_at := pool_created_at q; pool_provider := pool_provider q;
    pool_image := pool_image q; pool_docker_image := pool_docker_image q;
    pool_desired_count := pool_desired_count q; pool_min_count := pool_min_count q;
    pool_queue_scale_factor := pool_queue_scale_factor q;
    pool_idle_timeout_minutes := pool_idle_timeout_minutes q; pool_name := pool_name q;
    pool_mode := pool_mode q; pool_ephemeral := pool_ephemeral q;
    pool_macos_runtime := pool_macos_runtime q; pool_tart_image := pool_tart_image q;
    pool_runner_group_id := pool_runner_group_id q;
    pool_configuration_version := pool_configuration_version q;
    pool_provision_failure_count := pool_provision_failure_count q;
    pool_provision_retry_at := pool_provision_retry_at q;
    pool_provision_circuit_open := pool_provision_circuit_open q |}.
Record PoolInstallationRow := { rpi_pool_id : string; rpi_installation_id : Z }.
Record PoolRepositoryRow := { rpr_pool_id : string; rpr_repository_id : Z; rpr_created_at : Z }.
Record PoolConnectionRow := {
  rpc_pool_id : string; rpc_connection_id : string; rpc_created_at : Z }.
Record PoolPriorityRepositoryRow := { rpp_pool_id : string; rpp_repository_id : Z }.
Record PoolPriorityRow := { rpw_pool_id : string; rpw_wait_minutes : Z }.
Record ConnectionRow := {
  bc_id : string; bc_workspace_uuid : string; bc_workspace : string; bc_access_token_key : string }.
Record ConnectionGrantRow := {
  bug_user_id : string; bug_connection_id : string; bug_permission : string;
  bug_revoked_at : option Z }.
Record SettingRow := { set_key : string; set_value : string }.
Record AgentRunRow := {
  run_id : string; run_repository_id : Z; run_status : string; run_cancel_requested : Z;
  run_requested_by : string }.
Record RunnerRow := {
  rn_id : string; rn_pool_id : string; rn_target_repository_id : option Z; rn_provider : string;
  rn_status : string; rn_busy : bool; rn_deleted_at : option Z; rn_ci_platform : string;
  rn_os : string; rn_updated_at : Z; rn_name : string; rn_architecture : string;
  rn_ephemeral : bool; rn_configuration_version : Z; rn_runtime : string; rn_created_at : Z;
  rn_failure_reason : option string; rn_github_runner_id : option Z;
  rn_container_id : option string; rn_container_name : option string;
  rn_registered_at : option Z; rn_last_heartbeat_at : option Z;
  rn_bitbucket_connection_id : option string; rn_bitbucket_runner_uuid : option string }.
#[export] Instance RunnerRow_fields : Fields RunnerRow := λ x,
  {| rn_id := rn_id x; rn_pool_id := rn_pool_id x;
    rn_target_repository_id := rn_target_repository_id x; rn_provider := rn_provider x;
    rn_status := rn_status x; rn_busy := rn_busy x; rn_deleted_at := rn_deleted_at x;
    rn_ci_platform := rn_ci_platform x; rn_os := rn_os x;
    rn_updated_at := rn_updated_at x; rn_name := rn_name x;
    rn_architecture := rn_architecture x; rn_ephemeral := rn_ephemeral x;
    rn_configuration_version := rn_configuration_version x; rn_runtime := rn_runtime x;
    rn_created_at := rn_created_at x; rn_failure_reason := rn_failure_reason x;
    rn_github_runner_id := rn_github_runner_id x; rn_container_id := rn_container_id x;
    rn_container_name := rn_container_name x; rn_registered_at := rn_registered_at x;
    rn_last_heartbeat_at := rn_last_heartbeat_at x;
    rn_bitbucket_connection_id := rn_bitbucket_connection_id x;
    rn_bitbucket_runner_uuid := rn_bitbucket_runner_uuid x |}.
Record WorkflowRunRow := { wr_id : Z; wr_repository_id : Z; wr_status : string }.
Record WorkflowJobRow := {
  wj_id : Z; wj_run_id : Z; wj_status : string; wj_labels : list string;
  wj_created_at : Z }.
Record ControlPlaneRow := {
  cp_incarnation : string; cp_readiness : string; cp_protocol_min : Z; cp_protocol_max : Z }.
Record HostRow := {
  h_id : string; h_enrollment_state : EnrollmentState; h_lifecycle_state : HostIntent;
  h_integrity_state : IntegrityState; h_pressure_state : PressureState; h_epoch : Z;
  h_boot_id : option string; h_agent_session_id : option string;
  h_authority_incarnation : option string; h_authority_expires_at : option Z;
  h_last_heartbeat_at : option Z; h_last_inventory_at : option Z; h_inventory_complete : bool;
  h_inventory_epoch : option Z; h_inventory_session_id : option string;
  h_inventory_boot_id : option string; h_tags : option (list (string * option string));
  h_name : string; h_host_os : ExecutionOs; h_architecture : Architecture; h_revision : Z;
  h_agent_version : option string; h_hardware_fingerprint : option string;
  h_inventory_revision : Z; h_inventory_digest : option string;
  h_current_credential_generation : option Z; h_current_enrollment_id : option string;
  h_current_enrollment_epoch : option Z; h_retired_at : option Z }.
#[export] Instance HostRow_fields : Fields HostRow := λ h,
  {| h_id := h_id h; h_enrollment_state := h_enrollment_state h;
    h_lifecycle_state := h_lifecycle_state h; h_integrity_state := h_integrity_state h;
    h_pressure_state := h_pressure_state h; h_epoch := h_epoch h;
    h_boot_id := h_boot_id h; h_agent_session_id := h_agent_session_id h;
    h_authority_incarnation := h_authority_incarnation h;
    h_authority_expires_at := h_authority_expires_at h;
    h_last_heartbeat_at := h_last_heartbeat_at h;
    h_last_inventory_at := h_last_inventory_at h;
    h_inventory_complete := h_inventory_complete h;
    h_inventory_epoch := h_inventory_epoch h;
    h_inventory_session_id := h_inventory_session_id h;
    h_inventory_boot_id := h_inventory_boot_id h; h_tags := h_tags h; h_name := h_name h;
    h_host_os := h_host_os h; h_architecture := h_architecture h;
    h_revision := h_revision h; h_agent_version := h_agent_version h;
    h_hardware_fingerprint := h_hardware_fingerprint h;
    h_inventory_revision := h_inventory_revision h;
    h_inventory_digest := h_inventory_digest h;
    h_current_credential_generation := h_current_credential_generation h;
    h_current_enrollment_id := h_current_enrollment_id h;
    h_current_enrollment_epoch := h_current_enrollment_epoch h;
    h_retired_at := h_retired_at h |}.
Record DomainRow := {
  d_id : string; d_host_id : string; d_parent_domain_id : option string;
  d_cpu_millis : Z; d_memory_mib : Z; d_disk_bytes : Z; d_revision : Z; d_name : string }.
#[export] Instance DomainRow_fields : Fields DomainRow := λ d,
  {| d_id := d_id d; d_host_id := d_host_id d; d_parent_domain_id := d_parent_domain_id d;
    d_cpu_millis := d_cpu_millis d; d_memory_mib := d_memory_mib d;
    d_disk_bytes := d_disk_bytes d; d_revision := d_revision d; d_name := d_name d |}.
Record BackendRow := {
  b_id : string; b_host_id : string; b_domain_id : string; b_runtime_kind : string;
  b_execution_os : string; b_architecture : string; b_readiness : BackendReadiness;
  b_enabled : bool; b_capabilities : option CapabilityReport; b_last_probed_at : option Z;
  b_probe_epoch : option Z; b_probe_session_id : option string; b_probe_boot_id : option string;
  b_probe_incarnation : option string; b_reason_code : option string }.
#[export] Instance BackendRow_fields : Fields BackendRow := λ b,
  {| b_id := b_id b; b_host_id := b_host_id b; b_domain_id := b_domain_id b;
    b_runtime_kind := b_runtime_kind b; b_execution_os := b_execution_os b;
    b_architecture := b_architecture b; b_readiness := b_readiness b;
    b_enabled := b_enabled b; b_capabilities := b_capabilities b;
    b_last_probed_at := b_last_probed_at b; b_probe_epoch := b_probe_epoch b;
    b_probe_session_id := b_probe_session_id b; b_probe_boot_id := b_probe_boot_id b;
    b_probe_incarnation := b_probe_incarnation b; b_reason_code := b_reason_code b |}.
Record TargetRow := {
  t_id : string; t_kind : string; t_installation_id : option Z; t_repository_id : option Z;
  t_organization_id : option Z; t_bitbucket_connection_id : option string;
  t_workspace_uuid : option string; t_repository_uuid : option string; t_canonical_key : string }.
Record HostTargetGrantRow := {
  g_host_id : string; g_target_id : string; g_allow_schedule : bool; g_allow_native : bool;
  g_allow_interactive : bool; g_allow_docker_socket : bool; g_revoked_at : option Z;
  g_revision : Z; g_granted_by : option string }.
#[export] Instance HostTargetGrantRow_fields : Fields HostTargetGrantRow := λ g,
  {| g_host_id := g_host_id g; g_target_id := g_target_id g;
    g_allow_schedule := g_allow_schedule g; g_allow_native := g_allow_native g;
    g_allow_interactive := g_allow_interactive g;
    g_allow_docker_socket := g_allow_docker_socket g; g_revoked_at := g_revoked_at g;
    g_revision := g_revision g; g_granted_by := g_granted_by g |}.
Record HostUserGrantRow := {
  hug_host_id : string; hug_user_id : string; hug_permission : string; hug_revoked_at : option Z }.
Record SessionRow := {
  s_id : string; s_host_id : string; s_helper_state : string; s_authorized : bool;
  s_max_jobs : Z; s_last_seen_at : option Z; s_session_key : string; s_os_user_id : string }.
#[export] Instance SessionRow_fields : Fields SessionRow := λ s,
  {| s_id := s_id s; s_host_id := s_host_id s; s_helper_state := s_helper_state s;
    s_authorized := s_authorized s; s_max_jobs := s_max_jobs s;
    s_last_seen_at := s_last_seen_at s; s_session_key := s_session_key s;
    s_os_user_id := s_os_user_id s |}.
Record SessionGrantRow := { st_session_id : string; st_target_id : string; st_revoked_at : option Z }.

Record CredentialRow := {
  cred_id : string; cred_host_id : string; cred_generation : Z; cred_host_epoch : Z;
  cred_revoked_at : option Z; cred_overlap_expires_at : option Z; cred_verifier : string;
  cred_created_at : Z; cred_acknowledged_at : option Z }.
#[export] Instance CredentialRow_fields : Fields CredentialRow := λ c,
  {| cred_id := cred_id c; cred_host_id := cred_host_id c;
    cred_generation := cred_generation c; cred_host_epoch := cred_host_epoch c;
    cred_revoked_at := cred_revoked_at c;
    cred_overlap_expires_at := cred_overlap_expires_at c;
    cred_verifier := cred_verifier c; cred_created_at := cred_created_at c;
    cred_acknowledged_at := cred_acknowledged_at c |}.

(** [OperatorConfiguration] of [admission.rs]. *)
Record OperatorConfiguration := { oc_network : option string }.

Record ProfileRow := {
  p_id : string; p_pool_id : string; p_revision : Z; p_enabled : bool; p_runtime_kind : string;
  p_execution_os : string; p_architecture : string; p_mode : string; p_requires_interactive : bool;
  p_requires_docker_socket : bool; p_all_authorized_hosts : bool; p_image : string;
  p_labels : option (list string); p_config : option OperatorConfiguration; p_cpu_millis : Z;
  p_memory_mib : Z; p_disk_bytes : Z; p_placement : string; p_archived_at : option Z;
  p_name : string; p_created_at : Z }.
#[export] Instance ProfileRow_fields : Fields ProfileRow := λ x,
  {| p_id := p_id x; p_pool_id := p_pool_id x; p_revision := p_revision x;
    p_enabled := p_enabled x; p_runtime_kind := p_runtime_kind x;
    p_execution_os := p_execution_os x; p_architecture := p_architecture x;
    p_mode := p_mode x; p_requires_interactive := p_requires_interactive x;
    p_requires_docker_socket := p_requires_docker_socket x;
    p_all_authorized_hosts := p_all_authorized_hosts x; p_image := p_image x;
    p_labels := p_labels x; p_config := p_config x; p_cpu_millis := p_cpu_millis x;
    p_memory_mib := p_memory_mib x; p_disk_bytes := p_disk_bytes x;
    p_placement := p_placement x; p_archived_at := p_archived_at x; p_name := p_name x;
    p_created_at := p_created_at x |}.
Record ProfileTargetRow := {
  pct_profile_id : string; pct_target_id : string; pct_enabled : bool; pct_revoked_at : option Z }.
#[export] Instance ProfileTargetRow_fields : Fields ProfileTargetRow := λ x,
  {| pct_profile_id := pct_profile_id x; pct_target_id := pct_target_id x;
    pct_enabled := pct_enabled x; pct_revoked_at := pct_revoked_at x |}.

(** [profile_host_selectors]: the [CHECK] splits it into two shapes. *)
Inductive Selector := SelectHost (host_id : string) | SelectTag (key value : string).
Record SelectorRow := { sel_profile_id : string; sel_selector : Selector }.

#[export] Instance Selector_eq_dec : EqDecision Selector.
Proof. solve_decision. Defined.
#[export] Instance SelectorRow_eq_dec : EqDecision SelectorRow.
Proof. solve_decision. Defined.

Record Policy := {
  users : list UserRow;
  user_installations : list UserInstallationRow;
  installations : list InstallationRow;
  repositories : list RepositoryRow;
  runner_pools : list PoolRow;
  runner_pool_installations : list PoolInstallationRow;
  runner_pool_repositories : list PoolRepositoryRow;
  runner_pool_bitbucket_connections : list PoolConnectionRow;
  runner_pool_priority_repositories : list PoolPriorityRepositoryRow;
  runner_pool_priorities : list PoolPriorityRow;
  bitbucket_connections : list ConnectionRow;
  bitbucket_user_grants : list ConnectionGrantRow;
  settings : list SettingRow;
  agent_runs : list AgentRunRow;
  runners : list RunnerRow;
  workflow_runs : list WorkflowRunRow;
  workflow_jobs : list WorkflowJobRow;
  fleet_control_plane : option ControlPlaneRow;
  fleet_hosts : list HostRow;
  host_credentials : list CredentialRow;
  host_resource_domains : list DomainRow;
  host_backends : list BackendRow;
  fleet_ci_targets : list TargetRow;
  host_target_grants : list HostTargetGrantRow;
  host_user_grants : list HostUserGrantRow;
  host_sessions : list SessionRow;
  host_session_target_grants : list SessionGrantRow;
  pool_execution_profiles : list ProfileRow;
  profile_ci_targets : list ProfileTargetRow;
  profile_host_selectors : list SelectorRow;
}.
#[export] Instance Policy_fields : Fields Policy := λ p,
  {| users := users p; user_installations := user_installations p;
    installations := installations p; repositories := repositories p;
    runner_pools := runner_pools p;
    runner_pool_installations := runner_pool_installations p;
    runner_pool_repositories := runner_pool_repositories p;
    runner_pool_bitbucket_connections := runner_pool_bitbucket_connections p;
    runner_pool_priority_repositories := runner_pool_priority_repositories p;
    runner_pool_priorities := runner_pool_priorities p;
    bitbucket_connections := bitbucket_connections p;
    bitbucket_user_grants := bitbucket_user_grants p; settings := settings p;
    agent_runs := agent_runs p; runners := runners p; workflow_runs := workflow_runs p;
    workflow_jobs := workflow_jobs p; fleet_control_plane := fleet_control_plane p;
    fleet_hosts := fleet_hosts p; host_credentials := host_credentials p;
    host_resource_domains := host_resource_domains p; host_backends := host_backends p;
    fleet_ci_targets := fleet_ci_targets p; host_target_grants := host_target_grants p;
    host_user_grants := host_user_grants p; host_sessions := host_sessions p;
    host_session_target_grants := host_session_target_grants p;
    pool_execution_profiles := pool_execution_profiles p;
    profile_ci_targets := profile_ci_targets p;
    profile_host_selectors := profile_host_selectors p |}.

(** ** Tables that are written *)
Inductive OperationState := OpQueued | OpRunning | OpSucceeded | OpFailed | OpCancelled | OpBlocked.
Inductive IntentState := IntentQueued | IntentAdmitted | IntentCancelled | IntentRejected.
Inductive CommandState :=
| CsPending | CsDelivered | CsAccepted | CsRunning | CsSucceeded | CsFailed | CsUncertain | CsCancelled.
Inductive Disposition := Applied | StaleResult.

#[export] Instance OperationState_eq_dec : EqDecision OperationState.
Proof. solve_decision. Defined.
#[export] Instance IntentState_eq_dec : EqDecision IntentState.
Proof. solve_decision. Defined.
#[export] Instance CommandState_eq_dec : EqDecision CommandState.
Proof. solve_decision. Defined.
#[export] Instance Disposition_eq_dec : EqDecision Disposition.
Proof. solve_decision. Defined.
#[export] Instance IntegrityState_eq_dec : EqDecision IntegrityState.
Proof. solve_decision. Defined.
#[export] Instance PressureState_eq_dec : EqDecision PressureState.
Proof. solve_decision. Defined.

Record OperationRow := {
  o_id : string; o_requested_by_user_id : option string; o_principal_kind : string;
  o_principal_scope : string; o_idempotency_key : string; o_request_hash : string;
  o_status : OperationState; o_reason_code : option string; o_created_at : Z; o_updated_at : Z }.

Record IntentRow := {
  i_id : string; i_workload_id : string; i_generation : Z; i_kind : string; i_pool_id : string;
  i_profile_id : string; i_target_id : string; i_agent_run_id : option string;
  i_expected_profile_revision : Z; i_status : IntentState; i_reason_code : option string;
  i_created_at : Z; i_updated_at : Z }.

Record PlacementRow := {
  pl_id : string; pl_intent_id : string; pl_workload_id : string; pl_generation : Z;
  pl_host_id : string; pl_backend_id : string; pl_host_epoch : Z; pl_session_id : option string;
  pl_profile_revision : Z; pl_target_id : string; pl_cpu_millis : Z; pl_memory_mib : Z;
  pl_disk_bytes : Z; pl_state : PlacementState; pl_runner_id : option string;
  pl_agent_run_id : option string; pl_created_at : Z; pl_updated_at : Z;
  pl_local_absence_proven_at : option Z; pl_delayed_starts_excluded_at : option Z }.

Record AllocationRow := {
  a_id : string; a_placement_id : string; a_host_id : string; a_backend_id : string;
  a_host_epoch : Z; a_domain_id : string; a_policy_revision : Z; a_cpu_millis : Z;
  a_memory_mib : Z; a_disk_bytes : Z; a_state : AllocationState; a_created_at : Z;
  a_updated_at : Z; a_released_at : option Z }.

Record CommandRow := {
  c_cursor : Z; c_id : string; c_operation_id : string; c_placement_id : option string;
  c_host_id : string; c_backend_id : option string; c_host_epoch : Z; c_generation : option Z;
  c_kind : string; c_state : CommandState; c_request_hash : string;
  c_payload : AgentCommandEnvelope; c_expected_revision : Z; c_issued_at : Z; c_deadline_at : Z;
  c_attempt_count : Z; c_idempotency_key : string }.

Record AttemptRow := {
  at_command_id : string; at_attempt : Z; at_state : CommandState; at_recorded_at : Z }.

Record ResultRow := {
  r_id : string; r_command_id : string; r_result_hash : string; r_disposition : Disposition;
  r_result : AgentCommandResult; r_received_at : Z }.

Record BootstrapRow := {
  bm_reference : string; bm_placement_id : string; bm_host_id : string; bm_sealed : option string;
  bm_created_at : Z; bm_expires_at : Z; bm_claimed_at : option Z; bm_erased_at : option Z }.

(** [fleet_events] and the audit log, append only. *)
Record EventRow := { e_subject : string; e_kind : string; e_created_at : Z }.

Record Work := {
  fleet_operations : list OperationRow;
  workload_intents : list IntentRow;
  workload_placements : list PlacementRow;
  capacity_allocations : list AllocationRow;
  host_commands : list CommandRow;
  host_command_attempts : list AttemptRow;
  host_command_results : list ResultRow;
  fleet_bootstrap_material : list BootstrapRow;
  fleet_events : list EventRow;
}.

Definition set_operations (w : Work) (x : list OperationRow) : Work :=
  {| fleet_operations := x; workload_intents := workload_intents w;
     workload_placements := workload_placements w; capacity_allocations := capacity_allocations w;
     host_commands := host_commands w; host_command_attempts := host_command_attempts w;
     host_command_results := host_command_results w;
     fleet_bootstrap_material := fleet_bootstrap_material w; fleet_events := fleet_events w |}.
Definition set_intents (w : Work) (x : list IntentRow) : Work :=
  {| fleet_operations := fleet_operations w; workload_intents := x;
     workload_placements := workload_placements w; capacity_allocations := capacity_allocations w;
     host_commands := host_commands w; host_command_attempts := host_command_attempts w;
     host_command_results := host_command_results w;
     fleet_bootstrap_material := fleet_bootstrap_material w; fleet_events := fleet_events w |}.
Definition set_placements (w : Work) (x : list PlacementRow) : Work :=
  {| fleet_operations := fleet_operations w; workload_intents := workload_intents w;
     workload_placements := x; capacity_allocations := capacity_allocations w;
     host_commands := host_commands w; host_command_attempts := host_command_attempts w;
     host_command_results := host_command_results w;
     fleet_bootstrap_material := fleet_bootstrap_material w; fleet_events := fleet_events w |}.
Definition set_allocations (w : Work) (x : list AllocationRow) : Work :=
  {| fleet_operations := fleet_operations w; workload_intents := workload_intents w;
     workload_placements := workload_placements w; capacity_allocations := x;
     host_commands := host_commands w; host_command_attempts := host_command_attempts w;
     host_command_results := host_command_results w;
     fleet_bootstrap_material := fleet_bootstrap_material w; fleet_events := fleet_events w |}.
Definition set_commands (w : Work) (x : list CommandRow) : Work :=
  {| fleet_operations := fleet_operations w; workload_intents := workload_intents w;
     workload_placements := workload_placements w; capacity_allocations := capacity_allocations w;
     host_commands := x; host_command_attempts := host_command_attempts w;
     host_command_results := host_command_results w;
     fleet_bootstrap_material := fleet_bootstrap_material w; fleet_events := fleet_events w |}.
Definition set_attempts (w : Work) (x : list AttemptRow) : Work :=
  {| fleet_operations := fleet_operations w; workload_intents := workload_intents w;
     workload_placements := workload_placements w; capacity_allocations := capacity_allocations w;
     host_commands := host_commands w; host_command_attempts := x;
     host_command_results := host_command_results w;
     fleet_bootstrap_material := fleet_bootstrap_material w; fleet_events := fleet_events w |}.
Definition set_results (w : Work) (x : list ResultRow) : Work :=
  {| fleet_operations := fleet_operations w; workload_intents := workload_intents w;
     workload_placements := workload_placements w; capacity_allocations := capacity_allocations w;
     host_commands := host_commands w; host_command_attempts := host_command_attempts w;
     host_command_results := x;
     fleet_bootstrap_material := fleet_bootstrap_material w; fleet_events := fleet_events w |}.
Definition set_bootstrap (w : Work) (x : list BootstrapRow) : Work :=
  {| fleet_operations := fleet_operations w; workload_intents := workload_intents w;
     workload_placements := workload_placements w; capacity_allocations := capacity_allocations w;
     host_commands := host_commands w; host_command_attempts := host_command_attempts w;
     host_command_results := host_command_results w;
     fleet_bootstrap_material := x; fleet_events := fleet_events w |}.
Definition add_event (w : Work) (subject kind : string) (now : Z) : Work :=
  {| fleet_operations := fleet_operations w; workload_intents := workload_intents w;
     workload_placements := workload_placements w; capacity_allocations := capacity_allocations w;
     host_commands := host_commands w; host_command_attempts := host_command_attempts w;
     host_command_results := host_command_results w;
     fleet_bootstrap_material := fleet_bootstrap_material w;
     fleet_events := fleet_events w
       ++ [{| e_subject := subject; e_kind := kind; e_created_at := now |}] |}.

(** ** Row updates *)
Definition coalesce (o : option Z) (z : Z) : option Z :=
  match o with Some x => Some x | None => Some z end.

(** [UPDATE workload_placements SET state=?,updated_at=?]. *)
Definition pl_set_state (s : PlacementState) (now : Z) (r : PlacementRow) : PlacementRow :=
  {| pl_id := pl_id r; pl_intent_id := pl_intent_id r; pl_workload_id := pl_workload_id r;
     pl_generation := pl_generation r; pl_host_id := pl_host_id r; pl_backend_id := pl_backend_id r;
     pl_host_epoch := pl_host_epoch r; pl_session_id := pl_session_id r;
     pl_profile_revision := pl_profile_revision r; pl_target_id := pl_target_id r;
     pl_cpu_millis := pl_cpu_millis r; pl_memory_mib := pl_memory_mib r;
     pl_disk_bytes := pl_disk_bytes r; pl_state := s; pl_runner_id := pl_runner_id r;
     pl_agent_run_id := pl_agent_run_id r; pl_created_at := pl_created_at r; pl_updated_at := now;
     pl_local_absence_proven_at := pl_local_absence_proven_at r;
     pl_delayed_starts_excluded_at := pl_delayed_starts_excluded_at r |}.

(** [SET local_absence_proven_at=COALESCE(local_absence_proven_at,?), ...]. *)
Definition pl_prove_absent (now : Z) (r : PlacementRow) : PlacementRow :=
  {| pl_id := pl_id r; pl_intent_id := pl_intent_id r; pl_workload_id := pl_workload_id r;
     pl_generation := pl_generation r; pl_host_id := pl_host_id r; pl_backend_id := pl_backend_id r;
     pl_host_epoch := pl_host_epoch r; pl_session_id := pl_session_id r;
     pl_profile_revision := pl_profile_revision r; pl_target_id := pl_target_id r;
     pl_cpu_millis := pl_cpu_millis r; pl_memory_mib := pl_memory_mib r;
     pl_disk_bytes := pl_disk_bytes r; pl_state := pl_state r; pl_runner_id := pl_runner_id r;
     pl_agent_run_id := pl_agent_run_id r; pl_created_at := pl_created_at r; pl_updated_at := now;
     pl_local_absence_proven_at := coalesce (pl_local_absence_proven_at r) now;
     pl_delayed_starts_excluded_at := coalesce (pl_delayed_starts_excluded_at r) now |}.

Definition pl_set_runner (runner_id : string) (r : PlacementRow) : PlacementRow :=
  {| pl_id := pl_id r; pl_intent_id := pl_intent_id r; pl_workload_id := pl_workload_id r;
     pl_generation := pl_generation r; pl_host_id := pl_host_id r; pl_backend_id := pl_backend_id r;
     pl_host_epoch := pl_host_epoch r; pl_session_id := pl_session_id r;
     pl_profile_revision := pl_profile_revision r; pl_target_id := pl_target_id r;
     pl_cpu_millis := pl_cpu_millis r; pl_memory_mib := pl_memory_mib r;
     pl_disk_bytes := pl_disk_bytes r; pl_state := pl_state r; pl_runner_id := Some runner_id;
     pl_agent_run_id := pl_agent_run_id r; pl_created_at := pl_created_at r;
     pl_updated_at := pl_updated_at r;
     pl_local_absence_proven_at := pl_local_absence_proven_at r;
     pl_delayed_starts_excluded_at := pl_delayed_starts_excluded_at r |}.

Definition bm_set (sealed : option string) (claimed erased : option Z) (r : BootstrapRow)
    : BootstrapRow :=
  {| bm_reference := bm_reference r; bm_placement_id := bm_placement_id r;
     bm_host_id := bm_host_id r; bm_sealed := sealed; bm_created_at := bm_created_at r;
     bm_expires_at := bm_expires_at r; bm_claimed_at := claimed; bm_erased_at := erased |}.

Definition a_set_state (s : AllocationState) (released_at : option Z) (now : Z) (r : AllocationRow)
    : AllocationRow :=
  {| a_id := a_id r; a_placement_id := a_placement_id r; a_host_id := a_host_id r;
     a_backend_id := a_backend_id r; a_host_epoch := a_host_epoch r; a_domain_id := a_domain_id r;
     a_policy_revision := a_policy_revision r; a_cpu_millis := a_cpu_millis r;
     a_memory_mib := a_memory_mib r; a_disk_bytes := a_disk_bytes r; a_state := s;
     a_created_at := a_created_at r; a_updated_at := now; a_released_at := released_at |}.

Definition c_set (s : CommandState) (attempt : Z) (r : CommandRow) : CommandRow :=
  {| c_cursor := c_cursor r; c_id := c_id r; c_operation_id := c_operation_id r;
     c_placement_id := c_placement_id r; c_host_id := c_host_id r; c_backend_id := c_backend_id r;
     c_host_epoch := c_host_epoch r; c_generation := c_generation r; c_kind := c_kind r;
     c_state := s; c_request_hash := c_request_hash r; c_payload := c_payload r;
     c_expected_revision := c_expected_revision r; c_issued_at := c_issued_at r;
     c_deadline_at := c_deadline_at r; c_attempt_count := attempt;
     c_idempotency_key := c_idempotency_key r |}.
Definition c_set_state (s : CommandState) (r : CommandRow) : CommandRow :=
  c_set s (c_attempt_count r) r.

Definition i_set (s : IntentState) (reason : option string) (now : Z) (r : IntentRow) : IntentRow :=
  {| i_id := i_id r; i_workload_id := i_workload_id r; i_generation := i_generation r;
     i_kind := i_kind r; i_pool_id := i_pool_id r; i_profile_id := i_profile_id r;
     i_target_id := i_target_id r; i_agent_run_id := i_agent_run_id r;
     i_expected_profile_revision := i_expected_profile_revision r; i_status := s;
     i_reason_code := reason; i_created_at := i_created_at r; i_updated_at := now |}.

Definition o_set (s : OperationState) (reason : option string) (now : Z) (r : OperationRow)
    : OperationRow :=
  {| o_id := o_id r; o_requested_by_user_id := o_requested_by_user_id r;
     o_principal_kind := o_principal_kind r; o_principal_scope := o_principal_scope r;
     o_idempotency_key := o_idempotency_key r; o_request_hash := o_request_hash r; o_status := s;
     o_reason_code := reason; o_created_at := o_created_at r; o_updated_at := now |}.

(** ** [store.rs] *)
Definition operation_by_key (w : Work) (principal_scope idempotency_key : string)
    : option OperationRow :=
  fetch (λ o, String.eqb (o_principal_scope o) principal_scope
              && String.eqb (o_idempotency_key o) idempotency_key) (fleet_operations w).

Definition operation_by_id (w : Work) (id : string) : option OperationRow :=
  fetch (λ o, String.eqb (o_id o) id) (fleet_operations w).

Definition intent_for_operation (w : Work) (operation_id : string) : option IntentRow :=
  fetch (λ i, String.eqb (i_id i) operation_id) (workload_intents w).

(** Boolean equality on nullable columns: SQL's [=] is never true of NULL. *)
Definition eq_sql {A} `{EqDecision A} (a b : option A) : bool :=
  match a, b with Some x, Some y => bool_decide (x = y) | _, _ => false end.

Lemma eq_sql_true {A} `{EqDecision A} (a b : option A) :
  eq_sql a b = true ↔ ∃ x, a = Some x ∧ b = Some x.
Proof.
  destruct a, b; simpl; rewrite ?bool_decide_eq_true; naive_solver.
Qed.

Definition is_null {A} (o : option A) : bool := match o with None => true | Some _ => false end.
Definition not_null {A} (o : option A) : bool := negb (is_null o).

(** SQL's [trim(x,'{}')] and the code's [trim_matches(['{','}'])]. *)
Definition is_brace (c : Ascii.ascii) : bool :=
  let n := Ascii.N_of_ascii c in (n =? 123)%N || (n =? 125)%N.
Fixpoint trim_front (l : list Ascii.ascii) : list Ascii.ascii :=
  match l with
  | [] => []
  | c :: l' => if is_brace c then trim_front l' else l
  end.
Definition trim_braces (s : string) : string :=
  String.string_of_list_ascii
    (rev (trim_front (rev (trim_front (String.list_ascii_of_string s))))).

(** ** A small fleet, for the concrete runs

    One pool with one Docker profile linked to a GitHub repository, one
    machine with a root and a child resource domain, and one user who
    administers both. *)
Module SampleFleet.
Definition id (n : Z) : string := Hyphenated.print n.

Definition target : TargetRow :=
  {| t_id := id 30; t_kind := "github_repository"; t_installation_id := Some 11;
     t_repository_id := Some 12; t_organization_id := None; t_bitbucket_connection_id := None;
     t_workspace_uuid := None; t_repository_uuid := None;
     t_canonical_key := "github:repository:11:12" |}.

(** With [interactive], the profile asks for a desktop session. *)
Definition profile (interactive : bool) : ProfileRow :=
  {| p_id := id 40; p_pool_id := "pool"; p_revision := 3; p_enabled := true;
     p_runtime_kind := "docker"; p_execution_os := "linux"; p_architecture := "x64";
     p_mode := "ephemeral"; p_requires_interactive := interactive; p_requires_docker_socket := false;
     p_all_authorized_hosts := true; p_image := "runner:latest"; p_labels := Some ["linux"];
     p_config := Some {| oc_network := None |}; p_cpu_millis := 2000; p_memory_mib := 2048;
     p_disk_bytes := 0; p_placement := "machines"; p_archived_at := None;
     p_name := "linux-x64-docker"; p_created_at := 0 |}.

Definition host : HostRow :=
  {| h_id := id 5; h_enrollment_state := EnrApproved; h_lifecycle_state := IntActive;
     h_integrity_state := Verified; h_pressure_state := PressureNormal; h_epoch := 1;
     h_boot_id := Some "boot"; h_agent_session_id := Some (id 7);
     h_authority_incarnation := Some (id 6); h_authority_expires_at := Some 90000;
     h_last_heartbeat_at := Some 1000; h_last_inventory_at := Some 1000;
     h_inventory_complete := true; h_inventory_epoch := Some 1;
     h_inventory_session_id := Some (id 7); h_inventory_boot_id := Some "boot";
     h_tags := Some []; h_name := "builder"; h_host_os := Linux; h_architecture := X64;
     h_revision := 4; h_agent_version := Some "0.1.3"; h_hardware_fingerprint := None;
     h_inventory_revision := 1; h_inventory_digest := None;
     h_current_credential_generation := Some 1; h_current_enrollment_id := None;
     h_current_enrollment_epoch := None; h_retired_at := None |}.

Definition root_domain : DomainRow :=
  {| d_id := id 20; d_host_id := id 5; d_parent_domain_id := None; d_cpu_millis := 4000;
     d_memory_mib := 8192; d_disk_bytes := 1000000; d_revision := 1;
     d_name := "physical-root" |}.
Definition child_domain : DomainRow :=
  {| d_id := id 21; d_host_id := id 5; d_parent_domain_id := Some (id 20); d_cpu_millis := 3000;
     d_memory_mib := 4096; d_disk_bytes := 1000000; d_revision := 2;
     d_name := "docker" |}.

Definition report (interactive : bool) : CapabilityReport :=
  let r := SampleBackend.report in
  {| rep_schema_version := rep_schema_version r; rep_runtime_kind := rep_runtime_kind r;
     rep_execution_os := rep_execution_os r; rep_architecture := rep_architecture r;
     rep_supported_runners := rep_supported_runners r; rep_environments := rep_environments r;
     rep_any_image := rep_any_image r; rep_resources := rep_resources r;
     rep_interactive := if interactive then RequiresAuthorizedHelper else InteractiveUnsupported;
     rep_docker_socket := rep_docker_socket r |}.

Definition session : SessionRow :=
  {| s_id := id 90; s_host_id := id 5; s_helper_state := "ready"; s_authorized := true;
     s_max_jobs := 1; s_last_seen_at := Some 1000; s_session_key := "desktop";
     s_os_user_id := "ci" |}.

Definition backend (interactive : bool) : BackendRow :=
  {| b_id := id 8; b_host_id := id 5; b_domain_id := id 21; b_runtime_kind := "docker";
     b_execution_os := "linux"; b_architecture := "x64"; b_readiness := BackendReady;
     b_enabled := true; b_capabilities := Some (report interactive); b_last_probed_at := Some 1000;
     b_probe_epoch := Some 1; b_probe_session_id := Some (id 7); b_probe_boot_id := Some "boot";
     b_probe_incarnation := Some (id 6); b_reason_code := None |}.

Definition pool : PoolRow :=
  {| pool_id := "pool"; pool_installation_id := Some 11; pool_repository_id := Some 12;
     pool_scope := "repository"; pool_paused := false; pool_state := "ready"; pool_max_count := 2;
     pool_autoscaling_enabled := true; pool_providers := ["docker"]; pool_labels := ["linux"];
     pool_created_at := 0; pool_provider := "docker"; pool_image := "runner:latest";
     pool_docker_image := ""; pool_desired_count := 1; pool_min_count := 0;
     pool_queue_scale_factor := 1; pool_idle_timeout_minutes := 10; pool_name := "pool"; pool_mode := "ephemeral";
     pool_ephemeral := true; pool_macos_runtime := "vm"; pool_tart_image := "";
     pool_runner_group_id := 1; pool_configuration_version := 1; pool_provision_failure_count := 0;
     pool_provision_retry_at := None; pool_provision_circuit_open := false |}.

Definition policy_with (interactive : bool) : Policy :=
  {| users := [{| u_id := "alice"; u_role := "admin" |}];
     user_installations := [{| ui_user_id := "alice"; ui_installation_id := 11;
                               ui_permission := "admin" |}];
     installations := [{| ins_id := 11; ins_account_id := 13; ins_suspended_at := None;
                           ins_account_type := "Organization"; ins_account_login := "acme" |}];
     repositories := [{| repo_id := 12; repo_installation_id := 11; repo_owner := "acme";
                         repo_name := "app"; repo_archived := false |}];
     runner_pools := [pool];
     runner_pool_installations := [{| rpi_pool_id := "pool"; rpi_installation_id := 11 |}];
     runner_pool_repositories := []; runner_pool_bitbucket_connections := [];
     runner_pool_priority_repositories := []; runner_pool_priorities := [];
     bitbucket_connections := []; bitbucket_user_grants := []; settings := []; agent_runs := [];
     runners := []; workflow_runs := []; workflow_jobs := [];
     fleet_control_plane := Some {| cp_incarnation := id 6; cp_readiness := "active";
                                  cp_protocol_min := 1; cp_protocol_max := 1 |};
     fleet_hosts := [host];
     host_credentials := [{| cred_id := id 91; cred_host_id := id 5; cred_generation := 1;
                             cred_host_epoch := 1; cred_revoked_at := None;
                             cred_overlap_expires_at := None;
                             cred_verifier := "AAAAAAAAAAAAAAAAAAAAAAAAAAAAAAAAAAAAAAAAAAA";
                             cred_created_at := 0; cred_acknowledged_at := None |}];
     host_resource_domains := [root_domain; child_domain];
     host_backends := [backend interactive]; fleet_ci_targets := [target];
     host_target_grants := [{| g_host_id := id 5; g_target_id := id 30; g_allow_schedule := true;
                               g_allow_native := false; g_allow_interactive := interactive;
                               g_allow_docker_socket := false; g_revoked_at := None;
                               g_revision := 1; g_granted_by := Some "alice" |}];
     host_user_grants := [{| hug_host_id := id 5; hug_user_id := "alice";
                             hug_permission := "admin"; hug_revoked_at := None |}];
     host_sessions := [session];
     host_session_target_grants := [{| st_session_id := id 90; st_target_id := id 30;
                                       st_revoked_at := None |}];
     pool_execution_profiles := [profile interactive];
     profile_ci_targets := [{| pct_profile_id := id 40; pct_target_id := id 30;
                               pct_enabled := true; pct_revoked_at := None |}];
     profile_host_selectors := [] |}.

Definition policy : Policy := policy_with false.

Definition empty : Work :=
  {| fleet_operations := []; workload_intents := []; workload_placements := [];
     capacity_allocations := []; host_commands := []; host_command_attempts := [];
     host_command_results := []; fleet_bootstrap_material := []; fleet_events := [] |}.
End SampleFleet.
