(* ===== verification/Service.v ===== *)
(** * Fleet application service: submission, cancellation and policy checks
    ([crates/gridops-core/src/fleet/service.rs], [Principal] of
    [authorization.rs]).

    Every [ensure_*] function is the source's query followed by its test.
    Functions that write take and return [Work]; an error leaves the caller
    with the old [Work], which is the transaction's rollback. *)
From S2P Require Import Prelude Base64 Ids Domain Protocol Outcomes Capabilities Store.
#[local] Open Scope string_scope.
#[local] Open Scope Z_scope.

Inductive Principal :=
| AuthenticatedUser (user_id : string) | PrincipalReconciler | PrincipalAutoscaler | PrincipalFixAgent.

Inductive FleetError :=
| Database
| InvalidIdentifier
| InvalidRequest (why : string)
| Forbidden
| NotFound
| IdempotencyConflict
| StaleProfileRevision
| Invariant (why : string)
| QueuedBecause (reason : string)
| Json.

Inductive WorkloadKind := CiRunner | FixSandbox.

Definition WorkloadKind_as_str (k : WorkloadKind) : string :=
  match k with CiRunner => "ci_runner" | FixSandbox => "fix_sandbox" end.

#[export] Instance WorkloadKind_eq_dec : EqDecision WorkloadKind.
Proof. solve_decision. Defined.

Record SubmitIntent := {
  si_idempotency_key : string;
  si_pool_id : string;
  si_profile_id : Uuid;
  si_target_id : Uuid;
  si_workload_id : Uuid;
  si_generation : Z;
  si_kind : WorkloadKind;
  si_agent_run_id : option string;
  si_expected_profile_revision : option Z;
}.

Inductive SubmissionState := SubQueued | SubReplay.

Record Submission := {
  sub_operation_id : Uuid;
  sub_workload_id : Uuid;
  sub_generation : Z;
  sub_state : SubmissionState;
}.

Record PrincipalIdentity := {
  pi_kind : string;
  pi_scope : string;
  pi_user_id : option string;
}.

Definition PrincipalIdentity_from_principal (principal : Principal)
    : Result PrincipalIdentity FleetError :=
  match principal with
  | AuthenticatedUser user_id =>
      if is_empty user_id then Err (InvalidRequest "user identity must not be empty")
      else Ok {| pi_kind := "user"; pi_scope := "user:" +:+ user_id; pi_user_id := Some user_id |}
  | PrincipalReconciler =>
      Ok {| pi_kind := "reconciler"; pi_scope := "controller:reconciler"; pi_user_id := None |}
  | PrincipalAutoscaler =>
      Ok {| pi_kind := "autoscaler"; pi_scope := "controller:autoscaler"; pi_user_id := None |}
  | PrincipalFixAgent =>
      Ok {| pi_kind := "fix_agent"; pi_scope := "controller:fix_agent"; pi_user_id := None |}
  end.

Definition validate_request (request : SubmitIntent) : Result unit FleetError :=
  let? _ := map_err (λ _, InvalidRequest "invalid idempotency key")
              (IdempotencyKey_parse (si_idempotency_key request)) in
  if is_empty (si_pool_id request) then Err (InvalidRequest "pool ID must not be empty")
  else if negb (si_generation request =? 1)
  then Err (InvalidRequest "only initial workload generation is supported")
  else if bool_decide (si_expected_profile_revision request = Some 0)
  then Err (InvalidRequest "profile revision must be positive")
  else match si_kind request, si_agent_run_id request with
       | CiRunner, None => Ok tt
       | CiRunner, Some _ => Err (InvalidRequest "CI runner intent cannot carry an agent run")
       | FixSandbox, Some value =>
           if is_empty value then Err (InvalidRequest "fix sandbox requires an agent run") else Ok tt
       | FixSandbox, None => Err (InvalidRequest "fix sandbox requires an agent run")
       end.

Definition parse_id `{UuidText} (value : string) : Result Uuid FleetError :=
  map_err (λ _, InvalidIdentifier) (fleet_uuid_from_str value).

Section policy.
Context `{UuidText} (p : Policy).

Definition profile_of (id pool : string) : option ProfileRow :=
  fetch (λ r, String.eqb (p_id r) id && String.eqb (p_pool_id r) pool)
    (pool_execution_profiles p).

Definition target_of (id : string) : option TargetRow :=
  fetch (λ t, String.eqb (t_id t) id) (fleet_ci_targets p).

Definition role_of (user : string) : option string :=
  u_role <$> fetch (λ u, String.eqb (u_id u) user) (users p).

Definition profile_linked (profile target : string) : bool :=
  count_rows (λ r, String.eqb (pct_profile_id r) profile && String.eqb (pct_target_id r) target
                   && pct_enabled r && is_null (pct_revoked_at r)) (profile_ci_targets p) =? 1.

Definition github_repository_in_pool (t : TargetRow) (pool : string) : bool :=
  exists_row (λ r, eq_sql (Some (repo_id r)) (t_repository_id t)
      && exists_row (λ ins, eq_sql (Some (ins_id ins)) (t_installation_id t)) (installations p)
      && eq_sql (Some (repo_installation_id r)) (t_installation_id t)
      && exists_row (λ q, String.eqb (pool_id q) pool
           && ((eq_sql (pool_repository_id q) (Some (repo_id r))
                && eq_sql (pool_installation_id q) (t_installation_id t))
               || exists_row (λ pr, String.eqb (rpr_pool_id pr) (pool_id q)
                                    && (rpr_repository_id pr =? repo_id r))
                    (runner_pool_repositories p))) (runner_pools p)) (repositories p).

Definition github_organization_in_pool (t : TargetRow) (pool : string) : bool :=
  exists_row (λ ins, eq_sql (Some (ins_id ins)) (t_installation_id t)
      && eq_sql (Some (ins_account_id ins)) (t_organization_id t)
      && exists_row (λ rpi, String.eqb (rpi_pool_id rpi) pool
           && eq_sql (Some (rpi_installation_id rpi)) (t_installation_id t))
           (runner_pool_installations p)) (installations p).

Definition bitbucket_in_pool (t : TargetRow) (pool : string) : bool :=
  exists_row (λ bc, eq_sql (Some (bc_id bc)) (t_bitbucket_connection_id t)
      && exists_row (λ rpc, String.eqb (rpc_pool_id rpc) pool
           && String.eqb (rpc_connection_id rpc) (bc_id bc)) (runner_pool_bitbucket_connections p)
      && eq_sql (Some (lower (trim_braces (bc_workspace_uuid bc))))
           (lower ∘ trim_braces <$> t_workspace_uuid t)) (bitbucket_connections p).

Definition ensure_target_identity_for_pool (pool target : string) : Result unit FleetError :=
  let? t := ok_or NotFound (target_of target) in
  let valid :=
    if String.eqb (t_kind t) "github_repository" then github_repository_in_pool t pool
    else if String.eqb (t_kind t) "github_organization" then github_organization_in_pool t pool
    else if String.eqb (t_kind t) "bitbucket_workspace" || String.eqb (t_kind t) "bitbucket_repository"
    then bitbucket_in_pool t pool
    else false in
  if valid then Ok tt else Err Forbidden.

Definition installation_denied (user role pool : string) (rpi : PoolInstallationRow) : bool :=
  String.eqb (rpi_pool_id rpi) pool
  && exists_row (λ ins, (ins_id ins =? rpi_installation_id rpi)
       && (not_null (ins_suspended_at ins)
           || negb (exists_row (λ ui, String.eqb (ui_user_id ui) user
                                      && (ui_installation_id ui =? rpi_installation_id rpi))
                      (user_installations p))
           || (negb (String.eqb role "admin")
               && exists_row (λ ui, String.eqb (ui_user_id ui) user
                    && (ui_installation_id ui =? rpi_installation_id rpi)
                    && negb (String.eqb (ui_permission ui) "admin")) (user_installations p))))
       (installations p).

Definition connection_missing (user role pool : string) (rpc : PoolConnectionRow) : bool :=
  String.eqb (rpc_pool_id rpc) pool
  && negb (exists_row (λ bug, String.eqb (bug_connection_id bug) (rpc_connection_id rpc)
       && String.eqb (bug_user_id bug) user && is_null (bug_revoked_at bug)
       && (String.eqb (bug_permission bug) "admin" || String.eqb role "admin"))
       (bitbucket_user_grants p)).

Definition ensure_pool_access (principal : Principal) (pool : string) : Result unit FleetError :=
  match principal with
  | AuthenticatedUser user =>
      let? role := ok_or Forbidden (role_of user) in
      if (count_rows (λ rpi, String.eqb (rpi_pool_id rpi) pool) (runner_pool_installations p) =? 0)
         || exists_row (installation_denied user role pool) (runner_pool_installations p)
      then Err Forbidden
      else if exists_row (connection_missing user role pool) (runner_pool_bitbucket_connections p)
      then Err Forbidden else Ok tt
  | _ => Ok tt
  end.

Definition user_of (principal : Principal) : option string :=
  match principal with AuthenticatedUser user => Some user | _ => None end.

Definition installation_suspended (installation : option Z) : bool :=
  exists_row (λ ins, eq_sql (Some (ins_id ins)) installation && not_null (ins_suspended_at ins))
    (installations p).

Definition ensure_target_access (principal : Principal) (target : string) : Result unit FleetError :=
  let? role := match user_of principal with
               | Some user => ok_or Forbidden (role_of user)
               | None => Ok ""
               end in
  let? t := ok_or NotFound (target_of target) in
  let? allowed :=
    if String.prefix "github_" (t_kind t) then
      if installation_suspended (t_installation_id t) then Err Forbidden
      else Ok match user_of principal with
           | Some user => exists_row (λ ui, String.eqb (ui_user_id ui) user
               && eq_sql (Some (ui_installation_id ui)) (t_installation_id t)
               && (String.eqb (ui_permission ui) "admin" || String.eqb role "admin"))
               (user_installations p)
           | None => true
           end
    else Ok match user_of principal with
         | Some user => exists_row (λ bug, String.eqb (bug_user_id bug) user
             && eq_sql (Some (bug_connection_id bug)) (t_bitbucket_connection_id t)
             && is_null (bug_revoked_at bug)
             && (String.eqb (bug_permission bug) "admin" || String.eqb role "admin"))
             (bitbucket_user_grants p)
         | None => true
         end in
  if allowed then Ok tt else Err Forbidden.

Definition run_active (run : AgentRunRow) : bool :=
  (String.eqb (run_status run) "queued" || String.eqb (run_status run) "running")
  && (run_cancel_requested run =? 0).

Definition intent_open (i : IntentRow) : bool :=
  bool_decide (i_status i = IntentQueued) || bool_decide (i_status i = IntentAdmitted).

(** [current] is the operation the policy is checked for and whether this is
    an admission; [None] is a new submission. *)
Definition ensure_fix_run_row_policy (w : Work) (target agent_run : string)
    (principal : Principal) (current : option (string * bool)) : Result unit FleetError :=
  let? run := ok_or Forbidden (fetch (λ r, String.eqb (run_id r) agent_run) (agent_runs p)) in
  let? t := ok_or Forbidden (target_of target) in
  if negb (eq_sql (Some (run_repository_id run)) (t_repository_id t)) then Err Forbidden
  else if match principal with
          | AuthenticatedUser user => negb (String.eqb (run_requested_by run) user)
          | _ => false
          end
  then Err Forbidden else
  let '(current_id, admission) := default ("", true) current in
  if admission then
    if negb (run_active run) then Err Forbidden
    else if exists_row (λ i, eq_sql (i_agent_run_id i) (Some agent_run) && intent_open i
                             && negb (String.eqb (i_id i) current_id)) (workload_intents w)
    then Err IdempotencyConflict
    else if not_null current && is_empty current_id
    then Err (Invariant "fix intent lacks operation identity") else Ok tt
  else Ok tt.

Definition ensure_fix_run_policy (w : Work) (i : IntentRow) (principal : Principal)
    (admission : bool) : Result unit FleetError :=
  let? t := ok_or NotFound (target_of (i_target_id i)) in
  let? r := ok_or NotFound (profile_of (i_profile_id i) (i_pool_id i)) in
  if negb (String.eqb (p_runtime_kind r) "docker") || negb (String.eqb (p_execution_os r) "linux")
     || negb (String.eqb (t_kind t) "github_repository")
  then Err Forbidden else
  let? run := ok_or Forbidden (i_agent_run_id i) in
  ensure_fix_run_row_policy w (i_target_id i) run principal (Some (i_id i, admission)).

Definition ensure_current_intent_policy (w : Work) (i : IntentRow) (admission : bool)
    (principal : Principal) : Result unit FleetError :=
  let? _ := ensure_target_identity_for_pool (i_pool_id i) (i_target_id i) in
  let? r := ok_or NotFound (profile_of (i_profile_id i) (i_pool_id i)) in
  if negb (p_enabled r) then Err Forbidden
  else if admission && negb (p_revision r =? i_expected_profile_revision i)
  then Err StaleProfileRevision
  else if negb (profile_linked (i_profile_id i) (i_target_id i)) then Err Forbidden
  else if String.eqb (i_kind i) (WorkloadKind_as_str FixSandbox)
  then ensure_fix_run_policy w i principal admission else Ok tt.

Definition ensure_operation_access (w : Work) (principal : Principal) (i : IntentRow)
    : Result unit FleetError :=
  let? _ := ensure_pool_access principal (i_pool_id i) in
  let? _ := ensure_target_access principal (i_target_id i) in
  let? _ := ensure_current_intent_policy w i false principal in
  match fetch (λ pl, String.eqb (pl_intent_id pl) (i_id i)) (workload_placements w) with
  | None => Ok tt
  | Some placement =>
      if negb (count_rows (λ g, String.eqb (g_host_id g) (pl_host_id placement)
           && String.eqb (g_target_id g) (i_target_id i) && g_allow_schedule g
           && is_null (g_revoked_at g)) (host_target_grants p) =? 1)
      then Err Forbidden else
      let? _ := ensure_target_identity_for_pool (i_pool_id i) (i_target_id i) in
      match principal with
      | AuthenticatedUser user =>
          if negb (count_rows (λ g, String.eqb (hug_host_id g) (pl_host_id placement)
               && String.eqb (hug_user_id g) user
               && (String.eqb (hug_permission g) "read" || String.eqb (hug_permission g) "operator"
                   || String.eqb (hug_permission g) "admin")
               && is_null (hug_revoked_at g)) (host_user_grants p) =? 1)
             && negb (bool_decide (role_of user = Some "admin"))
          then Err Forbidden else Ok tt
      | _ => Ok tt
      end
  end.

Definition is_controller (principal : Principal) : bool :=
  match principal with AuthenticatedUser _ => false | _ => true end.

Definition recheck_intent_authorization (w : Work) (controller : Principal) (i : IntentRow)
    : Result unit FleetError :=
  if negb (is_controller controller) then Err Forbidden else
  let? o := ok_or NotFound (operation_by_id w (i_id i)) in
  let? principal :=
    if String.eqb (o_principal_kind o) "user"
    then let? user := ok_or Forbidden (o_requested_by_user_id o) in Ok (AuthenticatedUser user)
    else if String.eqb (o_principal_kind o) "reconciler" then Ok PrincipalReconciler
    else if String.eqb (o_principal_kind o) "autoscaler" then Ok PrincipalAutoscaler
    else if String.eqb (o_principal_kind o) "fix_agent" then Ok PrincipalFixAgent
    else Err (Invariant "invalid operation principal") in
  let? _ := ensure_operation_access w principal i in
  ensure_current_intent_policy w i true principal.

Definition ensure_profile_and_target (request : SubmitIntent) : Result unit FleetError :=
  let? r := ok_or NotFound (profile_of (to_string (si_profile_id request)) (si_pool_id request)) in
  if negb (p_enabled r) then Err Forbidden
  else if match si_expected_profile_revision request with
          | Some expected => (expected >? i64_max) || negb (expected =? p_revision r)
          | None => false
          end
  then Err StaleProfileRevision
  else if negb (profile_linked (to_string (si_profile_id request)) (to_string (si_target_id request)))
  then Err Forbidden else Ok tt.

Definition ensure_workload_policy (w : Work) (principal : Principal) (request : SubmitIntent)
    : Result unit FleetError :=
  if negb (bool_decide (si_kind request = FixSandbox)) then Ok tt else
  let? r := ok_or NotFound (profile_of (to_string (si_profile_id request)) (si_pool_id request)) in
  if negb (String.eqb (p_runtime_kind r) "docker") || negb (String.eqb (p_execution_os r) "linux")
  then Err Forbidden else
  let? t := ok_or NotFound (target_of (to_string (si_target_id request))) in
  if negb (String.eqb (t_kind t) "github_repository") then Err Forbidden else
  let? run := ok_or Forbidden (si_agent_run_id request) in
  ensure_fix_run_row_policy w (to_string (si_target_id request)) run principal None.
End policy.

(** ** Submission and cancellation *)

(** [CanonicalRequest]: the fields the request hash covers. *)
Record CanonicalRequest := {
  cr_pool_id : string; cr_profile_id : string; cr_target_id : string; cr_workload_id : string;
  cr_generation : Z; cr_kind : string; cr_agent_run_id : option string;
  cr_expected_profile_revision : option Z }.

(** [serde_json::to_vec] of a [CanonicalRequest]. *)
Class RequestJson := { request_json : CanonicalRequest → option (list Z) }.

Definition hex_digit (d : Z) : Ascii.ascii :=
  Ascii.ascii_of_N (Z.to_N (if d <? 10 then 48 + d else 87 + d)).

(** [format!("{:x}", digest)]. *)
Fixpoint hex (bs : list Z) : string :=
  match bs with
  | [] => ""
  | b :: bs => String.String (hex_digit (b / 16)) (String.String (hex_digit (b mod 16)) (hex bs))
  end.

Definition intent_request_hash `{UuidText, Codec, RequestJson} (request : SubmitIntent)
    : Result string FleetError :=
  let canonical := {|
    cr_pool_id := si_pool_id request; cr_profile_id := to_string (si_profile_id request);
    cr_target_id := to_string (si_target_id request);
    cr_workload_id := to_string (si_workload_id request); cr_generation := si_generation request;
    cr_kind := WorkloadKind_as_str (si_kind request); cr_agent_run_id := si_agent_run_id request;
    cr_expected_profile_revision := si_expected_profile_revision request |} in
  let? bytes := ok_or Json (request_json canonical) in
  Ok (hex (sha256 bytes)).

(** [new_id], from the UUID that [Uuid::new_v4] drew. *)
Definition new_id (drawn : Uuid) : Result Uuid FleetError :=
  map_err (λ _, InvalidIdentifier) (fleet_uuid_try_new drawn).

Section service.
Context `{UuidText, Codec, RequestJson} (p : Policy).

Definition new_operation (identity : PrincipalIdentity) (request : SubmitIntent)
    (hash id : string) (now : Z) : OperationRow :=
  {| o_id := id; o_requested_by_user_id := pi_user_id identity;
     o_principal_kind := pi_kind identity; o_principal_scope := pi_scope identity;
     o_idempotency_key := si_idempotency_key request; o_request_hash := hash;
     o_status := OpQueued; o_reason_code := None; o_created_at := now; o_updated_at := now |}.

Definition new_intent (request : SubmitIntent) (id : string) (revision now : Z) : IntentRow :=
  {| i_id := id; i_workload_id := to_string (si_workload_id request);
     i_generation := si_generation request; i_kind := WorkloadKind_as_str (si_kind request);
     i_pool_id := si_pool_id request; i_profile_id := to_string (si_profile_id request);
     i_target_id := to_string (si_target_id request); i_agent_run_id := si_agent_run_id request;
     i_expected_profile_revision := revision; i_status := IntentQueued; i_reason_code := None;
     i_created_at := now; i_updated_at := now |}.

(** The branch of [submit_intent] whose idempotency key is taken. *)
Definition replay (w : Work) (principal : Principal) (request : SubmitIntent)
    (hash : string) (existing : OperationRow) : Result Submission FleetError :=
  if negb (String.eqb (o_request_hash existing) hash) then Err IdempotencyConflict else
  let? intent := ok_or NotFound (intent_for_operation w (o_id existing)) in
  let? _ := ensure_operation_access p w principal intent in
  let? operation_id := parse_id (o_id existing) in
  Ok {| sub_operation_id := operation_id; sub_workload_id := si_workload_id request;
        sub_generation := si_generation request; sub_state := SubReplay |}.

(** The two inserts, which fail on a primary key that is taken. *)
Definition insert_intent (w : Work) (identity : PrincipalIdentity) (request : SubmitIntent)
    (hash : string) (operation_id : Uuid) (now : Z) : Result (Work * Submission) FleetError :=
  let id := to_string operation_id in
  if exists_row (λ o, String.eqb (o_id o) id) (fleet_operations w) then Err Database else
  let w1 := set_operations w
              (fleet_operations w ++ [new_operation identity request hash id now]) in
  let? r := ok_or (Invariant "profile disappeared during intent insert")
              (profile_of p (to_string (si_profile_id request)) (si_pool_id request)) in
  if exists_row (λ i, String.eqb (i_id i) id) (workload_intents w) then Err Database else
  Ok (set_intents w1 (workload_intents w ++ [new_intent request id (p_revision r) now]),
      {| sub_operation_id := operation_id; sub_workload_id := si_workload_id request;
         sub_generation := si_generation request; sub_state := SubQueued |}).

Definition submit_intent (w : Work) (principal : Principal) (request : SubmitIntent)
    (drawn : Uuid) (now : Z) : Result (Work * Submission) FleetError :=
  let? _ := validate_request request in
  let? identity := PrincipalIdentity_from_principal principal in
  let? hash := intent_request_hash request in
  match operation_by_key w (pi_scope identity) (si_idempotency_key request) with
  | Some existing => let? s := replay w principal request hash existing in Ok (w, s)
  | None =>
      let target := to_string (si_target_id request) in
      let? _ := ensure_profile_and_target p request in
      let? _ := ensure_target_identity_for_pool p (si_pool_id request) target in
      let? _ := ensure_pool_access p principal (si_pool_id request) in
      let? _ := ensure_target_access p principal target in
      let? _ := ensure_workload_policy p w principal request in
      if si_generation request >? i64_max
      then Err (InvalidRequest "generation exceeds SQLite integer") else
      if negb (count_rows (λ i, String.eqb (i_workload_id i) (to_string (si_workload_id request))
                                && (i_generation i =? si_generation request))
                 (workload_intents w) =? 0)
      then Err IdempotencyConflict else
      let? operation_id := new_id drawn in
      insert_intent w identity request hash operation_id now
  end.

(** [true] when the intent was cancelled. *)
Definition cancel_queued (w : Work) (operation_id reason : string) (now : Z) : Work * bool :=
  let cancellable i :=
    String.eqb (i_id i) operation_id && bool_decide (i_status i = IntentQueued)
    && negb (exists_row (λ pl, String.eqb (pl_intent_id pl) (i_id i)) (workload_placements w)) in
  let changed := count_rows cancellable (workload_intents w) =? 1 in
  let w1 := set_intents w
    (update_where cancellable (i_set IntentCancelled (Some reason) now) (workload_intents w)) in
  (if changed then
     set_operations w1 (update_where
       (λ o, String.eqb (o_id o) operation_id && bool_decide (o_status o = OpQueued))
       (λ o, o_set OpCancelled (o_reason_code o) now o) (fleet_operations w1))
   else w1, changed).

Record OperationStatus := {
  os_operation_id : Uuid; os_principal_scope : string; os_status : OperationState;
  os_reason_code : option string; os_workload_id : option Uuid; os_generation : option Z }.

Definition load_operation (w : Work) (principal : Principal) (operation_id : Uuid)
    : Result OperationStatus FleetError :=
  let? operation := ok_or NotFound (operation_by_id w (to_string operation_id)) in
  let? intent := ok_or NotFound (intent_for_operation w (o_id operation)) in
  let? _ := ensure_operation_access p w principal intent in
  let? workload_id := parse_id (i_workload_id intent) in
  let invalid := Invariant "invalid stored workload generation" in
  let? raw := ok_or invalid (u64_try_from (i_generation intent)) in
  let? generation := map_err (λ _, invalid) (Generation_new raw) in
  Ok {| os_operation_id := operation_id; os_principal_scope := o_principal_scope operation;
        os_status := o_status operation; os_reason_code := o_reason_code operation;
        os_workload_id := Some workload_id; os_generation := Some generation |}.

(** *** What a fresh submission checked *)
Record submission_policy (w : Work) (principal : Principal) (request : SubmitIntent)
    (r : ProfileRow) : Prop := {
  sp_profile : profile_of p (to_string (si_profile_id request)) (si_pool_id request) = Some r;
  sp_enabled : p_enabled r = true;
  sp_linked : profile_linked p (to_string (si_profile_id request))
                (to_string (si_target_id request)) = true;
  sp_identity : ensure_target_identity_for_pool p (si_pool_id request)
                  (to_string (si_target_id request)) = Ok tt;
  sp_pool : ensure_pool_access p principal (si_pool_id request) = Ok tt;
  sp_target : ensure_target_access p principal (to_string (si_target_id request)) = Ok tt;
  sp_workload : ensure_workload_policy p w principal request = Ok tt }.

Lemma unit_Ok {E} (r : Result unit E) x : r = Ok x → r = Ok tt.
Proof. by destruct x. Qed.

Lemma ensure_profile_and_target_Ok request :
  ensure_profile_and_target p request = Ok tt →
  ∃ r, profile_of p (to_string (si_profile_id request)) (si_pool_id request) = Some r
    ∧ p_enabled r = true
    ∧ profile_linked p (to_string (si_profile_id request)) (to_string (si_target_id request))
      = true.
Proof.
  unfold ensure_profile_and_target. intros E. inv_result. bool_to_prop. by exists x.
Qed.

(** A submission either replays an operation, leaving the database alone, or
    adds one queued operation and its intent under the policy. *)
Lemma submit_intent_Ok w principal request drawn now w' s :
  submit_intent w principal request drawn now = Ok (w', s) →
  ∃ identity hash,
    validate_request request = Ok tt
    ∧ PrincipalIdentity_from_principal principal = Ok identity
    ∧ intent_request_hash request = Ok hash
    ∧ match operation_by_key w (pi_scope identity) (si_idempotency_key request) with
      | Some existing =>
          w' = w ∧ replay w principal request hash existing = Ok s
      | None => ∃ r, submission_policy w principal request r
          ∧ drawn ≠ 0
          ∧ count_rows (λ i, String.eqb (i_workload_id i) (to_string (si_workload_id request))
              && (i_generation i =? si_generation request)) (workload_intents w) = 0
          ∧ (∀ o, o ∈ fleet_operations w → o_id o ≠ to_string drawn)
          ∧ (∀ i, i ∈ workload_intents w → i_id i ≠ to_string drawn)
          ∧ w' = set_intents (set_operations w (fleet_operations w
                   ++ [new_operation identity request hash (to_string drawn) now]))
                   (workload_intents w
                      ++ [new_intent request (to_string drawn) (p_revision r) now])
          ∧ s = {| sub_operation_id := drawn; sub_workload_id := si_workload_id request;
                   sub_generation := si_generation request; sub_state := SubQueued |}
      end.
Proof.
  unfold submit_intent, insert_intent, new_id. intros E.
  apply bind_Ok in E as (u1 & E1 & E). apply bind_Ok in E as (identity & E2 & E).
  apply bind_Ok in E as (hash & E3 & E). exists identity, hash. apply unit_Ok in E1.
  do 3 (split; [done|]). case_match; [by inv_result|].
  inv_result. apply fleet_uuid_try_new_Ok in Hx4 as [-> Hnil].
  destruct x, x0, x1, x2, x3. simplify_eq/=.
  apply ensure_profile_and_target_Ok in Hx as (r & Hr & Hen & Hl).
  rewrite Hr in Hx5. simplify_eq. bool_to_prop.
  exists x5. split; [by split|]. split; [done|]. split; [done|].
  split; [by apply no_row_named|]. split; [by apply no_row_named|done].
Qed.

Lemma fix_run_policy_read w w' target run principal id u :
  ensure_fix_run_row_policy p w target run principal None = Ok u →
  ensure_fix_run_row_policy p w' target run principal (Some (id, false)) = Ok tt.
Proof.
  unfold ensure_fix_run_row_policy. intros E.
  apply bind_Ok in E as (row & -> & E). apply bind_Ok in E as (t & -> & E). simpl.
  destruct (negb _); [done|].
  destruct principal; simpl in *; [|done..]. by destruct (negb _).
Qed.

(** The checks a fresh submission passed are the ones access to its
    operation asks for, as long as nothing is placed for it. *)
Lemma submission_access w w' principal request r id now :
  submission_policy w principal request r →
  validate_request request = Ok tt →
  (∀ pl, pl ∈ workload_placements w' → pl_intent_id pl ≠ id) →
  ensure_operation_access p w' principal (new_intent request id (p_revision r) now) = Ok tt.
Proof.
  intros [Hr Hen Hl Hid Hp Ht Hw] Hv Hpl.
  unfold ensure_operation_access, ensure_current_intent_policy. simpl.
  rewrite Hp; simpl. rewrite Ht; simpl. rewrite Hid; simpl. rewrite Hr; simpl.
  rewrite Hen, Hl; simpl.
  assert (fetch (λ pl, String.eqb (pl_intent_id pl) id) (workload_placements w') = None) as ->.
  { apply fetch_None. intros pl Hin. apply String.eqb_neq. by apply Hpl. }
  destruct (si_kind request) eqn:Ek; simpl; [done|].
  unfold ensure_workload_policy in Hw. rewrite Ek, Hr in Hw. simpl in Hw. inv_result.
  unfold ensure_fix_run_policy. simpl. rewrite Hx, Hr. simpl.
  rewrite E, E0. simpl. rewrite Hx0. simpl.
  by erewrite fix_run_policy_read.
Qed.

Lemma validate_generation request : validate_request request = Ok tt → si_generation request = 1.
Proof. unfold validate_request. intros E. inv_result. by bool_to_prop. Qed.

(** Every placement belongs to an intent: the foreign key. *)
Definition placements_have_intents (w : Work) : Prop :=
  ∀ pl, pl ∈ workload_placements w → ∃ i, i ∈ workload_intents w ∧ i_id i = pl_intent_id pl.

(** A submission that was accepted as new can be repeated: the same
    principal sending the same request again, at any later time and with
    any other fresh identifier, gets the identifier of the first operation
    back as a replay, and the database does not change.  Loading that
    operation reports it queued with the workload and generation asked
    for. *)
Theorem submission_replays (w w' : Work) (principal : Principal) (request : SubmitIntent)
    (drawn drawn' : Uuid) (now now' : Z) (s : Submission) :
  placements_have_intents w →
  0 < drawn < 2 ^ 128 → 0 < si_workload_id request < 2 ^ 128 →
  submit_intent w principal request drawn now = Ok (w', s) →
  sub_state s = SubQueued →
  submit_intent w' principal request drawn' now'
    = Ok (w', {| sub_operation_id := sub_operation_id s; sub_workload_id := sub_workload_id s;
                 sub_generation := sub_generation s; sub_state := SubReplay |})
  ∧ ∃ status, load_operation w' principal (sub_operation_id s) = Ok status
      ∧ os_status status = OpQueued ∧ os_workload_id status = Some (si_workload_id request)
      ∧ os_generation status = Some (si_generation request).
Proof.
  intros Hfk Hd Hwid Hs Hq.
  apply submit_intent_Ok in Hs as (identity & hash & Hv & Hi & Hh & Hs).
  destruct (operation_by_key _ _ _) as [existing|] eqn:Ek.
  { destruct Hs as [_ Hs]. unfold replay in Hs. inv_result. done. }
  destruct Hs as (r & Hp & _ & _ & Ho & Hin & -> & ->). simpl.
  set (w' := set_intents _ _).
  assert (operation_by_id w' (to_string drawn)
          = Some (new_operation identity request hash (to_string drawn) now)) as Hop
    by (by apply fetch_fresh).
  assert (intent_for_operation w' (to_string drawn)
          = Some (new_intent request (to_string drawn) (p_revision r) now)) as Hint
    by (by apply fetch_fresh).
  assert (ensure_operation_access p w' principal
            (new_intent request (to_string drawn) (p_revision r) now) = Ok tt) as Hacc.
  { eapply submission_access; [done..|]. intros pl (i & Hi1 & <-)%Hfk. eauto. }
  split.
  - unfold submit_intent. rewrite Hv, Hi, Hh. simpl.
    unfold operation_by_key in *. simpl. rewrite fetch_app, Ek. simpl.
    rewrite !String.eqb_refl. simpl. unfold replay. simpl.
    rewrite String.eqb_refl. simpl. rewrite Hint. simpl. rewrite Hacc. simpl.
    unfold parse_id. by rewrite fleet_uuid_roundtrip.
  - unfold load_operation. rewrite Hop. simpl. rewrite Hint. simpl. rewrite Hacc. simpl.
    unfold parse_id. rewrite fleet_uuid_roundtrip by done. simpl.
    rewrite (validate_generation _ Hv). simpl. by eexists.
Qed.
End service.

(** ** A submission in the small fleet *)
Module SampleService.
#[local] Existing Instances Hyphenated.uuid_text Plain.codec.
#[export] Instance request_json : RequestJson :=
  {| request_json r := Some (bytes (cr_workload_id r)) |}.

Definition request : SubmitIntent :=
  {| si_idempotency_key := "key-1"; si_pool_id := "pool"; si_profile_id := 40;
     si_target_id := 30; si_workload_id := 50; si_generation := 1; si_kind := CiRunner;
     si_agent_run_id := None; si_expected_profile_revision := Some 3 |}.

Definition submit (w : Work) (now : Z) : Result (Work * Submission) FleetError :=
  submit_intent SampleFleet.policy w (AuthenticatedUser "alice") request 60 now.

(** The database after Alice's submission. *)
Definition submitted : Work :=
  match submit SampleFleet.empty 500 with Ok (w, _) => w | Err _ => SampleFleet.empty end.

Lemma submission_replays_witness :
  ∃ s, submit SampleFleet.empty 500 = Ok (submitted, s)
    ∧ submit_intent SampleFleet.policy submitted (AuthenticatedUser "alice") request 61 900
      = Ok (submitted, {| sub_operation_id := 60; sub_workload_id := 50; sub_generation := 1;
                          sub_state := SubReplay |}).
Proof.
  eexists. split; [vm_compute; reflexivity|].
  refine (proj1 (submission_replays SampleFleet.policy SampleFleet.empty submitted
    (AuthenticatedUser "alice") request 60 61 500 900
    {| sub_operation_id := 60; sub_workload_id := 50; sub_generation := 1;
       sub_state := SubQueued |} _ _ _ _ _)).
  - intros pl Hpl. by apply not_elem_of_nil in Hpl.
  - done.
  - done.
  - vm_compute. reflexivity.
  - reflexivity.
Defined.
End SampleService.
