(* ===== verification/Admission.v ===== *)
(** * Placement admission
    ([crates/gridops-core/src/fleet/admission.rs]).

    [admit_operation] is the body of one transaction: it takes the database
    and returns the database it commits, or the error that rolls it back.
    Each SQL query is the function with its name below; an [INSERT] fails with
    [Database] when it breaks a [UNIQUE] key, a [CHECK] on the charge or a
    trigger.  Clock readings and drawn UUIDs are arguments. *)
From S2P Require Import Prelude Base64 Ids Domain Protocol Outcomes Capabilities Store Service.
#[local] Open Scope string_scope.
#[local] Open Scope Z_scope.

Definition ScanLimit_new (value : Z) : Result Z FleetError :=
  if (value =? 0) || (value >? 100)
  then Err (InvalidRequest "scan limit must be between 1 and 100") else Ok value.

Record SliceReport := { scanned : Z; admitted : Z; queued : Z }.

Record Candidate := {
  ca_host : string; ca_backend : string; ca_domain : string; ca_epoch : Z;
  ca_session : string; ca_boot : string; ca_incarnation : string;
  ca_session_id : option string; ca_profile_revision : Z; ca_cpu_millis : Z; ca_memory_mib : Z;
  ca_disk_bytes : Z; ca_runtime_kind : string; ca_execution_os : string;
  ca_architecture : string; ca_mode : string; ca_requires_interactive : bool;
  ca_requires_docker_socket : bool; ca_labels : option (list string);
  ca_config : option OperatorConfiguration; ca_image : string;
  ca_capabilities : option CapabilityReport; ca_probe_received_at : option Z;
  ca_probe_epoch : option Z; ca_probe_session_id : option string;
  ca_probe_boot_id : option string; ca_probe_incarnation : option string }.

Inductive AdmissionOutcome := OutcomeAdmitted | Queued | Noop.

(** The identifiers one admission draws. *)
Record Draws := { dr_placement : Uuid; dr_command : Uuid; dr_allocation : nat → Uuid }.

Definition invariant_err {A E} (why : string) (r : Result A E) : Result A FleetError :=
  map_err (λ _, Invariant why) r.

Definition parse_runtime_kind (value : string) : Result RuntimeKind FleetError :=
  if String.eqb value "docker" then Ok Docker
  else if String.eqb value "tart_vm" then Ok TartVm
  else if String.eqb value "native_process" then Ok NativeProcess
  else Err (Invariant "invalid runtime kind").

Definition parse_execution_os (value : string) : Result ExecutionOs FleetError :=
  if String.eqb value "linux" then Ok Linux
  else if String.eqb value "macos" then Ok Macos
  else if String.eqb value "windows" then Ok Windows
  else Err (Invariant "invalid execution OS").

Definition parse_architecture (value : string) : Result Architecture FleetError :=
  if String.eqb value "x64" then Ok X64
  else if String.eqb value "arm64" then Ok Arm64
  else Err (Invariant "invalid architecture").

(** [u64::try_from(i64)] followed by a checked constructor, both reported as
    the same invariant. *)
Definition counter_from_db (why : string) (new : Z → Result Z CounterError) (value : Z)
    : Result Z FleetError :=
  let? raw := ok_or (Invariant why) (u64_try_from value) in
  invariant_err why (new raw).

Definition external_id_from_db (why : string) (value : option Z) : Result Z FleetError :=
  let? v := ok_or Database value in
  let? raw := ok_or (Invariant why) (u64_try_from v) in
  invariant_err why (ExternalId_try_from raw).

Section target.
Context `{UuidText} (p : Policy).

Definition uuid_from_db (invalid nil : string) (value : option string) : Result Uuid FleetError :=
  let? text := ok_or Database value in
  let? u := ok_or (Invariant invalid) (parse_str (trim_braces text)) in
  invariant_err nil (NonNilTargetUuid_new u).

Definition target_from_db (target_id : string) : Result CiTarget FleetError :=
  let? t := ok_or NotFound (target_of p target_id) in
  if String.eqb (t_kind t) "github_repository" then
    let? installation := external_id_from_db "invalid target installation ID" (t_installation_id t) in
    let? repository := external_id_from_db "invalid target repository ID" (t_repository_id t) in
    Ok (GithubRepository installation repository)
  else if String.eqb (t_kind t) "github_organization" then
    let? installation := external_id_from_db "invalid target installation ID" (t_installation_id t) in
    let? organization := external_id_from_db "invalid target organization ID" (t_organization_id t) in
    Ok (GithubOrganization installation organization)
  else if String.eqb (t_kind t) "bitbucket_workspace" || String.eqb (t_kind t) "bitbucket_repository"
  then
    let? raw := ok_or Database (t_bitbucket_connection_id t) in
    let? connection_id := invariant_err "invalid Bitbucket connection ID"
                            (BitbucketConnectionId_new raw) in
    let? workspace_uuid := uuid_from_db "invalid Bitbucket workspace UUID"
                             "nil Bitbucket workspace UUID" (t_workspace_uuid t) in
    if String.eqb (t_kind t) "bitbucket_workspace"
    then Ok (BitbucketWorkspace connection_id workspace_uuid)
    else
      let? repository_uuid := uuid_from_db "invalid Bitbucket repository UUID"
                                "nil Bitbucket repository UUID" (t_repository_uuid t) in
      Ok (BitbucketRepository connection_id workspace_uuid repository_uuid)
  else Err (Invariant "invalid target kind").

Definition effective_configuration (c : Candidate) : Result ExecutionConfiguration FleetError :=
  let? profile := ok_or (Invariant "invalid profile configuration") (ca_config c) in
  let? session_id :=
    if ca_requires_interactive c then
      let? text := ok_or (Invariant "interactive session disappeared") (ca_session_id c) in
      let? u := invariant_err "invalid interactive session ID" (fleet_uuid_from_str text) in
      Ok (Some u)
    else Ok None in
  Ok {| ec_network := oc_network profile; ec_session_id := session_id;
        ec_requires_interactive := ca_requires_interactive c;
        ec_requires_docker_socket := ca_requires_docker_socket c |}.

Definition resource_request (c : Candidate) : Result ResourceRequest FleetError :=
  let? cpu := ok_or (Invariant "invalid profile CPU") (u32_try_from (ca_cpu_millis c)) in
  let? memory := ok_or (Invariant "invalid profile memory") (u64_try_from (ca_memory_mib c)) in
  let? disk := ok_or (Invariant "invalid profile disk") (u64_try_from (ca_disk_bytes c)) in
  invariant_err "invalid profile resources" (ResourceRequest_new cpu memory disk).

(** The probe a candidate's backend row records, when all of it is there. *)
Definition candidate_probe (host backend : Uuid) (c : Candidate)
    : Result (option CurrentProbe) FleetError :=
  match ca_probe_received_at c, ca_probe_epoch c, ca_probe_session_id c, ca_probe_boot_id c,
        ca_probe_incarnation c with
  | Some received_at, Some epoch, Some session, Some boot, Some incarnation =>
      let? received_at := invariant_err "invalid probe receipt timestamp"
                            (WireTimestamp_from_millis received_at) in
      let? epoch := counter_from_db "invalid probe epoch" HostEpoch_new epoch in
      let? session := invariant_err "invalid probe session ID" (fleet_uuid_from_str session) in
      let? boot := invariant_err "invalid probe boot identity" (UpstreamText_new boot) in
      let? incarnation := invariant_err "invalid probe incarnation"
                            (fleet_uuid_from_str incarnation) in
      Ok (Some {| pr_host_id := host; pr_backend_id := backend; pr_received_at := received_at;
                  pr_host_epoch := epoch; pr_authority_session_id := session; pr_boot_id := boot;
                  pr_control_plane_incarnation := incarnation |})
  | _, _, _, _, _ => Ok None
  end.

Definition valid_labels (labels : option (list string)) : bool :=
  match labels with
  | Some l => forallb (λ label, is_ok (UpstreamText_new label)) l
  | None => false
  end.

(** [None] when the candidate can run the intent, else the reason.  [clock]
    is the time the probe's age is judged at. *)
Definition candidate_compatible (intent : IntentRow) (c : Candidate) (clock : Z)
    : Result (option string) FleetError :=
  let? target := target_from_db (i_target_id intent) in
  let? runtime := parse_runtime_kind (ca_runtime_kind c) in
  let? execution_os := parse_execution_os (ca_execution_os c) in
  let? architecture := parse_architecture (ca_architecture c) in
  let persistent := String.eqb (ca_mode c) "persistent" in
  if negb (String.eqb (ca_mode c) "ephemeral") && negb persistent
  then Ok (Some "unsupported_mode")
  else if String.eqb (i_kind intent) (WorkloadKind_as_str FixSandbox)
       && (negb (is_github_repository target) || negb (bool_decide (runtime = Docker))
           || negb (bool_decide (execution_os = Linux)))
  then Ok (Some "unsupported_mode")
  else if negb (valid_labels (ca_labels c)) || is_null (ca_config c) || is_empty (ca_image c)
       || (chars_count (ca_image c) >? 300) || has_control (ca_image c)
  then Ok (Some "invalid_profile")
  else match ImageReference_try_from (ca_image c) with
  | Err _ => Ok (Some "invalid_profile")
  | Ok image =>
      let? resources := resource_request c in
      let? host := parse_id (ca_host c) in
      let? backend := parse_id (ca_backend c) in
      let identity := {| bi_host_id := host; bi_backend_id := backend;
                         bi_runtime_kind := runtime; bi_execution_os := execution_os;
                         bi_architecture := architecture |} in
      let? epoch := counter_from_db "invalid host epoch" HostEpoch_new (ca_epoch c) in
      let? session := invariant_err "invalid authority session ID"
                        (fleet_uuid_from_str (ca_session c)) in
      let? boot := invariant_err "invalid boot identity" (UpstreamText_new (ca_boot c)) in
      let? incarnation := invariant_err "invalid control-plane incarnation"
                            (fleet_uuid_from_str (ca_incarnation c)) in
      let authority := {| ca_host_id := host; ca_host_epoch := epoch;
                          ca_authority_session_id := session; ca_boot_id := boot;
                          ca_control_plane_incarnation := incarnation |} in
      let? probe := candidate_probe host backend c in
      let requirement := {| req_runtime_kind := runtime; req_execution_os := execution_os;
        req_architecture := architecture;
        req_runner := {| target_kind := TargetKind_from target;
                         mode := if persistent then Persistent else Ephemeral |};
        req_environment := image; req_resources := resources;
        req_requires_interactive := ca_requires_interactive c;
        req_requires_docker_socket := ca_requires_docker_socket c |} in
      match ca_capabilities c with
      | None => Ok (Some "capability_unverified")
      | Some report =>
          match BackendCapabilities_try_from report with
          | Err _ => Ok (Some "capability_unverified")
          | Ok capabilities =>
              let? at_ := invariant_err "invalid admission timestamp"
                            (WireTimestamp_from_millis clock) in
              match evaluate capabilities identity requirement probe authority at_ with
              | Ok _ => Ok None
              | Err rejection => Ok (Some (CapabilityRejection_reason_code rejection))
              end
          end
      end
  end.
End target.

(** ** The candidate query *)
Section candidates.
Context (p : Policy) (w : Work).

(** [last > now - 45s AND last <= now] of a nullable column. *)
Definition fresh_within (window now : Z) (last : option Z) : bool :=
  match last with
  | Some t => (i64_saturating_sub now window <? t) && (t <=? now)
  | None => false
  end.

Definition user_requested (o : OperationRow) : bool := String.eqb (o_principal_kind o) "user".

Definition admin_of_installation (user : option string) (installation : option Z) : bool :=
  exists_row (λ ui, exists_row (λ u, String.eqb (u_id u) (ui_user_id ui)
      && eq_sql (Some (ui_user_id ui)) user
      && eq_sql (Some (ui_installation_id ui)) installation
      && (String.eqb (ui_permission ui) "admin" || String.eqb (u_role u) "admin")) (users p))
    (user_installations p).

Definition admin_of_connection (user : option string) (connection : option string) : bool :=
  exists_row (λ bug, exists_row (λ u, String.eqb (u_id u) (bug_user_id bug)
      && eq_sql (Some (bug_user_id bug)) user
      && eq_sql (Some (bug_connection_id bug)) connection && is_null (bug_revoked_at bug)
      && (String.eqb (bug_permission bug) "admin" || String.eqb (u_role u) "admin")) (users p))
    (bitbucket_user_grants p).

(** The clauses about a fix sandbox's agent run. *)
Definition fix_run_clause (i : IntentRow) (o : OperationRow) (r : ProfileRow) : bool :=
  negb (String.eqb (i_kind i) "fix_sandbox")
  || (String.eqb (p_runtime_kind r) "docker" && String.eqb (p_execution_os r) "linux"
      && exists_row (λ t, String.eqb (t_id t) (i_target_id i)
           && String.eqb (t_kind t) "github_repository"
           && exists_row (λ run, eq_sql (Some (run_repository_id run)) (t_repository_id t)
                && eq_sql (Some (run_id run)) (i_agent_run_id i) && run_active run
                && (negb (user_requested o)
                    || eq_sql (Some (run_requested_by run)) (o_requested_by_user_id o)))
                (agent_runs p)) (fleet_ci_targets p)
      && negb (exists_row (λ duplicate, eq_sql (i_agent_run_id duplicate) (i_agent_run_id i)
           && negb (String.eqb (i_id duplicate) (i_id i)) && intent_open duplicate)
           (workload_intents w))).

(** The clauses about the profile and its link to the target. *)
Definition profile_clause (i : IntentRow) (r : ProfileRow) : bool :=
  p_enabled r && (p_revision r =? i_expected_profile_revision i)
  && exists_row (λ pct, String.eqb (pct_profile_id pct) (i_profile_id i)
       && String.eqb (pct_target_id pct) (i_target_id i) && pct_enabled pct
       && is_null (pct_revoked_at pct)) (profile_ci_targets p).

(** The clauses about the machine: approved, active, verified, calm, alive
    and inventoried under its current epoch, session and boot. *)
Definition host_clause (h : HostRow) (now : Z) : bool :=
  bool_decide (h_enrollment_state h = EnrApproved)
  && bool_decide (h_lifecycle_state h = IntActive)
  && bool_decide (h_integrity_state h = Verified)
  && bool_decide (h_pressure_state h = PressureNormal)
  && fresh_within 45000 now (h_last_heartbeat_at h)
  && fresh_within 45000 now (h_last_inventory_at h)
  && match h_authority_expires_at h with
     | Some t => (now <? t) && (t <=? i64_saturating_add now 90000)
     | None => false
     end
  && h_inventory_complete h
  && not_null (h_authority_incarnation h) && not_null (h_agent_session_id h)
  && not_null (h_boot_id h)
  && eq_sql (h_inventory_epoch h) (Some (h_epoch h))
  && eq_sql (h_inventory_session_id h) (h_agent_session_id h)
  && eq_sql (h_inventory_boot_id h) (h_boot_id h)
  && match fleet_control_plane p with
     | Some cp => String.eqb (cp_readiness cp) "active"
                  && eq_sql (Some (cp_incarnation cp)) (h_authority_incarnation h)
     | None => false
     end.

Definition backend_clause (b : BackendRow) (r : ProfileRow) : bool :=
  String.eqb (b_runtime_kind b) (p_runtime_kind r)
  && String.eqb (b_execution_os b) (p_execution_os r)
  && String.eqb (b_architecture b) (p_architecture r)
  && b_enabled b && bool_decide (b_readiness b = BackendReady).

Definition grant_clause (g : HostTargetGrantRow) (r : ProfileRow) : bool :=
  g_allow_schedule g && is_null (g_revoked_at g)
  && (negb (p_requires_interactive r) || g_allow_interactive g)
  && (negb (String.eqb (p_runtime_kind r) "native_process") || g_allow_native g)
  && (negb (p_requires_docker_socket r) || g_allow_docker_socket g).

(** No installation of the target or of the pool is suspended. *)
Definition unsuspended_clause (i : IntentRow) : bool :=
  negb (exists_row (λ t, String.eqb (t_id t) (i_target_id i)
          && exists_row (λ ins, eq_sql (Some (ins_id ins)) (t_installation_id t)
                                && not_null (ins_suspended_at ins)) (installations p))
          (fleet_ci_targets p))
  && negb (exists_row (λ rpi, String.eqb (rpi_pool_id rpi) (i_pool_id i)
          && exists_row (λ ins, (ins_id ins =? rpi_installation_id rpi)
                                && not_null (ins_suspended_at ins)) (installations p))
          (runner_pool_installations p)).

Definition required_installations (pool : string) : list (option Z) :=
  (Some ∘ rpi_installation_id
     <$> select (λ rpi, String.eqb (rpi_pool_id rpi) pool) (runner_pool_installations p))
  ++ (pool_installation_id <$> select (λ q, String.eqb (pool_id q) pool) (runner_pools p)).

(** The clauses about the user who asked, when it was a user. *)
Definition user_clause (i : IntentRow) (o : OperationRow) (h : HostRow) : bool :=
  negb (user_requested o)
  || (let user := o_requested_by_user_id o in
      exists_row (λ hug, String.eqb (hug_host_id hug) (h_id h)
        && eq_sql (Some (hug_user_id hug)) user
        && (String.eqb (hug_permission hug) "operator" || String.eqb (hug_permission hug) "admin")
        && is_null (hug_revoked_at hug)) (host_user_grants p)
      && negb (exists_row (λ required, negb (admin_of_installation user required))
                 (required_installations (i_pool_id i)))
      && negb (exists_row (λ rpc, String.eqb (rpc_pool_id rpc) (i_pool_id i)
                 && negb (admin_of_connection user (Some (rpc_connection_id rpc))))
                 (runner_pool_bitbucket_connections p))
      && exists_row (λ t, String.eqb (t_id t) (i_target_id i)
           && ((not_null (t_installation_id t) && admin_of_installation user (t_installation_id t))
               || (not_null (t_bitbucket_connection_id t)
                   && admin_of_connection user (t_bitbucket_connection_id t))))
           (fleet_ci_targets p)).

Definition platform_key (runtime os arch : string) : string :=
  runtime +:+ "/" +:+ os +:+ "/" +:+ arch.

(** How many other platforms with an enabled profile the machine serves. *)
Definition other_platforms (h : HostRow) (r : ProfileRow) : Z :=
  let serves other := exists_row (λ served, String.eqb (b_host_id served) (h_id h)
        && b_enabled served && String.eqb (b_runtime_kind served) (p_runtime_kind other)
        && String.eqb (b_execution_os served) (p_execution_os other)
        && String.eqb (b_architecture served) (p_architecture other)) (host_backends p) in
  let same other := String.eqb (p_runtime_kind other) (p_runtime_kind r)
        && String.eqb (p_execution_os other) (p_execution_os r)
        && String.eqb (p_architecture other) (p_architecture r) in
  let others := select (λ other, serves other && p_enabled other && is_null (p_archived_at other)
                                 && negb (same other)) (pool_execution_profiles p) in
  Z.of_nat (length (remove_dups
    ((λ other, platform_key (p_runtime_kind other) (p_execution_os other) (p_architecture other))
       <$> others))).

Definition live_on (domain host : string) (a : AllocationRow) : bool :=
  String.eqb (a_domain_id a) domain && String.eqb (a_host_id a) host
  && negb (bool_decide (a_state a = AllocReleased)).

(** [NULL] when the domain is not the host's. *)
Definition free_cpu_millis (domain host : string) : option Z :=
  (λ d, d_cpu_millis d
        - sum_rows a_cpu_millis (select (live_on domain host) (capacity_allocations w)))
    <$> fetch (λ d, String.eqb (d_id d) domain && String.eqb (d_host_id d) host)
          (host_resource_domains p).

Definition row_candidate (h : HostRow) (b : BackendRow) (r : ProfileRow) : Candidate :=
  {| ca_host := h_id h; ca_backend := b_id b; ca_domain := b_domain_id b; ca_epoch := h_epoch h;
     ca_session := default "" (h_agent_session_id h); ca_boot := default "" (h_boot_id h);
     ca_incarnation := default "" (h_authority_incarnation h); ca_session_id := None;
     ca_profile_revision := p_revision r; ca_cpu_millis := p_cpu_millis r;
     ca_memory_mib := p_memory_mib r; ca_disk_bytes := p_disk_bytes r;
     ca_runtime_kind := p_runtime_kind r; ca_execution_os := p_execution_os r;
     ca_architecture := p_architecture r; ca_mode := p_mode r;
     ca_requires_interactive := p_requires_interactive r;
     ca_requires_docker_socket := p_requires_docker_socket r; ca_labels := p_labels r;
     ca_config := p_config r; ca_image := p_image r; ca_capabilities := b_capabilities b;
     ca_probe_received_at := b_last_probed_at b; ca_probe_epoch := b_probe_epoch b;
     ca_probe_session_id := b_probe_session_id b; ca_probe_boot_id := b_probe_boot_id b;
     ca_probe_incarnation := b_probe_incarnation b |}.

(** A row of the query with its sort keys. *)
Record RankedRow := { rk_other : Z; rk_free : option Z; rk_candidate : Candidate }.

(** [other_platforms, free_cpu_millis DESC, h.id, b.id]; [NULL] sorts last
    when descending. *)
Definition rank_le (a b : RankedRow) : bool :=
  if rk_other a <? rk_other b then true
  else if rk_other b <? rk_other a then false
  else match rk_free a, rk_free b with
       | Some x, None => true
       | None, Some y => false
       | fa, fb =>
           let x := default 0 fa in let y := default 0 fb in
           if y <? x then true else if x <? y then false
           else match String.compare (ca_host (rk_candidate a)) (ca_host (rk_candidate b)) with
                | Lt => true
                | Gt => false
                | Eq => String.leb (ca_backend (rk_candidate a)) (ca_backend (rk_candidate b))
                end
       end.

(** The joined and filtered rows for one intent, operation and profile. *)
Definition host_rows (i : IntentRow) (o : OperationRow) (r : ProfileRow) (now : Z)
    : list RankedRow :=
  b ← select (λ b, backend_clause b r) (host_backends p);
  h ← select (λ h, String.eqb (h_id h) (b_host_id b) && host_clause h now && user_clause i o h)
        (fleet_hosts p);
  _ ← select (λ g, String.eqb (g_host_id g) (h_id h) && String.eqb (g_target_id g) (i_target_id i)
                   && grant_clause g r) (host_target_grants p);
  [{| rk_other := other_platforms h r; rk_free := free_cpu_millis (b_domain_id b) (h_id h);
      rk_candidate := row_candidate h b r |}].

Definition candidate_rows (intent : IntentRow) (now : Z) : list RankedRow :=
  i ← select (λ i, String.eqb (i_id i) (i_id intent) && bool_decide (i_status i = IntentQueued)
                   && negb (exists_row (λ pl, String.eqb (pl_intent_id pl) (i_id i))
                              (workload_placements w))
                   && unsuspended_clause i) (workload_intents w);
  o ← select (λ o, String.eqb (o_id o) (i_id i) && bool_decide (o_status o = OpQueued))
        (fleet_operations w);
  r ← select (λ r, String.eqb (p_id r) (i_profile_id i) && String.eqb (p_pool_id r) (i_pool_id i)
                   && profile_clause i r && fix_run_clause i o r) (pool_execution_profiles p);
  host_rows i o r now.

Definition absence_settled (pl : PlacementRow) : bool :=
  not_null (pl_local_absence_proven_at pl) && not_null (pl_delayed_starts_excluded_at pl)
  && negb (exists_row (λ a, String.eqb (a_placement_id a) (pl_id pl)
                            && negb (bool_decide (a_state a = AllocReleased)))
             (capacity_allocations w)).

Definition session_load (session : string) : Z :=
  count_rows (λ pl, eq_sql (pl_session_id pl) (Some session) && negb (absence_settled pl))
    (workload_placements w).

Definition available_session (intent : IntentRow) (host : string) (now : Z) : option string :=
  let rows := select (λ s, String.eqb (s_host_id s) host && String.eqb (s_helper_state s) "ready"
      && s_authorized s
      && exists_row (λ st, String.eqb (st_session_id st) (s_id s)
           && String.eqb (st_target_id st) (i_target_id intent) && is_null (st_revoked_at st))
           (host_session_target_grants p)
      && fresh_within 45000 now (s_last_seen_at s)
      && (session_load (s_id s) <? s_max_jobs s)) (host_sessions p) in
  s_id <$> head (order_by (λ a b, String.leb (s_id a) (s_id b)) rows).

Definition is_host_selector (s : Selector) : bool :=
  match s with SelectHost _ => true | SelectTag _ _ => false end.

Definition tag_matches (tags : list (string * option string)) (s : SelectorRow) : bool :=
  match sel_selector s with
  | SelectHost _ => false
  | SelectTag key value =>
      bool_decide ((snd <$> fetch (λ kv, String.eqb kv.1 key) tags) = Some (Some value))
  end.

Definition host_selector_matches (intent : IntentRow) (host : string) : Result bool FleetError :=
  let own s := String.eqb (sel_profile_id s) (i_profile_id intent) in
  let hosts := select (λ s, own s && is_host_selector (sel_selector s))
                 (profile_host_selectors p) in
  let tags := select (λ s, own s && negb (is_host_selector (sel_selector s)))
                (profile_host_selectors p) in
  match hosts, tags with
  | [], [] =>
      let? r := ok_or Database (profile_of p (i_profile_id intent) (i_pool_id intent)) in
      Ok (p_all_authorized_hosts r)
  | _, _ =>
      if negb (bool_decide (hosts = []))
         && negb (exists_row (λ s, bool_decide (sel_selector s = SelectHost host)) hosts)
      then Ok false
      else match fetch (λ h, String.eqb (h_id h) host) (fleet_hosts p) with
      | None => Ok false
      | Some h =>
          let? host_tags := ok_or (Invariant "host tags are not valid JSON") (h_tags h) in
          Ok (length (select (tag_matches host_tags) tags) =? length tags)%nat
      end
  end.

Definition with_session (c : Candidate) (session : string) : Candidate :=
  {| ca_host := ca_host c; ca_backend := ca_backend c; ca_domain := ca_domain c;
     ca_epoch := ca_epoch c; ca_session := ca_session c; ca_boot := ca_boot c;
     ca_incarnation := ca_incarnation c; ca_session_id := Some session;
     ca_profile_revision := ca_profile_revision c; ca_cpu_millis := ca_cpu_millis c;
     ca_memory_mib := ca_memory_mib c; ca_disk_bytes := ca_disk_bytes c;
     ca_runtime_kind := ca_runtime_kind c; ca_execution_os := ca_execution_os c;
     ca_architecture := ca_architecture c; ca_mode := ca_mode c;
     ca_requires_interactive := ca_requires_interactive c;
     ca_requires_docker_socket := ca_requires_docker_socket c; ca_labels := ca_labels c;
     ca_config := ca_config c; ca_image := ca_image c; ca_capabilities := ca_capabilities c;
     ca_probe_received_at := ca_probe_received_at c; ca_probe_epoch := ca_probe_epoch c;
     ca_probe_session_id := ca_probe_session_id c; ca_probe_boot_id := ca_probe_boot_id c;
     ca_probe_incarnation := ca_probe_incarnation c |}.

(** The body of the loop over the query's rows. *)
Definition keep_candidate (intent : IntentRow) (now : Z) (kept : list Candidate) (c : Candidate)
    : Result (list Candidate) FleetError :=
  let chosen := if ca_requires_interactive c
                then with_session c <$> available_session intent (ca_host c) now
                else Some c in
  match chosen with
  | None => Ok kept
  | Some c =>
      let? matches := host_selector_matches intent (ca_host c) in
      Ok (if matches then (kept ++ [c])%list else kept)
  end.

Definition candidates (intent : IntentRow) (now : Z) : Result (list Candidate) FleetError :=
  try_fold (keep_candidate intent now) []
    (rk_candidate <$> order_by rank_le (candidate_rows intent now)).
End candidates.

(** ** Budgets *)
Section budgets.
Context `{UuidText} (p : Policy) (w : Work).

Definition topology_error : FleetError :=
  Invariant "resource domain topology is cyclic or too deep".

(** The [while let] loop of [domain_path]: [remaining] is
    [MAX_RESOURCE_DOMAIN_DEPTH - result.len()], so running out of it is the
    code's own depth guard. *)
Fixpoint domain_path_loop (remaining : nat) (host : string) (result : list DomainRow)
    (seen : list string) (current : option string) : Result (list DomainRow) FleetError :=
  match current with
  | None => Ok result
  | Some id =>
      match remaining with
      | O => Err topology_error
      | S remaining =>
          if bool_decide (id ∈ seen) then Err topology_error else
          match fetch (λ d, String.eqb (d_id d) id && String.eqb (d_host_id d) host)
                  (host_resource_domains p) with
          | None => Err (Invariant "resource domain is missing or cross-host")
          | Some row =>
              domain_path_loop remaining host (result ++ [row])%list (id :: seen)
                (d_parent_domain_id row)
          end
      end
  end.

Definition domain_path (leaf host : string) : Result (list DomainRow) FleetError :=
  domain_path_loop (Z.to_nat MAX_RESOURCE_DOMAIN_DEPTH) host [] [] (Some leaf).

Definition amount_from_db (negative bounds : string) (cpu memory disk : Z)
    : Result ResourceAmount FleetError :=
  let? cpu := ok_or (Invariant negative) (u64_try_from cpu) in
  let? memory := ok_or (Invariant negative) (u64_try_from memory) in
  let? disk := ok_or (Invariant negative) (u64_try_from disk) in
  invariant_err bounds (ResourceAmount_new cpu memory disk).

Definition add_allocation (aggregate : ResourceAmount) (a : AllocationRow)
    : Result ResourceAmount FleetError :=
  let? amount := amount_from_db "negative allocation" "allocation exceeds integer bounds"
                   (a_cpu_millis a) (a_memory_mib a) (a_disk_bytes a) in
  invariant_err "allocation aggregate overflow" (ResourceAmount_checked_add aggregate amount).

(** [ResourceAmountExt::fits_request]. *)
Definition fits_request (self request : ResourceAmount) : bool :=
  (ra_cpu_millis request <=? ra_cpu_millis self)
  && (ra_memory_mib request <=? ra_memory_mib self)
  && (ra_disk_bytes request <=? ra_disk_bytes self).

(** One turn of the loop in [domains_fit]: the reason the request does not
    fit the domain, if it does not. *)
Definition domain_fits (host : string) (request : ResourceAmount) (d : DomainRow)
    : Result (option string) FleetError :=
  let? aggregate := try_fold add_allocation ResourceAmount_ZERO
                      (select (live_on (d_id d) host) (capacity_allocations w)) in
  let? capacity := amount_from_db "negative budget" "budget exceeds integer bounds"
                     (d_cpu_millis d) (d_memory_mib d) (d_disk_bytes d) in
  let exhausted := if is_null (d_parent_domain_id d) then "physical_resource_exhausted"
                   else "child_resource_exhausted" in
  match ResourceAmount_checked_sub capacity aggregate with
  | Err _ => Ok (Some exhausted)
  | Ok remaining => Ok (if fits_request remaining request then None else Some exhausted)
  end.

Fixpoint domains_fit_loop (host : string) (request : ResourceAmount) (path : list DomainRow)
    : Result (option string) FleetError :=
  match path with
  | [] => Ok None
  | d :: path =>
      let? refusal := domain_fits host request d in
      match refusal with
      | Some reason => Ok (Some reason)
      | None => domains_fit_loop host request path
      end
  end.

Definition domains_fit (c : Candidate) : Result (option string) FleetError :=
  let? path := domain_path (ca_domain c) (ca_host c) in
  let? cpu := ok_or (Invariant "negative CPU") (u64_try_from (ca_cpu_millis c)) in
  let? memory := ok_or (Invariant "negative memory") (u64_try_from (ca_memory_mib c)) in
  let? disk := ok_or (Invariant "negative disk") (u64_try_from (ca_disk_bytes c)) in
  let? request := invariant_err "profile resource exceeds integer bounds"
                    (ResourceAmount_new cpu memory disk) in
  domains_fit_loop (ca_host c) request path.

Definition legacy_runners (pool : string) : Z :=
  count_rows (λ r, String.eqb (rn_pool_id r) pool && is_null (rn_deleted_at r)
      && negb (exists_row (λ pl, eq_sql (pl_runner_id pl) (Some (rn_id r))) (workload_placements w))
      && negb (exists_row (λ i, String.eqb (i_workload_id i) (rn_id r)) (workload_intents w)))
    (runners p).

(** A placement joined with its CI intent in the pool, still holding
    something. *)
Definition managed_in (pool : string) (pl : PlacementRow) : bool :=
  exists_row (λ i, String.eqb (i_id i) (pl_intent_id pl) && String.eqb (i_pool_id i) pool
                   && String.eqb (i_kind i) "ci_runner") (workload_intents w)
  && negb (absence_settled w pl).

Definition managed_runners (pool : string) : Z :=
  count_rows (managed_in pool) (workload_placements w).

Definition pool_has_capacity (intent : IntentRow) : Result bool FleetError :=
  if negb (String.eqb (i_kind intent) (WorkloadKind_as_str CiRunner)) then Ok true else
  let? q := ok_or NotFound
              (fetch (λ q, String.eqb (pool_id q) (i_pool_id intent)) (runner_pools p)) in
  let? total := ok_or (Invariant "pool count overflow")
                  (i64_checked_add (legacy_runners (i_pool_id intent))
                     (managed_runners (i_pool_id intent))) in
  Ok (total <? pool_max_count q).

Definition pool_refusal (pool : string) : option string :=
  match fetch (λ q, String.eqb (pool_id q) pool) (runner_pools p) with
  | None => None
  | Some q =>
      if pool_paused q || String.eqb (pool_state q) "paused" then Some "pool_paused"
      else if String.eqb (pool_state q) "draining" then Some "pool_draining"
      else if exists_row (λ s, String.eqb (set_key s) "provisioningPaused"
                               && String.eqb (set_value s) "true") (settings p)
      then Some "provisioning_paused" else None
  end.

Definition ensure_control_plane_ready : Result unit FleetError :=
  match fleet_control_plane p with
  | Some cp => if String.eqb (cp_readiness cp) "active" then Ok tt
               else Err (QueuedBecause "control_plane_not_ready")
  | None => Err (QueuedBecause "control_plane_not_ready")
  end.

(** [diagnose]: the first requirement no machine meets. *)
Definition diagnose (intent : IntentRow) (now : Z) : string :=
  let r := fetch (λ r, String.eqb (p_id r) (i_profile_id intent)) (pool_execution_profiles p) in
  let active := select (λ h, bool_decide (h_enrollment_state h = EnrApproved)
                   && bool_decide (h_lifecycle_state h = IntActive)) (fleet_hosts p) in
  let after (t : option Z) (bound : Z) := match t with Some x => bound <? x | None => false end in
  let online := select (λ h, after (h_last_heartbeat_at h) (now - 45000)
                   && after (h_authority_expires_at h) now) active in
  let granted := h ← online;
                 _ ← select (λ g, String.eqb (g_host_id g) (h_id h)
                       && String.eqb (g_target_id g) (i_target_id intent) && g_allow_schedule g
                       && is_null (g_revoked_at g)) (host_target_grants p); [h] in
  let matching := h ← granted;
                  b ← select (λ b, String.eqb (b_host_id b) (h_id h)
                        && match r with
                           | Some r => String.eqb (b_runtime_kind b) (p_runtime_kind r)
                               && String.eqb (b_execution_os b) (p_execution_os r)
                               && String.eqb (b_architecture b) (p_architecture r)
                           | None => false
                           end) (host_backends p); [(h, b)] in
  let enabled := select (λ m, b_enabled m.2 && bool_decide (b_readiness m.2 = BackendReady))
                   matching in
  let calm := select (λ m, b_enabled m.2 && bool_decide (h_pressure_state m.1 = PressureNormal))
                matching in
  let native := m ← matching;
                select (λ g, String.eqb (g_host_id g) (b_host_id m.2)
                  && String.eqb (g_target_id g) (i_target_id intent) && g_allow_native g
                  && is_null (g_revoked_at g)) (host_target_grants p) in
  if bool_decide (length active = 0)%nat then "no_active_machine"
  else if bool_decide (length online = 0)%nat then "machines_offline"
  else if bool_decide (length granted = 0)%nat then "target_not_granted"
  else if bool_decide (length matching = 0)%nat then "no_matching_backend"
  else if bool_decide (length enabled = 0)%nat then "backend_disabled"
  else if bool_decide ((p_runtime_kind <$> r) = Some "native_process")
       && bool_decide (length native = 0)%nat then "native_not_trusted"
  else if bool_decide (length calm = 0)%nat then "machines_under_pressure"
  else "no_eligible_host".
End budgets.

Definition is_durable_candidate_error (e : FleetError) : bool :=
  match e with
  | Forbidden | NotFound | StaleProfileRevision | QueuedBecause _ | IdempotencyConflict => true
  | _ => false
  end.

Definition reason_code (e : FleetError) : string :=
  match e with
  | Forbidden => "forbidden"
  | NotFound => "policy_unavailable"
  | StaleProfileRevision => "stale_profile_revision"
  | QueuedBecause reason => reason
  | IdempotencyConflict => "duplicate_workload"
  | _ => "no_eligible_host"
  end.

Definition persist_rejection (w : Work) (intent_id reason : string) (now : Z) : Work :=
  let operation_queued id := exists_row (λ o, String.eqb (o_id o) id
                                 && bool_decide (o_status o = OpQueued)) (fleet_operations w) in
  let w1 := set_intents w (update_where
              (λ i, String.eqb (i_id i) intent_id && bool_decide (i_status i = IntentQueued)
                    && operation_queued (i_id i))
              (λ i, i_set (i_status i) (Some reason) now i) (workload_intents w)) in
  set_operations w1 (update_where
    (λ o, String.eqb (o_id o) intent_id && bool_decide (o_status o = OpQueued)
          && exists_row (λ i, String.eqb (i_id i) (o_id o) && bool_decide (i_status i = IntentQueued))
               (workload_intents w1))
    (λ o, o_set (o_status o) (Some reason) now o) (fleet_operations w1)).

(** ** Admission *)
Section admission.
Context `{UuidText, Codec} (p : Policy).

Definition admission_id (drawn : Uuid) : Result Uuid FleetError :=
  invariant_err "generated nil UUID" (fleet_uuid_try_new drawn).

Definition new_placement (id : Uuid) (intent : IntentRow) (c : Candidate) (now : Z)
    : PlacementRow :=
  {| pl_id := to_string id; pl_intent_id := i_id intent; pl_workload_id := i_workload_id intent;
     pl_generation := i_generation intent; pl_host_id := ca_host c; pl_backend_id := ca_backend c;
     pl_host_epoch := ca_epoch c; pl_session_id := ca_session_id c;
     pl_profile_revision := ca_profile_revision c; pl_target_id := i_target_id intent;
     pl_cpu_millis := ca_cpu_millis c; pl_memory_mib := ca_memory_mib c;
     pl_disk_bytes := ca_disk_bytes c; pl_state := Preparing; pl_runner_id := None;
     pl_agent_run_id := i_agent_run_id intent; pl_created_at := now; pl_updated_at := now;
     pl_local_absence_proven_at := None; pl_delayed_starts_excluded_at := None |}.

Definition charge_check (c : Candidate) : bool :=
  (0 <? ca_cpu_millis c) && (0 <? ca_memory_mib c) && (0 <=? ca_disk_bytes c).

(** The trigger [workload_placements_match_intent]. *)
Definition matches_intent (w : Work) (pl : PlacementRow) : bool :=
  exists_row (λ i, String.eqb (i_id i) (pl_intent_id pl)
      && bool_decide (i_agent_run_id i = pl_agent_run_id pl)
      && ((String.eqb (i_kind i) "ci_runner" && is_null (pl_agent_run_id pl))
          || (String.eqb (i_kind i) "fix_sandbox" && is_null (pl_runner_id pl))))
    (workload_intents w).

Definition insert_placement (w : Work) (pl : PlacementRow) (c : Candidate)
    : Result Work FleetError :=
  if exists_row (λ q, String.eqb (pl_id q) (pl_id pl)) (workload_placements w)
     || exists_row (λ q, String.eqb (pl_intent_id q) (pl_intent_id pl)) (workload_placements w)
     || exists_row (λ q, String.eqb (pl_workload_id q) (pl_workload_id pl)
                         && (pl_generation q =? pl_generation pl)) (workload_placements w)
     || negb (charge_check c) || negb (matches_intent w pl)
  then Err Database else Ok (set_placements w (workload_placements w ++ [pl])).

Definition new_allocation (id placement : Uuid) (c : Candidate) (now : Z) (d : DomainRow)
    : AllocationRow :=
  {| a_id := to_string id; a_placement_id := to_string placement; a_host_id := ca_host c;
     a_backend_id := ca_backend c; a_host_epoch := ca_epoch c; a_domain_id := d_id d;
     a_policy_revision := d_revision d; a_cpu_millis := ca_cpu_millis c;
     a_memory_mib := ca_memory_mib c; a_disk_bytes := ca_disk_bytes c; a_state := AllocReserved;
     a_created_at := now; a_updated_at := now; a_released_at := None |}.

(** One turn of the loop over the domain path; the state is the database
    and the allocation identifiers so far. *)
Definition insert_allocation (draws : Draws) (placement : Uuid) (c : Candidate) (now : Z)
    (st : Work * list Uuid) (d : DomainRow) : Result (Work * list Uuid) FleetError :=
  let '(w, ids) := st in
  let? id := admission_id (dr_allocation draws (length ids)) in
  let row := new_allocation id placement c now d in
  if exists_row (λ a, String.eqb (a_id a) (a_id row)) (capacity_allocations w)
     || exists_row (λ a, String.eqb (a_placement_id a) (a_placement_id row)
                         && String.eqb (a_domain_id a) (a_domain_id row)) (capacity_allocations w)
  then Err Database
  else Ok (set_allocations w (capacity_allocations w ++ [row]), (ids ++ [id])%list).

Definition prepare_key (placement : Uuid) : string := "prepare:" +:+ to_string placement.

Definition parse_mode (mode : string) : Result RunnerMode FleetError :=
  if String.eqb mode "ephemeral" then Ok Ephemeral
  else if String.eqb mode "persistent" then Ok Persistent
  else Err (Invariant "invalid profile mode").

Definition parse_workload (kind : string) : Result PreparedWorkload FleetError :=
  if String.eqb kind "ci_runner" then Ok WorkCiRunner
  else if String.eqb kind "fix_sandbox" then Ok WorkFixSandbox
  else Err (Invariant "unknown workload kind").

Definition build_prepare_envelope (intent : IntentRow) (c : Candidate) (placement_id : Uuid)
    (command_drawn : Uuid) (allocation_ids : list string) (issued deadline : Z)
    : Result AgentCommandEnvelope FleetError :=
  let? target := target_from_db p (i_target_id intent) in
  let? profile_id := parse_id (i_profile_id intent) in
  let? host := parse_id (ca_host c) in
  let? backend := parse_id (ca_backend c) in
  let? epoch := counter_from_db "invalid host epoch" HostEpoch_new (ca_epoch c) in
  let? generation := counter_from_db "invalid generation" Generation_new (i_generation intent) in
  let? revision := counter_from_db "invalid profile revision" Revision_new
                     (ca_profile_revision c) in
  let? command := invariant_err "generated nil command ID" (fleet_uuid_try_new command_drawn) in
  let? operation_id := parse_id (i_id intent) in
  let? session := invariant_err "invalid authority session ID"
                    (fleet_uuid_from_str (ca_session c)) in
  let? incarnation := invariant_err "invalid control-plane incarnation"
                        (fleet_uuid_from_str (ca_incarnation c)) in
  let? runtime_kind := parse_runtime_kind (ca_runtime_kind c) in
  let? execution_os := parse_execution_os (ca_execution_os c) in
  let? architecture := parse_architecture (ca_architecture c) in
  let? mode := parse_mode (ca_mode c) in
  let? image := invariant_err "invalid profile image" (ImageReference_try_from (ca_image c)) in
  let? raw_labels := ok_or (Invariant "invalid profile labels") (ca_labels c) in
  let? labels := traverse (λ label, invariant_err "invalid profile label" (UpstreamText_new label))
                   raw_labels in
  let? configuration := effective_configuration c in
  let? resources := resource_request c in
  let? allocations := traverse parse_id allocation_ids in
  let? workload := parse_workload (i_kind intent) in
  let? version := invariant_err "invalid protocol version" (ProtocolVersion_new 1) in
  let? key := invariant_err "invalid command idempotency key"
                (IdempotencyKey_parse (prepare_key placement_id)) in
  let? issued := invariant_err "invalid command issue timestamp"
                   (WireTimestamp_from_millis (issued - COMMAND_CLOCK_SKEW_MILLIS)) in
  let? deadline := invariant_err "invalid command deadline"
                     (WireTimestamp_from_millis deadline) in
  Ok {| protocol_version := version; command_id := command; operation_id := operation_id;
        idempotency_key := key; host_id := host; host_epoch := epoch;
        control_plane_incarnation := incarnation; authority_session_id := session;
        scope := ScopePlacement placement_id backend generation;
        expected_revision := revision; issued_at := issued; deadline_at := deadline;
        request_hash := "";
        operation := OpPrepareEnvironment
          {| pe_execution_profile_id := profile_id; pe_profile_revision := revision;
             pe_workload := workload; pe_target := target; pe_runtime_kind := runtime_kind;
             pe_execution_os := execution_os; pe_architecture := architecture;
             pe_mode := mode; pe_image := image; pe_labels := labels;
             pe_configuration := configuration; pe_resource_request := resources;
             pe_allocation_ids := allocations |} |}.

(** [AUTOINCREMENT]: one past the largest cursor ever used. *)
Definition next_cursor (w : Work) : Z :=
  1 + fold_right (λ c m, Z.max (c_cursor c) m) 0 (host_commands w).

Definition insert_command (w : Work) (row : CommandRow) : Result Work FleetError :=
  if exists_row (λ c, String.eqb (c_id c) (c_id row)) (host_commands w)
     || exists_row (λ c, String.eqb (c_host_id c) (c_host_id row)
                         && String.eqb (c_idempotency_key c) (c_idempotency_key row))
          (host_commands w)
  then Err Database else Ok (set_commands w (host_commands w ++ [row])).

Definition prepare_command (w : Work) (intent : IntentRow) (c : Candidate) (placement : Uuid)
    (command : Uuid) (sealed : AgentCommandEnvelope) (now deadline : Z) : CommandRow :=
  {| c_cursor := next_cursor w; c_id := to_string command; c_operation_id := i_id intent;
     c_placement_id := Some (to_string placement); c_host_id := ca_host c;
     c_backend_id := Some (ca_backend c); c_host_epoch := ca_epoch c;
     c_generation := Some (i_generation intent); c_kind := "prepare_environment";
     c_state := CsPending; c_request_hash := request_hash sealed; c_payload := sealed;
     c_expected_revision := ca_profile_revision c; c_issued_at := now; c_deadline_at := deadline;
     c_attempt_count := 0; c_idempotency_key := prepare_key placement |}.

Definition insert_admission (w : Work) (intent : IntentRow) (c : Candidate) (draws : Draws)
    (now : Z) : Result Work FleetError :=
  let? placement := admission_id (dr_placement draws) in
  let? _ := effective_configuration c in
  let? w1 := insert_placement w (new_placement placement intent c now) c in
  let? path := domain_path p (ca_domain c) (ca_host c) in
  let? st := try_fold (insert_allocation draws placement c now) (w1, []) path in
  let '(w2, ids) := st in
  let? deadline := ok_or (Invariant "prepare deadline overflow") (i64_checked_add now 1200000) in
  let? envelope := build_prepare_envelope intent c placement (dr_command draws)
                     (to_string <$> ids) now deadline in
  let? sealed := invariant_err "invalid prepare command envelope" (seal_hash envelope) in
  let? w3 := insert_command w2 (prepare_command w2 intent c placement (dr_command draws) sealed
                                  now deadline) in
  let w4 := set_intents w3 (update_where (λ i, String.eqb (i_id i) (i_id intent))
                              (i_set IntentAdmitted None now) (workload_intents w3)) in
  let w5 := set_operations w4 (update_where
              (λ o, String.eqb (o_id o) (i_id intent) && bool_decide (o_status o = OpQueued))
              (o_set OpRunning None now) (fleet_operations w4)) in
  Ok (add_event w5 (to_string placement) "placement_admitted" now).

(** The loop over the candidates, [last] being [last_reason]. *)
Fixpoint try_candidates (w : Work) (intent : IntentRow) (now : Z) (clock : nat → Z)
    (draws : Draws) (last : option string) (cs : list Candidate)
    : Result (Work * AdmissionOutcome) FleetError :=
  match cs with
  | [] => Ok (persist_rejection w (i_id intent)
                (match last with Some reason => reason | None => diagnose p intent now end) now,
              Queued)
  | c :: cs =>
      let again reason := try_candidates w intent now (λ n, clock (S n)) draws (Some reason) cs in
      let? incompatible := candidate_compatible p intent c (clock O) in
      match incompatible with
      | Some reason => again reason
      | None =>
          let? room := pool_has_capacity p w intent in
          if negb room
          then again (if String.eqb (i_kind intent) (WorkloadKind_as_str FixSandbox)
                      then "physical_resource_exhausted" else "pool_capacity_exhausted")
          else
            let? refusal := domains_fit p w c in
            match refusal with
            | Some reason => again reason
            | None => let? w' := insert_admission w intent c draws now in Ok (w', OutcomeAdmitted)
            end
      end
  end.

Definition admit_operation (w : Work) (controller : Principal) (operation_id : string) (now : Z)
    (clock : nat → Z) (draws : Draws) : Result (Work * AdmissionOutcome) FleetError :=
  if negb (is_controller controller) then Err Forbidden else
  let? intent := ok_or NotFound (intent_for_operation w operation_id) in
  let? op := ok_or NotFound (operation_by_id w operation_id) in
  if negb (bool_decide (i_status intent = IntentQueued))
     || negb (bool_decide (o_status op = OpQueued)) then Ok (w, Noop) else
  match recheck_intent_authorization p w controller intent with
  | Err e => if is_durable_candidate_error e
             then Ok (persist_rejection w (i_id intent) (reason_code e) now, Queued) else Err e
  | Ok _ =>
      match ensure_control_plane_ready p with
      | Err (QueuedBecause reason) => Ok (persist_rejection w (i_id intent) reason now, Queued)
      | Err e => Err e
      | Ok _ =>
          match pool_refusal p (i_pool_id intent) with
          | Some reason => Ok (persist_rejection w (i_id intent) reason now, Queued)
          | None =>
              let? cs := candidates p w intent now in
              try_candidates w intent now clock draws None cs
          end
      end
  end.

(** *** The scheduling slice *)
Definition prioritised (i : IntentRow) (now : Z) : bool :=
  exists_row (λ t, String.eqb (t_id t) (i_target_id i)
      && exists_row (λ f, String.eqb (rpp_pool_id f) (i_pool_id i)
           && eq_sql (Some (rpp_repository_id f)) (t_repository_id t))
           (runner_pool_priority_repositories p)) (fleet_ci_targets p)
  || exists_row (λ t, String.eqb (t_id t) (i_target_id i)
      && exists_row (λ wr, eq_sql (Some (wr_repository_id wr)) (t_repository_id t)
           && existsb (String.eqb (wr_status wr))
                ["requested"; "queued"; "pending"; "waiting"; "in_progress"]
           && exists_row (λ wj, (wj_run_id wj =? wr_id wr) && String.eqb (wj_status wj) "queued"
                && (wj_created_at wj <=? now - 60000 *
                      default 10 (rpw_wait_minutes <$> fetch (λ q, String.eqb (rpw_pool_id q)
                        (i_pool_id i)) (runner_pool_priorities p)))) (workflow_jobs p))
           (workflow_runs p)) (fleet_ci_targets p).

(** [i.created_at, i.id]. *)
Definition age_le : IntentRow → IntentRow → bool :=
  lex_le i_created_at (λ a b, String.leb (i_id a) (i_id b)).

(** [CASE WHEN ... THEN 0 ELSE 1 END, i.created_at, i.id]. *)
Definition priority_le (now : Z) : IntentRow → IntentRow → bool :=
  lex_le (λ i, if prioritised i now then 0 else 1) age_le.

Definition waiting (w : Work) : list IntentRow :=
  select (λ i, bool_decide (i_status i = IntentQueued)
               && negb (exists_row (λ pl, String.eqb (pl_intent_id pl) (i_id i))
                          (workload_placements w))) (workload_intents w).

(** [ROW_NUMBER() OVER (PARTITION BY pool_id ORDER BY ...)]: the intents of
    its pool that come before it. *)
Definition turn (w : Work) (now : Z) (i : IntentRow) : Z :=
  count_rows (λ j, String.eqb (i_pool_id j) (i_pool_id i)
                   && negb (priority_le now i j && negb (String.eqb (i_id j) (i_id i)))) (waiting w).

Definition turn_le (w : Work) (now : Z) : IntentRow → IntentRow → bool :=
  lex_le (turn w now) age_le.

Definition slice (w : Work) (now limit : Z) : list IntentRow :=
  take (Z.to_nat limit) (order_by (turn_le w now) (waiting w)).

(** What each transaction of a slice sees and draws. *)
Record Moment := { m_now : Z; m_clock : nat → Z; m_draws : Draws }.

(** Earlier transactions stay committed when a later one fails. *)
Fixpoint run_slice_loop (w : Work) (controller : Principal) (moments : nat → Moment)
    (report : SliceReport) (rows : list IntentRow) : Work * Result SliceReport FleetError :=
  match rows with
  | [] => (w, Ok report)
  | i :: rows =>
      let m := moments O in
      match admit_operation w controller (i_id i) (m_now m) (m_clock m) (m_draws m) with
      | Err e => (w, Err e)
      | Ok (w', outcome) =>
          let report' := match outcome with
            | OutcomeAdmitted => {| scanned := scanned report; admitted := admitted report + 1;
                             queued := queued report |}
            | Queued => {| scanned := scanned report; admitted := admitted report;
                           queued := queued report + 1 |}
            | Noop => report
            end in
          run_slice_loop w' controller (λ n, moments (S n)) report' rows
      end
  end.

Definition run_slice (w : Work) (controller : Principal) (limit now : Z) (moments : nat → Moment)
    : Work * Result SliceReport FleetError :=
  if negb (is_controller controller) then (w, Err Forbidden) else
  let rows := slice w now limit in
  run_slice_loop w controller moments
    {| scanned := Z.of_nat (length rows); admitted := 0; queued := 0 |} rows.

(** [FleetService::admit_queued]. *)
Definition admit_queued (w : Work) (controller : Principal) (limit now : Z)
    (moments : nat → Moment) : Work * Result SliceReport FleetError :=
  match ScanLimit_new limit with
  | Err e => (w, Err e)
  | Ok limit => run_slice w controller limit now moments
  end.
End admission.
