(* ===== verification/AdmissionSpec.v ===== *)
(** * What admission guarantees

    The specification of [Admission]: budgets are sums of resource amounts,
    the domain path is a chain of parents, and an admission is one placement
    with one charge on every domain of its path.  The theorems show that the
    code of [admission.rs] keeps every budget, pool and session limit. *)
From S2P Require Import Prelude Base64 Ids Domain Protocol Outcomes Capabilities Store Service Admission.
#[local] Open Scope string_scope.
#[local] Open Scope Z_scope.

(** ** The domain path *)

(** [ds] starts at the domain named [leaf], goes from each domain to its
    parent and ends at one without a parent. *)
Inductive chain : option string → list DomainRow → Prop :=
| chain_root : chain None []
| chain_step id d ds : d_id d = id → chain (d_parent_domain_id d) ds → chain (Some id) (d :: ds).
#[export] Hint Constructors chain : fleet.

Definition domain_row (p : Policy) (host : string) (d : DomainRow) : Prop :=
  fetch (λ d', String.eqb (d_id d') (d_id d) && String.eqb (d_host_id d') host)
    (host_resource_domains p) = Some d.

Lemma domain_row_spec p host d :
  domain_row p host d → d ∈ host_resource_domains p ∧ d_host_id d = host.
Proof. intros [Hin Hb]%fetch_Some. bool_to_prop. done. Qed.

Lemma domain_row_fetch p host d id :
  d_id d = id → domain_row p host d →
  fetch (λ d', String.eqb (d_id d') id && String.eqb (d_host_id d') host)
    (host_resource_domains p) = Some d.
Proof. by intros <-. Qed.

Lemma domain_path_loop_Ok p remaining host result seen current path :
  domain_path_loop p remaining host result seen current = Ok path ↔
  ∃ ds, path = (result ++ ds)%list ∧ chain current ds ∧ Forall (domain_row p host) ds
    ∧ (length ds ≤ remaining)%nat ∧ NoDup (d_id <$> ds) ∧ ∀ d, d ∈ ds → d_id d ∉ seen.
Proof.
  revert result seen current.
  induction remaining as [|n IH]; intros result seen [id|]; simpl.
  - split; [done|]. intros (ds & _ & Hc & _ & Hl & _). inversion Hc; subst. simpl in Hl. lia.
  - split.
    + intros [= <-]. exists []. rewrite app_nil_r. split_and!; eauto with fleet; by constructor || set_solver.
    + intros (ds & -> & Hc & _). inversion Hc. by rewrite app_nil_r.
  - destruct (bool_decide (id ∈ seen)) eqn:Es; bool_to_prop.
    { split; [done|]. intros (ds & _ & Hc & _ & _ & _ & Hs). inversion Hc; subst.
      exfalso. eapply Hs; [constructor|done]. }
    destruct (fetch _ _) as [row|] eqn:Ef.
    + pose proof Ef as [_ Hrow]%fetch_Some. bool_to_prop. rewrite IH. split.
      * intros (ds & -> & Hc & Hr & Hl & Hnd & Hs). exists (row :: ds). split_and!.
        -- by rewrite <-app_assoc.
        -- by constructor.
        -- constructor; [|done]. unfold domain_row. by subst.
        -- simpl. lia.
        -- simpl. constructor; [|done]. intros (d & Hd & Hin)%list_elem_of_fmap.
           apply (Hs d); [done|]. rewrite <-Hd. subst. constructor.
        -- intros d [->|Hin]%elem_of_cons; [by subst|]. intros Hd. apply (Hs d Hin). by constructor.
      * intros (ds & -> & Hc & Hr & Hl & Hnd & Hs). inversion Hc as [|? d ds' Hd Hc']; subst ds.
        inversion Hr as [|? ? Hd1 Hr']; subst x l. apply (domain_row_fetch _ _ _ id) in Hd1; [|done].
        rewrite Ef in Hd1. injection Hd1 as ->. simpl in *. apply NoDup_cons in Hnd as [Hni Hnd].
        exists ds'. split_and!; [by rewrite <-app_assoc|done|done|lia|done|].
        intros e He [Heq|Hin]%elem_of_cons.
        -- apply Hni, list_elem_of_fmap. exists e. split; [congruence|done].
        -- eapply Hs; [|exact Hin]. by constructor.
    + split; [done|]. intros (ds & _ & Hc & Hr & _). inversion Hc as [|? d ds' Hd Hc']; subst ds.
      inversion Hr as [|? ? Hd1 _]; subst. apply (domain_row_fetch _ _ _ (d_id d)) in Hd1; congruence.
  - split.
    + intros [= <-]. exists []. rewrite app_nil_r. split_and!; eauto with fleet; try constructor; [simpl; lia|set_solver].
    + intros (ds & -> & Hc & _). inversion Hc. by rewrite app_nil_r.
Qed.

Lemma domain_path_Ok p leaf host path :
  domain_path p leaf host = Ok path ↔
  chain (Some leaf) path ∧ Forall (domain_row p host) path
  ∧ Z.of_nat (length path) ≤ MAX_RESOURCE_DOMAIN_DEPTH ∧ NoDup (d_id <$> path).
Proof.
  unfold domain_path. rewrite domain_path_loop_Ok. unfold MAX_RESOURCE_DOMAIN_DEPTH. split.
  - intros (ds & -> & ? & ? & ? & ? & _). simpl. split_and!; done || lia.
  - intros (? & ? & ? & ?). exists path. split_and!; try done; [lia|set_solver].
Qed.

(** [domain_path] succeeds exactly on the chains of parents from the leaf
    to a root inside one host that have at most 64 domains and no repetition,
    and returns that chain; in particular it terminates on a cyclic
    topology, with an error. *)
Theorem domain_path_spec (p : Policy) (leaf host : string) (path : list DomainRow) :
  domain_path p leaf host = Ok path ↔
  chain (Some leaf) path ∧ Forall (domain_row p host) path
  ∧ Z.of_nat (length path) ≤ MAX_RESOURCE_DOMAIN_DEPTH ∧ NoDup (d_id <$> path).
Proof. apply domain_path_Ok. Qed.

(** ** Budgets as sums *)
Definition charge (a : AllocationRow) : ResourceAmount :=
  {| ra_cpu_millis := a_cpu_millis a; ra_memory_mib := a_memory_mib a;
     ra_disk_bytes := a_disk_bytes a |}.

Definition total (l : list AllocationRow) : ResourceAmount :=
  {| ra_cpu_millis := sum_rows a_cpu_millis l; ra_memory_mib := sum_rows a_memory_mib l;
     ra_disk_bytes := sum_rows a_disk_bytes l |}.

(** What is charged to a domain of a host and not released. *)
Definition usage (w : Work) (domain host : string) : ResourceAmount :=
  total (select (live_on domain host) (capacity_allocations w)).

Definition budget (d : DomainRow) : ResourceAmount :=
  {| ra_cpu_millis := d_cpu_millis d; ra_memory_mib := d_memory_mib d;
     ra_disk_bytes := d_disk_bytes d |}.

Definition demand (c : Candidate) : ResourceAmount :=
  {| ra_cpu_millis := ca_cpu_millis c; ra_memory_mib := ca_memory_mib c;
     ra_disk_bytes := ca_disk_bytes c |}.

Lemma amount_plus_assoc a b c : amount_plus a (amount_plus b c) = amount_plus (amount_plus a b) c.
Proof. unfold amount_plus. simpl. f_equal; lia. Qed.

Lemma amount_plus_zero_l a : amount_plus ResourceAmount_ZERO a = a.
Proof. by destruct a. Qed.

Lemma amount_plus_zero_r a : amount_plus a ResourceAmount_ZERO = a.
Proof. destruct a. unfold amount_plus. simpl. f_equal; lia. Qed.

Lemma total_cons a l : total (a :: l) = amount_plus (charge a) (total l).
Proof. done. Qed.

Lemma total_app l l' : total (l ++ l') = amount_plus (total l) (total l').
Proof. unfold total, amount_plus. simpl. by rewrite !sum_rows_app. Qed.

Lemma amount_from_db_Ok neg bounds c m d a :
  amount_from_db neg bounds c m d = Ok a →
  a = {| ra_cpu_millis := c; ra_memory_mib := m; ra_disk_bytes := d |} ∧ amount_wf a.
Proof.
  unfold amount_from_db, u64_try_from, invariant_err. intros E. inv_result. bool_to_prop.
  apply ResourceAmount_new_Ok in E as (-> & ?). split; [done|]. unfold amount_wf. simpl. lia.
Qed.

Lemma add_allocations_Ok l z s :
  amount_wf z → try_fold add_allocation z l = Ok s → s = amount_plus z (total l) ∧ amount_wf s.
Proof.
  revert z. induction l as [|a l IH]; intros z Hz E; simpl in E.
  - injection E as <-. by rewrite amount_plus_zero_r.
  - apply bind_Ok in E as (z' & E1 & E). unfold add_allocation, invariant_err in E1. inv_result.
    apply amount_from_db_Ok in Hx as [-> Hw]. apply checked_add_amount_Ok in E1 as [-> Hz']; [|done..].
    apply IH in E as [-> ?]; [|done]. rewrite total_cons, amount_plus_assoc. done.
Qed.

Lemma fits_request_true a r : fits_request a r = true ↔ amount_le r a.
Proof. unfold fits_request, amount_le. rewrite !andb_true_iff, !Z.leb_le. tauto. Qed.

Lemma amount_wf_zero : amount_wf ResourceAmount_ZERO.
Proof. unfold_resources. lia. Qed.
#[export] Hint Resolve amount_wf_zero : fleet.

Lemma domain_fits_None w host r d :
  domain_fits w host r d = Ok None →
  amount_le (amount_plus (usage w (d_id d) host) r) (budget d).
Proof.
  unfold domain_fits. intros E. apply bind_Ok in E as (agg & Ha & E). apply bind_Ok in E as (cap & Hc & E).
  apply add_allocations_Ok in Ha as [-> Hwa]; [|by auto with fleet].
  apply amount_from_db_Ok in Hc as [-> Hwc]. rewrite amount_plus_zero_l in *.
  destruct (ResourceAmount_checked_sub _ _) as [remaining|] eqn:Es; [|done].
  apply checked_sub_amount_Ok in Es as [Hs Hr]; [|done..].
  destruct (fits_request remaining r) eqn:Ef; [|done]. apply fits_request_true in Ef.
  fold (budget d) in Hs. rewrite Hs. unfold usage. unfold amount_le, amount_plus in *. simpl in *. lia.
Qed.

Lemma domains_fit_loop_None w host r path :
  domains_fit_loop w host r path = Ok None →
  Forall (λ d, amount_le (amount_plus (usage w (d_id d) host) r) (budget d)) path.
Proof.
  induction path as [|d path IH]; simpl; intros E; [done|].
  apply bind_Ok in E as ([reason|] & Hd & E); [done|].
  constructor; [by apply domain_fits_None|by apply IH].
Qed.

Lemma domains_fit_None p w c :
  domains_fit p w c = Ok None →
  ∃ path, domain_path p (ca_domain c) (ca_host c) = Ok path
    ∧ Forall (λ d, amount_le (amount_plus (usage w (d_id d) (ca_host c)) (demand c)) (budget d)) path.
Proof.
  unfold domains_fit, u64_try_from, invariant_err. intros E. inv_result. exists x. split; [done|].
  apply ResourceAmount_new_Ok in Hx3 as [-> _]. by apply domains_fit_loop_None.
Qed.

(** ** The rows an admission writes *)
Lemma insert_allocations_Ok `{UuidText} draws placement c now path w ids w' ids' :
  try_fold (insert_allocation draws placement c now) (w, ids) path = Ok (w', ids') →
  ∃ new, ids' = (ids ++ new)%list ∧ length new = length path
    ∧ w' = set_allocations w (capacity_allocations w
             ++ zip_with (λ id d, new_allocation id placement c now d) new path)%list.
Proof.
  revert w ids. induction path as [|d path IH]; intros w ids E; simpl in E.
  - injection E as <- <-. exists []. rewrite !app_nil_r. by destruct w.
  - apply bind_Ok in E as ([w1 ids1] & E1 & E). unfold insert_allocation in E1. inv_result.
    simplify_eq. apply IH in E as (new & -> & Hl & ->).
    exists (x :: new). simpl. rewrite <-!app_assoc. simpl. auto.
Qed.

Lemma zip_allocations_total `{UuidText} placement c now domain host new path :
  length new = length path → NoDup (d_id <$> path) →
  total (select (live_on domain host)
           (zip_with (λ id d, new_allocation id placement c now d) new path))
  = if bool_decide (host = ca_host c ∧ domain ∈ d_id <$> path) then demand c
    else ResourceAmount_ZERO.
Proof.
  revert new. induction path as [|d path IH]; intros [|id new] Hl Hnd; simplify_eq/=.
  - rewrite bool_decide_false; [done|set_solver].
  - apply NoDup_cons in Hnd as [Hni Hnd]. specialize (IH new ltac:(lia) Hnd).
    unfold live_on at 1. simpl. rewrite andb_true_r.
    destruct (String.eqb_spec (d_id d) domain) as [<-|Hd], (String.eqb_spec (ca_host c) host) as [<-|Hh];
      simpl.
    + rewrite total_cons, IH. rewrite bool_decide_false by tauto.
      rewrite bool_decide_true by set_solver. apply amount_plus_zero_r.
    + rewrite IH. rewrite !bool_decide_false by naive_solver. done.
    + rewrite IH. rewrite (bool_decide_ext _ (ca_host c = ca_host c ∧ domain ∈ d_id d :: (d_id <$> path)));
        [done|]. rewrite elem_of_cons. naive_solver.
    + rewrite IH. rewrite !bool_decide_false by naive_solver. done.
Qed.

Section spec.
Context `{UuidText, Codec} (p : Policy).

(** What [insert_admission] leaves in the database. *)
Record admission_rows (w w' : Work) (intent : IntentRow) (c : Candidate) (draws : Draws)
    (now : Z) : Prop := {
  ar_placement : workload_placements w'
    = (workload_placements w ++ [new_placement (dr_placement draws) intent c now])%list;
  ar_fresh : ∀ pl, pl ∈ workload_placements w →
    pl_id pl ≠ to_string (dr_placement draws) ∧ pl_intent_id pl ≠ i_id intent;
  ar_charge : 0 < ca_cpu_millis c ∧ 0 < ca_memory_mib c ∧ 0 ≤ ca_disk_bytes c;
  ar_allocations : ∃ path ids, domain_path p (ca_domain c) (ca_host c) = Ok path
    ∧ length ids = length path
    ∧ capacity_allocations w' = (capacity_allocations w ++ zip_with
        (λ id d, new_allocation id (dr_placement draws) c now d) ids path)%list
    ∧ ∃ envelope sealed,
        build_prepare_envelope p intent c (dr_placement draws) (dr_command draws)
          (to_string <$> ids) now (now + 1200000) = Ok envelope
        ∧ seal_hash envelope = Ok sealed
        ∧ host_commands w' = (host_commands w ++ [prepare_command w intent c (dr_placement draws)
            (dr_command draws) sealed now (now + 1200000)])%list;
  ar_command_fresh : ∀ cmd, cmd ∈ host_commands w → c_id cmd ≠ to_string (dr_command draws);
  ar_intents : workload_intents w' = update_where (λ i, String.eqb (i_id i) (i_id intent))
                 (i_set IntentAdmitted None now) (workload_intents w);
  ar_operations : fleet_operations w' = update_where
    (λ o, String.eqb (o_id o) (i_id intent) && bool_decide (o_status o = OpQueued))
    (o_set OpRunning None now) (fleet_operations w);
  ar_rest : host_command_attempts w' = host_command_attempts w
    ∧ host_command_results w' = host_command_results w
    ∧ fleet_bootstrap_material w' = fleet_bootstrap_material w }.

Lemma insert_placement_Ok w pl c w' :
  insert_placement w pl c = Ok w' →
  w' = set_placements w (workload_placements w ++ [pl])%list
  ∧ (∀ q, q ∈ workload_placements w → pl_id q ≠ pl_id pl ∧ pl_intent_id q ≠ pl_intent_id pl)
  ∧ 0 < ca_cpu_millis c ∧ 0 < ca_memory_mib c ∧ 0 ≤ ca_disk_bytes c.
Proof.
  unfold insert_placement, charge_check. intros E. inv_result. bool_to_prop. split; [done|].
  split; [|done]. rewrite !no_row_named in *. auto.
Qed.

Lemma insert_command_Ok w row w' :
  insert_command w row = Ok w' →
  w' = set_commands w (host_commands w ++ [row])%list
  ∧ ∀ c, c ∈ host_commands w → c_id c ≠ c_id row.
Proof.
  unfold insert_command. intros E. inv_result. bool_to_prop. rewrite no_row_named in *. auto.
Qed.

Lemma i64_checked_add_Some a b s : i64_checked_add a b = Some s → s = a + b.
Proof. unfold i64_checked_add. case_match; congruence. Qed.

Lemma insert_admission_Ok w intent c draws now w' :
  insert_admission p w intent c draws now = Ok w' → admission_rows w w' intent c draws now.
Proof.
  unfold insert_admission, admission_id, invariant_err. intros E.
  apply bind_Ok in E as (placement & E1 & E). apply bind_Ok in E as (conf & _ & E).
  apply bind_Ok in E as (w1 & E2 & E). apply bind_Ok in E as (path & E3 & E).
  apply bind_Ok in E as ([w2 ids] & E4 & E). apply bind_Ok in E as (deadline & E5 & E).
  apply bind_Ok in E as (envelope & E6 & E). apply bind_Ok in E as (sealed & E7 & E).
  apply bind_Ok in E as (w3 & E8 & E). injection E as <-.
  apply map_err_Ok, fleet_uuid_try_new_Ok in E1 as [-> _]. apply map_err_Ok in E7.
  apply insert_placement_Ok in E2 as (-> & Hf & Hc).
  apply insert_allocations_Ok in E4 as (new & -> & Hl & ->).
  apply ok_or_Ok, i64_checked_add_Some in E5 as ->. apply insert_command_Ok in E8 as (-> & Hcf).
  split; simpl; try done. eauto 10.
Qed.

(** The ways an admission attempt can end. *)
Definition admitted_by (w w' : Work) (operation_id : string) (now : Z) (draws : Draws) : Prop :=
  ∃ intent c cs clock,
    intent_for_operation w operation_id = Some intent
    ∧ i_status intent = IntentQueued
    ∧ candidates p w intent now = Ok cs ∧ c ∈ cs
    ∧ candidate_compatible p intent c clock = Ok None
    ∧ pool_has_capacity p w intent = Ok true
    ∧ domains_fit p w c = Ok None
    ∧ insert_admission p w intent c draws now = Ok w'.

Lemma try_candidates_Ok w intent now clock draws last cs w' outcome :
  try_candidates p w intent now clock draws last cs = Ok (w', outcome) →
  (outcome = Queued ∧ ∃ reason, w' = persist_rejection w (i_id intent) reason now)
  ∨ (outcome = OutcomeAdmitted ∧ ∃ c t, c ∈ cs ∧ candidate_compatible p intent c t = Ok None
     ∧ pool_has_capacity p w intent = Ok true ∧ domains_fit p w c = Ok None
     ∧ insert_admission p w intent c draws now = Ok w').
Proof.
  revert clock last. induction cs as [|c cs IH]; intros clock last E; simpl in E.
  { injection E as <- <-. left. eauto. }
  assert (∀ clock last, try_candidates p w intent now clock draws last cs = Ok (w', outcome) →
    (outcome = Queued ∧ ∃ reason, w' = persist_rejection w (i_id intent) reason now)
    ∨ (outcome = OutcomeAdmitted ∧ ∃ c' t, c' ∈ c :: cs ∧ candidate_compatible p intent c' t = Ok None
     ∧ pool_has_capacity p w intent = Ok true ∧ domains_fit p w c' = Ok None
     ∧ insert_admission p w intent c' draws now = Ok w')) as Hagain.
  { intros clock' last' [?|(? & c' & t & ? & ?)]%IH; [by left|].
    right. split; [done|]. exists c', t. split; [by constructor|done]. }
  apply bind_Ok in E as ([reason|] & E1 & E); [by eapply Hagain|].
  apply bind_Ok in E as (room & E2 & E). destruct room; simpl in E; [|by eapply Hagain].
  apply bind_Ok in E as ([reason|] & E3 & E); [by eapply Hagain|].
  inv_result. right. split; [congruence|]. exists c, (clock O). split; [constructor|].
  simplify_eq. done.
Qed.

Lemma intent_for_operation_Some w id i :
  intent_for_operation w id = Some i → i ∈ workload_intents w ∧ i_id i = id.
Proof. unfold intent_for_operation. intros [? ?]%fetch_Some. bool_to_prop. done. Qed.

Lemma admit_operation_Ok w controller id now clock draws w' outcome :
  admit_operation p w controller id now clock draws = Ok (w', outcome) →
  is_controller controller = true ∧
  match outcome with
  | Noop => w' = w
  | Queued => ∃ reason, w' = persist_rejection w id reason now
  | OutcomeAdmitted => admitted_by w w' id now draws
  end.
Proof.
  unfold admit_operation. intros E.
  destruct (is_controller controller); [|done]. simpl in E. split; [done|].
  apply bind_Ok in E as (intent & E1%ok_or_Ok & E). apply bind_Ok in E as (op & _ & E).
  pose proof E1 as [_ Hid]%intent_for_operation_Some. subst id.
  destruct (negb _ || negb _) eqn:Es; [by simplify_eq|]. bool_to_prop.
  destruct (recheck_intent_authorization _ _ _ _) as [u|e].
  2:{ destruct (is_durable_candidate_error e); simplify_eq. eauto. }
  destruct (ensure_control_plane_ready p) as [u'|[]]; simplify_eq; [|eauto].
  destruct (pool_refusal _ _); simplify_eq; [eauto|].
  apply bind_Ok in E as (cs & Ecs & E).
  apply try_candidates_Ok in E as [[-> ?]|[-> (c & t & ? & ? & ? & ? & ?)]]; [done|].
  exists intent, c, cs, t. split_and!; done.
Qed.

(** *** Resource budgets *)
Lemma admission_usage w w' intent c draws now domain host :
  admission_rows w w' intent c draws now →
  ∃ path, domain_path p (ca_domain c) (ca_host c) = Ok path
    ∧ usage w' domain host = amount_plus (usage w domain host)
        (if bool_decide (host = ca_host c ∧ domain ∈ d_id <$> path) then demand c
         else ResourceAmount_ZERO).
Proof.
  intros [_ _ _ (path & ids & Hp & Hl & Ha & _) _ _ _ _]. exists path. split; [done|].
  unfold usage. rewrite Ha, select_app, total_app. f_equal.
  apply zip_allocations_total; [done|]. by apply domain_path_Ok in Hp as (_ & _ & _ & ?).
Qed.

Definition domain_safe (w w' : Work) (d : DomainRow) : Prop :=
  usage w' (d_id d) (d_host_id d) = usage w (d_id d) (d_host_id d)
  ∨ amount_le (usage w' (d_id d) (d_host_id d)) (budget d).

Lemma domain_safe_trans w1 w2 w3 d : domain_safe w1 w2 d → domain_safe w2 w3 d → domain_safe w1 w3 d.
Proof. intros [E1|L1] [E2|L2]; unfold domain_safe; rewrite ?E2, ?E1 in *; auto. Qed.

(** An admission charges a domain only as far as its budget allows. *)
Lemma admit_usage w controller id now clock draws w' outcome domain host :
  admit_operation p w controller id now clock draws = Ok (w', outcome) →
  usage w' domain host = usage w domain host
  ∨ ∃ d, d ∈ host_resource_domains p ∧ d_id d = domain ∧ d_host_id d = host
      ∧ amount_le (usage w' domain host) (budget d).
Proof.
  intros [_ E]%admit_operation_Ok. destruct outcome; [|by destruct E as [reason ->]; left|by subst; left].
  destruct E as (intent & c & cs & t & _ & _ & _ & _ & _ & _ & Hfit & Hins).
  apply insert_admission_Ok in Hins.
  destruct (admission_usage _ _ _ _ _ _ domain host Hins) as (path & Hp & Hu).
  apply domains_fit_None in Hfit as (path' & Hp' & Hfit).
  assert (path' = path) as -> by congruence.
  case_bool_decide as Hb; [|left; by rewrite Hu, amount_plus_zero_r].
  destruct Hb as [-> (d & -> & Hin)%list_elem_of_fmap]. right. exists d. rewrite Hu.
  rewrite Forall_forall in Hfit. specialize (Hfit d Hin).
  apply domain_path_Ok in Hp as (_ & Hrows & _). rewrite Forall_forall in Hrows.
  apply Hrows, domain_row_spec in Hin as [? ?]. by split_and!.
Qed.

Lemma admit_domain_safe w controller id now clock draws w' outcome d :
  NoDup (d_id <$> host_resource_domains p) → d ∈ host_resource_domains p →
  admit_operation p w controller id now clock draws = Ok (w', outcome) → domain_safe w w' d.
Proof.
  intros Hnd Hd E. destruct (admit_usage _ _ _ _ _ _ _ _ (d_id d) (d_host_id d) E) as [?|(d' & Hin & Hid & _ & Hle)];
    [by left|right]. by assert (d' = d) as -> by (by eapply unique_by).
Qed.

(** A scheduling slice never overcommits a resource domain.  After any
    slice, also one that stopped at an error half way, each domain of each
    machine is charged exactly what it was charged before, or no more than
    its CPU, memory and disk budget. *)
Theorem slice_never_overcommits (w : Work) (controller : Principal) (limit now : Z)
    (moments : nat → Moment) (d : DomainRow) :
  NoDup (d_id <$> host_resource_domains p) → d ∈ host_resource_domains p →
  let w' := (run_slice p w controller limit now moments).1 in
  usage w' (d_id d) (d_host_id d) = usage w (d_id d) (d_host_id d)
  ∨ amount_le (usage w' (d_id d) (d_host_id d)) (budget d).
Proof.
  intros Hnd Hd. unfold run_slice. destruct (negb _); [by left|].
  generalize {| scanned := Z.of_nat (length (slice p w now limit)); admitted := 0; queued := 0 |}.
  generalize (slice p w now limit). intros rows. revert w moments.
  induction rows as [|i rows IH]; intros w moments report; simpl; [by left|].
  destruct (admit_operation _ _ _ _ _ _ _) as [[w1 outcome]|e] eqn:E; [|by left].
  eapply domain_safe_trans; [by eapply admit_domain_safe|apply IH].
Qed.

(** *** Pool and session limits *)
Lemma admission_settled w w' intent c draws now pl :
  admission_rows w w' intent c draws now →
  pl_id pl ≠ to_string (dr_placement draws) → absence_settled w' pl = absence_settled w pl.
Proof.
  intros [_ _ _ (path & ids & _ & _ & Ha & _) _ _ _ _] Hne. unfold absence_settled.
  rewrite Ha, exists_row_app. f_equal. f_equal.
  rewrite (proj2 (exists_row_false _ (zip_with _ _ _))); [by rewrite orb_false_r|].
  intros a Ha'. apply andb_false_intro1. apply String.eqb_neq.
  apply list_elem_of_lookup in Ha' as [k Hk]. apply lookup_zip_with_Some in Hk as (? & ? & -> & _ & _).
  simpl. congruence.
Qed.

Lemma admission_managed w w' intent c draws now pool pl :
  admission_rows w w' intent c draws now → pl ∈ workload_placements w →
  managed_in w' pool pl = managed_in w pool pl.
Proof.
  intros Hr Hpl. pose proof Hr as [_ Hf _ _ _ Hi _ _]. unfold managed_in.
  rewrite (admission_settled _ _ _ _ _ _ _ Hr) by (by apply Hf).
  f_equal. rewrite Hi. by apply update_where_exists.
Qed.

Lemma admission_legacy w w' intent c draws now pool :
  admission_rows w w' intent c draws now → legacy_runners p w' pool = legacy_runners p w pool.
Proof.
  intros [Hp _ _ _ _ Hi _ _]. unfold legacy_runners. rewrite Hp, Hi. apply count_rows_ext.
  intros r _. rewrite exists_row_app. simpl. rewrite orb_false_r. f_equal. f_equal.
  by apply update_where_exists.
Qed.

(** Admitting a CI runner never takes its pool past its configured
    maximum: the runners that predate the fleet and the placements that
    still hold something, the new one included, are at most [max_count].
    And the admission adds exactly one. *)
Theorem admission_within_pool_maximum (w w' : Work) (controller : Principal) (id : string)
    (now : Z) (clock : nat → Z) (draws : Draws) (i : IntentRow) (q : PoolRow) :
  intent_for_operation w id = Some i → i_kind i = "ci_runner" →
  fetch (λ q, String.eqb (pool_id q) (i_pool_id i)) (runner_pools p) = Some q →
  admit_operation p w controller id now clock draws = Ok (w', OutcomeAdmitted) →
  legacy_runners p w' (i_pool_id i) + managed_runners w' (i_pool_id i) ≤ pool_max_count q
  ∧ managed_runners w' (i_pool_id i) = managed_runners w (i_pool_id i) + 1.
Proof.
  intros Hi Hk Hq [_ E]%admit_operation_Ok.
  destruct E as (intent & c & cs & t & Hi' & _ & _ & _ & _ & Hcap & _ & Hins).
  assert (intent = i) as -> by congruence. apply insert_admission_Ok in Hins.
  unfold pool_has_capacity in Hcap. rewrite Hk, Hq in Hcap. simpl in Hcap.
  apply bind_Ok in Hcap as (n & Hn%ok_or_Ok%i64_checked_add_Some & Hcap).
  injection Hcap as Hcap. apply Z.ltb_lt in Hcap.
  assert (managed_runners w' (i_pool_id i) = managed_runners w (i_pool_id i) + 1) as Hm.
  { unfold managed_runners. rewrite (ar_placement _ _ _ _ _ _ Hins), count_rows_app, count_rows_one.
    rewrite (count_rows_ext (managed_in w' (i_pool_id i)) (managed_in w (i_pool_id i)))
      by (intros; by eapply admission_managed).
    assert (managed_in w' (i_pool_id i) (new_placement (dr_placement draws) i c now) = true) as ->;
      [|done].
    unfold managed_in, absence_settled. simpl. rewrite andb_true_r, (ar_intents _ _ _ _ _ _ Hins).
    rewrite update_where_exists by done. apply exists_row_true. exists i.
    apply intent_for_operation_Some in Hi as [Hin _]. split; [done|].
    by rewrite !String.eqb_refl, Hk. }
  split; [|done]. rewrite (admission_legacy _ _ _ _ _ _ _ Hins), Hm. lia.
Qed.

(** *** Where candidates come from *)

(** The machine, backend, grant and profile a candidate was read from, with
    everything the query demands of them. *)
Record eligible (w : Work) (i : IntentRow) (now : Z) (c : Candidate) (h : HostRow)
    (b : BackendRow) (g : HostTargetGrantRow) (r : ProfileRow) (o : OperationRow) : Prop := {
  el_host : h ∈ fleet_hosts p ∧ host_clause p h now = true;
  el_backend : b ∈ host_backends p ∧ b_host_id b = h_id h ∧ backend_clause b r = true;
  el_grant : g ∈ host_target_grants p ∧ g_host_id g = h_id h ∧ g_target_id g = i_target_id i
             ∧ grant_clause g r = true;
  el_profile : r ∈ pool_execution_profiles p ∧ p_id r = i_profile_id i
               ∧ p_pool_id r = i_pool_id i ∧ profile_clause p i r = true
               ∧ fix_run_clause p w i o r = true;
  el_operation : o ∈ fleet_operations w ∧ o_id o = i_id i ∧ user_clause p i o h = true;
  el_unsuspended : unsuspended_clause p i = true;
  el_candidate : ∃ session, c = match session with
                                | Some s => with_session (row_candidate h b r) s
                                | None => row_candidate h b r
                                end }.

(** The interactive session of a candidate has a free slot. *)
Definition session_free (w : Work) (c : Candidate) : Prop :=
  match ca_session_id c with
  | None => ca_requires_interactive c = false
  | Some id => ca_requires_interactive c = true
      ∧ ∃ s, s ∈ host_sessions p ∧ s_id s = id ∧ s_host_id s = ca_host c
           ∧ s_authorized s = true ∧ session_load w id < s_max_jobs s
  end.

Lemma available_session_Some w intent host now id :
  available_session p w intent host now = Some id →
  ∃ s, s ∈ host_sessions p ∧ s_id s = id ∧ s_host_id s = host ∧ s_authorized s = true
     ∧ session_load w id < s_max_jobs s.
Proof.
  unfold available_session. intros E.
  apply fmap_Some in E as (s & Es & ->). apply order_by_head_elem, elem_of_select in Es as [Hin Hb].
  bool_to_prop. eauto 10.
Qed.

Lemma candidate_rows_eligible w intent now row :
  row ∈ candidate_rows p w intent now →
  ∃ i h b g r o, i ∈ workload_intents w ∧ i_id i = i_id intent ∧ i_status i = IntentQueued
    ∧ rk_candidate row = row_candidate h b r ∧ eligible w i now (rk_candidate row) h b g r o.
Proof.
  unfold candidate_rows, host_rows. intros Hrow.
  apply list_elem_of_bind in Hrow as (i & Hrow & [Hi Hci]%elem_of_select).
  apply list_elem_of_bind in Hrow as (o & Hrow & [Ho Hco]%elem_of_select).
  apply list_elem_of_bind in Hrow as (r & Hrow & [Hr Hcr]%elem_of_select).
  apply list_elem_of_bind in Hrow as (b & Hrow & [Hb Hcb]%elem_of_select).
  apply list_elem_of_bind in Hrow as (h & Hrow & [Hh Hch]%elem_of_select).
  apply list_elem_of_bind in Hrow as (g & Hrow & [Hg Hcg]%elem_of_select).
  apply list_elem_of_singleton in Hrow as ->. bool_to_prop. simpl.
  exists i, h, b, g, r, o. split_and!; try done.
  split; [done..|by split_and!|done|by exists None].
Qed.

Lemma keep_candidate_Ok w intent now kept c kept' c' :
  keep_candidate p w intent now kept c = Ok kept' → c' ∈ kept' →
  c' ∈ kept
  ∨ (ca_requires_interactive c = false ∧ c' = c)
  ∨ (ca_requires_interactive c = true
     ∧ ∃ s, available_session p w intent (ca_host c) now = Some s ∧ c' = with_session c s).
Proof.
  unfold keep_candidate. intros E Hc.
  destruct (ca_requires_interactive c) eqn:Ei;
    [destruct (available_session _ _ _ _ _) as [s|] eqn:Es; simpl in E; [|simplify_eq; by left]|];
    inv_result; (destruct x; [|by left]);
    apply elem_of_app in Hc as [Hc|Hc%list_elem_of_singleton]; [by left| |by left|]; subst c'.
  - right. right. eauto.
  - right. by left.
Qed.

Definition admissible (w : Work) (intent : IntentRow) (now : Z) (c : Candidate) : Prop :=
  session_free w c
  ∧ ∃ i h b g r o, i ∈ workload_intents w ∧ i_id i = i_id intent ∧ i_status i = IntentQueued
      ∧ eligible w i now c h b g r o.

Lemma candidates_Ok w intent now cs c :
  candidates p w intent now = Ok cs → c ∈ cs → admissible w intent now c.
Proof.
  unfold candidates. intros E. revert c.
  eapply (try_fold_ind _ (λ cs, ∀ c, c ∈ cs → admissible w intent now c)); [| |exact E].
  2:{ intros c Hc. by apply not_elem_of_nil in Hc. }
  clear E. intros kept c0 kept' Hin IH E c Hc.
  apply list_elem_of_fmap in Hin as (row & -> & Hrow).
  apply elem_of_order_by, candidate_rows_eligible in Hrow
    as (i & h & b & g & r & o & Hi & Hid & Hq & Hrow & Hel).
  destruct (keep_candidate_Ok _ _ _ _ _ _ _ E Hc) as [?|[[Hn ->]|(Hy & s & Hs & ->)]]; [by apply IH| |].
  - split; [by rewrite Hrow in *|]. exists i, h, b, g, r, o. done.
  - split; [split; [done|]; by apply available_session_Some in Hs|].
    exists i, h, b, g, r, o. split_and!; try done. destruct Hel.
    split; try done. exists (Some s). by rewrite Hrow.
Qed.

(** An interactive session never runs more jobs than it allows: when an
    admission gives a placement a session, the session is authorised, on
    the placement's machine, and the placements it carries, the new one
    included, are at most its [max_jobs]. *)
Theorem admission_within_session_limit (w w' : Work) (controller : Principal) (id session : string)
    (now : Z) (clock : nat → Z) (draws : Draws) (pl : PlacementRow) :
  admit_operation p w controller id now clock draws = Ok (w', OutcomeAdmitted) →
  pl ∈ workload_placements w' → pl_intent_id pl = id → pl_session_id pl = Some session →
  (∀ q, q ∈ workload_placements w → pl_intent_id q ≠ id) →
  ∃ s, s ∈ host_sessions p ∧ s_id s = session ∧ s_host_id s = pl_host_id pl
    ∧ s_authorized s = true ∧ session_load w' session ≤ s_max_jobs s.
Proof.
  intros [_ E]%admit_operation_Ok Hpl Hid Hs Hnew.
  destruct E as (intent & c & cs & t & _ & _ & Hcs & Hc & _ & _ & _ & Hins).
  apply insert_admission_Ok in Hins. destruct (candidates_Ok _ _ _ _ _ Hcs Hc) as [Hfree _].
  rewrite (ar_placement _ _ _ _ _ _ Hins) in Hpl.
  apply elem_of_app in Hpl as [Hpl|Hpl%list_elem_of_singleton]; [by destruct (Hnew pl)|].
  subst pl. simpl in *. unfold session_free in Hfree. rewrite Hs in Hfree.
  destruct Hfree as (_ & s & Hin & Hsid & Hh & Ha & Hload). exists s. split_and!; try done.
  unfold session_load in *. rewrite (ar_placement _ _ _ _ _ _ Hins), count_rows_app, count_rows_one.
  rewrite (count_rows_ext _ (λ pl, eq_sql (pl_session_id pl) (Some session)
    && negb (absence_settled w pl)) (workload_placements w)).
  - case_match; lia.
  - intros q Hq. rewrite (admission_settled _ _ _ _ _ _ _ Hins); [done|].
    by apply (ar_fresh _ _ _ _ _ _ Hins).
Qed.

(** A nullable time that lies within the window before [now]. *)
Definition seen_within (window now : Z) (last : option Z) : Prop :=
  ∃ t, last = Some t ∧ i64_saturating_sub now window < t ≤ now.

(** A machine that may take work for a target right now: approved, active,
    verified and under no pressure; heard of and inventoried in the last 45
    seconds; with authority that has not expired and expires within 90
    seconds; its inventory complete and of its epoch, session and boot; its
    authority from this control plane, which is active. *)
Definition trusted_host (h : HostRow) (now : Z) : Prop :=
  h_enrollment_state h = EnrApproved ∧ h_lifecycle_state h = IntActive
  ∧ h_integrity_state h = Verified ∧ h_pressure_state h = PressureNormal
  ∧ seen_within 45000 now (h_last_heartbeat_at h) ∧ seen_within 45000 now (h_last_inventory_at h)
  ∧ (∃ t, h_authority_expires_at h = Some t ∧ now < t ≤ i64_saturating_add now 90000)
  ∧ h_inventory_complete h = true ∧ h_inventory_epoch h = Some (h_epoch h)
  ∧ is_Some (h_agent_session_id h) ∧ h_inventory_session_id h = h_agent_session_id h
  ∧ is_Some (h_boot_id h) ∧ h_inventory_boot_id h = h_boot_id h
  ∧ ∃ cp, fleet_control_plane p = Some cp ∧ cp_readiness cp = "active"
      ∧ h_authority_incarnation h = Some (cp_incarnation cp).

Lemma fresh_within_true window now last : fresh_within window now last = true → seen_within window now last.
Proof. destruct last; simpl; [|done]. intros. bool_to_prop. by eexists. Qed.

Lemma host_clause_trusted h now : host_clause p h now = true → trusted_host h now.
Proof.
  unfold host_clause, trusted_host. intros Hc. bool_to_prop.
  repeat match goal with
    | H : fresh_within _ _ _ = true |- _ => apply fresh_within_true in H
    | H : eq_sql _ _ = true |- _ => apply eq_sql_true in H as (? & ? & ?)
    end.
  destruct (h_authority_expires_at h); [|done]. bool_to_prop.
  destruct (fleet_control_plane p) as [cp|]; [|done]. bool_to_prop.
  repeat match goal with
    | H : eq_sql _ _ = true |- _ => apply eq_sql_true in H as (? & ? & ?)
    end.
  split_and!; first [done | congruence | by eexists | exists cp; split_and!; congruence].
Qed.

(** C24: A placement is only ever made on a machine that may take it at that
    moment: approved, active, verified, under no pressure, with a heartbeat
    and an inventory of the last 45 seconds, authority from this control plane
    that has not expired and does not outlast the next 90 seconds, and a
    complete inventory of its current epoch, session and boot; with an
    enabled, ready backend of the profile's platform; and with an unrevoked
    grant for the target that covers scheduling, interaction, native execution
    and the Docker socket where the profile needs them. *)
Theorem admission_only_on_trusted_host (w w' : Work) (controller : Principal) (id : string)
    (now : Z) (clock : nat → Z) (draws : Draws) :
  NoDup (i_id <$> workload_intents w) →
  admit_operation p w controller id now clock draws = Ok (w', OutcomeAdmitted) →
  ∃ pl h b g r, workload_placements w' = (workload_placements w ++ [pl])%list
    ∧ pl_intent_id pl = id ∧ pl_state pl = Preparing
    ∧ h ∈ fleet_hosts p ∧ pl_host_id pl = h_id h ∧ pl_host_epoch pl = h_epoch h
    ∧ trusted_host h now
    ∧ b ∈ host_backends p ∧ pl_backend_id pl = b_id b ∧ b_host_id b = h_id h
    ∧ b_enabled b = true ∧ b_readiness b = BackendReady
    ∧ r ∈ pool_execution_profiles p ∧ p_enabled r = true ∧ p_revision r = pl_profile_revision pl
    ∧ b_runtime_kind b = p_runtime_kind r ∧ b_execution_os b = p_execution_os r
    ∧ b_architecture b = p_architecture r
    ∧ g ∈ host_target_grants p ∧ g_host_id g = h_id h ∧ g_target_id g = pl_target_id pl
    ∧ g_allow_schedule g = true ∧ g_revoked_at g = None
    ∧ (p_requires_interactive r = true → g_allow_interactive g = true)
    ∧ (p_runtime_kind r = "native_process" → g_allow_native g = true)
    ∧ (p_requires_docker_socket r = true → g_allow_docker_socket g = true).
Proof.
  intros Hnd [_ E]%admit_operation_Ok.
  destruct E as (intent & c & cs & t & Hint & _ & Hcs & Hc & _ & _ & _ & Hins).
  apply insert_admission_Ok in Hins. apply intent_for_operation_Some in Hint as [Hint Hid].
  destruct (candidates_Ok _ _ _ _ _ Hcs Hc) as (_ & i & h & b & g & r & o & Hi & Hid' & _ & Hel).
  assert (i = intent) as -> by by eapply unique_by.
  destruct Hel as [[Hh Hhc] (Hb & Hbh & Hbc) (Hg & Hgh & Hgt & Hgc) (Hr & _ & _ & Hrc & _) _ _ [s Hs]].
  exists (new_placement (dr_placement draws) intent c now), h, b, g, r.
  unfold backend_clause, grant_clause, profile_clause in *. bool_to_prop.
  split; [apply Hins|]. rewrite Hs. destruct s; simpl;
  (split_and!; try done; [by apply host_clause_trusted|by destruct (g_revoked_at g)|
     intros Hn; by rewrite Hn in *..]).
Qed.

(** *** Outcomes *)
Lemma fetch_update_where {A} (q r : A → bool) (f : A → A) l :
  (∀ a, q (f a) = q a) →
  fetch q (update_where r f l) = (λ a, if r a then f a else a) <$> fetch q l.
Proof.
  intros Hq. induction l as [|a l IH]; simpl; [done|].
  destruct (r a) eqn:Er; rewrite ?Hq; destruct (q a); simpl; rewrite ?Er; done.
Qed.

Lemma admission_status w w' intent c draws now :
  admission_rows w w' intent c draws now → intent_for_operation w (i_id intent) = Some intent →
  ∃ i, intent_for_operation w' (i_id intent) = Some i ∧ i_status i = IntentAdmitted
     ∧ i_pool_id i = i_pool_id intent.
Proof.
  intros Hr Hi. unfold intent_for_operation in *. rewrite (ar_intents _ _ _ _ _ _ Hr).
  rewrite fetch_update_where by done. rewrite Hi. simpl. rewrite String.eqb_refl. by eexists.
Qed.

(** An intent is admitted at most once.  After an admission the intent
    is [admitted] with exactly one placement, and every further attempt at
    it, whatever policy says by then, does nothing. *)
Theorem admitted_once (p' : Policy) (w w' : Work) (controller controller' : Principal)
    (id : string) (now now' : Z) (clock clock' : nat → Z) (draws draws' : Draws) :
  admit_operation p w controller id now clock draws = Ok (w', OutcomeAdmitted) →
  is_controller controller' = true → is_Some (operation_by_id w' id) →
  count_rows (λ pl, String.eqb (pl_intent_id pl) id) (workload_placements w') = 1
  ∧ admit_operation p' w' controller' id now' clock' draws' = Ok (w', Noop).
Proof.
  intros [_ E]%admit_operation_Ok Hctl [op Hop].
  destruct E as (intent & c & cs & t & Hint & _ & _ & _ & _ & _ & _ & Hins).
  apply insert_admission_Ok in Hins. pose proof Hint as [_ Hid]%intent_for_operation_Some. subst id.
  split.
  - rewrite (ar_placement _ _ _ _ _ _ Hins), count_rows_app, count_rows_one. simpl.
    rewrite String.eqb_refl. rewrite (count_rows_ext _ (λ _, false)).
    + unfold count_rows. assert (∀ l : list PlacementRow, select (λ _, false) l = []) as ->; [|done].
      by induction l.
    + intros pl Hpl. apply String.eqb_neq. by apply (ar_fresh _ _ _ _ _ _ Hins).
  - destruct (admission_status _ _ _ _ _ _ Hins Hint) as (i & Hi & Hs & _).
    unfold admit_operation. rewrite Hctl. simpl. rewrite Hi. simpl. rewrite Hop. simpl.
    by rewrite Hs.
Qed.

(** The part of an intent or operation that an attempt may not touch. *)
Definition intent_core (i : IntentRow) : IntentRow := i_set (i_status i) None 0 i.
Definition operation_core (o : OperationRow) : OperationRow := o_set (o_status o) None 0 o.

(** An attempt that does not admit changes nothing but reasons and
    update times: placements, allocations, commands, results and bootstrap
    material are untouched, and intents and operations keep their identity
    and status, so the work stays queued. *)
Theorem queued_changes_only_reasons (w w' : Work) (controller : Principal) (id : string)
    (now : Z) (clock : nat → Z) (draws : Draws) (outcome : AdmissionOutcome) :
  admit_operation p w controller id now clock draws = Ok (w', outcome) → outcome ≠ OutcomeAdmitted →
  workload_placements w' = workload_placements w
  ∧ capacity_allocations w' = capacity_allocations w
  ∧ host_commands w' = host_commands w
  ∧ host_command_results w' = host_command_results w
  ∧ fleet_bootstrap_material w' = fleet_bootstrap_material w
  ∧ intent_core <$> workload_intents w' = intent_core <$> workload_intents w
  ∧ operation_core <$> fleet_operations w' = operation_core <$> fleet_operations w.
Proof.
  intros [_ E]%admit_operation_Ok Hne. destruct outcome; [done| |by subst].
  destruct E as [reason ->]. split_and!; try done; by apply update_where_fmap.
Qed.

(** *** The command an admission issues *)
Lemma counter_from_db_Ok why k v g :
  counter_from_db why (counter_try_from k) v = Ok g → g = v.
Proof.
  unfold counter_from_db, u64_try_from, counter_try_from, invariant_err. intros E. by inv_result.
Qed.

Lemma build_prepare_envelope_Ok intent c placement command ids issued deadline e :
  build_prepare_envelope p intent c placement command ids issued deadline = Ok e →
  issued_at e = issued - COMMAND_CLOCK_SKEW_MILLIS ∧ deadline_at e = deadline
  ∧ command_id e = command
  ∧ parse_id (i_id intent) = Ok (operation_id e)
  ∧ parse_id (ca_host c) = Ok (host_id e)
  ∧ fleet_uuid_from_str (ca_session c) = Ok (authority_session_id e)
  ∧ fleet_uuid_from_str (ca_incarnation c) = Ok (control_plane_incarnation e)
  ∧ ∃ prepare backend, operation e = OpPrepareEnvironment prepare
      ∧ parse_id (ca_backend c) = Ok backend
      ∧ scope e = ScopePlacement placement backend (i_generation intent)
      ∧ traverse parse_id ids = Ok (pe_allocation_ids prepare).
Proof.
  unfold build_prepare_envelope, WireTimestamp_from_millis, invariant_err. intros E.
  do 26 (let x := fresh "x" in let Hx := fresh "Hx" in apply bind_Ok in E as (x & Hx & E)).
  injection E as <-. simpl.
  repeat match goal with
    | H : map_err _ _ = Ok _ |- _ => apply map_err_Ok in H
    | H : counter_from_db _ _ _ = Ok _ |- _ => apply counter_from_db_Ok in H
    end.
  subst. inv_result. apply fleet_uuid_try_new_Ok in Hx6 as [-> _].
  split_and!; try done. eexists _, _. done.
Qed.

(** The command an admission issues is one its machine will accept.  It
    names the new placement and lists exactly the allocations charged for
    it, and the agent session the machine held at admission accepts it
    from five seconds before the admission until twenty minutes after it,
    as long as its authority lasts. *)
Theorem admitted_command_is_accepted (w w' : Work) (controller : Principal) (id : string)
    (now : Z) (clock : nat → Z) (draws : Draws) :
  admit_operation p w controller id now clock draws = Ok (w', OutcomeAdmitted) →
  ∃ pl cmd new prepare backend,
    workload_placements w' = (workload_placements w ++ [pl])%list
    ∧ capacity_allocations w' = (capacity_allocations w ++ new)%list
    ∧ host_commands w' = (host_commands w ++ [cmd])%list
    ∧ c_state cmd = CsPending ∧ c_placement_id cmd = Some (pl_id pl)
    ∧ c_host_id cmd = pl_host_id pl ∧ c_host_epoch cmd = pl_host_epoch pl
    ∧ operation (c_payload cmd) = OpPrepareEnvironment prepare
    ∧ c_kind cmd = database_kind (operation (c_payload cmd))
    ∧ scope (c_payload cmd) = ScopePlacement (dr_placement draws) backend (pl_generation pl)
    ∧ traverse parse_id (a_id <$> new) = Ok (pe_allocation_ids prepare)
    ∧ Forall (λ a, a_placement_id a = pl_id pl ∧ a_host_id a = pl_host_id pl
                   ∧ a_state a = AllocReserved) new
    ∧ ∀ session t, bound_to (c_payload cmd) session →
        now - COMMAND_CLOCK_SKEW_MILLIS ≤ t < now + 1200000 →
        t < es_authority_expires_at session →
        validate_against (c_payload cmd) session t = Ok (c_payload cmd).
Proof.
  intros [_ E]%admit_operation_Ok.
  destruct E as (intent & c & cs & clk & Hint & _ & _ & _ & _ & _ & _ & Hins).
  apply insert_admission_Ok in Hins.
  destruct (ar_allocations _ _ _ _ _ _ Hins) as (path & ids & Hp & Hl & Ha & e & sealed & He & Hseal & Hc).
  apply build_prepare_envelope_Ok in He as (Hiss & Hdl & _ & _ & _ & _ & _ & prepare & backend & Hop & _ & Hsc & Hids).
  pose proof (seal_validate e sealed) as Hval.
  assert (operation sealed = operation e ∧ scope sealed = scope e
    ∧ (∀ session, bound_to sealed session ↔ bound_to e session)) as (Eop & Esc & Eb).
  { unfold seal_hash in Hseal. by inv_result. }
  exists (new_placement (dr_placement draws) intent c now), (prepare_command w intent c
    (dr_placement draws) (dr_command draws) sealed now (now + 1200000)),
    (zip_with (λ id d, new_allocation id (dr_placement draws) c now d) ids path), prepare, backend.
  simpl. rewrite Eop, Esc, Hop. split_and!; try done; [apply Hins| | |].
  - rewrite <-Hids. f_equal. clear -Hl. revert path Hl.
    induction ids as [|i ids IH]; intros [|d path] Hl; simplify_eq/=; [done|]. f_equal. by apply IH.
  - apply Forall_forall. intros a [k Hk]%list_elem_of_lookup.
    apply lookup_zip_with_Some in Hk as (? & ? & -> & _ & _). done.
  - intros session t Hb%Eb Ht Hexp. apply Hval; [done|]. rewrite Hiss, Hdl, Hop. simpl.
    split_and!; done || lia.
Qed.

(** *** Turns *)
Lemma age_le_total a b : age_le a b = true ∨ age_le b a = true.
Proof. apply lex_le_total. intros. apply String.leb_total. Qed.

Lemma age_le_trans a b c : age_le a b = true → age_le b c = true → age_le a c = true.
Proof. apply lex_le_trans. intros ? ? ?. apply string_leb_trans. Qed.

Lemma turn_le_total w now a b : turn_le p w now a b = true ∨ turn_le p w now b a = true.
Proof. apply lex_le_total, age_le_total. Qed.

Lemma turn_le_trans w now a b c :
  turn_le p w now a b = true → turn_le p w now b c = true → turn_le p w now a c = true.
Proof. apply lex_le_trans, age_le_trans. Qed.

(** Pools take turns.  When a slice looks at some intent, it also looks
    at every waiting intent whose turn in its own pool comes earlier, and at
    every intent of the same turn that is older; so a busy pool's second
    intent never displaces another pool's first. *)
Theorem slice_takes_turns (w : Work) (now limit : Z) (a b : IntentRow) :
  a ∈ waiting w → b ∈ slice p w now limit →
  turn p w now a < turn p w now b
  ∨ turn p w now a = turn p w now b ∧ i_created_at a < i_created_at b →
  a ∈ slice p w now limit.
Proof.
  unfold slice. intros Ha Hb Hlt.
  eapply (sorted_take_closed (λ x y, turn_le p w now x y = true)); [| |exact Hb|].
  - apply order_by_sorted; [apply turn_le_total|apply turn_le_trans].
  - by apply elem_of_order_by.
  - unfold turn_le, age_le, lex_le. intros E.
    destruct (Z.ltb_spec (turn p w now b) (turn p w now a)); [lia|].
    destruct (Z.ltb_spec (turn p w now a) (turn p w now b)); [done|].
    destruct (Z.ltb_spec (i_created_at b) (i_created_at a)); [lia|].
    destruct (Z.ltb_spec (i_created_at a) (i_created_at b)); [done|lia].
Qed.
End spec.

(** ** The submission of [SampleService], admitted *)
Module SampleAdmission.
#[local] Existing Instances Hyphenated.uuid_text Plain.codec.
Import SampleFleet.

Definition draws : Draws :=
  {| dr_placement := 70; dr_command := 71; dr_allocation n := 72 + Z.of_nat n |}.
Definition moment : Moment := {| m_now := 2000; m_clock _ := 2001; m_draws := draws |}.

Definition attempt (interactive : bool) : Result (Work * AdmissionOutcome) FleetError :=
  admit_operation (policy_with interactive) SampleService.submitted PrincipalReconciler (id 60)
    2000 (λ _, 2001) draws.

(** The database after the admission. *)
Definition placed (interactive : bool) : Work :=
  match attempt interactive with Ok (w, _) => w | Err _ => empty end.

Lemma admit_Ok interactive : attempt interactive = Ok (placed interactive, OutcomeAdmitted).
Proof. destruct interactive; vm_compute; reflexivity. Qed.

Definition intent : IntentRow := new_intent SampleService.request (id 60) 3 500.
Definition placement (interactive : bool) : PlacementRow :=
  default (new_placement 0 intent (row_candidate host (backend interactive) (profile interactive)) 0)
    (head (workload_placements (placed interactive))).
Definition agent_session : ExpectedAgentSession :=
  {| es_host_id := 5; es_host_epoch := 1; es_control_plane_incarnation := 6;
     es_authority_session_id := 7; es_credential_generation := 1;
     es_authority_expires_at := 90000 |}.

Lemma slice_never_overcommits_witness :
  let w' := (run_slice policy SampleService.submitted PrincipalReconciler 10 2000
               (λ _, moment)).1 in
  usage w' (id 21) (id 5) = {| ra_cpu_millis := 2000; ra_memory_mib := 2048; ra_disk_bytes := 0 |}
  ∧ (usage w' (id 21) (id 5) = usage SampleService.submitted (id 21) (id 5)
     ∨ amount_le (usage w' (id 21) (id 5)) (budget child_domain)).
Proof.
  intros w'. split; [vm_compute; reflexivity|].
  apply (slice_never_overcommits policy SampleService.submitted PrincipalReconciler 10 2000
           (λ _, moment) child_domain).
  - vm_compute. repeat constructor; rewrite ?list_elem_of_In; cbn; intuition discriminate.
  - right. left.
Defined.

Lemma admission_within_pool_maximum_witness :
  managed_runners (placed false) "pool" = managed_runners SampleService.submitted "pool" + 1.
Proof.
  refine (proj2 (admission_within_pool_maximum policy SampleService.submitted (placed false)
    PrincipalReconciler (id 60) 2000 (λ _, 2001) draws intent pool _ _ _ (admit_Ok false)));
    vm_compute; reflexivity.
Defined.

Lemma admission_within_session_limit_witness :
  ∃ s, s ∈ host_sessions (policy_with true) ∧ s_id s = id 90
    ∧ session_load (placed true) (id 90) ≤ s_max_jobs s.
Proof.
  destruct (admission_within_session_limit (policy_with true) SampleService.submitted
    (placed true) PrincipalReconciler (id 60) (id 90) 2000 (λ _, 2001) draws
    (placement true) (admit_Ok true)) as (s & Hs & Hid & _ & _ & Hl).
  - vm_compute. left.
  - vm_compute. reflexivity.
  - vm_compute. reflexivity.
  - intros q Hq. vm_compute in Hq. by apply not_elem_of_nil in Hq.
  - by exists s.
Defined.

Lemma admission_only_on_trusted_host_witness :
  ∃ pl h, workload_placements (placed false) = [pl] ∧ pl_host_id pl = h_id h
    ∧ trusted_host policy h 2000.
Proof.
  destruct (admission_only_on_trusted_host policy SampleService.submitted (placed false)
    PrincipalReconciler (id 60) 2000 (λ _, 2001) draws) as (pl & h & b & g & r & Hpl & Hrest).
  - vm_compute. repeat constructor. apply not_elem_of_nil.
  - exact (admit_Ok false).
  - exists pl, h. split_and!; [exact Hpl|apply Hrest..].
Defined.

Lemma admitted_once_witness :
  admit_operation policy (placed false) PrincipalAutoscaler (id 60) 3000 (λ _, 3001) draws
  = Ok (placed false, Noop).
Proof.
  refine (proj2 (admitted_once policy policy SampleService.submitted (placed false)
    PrincipalReconciler PrincipalAutoscaler (id 60) 2000 3000 (λ _, 2001) (λ _, 3001) draws draws
    (admit_Ok false) _ _)).
  - reflexivity.
  - vm_compute. by eexists.
Defined.

(** Ninety seconds later the heartbeat is stale and the intent waits. *)
Definition late : Result (Work * AdmissionOutcome) FleetError :=
  admit_operation policy SampleService.submitted PrincipalReconciler (id 60) 92000 (λ _, 92001) draws.

Lemma queued_changes_only_reasons_witness :
  ∃ w', late = Ok (w', Queued) ∧ workload_placements w' = []
    ∧ i_reason_code <$> workload_intents w' = [Some "machines_offline"].
Proof.
  destruct late as [[w' o]|e] eqn:E; [|by vm_compute in E].
  assert (o = Queued) as -> by (unfold late in E; vm_compute in E; congruence).
  exists w'. split; [done|]. split.
  - apply (queued_changes_only_reasons policy SampleService.submitted w' PrincipalReconciler
      (id 60) 92000 (λ _, 92001) draws Queued E). done.
  - unfold late in E. vm_compute in E. injection E as <-. reflexivity.
Defined.

Lemma admitted_command_is_accepted_witness :
  ∃ cmd, host_commands (placed false) = [cmd]
    ∧ validate_against (c_payload cmd) agent_session 2500 = Ok (c_payload cmd).
Proof.
  destruct (admitted_command_is_accepted policy SampleService.submitted (placed false)
    PrincipalReconciler (id 60) 2000 (λ _, 2001) draws (admit_Ok false))
    as (pl & cmd & new & prepare & backend & _ & _ & Hc & _ & _ & _ & _ & _ & _ & _ & _ & _ & Hval).
  exists cmd. split; [exact Hc|].
  apply Hval; [clear Hval|unfold COMMAND_CLOCK_SKEW_MILLIS; lia|cbn; lia].
  assert (host_commands (placed false) = [cmd]) as E by exact Hc.
  vm_compute in E. injection E as <-. vm_compute. repeat split.
Defined.

(** A second intent of the same pool, submitted later. *)
Definition second : IntentRow := new_intent SampleService.request (id 61) 3 600.
Definition two_waiting : Work := set_intents SampleService.submitted [second; intent].

Lemma slice_takes_turns_witness : intent ∈ slice policy two_waiting 2000 2.
Proof.
  apply (slice_takes_turns policy two_waiting 2000 2 intent second).
  - right. left.
  - vm_compute. right. left.
  - left. vm_compute. reflexivity.
Defined.
End SampleAdmission.
