(* ===== verification/Deletion.v ===== *)
(** * Deleting a pool ([delete_pool] of [fleet/targets.rs])

    The one transaction that removes rows of placements, charges and commands:
    those of a pool whose work has ended. *)
From S2P Require Import Prelude Base64 Ids Domain Protocol Outcomes Capabilities Crypto Store Service Admission AdmissionSpec.
#[local] Open Scope string_scope.
#[local] Open Scope Z_scope.

Definition ended_state (s : PlacementState) : bool :=
  match s with Stopped | Cleaned | TerminalFailure => true | _ => false end.

Definition placed_in (w : Work) (pool : string) (pl : PlacementRow) : bool :=
  exists_row (λ i, String.eqb (i_id i) (pl_intent_id pl) && String.eqb (i_pool_id i) pool)
    (workload_intents w).

(** [LIVE_WORKLOADS]. *)
Definition pool_has_live_workloads (w : Work) (pool : string) : bool :=
  exists_row (λ pl, placed_in w pool pl
    && (negb (ended_state (pl_state pl))
        || exists_row (λ a, String.eqb (a_placement_id a) (pl_id pl)
                            && negb (bool_decide (a_state a = AllocReleased)))
             (capacity_allocations w))) (workload_placements w).

Definition delete_where {A} (q : A → bool) : list A → list A := select (λ a, negb (q a)).

(** The database before the pool's rows go, its placements and profiles. *)
Definition delete_work (w : Work) (pool : string) : Work :=
  let placements := pl_id <$> select (placed_in w pool) (workload_placements w) in
  let of_placement (id : string) := bool_decide (id ∈ placements) in
  let commands := c_id <$> select (λ c, match c_placement_id c with
                                        | Some id => of_placement id | None => false end)
                             (host_commands w) in
  let of_command (id : string) := bool_decide (id ∈ commands) in
  {| fleet_operations := fleet_operations w;
     workload_intents := delete_where (λ i, String.eqb (i_pool_id i) pool) (workload_intents w);
     workload_placements := delete_where (λ pl, of_placement (pl_id pl)) (workload_placements w);
     capacity_allocations := delete_where (λ a, of_placement (a_placement_id a)) (capacity_allocations w);
     host_commands := delete_where (λ c, match c_placement_id c with
                                   | Some id => of_placement id | None => false end)
                        (host_commands w);
     host_command_attempts := delete_where (λ x, of_command (at_command_id x)) (host_command_attempts w);
     host_command_results := delete_where (λ x, of_command (r_command_id x)) (host_command_results w);
     fleet_bootstrap_material := delete_where (λ x, of_placement (bm_placement_id x))
                                   (fleet_bootstrap_material w);
     fleet_events := delete_where (λ e, String.eqb (e_kind e) "placement_admitted"
                                  && of_placement (e_subject e)) (fleet_events w) |}.

(** [capacity_allocations_delete_requires_release]: the trigger the deletion
    of charges meets. *)
Definition delete_aborts (w : Work) (pool : string) : bool :=
  exists_row (λ a, negb (bool_decide (a_state a = AllocReleased))
                   && bool_decide (a_placement_id a
                        ∈ (pl_id <$> select (placed_in w pool) (workload_placements w))))
    (capacity_allocations w).

(** The profiles and the pool; rows that belong to the pool go with it
    ([ON DELETE CASCADE]). *)
Definition delete_policy (p : Policy) (pool : string) : Policy :=
  let profiles := p_id <$> select (λ x, String.eqb (p_pool_id x) pool) (pool_execution_profiles p) in
  p <| profile_ci_targets ::= delete_where (λ x, bool_decide (pct_profile_id x ∈ profiles)) |>
    <| profile_host_selectors ::= delete_where (λ x, bool_decide (sel_profile_id x ∈ profiles)) |>
    <| pool_execution_profiles ::= delete_where (λ x, String.eqb (p_pool_id x) pool) |>
    <| runner_pools ::= delete_where (λ q, String.eqb (pool_id q) pool) |>
    <| runner_pool_installations ::= delete_where (λ x, String.eqb (rpi_pool_id x) pool) |>
    <| runner_pool_repositories ::= delete_where (λ x, String.eqb (rpr_pool_id x) pool) |>
    <| runner_pool_priority_repositories ::= delete_where (λ x, String.eqb (rpp_pool_id x) pool) |>
    <| runner_pool_bitbucket_connections ::= delete_where (λ x, String.eqb (rpc_pool_id x) pool) |>
    <| runner_pool_priorities ::= delete_where (λ x, String.eqb (rpw_pool_id x) pool) |>
    <| runners ::= delete_where (λ x, String.eqb (rn_pool_id x) pool) |>.

Definition delete_pool (p : Policy) (w : Work) (pool : string)
    : Result (Policy * Work * bool) FleetError :=
  if pool_has_live_workloads w pool then Ok (p, w, false)
  else if delete_aborts w pool then Err Database
  else Ok (delete_policy p pool, delete_work w pool, true).

(** ** What stays *)
Lemma elem_of_delete {A} (q : A → bool) l a : a ∈ delete_where q l ↔ a ∈ l ∧ q a = false.
Proof. unfold delete_where. rewrite elem_of_select, negb_true_iff. done. Qed.

Lemma delete_column {A B} (f : A → B) (q : A → bool) l : NoDup (f <$> l) → NoDup (f <$> delete_where q l).
Proof.
  induction l as [|a l IH]; [done|]. rewrite fmap_cons, NoDup_cons. intros [Hn Hl]. unfold delete_where. simpl.
  destruct (negb (q a)); [|by apply IH]. rewrite fmap_cons. apply NoDup_cons. split; [|by apply IH].
  intros (b & Heq & [Hb _]%elem_of_select)%list_elem_of_fmap. apply Hn. rewrite Heq. by apply list_elem_of_fmap_2.
Qed.

Lemma select_delete {A} (r q : A → bool) l :
  (∀ a, a ∈ l → q a = true → r a = false) → select r (delete_where q l) = select r l.
Proof.
  intros Hr. unfold delete_where. induction l as [|a l IH]; [done|]. simpl.
  destruct (q a) eqn:Eq; simpl.
  - rewrite (Hr a) by (done || by left). apply IH. intros b Hb. apply Hr. by right.
  - destruct (r a); [f_equal|]; apply IH; intros b Hb; apply Hr; by right.
Qed.

Section deletion.
Context (w : Work) (pool : string).

Notation gone := (pl_id <$> select (placed_in w pool) (workload_placements w)).

Lemma gone_placement pl :
  NoDup (pl_id <$> workload_placements w) → pl ∈ workload_placements w →
  pl_id pl ∈ gone ↔ placed_in w pool pl = true.
Proof.
  intros Hnd Hin. split.
  - intros (pl' & Heq & [Hin' Hp]%elem_of_select)%list_elem_of_fmap.
    by rewrite (unique_by pl_id _ _ _ Hnd Hin Hin' Heq).
  - intros Hp. apply list_elem_of_fmap_2, elem_of_select. done.
Qed.

Lemma gone_released a :
  pool_has_live_workloads w pool = false → a ∈ capacity_allocations w → a_placement_id a ∈ gone →
  a_state a = AllocReleased.
Proof.
  intros Hl Ha (pl & Heq & [Hin Hp]%elem_of_select)%list_elem_of_fmap.
  apply (proj1 (exists_row_false _ _) Hl) in Hin. rewrite Hp in Hin. simpl in Hin.
  apply orb_false_iff in Hin as [_ Hin]. apply (proj1 (exists_row_false _ _) Hin) in Ha.
  rewrite Heq, String.eqb_refl in Ha. simpl in Ha. by bool_to_prop.
Qed.

Lemma delete_not_aborted : pool_has_live_workloads w pool = false → delete_aborts w pool = false.
Proof.
  intros Hl. apply exists_row_false. intros a Ha.
  destruct (decide (a_placement_id a ∈ gone)) as [Hg|Hg].
  - by rewrite (gone_released a).
  - rewrite (bool_decide_false _ Hg). by rewrite andb_false_r.
Qed.

Lemma delete_usage domain host :
  pool_has_live_workloads w pool = false → usage (delete_work w pool) domain host = usage w domain host.
Proof.
  intros Hl. unfold usage. f_equal. simpl. apply select_delete. intros a Ha Hg.
  apply bool_decide_eq_true in Hg. unfold live_on. rewrite (gone_released a) by done.
  by rewrite ?andb_false_r.
Qed.

Lemma delete_kept_placement pl :
  NoDup (pl_id <$> workload_placements w) →
  pl ∈ workload_placements (delete_work w pool)
  ↔ pl ∈ workload_placements w ∧ placed_in w pool pl = false.
Proof.
  intros Hnd. simpl. rewrite elem_of_delete. split; intros [Hin Hg]; (split; [done|]).
  - apply bool_decide_eq_false in Hg. rewrite gone_placement in Hg by done.
    by apply not_true_is_false.
  - apply bool_decide_eq_false. rewrite gone_placement by done. congruence.
Qed.
End deletion.

Lemma delete_pool_Ok p w pool p' w' :
  delete_pool p w pool = Ok (p', w', true) →
  pool_has_live_workloads w pool = false ∧ p' = delete_policy p pool ∧ w' = delete_work w pool.
Proof. unfold delete_pool. destruct (pool_has_live_workloads w pool); [done|]. intros E. by inv_result. Qed.

(** Whether the deletion takes the rows of a placement, and its commands. *)
Definition deleted_with (w : Work) (pool placement : string) : Prop :=
  placement ∈ pl_id <$> select (placed_in w pool) (workload_placements w).

Lemma kept_command w pool c :
  c ∈ host_commands (delete_work w pool)
  ↔ c ∈ host_commands w ∧ ∀ q, c_placement_id c = Some q → ¬ deleted_with w pool q.
Proof.
  simpl. rewrite elem_of_delete. unfold deleted_with. destruct (c_placement_id c) as [q|]; [|naive_solver].
  rewrite bool_decide_eq_false. naive_solver.
Qed.

(** A command that stays keeps its results. *)
Lemma kept_result w pool c r :
  NoDup (c_id <$> host_commands w) → c ∈ host_commands (delete_work w pool) →
  r ∈ host_command_results w → r_command_id r = c_id c → r ∈ host_command_results (delete_work w pool).
Proof.
  intros Hnd [Hc Hk]%kept_command Hr Hid. simpl. apply elem_of_delete. split; [done|].
  apply bool_decide_eq_false. rewrite Hid.
  intros (c' & Heq & [Hc' Hq]%elem_of_select)%list_elem_of_fmap.
  assert (c' = c) as -> by (by eapply unique_by). destruct (c_placement_id c) as [q|]; [|done].
  apply bool_decide_eq_true in Hq. by eapply Hk.
Qed.
