(* ===== verification/Commands.v ===== *)
(** * Command delivery and result intake
    ([crates/gridops-core/src/fleet/registry/commands.rs] and
    [unconfirmed.rs], and the parts of [registry/mod.rs] they call).

    Every operation is the body of one transaction: it returns the database
    it commits, or the error that rolls it back. *)
From S2P Require Import Prelude Base64 Ids Domain Protocol Outcomes Capabilities Crypto Store Service Admission.
#[local] Open Scope string_scope.
#[local] Open Scope Z_scope.

Definition REDELIVERY_MILLIS : Z := 60000.
Definition DELIVERY_MARGIN_MILLIS : Z := 5000.
Definition MAX_ATTEMPTS : Z := 10.

Inductive RegistryError :=
| RegDatabase | RegForbidden | RegNotFound | EnrollmentGone | EnrollmentScopeMismatch
| StaleRevision | InvalidCredential | RotationConflict | RegIdempotencyConflict | RotationGone
| StaleGeneration | RegInvalidRequest (why : string) | RegInvalidIdentifier
| TargetScopeForbidden | RegJson | Storage | CredentialFailure | InputFailure.

Record AuthenticatedHost := {
  ah_host_id : Uuid; ah_credential_id : Uuid; ah_generation : Z; ah_epoch : Z }.

(** [serde_json::to_string] of a result. *)
Class ResultJson := { result_json : AgentCommandResult → option string }.

Section commands.
Context `{UuidText, Codec, ResultJson, Aead} (p : Policy).

Definition ensure_authenticated_generation (auth : AuthenticatedHost) (now : Z)
    : Result unit RegistryError :=
  if ah_generation auth >? i64_max
  then Err (RegInvalidRequest "generation exceeds SQLite integer")
  else if ah_epoch auth >? i64_max
  then Err (RegInvalidRequest "epoch exceeds SQLite integer")
  else
    let host := to_string (ah_host_id auth) in
    let count := count_rows (λ c, String.eqb (cred_id c) (to_string (ah_credential_id auth))
        && String.eqb (cred_host_id c) host && (cred_generation c =? ah_generation auth)
        && (cred_host_epoch c =? ah_epoch auth) && is_null (cred_revoked_at c)
        && match cred_overlap_expires_at c with Some t => now <? t | None => true end
        && exists_row (λ h, String.eqb (h_id h) host && (h_epoch h =? ah_epoch auth)
             && negb (bool_decide (h_enrollment_state h = EnrRevoked))
             && negb (bool_decide (h_lifecycle_state h = IntRetired))) (fleet_hosts p))
        (host_credentials p) in
    if count =? 1 then Ok tt else Err InvalidCredential.

(** ** Row updates shared by the operations *)

Definition set_command_state (w : Work) (id : string) (s : CommandState) : Work :=
  set_commands w (update_where (λ c, String.eqb (c_id c) id) (c_set_state s) (host_commands w)).

Definition update_placement (w : Work) (id : string) (from : PlacementState → bool)
    (s : PlacementState) (now : Z) : Work :=
  set_placements w (update_where (λ pl, String.eqb (pl_id pl) id && from (pl_state pl))
                      (pl_set_state s now) (workload_placements w)).

Definition any_state (_ : PlacementState) : bool := true.

Definition erase_bootstrap (w : Work) (placement : string) (now : Z) : Work :=
  set_bootstrap w (update_where
    (λ b, String.eqb (bm_placement_id b) placement && is_null (bm_erased_at b))
    (λ b, bm_set None (bm_claimed_at b) (Some now) b) (fleet_bootstrap_material w)).

(** The trigger [capacity_allocations_release_requires_proof]. *)
Definition release_proven (w : Work) (placement : string) : bool :=
  exists_row (λ pl, String.eqb (pl_id pl) placement && not_null (pl_local_absence_proven_at pl)
                    && not_null (pl_delayed_starts_excluded_at pl)) (workload_placements w).

Definition unreleased_of (placement : string) (a : AllocationRow) : bool :=
  String.eqb (a_placement_id a) placement && negb (bool_decide (a_state a = AllocReleased)).

(** [UPDATE capacity_allocations SET state='released',...]; [None] when the
    trigger aborts it. *)
Definition release_allocations (w : Work) (placement : string) (now : Z) : option Work :=
  if exists_row (unreleased_of placement) (capacity_allocations w)
     && negb (release_proven w placement)
  then None
  else Some (set_allocations w (update_where (unreleased_of placement)
               (a_set_state AllocReleased (Some now) now) (capacity_allocations w))).

Definition release (w : Work) (placement : string) (now : Z) : Result Work RegistryError :=
  let w1 := set_placements w (update_where (λ pl, String.eqb (pl_id pl) placement)
              (pl_prove_absent now) (workload_placements w)) in
  ok_or RegDatabase (release_allocations w1 placement now).

Definition placement_is_uncertain (w : Work) (placement : string) : bool :=
  exists_row (λ pl, String.eqb (pl_id pl) placement && bool_decide (pl_state pl = Uncertain))
    (workload_placements w).

(** Another command that could have changed the workload is unanswered. *)
Definition unsettled_command (placement : string) (c : CommandRow) : bool :=
  eq_sql (c_placement_id c) (Some placement) && bool_decide (c_state c = CsUncertain)
  && negb (String.eqb (c_kind c) "inspect").

Definition keep_uncertain_while_unsettled (w : Work) (placement : string) (now : Z) : Work :=
  if exists_row (unsettled_command placement) (host_commands w)
  then update_placement w placement (λ s, negb (bool_decide (s = Uncertain))) Uncertain now
  else w.

(** ** Results *)
Definition is_progress (o : CommandOutcome) : bool :=
  match o with OutAccepted _ | OutRunning _ => true | _ => false end.

Definition commit_reserved (w : Work) (placement : string) (now : Z) : Work :=
  set_allocations w (update_where
    (λ a, String.eqb (a_placement_id a) placement && bool_decide (a_state a = AllocReserved))
    (λ a, a_set_state AllocCommitted (a_released_at a) now a) (capacity_allocations w)).

(** The [match (&result.outcome, kind)]: what is written before the
    placement's state, and that state; [None] leaves the placement. *)
Definition placement_effect (w : Work) (placement kind : string) (outcome : CommandOutcome)
    (now : Z) : Result (option (Work * PlacementState)) RegistryError :=
  match outcome with
  | OutAccepted _ | OutRunning _ => Ok None
  | OutSucceeded evidence =>
      if String.eqb kind "prepare_environment" then Ok (Some (w, Registering))
      else if String.eqb kind "start_runner"
      then Ok (Some (commit_reserved w placement now, Running))
      else if String.eqb kind "stop" then Ok (Some (w, Stopped))
      else if String.eqb kind "cleanup" then
        match evidence with
        | EvCleaned _ _ _ => let? w' := release w placement now in Ok (Some (w', Cleaned))
        | _ => Ok None
        end
      else Ok None
  | OutFailed _ _ _ =>
      if String.eqb kind "prepare_environment" || String.eqb kind "start_runner"
      then let? w' := release w placement now in Ok (Some (w', TerminalFailure))
      else Ok None
  | OutUncertain _ _ =>
      if String.eqb kind "prepare_environment"
      then let? w' := release w placement now in Ok (Some (w', TerminalFailure))
      else if String.eqb kind "inspect" then Ok None
      else Ok (Some (w, Uncertain))
  end.

Definition apply_to_placement (w : Work) (placement kind : string) (result : AgentCommandResult)
    (now : Z) : Result Work RegistryError :=
  let w1 := if String.eqb kind "start_runner" && negb (is_progress (res_outcome result))
            then erase_bootstrap w placement now else w in
  let? effect := placement_effect w1 placement kind (res_outcome result) now in
  match effect with
  | None => Ok w1
  | Some (w2, next) => Ok (update_placement w2 placement any_state next now)
  end.

Definition outcome_state (o : CommandOutcome) : CommandState :=
  match o with
  | OutAccepted _ => CsAccepted
  | OutRunning _ => CsRunning
  | OutSucceeded _ => CsSucceeded
  | OutFailed _ _ _ => CsFailed
  | OutUncertain _ _ => CsUncertain
  end.

Definition is_terminal (s : CommandState) : bool :=
  match s with CsSucceeded | CsFailed | CsUncertain | CsCancelled => true | _ => false end.

(** [INSERT ... ON CONFLICT(command_id,attempt) DO UPDATE]. *)
Definition upsert_attempt (w : Work) (command : string) (attempt : Z) (s : CommandState) (now : Z)
    : Work :=
  let same a := String.eqb (at_command_id a) command && (at_attempt a =? attempt) in
  let row := {| at_command_id := command; at_attempt := attempt; at_state := s;
                at_recorded_at := now |} in
  set_attempts w (if exists_row same (host_command_attempts w)
                  then update_where same (λ _, row) (host_command_attempts w)
                  else (host_command_attempts w ++ [row])%list).

Definition applied_result (command : string) (r : ResultRow) : bool :=
  String.eqb (r_command_id r) command && bool_decide (r_disposition r = Applied).

(** The part of [record_command_result] that runs when the result counts. *)
Definition apply_result (w : Work) (row : CommandRow) (late : bool) (result : AgentCommandResult)
    (now : Z) : Result Work RegistryError :=
  let next := outcome_state (res_outcome result) in
  let w1 := set_command_state w (c_id row) next in
  let w2 := upsert_attempt w1 (c_id row) (Z.max (c_attempt_count row) 1) next now in
  let? w3 := match c_placement_id row with
             | None => Ok w2
             | Some placement =>
                 if negb late then apply_to_placement w2 placement (c_kind row) result now
                 else if placement_is_uncertain w2 placement then
                   let? w' := apply_to_placement w2 placement (c_kind row) result now in
                   Ok (keep_uncertain_while_unsettled w' placement now)
                 else Ok w2
             end in
  Ok (add_event w3 (c_id row) "fleet.command.result" now).

Definition record_command_result (w : Work) (auth : AuthenticatedHost)
    (result : AgentCommandResult) (now : Z) : Result (Work * Disposition) RegistryError :=
  let? _ := ensure_authenticated_generation auth now in
  let command := to_string (res_command_id result) in
  let? row := ok_or RegNotFound (fetch (λ c, String.eqb (c_id c) command
                && String.eqb (c_host_id c) (to_string (ah_host_id auth))) (host_commands w)) in
  let? _ := map_err (λ _, RegInvalidRequest "result does not match its command")
              (result_validate_against result (c_payload row)) in
  let? encoded := ok_or RegJson (result_json result) in
  let hash := hash_token encoded in
  match fetch (λ r, String.eqb (r_command_id r) command && String.eqb (r_result_hash r) hash)
          (host_command_results w) with
  | Some r => Ok (w, r_disposition r)
  | None =>
      let late := bool_decide (c_state row = CsUncertain)
                  && negb (exists_row (applied_result command) (host_command_results w)) in
      let terminal := negb late && is_terminal (c_state row) in
      let disposition := if terminal then StaleResult else Applied in
      if exists_row (λ r, String.eqb (r_id r) (to_string (res_result_id result)))
           (host_command_results w) then Err RegDatabase else
      let w1 := set_results w (host_command_results w
                  ++ [{| r_id := to_string (res_result_id result); r_command_id := command;
                         r_result_hash := hash; r_disposition := disposition; r_result := result;
                         r_received_at := now |}])%list in
      let? w2 := if terminal then Ok w1 else apply_result w1 row late result now in
      Ok (w2, disposition)
  end.

(** ** Delivery *)

(** The query of [cancel_undeliverable]. *)
Definition undeliverable (h : HostRow) (now : Z) (c : CommandRow) : bool :=
  String.eqb (c_host_id c) (h_id h)
  && ((bool_decide (c_state c = CsDelivered) && (c_deadline_at c <=? now))
      || (bool_decide (c_state c = CsPending)
          && ((c_deadline_at c <=? now + DELIVERY_MARGIN_MILLIS)
              || is_null (h_agent_session_id h)
              || negb (bool_decide (Some (to_string (authority_session_id (c_payload c)))
                                    = h_agent_session_id h))
              || negb (c_host_epoch c =? h_epoch h)))).

Definition cancel_one (now : Z) (w : Work) (c : CommandRow) : Result Work RegistryError :=
  let delivered := bool_decide (c_state c = CsDelivered) in
  let w1 := set_command_state w (c_id c) (if delivered then CsUncertain else CsCancelled) in
  match c_placement_id c with
  | None => Ok w1
  | Some placement =>
      if delivered && String.eqb (c_kind c) "inspect" then Ok w1
      else if delivered && negb (String.eqb (c_kind c) "prepare_environment")
      then Ok (update_placement w1 placement any_state Uncertain now)
      else if String.eqb (c_kind c) "prepare_environment" || String.eqb (c_kind c) "start_runner"
      then let? w2 := release (erase_bootstrap w1 placement now) placement now in
           Ok (update_placement w2 placement any_state TerminalFailure now)
      else Ok w1
  end.

Definition host_row (host : string) : option HostRow :=
  fetch (λ h, String.eqb (h_id h) host) (fleet_hosts p).

Definition cancel_undeliverable (w : Work) (host : string) (now : Z) : Result Work RegistryError :=
  match host_row host with
  | None => Ok w
  | Some h => try_fold (cancel_one now) w (select (undeliverable h now) (host_commands w))
  end.

(** [SELECT agent_session_id=? AND authority_expires_at>? FROM fleet_hosts]. *)
Definition session_authorized (host session : string) (now : Z) : bool :=
  match host_row host with
  | None => false
  | Some h => eq_sql (h_agent_session_id h) (Some session)
              && match h_authority_expires_at h with Some t => now <? t | None => false end
  end.

(** The query of [poll_commands]. *)
Definition deliverable (w : Work) (host session : string) (now : Z) (c : CommandRow) : bool :=
  String.eqb (c_host_id c) host && (now + DELIVERY_MARGIN_MILLIS <? c_deadline_at c)
  && String.eqb (to_string (authority_session_id (c_payload c))) session
  && (bool_decide (c_state c = CsPending)
      || (bool_decide (c_state c = CsDelivered) && (c_attempt_count c <? MAX_ATTEMPTS)
          && negb (exists_row (λ a, String.eqb (at_command_id a) (c_id c)
                     && (now - REDELIVERY_MILLIS <? at_recorded_at a)) (host_command_attempts w)))).

Definition cursor_le (a b : CommandRow) : bool := c_cursor a <=? c_cursor b.

(** The loop body: the [UPDATE] and the [INSERT], which fail past ten
    attempts or on an attempt already recorded. *)
Definition deliver (w : Work) (c : CommandRow) (now : Z) : Result Work RegistryError :=
  let attempt := c_attempt_count c + 1 in
  if (attempt >? MAX_ATTEMPTS)
     || exists_row (λ a, String.eqb (at_command_id a) (c_id c) && (at_attempt a =? attempt))
          (host_command_attempts w)
  then Err RegDatabase
  else
    let w1 := set_commands w (update_where (λ d, String.eqb (c_id d) (c_id c))
                                (c_set CsDelivered attempt) (host_commands w)) in
    Ok (set_attempts w1 (host_command_attempts w1
          ++ [{| at_command_id := c_id c; at_attempt := attempt; at_state := CsDelivered;
                 at_recorded_at := now |}])%list).

Definition open_command (host : string) (c : CommandRow) : bool :=
  String.eqb (c_host_id c) host
  && (bool_decide (c_state c = CsPending) || bool_decide (c_state c = CsDelivered)).

(** The read-only transaction that ends a poll early checks the same
    credential at the same time as the one that delivers. *)
Definition poll_commands (w : Work) (auth : AuthenticatedHost) (session : Uuid) (now : Z)
    : Result (Work * list AgentCommandEnvelope) RegistryError :=
  let host := to_string (ah_host_id auth) in
  let? _ := ensure_authenticated_generation auth now in
  if negb (exists_row (open_command host) (host_commands w)) then Ok (w, []) else
  let? w1 := cancel_undeliverable w host now in
  if negb (session_authorized host (to_string session) now) then Ok (w1, []) else
  match order_by cursor_le
          (select (deliverable w1 host (to_string session) now) (host_commands w1)) with
  | [] => Ok (w1, [])
  | c :: _ => let? w2 := deliver w1 c now in Ok (w2, [c_payload c])
  end.

(** The claim is committed before the vault opens the material, so the
    inner result can be an error with the claim recorded. *)
Definition claim_bootstrap (v : Vault) (w : Work) (auth : AuthenticatedHost) (reference : Uuid)
    (now : Z) : Result (Work * Result string RegistryError) RegistryError :=
  let? _ := ensure_authenticated_generation auth now in
  let name := to_string reference in
  let? row := ok_or RegNotFound (fetch (λ b, String.eqb (bm_reference b) name
                && String.eqb (bm_host_id b) (to_string (ah_host_id auth))
                && not_null (bm_sealed b) && (now <? bm_expires_at b))
                (fleet_bootstrap_material w)) in
  let? sealed := ok_or RegNotFound (bm_sealed row) in
  let w1 := set_bootstrap w (update_where (λ b, String.eqb (bm_reference b) name)
              (λ b, bm_set (bm_sealed b) (coalesce (bm_claimed_at b) now) (bm_erased_at b) b)
              (fleet_bootstrap_material w)) in
  Ok (w1, map_err (λ _, RegInvalidRequest "bootstrap material is unreadable") (open v sealed)).

(** ** Reconnection *)

(** The query of [settle_unreceived]. *)
Definition unreceived (w : Work) (host : string) (epoch : Z) (session : string) (c : CommandRow)
    : bool :=
  String.eqb (c_host_id c) host && (c_host_epoch c =? epoch)
  && (bool_decide (c_state c = CsDelivered) || bool_decide (c_state c = CsUncertain))
  && negb (String.eqb (to_string (authority_session_id (c_payload c))) session)
  && negb (exists_row (λ r, String.eqb (r_command_id r) (c_id c)) (host_command_results w)).

Definition unstarted (s : PlacementState) : bool :=
  match s with Preparing | Registering | Starting | Uncertain => true | _ => false end.

(** The first loop: the state is the database and the placements touched. *)
Definition settle_one (now : Z) (st : Work * list string) (c : CommandRow)
    : Result (Work * list string) RegistryError :=
  let '(w, touched) := st in
  let w1 := add_event (set_command_state w (c_id c) CsCancelled) (c_id c)
              "fleet.command.unreceived" now in
  match c_placement_id c with
  | None => Ok (w1, touched)
  | Some placement =>
      if String.eqb (c_kind c) "prepare_environment" || String.eqb (c_kind c) "start_runner"
      then
        let? w2 := release (erase_bootstrap w1 placement now) placement now in
        Ok (update_placement w2 placement unstarted TerminalFailure now, touched)
      else if negb (String.eqb (c_kind c) "inspect") then Ok (w1, (touched ++ [placement])%list)
      else Ok (w1, touched)
  end.

Definition settle_touched (now : Z) (w : Work) (placement : string) : Work :=
  let w1 := update_placement w placement (λ s, bool_decide (s = Uncertain)) Running now in
  keep_uncertain_while_unsettled w1 placement now.

Definition settle_unreceived (w : Work) (host : Uuid) (epoch : Z) (session : string) (now : Z)
    : Result Work RegistryError :=
  let? st := try_fold (settle_one now) (w, [])
               (select (unreceived w (to_string host) epoch session) (host_commands w)) in
  Ok (fold_left (settle_touched now) st.2 st.1).

(** ** The administrator's repair *)
Definition ensure_system_admin (user : string) : Result unit RegistryError :=
  if bool_decide (role_of p user = Some "admin") then Ok tt else Err RegForbidden.

(** [STARTED]: the agent confirmed a start in the host's current epoch. *)
Definition started (w : Work) (pl : PlacementRow) (h : HostRow) : bool :=
  (pl_host_epoch pl =? h_epoch h)
  && exists_row (λ c, eq_sql (c_placement_id c) (Some (pl_id pl))
                      && String.eqb (c_kind c) "start_runner"
                      && bool_decide (c_state c = CsSucceeded)) (host_commands w).

Definition repair_one (host : Uuid) (now : Z) (st : Work * list Uuid) (placement : Uuid)
    : Result (Work * list Uuid) RegistryError :=
  let '(w, repaired) := st in
  let id := to_string placement in
  match fetch (λ pl, String.eqb (pl_id pl) id && String.eqb (pl_host_id pl) (to_string host)
                     && bool_decide (pl_state pl = Uncertain)) (workload_placements w) with
  | None => Ok (w, repaired)
  | Some pl =>
      match host_row (pl_host_id pl) with
      | None => Ok (w, repaired)
      | Some h =>
          let confirmed := started w pl h in
          let w1 := set_commands w (update_where
            (λ c, eq_sql (c_placement_id c) (Some id)
                  && (bool_decide (c_state c = CsPending) || bool_decide (c_state c = CsDelivered)
                      || bool_decide (c_state c = CsUncertain)))
            (c_set_state CsCancelled) (host_commands w)) in
          let? w2 := if confirmed then Ok w1 else release (erase_bootstrap w1 id now) id now in
          let w3 := update_placement w2 id any_state
                      (if confirmed then Running else TerminalFailure) now in
          Ok (add_event w3 id "fleet.placement.repaired" now, (repaired ++ [placement])%list)
      end
  end.

Definition repair_unconfirmed (w : Work) (principal : Principal) (host : Uuid)
    (placements : list Uuid) (now : Z) : Result (Work * list Uuid) RegistryError :=
  let? user := ok_or RegForbidden (user_of principal) in
  let? _ := ensure_system_admin user in
  try_fold (repair_one host now) (w, []) placements.
End commands.
