(* ===== verification/Placement.v ===== *)
(** * Placement driving
    ([crates/gridops-core/src/fleet/placement.rs]): the commands and state
    changes the reconciler makes for a placement after its admission. *)
From S2P Require Import Prelude Base64 Ids Domain Protocol Outcomes Capabilities Crypto Store Service Admission Commands.
#[local] Open Scope string_scope.
#[local] Open Scope Z_scope.

Definition counter (value : Z) : Result Z FleetError :=
  ok_or (Invariant "counter") (u64_try_from value).

Definition timestamp (value : Z) : Result Z FleetError :=
  invariant_err "timestamp" (WireTimestamp_from_millis value).

(** [T::new(counter(value)?)] with the error named. *)
Definition new_counter (why : string) (new : Z → Result Z CounterError) (value : Z)
    : Result Z FleetError :=
  let? raw := counter value in invariant_err why (new raw).

Section placement.
Context `{UuidText, Codec, Aead} (p : Policy).

Definition placement_row (w : Work) (id : string) : option PlacementRow :=
  fetch (λ pl, String.eqb (pl_id pl) id) (workload_placements w).

Definition host_has_authority (w : Work) (placement : Uuid) (now : Z) : bool :=
  match placement_row w (to_string placement) with
  | None => false
  | Some pl =>
      match host_row p (pl_host_id pl) with
      | None => false
      | Some h => match h_authority_expires_at h with
                  | Some t => (now + 5000 <? t) && (pl_host_epoch pl =? h_epoch h)
                  | None => false
                  end
      end
  end.

(** [ORDER BY cursor DESC LIMIT 1]. *)
Definition newest (cs : list CommandRow) : option CommandRow :=
  head (order_by (λ a b, c_cursor b <=? c_cursor a) cs).

Definition command_of (placement kind : string) (c : CommandRow) : bool :=
  eq_sql (c_placement_id c) (Some placement) && String.eqb (c_kind c) kind.

Definition prepared_with (w : Work) (placement : Uuid) : option PrepareEnvironment :=
  match newest (select (command_of (to_string placement) "prepare_environment")
                  (host_commands w)) with
  | None => None
  | Some c => match operation (c_payload c) with
              | OpPrepareEnvironment prepare => Some prepare
              | _ => None
              end
  end.

Definition command_state (w : Work) (placement : Uuid) (kind : string)
    : option (CommandState * Z) :=
  (λ c, (c_state c, c_issued_at c))
    <$> newest (select (command_of (to_string placement) kind) (host_commands w)).

(** [ORDER BY r.received_at DESC LIMIT 1] over the applied results of the
    placement's commands of a kind that [keep]. *)
Definition newest_result (w : Work) (placement kind : string) (keep : CommandRow → bool)
    : option ResultRow :=
  head (order_by (λ a b, r_received_at b <=? r_received_at a)
    (select (λ r, bool_decide (r_disposition r = Applied)
       && exists_row (λ c, String.eqb (c_id c) (r_command_id r) && command_of placement kind c
                           && keep c) (host_commands w)) (host_command_results w))).

Definition succeeded_evidence (w : Work) (placement : Uuid) (kind : string)
    : option SuccessEvidence :=
  match newest_result w (to_string placement) kind (λ c, bool_decide (c_state c = CsSucceeded)) with
  | None => None
  | Some r => match res_outcome (r_result r) with OutSucceeded ev => Some ev | _ => None end
  end.

Definition prepared_environment (w : Work) (placement : Uuid) : option Uuid :=
  match succeeded_evidence w placement "prepare_environment" with
  | Some (EvPreparedEnvironment id) => Some id
  | _ => None
  end.

Definition reported_gone (w : Work) (placement : Uuid) (kind : string) : bool :=
  match newest_result w (to_string placement) kind (λ _, true) with
  | None => false
  | Some r => match res_outcome (r_result r) with
              | OutFailed FailResourceUnavailable _ _ => true
              | _ => false
              end
  end.

(** The host a placement's command can be sealed for: current epoch, live
    authority, a session and an incarnation. *)
Definition commandable (w : Work) (placement : string) (now : Z)
    : option (PlacementRow * HostRow * string * string) :=
  pl ← placement_row w placement;
  h ← host_row p (pl_host_id pl);
  expires ← h_authority_expires_at h;
  session ← h_agent_session_id h;
  incarnation ← h_authority_incarnation h;
  if (pl_host_epoch pl =? h_epoch h) && (now <? expires)
  then Some (pl, h, session, incarnation) else None.

Definition issued_envelope (pl : PlacementRow) (h : HostRow) (session incarnation : string)
    (placement : Uuid) (op : AgentOperation) (key : string) (command : Uuid) (now deadline : Z)
    : Result AgentCommandEnvelope FleetError :=
  let? host := parse_id (pl_host_id pl) in
  let? backend := parse_id (pl_backend_id pl) in
  let? generation := new_counter "generation" Generation_new (pl_generation pl) in
  let? version := invariant_err "protocol version" (ProtocolVersion_new 1) in
  let? operation_id := parse_id (pl_intent_id pl) in
  let? key := map_err (λ _, InvalidRequest "idempotency key") (IdempotencyKey_parse key) in
  let? epoch := new_counter "epoch" HostEpoch_new (h_epoch h) in
  let? incarnation := parse_id incarnation in
  let? session := parse_id session in
  let? revision := new_counter "revision" Revision_new (pl_profile_revision pl) in
  let? issued := timestamp (now - COMMAND_CLOCK_SKEW_MILLIS) in
  let? deadline := timestamp deadline in
  Ok {| protocol_version := version; command_id := command; operation_id := operation_id;
        idempotency_key := key; host_id := host; host_epoch := epoch;
        control_plane_incarnation := incarnation; authority_session_id := session;
        scope := ScopePlacement placement backend generation; expected_revision := revision;
        issued_at := issued; deadline_at := deadline; request_hash := ""; operation := op |}.

Definition issue_row (w : Work) (pl : PlacementRow) (h : HostRow) (placement : Uuid)
    (command : Uuid) (sealed : AgentCommandEnvelope) (key : string) (now deadline : Z)
    : CommandRow :=
  {| c_cursor := next_cursor w; c_id := to_string command;
     c_operation_id := to_string (operation_id sealed);
     c_placement_id := Some (to_string placement); c_host_id := to_string (host_id sealed);
     c_backend_id := match scope sealed with
                     | ScopePlacement _ b _ => Some (to_string b) | ScopeHost => None end;
     c_host_epoch := h_epoch h; c_generation := Some (pl_generation pl);
     c_kind := database_kind (operation sealed); c_state := CsPending;
     c_request_hash := request_hash sealed; c_payload := sealed;
     c_expected_revision := pl_profile_revision pl; c_issued_at := now; c_deadline_at := deadline;
     c_attempt_count := 0; c_idempotency_key := key |}.

(** [ON CONFLICT(host_id,idempotency_key) DO NOTHING]: any other broken key,
    [CHECK] or reference to the placement is an error. *)
Definition insert_issued (w : Work) (pl : PlacementRow) (row : CommandRow)
    : Result (Work * bool) FleetError :=
  if exists_row (λ c, String.eqb (c_host_id c) (c_host_id row)
                      && String.eqb (c_idempotency_key c) (c_idempotency_key row))
       (host_commands w) then Ok (w, false)
  else if exists_row (λ c, String.eqb (c_id c) (c_id row)) (host_commands w)
          || negb (c_issued_at row <? c_deadline_at row)
          || negb (String.eqb (c_host_id row) (pl_host_id pl))
          || negb (eq_sql (c_backend_id row) (Some (pl_backend_id pl)))
  then Err Database
  else Ok (set_commands w (host_commands w ++ [row])%list, true).

Definition issue_command (w : Work) (placement : Uuid) (op : AgentOperation) (key : string)
    (ttl_ms : Z) (drawn : Uuid) (now : Z) : Result (Work * option Uuid) FleetError :=
  match commandable w (to_string placement) now with
  | None => Ok (w, None)
  | Some (pl, h, session, incarnation) =>
      let? command := invariant_err "command ID" (fleet_uuid_try_new drawn) in
      let deadline := now + ttl_ms in
      let? envelope := issued_envelope pl h session incarnation placement op key command now
                         deadline in
      let? sealed := map_err (λ _, InvalidRequest "command shape") (seal_hash envelope) in
      let? inserted := insert_issued w pl
                         (issue_row w pl h placement command sealed key now deadline) in
      Ok (inserted.1, if inserted.2 then Some command else None)
  end.

(** [INSERT ... SELECT ... FROM workload_placements WHERE id=?]: nothing is
    stored for a placement that is not there. *)
Definition store_bootstrap (w : Work) (v : Vault) (placement : Uuid) (material : string)
    (ttl_ms : Z) (drawn : Uuid) (nonce : list Z) (now : Z) : Result (Work * Uuid) FleetError :=
  let? reference := invariant_err "bootstrap reference" (fleet_uuid_try_new drawn) in
  let? sealed := invariant_err "bootstrap seal" (seal v nonce material) in
  match placement_row w (to_string placement) with
  | None => Ok (w, reference)
  | Some pl =>
      if exists_row (λ b, String.eqb (bm_reference b) (to_string reference))
           (fleet_bootstrap_material w) || (ttl_ms <=? 0)
      then Err Database
      else Ok (set_bootstrap w (fleet_bootstrap_material w
             ++ [{| bm_reference := to_string reference; bm_placement_id := pl_id pl;
                    bm_host_id := pl_host_id pl; bm_sealed := Some sealed; bm_created_at := now;
                    bm_expires_at := now + ttl_ms; bm_claimed_at := None;
                    bm_erased_at := None |}])%list, reference)
  end.

(** The trigger [workload_placements_match_intent_update] guards the
    runner's link. *)
Definition mark_starting (w : Work) (placement : Uuid) (runner_id : string) (now : Z)
    : Result Work FleetError :=
  let own pl := String.eqb (pl_id pl) (to_string placement) in
  let start pl := pl_set_state Starting now (pl_set_runner runner_id pl) in
  if existsb (λ pl, own pl && negb (matches_intent w (start pl))) (workload_placements w)
  then Err Database
  else Ok (set_placements w (update_where own start (workload_placements w))).

Definition unstarted_or_failed (s : PlacementState) : bool :=
  match s with Preparing | Registering | TerminalFailure => true | _ => false end.

Definition abandon_unstarted (w : Work) (placement : Uuid) (now : Z)
    : Result (Work * bool) FleetError :=
  let id := to_string placement in
  if exists_row (command_of id "start_runner") (host_commands w) then Ok (w, false) else
  let w1 := set_placements w (update_where
              (λ pl, String.eqb (pl_id pl) id && unstarted_or_failed (pl_state pl))
              (λ pl, pl_set_state TerminalFailure now (pl_prove_absent now pl))
              (workload_placements w)) in
  let released := exists_row (unreleased_of id) (capacity_allocations w) in
  let? w2 := ok_or Database (release_allocations w1 id now) in
  Ok (w2, released).

Definition set_state (w : Work) (placement : Uuid) (from to_state : PlacementState) (now : Z)
    : Work * bool :=
  let hit pl := String.eqb (pl_id pl) (to_string placement) && bool_decide (pl_state pl = from) in
  (set_placements w (update_where hit (pl_set_state to_state now) (workload_placements w)),
   count_rows hit (workload_placements w) =? 1).
End placement.
