(* ===== verification/Evolution.v ===== *)
(** * How the written tables may change

    Between admissions the rows of placements, allocations and commands keep
    their identity, their charges and their envelopes; absence evidence and
    releases are permanent, and nothing is released without evidence.  That
    relation is a preorder, so a transaction keeps it when each statement in
    it does. *)
From S2P Require Import Prelude Base64 Ids Domain Protocol Outcomes Capabilities Crypto Store Service Admission AdmissionSpec Commands Placement.
#[local] Open Scope string_scope.
#[local] Open Scope Z_scope.

(** ** Rows *)

(** A placement without its state, runner and evidence: the columns the
    trigger [workload_placements_immutable_owner] guards, and its key. *)
Definition pl_owner (r : PlacementRow) : PlacementRow :=
  {| pl_id := pl_id r; pl_intent_id := pl_intent_id r; pl_workload_id := pl_workload_id r;
     pl_generation := pl_generation r; pl_host_id := pl_host_id r; pl_backend_id := pl_backend_id r;
     pl_host_epoch := pl_host_epoch r; pl_session_id := pl_session_id r;
     pl_profile_revision := pl_profile_revision r; pl_target_id := pl_target_id r;
     pl_cpu_millis := pl_cpu_millis r; pl_memory_mib := pl_memory_mib r;
     pl_disk_bytes := pl_disk_bytes r; pl_state := Reserved; pl_runner_id := None;
     pl_agent_run_id := pl_agent_run_id r; pl_created_at := pl_created_at r; pl_updated_at := 0;
     pl_local_absence_proven_at := None; pl_delayed_starts_excluded_at := None |}.

Definition kept {A} (o o' : option A) : Prop := ∀ x, o = Some x → o' = Some x.

Definition pl_evolves (r r' : PlacementRow) : Prop :=
  pl_owner r = pl_owner r'
  ∧ kept (pl_local_absence_proven_at r) (pl_local_absence_proven_at r')
  ∧ kept (pl_delayed_starts_excluded_at r) (pl_delayed_starts_excluded_at r').

Definition a_owner (a : AllocationRow) : AllocationRow := a_set_state AllocReserved None 0 a.

Definition a_evolves (a a' : AllocationRow) : Prop :=
  a_owner a = a_owner a'
  ∧ (a_state a = AllocReleased → a_state a' = AllocReleased ∧ a_released_at a' = a_released_at a).

Definition c_envelope (c : CommandRow) : CommandRow := c_set CsPending 0 c.

Definition c_evolves (c c' : CommandRow) : Prop :=
  c_envelope c = c_envelope c' ∧ c_attempt_count c ≤ c_attempt_count c' ≤ Z.max (c_attempt_count c) 10.

#[export] Instance pl_evolves_preorder : PreOrder pl_evolves.
Proof.
  split; [intros r; split; [done|by split; intros x]|].
  intros r1 r2 r3 (E1 & A1 & D1) (E2 & A2 & D2). unfold kept in *.
  split; [congruence|split; intros x Hx; auto].
Qed.

#[export] Instance a_evolves_preorder : PreOrder a_evolves.
Proof.
  split; [by repeat split|]. intros a1 a2 a3 [E1 R1] [E2 R2]. split; [congruence|].
  intros [? ?]%R1. destruct R2; [done|]. split; congruence.
Qed.

#[export] Instance c_evolves_preorder : PreOrder c_evolves.
Proof.
  split; [intros c; split; [done|lia]|]. intros c1 c2 c3 [E1 R1] [E2 R2]. split; [congruence|lia].
Qed.

Definition absence_proven (w : Work) (placement : string) : Prop :=
  ∃ pl, pl ∈ workload_placements w ∧ pl_id pl = placement
    ∧ is_Some (pl_local_absence_proven_at pl) ∧ is_Some (pl_delayed_starts_excluded_at pl).

(** Nothing is released without evidence. *)
Definition releases_proven (w : Work) : Prop :=
  ∀ a, a ∈ capacity_allocations w → a_state a = AllocReleased → absence_proven w (a_placement_id a).

Record evolves (w w' : Work) : Prop := {
  ev_placements : Forall2 pl_evolves (workload_placements w) (workload_placements w');
  ev_allocations : Forall2 a_evolves (capacity_allocations w) (capacity_allocations w');
  ev_commands : Forall2 c_evolves (host_commands w) (host_commands w');
  ev_intents : workload_intents w' = workload_intents w;
  ev_proven : releases_proven w → releases_proven w' }.

#[export] Instance evolves_preorder : PreOrder evolves.
Proof.
  split.
  - intros w. by split.
  - intros w1 w2 w3 [P1 A1 C1 I1 R1] [P2 A2 C2 I2 R2].
    split; [by etrans|by etrans|by etrans|congruence|auto].
Qed.

(** ** Evidence lasts *)
Lemma Forall2_elem_of_l {A B} (R : A → B → Prop) l k a :
  Forall2 R l k → a ∈ l → ∃ b, b ∈ k ∧ R a b.
Proof. intros H. induction H; set_solver. Qed.

Lemma Forall2_elem_of_r {A B} (R : A → B → Prop) l k b :
  Forall2 R l k → b ∈ k → ∃ a, a ∈ l ∧ R a b.
Proof. intros H. induction H; set_solver. Qed.

Lemma absence_proven_evolves w w' placement :
  Forall2 pl_evolves (workload_placements w) (workload_placements w') →
  absence_proven w placement → absence_proven w' placement.
Proof.
  intros HF (pl & Hin & Hid & [t1 H1] & [t2 H2]).
  destruct (Forall2_elem_of_l _ _ _ _ HF Hin) as (pl' & Hin' & Ho & Ha & Hd).
  exists pl'. split; [done|]. split; [|split].
  - assert (pl_id (pl_owner pl) = pl_id (pl_owner pl')) as E by by rewrite Ho. simpl in E. congruence.
  - exists t1. by apply Ha.
  - exists t2. by apply Hd.
Qed.

Lemma releases_proven_evolves w w' :
  Forall2 pl_evolves (workload_placements w) (workload_placements w') →
  capacity_allocations w' = capacity_allocations w → releases_proven w → releases_proven w'.
Proof.
  intros HF HA Hr a Ha Hs. rewrite HA in Ha. eapply absence_proven_evolves; [exact HF|]. by apply Hr.
Qed.

Lemma update_where_Forall2 {A} (R : A → A → Prop) (q : A → bool) (f : A → A) l :
  Reflexive R → (∀ a, a ∈ l → q a = true → R a (f a)) → Forall2 R l (update_where q f l).
Proof.
  intros HR Hf. unfold update_where. induction l as [|a l IH]; simpl; constructor.
  - destruct (q a) eqn:E; [apply Hf; [constructor|done]|apply HR].
  - apply IH. intros. apply Hf; [by constructor|done].
Qed.

(** ** The statements *)

(** A change of placements only. *)
Lemma evolves_placements w l :
  Forall2 pl_evolves (workload_placements w) l → evolves w (set_placements w l).
Proof. intros Hl. split; try done. by apply releases_proven_evolves. Qed.

(** A change of commands only. *)
Lemma evolves_commands w l :
  Forall2 c_evolves (host_commands w) l → evolves w (set_commands w l).
Proof. intros Hl. split; try done. Qed.

Lemma pl_set_state_evolves s now pl : pl_evolves pl (pl_set_state s now pl).
Proof. split; [done|by split; intros x]. Qed.

Lemma pl_prove_absent_evolves now pl : pl_evolves pl (pl_prove_absent now pl).
Proof. split; [done|]. split; intros x Hx; simpl; by rewrite Hx. Qed.

Lemma pl_set_runner_evolves runner pl : pl_evolves pl (pl_set_runner runner pl).
Proof. split; [done|by split; intros x]. Qed.

Lemma c_set_state_evolves s c : c_evolves c (c_set_state s c).
Proof. split; [done|]. simpl. lia. Qed.
#[export] Hint Resolve pl_set_state_evolves pl_prove_absent_evolves pl_set_runner_evolves
  c_set_state_evolves : fleet.

Lemma set_command_state_evolves w id s : evolves w (set_command_state w id s).
Proof. apply evolves_commands, update_where_Forall2; [apply _|auto with fleet]. Qed.

Lemma update_placement_evolves w id from s now : evolves w (update_placement w id from s now).
Proof. apply evolves_placements, update_where_Forall2; [apply _|auto with fleet]. Qed.

Lemma erase_bootstrap_evolves w placement now : evolves w (erase_bootstrap w placement now).
Proof. by split. Qed.

Lemma upsert_attempt_evolves w c attempt s now : evolves w (upsert_attempt w c attempt s now).
Proof. by split. Qed.

Lemma add_event_evolves w subject kind now : evolves w (add_event w subject kind now).
Proof. by split. Qed.

Lemma set_results_evolves w l : evolves w (set_results w l).
Proof. by split. Qed.

Lemma set_attempts_evolves w l : evolves w (set_attempts w l).
Proof. by split. Qed.

Lemma set_bootstrap_evolves w l : evolves w (set_bootstrap w l).
Proof. by split. Qed.

Lemma keep_uncertain_evolves w placement now :
  evolves w (keep_uncertain_while_unsettled w placement now).
Proof. unfold keep_uncertain_while_unsettled. case_match; [apply update_placement_evolves|done]. Qed.

Lemma commit_reserved_evolves w placement now : evolves w (commit_reserved w placement now).
Proof.
  unfold commit_reserved. split; try done; simpl.
  - apply update_where_Forall2; [apply _|]. intros a _ Hq. bool_to_prop. split; [done|congruence].
  - intros Hr a (b & Hb & ->)%elem_of_update_where Hs. apply Hr in Hb.
    case_match; [done|]. by apply Hb.
Qed.

Lemma release_allocations_evolves w placement now w' :
  release_allocations w placement now = Some w' → evolves w w'.
Proof.
  unfold release_allocations. intros E. inv_result. split; try done; simpl.
  - apply update_where_Forall2; [apply _|]. unfold unreleased_of. intros a _ Hq. bool_to_prop.
    split; [done|congruence].
  - intros Hr a (b & Hb & ->)%elem_of_update_where Hs.
    destruct (unreleased_of placement b) eqn:Eu; [|by apply Hr].
    assert (exists_row (unreleased_of placement) (capacity_allocations w) = true) as Hex
      by (apply exists_row_true; eauto).
    rewrite Hex in E0. simpl in E0. apply negb_false_iff, exists_row_true in E0 as (pl & Hpl & Hq).
    unfold unreleased_of in Eu. bool_to_prop. unfold not_null, is_null in *.
    exists pl. split; [done|]. simpl. split; [congruence|].
    by destruct (pl_local_absence_proven_at pl), (pl_delayed_starts_excluded_at pl).
Qed.

Lemma release_evolves w placement now w' : release w placement now = Ok w' → evolves w w'.
Proof.
  unfold release. intros E. inv_result. etrans; [|by eapply release_allocations_evolves].
  apply evolves_placements, update_where_Forall2; [apply _|auto with fleet].
Qed.

#[export] Hint Resolve set_command_state_evolves update_placement_evolves erase_bootstrap_evolves
  upsert_attempt_evolves add_event_evolves set_results_evolves set_attempts_evolves
  set_bootstrap_evolves keep_uncertain_evolves commit_reserved_evolves release_evolves : fleet.

(** Chain the statements of a transaction. *)
Ltac evolve :=
  repeat first [reflexivity | eassumption | solve [eauto 3 with fleet]
               | etrans; [|solve [eauto 3 with fleet]]].

(** ** Keys are stable *)
Lemma Forall2_fmap_eq {A B} (R : A → A → Prop) (f : A → B) l k :
  (∀ a b, R a b → f a = f b) → Forall2 R l k → f <$> l = f <$> k.
Proof. intros HR H. induction H; simpl; [done|]. f_equal; auto. Qed.

Lemma pl_evolves_field {B} (f : PlacementRow → B) :
  (∀ r, f (pl_owner r) = f r) → ∀ r r', pl_evolves r r' → f r = f r'.
Proof. intros Hf r r' [E _]. rewrite <-(Hf r), <-(Hf r'). by rewrite E. Qed.

Lemma a_evolves_field {B} (f : AllocationRow → B) :
  (∀ a, f (a_owner a) = f a) → ∀ a a', a_evolves a a' → f a = f a'.
Proof. intros Hf a a' [E _]. rewrite <-(Hf a), <-(Hf a'). by rewrite E. Qed.

Lemma c_evolves_field {B} (f : CommandRow → B) :
  (∀ c, f (c_envelope c) = f c) → ∀ c c', c_evolves c c' → f c = f c'.
Proof. intros Hf c c' [E _]. rewrite <-(Hf c), <-(Hf c'). by rewrite E. Qed.

(** A column that evolution keeps is the same list before and after. *)
Lemma evolves_placement_column {B} (f : PlacementRow → B) w w' :
  (∀ r, f (pl_owner r) = f r) → evolves w w' →
  f <$> workload_placements w' = f <$> workload_placements w.
Proof.
  intros Hf [HP _ _ _ _]. symmetry. eapply Forall2_fmap_eq; [|exact HP]. by apply pl_evolves_field.
Qed.

Lemma evolves_command_column {B} (f : CommandRow → B) w w' :
  (∀ c, f (c_envelope c) = f c) → evolves w w' → f <$> host_commands w' = f <$> host_commands w.
Proof.
  intros Hf [_ _ HC _ _]. symmetry. eapply Forall2_fmap_eq; [|exact HC]. by apply c_evolves_field.
Qed.

(** ** The operations *)
Section operations.
Context `{UuidText, Codec, ResultJson, Aead} (p : Policy).

Lemma placement_effect_evolves w placement kind outcome now w' next :
  placement_effect w placement kind outcome now = Ok (Some (w', next)) → evolves w w'.
Proof.
  unfold placement_effect. intros E.
  destruct outcome as [| |ev| |]; repeat (case_match; try done); inv_result; simplify_eq; evolve; done.
Qed.

Lemma apply_to_placement_evolves w placement kind result now w' :
  apply_to_placement w placement kind result now = Ok w' → evolves w w'.
Proof.
  unfold apply_to_placement. intros E. apply bind_Ok in E as (effect & E1 & E).
  assert (evolves w (if String.eqb kind "start_runner" && negb (is_progress (res_outcome result))
                     then erase_bootstrap w placement now else w)) as Hw by (destruct (_ && _); evolve).
  destruct effect as [[w2 next]|]; simplify_eq; [|done].
  apply placement_effect_evolves in E1. evolve.
Qed.

Lemma apply_result_evolves w row late result now w' :
  apply_result w row late result now = Ok w' → evolves w w'.
Proof.
  unfold apply_result. intros E. apply bind_Ok in E as (w3 & E3 & E). simplify_eq.
  etrans; [|apply add_event_evolves].
  set (w2 := upsert_attempt _ _ _ _ _) in *.
  assert (evolves w w2) as Hw by (unfold w2; evolve).
  destruct (c_placement_id row) as [placement|]; [|by simplify_eq].
  destruct late; simpl in E3.
  - destruct (placement_is_uncertain w2 placement); [|by simplify_eq].
    apply bind_Ok in E3 as (w' & E%apply_to_placement_evolves & E3). simplify_eq. evolve.
  - apply apply_to_placement_evolves in E3. by etrans.
Qed.

Lemma record_command_result_evolves w auth result now w' d :
  record_command_result p w auth result now = Ok (w', d) → evolves w w'.
Proof.
  unfold record_command_result. intros E.
  do 4 (apply bind_Ok in E as (? & _ & E)).
  destruct (fetch _ (host_command_results w)); [by simplify_eq|].
  destruct (exists_row _ _); [done|]. apply bind_Ok in E as (w2 & E2 & E). simplify_eq.
  case_match; [simplify_eq; evolve|]. apply apply_result_evolves in E2. evolve.
Qed.

Lemma cancel_one_evolves now w c w' : cancel_one now w c = Ok w' → evolves w w'.
Proof.
  unfold cancel_one. intros E.
  repeat (case_match; try (simplify_eq; evolve; done)); inv_result; evolve.
Qed.

Lemma cancel_undeliverable_evolves w host now w' :
  cancel_undeliverable p w host now = Ok w' → evolves w w'.
Proof.
  unfold cancel_undeliverable. case_match; [|by intros [= <-]].
  apply try_fold_ind; [|done]. intros s c s' _ Hs E%cancel_one_evolves. by etrans.
Qed.

Lemma deliver_evolves w c now w' :
  NoDup (c_id <$> host_commands w) → c ∈ host_commands w → deliver w c now = Ok w' → evolves w w'.
Proof.
  unfold deliver. intros Hnd Hc E. inv_result. bool_to_prop. rewrite Z.gtb_ltb in *. bool_to_prop.
  etrans; [|apply set_attempts_evolves]. apply evolves_commands, update_where_Forall2; [apply _|].
  intros d Hd Hq. bool_to_prop. assert (d = c) as -> by by eapply unique_by.
  split; [done|]. unfold MAX_ATTEMPTS in *. simpl. lia.
Qed.

Lemma poll_commands_evolves w auth session now w' l :
  NoDup (c_id <$> host_commands w) →
  poll_commands p w auth session now = Ok (w', l) → evolves w w'.
Proof.
  unfold poll_commands. intros Hnd E. apply bind_Ok in E as (? & _ & E).
  destruct (negb _); [by simplify_eq|].
  apply bind_Ok in E as (w1 & E1%cancel_undeliverable_evolves & E).
  destruct (negb _); [by simplify_eq|].
  destruct (order_by _ _) as [|c rest] eqn:Eo; [by simplify_eq|].
  apply bind_Ok in E as (w2 & E2 & E). simplify_eq. etrans; [exact E1|].
  eapply deliver_evolves; [| |exact E2].
  - by rewrite (evolves_command_column c_id _ _ ltac:(done) E1).
  - assert (c ∈ c :: rest) as Hin by constructor. rewrite <-Eo in Hin.
    by apply elem_of_order_by, elem_of_select in Hin as [? _].
Qed.

Lemma claim_bootstrap_evolves v w auth reference now w' r :
  claim_bootstrap p v w auth reference now = Ok (w', r) → evolves w w'.
Proof. unfold claim_bootstrap. intros E. inv_result. simplify_eq. evolve. Qed.

Lemma settle_one_evolves now st c st' : settle_one now st c = Ok st' → evolves st.1 st'.1.
Proof.
  unfold settle_one. destruct st as [w touched]. intros E.
  repeat (case_match; try (simplify_eq; simpl; evolve; done)); inv_result; simpl; evolve.
Qed.

Lemma settle_unreceived_evolves w host epoch session now w' :
  settle_unreceived w host epoch session now = Ok w' → evolves w w'.
Proof.
  unfold settle_unreceived. intros E. apply bind_Ok in E as (st & Est & E). simplify_eq.
  assert (evolves w st.1) as Hst.
  { change w with (w, @nil string).1 at 1.
    eapply (try_fold_ind _ (λ s, evolves (w, []).1 s.1)); [|done|exact Est].
    intros s c s' _ Hs E%settle_one_evolves. by etrans. }
  apply (fold_left_ind _ (λ s, evolves w s)); [|done].
  intros s placement _ Hs. unfold settle_touched. evolve.
Qed.

Lemma repair_one_evolves host now st placement st' :
  repair_one p host now st placement = Ok st' → evolves st.1 st'.1.
Proof.
  unfold repair_one. destruct st as [w repaired]. intros E.
  destruct (fetch _ _) as [pl|]; [|by simplify_eq].
  destruct (host_row _ _) as [h|]; [|by simplify_eq].
  set (w1 := set_commands _ _) in E.
  assert (evolves w w1) as Hw1.
  { apply evolves_commands, update_where_Forall2; [apply _|auto with fleet]. }
  apply bind_Ok in E as (w2 & E2 & E). simplify_eq. simpl.
  destruct (started w pl h); simplify_eq; evolve.
Qed.

Lemma repair_unconfirmed_evolves w principal host placements now w' l :
  repair_unconfirmed p w principal host placements now = Ok (w', l) → evolves w w'.
Proof.
  unfold repair_unconfirmed. intros E. do 2 (apply bind_Ok in E as (? & _ & E)).
  assert (evolves (w, @nil Uuid).1 (w', l).1) as Hw; [|done].
  eapply (try_fold_ind _ (λ s, evolves (w, []).1 s.1)); [|done|exact E].
  intros s c s' _ Hs E'%repair_one_evolves. by etrans.
Qed.

Lemma store_bootstrap_evolves w v placement material ttl drawn nonce now w' r :
  store_bootstrap w v placement material ttl drawn nonce now = Ok (w', r) → evolves w w'.
Proof.
  unfold store_bootstrap. intros E. do 2 (apply bind_Ok in E as (? & _ & E)).
  repeat case_match; simplify_eq; evolve; done.
Qed.

Lemma mark_starting_evolves w placement runner now w' :
  mark_starting w placement runner now = Ok w' → evolves w w'.
Proof.
  unfold mark_starting. intros E. inv_result.
  apply evolves_placements, update_where_Forall2; [apply _|].
  intros pl _ _. etrans; [apply pl_set_runner_evolves|apply pl_set_state_evolves].
Qed.

Lemma abandon_unstarted_evolves w placement now w' b :
  abandon_unstarted w placement now = Ok (w', b) → evolves w w'.
Proof.
  unfold abandon_unstarted. intros E. case_match; [by simplify_eq|]. inv_result. simplify_eq.
  etrans; [|by eapply release_allocations_evolves].
  apply evolves_placements, update_where_Forall2; [apply _|].
  intros pl _ _. etrans; [apply pl_prove_absent_evolves|apply pl_set_state_evolves].
Qed.

Lemma set_state_evolves w placement from to_state now :
  evolves w (set_state w placement from to_state now).1.
Proof. apply evolves_placements, update_where_Forall2; [apply _|auto with fleet]. Qed.
End operations.
