(* ===== verification/Fleet.v ===== *)
(** * The fleet as a state machine

    Every transaction the services run on the written tables is a step of
    [any_step]: those that place and drive work, under the policy they see
    ([step]), and the deletion of a pool, which alone removes rows.  Between any
    two steps the policy may change in any way.  The invariants below hold in
    every state the steps reach from an empty database. *)
From S2P Require Import Prelude Base64 Ids Domain Protocol Outcomes Capabilities Crypto Store Service Admission AdmissionSpec Deletion Commands Placement Evolution.
#[local] Open Scope string_scope.
#[local] Open Scope Z_scope.

Section fleet.
Context `{UuidText, Codec, RequestJson, ResultJson, Aead}.

(** One committed transaction under the policy [p]. *)
Inductive step (p : Policy) (w : Work) : Work → Prop :=
| step_submit principal request drawn now w' s :
    submit_intent p w principal request drawn now = Ok (w', s) → step p w w'
| step_cancel id reason now w' b : cancel_queued w id reason now = (w', b) → step p w w'
| step_admit controller id now clock draws w' outcome :
    admit_operation p w controller id now clock draws = Ok (w', outcome) → step p w w'
| step_poll auth session now w' l :
    poll_commands p w auth session now = Ok (w', l) → step p w w'
| step_claim v auth reference now w' r :
    claim_bootstrap p v w auth reference now = Ok (w', r) → step p w w'
| step_result auth result now w' d :
    record_command_result p w auth result now = Ok (w', d) → step p w w'
| step_settle host epoch session now w' :
    settle_unreceived w host epoch session now = Ok w' → step p w w'
| step_repair principal host placements now w' l :
    repair_unconfirmed p w principal host placements now = Ok (w', l) → step p w w'
| step_issue placement op key ttl drawn now w' c :
    issue_command p w placement op key ttl drawn now = Ok (w', c) → step p w w'
| step_store v placement material ttl drawn nonce now w' r :
    store_bootstrap w v placement material ttl drawn nonce now = Ok (w', r) → step p w w'
| step_mark placement runner now w' : mark_starting w placement runner now = Ok w' → step p w w'
| step_abandon placement now w' b :
    abandon_unstarted w placement now = Ok (w', b) → step p w w'
| step_set_state placement from to_state now w' b :
    set_state w placement from to_state now = (w', b) → step p w w'.

(** A stored command is sealed, and its columns repeat its envelope. *)
Definition command_wf (c : CommandRow) : Prop :=
  (∃ e, seal_hash e = Ok (c_payload c))
  ∧ c_id c = to_string (command_id (c_payload c))
  ∧ c_kind c = database_kind (operation (c_payload c))
  ∧ c_deadline_at c = deadline_at (c_payload c)
  ∧ 0 ≤ c_attempt_count c ≤ 10.

(** A charge belongs to a placement and repeats its host and resources. *)
Definition charge_of (w : Work) (a : AllocationRow) : Prop :=
  0 < a_cpu_millis a ∧ 0 < a_memory_mib a ∧ 0 ≤ a_disk_bytes a
  ∧ ∃ pl, pl ∈ workload_placements w ∧ pl_id pl = a_placement_id a ∧ pl_host_id pl = a_host_id a
      ∧ pl_cpu_millis pl = a_cpu_millis a ∧ pl_memory_mib pl = a_memory_mib a
      ∧ pl_disk_bytes pl = a_disk_bytes a.

Definition admitted_intent (w : Work) (pl : PlacementRow) : Prop :=
  ∃ i, i ∈ workload_intents w ∧ i_id i = pl_intent_id pl ∧ i_status i = IntentAdmitted.

Record consistent (w : Work) : Prop := {
  inv_intents : NoDup (i_id <$> workload_intents w);
  inv_placements : NoDup (pl_id <$> workload_placements w);
  inv_placed_once : NoDup (pl_intent_id <$> workload_placements w);
  inv_commands : NoDup (c_id <$> host_commands w);
  inv_admitted : ∀ pl, pl ∈ workload_placements w → admitted_intent w pl;
  inv_charges : ∀ a, a ∈ capacity_allocations w → charge_of w a;
  inv_proven : releases_proven w;
  inv_sealed : ∀ c, c ∈ host_commands w → command_wf c }.

(** *** Evolution keeps it *)
Lemma charge_of_evolves w w' a a' :
  evolves w w' → a_evolves a a' → charge_of w a → charge_of w' a'.
Proof.
  intros [HP _ _ _ _] Ha (Hcpu & Hmem & Hdisk & pl & Hin & Hpl).
  destruct (Forall2_elem_of_l _ _ _ _ HP Hin) as (pl' & Hin' & He).
  unfold charge_of.
  rewrite <-(a_evolves_field a_cpu_millis ltac:(done) _ _ Ha),
    <-(a_evolves_field a_memory_mib ltac:(done) _ _ Ha),
    <-(a_evolves_field a_disk_bytes ltac:(done) _ _ Ha),
    <-(a_evolves_field a_placement_id ltac:(done) _ _ Ha),
    <-(a_evolves_field a_host_id ltac:(done) _ _ Ha).
  split_and!; try done. exists pl'. split; [done|].
  by rewrite <-(pl_evolves_field pl_id ltac:(done) _ _ He),
    <-(pl_evolves_field pl_host_id ltac:(done) _ _ He),
    <-(pl_evolves_field pl_cpu_millis ltac:(done) _ _ He),
    <-(pl_evolves_field pl_memory_mib ltac:(done) _ _ He),
    <-(pl_evolves_field pl_disk_bytes ltac:(done) _ _ He).
Qed.

Lemma command_wf_evolves c c' : c_evolves c c' → command_wf c → command_wf c'.
Proof.
  intros He (Hs & Hid & Hk & Hd & Hn). unfold command_wf.
  rewrite <-(c_evolves_field c_payload ltac:(done) _ _ He),
    <-(c_evolves_field c_id ltac:(done) _ _ He), <-(c_evolves_field c_kind ltac:(done) _ _ He),
    <-(c_evolves_field c_deadline_at ltac:(done) _ _ He).
  destruct He as [_ Ha]. split_and!; done || lia.
Qed.

Lemma evolves_consistent w w' : evolves w w' → consistent w → consistent w'.
Proof.
  intros He [Hi Hp Ho Hc Ha Hch Hpr Hs]. pose proof He as [HP HA HC HI HR]. split.
  - by rewrite HI.
  - by rewrite (evolves_placement_column pl_id _ _ ltac:(done) He).
  - by rewrite (evolves_placement_column pl_intent_id _ _ ltac:(done) He).
  - by rewrite (evolves_command_column c_id _ _ ltac:(done) He).
  - intros pl' Hin'. destruct (Forall2_elem_of_r _ _ _ _ HP Hin') as (pl & Hin & Hev).
    destruct (Ha pl Hin) as (i & Hii & Hid & Hst). exists i. rewrite HI.
    rewrite <-(pl_evolves_field pl_intent_id ltac:(done) _ _ Hev). done.
  - intros a' Hin'. destruct (Forall2_elem_of_r _ _ _ _ HA Hin') as (a & Hin & Hev).
    eapply charge_of_evolves; eauto.
  - auto.
  - intros c' Hin'. destruct (Forall2_elem_of_r _ _ _ _ HC Hin') as (c & Hin & Hev).
    eapply command_wf_evolves; eauto.
Qed.

(** *** Submission, cancellation and admission keep it *)
Lemma consistent_intents w w' :
  workload_placements w' = workload_placements w → capacity_allocations w' = capacity_allocations w →
  host_commands w' = host_commands w →
  NoDup (i_id <$> workload_intents w') →
  (∀ pl, pl ∈ workload_placements w → admitted_intent w pl → admitted_intent w' pl) →
  consistent w → consistent w'.
Proof.
  intros EP EA EC Hnd Hadm [Hi Hp Ho Hc Ha Hch Hpr Hs].
  split; rewrite ?EP, ?EA, ?EC; try done.
  - intros pl Hpl. apply Hadm; auto.
  - intros a Hin. destruct (Hch a Hin) as (? & ? & ? & pl & ? & ?). split_and!; try done.
    exists pl. by rewrite EP.
  - intros a Hin Hst. rewrite EA in Hin. destruct (Hpr a Hin Hst) as (pl & ? & ?).
    exists pl. by rewrite EP.
Qed.

Lemma submit_consistent p w principal request drawn now w' s :
  submit_intent p w principal request drawn now = Ok (w', s) → consistent w → consistent w'.
Proof.
  intros (identity & hash & _ & _ & _ & E)%submit_intent_Ok Hw.
  destruct (operation_by_key _ _ _); [by destruct E as [-> _]|].
  destruct E as (r & _ & _ & _ & _ & Hfresh & -> & _). eapply consistent_intents; [..|exact Hw]; try done.
  - simpl. rewrite fmap_app. simpl. apply NoDup_app. split; [apply Hw|]. split; [|by apply NoDup_singleton].
    intros x (i & -> & Hi)%list_elem_of_fmap [= Heq]%list_elem_of_singleton. by eapply Hfresh.
  - intros pl _ (i & Hin & ?). exists i. simpl. split; [set_solver|done].
Qed.

Lemma cancel_consistent w id reason now w' b :
  cancel_queued w id reason now = (w', b) → consistent w → consistent w'.
Proof.
  intros E Hw. unfold cancel_queued in E.
  assert (workload_placements w' = workload_placements w
    ∧ capacity_allocations w' = capacity_allocations w ∧ host_commands w' = host_commands w
    ∧ workload_intents w' = update_where (λ i, String.eqb (i_id i) id
        && bool_decide (i_status i = IntentQueued)
        && negb (exists_row (λ pl, String.eqb (pl_intent_id pl) (i_id i)) (workload_placements w)))
        (i_set IntentCancelled (Some reason) now) (workload_intents w)) as (EP & EA & EC & EI)
    by (injection E as <- <-; by case_match).
  eapply consistent_intents; [done..| | |exact Hw].
  - rewrite EI, update_where_fmap by done. apply Hw.
  - intros pl Hpl (i & Hin & Hid & Hst). exists i. rewrite EI. split; [|done].
    apply elem_of_update_where. exists i. split; [done|].
    rewrite Hst. by rewrite bool_decide_false, andb_false_r.
Qed.

Lemma zip_with_elem {A B C} (f : A → B → C) l k c :
  c ∈ zip_with f l k → ∃ a b, a ∈ l ∧ b ∈ k ∧ c = f a b.
Proof.
  intros [n Hn]%list_elem_of_lookup. apply lookup_zip_with_Some in Hn as (a & b & -> & Ha & Hb).
  exists a, b. split_and!; [by eapply list_elem_of_lookup_2..|done].
Qed.

Lemma seal_hash_fields e sealed :
  seal_hash e = Ok sealed →
  command_id sealed = command_id e ∧ operation sealed = operation e
  ∧ deadline_at sealed = deadline_at e ∧ host_id sealed = host_id e ∧ scope sealed = scope e
  ∧ issued_at sealed = issued_at e.
Proof. unfold seal_hash. intros E. by inv_result. Qed.

Lemma admission_command p w w' intent c draws now :
  admission_rows p w w' intent c draws now →
  ∃ cmd, host_commands w' = (host_commands w ++ [cmd])%list ∧ command_wf cmd
    ∧ c_id cmd = to_string (dr_command draws).
Proof.
  intros [_ _ _ (path & ids & _ & _ & _ & e & sealed & He & Hs & Hc) _ _ _ _].
  eexists. split; [exact Hc|].
  apply build_prepare_envelope_Ok in He as (_ & Hdl & Hcid & _ & _ & _ & _ & prepare & _ & Hop & _).
  pose proof (seal_hash_fields _ _ Hs) as (Ec & Eo & Ed & _).
  unfold command_wf. simpl. rewrite Ec, Eo, Ed, Hop, Hcid, Hdl. split_and!; try done. by exists e.
Qed.

Lemma admission_consistent p w w' intent c draws now :
  intent ∈ workload_intents w → admission_rows p w w' intent c draws now →
  consistent w → consistent w'.
Proof.
  intros Hint Hr [Hi Hp Ho Hc Ha Hch Hpr Hs].
  pose proof Hr as [EP Hf Hcharge (path & ids & _ & _ & EA & _) Hcf EI _ _].
  destruct (admission_command _ _ _ _ _ _ _ Hr) as (cmd & EC & Hcmd & Hcid).
  split.
  - rewrite EI, update_where_fmap; done.
  - rewrite EP. apply NoDup_snoc; [done|]. intros b Hb. by apply Hf.
  - rewrite EP. apply NoDup_snoc; [done|]. intros b Hb. by apply Hf.
  - rewrite EC. apply NoDup_snoc; [done|]. intros b Hb. rewrite Hcid. by apply Hcf.
  - intros pl Hpl. rewrite EP in Hpl.
    assert (∃ i, i ∈ workload_intents w ∧ i_id i = pl_intent_id pl
      ∧ (i_status i = IntentAdmitted ∨ i_id i = i_id intent)) as (i & Hin & Hid & Hst).
    { apply elem_of_app in Hpl as [Hpl|Hpl%list_elem_of_singleton].
      - destruct (Ha pl Hpl) as (i & ? & ? & ?). eauto 6.
      - exists intent. subst pl. auto. }
    exists (if String.eqb (i_id i) (i_id intent) then i_set IntentAdmitted None now i else i).
    rewrite EI. split; [apply elem_of_update_where; eauto|].
    destruct (String.eqb_spec (i_id i) (i_id intent)); [done|]. by destruct Hst.
  - intros a Hin. rewrite EA in Hin. apply elem_of_app in Hin as [Hin|Hin].
    + destruct (Hch a Hin) as (? & ? & ? & pl & Hpl & ?). split_and!; try done.
      exists pl. rewrite EP. split; [set_solver|done].
    + apply zip_with_elem in Hin as (id & d & _ & _ & ->). simpl. destruct Hcharge as (? & ? & ?).
      split_and!; try done. exists (new_placement (dr_placement draws) intent c now).
      rewrite EP. split; [set_solver|done].
  - intros a Hin Hst. rewrite EA in Hin. apply elem_of_app in Hin as [Hin|Hin].
    + destruct (Hpr a Hin Hst) as (pl & Hpl & ?). exists pl. rewrite EP. split; [set_solver|done].
    + apply zip_with_elem in Hin as (id & d & _ & _ & ->). done.
  - intros x Hin. rewrite EC in Hin.
    apply elem_of_app in Hin as [Hin|Hin%list_elem_of_singleton]; [by apply Hs|by subst].
Qed.

Lemma admit_consistent p w controller id now clock draws w' outcome :
  admit_operation p w controller id now clock draws = Ok (w', outcome) →
  consistent w → consistent w'.
Proof.
  intros [_ E]%admit_operation_Ok Hw. destruct outcome; [| |by subst].
  - destruct E as (intent & c & cs & t & Hint & _ & _ & _ & _ & _ & _ & Hins).
    apply insert_admission_Ok in Hins. apply intent_for_operation_Some in Hint as [Hint _].
    by eapply admission_consistent.
  - destruct E as [reason ->]. eapply consistent_intents; [..|exact Hw]; try done.
    + unfold persist_rejection. simpl. rewrite update_where_fmap by done. apply Hw.
    + intros pl _ (i & Hin & Hid & Hst). unfold persist_rejection, admitted_intent. simpl.
      eexists. split; [apply elem_of_update_where; eauto|]. by case_match.
Qed.

(** *** Issuing a command keeps it *)
Lemma issue_command_Ok p w placement op key ttl drawn now w' r :
  issue_command p w placement op key ttl drawn now = Ok (w', r) →
  (w' = w ∧ r = None)
  ∨ ∃ cmd, w' = set_commands w (host_commands w ++ [cmd])%list ∧ command_wf cmd
      ∧ r = Some drawn ∧ c_id cmd = to_string drawn
      ∧ c_placement_id cmd = Some (to_string placement) ∧ operation (c_payload cmd) = op
      ∧ c_state cmd = CsPending ∧ c_deadline_at cmd = now + ttl
      ∧ ∀ x, x ∈ host_commands w → c_id x ≠ c_id cmd.
Proof.
  unfold issue_command. intros E. destruct (commandable _ _ _ _) as [[[[pl h] session] inc]|];
    [|left; by simplify_eq].
  apply bind_Ok in E as (command & E1 & E). apply bind_Ok in E as (e & E2 & E).
  apply bind_Ok in E as (sealed & E3 & E). apply bind_Ok in E as ([w1 b] & E4 & E).
  apply map_err_Ok, fleet_uuid_try_new_Ok in E1 as [-> _]. apply map_err_Ok in E3.
  unfold insert_issued in E4. destruct (exists_row _ _) eqn:Ek; [left; by simplify_eq|].
  destruct (_ || _) eqn:Ebad; [done|]. simplify_eq/=. bool_to_prop. right.
  eexists. split; [done|].
  assert (command_id e = drawn ∧ deadline_at e = now + ttl ∧ operation e = op) as (Ec & Ed & Eo).
  { unfold issued_envelope, timestamp, WireTimestamp_from_millis, invariant_err in E2. by inv_result. }
  pose proof (seal_hash_fields _ _ E3) as (Fc & Fo & Fd & _).
  unfold command_wf. simpl. rewrite Fc, Fo, Fd, Ec, Ed, Eo.
  split_and!; try done; [by exists e|]. by apply no_row_named.
Qed.

Lemma issue_consistent p w placement op key ttl drawn now w' r :
  issue_command p w placement op key ttl drawn now = Ok (w', r) → consistent w → consistent w'.
Proof.
  intros [[-> _]|(cmd & -> & Hcmd & _ & _ & _ & _ & _ & _ & Hf)]%issue_command_Ok Hw; [done|].
  destruct Hw as [Hi Hp Ho Hc Ha Hch Hpr Hs]. split; try done; simpl.
  - by apply NoDup_snoc.
  - intros x [Hin|Hin%list_elem_of_singleton]%elem_of_app; [by apply Hs|by subst].
Qed.

(** *** Steps *)
Definition admits (p : Policy) (w w' : Work) : Prop :=
  ∃ controller id now clock draws,
    admit_operation p w controller id now clock draws = Ok (w', OutcomeAdmitted).

(** The steps that write placements or allocations either evolve the
    tables or admit. *)
Lemma step_cases p w w' :
  NoDup (c_id <$> host_commands w) → step p w w' →
  evolves w w'
  ∨ (workload_placements w' = workload_placements w
     ∧ capacity_allocations w' = capacity_allocations w)
  ∨ admits p w w'.
Proof.
  intros Hnd Hstep. destruct Hstep as [????? s E|???? b E|?????? outcome E| | | | | |? ? ? ? ? ? ? ? E| | | |????? b E];
    eauto using poll_commands_evolves, claim_bootstrap_evolves, record_command_result_evolves,
      settle_unreceived_evolves, repair_unconfirmed_evolves, store_bootstrap_evolves,
      mark_starting_evolves, abandon_unstarted_evolves.
  - right. left. apply submit_intent_Ok in E as (? & ? & _ & _ & _ & E).
    destruct (operation_by_key _ _ _); [by destruct E as [-> _]|].
    by destruct E as (? & _ & _ & _ & _ & _ & -> & _).
  - right. left. unfold cancel_queued in E. injection E as <- <-. by case_match.
  - destruct outcome; [right; right; by repeat eexists|right; left..];
      apply admit_operation_Ok in E as [_ E]; [by destruct E as [? ->]|by subst].
  - right. left. by apply issue_command_Ok in E as [[-> _]|(? & -> & _)].
  - left. injection E as <- <-. apply set_state_evolves.
Qed.

Lemma step_consistent p w w' : step p w w' → consistent w → consistent w'.
Proof.
  intros Hstep Hw. destruct Hstep as [| | | | | | | | | | | |????? b E];
    eauto using submit_consistent, cancel_consistent, admit_consistent, issue_consistent;
    (eapply evolves_consistent; [|exact Hw]);
    eauto using poll_commands_evolves, inv_commands, claim_bootstrap_evolves,
      record_command_result_evolves, settle_unreceived_evolves, repair_unconfirmed_evolves,
      store_bootstrap_evolves, mark_starting_evolves, abandon_unstarted_evolves.
  injection E as <- <-. apply set_state_evolves.
Qed.

(** A database no fleet transaction has written yet. *)
Definition new_database : Work :=
  {| fleet_operations := []; workload_intents := []; workload_placements := [];
     capacity_allocations := []; host_commands := []; host_command_attempts := [];
     host_command_results := []; fleet_bootstrap_material := []; fleet_events := [] |}.

Lemma new_database_consistent : consistent new_database.
Proof. split; try by apply NoDup_nil_2. all: intros x Hx; by apply not_elem_of_nil in Hx. Qed.

Lemma delete_consistent w pool : consistent w → consistent (delete_work w pool).
Proof.
  intros [Hi Hp Ho Hc Ha Hch Hpr Hs].
  assert (∀ pl, pl ∈ workload_placements w →
     pl_id pl ∉ (pl_id <$> select (placed_in w pool) (workload_placements w)) →
     pl ∈ workload_placements (delete_work w pool)) as Hkeep.
  { intros pl Hin Hg. apply elem_of_delete. split; [done|]. by apply bool_decide_eq_false. }
  split; try (simpl; by apply delete_column).
  - intros pl [Hin Hn]%delete_kept_placement; [|done]. destruct (Ha pl Hin) as (i & Hii & Hid & Hst).
    exists i. split; [|done]. apply elem_of_delete. split; [done|].
    apply (proj1 (exists_row_false _ _) Hn) in Hii. by rewrite Hid, String.eqb_refl in Hii.
  - intros a [Hin Hg%bool_decide_eq_false]%elem_of_delete.
    destruct (Hch a Hin) as (? & ? & ? & pl & Hpl & Heq & ?). split_and!; [done..|].
    exists pl. split; [|done]. apply Hkeep; [done|]. by rewrite Heq.
  - intros a [Hin Hg%bool_decide_eq_false]%elem_of_delete Hst.
    destruct (Hpr a Hin Hst) as (pl & Hpl & Heq & ?). exists pl. split; [|done].
    apply Hkeep; [done|]. by rewrite Heq.
  - intros c [Hin _]%elem_of_delete. by apply Hs.
Qed.

(** Steps under whatever policy holds at the time, and with them the deletion
    of pools. *)
Definition work_step (w w' : Work) : Prop := ∃ p, step p w w'.

Inductive any_step (w w' : Work) : Prop :=
| any_work : work_step w w' → any_step w w'
| any_deletion p pool p' : delete_pool p w pool = Ok (p', w', true) → any_step w w'.

(** The same, as long as a command is not deleted with its pool. *)
Inductive step_keeping (command : string) (w w' : Work) : Prop :=
| keeping_work : work_step w w' → step_keeping command w w'
| keeping_deletion p pool p' :
    delete_pool p w pool = Ok (p', w', true) →
    (∀ c, c ∈ host_commands w → c_id c = command → c ∈ host_commands w') →
    step_keeping command w w'.

Lemma step_keeping_any command w w' : step_keeping command w w' → any_step w w'.
Proof. intros [Hs|p pool p' E _]; [by apply any_work|by eapply any_deletion]. Qed.

Lemma any_step_consistent w w' : any_step w w' → consistent w → consistent w'.
Proof.
  intros [[p Hs]|p pool p' (_ & _ & ->)%delete_pool_Ok]; [by eapply step_consistent|apply delete_consistent].
Qed.

Lemma rtc_consistent w w' : rtc any_step w w' → consistent w → consistent w'.
Proof. induction 1; eauto using any_step_consistent. Qed.

Lemma keeping_consistent command w w' : rtc (step_keeping command) w w' → consistent w → consistent w'.
Proof. intros Hr. eapply rtc_consistent, rtc_subrel; [apply step_keeping_any|done]. Qed.

(** C4: In every state the fleet can reach, under any sequence of
    transactions and whatever policy each of them saw: intents, placements
    and commands have unique keys; every placement belongs to an admitted
    intent and no intent has two; every charge is positive and repeats its
    placement's host and resources; nothing is released without evidence of
    absence; and every stored command is sealed, agrees with its columns and
    was delivered at most ten times. *)
Theorem reachable_consistent (w : Work) : rtc any_step new_database w → consistent w.
Proof. intros Hr. eapply rtc_consistent; [exact Hr|]. apply new_database_consistent. Qed.

(** *** Budgets *)
Lemma total_evolves domain host l l' :
  Forall2 a_evolves l l' →
  (∀ a, a ∈ l → 0 < a_cpu_millis a ∧ 0 < a_memory_mib a ∧ 0 ≤ a_disk_bytes a) →
  amount_le (total (select (live_on domain host) l')) (total (select (live_on domain host) l)).
Proof.
  intros HF. induction HF as [|a a' l l' Ha HF IH]; intros Hpos; simpl; [by unfold amount_le|].
  assert (amount_le (total (select (live_on domain host) l'))
            (total (select (live_on domain host) l))) as Hle by (apply IH; set_solver).
  destruct (Hpos a ltac:(set_solver)) as (? & ? & ?).
  pose proof (a_evolves_field charge ltac:(done) _ _ Ha) as Hc.
  assert (live_on domain host a' = true → live_on domain host a = true) as Hlive.
  { unfold live_on. rewrite <-(a_evolves_field a_domain_id ltac:(done) _ _ Ha),
      <-(a_evolves_field a_host_id ltac:(done) _ _ Ha).
    destruct Ha as [_ Ha]. intros Hl. bool_to_prop. rewrite !andb_true_iff. split_and!; try by apply String.eqb_eq.
    rewrite bool_decide_false; [done|]. intros Hr. by destruct (Ha Hr). }
  destruct (live_on domain host a') eqn:E'; [rewrite Hlive by done|destruct (live_on domain host a); [|done]];
    rewrite !total_cons, <-?Hc; revert Hle;
    generalize (total (select (live_on domain host) l')), (total (select (live_on domain host) l));
    intros [] []; unfold amount_le, amount_plus, charge; simpl; lia.
Qed.

Lemma amount_le_refl a : amount_le a a.
Proof. unfold amount_le. lia. Qed.

Lemma amount_le_trans a b c : amount_le a b → amount_le b c → amount_le a c.
Proof. unfold amount_le. lia. Qed.

Definition within_budget (p : Policy) (w : Work) : Prop :=
  ∀ d, d ∈ host_resource_domains p → amount_le (usage w (d_id d) (d_host_id d)) (budget d).

(** A transaction charges a domain only as far as its budget then allows. *)
Lemma step_usage p w w' domain host :
  consistent w → step p w w' →
  amount_le (usage w' domain host) (usage w domain host)
  ∨ ∃ d, d ∈ host_resource_domains p ∧ d_id d = domain ∧ d_host_id d = host
      ∧ amount_le (usage w' domain host) (budget d).
Proof.
  intros Hw Hstep. apply step_cases in Hstep as [He|[[_ He]|Ha]]; [| | |apply Hw].
  - left. destruct He as [_ HA _ _ _]. apply total_evolves; [done|]. intros a Ha.
    by destruct (inv_charges _ Hw a Ha) as (? & ? & ? & _).
  - left. unfold usage. rewrite He. apply amount_le_refl.
  - destruct Ha as (controller & id & now & clock & draws & E).
    destruct (admit_usage p _ _ _ _ _ _ _ _ domain host E) as [->|?]; [left; apply amount_le_refl|by right].
Qed.

(** Transactions under policies that change between them in any way, but that
    never budget more than [limit] for the domain. *)
Definition budgets_at_most (domain host : string) (limit : ResourceAmount) (p : Policy) : Prop :=
  ∀ d, d ∈ host_resource_domains p → d_id d = domain → d_host_id d = host → amount_le (budget d) limit.

Inductive budgeted_step (domain host : string) (limit : ResourceAmount) (w w' : Work) : Prop :=
| budgeted_work p : budgets_at_most domain host limit p → step p w w' → budgeted_step domain host limit w w'
| budgeted_deletion p pool p' :
    delete_pool p w pool = Ok (p', w', true) → budgeted_step domain host limit w w'.

Lemma budgeted_step_any domain host limit w w' : budgeted_step domain host limit w w' → any_step w w'.
Proof. intros [p _ Hs|p pool p' E]; [by apply any_work; exists p|by eapply any_deletion]. Qed.

Lemma budgeted_step_usage domain host limit w w' :
  consistent w → budgeted_step domain host limit w w' →
  amount_le (usage w domain host) limit → amount_le (usage w' domain host) limit.
Proof.
  intros Hw [p Hp Hs|p pool p' (Hl & _ & ->)%delete_pool_Ok] Hb; [|by rewrite delete_usage].
  destruct (step_usage p w w' domain host Hw Hs) as [Hle|(d & Hd & Hid & Hh & Hle)];
    (eapply amount_le_trans; [exact Hle|]); [done|by apply Hp].
Qed.

(** C1: The fleet never promises a machine's resources twice.  From an empty
    database, by any sequence of transactions, deletions of pools among them,
    and however inventories, approvals and settings change the policy between
    them, the unreleased charges on a resource domain of a machine never exceed
    a limit, in CPU, memory and disk, that its budget has kept to all along;
    with a budget that never changed, that is the budget.  And whenever a
    transaction raises the charges, they are afterwards within the budget that
    the domain has at that moment. *)
Theorem reachable_within_budget (w : Work) (domain host : string) (limit : ResourceAmount) :
  amount_le ResourceAmount_ZERO limit → rtc (budgeted_step domain host limit) new_database w →
  amount_le (usage w domain host) limit
  ∧ ∀ p w', step p w w' →
      amount_le (usage w' domain host) (usage w domain host)
      ∨ ∃ d, d ∈ host_resource_domains p ∧ d_id d = domain ∧ d_host_id d = host
          ∧ amount_le (usage w' domain host) (budget d).
Proof.
  intros Hzero Hr.
  assert (consistent w ∧ amount_le (usage w domain host) limit) as [Hw Hb];
    [|split; [done|]; intros p w' Hs; by apply step_usage].
  assert (consistent new_database ∧ amount_le (usage new_database domain host) limit) as Hinit
    by (split; [apply new_database_consistent|exact Hzero]).
  induction Hr as [|w1 w2 w3 Hs _ IH]; [done|]. apply IH. destruct Hinit.
  split; [by eapply any_step_consistent; [eapply budgeted_step_any|]|by eapply budgeted_step_usage].
Qed.

(** *** Releases are permanent *)
Definition released_for_good (w w' : Work) : Prop :=
  ∀ a, a ∈ capacity_allocations w → a_state a = AllocReleased →
    ∃ a', a' ∈ capacity_allocations w' ∧ a_id a' = a_id a ∧ a_placement_id a' = a_placement_id a
      ∧ a_state a' = AllocReleased ∧ a_released_at a' = a_released_at a.

Lemma step_released p w w' :
  NoDup (c_id <$> host_commands w) → step p w w' → released_for_good w w'.
Proof.
  intros Hnd Hs a Ha Hr. apply step_cases in Hs as [He|[[_ He]|Had]]; [| | |done].
  - destruct He as [_ HA _ _ _]. destruct (Forall2_elem_of_l _ _ _ _ HA Ha) as (a' & Hin & Hev).
    exists a'. rewrite <-(a_evolves_field a_id ltac:(done) _ _ Hev),
      <-(a_evolves_field a_placement_id ltac:(done) _ _ Hev).
    destruct Hev as [_ Hev]. destruct (Hev Hr). done.
  - exists a. by rewrite He.
  - destruct Had as (controller & id & now & clock & draws & [_ E]%admit_operation_Ok).
    destruct E as (intent & c & cs & t & _ & _ & _ & _ & _ & _ & _ & Hins%insert_admission_Ok).
    destruct (ar_allocations _ _ _ _ _ _ _ Hins) as (path & ids & _ & _ & EA & _).
    exists a. rewrite EA. split; [set_solver|done].
Qed.

(** Released capacity stays released, with the time it was released,
    and the evidence for it is there: from any reachable state, whatever
    happens next but the deletion of a pool, a released allocation is never
    charged again and its placement carries proof of local absence and of
    excluded delayed starts. *)
Theorem release_is_permanent (w w' : Work) (a : AllocationRow) :
  rtc any_step new_database w → rtc work_step w w' →
  a ∈ capacity_allocations w → a_state a = AllocReleased →
  absence_proven w' (a_placement_id a)
  ∧ ∃ a', a' ∈ capacity_allocations w' ∧ a_id a' = a_id a ∧ a_state a' = AllocReleased
      ∧ a_released_at a' = a_released_at a.
Proof.
  intros H0w Hww' Ha Hr.
  assert (consistent w) as Hw by (eapply rtc_consistent; [exact H0w|apply new_database_consistent]).
  assert (consistent w' ∧ released_for_good w w') as [Hw' Hg].
  { clear H0w Ha Hr a. induction Hww' as [w|w w1 w2 [p Hs] _ IH].
    - split; [done|]. intros a Ha Hr. by exists a.
    - assert (consistent w1) as Hw1 by by eapply step_consistent. destruct (IH Hw1) as [? Hg]. split; [done|].
      intros a Ha Hr. destruct (step_released _ _ _ (inv_commands _ Hw) Hs a Ha Hr) as (a1 & Hin & Hid & Hpl & Hst & Ht).
      destruct (Hg a1 Hin Hst) as (a2 & ? & ? & ? & ? & ?). exists a2. split_and!; congruence. }
  destruct (Hg a Ha Hr) as (a' & Hin & Hid & Hpl & Hst & Ht). split; [|eauto].
  rewrite <-Hpl. by apply (inv_proven _ Hw').
Qed.
End fleet.

(** ** A workload's life

    Alice's workload is submitted, admitted and driven to a running runner;
    every database below is one transaction after the one it is built on. *)
Module SampleRun.
#[export] Existing Instances Hyphenated.uuid_text Plain.codec PlainAead.aead.
#[export] Instance result_json : ResultJson :=
  {| result_json r := Some (String.String (Ascii.ascii_of_N (Z.to_N (res_result_id r))) "") |}.
Import SampleFleet SampleService SampleAdmission.

Definition after {A E} (w : Work) (r : Result (Work * A) E) : Work :=
  match r with Ok (w', _) => w' | Err _ => w end.

Definition auth : AuthenticatedHost :=
  {| ah_host_id := 5; ah_credential_id := 91; ah_generation := 1; ah_epoch := 1 |}.

(** A result from the agent; [hash] is the text whose digest the command
    carries. *)
Definition result (id command : Z) (hash : string) (outcome : CommandOutcome)
    : AgentCommandResult :=
  {| res_result_id := id; res_command_id := command; res_operation_id := 60; res_host_id := 5;
     res_host_epoch := 1; res_control_plane_incarnation := 6; res_authority_session_id := 7;
     res_scope := ScopePlacement 70 8 1; res_generation := Some 1;
     res_request_hash := bytes hash; res_observed_at := 4000; res_outcome := outcome |}.

Definition prepare_hash : string := "prepare:00000000-0000-0000-0000-".
Definition start_key : string := "start:00000000-0000-0000-0000-000000000046".
Definition start_hash : string := "start:00000000-0000-0000-0000-00".

Definition start : AgentOperation :=
  OpStartRunner {| sr_prepared_environment_id := 100; sr_execution_profile_id := 40;
                   sr_profile_revision := 3; sr_bootstrap_reference := 101;
                   sr_bootstrap_expires_at := 65000;
                   sr_resource_request := {| rq_cpu_millis := 2000; rq_memory_mib := 2048;
                                             rq_disk_bytes := 0 |};
                   sr_allocation_ids := [72; 73] |}.

Definition poll (w : Work) (now : Z) := poll_commands policy w auth 7 now.
Definition record (w : Work) (r : AgentCommandResult) (now : Z) :=
  record_command_result policy w auth r now.
Definition issue (w : Work) (op : AgentOperation) (key : string) (ttl drawn now : Z) :=
  issue_command policy w 70 op key ttl drawn now.

Definition prepare_done : AgentCommandResult :=
  result 200 71 prepare_hash (OutSucceeded (EvPreparedEnvironment 100)).
Definition prepare_failed : AgentCommandResult :=
  result 201 71 prepare_hash (OutFailed FailRuntime true None).
Definition started : AgentCommandResult :=
  result 202 102 start_hash (OutSucceeded (EvRunnerStarted 100 40 3 (ResDocker "container"))).
Definition start_failed : AgentCommandResult :=
  result 203 102 start_hash (OutFailed FailRuntime true None).

Definition w_placed : Work := placed false.
Definition w_delivered : Work := after empty (poll w_placed 3000).
Definition w_prepared : Work := after empty (record w_delivered prepare_done 4000).
Definition w_failed : Work := after empty (record w_delivered prepare_failed 4000).
Definition w_bootstrap : Work :=
  after empty (store_bootstrap w_prepared PlainAead.vault 70 "jit" 60000 101 (replicate 12 0) 5000).
Definition w_issued : Work := after empty (issue w_bootstrap start start_key 30000 102 5000).
Definition w_starting : Work :=
  match mark_starting w_issued 70 "runner" 5001 with Ok w => w | Err _ => empty end.
Definition w_sent : Work := after empty (poll w_starting 6000).
Definition w_running : Work := after empty (record w_sent started 7000).

Lemma after_Ok {A E} (r : Result (Work * A) E) :
  is_ok r = true → ∃ a, r = Ok (after empty r, a).
Proof. destruct r as [[w a]|]; [by exists a|done]. Qed.

Lemma poll_step w now : is_ok (poll w now) = true → step policy w (after empty (poll w now)).
Proof. intros (l & E)%after_Ok. by eapply step_poll. Qed.

Lemma record_step w r now :
  is_ok (record w r now) = true → step policy w (after empty (record w r now)).
Proof. intros (d & E)%after_Ok. by eapply step_result. Qed.

Lemma placed_reachable : rtc (step policy) new_database w_placed.
Proof.
  eapply rtc_l; [|eapply rtc_once, (step_admit _ _ PrincipalReconciler (id 60) 2000 (λ _, 2001) draws),
                   (admit_Ok false)].
  destruct (after_Ok (submit empty 500)) as [s E]; [by vm_compute|]. by eapply step_submit.
Qed.

Lemma delivered_reachable : rtc (step policy) new_database w_delivered.
Proof. eapply rtc_r; [apply placed_reachable|]. by apply poll_step; vm_compute. Qed.

Lemma sent_reachable : rtc (step policy) new_database w_sent.
Proof.
  eapply rtc_r; [|apply poll_step; by vm_compute].
  eapply rtc_r with w_issued; [|by eapply (step_mark _ _ 70 "runner" 5001); vm_compute].
  eapply rtc_r with w_bootstrap; [eapply rtc_r with w_prepared; [eapply rtc_r; [apply delivered_reachable|]|]|].
  - by apply record_step; vm_compute.
  - destruct (after_Ok (store_bootstrap w_prepared PlainAead.vault 70 "jit" 60000 101
      (replicate 12 0) 5000)) as [r E]; [by vm_compute|]. by eapply step_store.
  - destruct (after_Ok (issue w_bootstrap start start_key 30000 102 5000)) as [r E]; [by vm_compute|].
    by eapply step_issue.
Qed.

Lemma running_reachable : rtc (step policy) new_database w_running.
Proof. eapply rtc_r; [apply sent_reachable|]. by apply record_step; vm_compute. Qed.

Lemma failed_reachable : rtc (step policy) new_database w_failed.
Proof. eapply rtc_r; [apply delivered_reachable|]. by apply record_step; vm_compute. Qed.

Lemma reachable_any w : rtc (step policy) new_database w → rtc any_step new_database w.
Proof. apply rtc_subrel. intros w1 w2 Hs. apply any_work. by exists policy. Qed.

(** The sample's domain is budgeted what it is budgeted. *)
Lemma child_budgeted w :
  rtc (step policy) new_database w →
  rtc (budgeted_step (d_id child_domain) (d_host_id child_domain) (budget child_domain)) new_database w.
Proof.
  apply rtc_subrel. intros w1 w2 Hs. apply (budgeted_work _ _ _ _ _ policy); [|exact Hs].
  intros d Hd Hid _. vm_compute in Hd. repeat (apply elem_of_cons in Hd as [->|Hd]; [by vm_compute in Hid || by vm_compute|]).
  by apply elem_of_nil in Hd.
Qed.

Lemma reachable_consistent_witness :
  consistent w_running ∧ pl_state <$> workload_placements w_running = [Running].
Proof.
  split; [apply (reachable_consistent w_running), reachable_any, running_reachable|by vm_compute].
Defined.

Lemma reachable_within_budget_witness :
  amount_le (usage w_running (d_id child_domain) (d_host_id child_domain)) (budget child_domain)
  ∧ ra_cpu_millis (usage w_running (d_id child_domain) (d_host_id child_domain)) = 2000.
Proof.
  split; [|by vm_compute].
  apply (reachable_within_budget w_running (d_id child_domain) (d_host_id child_domain) (budget child_domain)).
  - by vm_compute.
  - apply child_budgeted, running_reachable.
Defined.

(** The failed preparation released both charges, and the next poll keeps
    them so. *)
Definition released : list AllocationRow := capacity_allocations w_failed.
Lemma release_is_permanent_witness :
  absence_proven (after empty (poll w_failed 5000)) (id 70)
  ∧ (a_state <$> released) = [AllocReleased; AllocReleased].
Proof.
  split; [|by vm_compute]. destruct (capacity_allocations w_failed) as [|a l] eqn:E; [by vm_compute in E|].
  replace (id 70) with (a_placement_id a) by (vm_compute in E; by simplify_eq).
  apply (release_is_permanent w_failed (after empty (poll w_failed 5000)) a).
  - apply reachable_any, failed_reachable.
  - apply rtc_once. exists policy. by apply poll_step; vm_compute.
  - rewrite E. left.
  - vm_compute in E. by simplify_eq.
Defined.
End SampleRun.
