(* ===== verification/CommandsSpec.v ===== *)
(** * What delivery, results and repair may do

    Which rows each transaction of [registry/commands.rs], [unconfirmed.rs]
    and [placement.rs] can reach, when capacity may be freed, what an agent is
    sent, and how a duplicated or late report is absorbed. *)
From S2P Require Import Prelude Base64 Ids Domain Protocol Outcomes Capabilities Crypto Store Service Admission AdmissionSpec Deletion Commands Placement Evolution Fleet.
#[local] Open Scope string_scope.
#[local] Open Scope Z_scope.

(** ** Reach

    [touches S F w w']: of placements, allocations and bootstrap material only
    rows of a placement in [S] change, and only for a placement and at a moment
    that [F] allows are charges released and secrets erased. *)
Inductive Loss := Freed | Erased.

Definition row_touched {A} (owner : A → string) (S : string → Prop) (r r' : A) : Prop :=
  owner r' = owner r ∧ (r' = r ∨ S (owner r)).

Definition freed_by (F : Loss → string → Z → Prop) (a a' : AllocationRow) : Prop :=
  a_placement_id a' = a_placement_id a
  ∧ (a_state a' = AllocReleased →
     (a_state a = AllocReleased ∧ a_released_at a' = a_released_at a)
     ∨ ∃ t, a_released_at a' = Some t ∧ F Freed (a_placement_id a) t).

(** A secret stays as it was stored, or is erased. *)
Definition erased_by (F : Loss → string → Z → Prop) (b b' : BootstrapRow) : Prop :=
  (bm_reference b' = bm_reference b ∧ bm_placement_id b' = bm_placement_id b
   ∧ bm_host_id b' = bm_host_id b ∧ bm_expires_at b' = bm_expires_at b)
  ∧ ((bm_sealed b' = bm_sealed b ∧ bm_erased_at b' = bm_erased_at b)
     ∨ ∃ t, bm_sealed b' = None ∧ bm_erased_at b' = Some t ∧ F Erased (bm_placement_id b) t).

Record touches (S : string → Prop) (F : Loss → string → Z → Prop) (w w' : Work) : Prop := {
  th_placements : Forall2 (row_touched pl_id S) (workload_placements w) (workload_placements w');
  th_allocations : Forall2 (row_touched a_placement_id S) (capacity_allocations w)
                     (capacity_allocations w');
  th_material : Forall2 (row_touched bm_placement_id S) (fleet_bootstrap_material w)
                  (fleet_bootstrap_material w');
  th_freed : Forall2 (freed_by F) (capacity_allocations w) (capacity_allocations w');
  th_erased : Forall2 (erased_by F) (fleet_bootstrap_material w) (fleet_bootstrap_material w') }.

#[export] Instance erased_by_preorder F : PreOrder (erased_by F).
Proof.
  split; [by split; [|left]|]. intros b1 b2 b3 [(R1 & P1 & H1 & X1) E1] [(R2 & P2 & H2 & X2) E2].
  split; [by rewrite R2, P2, H2, X2|]. destruct E2 as [[-> ->]|(t & ? & ? & ?)]; [done|].
  right. exists t. by rewrite <-P1.
Qed.

#[export] Instance freed_by_preorder F : PreOrder (freed_by F).
Proof.
  split; [by split; [|left]|]. intros a1 a2 a3 [O1 E1] [O2 E2]. split; [congruence|].
  intros Hr. destruct (E2 Hr) as [[Hr2 ->]|(t & ? & ?)]; [by apply E1|]. right. exists t. by rewrite <-O1.
Qed.

#[export] Instance row_touched_preorder {A} (owner : A → string) S : PreOrder (row_touched owner S).
Proof.
  split; [by split; [|left]|]. intros r1 r2 r3 [O1 E1] [O2 E2].
  split; [congruence|]. rewrite O1 in E2. destruct E1 as [->|], E2 as [->|]; auto.
Qed.

#[export] Instance touches_preorder S F : PreOrder (touches S F).
Proof. split; [by split|]. intros w1 w2 w3 [] []. split; by etrans. Qed.

Lemma touches_mono (S S' : string → Prop) (F F' : Loss → string → Z → Prop) w w' :
  (∀ q, S q → S' q) → (∀ k q t, F k q t → F' k q t) → touches S F w w' → touches S' F' w w'.
Proof.
  intros HS HF [P A B G L]. split.
  1: eapply Forall2_impl; [exact P|]. 2: eapply Forall2_impl; [exact A|].
  3: eapply Forall2_impl; [exact B|]. 1-3: intros r r' [? [?|?]]; split; auto.
  - eapply Forall2_impl; [exact G|]. intros a a' [? Hr]. split; [done|].
    intros [?|(t & ? & ?)]%Hr; eauto.
  - eapply Forall2_impl; [exact L|]. intros b b' [? [?|(t & ? & ? & ?)]]; split; eauto 8.
Qed.

Lemma touches_same S F w w' :
  workload_placements w' = workload_placements w → capacity_allocations w' = capacity_allocations w →
  fleet_bootstrap_material w' = fleet_bootstrap_material w → touches S F w w'.
Proof. intros E1 E2 E3. pose proof (reflexivity (R := touches S F) w) as [P A B G L]. split; congruence. Qed.

Lemma update_where_touched {A} (owner : A → string) (S : string → Prop) q f l :
  (∀ a, q a = true → owner (f a) = owner a ∧ S (owner a)) →
  Forall2 (row_touched owner S) l (update_where q f l).
Proof. intros Hq. apply update_where_Forall2; [apply _|]. intros a _ [? ?]%Hq. split; auto. Qed.

Lemma untouched_row {A} (owner : A → string) (S : string → Prop) l l' r :
  Forall2 (row_touched owner S) l l' → r ∈ l → ¬ S (owner r) → r ∈ l'.
Proof. intros HF Hr Hn. destruct (Forall2_elem_of_l _ _ _ _ HF Hr) as (r' & Hr' & _ & [->|?]); done. Qed.

Lemma touches_placements (S : string → Prop) (F : Loss → string → Z → Prop) w q f :
  (∀ r, q r = true → pl_id (f r) = pl_id r ∧ S (pl_id r)) →
  touches S F w (set_placements w (update_where q f (workload_placements w))).
Proof.
  intros Hq. pose proof (reflexivity (R := touches S F) w) as [P A B G L].
  split; try done. simpl. by apply update_where_touched.
Qed.

Lemma touches_allocations (S : string → Prop) (F : Loss → string → Z → Prop) w q f :
  (∀ a, a ∈ capacity_allocations w → q a = true → S (a_placement_id a) ∧ freed_by F a (f a)) →
  touches S F w (set_allocations w (update_where q f (capacity_allocations w))).
Proof.
  intros Hq. pose proof (reflexivity (R := touches S F) w) as [P A B G L]. split; try done; simpl.
  - apply update_where_Forall2; [apply _|]. intros a Ha [? [? _]]%Hq; [split; auto|done].
  - apply update_where_Forall2; [apply _|]. intros a Ha [? ?]%Hq; done.
Qed.

(** ** The statements *)
Section statements.
Context (S : string → Prop) (F : Loss → string → Z → Prop) (w : Work) (placement : string) (now : Z).

Lemma update_placement_touches from s : S placement → touches S F w (update_placement w placement from s now).
Proof. intros HS. apply touches_placements. intros r Hr. bool_to_prop. by subst. Qed.

Lemma erase_bootstrap_touches :
  S placement → F Erased placement now → touches S F w (erase_bootstrap w placement now).
Proof.
  intros HS HF. pose proof (reflexivity (R := touches S F) w) as [P A B G L]. split; try done; simpl.
  - apply update_where_touched. intros r Hr. bool_to_prop. by subst.
  - apply update_where_Forall2; [apply _|]. intros b _ Hb. bool_to_prop. subst. split; [done|]. right. by exists now.
Qed.

Lemma commit_reserved_touches : S placement → touches S F w (commit_reserved w placement now).
Proof. intros HS. apply touches_allocations. intros a _ Ha. bool_to_prop. by subst. Qed.

Lemma release_allocations_touches w' :
  S placement → (release_proven w placement = true → F Freed placement now) →
  release_allocations w placement now = Some w' → touches S F w w'.
Proof.
  unfold release_allocations. intros HS HF E.
  destruct (exists_row _ _ && _) eqn:Ex; [done|]. injection E as <-.
  apply touches_allocations. intros a Hin Ha. assert (Hex := Ha). unfold unreleased_of in Ha. bool_to_prop.
  subst placement. split; [done|]. split; [done|]. intros _. right. exists now. split; [done|]. apply HF.
  apply andb_false_iff in Ex as [Ex|Ex]; [|by bool_to_prop]. apply (proj1 (exists_row_false _ _) Ex) in Hin. congruence.
Qed.
End statements.

Lemma release_touches (S : string → Prop) (F : Loss → string → Z → Prop) w placement now w' :
  S placement → F Freed placement now → release w placement now = Ok w' → touches S F w w'.
Proof.
  unfold release. intros HS HF E. inv_result.
  etrans; [|by eapply release_allocations_touches].
  apply touches_placements. intros r Hr. bool_to_prop. by subst.
Qed.

Lemma keep_uncertain_touches (S : string → Prop) (F : Loss → string → Z → Prop) w placement now :
  S placement → touches S F w (keep_uncertain_while_unsettled w placement now).
Proof. unfold keep_uncertain_while_unsettled. case_match; [apply update_placement_touches|done]. Qed.

Lemma set_command_state_touches S F w id s : touches S F w (set_command_state w id s).
Proof. by apply touches_same. Qed.

Lemma upsert_attempt_touches S F w c attempt s now : touches S F w (upsert_attempt w c attempt s now).
Proof. by apply touches_same. Qed.

Lemma set_results_touches S F w l : touches S F w (set_results w l).
Proof. by apply touches_same. Qed.

Lemma add_event_touches S F w subject kind now : touches S F w (add_event w subject kind now).
Proof. by apply touches_same. Qed.

#[export] Hint Resolve update_placement_touches erase_bootstrap_touches commit_reserved_touches
  release_touches keep_uncertain_touches set_command_state_touches upsert_attempt_touches
  set_results_touches add_event_touches : fleet.

Ltac touch :=
  repeat first [reflexivity | eassumption | solve [eauto 4 with fleet]
               | etrans; [|solve [eauto 4 with fleet]]].

(** ** The command log

    [quiet]: commands, delivery attempts and results stay as they are. *)
Record quiet (w w' : Work) : Prop := {
  q_commands : host_commands w' = host_commands w;
  q_attempts : host_command_attempts w' = host_command_attempts w;
  q_results : host_command_results w' = host_command_results w }.

#[export] Instance quiet_preorder : PreOrder quiet.
Proof. split; [done|]. intros w1 w2 w3 [] []. split; congruence. Qed.

Lemma update_placement_quiet w placement from s now : quiet w (update_placement w placement from s now).
Proof. done. Qed.

Lemma erase_bootstrap_quiet w placement now : quiet w (erase_bootstrap w placement now).
Proof. done. Qed.

Lemma commit_reserved_quiet w placement now : quiet w (commit_reserved w placement now).
Proof. done. Qed.

Lemma add_event_quiet w subject kind now : quiet w (add_event w subject kind now).
Proof. done. Qed.

Lemma release_allocations_quiet w placement now w' :
  release_allocations w placement now = Some w' → quiet w w'.
Proof. unfold release_allocations. intros E. by inv_result. Qed.

Lemma release_quiet w placement now w' : release w placement now = Ok w' → quiet w w'.
Proof. unfold release. intros E. inv_result. apply release_allocations_quiet in E as []. by split. Qed.

Lemma keep_uncertain_quiet w placement now : quiet w (keep_uncertain_while_unsettled w placement now).
Proof. unfold keep_uncertain_while_unsettled. by case_match. Qed.

#[export] Hint Resolve update_placement_quiet erase_bootstrap_quiet commit_reserved_quiet
  add_event_quiet release_quiet keep_uncertain_quiet : fleet.

Lemma placement_effect_quiet w placement kind outcome now w' next :
  placement_effect w placement kind outcome now = Ok (Some (w', next)) → quiet w w'.
Proof.
  unfold placement_effect. intros E.
  destruct outcome as [| |ev| |]; repeat (case_match; try done); inv_result; simplify_eq;
    eauto with fleet; done.
Qed.

Lemma apply_to_placement_quiet w placement kind result now w' :
  apply_to_placement w placement kind result now = Ok w' → quiet w w'.
Proof.
  unfold apply_to_placement. intros E. apply bind_Ok in E as (effect & E1 & E).
  set (w1 := if (_ && _ : bool) then erase_bootstrap _ _ _ else w) in E1, E.
  assert (quiet w w1) as Hw by (unfold w1; by destruct (_ && _)).
  destruct effect as [[w2 next]|]; simplify_eq; [|done].
  apply placement_effect_quiet in E1. etrans; [exact Hw|]. by etrans; [exact E1|].
Qed.

(** A result that counts settles its command and leaves the rest of the log. *)
Lemma apply_result_log w row late result now w' :
  apply_result w row late result now = Ok w' →
  host_commands w' = update_where (λ c, String.eqb (c_id c) (c_id row))
                       (c_set_state (outcome_state (res_outcome result))) (host_commands w)
  ∧ host_command_results w' = host_command_results w.
Proof.
  unfold apply_result. intros E. apply bind_Ok in E as (w3 & E3 & [= <-]).
  set (w2 := upsert_attempt _ _ _ _ _) in *.
  cbn [host_commands host_command_results add_event]. assert (quiet w2 w3) as [-> _ ->]; [|done].
  destruct (c_placement_id row) as [placement|]; [|by simplify_eq].
  destruct late; simpl in E3; [|by eapply apply_to_placement_quiet].
  destruct (placement_is_uncertain w2 placement); [|by simplify_eq].
  apply bind_Ok in E3 as (w4 & E4%apply_to_placement_quiet & [= <-]).
  etrans; [exact E4|apply keep_uncertain_quiet].
Qed.

(** ** Results *)

(** The reports that free a placement's capacity. *)
Definition frees (kind : string) (outcome : CommandOutcome) : bool :=
  match outcome with
  | OutFailed _ _ _ => String.eqb kind "prepare_environment" || String.eqb kind "start_runner"
  | OutUncertain _ _ => String.eqb kind "prepare_environment"
  | OutSucceeded (EvCleaned _ _ _) => String.eqb kind "cleanup"
  | _ => false
  end.

(** The reports that conclude a start; its secret is erased with them. *)
Definition concludes_start (kind : string) (outcome : CommandOutcome) : bool :=
  String.eqb kind "start_runner" && negb (is_progress outcome).

Definition report_takes (k : Loss) (kind : string) (outcome : CommandOutcome) : bool :=
  match k with Freed => frees kind outcome | Erased => concludes_start kind outcome end.

Definition owns (row : CommandRow) (q : string) : Prop := c_placement_id row = Some q.

Section results.
Context `{UuidText, Codec, ResultJson, Aead} (p : Policy).

Lemma placement_effect_touches w placement kind outcome now w' next :
  placement_effect w placement kind outcome now = Ok (Some (w', next)) →
  touches (eq placement) (λ k q t, q = placement ∧ t = now ∧ report_takes k kind outcome = true) w w'.
Proof.
  unfold placement_effect, frees. intros E.
  destruct outcome as [| |ev| |]; repeat (case_match; try done); inv_result; simplify_eq; touch;
    (eapply release_touches; [..|eassumption]; try done; split_and!; try done; bool_cases; by subst).
Qed.

Lemma apply_to_placement_touches w placement kind result now w' :
  apply_to_placement w placement kind result now = Ok w' →
  touches (eq placement)
    (λ k q t, q = placement ∧ t = now ∧ report_takes k kind (res_outcome result) = true) w w'.
Proof.
  unfold apply_to_placement. intros E. apply bind_Ok in E as (effect & E1 & E).
  set (w1 := if (_ && _ : bool) then erase_bootstrap _ _ _ else w) in E1, E.
  set (F := λ (k : Loss) (q : string) (t : Z), _).
  assert (touches (eq placement) F w w1) as Hw
    by (unfold w1; destruct (_ && _) eqn:Ec; [by apply erase_bootstrap_touches|done]).
  destruct effect as [[w2 next]|]; simplify_eq; [|done].
  apply placement_effect_touches in E1. etrans; [exact Hw|]. etrans; [exact E1|]. touch.
Qed.

Lemma apply_result_touches w row late result now w' :
  apply_result w row late result now = Ok w' →
  touches (owns row)
    (λ k q t, owns row q ∧ t = now ∧ report_takes k (c_kind row) (res_outcome result) = true
            ∧ (late = true → placement_is_uncertain w q = true)) w w'.
Proof.
  unfold apply_result. intros E. apply bind_Ok in E as (w3 & E3 & [= <-]).
  etrans; [|apply add_event_touches].
  set (w2 := upsert_attempt _ _ _ _ _) in *.
  set (S := owns row). set (F := λ (k : Loss) (q : string) (t : Z), _ ∧ _).
  assert (touches S F w w2) as Hw by (unfold w2; touch).
  destruct (c_placement_id row) as [placement|] eqn:Ep; [|by simplify_eq].
  assert (∀ w', (late = true → placement_is_uncertain w placement = true) →
    apply_to_placement w2 placement (c_kind row) result now = Ok w' → touches S F w2 w') as Hap.
  { intros w4 Hl E4%apply_to_placement_touches. eapply touches_mono; [..|exact E4]; unfold S, F, owns;
      [by intros ? <-|]. intros k q t (-> & ? & ?). done. }
  destruct late; simpl in E3; [|etrans; [exact Hw|by apply Hap]].
  destruct (placement_is_uncertain w2 placement) eqn:Eu; [|by simplify_eq].
  apply bind_Ok in E3 as (w4 & E4%Hap & [= <-]); [|done]. etrans; [exact Hw|]. etrans; [exact E4|].
  by apply keep_uncertain_touches.
Qed.

(** What a report answers: a command of the reporting host. *)
Lemma record_command_result_Ok w auth result now w' d :
  record_command_result p w auth result now = Ok (w', d) →
  ensure_authenticated_generation p auth now = Ok tt ∧
  ∃ row encoded,
    fetch (λ c, String.eqb (c_id c) (to_string (res_command_id result))
             && String.eqb (c_host_id c) (to_string (ah_host_id auth))) (host_commands w) = Some row
    ∧ (∃ r, result_validate_against result (c_payload row) = Ok r)
    ∧ result_json result = Some encoded
    ∧ match fetch (λ r, String.eqb (r_command_id r) (to_string (res_command_id result))
                     && String.eqb (r_result_hash r) (hash_token encoded)) (host_command_results w) with
      | Some r => w' = w ∧ d = r_disposition r
      | None =>
          let late := bool_decide (c_state row = CsUncertain)
            && negb (exists_row (applied_result (to_string (res_command_id result)))
                       (host_command_results w)) in
          let w1 := set_results w (host_command_results w
            ++ [{| r_id := to_string (res_result_id result);
                   r_command_id := to_string (res_command_id result);
                   r_result_hash := hash_token encoded; r_disposition := d; r_result := result;
                   r_received_at := now |}])%list in
          if negb late && is_terminal (c_state row) then d = StaleResult ∧ w' = w1
          else d = Applied ∧ apply_result w1 row late result now = Ok w'
      end.
Proof.
  unfold record_command_result. intros E. apply bind_Ok in E as ([] & E1 & E).
  apply bind_Ok in E as (row & E2%ok_or_Ok & E). apply bind_Ok in E as (v & E3%map_err_Ok & E).
  apply bind_Ok in E as (encoded & E4%ok_or_Ok & E). split; [done|]. exists row, encoded.
  split_and!; [done|by exists v|done|]. destruct (fetch _ (host_command_results w)); [by simplify_eq|].
  destruct (exists_row _ _); [done|]. apply bind_Ok in E as (w2 & E5 & E).
  destruct (negb _ && _); by simplify_eq.
Qed.

Definition answers (result : AgentCommandResult) (c : CommandRow) : Prop :=
  c_id c = to_string (res_command_id result)
  ∧ ∃ r, result_validate_against result (c_payload c) = Ok r.

(** Whether a report on [c] still counts for the placement [q]: the command
    was open, or its outcome was lost, nothing was ever taken for it, and the
    placement is still in doubt. *)
Definition still_counts (w : Work) (c : CommandRow) (q : string) : Prop :=
  is_terminal (c_state c) = false
  ∨ c_state c = CsUncertain ∧ placement_is_uncertain w q = true
    ∧ ∀ r, r ∈ host_command_results w → r_command_id r = c_id c → r_disposition r ≠ Applied.

Lemma record_touches w auth result now w' d :
  record_command_result p w auth result now = Ok (w', d) →
  ∃ row, row ∈ host_commands w ∧ c_host_id row = to_string (ah_host_id auth) ∧ answers result row
    ∧ touches (owns row) (λ k q t, owns row q ∧ t = now ∧ d = Applied
          ∧ report_takes k (c_kind row) (res_outcome result) = true ∧ still_counts w row q) w w'.
Proof.
  intros (_ & row & encoded & Hf & Hv & Hj & E)%record_command_result_Ok.
  apply fetch_Some in Hf as [Hin Hq]. bool_to_prop. exists row. split_and!; [done..|].
  destruct (fetch _ (host_command_results w)) eqn:Efr; [by destruct E as [-> _]|].
  simpl in E. destruct (negb _ && _) eqn:Et; destruct E as [-> E]; [subst; by apply touches_same|].
  set (w1 := set_results w _) in E. apply apply_result_touches in E.
  etrans; [by apply (touches_same _ _ w w1)|].
  eapply touches_mono; [done| |exact E]. intros k q t (Ho & -> & Hfr & Hl). split_and!; try done.
  apply andb_false_iff in Et as [Et|Et]; [right|by left]. apply negb_false_iff in Et. specialize (Hl Et).
  bool_to_prop. split_and!; [done..|]. intros r Hr Hid Hd.
  match goal with Hx : exists_row _ _ = false |- _ => apply (proj1 (exists_row_false _ _) Hx) in Hr end.
  unfold applied_result in Hr. rewrite Hid in Hr. bool_cases; congruence.
Qed.

(** ** Undeliverable commands *)

(** A command that expired before its workload could start, at the time [t]:
    a preparation past its deadline, or a preparation or a start that was never
    sent and no longer can be. *)
Definition expired_unstarted (h : HostRow) (t : Z) (c : CommandRow) : Prop :=
  (c_kind c = "prepare_environment" ∧ c_state c = CsDelivered ∧ c_deadline_at c ≤ t)
  ∨ (c_kind c = "prepare_environment" ∨ c_kind c = "start_runner") ∧ c_state c = CsPending
    ∧ (c_deadline_at c ≤ t + DELIVERY_MARGIN_MILLIS
       ∨ h_agent_session_id h ≠ Some (to_string (authority_session_id (c_payload c)))
       ∨ c_host_epoch c ≠ h_epoch h).

(** What a poll of [host] may expire at [t]. *)
Definition poll_expires (w : Work) (host q : string) (t : Z) : Prop :=
  ∃ h c, h ∈ fleet_hosts p ∧ h_id h = host ∧ c ∈ host_commands w ∧ c_host_id c = host ∧ owns c q
    ∧ expired_unstarted h t c.

Lemma undeliverable_due h t c :
  undeliverable h t c = true →
  c_host_id c = h_id h
  ∧ (c_state c = CsDelivered ∧ c_deadline_at c ≤ t
     ∨ c_state c = CsPending
       ∧ (c_deadline_at c ≤ t + DELIVERY_MARGIN_MILLIS
          ∨ h_agent_session_id h ≠ Some (to_string (authority_session_id (c_payload c)))
          ∨ c_host_epoch c ≠ h_epoch h)).
Proof.
  unfold undeliverable. intros Hu. apply andb_true_iff in Hu as [Hh Hu]. bool_to_prop. split; [done|].
  bool_cases; auto; right; (split; [done|]); auto; right; auto; left.
  destruct (h_agent_session_id h); done.
Qed.

Lemma cancel_one_touches h now w c w' :
  undeliverable h now c = true → cancel_one now w c = Ok w' →
  touches (owns c) (λ _ q t, owns c q ∧ t = now ∧ expired_unstarted h now c) w w'.
Proof.
  intros [_ Hst]%undeliverable_due E. unfold cancel_one in E. set (w1 := set_command_state _ _ _) in E.
  set (F := λ (k : Loss) (q : string) (t : Z), _ ∧ _).
  assert (touches (owns c) F w w1) as Hw by (unfold w1; touch).
  destruct (c_placement_id c) as [placement|] eqn:Ep; [|by simplify_eq].
  destruct (_ && String.eqb (c_kind c) "inspect"); [by simplify_eq|].
  destruct (bool_decide _ && negb _) eqn:Ed.
  { simplify_eq. etrans; [exact Hw|]. by apply update_placement_touches. }
  destruct (_ || _) eqn:Ek; [|by simplify_eq]. apply bind_Ok in E as (w2 & Er & [= <-]).
  assert (expired_unstarted h now c) as He.
  { unfold expired_unstarted. destruct Hst as [[Hs Hd]|[Hs Hd]]; rewrite Hs in Ed; bool_cases; auto; congruence. }
  etrans; [exact Hw|]. etrans; [by apply erase_bootstrap_touches with (placement := placement)|].
  etrans; [|by apply update_placement_touches]. by eapply release_touches; [..|exact Er].
Qed.

Lemma cancel_undeliverable_touches w host now w' :
  cancel_undeliverable p w host now = Ok w' →
  touches (λ q, ∃ c, c ∈ host_commands w ∧ owns c q) (λ _ q t, t = now ∧ poll_expires w host q now) w w'.
Proof.
  unfold cancel_undeliverable, host_row. destruct (fetch _ _) as [h|] eqn:Eh; [|by intros [= <-]].
  apply fetch_Some in Eh as [Hh Hid]. bool_to_prop.
  apply try_fold_ind; [|done]. intros s c s' [Hc Hu]%elem_of_select Hs E. etrans; [exact Hs|].
  pose proof (undeliverable_due _ _ _ Hu) as [Hhost _].
  eapply touches_mono; [| |by eapply cancel_one_touches]; [by eauto|].
  intros _ q t (? & -> & ?). split; [done|]. exists h, c. split_and!; congruence || done.
Qed.

Lemma deliver_touches S F w c now w' : deliver w c now = Ok w' → touches S F w w'.
Proof. unfold deliver. intros E. inv_result. by apply touches_same. Qed.

Lemma poll_touches w auth session now w' l :
  poll_commands p w auth session now = Ok (w', l) →
  touches (λ q, ∃ c, c ∈ host_commands w ∧ owns c q)
    (λ _ q t, t = now ∧ poll_expires w (to_string (ah_host_id auth)) q now) w w'.
Proof.
  unfold poll_commands. intros E. apply bind_Ok in E as (? & _ & E).
  destruct (negb _); [by simplify_eq|].
  apply bind_Ok in E as (w1 & E1%cancel_undeliverable_touches & E).
  destruct (negb _); [by simplify_eq|]. destruct (order_by _ _) as [|c rest]; [by simplify_eq|].
  apply bind_Ok in E as (w2 & E2 & [= <- _]). etrans; [exact E1|]. by eapply deliver_touches.
Qed.

(** ** Commands a reconnected agent never received *)
Definition unanswered_start (w : Work) (host : string) (epoch : Z) (session : string) (c : CommandRow)
    : Prop :=
  c ∈ host_commands w ∧ c_host_id c = host ∧ c_host_epoch c = epoch
  ∧ (c_kind c = "prepare_environment" ∨ c_kind c = "start_runner")
  ∧ (c_state c = CsDelivered ∨ c_state c = CsUncertain)
  ∧ to_string (authority_session_id (c_payload c)) ≠ session
  ∧ ∀ r, r ∈ host_command_results w → r_command_id r ≠ c_id c.

Lemma unreceived_unanswered w host epoch session c :
  c ∈ host_commands w → unreceived w host epoch session c = true →
  c_kind c = "prepare_environment" ∨ c_kind c = "start_runner" →
  unanswered_start w host epoch session c.
Proof.
  unfold unreceived. intros Hc Hu Hk. bool_to_prop. split_and!; try done.
  - bool_cases; auto.
  - intros r Hr. match goal with Hx : exists_row _ _ = false |- _ => rewrite exists_row_false in Hx; apply Hx in Hr end.
    by bool_to_prop.
Qed.

Lemma settle_one_touches now (P : CommandRow → Prop) st c st' :
  (c_kind c = "prepare_environment" ∨ c_kind c = "start_runner" → P c) → settle_one now st c = Ok st' →
  touches (owns c) (λ _ q t, t = now ∧ owns c q ∧ P c) st.1 st'.1
  ∧ (∀ q, q ∈ st'.2 → q ∈ st.2 ∨ owns c q).
Proof.
  intros Hun E. destruct st as [w touched]. unfold settle_one in E.
  set (w1 := add_event _ _ _ _) in E. set (F := λ (k : Loss) (q : string) (t : Z), _ ∧ _).
  assert (touches (owns c) F w w1) as Hw by (unfold w1; touch).
  destruct (c_placement_id c) as [placement|] eqn:Ep; [|simplify_eq; split; [done|auto]].
  destruct (_ || _) eqn:Ek.
  - apply bind_Ok in E as (w2 & Er & [= <-]). split; [|auto]. simpl. etrans; [exact Hw|].
    assert (P c) as HP by (apply Hun; bool_cases; auto).
    etrans; [by apply erase_bootstrap_touches with (placement := placement)|].
    etrans; [|by apply update_placement_touches]. by eapply release_touches; [..|exact Er].
  - destruct (negb _); simplify_eq; (split; [done|]); simpl; [|auto].
    intros q [?|Hq%list_elem_of_singleton]%elem_of_app; [auto|subst; auto].
Qed.

Lemma settle_touches w host epoch session now w' :
  settle_unreceived w host epoch session now = Ok w' →
  touches (λ q, ∃ c, c ∈ host_commands w ∧ owns c q)
    (λ _ q t, t = now ∧ ∃ c, owns c q ∧ unanswered_start w (to_string host) epoch session c) w w'.
Proof.
  unfold settle_unreceived. intros E. apply bind_Ok in E as (st & Est & [= <-]).
  set (S := λ q : string, ∃ c, c ∈ host_commands w ∧ owns c q).
  set (F := λ (k : Loss) (q : string) (t : Z), t = now ∧ _).
  assert (touches S F w st.1 ∧ ∀ q, q ∈ st.2 → S q) as [Hst Hq].
  { eapply (try_fold_ind _ (λ s, touches S F w s.1 ∧ ∀ q, q ∈ s.2 → S q)); [| |exact Est];
      [|by split; [|intros q Hq%not_elem_of_nil]].
    intros s c s' [Hc Hu]%elem_of_select [Hs Ht] E.
    apply (settle_one_touches _ (unanswered_start w (to_string host) epoch session)) in E as [E1 E2];
      [|by apply unreceived_unanswered].
    split; [|intros q [?|?]%E2; unfold S in *; eauto]. etrans; [exact Hs|].
    eapply touches_mono; [..|exact E1]; unfold S, F; naive_solver. }
  eapply (fold_left_ind _ (λ s, touches S F w s)); [|done].
  intros s placement Hin Hs. etrans; [exact Hs|]. apply Hq in Hin. unfold settle_touched. touch.
Qed.

(** ** The administrator's repair *)

(** What the loop keeps of the database it started from: an uncertain
    placement it has not reached is as it was, and so are answered
    commands. *)
Definition repair_frame (w s : Work) : Prop :=
  (∀ pl, pl ∈ workload_placements s → pl_state pl = Uncertain → pl ∈ workload_placements w)
  ∧ ∀ c, c_state c = CsSucceeded → (c ∈ host_commands s ↔ c ∈ host_commands w).

Lemma repair_frame_started w s pl h :
  repair_frame w s → Commands.started s pl h = Commands.started w pl h.
Proof.
  intros [_ Hc]. unfold Commands.started. f_equal. apply eq_true_iff_eq.
  rewrite !exists_row_true. split; intros (c & Hin & Hq); exists c; (split; [|done]);
    bool_to_prop; by apply Hc.
Qed.

Lemma update_where_untouched {A} (q : A → bool) f l a :
  (q a = false) → (∀ b, q b = true → f b ≠ a) → a ∈ update_where q f l ↔ a ∈ l.
Proof.
  intros Hq Hf. rewrite elem_of_update_where. split.
  - intros (b & Hb & ->). destruct (q b) eqn:E; [by destruct (Hf b E)|done].
  - intros Ha. exists a. by rewrite Hq.
Qed.

Definition repairable (w : Work) (host : string) (placements : list Uuid) (q : string) : Prop :=
  ∃ placement pl, placement ∈ placements ∧ to_string placement = q
    ∧ pl ∈ workload_placements w ∧ pl_id pl = q ∧ pl_host_id pl = host ∧ pl_state pl = Uncertain
    ∧ ∃ h, h ∈ fleet_hosts p ∧ h_id h = pl_host_id pl ∧ Commands.started w pl h = false.

Lemma repair_one_touches host placements now w st placement st' :
  repair_frame w st.1 → placement ∈ placements → repair_one p host now st placement = Ok st' →
  touches (λ q, ∃ pl, pl ∈ workload_placements w ∧ pl_id pl = q ∧ pl_state pl = Uncertain)
    (λ _ q t, t = now ∧ repairable w (to_string host) placements q) st.1 st'.1
  ∧ repair_frame w st'.1.
Proof.
  intros Hfr Hlisted E. destruct st as [s repaired]. unfold repair_one in E.
  destruct (fetch _ _) as [pl|] eqn:Efp; [|by simplify_eq].
  destruct (host_row p (pl_host_id pl)) as [h|] eqn:Eh; [|by simplify_eq].
  apply fetch_Some in Efp as [Hpl Hq]. apply fetch_Some in Eh as [Hh Hhid]. bool_to_prop.
  set (w1 := set_commands s _) in E. apply bind_Ok in E as (w2 & E2 & [= <-]).
  set (S := λ q, ∃ pl, _). set (F := λ (k : Loss) (q : string) (t : Z), t = now ∧ _). set (id := to_string placement) in *.
  assert (S id) as HS by (exists pl; split; [by apply Hfr|done]).
  assert (touches S F s w1) as Hw1 by by apply touches_same.
  assert (touches S F w1 w2 ∧ quiet w1 w2) as [Hw2 Hqt].
  { rewrite (repair_frame_started w s) in E2 by done.
    destruct (Commands.started w pl h) eqn:Est; [by simplify_eq|]. split.
    - assert (repairable w (to_string host) placements id) as Hrep.
      { exists placement, pl. split_and!; try done; [by apply Hfr|]. by exists h. }
      etrans; [by apply erase_bootstrap_touches with (placement := id)|].
      by eapply release_touches; [..|exact E2].
    - etrans; [apply erase_bootstrap_quiet|by eapply release_quiet]. }
  assert (touches (eq id) (λ _ q _, id = q) s w2) as Hid.
  { etrans; [by apply (touches_same _ _ s w1)|]. destruct (Commands.started s pl h); [by simplify_eq|].
    etrans; [by apply (erase_bootstrap_touches _ _ _ id now)|]. by eapply release_touches; [..|exact E2]. }
  split; [simpl; etrans; [exact Hw1|]; etrans; [exact Hw2|]; etrans; [|apply add_event_touches];
          by apply update_placement_touches|].
  destruct Hfr as [Hf1 Hf2]. split; simpl.
  - intros pl' (r' & Hr' & ->)%elem_of_update_where Hun.
    destruct (String.eqb (pl_id r') id) eqn:Eid; [simpl in Hun; by destruct (Commands.started s pl h)|].
    simpl in *. destruct (Forall2_elem_of_r _ _ _ _ (th_placements _ _ _ _ Hid) Hr') as (r & Hr & Ho & [->|Hid']);
      [by apply Hf1|bool_to_prop; congruence].
  - intros c Hc. rewrite (q_commands _ _ Hqt), <-Hf2 by done. unfold w1. simpl.
    apply update_where_untouched; [by rewrite Hc, andb_false_r|]. intros b _ <-. done.
Qed.

Definition administrator (principal : Principal) : Prop :=
  ∃ user, user_of principal = Some user ∧ role_of p user = Some "admin".

Lemma repair_touches w principal host placements now w' l :
  repair_unconfirmed p w principal host placements now = Ok (w', l) →
  administrator principal
  ∧ touches (λ q, ∃ pl, pl ∈ workload_placements w ∧ pl_id pl = q ∧ pl_state pl = Uncertain)
      (λ _ q t, t = now ∧ repairable w (to_string host) placements q) w w'.
Proof.
  unfold repair_unconfirmed. intros E. apply bind_Ok in E as (user & Eu%ok_or_Ok & E).
  apply bind_Ok in E as ([] & Ea & E). split.
  { exists user. split; [done|]. unfold ensure_system_admin in Ea. inv_result. by bool_to_prop. }
  set (S := λ q : string, ∃ pl, _). set (F := λ (k : Loss) (q : string) (t : Z), t = now ∧ _).
  eapply (try_fold_ind _ (λ s, touches S F w s.1 ∧ repair_frame w s.1)) in E as [E _]; [exact E| |].
  - intros s placement s' Hin [Hs Hf] [E1 E2]%(repair_one_touches _ placements _ w); [|done..].
    split; [by etrans|done].
  - split; [done|]. by split.
Qed.

(** ** Abandoning *)
Definition never_issued (w : Work) (q : string) : Prop :=
  ∀ c, c ∈ host_commands w → owns c q → c_kind c ≠ "start_runner".

(** Given up before it ran, or already proven gone. *)
Definition abandonable (w : Work) (q : string) : Prop :=
  ∃ pl, pl ∈ workload_placements w ∧ pl_id pl = q
    ∧ (unstarted_or_failed (pl_state pl) = true
       ∨ pl_local_absence_proven_at pl ≠ None ∧ pl_delayed_starts_excluded_at pl ≠ None).

Lemma abandon_touches w placement now w' b :
  abandon_unstarted w placement now = Ok (w', b) →
  touches (eq (to_string placement))
    (λ k q t, t = now ∧ q = to_string placement ∧ k = Freed ∧ never_issued w q ∧ abandonable w q) w w'.
Proof.
  unfold abandon_unstarted. intros E. destruct (exists_row _ (host_commands w)) eqn:Ex; [by simplify_eq|].
  apply bind_Ok in E as (w2 & Er%ok_or_Ok & [= <- _]).
  etrans; [apply touches_placements|eapply release_allocations_touches; [done| |exact Er]].
  - intros r Hr. apply andb_true_iff in Hr as [Hr _]. by apply String.eqb_eq in Hr.
  - intros Hp. split_and!; [done..| |].
    + intros c Hc Ho Hk. rewrite exists_row_false in Ex. apply Ex in Hc.
      unfold command_of in Hc. rewrite Ho, Hk in Hc. simpl in Hc. by rewrite bool_decide_true in Hc.
    + apply exists_row_true in Hp as (pl' & (pl & Hpl & ->)%elem_of_update_where & Hp). exists pl.
      split; [done|]. destruct (String.eqb (pl_id pl) _ && _) eqn:Eq; bool_to_prop; simpl in *; [by auto|].
      split; [done|]. right. by destruct (pl_local_absence_proven_at pl), (pl_delayed_starts_excluded_at pl).
Qed.
End results.

(** ** Why capacity is freed *)
Section causes.
Context `{UuidText, Codec, RequestJson, ResultJson, Aead} (p : Policy).

(** The reasons a transaction from [w] to [w'] may free the capacity of
    placement [q], or erase its secret, at [t]: which transaction it was, and
    what held of [w] when it ran. *)
Inductive loss_cause (w w' : Work) (k : Loss) (q : string) (t : Z) : Prop :=
| cause_reported auth result c :
    record_command_result p w auth result t = Ok (w', Applied) →
    c ∈ host_commands w → c_host_id c = to_string (ah_host_id auth) → owns c q → answers result c →
    report_takes k (c_kind c) (res_outcome result) = true → still_counts w c q →
    loss_cause w w' k q t
| cause_expired auth session l :
    poll_commands p w auth session t = Ok (w', l) →
    poll_expires p w (to_string (ah_host_id auth)) q t → loss_cause w w' k q t
| cause_unreceived host epoch session c :
    settle_unreceived w host epoch session t = Ok w' →
    owns c q → unanswered_start w (to_string host) epoch session c → loss_cause w w' k q t
| cause_repaired principal host placements l :
    repair_unconfirmed p w principal host placements t = Ok (w', l) →
    administrator p principal → repairable p w (to_string host) placements q → loss_cause w w' k q t
| cause_abandoned placement b :
    abandon_unstarted w placement t = Ok (w', b) → k = Freed →
    q = to_string placement → never_issued w q → abandonable w q → loss_cause w w' k q t.

(** Every other transaction only adds charges and secrets. *)
Record grows (w w' : Work) : Prop := {
  gr_allocations : ∃ l, capacity_allocations w' = (capacity_allocations w ++ l)%list;
  gr_material : ∃ l new, fleet_bootstrap_material w' = (l ++ new)%list
    ∧ Forall2 (erased_by (λ _ _ _, False)) (fleet_bootstrap_material w) l
    ∧ ∀ b, b ∈ new → bm_erased_at b = None
        ∧ ∀ b0, b0 ∈ fleet_bootstrap_material w → bm_reference b0 ≠ bm_reference b }.

Lemma grows_charges w w' l :
  capacity_allocations w' = (capacity_allocations w ++ l)%list →
  fleet_bootstrap_material w' = fleet_bootstrap_material w → grows w w'.
Proof.
  intros EA EM. split; [by exists l|]. exists (fleet_bootstrap_material w), []. rewrite app_nil_r.
  split; [done|]. split; [done|]. by intros b Hb%not_elem_of_nil.
Qed.

Lemma grows_same w w' :
  capacity_allocations w' = capacity_allocations w →
  fleet_bootstrap_material w' = fleet_bootstrap_material w → grows w w'.
Proof. intros EA. apply grows_charges with []. by rewrite app_nil_r. Qed.

Lemma claim_grows v w auth reference now w' r :
  claim_bootstrap p v w auth reference now = Ok (w', r) → grows w w'.
Proof.
  unfold claim_bootstrap. intros E. inv_result. simplify_eq.
  split; [exists []; by rewrite app_nil_r|].
  eexists _, []. rewrite app_nil_r. split; [simpl; reflexivity|]. split; [|by intros b Hb%not_elem_of_nil].
  apply update_where_Forall2; [apply _|]. intros b _ _. split; [done|by left].
Qed.

Lemma store_grows v w placement material ttl drawn nonce now w' r :
  store_bootstrap w v placement material ttl drawn nonce now = Ok (w', r) → grows w w'.
Proof.
  unfold store_bootstrap. intros E. do 2 (apply bind_Ok in E as (? & _ & E)).
  destruct (placement_row _ _); [|simplify_eq; by apply grows_same].
  destruct (_ || _) eqn:Ef; [done|]. simplify_eq. bool_to_prop.
  split; [exists []; by rewrite app_nil_r|]. eexists _, _. split; [simpl; reflexivity|]. split; [done|].
  intros b Hb%list_elem_of_singleton. subst b. split; [done|]. simpl. by apply no_row_named.
Qed.

Lemma loss_touches S F w w' :
  (∀ k q t, F k q t → loss_cause w w' k q t) → touches S F w w' → ∃ S, touches S (loss_cause w w') w w'.
Proof. intros HF Ht. exists S. by eapply touches_mono; [..|exact Ht]. Qed.

Lemma step_losses w w' : step p w w' → (∃ S, touches S (loss_cause w w') w w') ∨ grows w w'.
Proof.
  intros Hs. destruct Hs as [????? s E|???? b E|?????? outcome E|????? E|?????? E|????? E|????? E|?????? E
    |? ? ? ? ? ? ? ? E|??????? ? ? E|???? E|???? E|????? b E];
    eauto using claim_grows, store_grows; [right|right|right|left|left|left|left|right|right|left|right].
  - apply submit_intent_Ok in E as (? & ? & _ & _ & _ & E).
    destruct (operation_by_key _ _ _); [destruct E as [-> _]; by apply grows_same|].
    destruct E as (? & _ & _ & _ & _ & _ & -> & _). by apply grows_same.
  - unfold cancel_queued in E. injection E as <- <-. by apply grows_same; case_match.
  - apply admit_operation_Ok in E as [_ E].
    destruct outcome; [|destruct E as [? ->]; by apply grows_same|subst; by apply grows_same].
    destruct E as (intent & c & cs & t & _ & _ & _ & _ & _ & _ & _ & Hins%insert_admission_Ok).
    destruct (ar_allocations _ _ _ _ _ _ _ Hins) as (path & ids & _ & _ & EA & _).
    eapply grows_charges; [exact EA|]. by apply (ar_rest _ _ _ _ _ _ _ Hins).
  - eapply loss_touches, poll_touches, E. intros k q t [-> ?]. eauto using loss_cause.
  - pose proof E as (c & ? & ? & ? & Ht)%record_touches. eapply loss_touches, Ht.
    intros k q t (? & -> & -> & ? & ?). eauto 10 using loss_cause.
  - eapply loss_touches, settle_touches, E. intros k q t (-> & c & ? & ?). eauto using loss_cause.
  - pose proof E as [? Ht]%repair_touches. eapply loss_touches, Ht. intros k q t [-> ?]. eauto using loss_cause.
  - apply issue_command_Ok in E as [[-> _]|(? & -> & _)]; by apply grows_same.
  - unfold mark_starting in E. inv_result. by apply grows_same.
  - eapply loss_touches, abandon_touches, E. intros k q t (-> & ? & ? & ? & ?). eauto using loss_cause.
  - injection E as <- <-. by apply grows_same.
Qed.

(** C2: Capacity is freed only for a reason.  Whenever a transaction turns a
    charge from held to released, the charge records the moment, and the
    transaction is one of these five, run at that moment in a state that
    allows it.  A report of the command's own machine that counted, on a
    command still open or one whose outcome was lost and whose placement is
    still in doubt, saying that the preparation or the start failed, that the
    preparation's fate is unknown, or that the machine is clean.  A poll of the
    machine that finds a sent preparation past its deadline, or a preparation
    or start never sent that is within five seconds of its deadline or was
    meant for another session or epoch.  A reconnection under another session
    with a preparation or start sent in this epoch and never answered.  A
    repair by an administrator naming a placement of that machine, uncertain
    and without a confirmed start in the machine's epoch.  Or giving up a
    placement for which no start was ever issued and which had not come further
    than registering, or had failed, or was already proven gone.  A delivered
    start in particular never frees capacity by expiring. *)
Theorem capacity_freed_with_cause (w w' : Work) (n : nat) (a a' : AllocationRow) :
  step p w w' →
  capacity_allocations w !! n = Some a → capacity_allocations w' !! n = Some a' →
  a_state a ≠ AllocReleased → a_state a' = AllocReleased →
  ∃ t, a_released_at a' = Some t ∧ loss_cause w w' Freed (a_placement_id a) t.
Proof.
  intros [[S Ht]|[[l EA] _]]%step_losses Ha Ha' Hn Hr.
  - destruct (Forall2_lookup_lr _ _ _ _ _ _ (th_freed _ _ _ _ Ht) Ha Ha') as [_ Hc]. by destruct (Hc Hr) as [[]|].
  - rewrite EA, lookup_app_l in Ha' by by eapply lookup_lt_Some. congruence.
Qed.

(** A report reaches only the placement its command was for: it answers
    a stored command of the reporting host, and every placement, charge and
    bootstrap secret of any other placement is exactly as before. *)
Theorem report_reaches_one_placement (w w' : Work) (auth : AuthenticatedHost)
    (result : AgentCommandResult) (now : Z) (d : Disposition) :
  record_command_result p w auth result now = Ok (w', d) →
  ∃ c, c ∈ host_commands w ∧ answers result c
    ∧ (∀ pl, pl ∈ workload_placements w → ¬ owns c (pl_id pl) → pl ∈ workload_placements w')
    ∧ (∀ a, a ∈ capacity_allocations w → ¬ owns c (a_placement_id a) → a ∈ capacity_allocations w')
    ∧ (∀ b, b ∈ fleet_bootstrap_material w → ¬ owns c (bm_placement_id b) →
         b ∈ fleet_bootstrap_material w').
Proof.
  intros (c & Hc & _ & Ha & [HP HA HB _ _])%record_touches. exists c. split; [done|]. split; [done|].
  split_and!; intros r; by eapply untouched_row.
Qed.

(** *** Duplicates *)
Lemma fetch_Forall2 {A} (R : A → A → Prop) (q : A → bool) l l' a :
  Forall2 R l l' → (∀ b b', R b b' → q b' = q b) → fetch q l = Some a →
  ∃ a', fetch q l' = Some a' ∧ R a a'.
Proof.
  intros HF Hq. induction HF as [|b b' l l' Hb HF IH]; simpl; [done|]. rewrite (Hq _ _ Hb).
  destruct (q b); [|by auto]. intros [= <-]. eauto.
Qed.

(** A report that arrives twice counts once.  If the agent's report was
    taken and the same bytes arrive again, whenever the credential is still
    good, the answer is the one it got the first time and the database does
    not change. *)
Theorem duplicate_report_absorbed (w w' : Work) (auth : AuthenticatedHost)
    (result : AgentCommandResult) (now later : Z) (d : Disposition) :
  record_command_result p w auth result now = Ok (w', d) →
  ensure_authenticated_generation p auth later = Ok tt →
  record_command_result p w' auth result later = Ok (w', d).
Proof.
  intros E Hauth. pose proof (record_command_result_evolves _ _ _ _ _ _ _ E) as [_ _ HC _ _].
  apply record_command_result_Ok in E as (_ & row & encoded & Hf & [v Hv] & Hj & E).
  eapply fetch_Forall2 in Hf as (row' & Hf' & Hrow); [|exact HC|].
  2: { intros b b' Hb. by rewrite <-(c_evolves_field c_id ltac:(done) _ _ Hb),
         <-(c_evolves_field c_host_id ltac:(done) _ _ Hb). }
  unfold record_command_result. rewrite Hauth. simpl. rewrite Hf'. simpl.
  rewrite <-(c_evolves_field c_payload ltac:(done) _ _ Hrow), Hv. simpl. rewrite Hj. simpl.
  destruct (fetch _ (host_command_results w)) as [r|] eqn:Efr.
  { destruct E as [-> ->]. by rewrite Efr. }
  simpl in E. set (w1 := set_results w _) in E.
  assert (host_command_results w' = host_command_results w1) as ->.
  { destruct (negb _ && _); destruct E as [_ E]; [by rewrite E|]. by apply apply_result_log in E as [_ ->]. }
  unfold w1. simpl. rewrite fetch_app, Efr. simpl. by rewrite !String.eqb_refl.
Qed.
End causes.

(** ** Delivery *)
Section delivery.
Context `{UuidText, Codec, RequestJson, ResultJson, Aead} (p : Policy).

Definition open_state (s : CommandState) : bool :=
  match s with CsPending | CsDelivered => true | _ => false end.

(** Expiring commands opens none, and records no attempt. *)
Lemma cancel_one_log now s c s' :
  cancel_one now s c = Ok s' →
  ∃ t, open_state t = false
    ∧ host_commands s' = update_where (λ d, String.eqb (c_id d) (c_id c)) (c_set_state t) (host_commands s)
    ∧ host_command_attempts s' = host_command_attempts s
    ∧ host_command_results s' = host_command_results s.
Proof.
  unfold cancel_one. set (t := if bool_decide _ then CsUncertain else CsCancelled). intros E.
  exists t. split; [unfold t; by destruct (bool_decide _)|]. set (w1 := set_command_state _ _ _) in E.
  assert (quiet w1 s') as [-> -> ->]; [|done].
  destruct (c_placement_id c) as [placement|]; [|by simplify_eq].
  destruct (_ && String.eqb (c_kind c) "inspect"); [by simplify_eq|].
  destruct (_ && negb _); [by simplify_eq|]. destruct (_ || _); [|by simplify_eq].
  apply bind_Ok in E as (w2 & Er%release_quiet & [= <-]).
  etrans; [apply erase_bootstrap_quiet|]. by etrans; [exact Er|].
Qed.

Lemma cancel_undeliverable_log w host now w' :
  cancel_undeliverable p w host now = Ok w' →
  (∀ c, c ∈ host_commands w' → open_state (c_state c) = true → c ∈ host_commands w)
  ∧ host_command_attempts w' = host_command_attempts w
  ∧ host_command_results w' = host_command_results w.
Proof.
  unfold cancel_undeliverable. destruct (host_row p host) as [h|]; [|by intros [= <-]].
  apply (try_fold_ind _ (λ s, (∀ c, c ∈ host_commands s → open_state (c_state c) = true →
    c ∈ host_commands w) ∧ host_command_attempts s = host_command_attempts w
    ∧ host_command_results s = host_command_results w)); [|done].
  intros s c s' _ (IH1 & IH2 & IH3) (t & Ht & E1 & E2 & E3)%cancel_one_log.
  split_and!; [|congruence..]. intros d Hd Ho. rewrite E1 in Hd.
  apply elem_of_update_where in Hd as (e & He & ->). case_match; [|by apply IH1].
  simpl in Ho. congruence.
Qed.

(** The agent's own check of an envelope, [protocol/commands.rs]. *)
Definition acceptable (e : AgentCommandEnvelope) : Prop :=
  ∀ session t, bound_to e session → issued_at e ≤ t < deadline_at e →
    t < es_authority_expires_at session →
    (is_start_runner (operation e) = true → deadline_at e ≤ es_authority_expires_at session) →
    validate_against e session t = Ok e.

Lemma command_wf_acceptable c : command_wf c → acceptable (c_payload c).
Proof.
  intros [[e He] _] session t Hb Ht Hexp Hst. apply (seal_validate e); [done|].
  unfold seal_hash in He. inv_result. rewrite <-He in *. done.
Qed.

Lemma deliverable_state w host session now c :
  deliverable w host session now c = true →
  c_host_id c = host ∧ now + DELIVERY_MARGIN_MILLIS < c_deadline_at c
  ∧ to_string (authority_session_id (c_payload c)) = session
  ∧ open_state (c_state c) = true
  ∧ (c_state c = CsPending
     ∨ c_state c = CsDelivered ∧ c_attempt_count c < MAX_ATTEMPTS
       ∧ ∀ a, a ∈ host_command_attempts w → at_command_id a = c_id c →
           at_recorded_at a ≤ now - REDELIVERY_MILLIS).
Proof.
  unfold deliverable. intros Hd. bool_to_prop.
  match goal with Hst : _ || _ = true |- _ => rename Hst into Hs end.
  assert (c_state c = CsPending ∨ c_state c = CsDelivered ∧ c_attempt_count c < MAX_ATTEMPTS
    ∧ ∀ a, a ∈ host_command_attempts w → at_command_id a = c_id c →
           at_recorded_at a ≤ now - REDELIVERY_MILLIS) as Hst.
  { apply orb_true_iff in Hs as [Hs|Hs]; bool_to_prop; [by left|right]. split_and!; try done.
    intros a Ha Hid. match goal with Hx : exists_row _ _ = false |- _ =>
      rewrite exists_row_false in Hx; apply Hx in Ha end.
    rewrite Hid, String.eqb_refl in Ha. simpl in Ha. by bool_to_prop. }
  split_and!; try done. by destruct Hst as [->|[-> _]].
Qed.

(** What a poll hands to the agent, when it hands anything. *)
Record delivery (w w' : Work) (auth : AuthenticatedHost) (session : Uuid) (now : Z)
    (c : CommandRow) : Prop := {
  dl_stored : c ∈ host_commands w;
  dl_host : c_host_id c = to_string (ah_host_id auth);
  dl_session : to_string (authority_session_id (c_payload c)) = to_string session;
  dl_authority : session_authorized p (to_string (ah_host_id auth)) (to_string session) now = true;
  dl_deadline : now + DELIVERY_MARGIN_MILLIS < deadline_at (c_payload c);
  dl_due : c_state c = CsPending
           ∨ c_state c = CsDelivered
             ∧ ∀ a, a ∈ host_command_attempts w → at_command_id a = c_id c →
                 at_recorded_at a ≤ now - REDELIVERY_MILLIS;
  dl_marked : c_set CsDelivered (c_attempt_count c + 1) c ∈ host_commands w';
  dl_attempts : c_attempt_count c + 1 ≤ MAX_ATTEMPTS;
  dl_acceptable : acceptable (c_payload c) }.

Lemma poll_delivery (w w' : Work) (auth : AuthenticatedHost) (session : Uuid)
    (now : Z) (l : list AgentCommandEnvelope) :
  consistent w → poll_commands p w auth session now = Ok (w', l) →
  l = [] ∨ ∃ c, l = [c_payload c] ∧ delivery w w' auth session now c.
Proof.
  intros Hw E. unfold poll_commands in E. apply bind_Ok in E as (? & _ & E).
  destruct (negb _); [left; by simplify_eq|].
  apply bind_Ok in E as (w1 & (Hopen & Hatt & _)%cancel_undeliverable_log & E).
  destruct (session_authorized _ _ _ _) eqn:Ea; simpl in E; [|left; by simplify_eq].
  destruct (order_by _ _) as [|c rest] eqn:Eo; [left; by simplify_eq|].
  apply bind_Ok in E as (w2 & E2 & [= <- <-]). right. exists c. split; [done|].
  assert (c ∈ c :: rest) as Hin by constructor. rewrite <-Eo in Hin.
  apply elem_of_order_by, elem_of_select in Hin as [Hin (Hh & Hdl & Hs & Hop & Hdue)%deliverable_state].
  apply Hopen in Hop; [|done]. destruct (inv_sealed _ Hw c Hop) as (_ & _ & _ & Hd & _).
  unfold deliver in E2. inv_result. bool_to_prop. rewrite Z.gtb_ltb in *. bool_to_prop.
  split; try done.
  - by rewrite <-Hd.
  - rewrite <-Hatt. destruct Hdue as [?|(? & _ & ?)]; auto.
  - simpl. apply elem_of_update_where. exists c. by rewrite String.eqb_refl.
  - by apply command_wf_acceptable, (inv_sealed _ Hw).
Qed.

(** C25: A poll hands the agent at most one command, and a command the agent
    will take: stored for that machine and that agent session, while the
    session holds authority, with more than five seconds left; new, or sent
    before but not in the last minute, and at most ten times in all; sealed
    for the agent's check.  Its delivery is recorded with it. *)
Theorem poll_delivers_one_acceptable (w w' : Work) (auth : AuthenticatedHost) (session : Uuid)
    (now : Z) (l : list AgentCommandEnvelope) :
  rtc any_step new_database w → poll_commands p w auth session now = Ok (w', l) →
  l = [] ∨ ∃ c, l = [c_payload c] ∧ delivery w w' auth session now c.
Proof.
  intros Hr. apply poll_delivery. eapply rtc_consistent; [exact Hr|apply new_database_consistent].
Qed.
End delivery.

Module SampleDelivery.
Import SampleFleet SampleService SampleAdmission SampleRun.

Lemma failed_step : step policy w_delivered w_failed.
Proof. by apply record_step; vm_compute. Qed.

Lemma capacity_freed_with_cause_witness :
  ∃ a t, capacity_allocations w_delivered !! 0%nat = Some a ∧ a_state a = AllocReserved
    ∧ loss_cause policy w_delivered w_failed Freed (a_placement_id a) t.
Proof.
  assert (match capacity_allocations w_delivered !! 0%nat with
          | Some a => a_state a = AllocReserved | None => False end) as Ha by (vm_compute; reflexivity).
  assert (match capacity_allocations w_failed !! 0%nat with
          | Some a => a_state a = AllocReleased | None => False end) as Ha' by (vm_compute; reflexivity).
  destruct (capacity_allocations w_delivered !! 0%nat) as [a|] eqn:E; [|destruct Ha].
  destruct (capacity_allocations w_failed !! 0%nat) as [a'|] eqn:E'; [|destruct Ha'].
  destruct (capacity_freed_with_cause policy w_delivered w_failed 0 a a') as (t & _ & Hc).
  - exact failed_step.
  - exact E.
  - exact E'.
  - rewrite Ha. discriminate.
  - exact Ha'.
  - exists a, t. split; [reflexivity|]. split; [exact Ha|exact Hc].
Defined.

Lemma report_reaches_one_placement_witness :
  ∃ c, c ∈ host_commands w_delivered ∧ answers prepare_failed c.
Proof.
  destruct (report_reaches_one_placement policy w_delivered w_failed auth prepare_failed 4000 Applied)
    as (c & Hc & Ha & _); [vm_compute; reflexivity|]. exact (ex_intro _ c (conj Hc Ha)).
Defined.

Lemma duplicate_report_absorbed_witness :
  record w_failed prepare_failed 9000 = Ok (w_failed, Applied).
Proof.
  apply (duplicate_report_absorbed policy w_delivered w_failed auth prepare_failed 4000 9000 Applied).
  - vm_compute. reflexivity.
  - vm_compute. reflexivity.
Defined.

(** The first poll after the admission delivers the preparation. *)
Lemma poll_delivers_one_acceptable_witness :
  ∃ c l, poll w_placed 3000 = Ok (w_delivered, l) ∧ l = [c_payload c]
    ∧ delivery policy w_placed w_delivered auth 7 3000 c.
Proof.
  destruct (after_Ok (poll w_placed 3000)) as [l E]; [vm_compute; reflexivity|].
  assert (match poll w_placed 3000 with Ok (_, []) => False | _ => True end) as Hl
    by (vm_compute; exact I).
  rewrite E in Hl.
  destruct (poll_delivers_one_acceptable policy w_placed w_delivered auth 7 3000 l) as [->|(c & Hc & Hd)].
  - apply reachable_any, placed_reachable.
  - exact E.
  - destruct Hl.
  - exists c, l. split; [exact E|]. exact (conj Hc Hd).
Defined.
End SampleDelivery.
