(* ===== verification/Secrets.v ===== *)
(** * Bootstrap secrets

    The one-time material a runner registers with: it is handed only to the
    machine it was stored for, and nothing readable is left once the start is
    concluded ([store_bootstrap] of [placement.rs], [claim_bootstrap] and
    [apply_to_placement] of [registry/commands.rs]). *)
From S2P Require Import Prelude Base64 Ids Domain Protocol Outcomes Capabilities Crypto Store Service Admission AdmissionSpec Deletion Commands Placement Evolution Fleet CommandsSpec.
#[local] Open Scope string_scope.
#[local] Open Scope Z_scope.

(** An erased row holds no ciphertext. *)
Definition material_wf (w : Work) : Prop :=
  ∀ b, b ∈ fleet_bootstrap_material w → is_Some (bm_erased_at b) → bm_sealed b = None.

Lemma release_material w placement now w' :
  release w placement now = Ok w' → fleet_bootstrap_material w' = fleet_bootstrap_material w.
Proof. unfold release, release_allocations. intros E. by inv_result. Qed.

Lemma placement_effect_material w placement kind outcome now w' next :
  placement_effect w placement kind outcome now = Ok (Some (w', next)) →
  fleet_bootstrap_material w' = fleet_bootstrap_material w.
Proof.
  unfold placement_effect. intros E.
  destruct outcome as [| |ev| |]; repeat (case_match; try done); inv_result; simplify_eq;
    eauto using release_material.
Qed.

Section secrets.
Context `{UuidText, Codec, RequestJson, ResultJson, Aead} (p : Policy).

Lemma apply_to_placement_material w placement kind result now w' :
  apply_to_placement w placement kind result now = Ok w' →
  fleet_bootstrap_material w'
  = fleet_bootstrap_material
      (if String.eqb kind "start_runner" && negb (is_progress (res_outcome result))
       then erase_bootstrap w placement now else w).
Proof.
  unfold apply_to_placement. intros E. apply bind_Ok in E as (effect & E1 & E).
  destruct effect as [[w2 next]|]; simplify_eq; [|done]. by apply placement_effect_material in E1.
Qed.

(** ** Rows over time *)
Lemma erased_by_wf F l l' :
  Forall2 (erased_by F) l l' → (∀ b, b ∈ l → is_Some (bm_erased_at b) → bm_sealed b = None) →
  ∀ b', b' ∈ l' → is_Some (bm_erased_at b') → bm_sealed b' = None.
Proof.
  intros HF Hl b' Hb' He. destruct (Forall2_elem_of_r _ _ _ _ HF Hb') as (b & Hb & _ & [[Es Ee]|(t & ? & _)]); [|done].
  rewrite Es. apply Hl; [done|]. by rewrite <-Ee.
Qed.

Lemma step_material w w' : step p w w' → material_wf w → material_wf w'.
Proof.
  intros [[S Ht]|[_ (l & new & EM & HF & Hnew)]]%step_losses Hw b; [by eapply erased_by_wf; [apply Ht|]|].
  rewrite EM. intros [Hb|Hb]%elem_of_app; [by eapply erased_by_wf|].
  destruct (Hnew b Hb) as [-> _]. by intros [? ?].
Qed.
End secrets.

(** ** Handing over *)
Section handover.
Context `{UuidText, Codec, RequestJson, ResultJson, Aead} (p : Policy).

Lemma reachable_material w : rtc any_step new_database w → material_wf w.
Proof.
  intros Hr. assert (material_wf new_database) as Hw by (intros b Hb; by apply not_elem_of_nil in Hb).
  induction Hr as [|w1 w2 w3 Hs _ IH]; [done|]. apply IH.
  destruct Hs as [[p' Hs]|p' pool p2 (_ & _ & ->)%delete_pool_Ok]; [by eapply step_material|].
  intros b [Hb _]%elem_of_delete. by apply Hw.
Qed.

(** The only secret under its reference, and where it is. *)
Definition sole (n : nat) (reference : string) (b : BootstrapRow) (w : Work) : Prop :=
  fleet_bootstrap_material w !! n = Some b ∧ bm_reference b = reference
  ∧ ∀ m c, fleet_bootstrap_material w !! m = Some c → bm_reference c = reference → m = n.

Lemma sole_Forall2 F n reference b w w' l new :
  sole n reference b w → Forall2 (erased_by F) (fleet_bootstrap_material w) l →
  fleet_bootstrap_material w' = (l ++ new)%list → (∀ c, c ∈ new → bm_reference c ≠ reference) →
  ∃ b', sole n reference b' w' ∧ erased_by F b b'.
Proof.
  intros (Hb & Hid & Honly) HF EM Hnew. destruct (Forall2_lookup_l _ _ _ _ _ HF Hb) as (b' & Hb' & He).
  exists b'. split; [|done]. split; [by rewrite EM; apply lookup_app_l_Some|].
  split; [destruct He as [(-> & _) _]; done|]. intros m c Hc Hcid. rewrite EM in Hc.
  apply lookup_app_Some in Hc as [Hc|[_ Hc%list_elem_of_lookup_2]]; [|by apply Hnew in Hc].
  destruct (Forall2_lookup_r _ _ _ _ _ HF Hc) as (c0 & Hc0 & [(Er & _) _]).
  apply (Honly m c0); [done|]. congruence.
Qed.

(** Why the secret of placement [q], readable in [w0], is gone in [w]: some
    transaction in between erased it for one of the causes of [loss_cause]. *)
Definition erased_since (w0 w : Work) (q : string) : Prop :=
  ∃ p1 wa wb t, rtc work_step w0 wa ∧ step p1 wa wb ∧ rtc work_step wb w ∧ loss_cause p1 wa wb Erased q t.

Lemma erased_since_more w0 w w' q : work_step w w' → erased_since w0 w q → erased_since w0 w' q.
Proof. intros Hs (p1 & wa & wb & t & ? & ? & ? & ?). exists p1, wa, wb, t. split_and!; eauto using rtc_r. Qed.

(** A stored secret, in every later state: as it was stored, or erased for a
    reason. *)
Lemma stored_secret w0 w n reference b0 sealed :
  sole n reference b0 w0 → bm_sealed b0 = Some sealed → rtc work_step w0 w →
  ∃ b, sole n reference b w ∧ bm_host_id b = bm_host_id b0 ∧ bm_expires_at b = bm_expires_at b0
    ∧ bm_placement_id b = bm_placement_id b0
    ∧ (bm_sealed b = Some sealed ∨ bm_sealed b = None ∧ erased_since w0 w (bm_placement_id b0)).
Proof.
  intros Hsole Hsealed. revert w. apply rtc_ind_r; [exists b0; by auto 10|].
  intros w1 w2 Hr [p1 Hs] (b & Hb & Hh & Hx & Hp & Hst).
  assert (∃ F b', sole n reference b' w2 ∧ erased_by F b b'
    ∧ ∀ t, F Erased (bm_placement_id b0) t → erased_since w0 w2 (bm_placement_id b0)) as (F & b' & Hb' & He & HF).
  { pose proof Hs as [[S Ht]|[_ (l & new & EM & HF & Hnew)]]%step_losses.
    - exists (loss_cause p1 w1 w2).
      destruct (sole_Forall2 _ _ _ _ _ w2 _ [] Hb (th_erased _ _ _ _ Ht)) as (b' & ? & ?);
        [by rewrite app_nil_r|by intros c Hc%not_elem_of_nil|].
      exists b'. split_and!; [done..|]. intros t Hc. exists p1, w1, w2, t. by split_and!.
    - destruct (sole_Forall2 _ _ _ _ _ _ _ _ Hb HF EM) as (b' & ? & ?); [|by exists (λ _ _ _, False), b'; split_and!].
      intros c Hc <-. destruct (Hnew c Hc) as [_ Hfresh]. destruct Hb as (Hin & Hid & _).
      apply (Hfresh b); [by eapply list_elem_of_lookup_2|done]. }
  exists b'. destruct He as [(_ & Ep & Eh & Ex) He]. split_and!; [done|congruence..|].
  destruct He as [[-> _]|(t & -> & _ & Ht)]; [|right; split; [done|]; eapply HF; by rewrite <-Hp].
  destruct Hst as [->|[-> Hgone]]; [by left|right]. split; [done|]. eapply erased_since_more, Hgone. by exists p1.
Qed.

Lemma fetch_sole (q : BootstrapRow → bool) n reference b w :
  sole n reference b w → (∀ c, q c = true → bm_reference c = reference) →
  fetch q (fleet_bootstrap_material w) = if q b then Some b else None.
Proof.
  intros (Hb & Hid & Honly) Hq. destruct (fetch q _) as [c|] eqn:Ef.
  - apply fetch_Some in Ef as [[m Hc]%list_elem_of_lookup Hqc].
    assert (m = n) as -> by (eapply Honly; eauto). assert (c = b) as -> by congruence. by rewrite Hqc.
  - rewrite fetch_None in Ef. rewrite (Ef b); [done|]. by eapply list_elem_of_lookup_2.
Qed.

Lemma store_sole (v : Vault) w w' placement reference drawn material ttl now nonce pl :
  placement_row w (to_string placement) = Some pl →
  store_bootstrap w v placement material ttl drawn nonce now = Ok (w', reference) →
  ∃ n b sealed, seal v nonce material = Ok sealed ∧ sole n (to_string reference) b w'
    ∧ bm_sealed b = Some sealed ∧ bm_host_id b = pl_host_id pl ∧ bm_placement_id b = pl_id pl
    ∧ bm_expires_at b = now + ttl.
Proof.
  intros Hpl E. unfold store_bootstrap in E.
  apply bind_Ok in E as (ref & Href & E). apply bind_Ok in E as (sealed & Hs%map_err_Ok & E).
  rewrite Hpl in E. destruct (_ || _) eqn:Efresh; [done|]. simplify_eq. bool_to_prop.
  eexists (length (fleet_bootstrap_material w)), _, sealed. split; [done|].
  split; [split; [simpl; by rewrite lookup_app_r, Nat.sub_diag|split; [done|]]|done].
  intros m c Hc Hid. simpl in Hc. apply lookup_app_Some in Hc as [Hc%list_elem_of_lookup_2|[Hm Hc]].
  - match goal with Hx : exists_row _ _ = false |- _ => apply (proj1 (exists_row_false _ _) Hx) in Hc end.
    by rewrite Hid, String.eqb_refl in Hc.
  - apply list_lookup_singleton_Some in Hc as [Hm' _]. lia.
Qed.


(** Once the agent reports how a start ended, in any reachable state, no
    readable bootstrap material is left for that placement, whatever the
    outcome was. *)
Theorem concluded_start_leaves_no_secret (w w' : Work) (auth : AuthenticatedHost)
    (result : AgentCommandResult) (now : Z) (c : CommandRow) (q : string) (b : BootstrapRow) :
  rtc any_step new_database w →
  record_command_result p w auth result now = Ok (w', Applied) →
  host_command_results w' ≠ host_command_results w →
  c ∈ host_commands w → c_id c = to_string (res_command_id result) →
  c_kind c = "start_runner" → owns c q → c_state c ≠ CsUncertain →
  is_progress (res_outcome result) = false →
  b ∈ fleet_bootstrap_material w' → bm_placement_id b = q → bm_sealed b = None.
Proof.
  intros Hr E Hnew Hc Hid Hk Ho Hu Hp Hb Hq.
  assert (NoDup (c_id <$> host_commands w)) as Hnd.
  { apply inv_commands. eapply rtc_consistent; [exact Hr|apply new_database_consistent]. }
  apply reachable_material in Hr as Hwf.
  apply record_command_result_Ok in E as (_ & row & encoded & [Hrow Hrq]%fetch_Some & _ & _ & E).
  bool_to_prop. assert (row = c) as -> by (eapply unique_by; eauto; congruence).
  destruct (fetch _ (host_command_results w)); [by destruct E as [-> _]|].
  rewrite bool_decide_false in E by done. simpl in E.
  destruct (is_terminal (c_state c)); [by destruct E|]. destruct E as [_ E].
  unfold apply_result in E. rewrite Ho in E. simpl in E.
  apply bind_Ok in E as (w3 & E3%apply_to_placement_material & [= <-]). simpl in Hb.
  rewrite E3, Hk, Hp in Hb. simpl in Hb.
  apply elem_of_update_where in Hb as (b0 & Hb0 & ->).
  destruct (_ && is_null (bm_erased_at b0)) eqn:Eb; [done|]. apply Hwf; [done|].
  rewrite Hq, String.eqb_refl in Eb. simpl in Eb. destruct (bm_erased_at b0); [by eexists|done].
Qed.
End handover.

Module SampleSecrets.
Import SampleFleet SampleService SampleRun.


(** The start's command does not take the material away; the report of how the
    start went does. *)
Example claimed_until_resolved :
  (∃ w, claim_bootstrap policy PlainAead.vault w_sent auth 101 6000 = Ok (w, Ok "jit"))
  ∧ claim_bootstrap policy PlainAead.vault w_running auth 101 8000 = Err RegNotFound.
Proof. split; [eexists|]; vm_compute; reflexivity. Qed.

Lemma concluded_start_leaves_no_secret_witness :
  ∃ b, fleet_bootstrap_material w_running = [b] ∧ bm_sealed b = None.
Proof.
  destruct (host_commands w_sent !! 1%nat) as [c|] eqn:Ec; [|by vm_compute in Ec].
  assert (match host_commands w_sent !! 1%nat with
          | Some c => c_id c = id 102 ∧ c_kind c = "start_runner" ∧ c_placement_id c = Some (id 70)
                      ∧ c_state c = CsDelivered
          | None => False end) as Hc by (vm_compute; repeat split).
  rewrite Ec in Hc. destruct Hc as (Hid & Hk & Hpl & Hst).
  assert (match fleet_bootstrap_material w_running with
          | [b] => bm_placement_id b = id 70 | _ => False end) as Hb by (vm_compute; reflexivity).
  destruct (fleet_bootstrap_material w_running) as [|b [|b2 l2]] eqn:Eb; [destruct Hb| |destruct Hb].
  exists b. split; [reflexivity|].
  apply (concluded_start_leaves_no_secret policy w_sent w_running auth started 7000 c (id 70) b).
  - apply reachable_any, sent_reachable.
  - vm_compute. reflexivity.
  - vm_compute. discriminate.
  - by eapply list_elem_of_lookup_2.
  - exact Hid.
  - exact Hk.
  - exact Hpl.
  - rewrite Hst. discriminate.
  - reflexivity.
  - rewrite Eb. left.
  - exact Hb.
Defined.
End SampleSecrets.
