(* ===== verification/Settlement.v ===== *)
(** * Settled commands

    A command is settled when its outcome can no longer change: it is in a
    terminal state and, if that state is [uncertain], the agent itself said
    so.  No transaction unsettles a command, and a report about a settled
    command is only logged. *)
From S2P Require Import Prelude Base64 Ids Domain Protocol Outcomes Capabilities Crypto Store Service Admission AdmissionSpec Deletion Commands Placement Evolution Fleet CommandsSpec.
#[local] Open Scope string_scope.
#[local] Open Scope Z_scope.

Definition settled_row (w : Work) (c : CommandRow) : Prop :=
  is_terminal (c_state c) = true
  ∧ (c_state c = CsUncertain →
       ∃ r, r ∈ host_command_results w ∧ r_command_id r = c_id c ∧ r_disposition r = Applied).

Definition settled (w : Work) (id : string) : Prop :=
  ∃ c, c ∈ host_commands w ∧ c_id c = id ∧ settled_row w c.

(** Results are only added, and settled commands stay settled. *)
Definition keeps_settled (w w' : Work) : Prop :=
  host_command_results w ⊆ host_command_results w'
  ∧ ∀ c, c ∈ host_commands w → settled_row w c →
      ∃ c', c' ∈ host_commands w' ∧ c_id c' = c_id c ∧ settled_row w' c'.

#[export] Instance keeps_settled_preorder : PreOrder keeps_settled.
Proof.
  split; [by intros w; split; eauto|]. intros w1 w2 w3 [R1 S1] [R2 S2]. split; [set_solver|].
  intros c Hc Hs. destruct (S1 c Hc Hs) as (c2 & Hc2 & Hid2 & Hs2).
  destruct (S2 c2 Hc2 Hs2) as (c3 & Hc3 & Hid3 & Hs3). exists c3. split_and!; [done|congruence|done].
Qed.

Lemma keeps_settled_settled w w' id : keeps_settled w w' → settled w id → settled w' id.
Proof. intros [_ Hk] (c & Hc & <- & Hs). by apply Hk. Qed.

Lemma settled_row_mono w w' c :
  host_command_results w ⊆ host_command_results w' → settled_row w c → settled_row w' c.
Proof. intros Hr [Ht Hu]. split; [done|]. intros (r & ? & ?)%Hu. exists r. set_solver. Qed.

(** Rows may change if they were not settled, or become cancelled. *)
Lemma keeps_settled_update w w' q f :
  host_command_results w ⊆ host_command_results w' →
  host_commands w' = update_where q f (host_commands w) →
  (∀ c, c ∈ host_commands w → q c = true → settled_row w c →
     c_id (f c) = c_id c ∧ c_state (f c) = CsCancelled) →
  keeps_settled w w'.
Proof.
  intros Hr Hc Hq. split; [done|]. intros c Hin Hs. rewrite Hc.
  exists (if q c then f c else c). split; [apply elem_of_update_where; eauto|].
  destruct (q c) eqn:E; [|split; [done|by eapply settled_row_mono]].
  destruct (Hq c Hin E Hs) as [? Hst]. split; [done|]. split; rewrite Hst; done.
Qed.

Lemma keeps_settled_superset w w' :
  host_command_results w ⊆ host_command_results w' → host_commands w ⊆ host_commands w' →
  keeps_settled w w'.
Proof. intros Hr Hc. split; [done|]. intros c Hin Hs. exists c. split_and!; eauto using settled_row_mono. Qed.

Lemma keeps_settled_quiet w w' : quiet w w' → keeps_settled w w'.
Proof. intros [Ec _ Er]. apply keeps_settled_superset; by rewrite ?Ec, ?Er. Qed.

Lemma open_not_settled w c : open_state (c_state c) = true → ¬ settled_row w c.
Proof. intros Ho [Ht _]. by destruct (c_state c). Qed.

(** The loops over undeliverable and unreceived commands write only commands
    that were not settled when the loop began. *)
Definition settled_untouched (w s : Work) : Prop :=
  host_command_results s = host_command_results w
  ∧ ∀ c, c ∈ host_commands w → settled_row w c → c ∈ host_commands s.

Lemma settled_untouched_keeps w s : settled_untouched w s → keeps_settled w s.
Proof.
  intros [Hr Hc]. split; [by rewrite Hr|]. intros c Hin Hs. exists c. split; [by apply Hc|].
  split; [done|]. eapply settled_row_mono; [|exact Hs]. by rewrite Hr.
Qed.

Lemma settled_untouched_update w s s' c t :
  NoDup (c_id <$> host_commands w) → c ∈ host_commands w → ¬ settled_row w c →
  host_command_results s' = host_command_results s →
  host_commands s' = update_where (λ d, String.eqb (c_id d) (c_id c)) (c_set_state t) (host_commands s) →
  settled_untouched w s → settled_untouched w s'.
Proof.
  intros Hnd Hc Hns Er Ec [Hr Hk]. split; [congruence|]. intros d Hd Hs. rewrite Ec.
  apply elem_of_update_where. exists d. split; [by apply Hk|].
  destruct (String.eqb_spec (c_id d) (c_id c)) as [E|]; [|done].
  assert (d = c) as -> by by eapply unique_by. done.
Qed.

Section settlement.
Context `{UuidText, Codec, RequestJson, ResultJson, Aead}.

Lemma cancel_undeliverable_settled p w host now w' :
  NoDup (c_id <$> host_commands w) → cancel_undeliverable p w host now = Ok w' → keeps_settled w w'.
Proof.
  intros Hnd E. apply settled_untouched_keeps. unfold cancel_undeliverable in E.
  destruct (host_row p host) as [h|]; [|by simplify_eq].
  refine (try_fold_ind _ (settled_untouched w) _ _ _ _ _ E); [|done].
  intros s c s' [Hc [_ Hu]%undeliverable_due]%elem_of_select Hs (t & _ & E1 & _ & E3)%cancel_one_log.
  eapply settled_untouched_update; eauto. apply open_not_settled. by destruct Hu as [[-> _]|[-> _]].
Qed.

Lemma poll_settled p w auth session now w' l :
  NoDup (c_id <$> host_commands w) → poll_commands p w auth session now = Ok (w', l) →
  keeps_settled w w'.
Proof.
  intros Hnd E. unfold poll_commands in E. apply bind_Ok in E as (? & _ & E).
  destruct (negb _); [by simplify_eq|]. apply bind_Ok in E as (w1 & E1 & E).
  pose proof (cancel_undeliverable_settled _ _ _ _ _ Hnd E1) as Hw1.
  destruct (negb _); [by simplify_eq|]. destruct (order_by _ _) as [|c rest] eqn:Eo; [by simplify_eq|].
  apply bind_Ok in E as (w2 & E2 & [= <- _]). etrans; [exact Hw1|].
  assert (c ∈ c :: rest) as Hin by constructor. rewrite <-Eo in Hin.
  apply elem_of_order_by, elem_of_select in Hin as [Hin (_ & _ & _ & Ho & _)%deliverable_state].
  unfold deliver in E2. inv_result. eapply keeps_settled_update; [simpl; reflexivity|simpl; reflexivity|].
  intros d Hd Hq Hs. simpl in Hq. bool_to_prop.
  assert (d = c) as ->; [|by eapply open_not_settled in Hs].
  apply (unique_by c_id (host_commands w1)); [|exact Hd|exact Hin|done].
  by rewrite (evolves_command_column c_id _ _ ltac:(done) (cancel_undeliverable_evolves _ _ _ _ _ E1)).
Qed.

Lemma settle_one_log now st c st' :
  settle_one now st c = Ok st' →
  host_command_results st'.1 = host_command_results st.1
  ∧ host_commands st'.1 = update_where (λ d, String.eqb (c_id d) (c_id c)) (c_set_state CsCancelled)
                            (host_commands st.1).
Proof.
  destruct st as [w touched]. unfold settle_one. intros E. set (w1 := add_event _ _ _ _) in E.
  assert (quiet w1 st'.1) as [-> _ ->]; [|done].
  destruct (c_placement_id c) as [placement|]; [|by simplify_eq].
  destruct (_ || _); [|destruct (negb _); by simplify_eq].
  apply bind_Ok in E as (w2 & Er%release_quiet & [= <-]).
  etrans; [apply erase_bootstrap_quiet|]. by etrans; [exact Er|].
Qed.

Lemma settle_settled w host epoch session now w' :
  NoDup (c_id <$> host_commands w) → settle_unreceived w host epoch session now = Ok w' →
  keeps_settled w w'.
Proof.
  intros Hnd. unfold settle_unreceived. intros E. apply bind_Ok in E as (st & Est & [= <-]).
  trans st.1.
  - apply settled_untouched_keeps.
    refine (try_fold_ind _ (λ s, settled_untouched w s.1) _ (w, []) st _ _ Est); [|done].
    intros s c s' [Hc Hu]%elem_of_select Hs [E1 E2]%settle_one_log.
    eapply settled_untouched_update; eauto. intros [Ht Hun]. unfold unreceived in Hu. bool_to_prop.
    assert (c_state c = CsUncertain) as Hst
      by (bool_cases; [match goal with Hd : c_state c = _ |- _ => by rewrite Hd in Ht end|done]).
    destruct (Hun Hst) as (r & Hr & Hid & _).
    match goal with Hx : exists_row _ _ = false |- _ => rewrite exists_row_false in Hx; apply Hx in Hr end.
    by rewrite Hid, String.eqb_refl in Hr.
  - apply keeps_settled_quiet. apply (fold_left_ind _ (quiet st.1)); [|done].
    intros s placement _ Hs. etrans; [exact Hs|]. unfold settle_touched.
    etrans; [|apply keep_uncertain_quiet]. done.
Qed.

Lemma repair_settled p w principal host placements now w' l :
  repair_unconfirmed p w principal host placements now = Ok (w', l) → keeps_settled w w'.
Proof.
  unfold repair_unconfirmed. intros E. do 2 (apply bind_Ok in E as (? & _ & E)).
  refine (try_fold_ind _ (λ s, keeps_settled w s.1) _ (w, []) (w', l) _ _ E); [|done].
  intros [s r] placement s' _ Hs Ec. etrans; [exact Hs|]. unfold repair_one in Ec.
  destruct (fetch _ _) as [pl|]; [|by simplify_eq]. destruct (host_row _ _) as [h|]; [|by simplify_eq].
  set (w1 := set_commands s _) in Ec. apply bind_Ok in Ec as (w2 & E2 & [= <-]). simpl.
  trans w1; [by eapply keeps_settled_update|]. apply keeps_settled_quiet.
  trans w2; [|done]. destruct (Commands.started _ _ _); [by simplify_eq|]. apply release_quiet in E2.
  by etrans; [apply erase_bootstrap_quiet|].
Qed.

(** A report is applied only to a command that is not settled. *)
Lemma record_settled p w auth result now w' d :
  NoDup (c_id <$> host_commands w) → record_command_result p w auth result now = Ok (w', d) →
  keeps_settled w w'
  ∧ (settled w (to_string (res_command_id result)) → w' = w ∨ d = StaleResult ∧
       ∃ r, w' = set_results w (host_command_results w ++ [r])%list).
Proof.
  intros Hnd (_ & row & encoded & [Hrow Hq]%fetch_Some & _ & _ & E)%record_command_result_Ok.
  bool_to_prop. destruct (fetch _ (host_command_results w)) eqn:Efr; [destruct E as [-> _]; split; [reflexivity|by left]|].
  simpl in E. set (late := bool_decide _ && _) in E. destruct (negb late && _) eqn:Et.
  - destruct E as [-> ->]. split; [|right; eauto]. apply keeps_settled_superset; set_solver.
  - destruct E as [-> E%apply_result_log]. destruct E as [Ec Er]. simpl in *.
    assert (¬ settled_row w row) as Hns.
    { intros [Ht Hu]. rewrite Ht, andb_true_r in Et. apply negb_false_iff in Et. unfold late in Et.
      bool_to_prop. destruct Hu as (r & Hr & Hid & Hd); [done|].
      match goal with Hx : exists_row _ _ = false |- _ => rewrite exists_row_false in Hx; apply Hx in Hr end.
      unfold applied_result in Hr. rewrite Hid, Hd in Hr. bool_cases; done. }
    split.
    + eapply keeps_settled_update; [|exact Ec|]; [rewrite Er; set_solver|].
      intros c Hc Hcq Hs. simpl in Hcq. bool_to_prop.
      assert (c = row) as -> by by eapply (unique_by c_id). done.
    + intros (c & Hc & Hid & Hs). assert (c = row) as -> by (eapply (unique_by c_id); eauto; congruence). done.
Qed.

Lemma step_settled p w w' : NoDup (c_id <$> host_commands w) → step p w w' → keeps_settled w w'.
Proof.
  intros Hnd Hs. destruct Hs as [????? s E|???? b E|?????? outcome E|????? E|?????? E|????? E|????? E|?????? E
    |? ? ? ? ? ? ? ? E|??????? ? ? E|???? E|???? E|????? b E];
    eauto using poll_settled, settle_settled, repair_settled.
  - apply keeps_settled_quiet. apply submit_intent_Ok in E as (? & ? & _ & _ & _ & E).
    destruct (operation_by_key _ _ _); [by destruct E as [-> _]|].
    by destruct E as (? & _ & _ & _ & _ & _ & -> & _).
  - apply keeps_settled_quiet. unfold cancel_queued in E. injection E as <- <-. by case_match.
  - apply admit_operation_Ok in E as [_ E]. destruct outcome; [|apply keeps_settled_quiet; by destruct E as [? ->]|by subst].
    destruct E as (intent & c & cs & t & _ & _ & _ & _ & _ & _ & _ & Hins%insert_admission_Ok).
    destruct (admission_command _ _ _ _ _ _ _ Hins) as (cmd & Ec & _).
    destruct (ar_rest _ _ _ _ _ _ _ Hins) as (_ & Er & _).
    apply keeps_settled_superset; rewrite ?Ec, ?Er; set_solver.
  - apply keeps_settled_quiet. unfold claim_bootstrap in E. by inv_result; simplify_eq.
  - by eapply record_settled.
  - apply issue_command_Ok in E as [[-> _]|(cmd & -> & _)]; [done|].
    apply keeps_settled_superset; simpl; set_solver.
  - apply keeps_settled_quiet. unfold store_bootstrap in E. do 2 (apply bind_Ok in E as (? & _ & E)).
    by repeat case_match; simplify_eq.
  - apply keeps_settled_quiet. unfold mark_starting in E. by inv_result.
  - apply keeps_settled_quiet. unfold abandon_unstarted, release_allocations in E.
    case_match; [by simplify_eq|]. by inv_result; simplify_eq.
  - apply keeps_settled_quiet. by injection E as <- <-.
Qed.

Lemma deletion_settled w pool id :
  NoDup (c_id <$> host_commands w) →
  (∀ c, c ∈ host_commands w → c_id c = id → c ∈ host_commands (delete_work w pool)) →
  settled w id → settled (delete_work w pool) id.
Proof.
  intros Hnd Hk (c & Hc & Hid & Ht & Hu). exists c. split; [by apply Hk|]. split; [done|]. split; [done|].
  intros (r & Hr & Hrid & Hd)%Hu. exists r. split; [|done]. by eapply kept_result; eauto.
Qed.

Lemma rtc_settled id w w' : consistent w → rtc (step_keeping id) w w' → settled w id → settled w' id.
Proof.
  intros Hw Hr. induction Hr as [|w1 w2 w3 Hs _ IH]; [done|]. intros Hset.
  apply IH; [by eapply any_step_consistent; [eapply step_keeping_any|]|].
  destruct Hs as [[p Hs]|p pool p' (_ & _ & ->)%delete_pool_Ok Hk].
  - eapply keeps_settled_settled, Hset. eapply step_settled; [apply Hw|exact Hs].
  - apply deletion_settled; [apply Hw|done..].
Qed.

(** A conclusive report that is taken settles its command. *)
Lemma conclusive_settles p w auth result now w' :
  record_command_result p w auth result now = Ok (w', Applied) →
  host_command_results w' ≠ host_command_results w →
  is_progress (res_outcome result) = false → settled w' (to_string (res_command_id result)).
Proof.
  intros (_ & row & encoded & [Hrow Hq]%fetch_Some & _ & _ & E)%record_command_result_Ok Hnew Hp.
  bool_to_prop. destruct (fetch _ (host_command_results w)); [by destruct E as [-> _]|].
  simpl in E. destruct (negb _ && _); [by destruct E|].
  destruct E as [_ [Ec Er]%apply_result_log]. simpl in *.
  exists (c_set_state (outcome_state (res_outcome result)) row). split; [|split; [done|split]].
  - rewrite Ec. apply elem_of_update_where. exists row. by rewrite String.eqb_refl.
  - simpl. by destruct (res_outcome result).
  - intros _. eexists. rewrite Er. split; [apply elem_of_app; right; by left|]. done.
Qed.

(** C3: The first conclusive report about a command is final.  After the
    agent's word that a command succeeded, failed or has an unknown fate was
    taken, and whatever else the fleet does in between, short of deleting the
    command with its pool, no later report about that command changes a
    placement, a charge, a command or a secret: it is at most logged as stale. *)
Theorem first_conclusive_report_wins (p p' : Policy) (w w1 w2 w3 : Work)
    (auth auth' : AuthenticatedHost) (result result' : AgentCommandResult) (now now' : Z)
    (d : Disposition) :
  rtc any_step new_database w →
  record_command_result p w auth result now = Ok (w1, Applied) →
  host_command_results w1 ≠ host_command_results w →
  is_progress (res_outcome result) = false →
  rtc (step_keeping (to_string (res_command_id result))) w1 w2 →
  record_command_result p' w2 auth' result' now' = Ok (w3, d) →
  res_command_id result' = res_command_id result →
  w3 = w2 ∨ d = StaleResult ∧ ∃ r, w3 = set_results w2 (host_command_results w2 ++ [r])%list.
Proof.
  intros Hr E1 Hnew Hp H12 E2 Hid.
  assert (consistent w) as Hw by (eapply rtc_consistent; [exact Hr|apply new_database_consistent]).
  assert (consistent w1) as Hw1 by (eapply step_consistent; [by eapply step_result|done]).
  assert (consistent w2) as Hw2 by by eapply keeping_consistent.
  apply record_settled in E2 as [_ E2]; [|apply Hw2]. apply E2. rewrite Hid.
  eapply rtc_settled; [exact Hw1|exact H12|]. by eapply conclusive_settles; [exact E1|..].
Qed.
End settlement.

Module SampleSettlement.
Import SampleFleet SampleService SampleAdmission SampleRun.

(** The preparation failed; a contradicting success arrives after a poll. *)
Definition w_polled : Work := after empty (poll w_failed 5000).
Definition w_contradicted : Work := after empty (record w_polled prepare_done 6000).

Lemma first_conclusive_report_wins_witness :
  w_contradicted = w_polled
  ∨ StaleResult = StaleResult
    ∧ ∃ r, w_contradicted = set_results w_polled (host_command_results w_polled ++ [r])%list.
Proof.
  apply (first_conclusive_report_wins policy policy w_delivered w_failed w_polled w_contradicted
    auth auth prepare_failed prepare_done 4000 6000 StaleResult).
  - apply reachable_any, delivered_reachable.
  - vm_compute. reflexivity.
  - vm_compute. discriminate.
  - reflexivity.
  - apply rtc_once, keeping_work. exists policy. apply poll_step. vm_compute. reflexivity.
  - vm_compute. reflexivity.
  - reflexivity.
Defined.
End SampleSettlement.
