(* ===== verification/Races.v ===== *)
(** * Interleavings

    The reconciler's [start] ([crates/gridops-reconciler/src/fleet.rs]) issues
    a start command and marks the placement as starting in two transactions;
    the agent may answer in between.  [Placement.mark_starting] does not look
    at the placement's state, so it can overwrite what the answer wrote. *)
From S2P Require Import Prelude Base64 Ids Domain Protocol Outcomes Capabilities Crypto Store Service Admission AdmissionSpec Commands Placement Evolution Fleet.
#[local] Open Scope string_scope.
#[local] Open Scope Z_scope.
Import SampleFleet SampleService SampleAdmission SampleRun.

(** The agent polls and answers between the two transactions. *)
Definition answered (r : AgentCommandResult) : Work :=
  after empty (record (after empty (poll w_issued 5100)) r 5200).
Definition marked (r : AgentCommandResult) : Work :=
  match mark_starting (answered r) 70 "runner" 5300 with Ok w => w | Err _ => empty end.

Lemma issued_reachable : rtc (step policy) new_database w_issued.
Proof.
  eapply rtc_r with w_bootstrap; [eapply rtc_r with w_prepared; [eapply rtc_r; [apply delivered_reachable|]|]|].
  - by apply record_step; vm_compute.
  - destruct (after_Ok (store_bootstrap w_prepared PlainAead.vault 70 "jit" 60000 101
      (replicate 12 0) 5000)) as [r E]; [by vm_compute|]. by eapply step_store.
  - destruct (after_Ok (issue w_bootstrap start start_key 30000 102 5000)) as [r E]; [by vm_compute|].
    by eapply step_issue.
Qed.

Lemma answered_reachable r :
  is_ok (record (after empty (poll w_issued 5100)) r 5200) = true →
  rtc (step policy) new_database (answered r).
Proof.
  intros Hr. eapply rtc_r; [eapply rtc_r; [apply issued_reachable|]|by apply record_step].
  by apply poll_step; vm_compute.
Qed.

Definition states (w : Work) : list PlacementState * list AllocationState :=
  (pl_state <$> workload_placements w, a_state <$> capacity_allocations w).

(** A start the agent has refused ends as a placement that claims to be
    starting with its capacity given back; a start that succeeded ends as a
    running workload marked as starting.  The placement lifecycle of the domain
    model refuses both moves, and both databases are reachable. *)
Theorem start_answer_overwritten :
  states (answered start_failed) = ([TerminalFailure], [AllocReleased; AllocReleased])
  ∧ states (marked start_failed) = ([Starting], [AllocReleased; AllocReleased])
  ∧ states (answered started) = ([Running], [AllocCommitted; AllocCommitted])
  ∧ states (marked started) = ([Starting], [AllocCommitted; AllocCommitted])
  ∧ is_ok (PlacementState_transition TerminalFailure Starting) = false
  ∧ is_ok (PlacementState_transition Running Starting) = false
  ∧ rtc (step policy) new_database (marked start_failed)
  ∧ rtc (step policy) new_database (marked started).
Proof.
  do 6 (split; [vm_compute; reflexivity|]). split.
  - eapply rtc_r; [apply (answered_reachable start_failed); by vm_compute|].
    apply (step_mark _ _ 70 "runner" 5300). by vm_compute.
  - eapply rtc_r; [apply (answered_reachable started); by vm_compute|].
    apply (step_mark _ _ 70 "runner" 5300). by vm_compute.
Qed.
