(* ===== verification/Agent.v ===== *)
(** * The host agent
    ([crates/gridops-host-agent/src/{journal,dispatch,helper}.rs] and
    [deliver_results] of [supervisor.rs]).

    The agent is a journal and a runtime it drives through a helper.  It may
    die between any two things it does: an operation runs with a number of
    actions it may still take, and one that has none left stops where it is.
    Reads of the journal are not actions.  JSON columns of the journal hold
    the values they encode. *)
From S2P Require Import Prelude Base64 Ids Domain Protocol Outcomes.
#[local] Open Scope string_scope.
#[local] Open Scope Z_scope.

(** ** The helper boundary *)
Record HelperRequest := {
  hr_environment_id : option Uuid;
  hr_docker_socket : bool;
  hr_prepared : option PrepareEnvironment;
  hr_bootstrap : option string;
  hr_operation : AgentOperation }.

Inductive HelperResponse :=
| HelperSucceeded (evidence : SuccessEvidence)
| HelperFailed (code : FailureCode) (retryable : bool).

Inductive StartRemains :=
| RemainsRunner (identity : LocalResourceIdentity)
| RemainsNothing
| RemainsUnknown.

(** The runtime behind the helper, with whatever state it keeps. *)
Class RuntimeHelper (W : Type) := {
  helper_call : HelperRequest → W → HelperResponse * W;
  interrupted_start : HelperRequest → bool → W → StartRemains * W }.

(** ** The journal *)
Record Identity := {
  id_host_id : Uuid; id_host_epoch : Z; id_credential : string; id_credential_generation : Z }.

Record Rotation := {
  rot_operation_id : Uuid; rot_next_generation : Z; rot_next_secret : string }.

Record JournaledCommand := {
  jc_command_id : Uuid; jc_request_hash : string; jc_envelope : AgentCommandEnvelope;
  jc_received_at : Z; jc_result : option AgentCommandResult; jc_boot_id : option string }.

Record Environment := {
  env_id : Uuid; env_placement_id : Uuid; env_generation : Z; env_workload : PreparedWorkload;
  env_runtime_kind : RuntimeKind; env_execution_os : ExecutionOs; env_docker_socket : bool;
  env_prepare : PrepareEnvironment; env_local_identity : option LocalResourceIdentity }.

Record Journal := {
  j_identity : option Identity;
  j_rotation : option Rotation;
  j_commands : list JournaledCommand;
  j_environments : list Environment;
  j_shipped_output : list Uuid;
  j_delivered_results : list Uuid }.

Inductive Receipt :=
| ReceiptNew
| ReceiptInterrupted
| ReceiptCompleted (result : AgentCommandResult).

Inductive JournalError := JournalConflict | JournalStorage.

Definition set_j_identity (j : Journal) x : Journal :=
  {| j_identity := x; j_rotation := j_rotation j; j_commands := j_commands j;
     j_environments := j_environments j; j_shipped_output := j_shipped_output j;
     j_delivered_results := j_delivered_results j |}.
Definition set_j_rotation (j : Journal) x : Journal :=
  {| j_identity := j_identity j; j_rotation := x; j_commands := j_commands j;
     j_environments := j_environments j; j_shipped_output := j_shipped_output j;
     j_delivered_results := j_delivered_results j |}.
Definition set_j_commands (j : Journal) x : Journal :=
  {| j_identity := j_identity j; j_rotation := j_rotation j; j_commands := x;
     j_environments := j_environments j; j_shipped_output := j_shipped_output j;
     j_delivered_results := j_delivered_results j |}.
Definition set_j_environments (j : Journal) x : Journal :=
  {| j_identity := j_identity j; j_rotation := j_rotation j; j_commands := j_commands j;
     j_environments := x; j_shipped_output := j_shipped_output j;
     j_delivered_results := j_delivered_results j |}.
Definition set_j_shipped_output (j : Journal) x : Journal :=
  {| j_identity := j_identity j; j_rotation := j_rotation j; j_commands := j_commands j;
     j_environments := j_environments j; j_shipped_output := x;
     j_delivered_results := j_delivered_results j |}.
Definition set_j_delivered_results (j : Journal) x : Journal :=
  {| j_identity := j_identity j; j_rotation := j_rotation j; j_commands := j_commands j;
     j_environments := j_environments j; j_shipped_output := j_shipped_output j;
     j_delivered_results := x |}.

Definition store_identity (j : Journal) (identity : Identity) : Journal :=
  set_j_identity j (Some identity).

(** The secret of a rotation is stored before it is used. *)
Definition rotation_secret (j : Journal) (operation_id : Uuid) (next_generation : Z)
    (fresh : string) : Journal * string :=
  let store := (set_j_rotation j (Some {| rot_operation_id := operation_id;
                  rot_next_generation := next_generation; rot_next_secret := fresh |}), fresh) in
  match j_rotation j with
  | Some r => if rot_operation_id r =? operation_id then (j, rot_next_secret r) else store
  | None => store
  end.

Definition finish_rotation (j : Journal) (credential : string) (generation : Z) : Journal :=
  set_j_rotation (set_j_identity j ((λ i, {| id_host_id := id_host_id i;
    id_host_epoch := id_host_epoch i; id_credential := credential;
    id_credential_generation := generation |}) <$> j_identity j)) None.

Definition journaled (j : Journal) (id : Uuid) : option JournaledCommand :=
  fetch (λ c, jc_command_id c =? id) (j_commands j).

Definition receive (j : Journal) (envelope : AgentCommandEnvelope) (clock : Z) (boot_id : string)
    : Journal * Result Receipt JournalError :=
  match journaled j (command_id envelope) with
  | None =>
      (set_j_commands j (j_commands j ++ [{| jc_command_id := command_id envelope;
         jc_request_hash := request_hash envelope; jc_envelope := envelope; jc_received_at := clock;
         jc_result := None; jc_boot_id := Some boot_id |}])%list, Ok ReceiptNew)
  | Some row =>
      (j, if negb (String.eqb (jc_request_hash row) (request_hash envelope)) then Err JournalConflict
          else Ok (match jc_result row with
                   | Some result => ReceiptCompleted result
                   | None => ReceiptInterrupted
                   end))
  end.

Definition rebooted_since (j : Journal) (id : Uuid) (boot_id : string) : bool :=
  match journaled j id with
  | Some {| jc_boot_id := Some boot |} => negb (String.eqb boot boot_id)
  | _ => false
  end.

Definition jc_complete (result : AgentCommandResult) (c : JournaledCommand) : JournaledCommand :=
  {| jc_command_id := jc_command_id c; jc_request_hash := jc_request_hash c;
     jc_envelope := jc_envelope c; jc_received_at := jc_received_at c; jc_result := Some result;
     jc_boot_id := jc_boot_id c |}.

Definition is_none {A} (o : option A) : bool := match o with None => true | Some _ => false end.

(** [None] when the row already has a result, or there is none. *)
Definition complete (j : Journal) (result : AgentCommandResult) : option Journal :=
  let open_row c := (jc_command_id c =? res_command_id result) && is_none (jc_result c) in
  if count_rows open_row (j_commands j) =? 1
  then Some (set_j_commands j (update_where open_row (jc_complete result) (j_commands j)))
  else None.

(** [ORDER BY received_at,command_id], the identifiers as text. *)
Definition received_le `{UuidText} (a b : JournaledCommand) : bool :=
  (jc_received_at a <? jc_received_at b)
  || ((jc_received_at a =? jc_received_at b)
      && String.leb (to_string (jc_command_id a)) (to_string (jc_command_id b))).

Definition undelivered `{UuidText} (j : Journal) (since : Z)
    : list (AgentCommandEnvelope * option AgentCommandResult) :=
  (λ c, (jc_envelope c, jc_result c)) <$> order_by received_le
    (select (λ c, (since <=? jc_received_at c)
                  && negb (bool_decide (jc_command_id c ∈ j_delivered_results j))) (j_commands j)).

Definition delivered (j : Journal) (id : Uuid) : Journal :=
  if bool_decide (id ∈ j_delivered_results j) then j
  else set_j_delivered_results j (j_delivered_results j ++ [id]).

(** [None] when the identifier or the placement generation is taken. *)
Definition record_environment (j : Journal) (e : Environment) : option Journal :=
  if exists_row (λ x, (env_id x =? env_id e)
                      || ((env_placement_id x =? env_placement_id e)
                          && (env_generation x =? env_generation e))) (j_environments j)
  then None
  else Some (set_j_environments j (j_environments j ++ [e])%list).

Definition env_bind (identity : LocalResourceIdentity) (e : Environment) : Environment :=
  {| env_id := env_id e; env_placement_id := env_placement_id e; env_generation := env_generation e;
     env_workload := env_workload e; env_runtime_kind := env_runtime_kind e;
     env_execution_os := env_execution_os e; env_docker_socket := env_docker_socket e;
     env_prepare := env_prepare e; env_local_identity := Some identity |}.

(** [None] when the environment is missing or owns another resource. *)
Definition bind_local_identity (j : Journal) (id : Uuid) (identity : LocalResourceIdentity)
    : option Journal :=
  let free e := (env_id e =? id)
                && (is_none (env_local_identity e)
                    || bool_decide (env_local_identity e = Some identity)) in
  if count_rows free (j_environments j) =? 1
  then Some (set_j_environments j (update_where free (env_bind identity) (j_environments j)))
  else None.

Definition environment (j : Journal) (id : Uuid) : option Environment :=
  fetch (λ e, env_id e =? id) (j_environments j).

Definition placement_environment (j : Journal) (placement_id : Uuid) (generation : Z)
    : option Environment :=
  fetch (λ e, (env_placement_id e =? placement_id) && (env_generation e =? generation))
    (j_environments j).

Definition unshipped_output (j : Journal) : list Environment :=
  select (λ e, negb (is_none (env_local_identity e))
               && negb (bool_decide (env_id e ∈ j_shipped_output j))) (j_environments j).

Definition output_shipped (j : Journal) (id : Uuid) : Journal :=
  if bool_decide (id ∈ j_shipped_output j) then j
  else set_j_shipped_output j (j_shipped_output j ++ [id]).

(** ** Running with a limited number of actions *)
Inductive DispatchError :=
| DispatchContract (e : ContractError)
| DispatchCommand (e : CommandError)
| DispatchJournal (e : JournalError)
| DispatchInternal.

Inductive Exit (A : Type) :=
| Returned (a : A)
| Raised (e : DispatchError)
| Died.
Arguments Returned {A} a.
Arguments Raised {A} e.
Arguments Died {A}.

(** The agent: its journal, its runtime, the boot it runs in, and a log of the
    operations the helper was asked to run, each with its command. *)
Record Agent (W : Type) := {
  ag_journal : Journal;
  ag_runtime : W;
  ag_boot_id : string;
  ag_calls : list (Uuid * HelperRequest) }.
Arguments ag_journal {W}. Arguments ag_runtime {W}. Arguments ag_boot_id {W}. Arguments ag_calls {W}.

Section agent.
Context {W : Type} `{RuntimeHelper W, UuidText, Codec}.

Definition Run (A : Type) : Type := nat → Agent W → nat * Agent W * Exit A.

Definition ret {A} (a : A) : Run A := λ n s, (n, s, Returned a).
Definition raise {A} (e : DispatchError) : Run A := λ n s, (n, s, Raised e).
Definition bind {A B} (m : Run A) (k : A → Run B) : Run B := λ n s,
  match m n s with
  | (n', s', Returned a) => k a n' s'
  | (n', s', Raised e) => (n', s', Raised e)
  | (n', s', Died) => (n', s', Died)
  end.
Definition read {A} (f : Journal → A) : Run A := λ n s, (n, s, Returned (f (ag_journal s))).
Definition the_boot : Run string := λ n s, (n, s, Returned (ag_boot_id s)).

(** One action: it happens if any is left. *)
Definition act {A} (f : Agent W → Agent W * A) : Run A := λ n s,
  match n with
  | O => (O, s, Died)
  | S n => (n, (f s).1, Returned (f s).2)
  end.

Definition lift {A E} (f : E → DispatchError) (r : Result A E) : Run A :=
  match r with Ok a => ret a | Err e => raise (f e) end.

Definition set_journal (s : Agent W) (j : Journal) : Agent W :=
  {| ag_journal := j; ag_runtime := ag_runtime s; ag_boot_id := ag_boot_id s;
     ag_calls := ag_calls s |}.

(** A write to the journal; [None] is an error of the statement. *)
Definition write (f : Journal → option Journal) : Run unit :=
  bind (act (λ s, match f (ag_journal s) with
                  | Some j => (set_journal s j, true)
                  | None => (s, false)
                  end))
       (λ ok, if ok then ret tt else raise DispatchInternal).

Definition journal_receive (envelope : AgentCommandEnvelope) (clock : Z)
    : Run (Result Receipt JournalError) :=
  act (λ s, let r := receive (ag_journal s) envelope clock (ag_boot_id s) in
            (set_journal s r.1, r.2)).

Definition call (command : Uuid) (request : HelperRequest) : Run HelperResponse :=
  act (λ s, let r := helper_call request (ag_runtime s) in
            ({| ag_journal := ag_journal s; ag_runtime := r.2; ag_boot_id := ag_boot_id s;
                ag_calls := ag_calls s ++ [(command, request)] |}, r.1)).

Definition look (request : HelperRequest) (rebooted : bool) : Run StartRemains :=
  act (λ s, let r := interrupted_start request rebooted (ag_runtime s) in
            ({| ag_journal := ag_journal s; ag_runtime := r.2; ag_boot_id := ag_boot_id s;
                ag_calls := ag_calls s |}, r.1)).
End agent.

Notation "'let!' x ':=' c 'in' k" := (bind c (λ x, k))
  (at level 10, x pattern, c at level 100, k at level 200) : fleet_scope.

(** ** Dispatch *)
Record Trust := { trust_docker_socket : bool }.

Definition DEFAULT_JSON_BYTES : Z := 1024 * 1024.
Definition MAX_JSON_BYTES : Z := 2 * 1024 * 1024.

(** [serde_json::from_slice] of an envelope. *)
Class EnvelopeReader := { from_slice : list Z → option AgentCommandEnvelope }.

Definition parse_json `{EnvelopeReader} (body : list Z) (limit : Z)
    : Result AgentCommandEnvelope ContractError :=
  if (limit =? 0) || (limit >? MAX_JSON_BYTES) || (Z.of_nat (length body) >? limit)
  then Err PayloadTooLarge
  else ok_or InvalidJson (from_slice body).

Definition refused (code : FailureCode) : CommandOutcome := OutFailed code false None.
Definition cut_short : CommandOutcome := OutFailed FailCancelled true None.
Definition unknown : CommandOutcome := OutUncertain UncLocalStateUnknown None.
Definition outcome (response : HelperResponse) : CommandOutcome :=
  match response with
  | HelperSucceeded evidence => OutSucceeded evidence
  | HelperFailed code retryable => OutFailed code retryable None
  end.

Definition is_owned_fix_sandbox (e : Environment) (expected : LocalResourceIdentity) : bool :=
  bool_decide (env_workload e = WorkFixSandbox) && bool_decide (env_runtime_kind e = Docker)
  && bool_decide (env_execution_os e = Linux) && is_docker_resource expected
  && bool_decide (env_local_identity e = Some expected).

Definition scope_generation (scope : CommandScope) : option Z :=
  match scope with ScopePlacement _ _ generation => Some generation | ScopeHost => None end.

(** [Uuid::new_v4] draws [drawn]. *)
Definition result (envelope : AgentCommandEnvelope) (outcome : CommandOutcome) (now : Z)
    (drawn : Uuid) : Result AgentCommandResult unit :=
  let? id := map_err (λ _, tt) (fleet_uuid_try_new drawn) in
  let? hash := map_err (λ _, tt) (Sha256Digest_try_from (request_hash envelope)) in
  Ok {| res_result_id := id; res_command_id := command_id envelope;
        res_operation_id := operation_id envelope; res_host_id := host_id envelope;
        res_host_epoch := host_epoch envelope;
        res_control_plane_incarnation := control_plane_incarnation envelope;
        res_authority_session_id := authority_session_id envelope; res_scope := scope envelope;
        res_generation := scope_generation (scope envelope); res_request_hash := hash;
        res_observed_at := now; res_outcome := outcome |}.

Definition set_outcome (o : CommandOutcome) (r : AgentCommandResult) : AgentCommandResult :=
  {| res_result_id := res_result_id r; res_command_id := res_command_id r;
     res_operation_id := res_operation_id r; res_host_id := res_host_id r;
     res_host_epoch := res_host_epoch r;
     res_control_plane_incarnation := res_control_plane_incarnation r;
     res_authority_session_id := res_authority_session_id r; res_scope := res_scope r;
     res_generation := res_generation r; res_request_hash := res_request_hash r;
     res_observed_at := res_observed_at r; res_outcome := o |}.

Section dispatch.
Context {W : Type} `{RuntimeHelper W, UuidText, Codec, EnvelopeReader} (trust : Trust).

Definition request (e : option Environment) (op : AgentOperation) (bootstrap : option string)
    : HelperRequest :=
  {| hr_environment_id := env_id <$> e;
     hr_docker_socket := trust_docker_socket trust
                         && match e with Some e => env_docker_socket e | None => false end;
     hr_prepared := env_prepare <$> e; hr_bootstrap := bootstrap; hr_operation := op |}.

Definition prepare (envelope : AgentCommandEnvelope) (p : PrepareEnvironment) (placement_id : Uuid)
    (generation : Z) (drawn : Uuid) : Run (W := W) CommandOutcome :=
  let! id := lift (λ _, DispatchInternal) (fleet_uuid_try_new drawn) in
  let e := {| env_id := id; env_placement_id := placement_id; env_generation := generation;
              env_workload := pe_workload p; env_runtime_kind := pe_runtime_kind p;
              env_execution_os := pe_execution_os p;
              env_docker_socket := ec_requires_docker_socket (pe_configuration p);
              env_prepare := p; env_local_identity := None |} in
  let! response := call (command_id envelope) (request (Some e) (operation envelope) None) in
  match response with
  | HelperSucceeded (EvPreparedEnvironment reported) =>
      if reported =? id
      then let! _ := write (λ j, record_environment j e) in ret (outcome response)
      else ret unknown
  | HelperSucceeded _ => ret unknown
  | HelperFailed _ _ => ret (outcome response)
  end.

(** The environment an operation runs in, or the refusal: the [match] of
    [execute] without its first and its host-wide arm. *)
Definition authorize (op : AgentOperation) (owned : option Environment)
    : Environment + CommandOutcome :=
  let guard ok := match owned with
                  | Some e => if (ok e : bool) then inl e else inr (refused FailPermission)
                  | None => inr (refused FailPermission)
                  end in
  match op with
  | OpStartRunner start => guard (λ e, env_id e =? sr_prepared_environment_id start)
  | OpInspect expected | OpDrain expected | OpStop expected _ | OpCleanup expected =>
      guard (λ e, bool_decide (env_local_identity e = Some expected))
  | OpExecuteSandbox expected _ _ _ _ _ | OpSandboxFile expected _ | OpSandboxArtifact expected _ =>
      guard (λ e, is_owned_fix_sandbox e expected)
  | _ => inr (refused FailUnsupported)
  end.

Definition run_in (envelope : AgentCommandEnvelope) (e : Environment) (bootstrap : option string)
    : Run (W := W) CommandOutcome :=
  let bootstrap := if is_start_runner (operation envelope) then bootstrap else None in
  let! response := call (command_id envelope) (request (Some e) (operation envelope) bootstrap) in
  match response with
  | HelperSucceeded (EvRunnerStarted _ _ _ identity) =>
      let! _ := write (λ j, bind_local_identity j (env_id e) identity) in ret (outcome response)
  | _ => ret (outcome response)
  end.

Definition execute (envelope : AgentCommandEnvelope) (bootstrap : option string) (drawn : Uuid)
    : Run (W := W) CommandOutcome :=
  match scope envelope with
  | ScopePlacement placement_id _ generation =>
      let! owned := read (λ j, placement_environment j placement_id generation) in
      match operation envelope with
      | OpPrepareEnvironment p =>
          if ec_requires_docker_socket (pe_configuration p) && negb (trust_docker_socket trust)
          then ret (refused FailPermission)
          else if ec_requires_interactive (pe_configuration p) then ret (refused FailUnsupported)
          else if negb (is_none owned) then ret (refused FailConfiguration)
          else prepare envelope p placement_id generation drawn
      | op => match authorize op owned with
              | inl e => run_in envelope e bootstrap
              | inr refusal => ret refusal
              end
      end
  | ScopeHost =>
      match operation envelope with
      | OpInspectHost | OpDrainHost =>
          let! response := call (command_id envelope) (request None (operation envelope) None) in
          ret (outcome response)
      | _ => ret (refused FailUnsupported)
      end
  end.

(** [remains]; [recover] only logs around it. *)
Definition recover (envelope : AgentCommandEnvelope) : Run (W := W) CommandOutcome :=
  match scope envelope with
  | ScopeHost => ret unknown
  | ScopePlacement placement_id _ generation =>
      let! owned := read (λ j, placement_environment j placement_id generation) in
      match operation envelope, owned with
      | OpPrepareEnvironment _, Some e => ret (OutSucceeded (EvPreparedEnvironment (env_id e)))
      | OpPrepareEnvironment _, None => ret cut_short
      | OpStartRunner start, Some e =>
          if env_id e =? sr_prepared_environment_id start then
            let started identity := OutSucceeded (EvRunnerStarted (sr_prepared_environment_id start)
              (sr_execution_profile_id start) (sr_profile_revision start) identity) in
            match env_local_identity e with
            | Some identity => ret (started identity)
            | None =>
                let! boot := the_boot in
                let! rebooted := read (λ j, rebooted_since j (command_id envelope) boot) in
                let! remains := look (request (Some e) (operation envelope) None) rebooted in
                match remains with
                | RemainsRunner identity =>
                    let! _ := write (λ j, bind_local_identity j (env_id e) identity) in
                    ret (started identity)
                | RemainsNothing => ret cut_short
                | RemainsUnknown => ret unknown
                end
            end
          else ret (refused FailPermission)
      | OpStartRunner _, None => ret (refused FailPermission)
      | _, _ => ret unknown
      end
  end.

(** The end of [dispatch_with] and of [interrupted]. *)
Definition conclude (envelope : AgentCommandEnvelope) (o : CommandOutcome) (now : Z) (drawn : Uuid)
    : Run (W := W) AgentCommandResult :=
  let! r := lift (λ _, DispatchInternal) (result envelope o now drawn) in
  let r := if is_ok (result_validate_against r envelope) then r else set_outcome unknown r in
  let! _ := write (λ j, complete j r) in
  ret r.

Definition dispatch_with (body : list Z) (session : ExpectedAgentSession) (now : Z)
    (bootstrap : option string) (clock : Z) (drawn_environment drawn_result : Uuid)
    : Run (W := W) AgentCommandResult :=
  let! envelope := lift DispatchContract (parse_json body DEFAULT_JSON_BYTES) in
  let! _ := lift DispatchCommand (validate_binding envelope session) in
  let in_time := is_ok (validate_against envelope session now) in
  let! receipt := journal_receive envelope clock in
  let! receipt := lift DispatchJournal receipt in
  match receipt with
  | ReceiptCompleted r => ret r
  | ReceiptInterrupted =>
      let! o := recover envelope in conclude envelope o now drawn_result
  | ReceiptNew =>
      let! o := if negb in_time then ret (refused FailDeadline)
                else execute envelope bootstrap drawn_environment in
      conclude envelope o now drawn_result
  end.

Definition dispatch_interrupted (envelope : AgentCommandEnvelope) (now : Z) (drawn_result : Uuid)
    : Run (W := W) AgentCommandResult :=
  let! o := recover envelope in conclude envelope o now drawn_result.
End dispatch.

(** ** Redelivery *)
Definition RESULT_REDELIVERY_WINDOW : Z := 24 * 60 * 60 * 1000.

(** What became of a [post_result]. *)
Inductive PostAnswer := PostOk | PostRefused (rate_limited : bool) | PostFailed.

Section redelivery.
Context {W : Type} `{RuntimeHelper W, UuidText, Codec, EnvelopeReader} (trust : Trust).
Context (post : AgentCommandResult → PostAnswer) (now : Z) (drawn : Uuid → Uuid).

(** The loop of [deliver_results]; a failed post ends it. *)
Fixpoint deliver_each (l : list (AgentCommandEnvelope * option AgentCommandResult))
    : Run (W := W) bool :=
  match l with
  | [] => ret true
  | (envelope, stored) :: l =>
      let! r := match stored with
                | Some r => ret r
                | None => dispatch_interrupted trust envelope now (drawn (command_id envelope))
                end in
      match post r with
      | PostOk | PostRefused false =>
          let! _ := write (λ j, Some (delivered j (command_id envelope))) in deliver_each l
      | PostRefused true | PostFailed => ret false
      end
  end.

Definition deliver_results (clock : Z) : Run (W := W) bool :=
  let! l := read (λ j, undelivered j (clock - RESULT_REDELIVERY_WINDOW)) in deliver_each l.
End redelivery.
