(* ===== verification/AgentSpec.v ===== *)
(** * What the host agent guarantees

    Over any history of dispatches, redeliveries, restarts and reboots, cut
    off at any action: a command runs at most once, its answer never changes
    and always answers it, success is journaled before it is told, and only
    what the agent created is touched. *)
From S2P Require Import Prelude Base64 Ids Domain Protocol Outcomes Agent.
#[local] Open Scope string_scope.
#[local] Open Scope Z_scope.

(** ** Reasoning about runs that may stop anywhere

    [triple P m Q I]: from a state in [P] the program ends in [Q] with its
    value, or, stopped or failed, in [I]. *)
Definition triple {W A} (P : Agent W → Prop) (m : Run (W := W) A) (Q : A → Agent W → Prop)
    (I : Agent W → Prop) : Prop :=
  ∀ n s, P s → match (m n s).2 with
               | Returned a => Q a (m n s).1.2
               | _ => I (m n s).1.2
               end.

Section triples.
Context {W : Type} (I : Agent W → Prop).

Lemma triple_ret {A} (a : A) (Q : A → Agent W → Prop) : triple (Q a) (ret a) Q I.
Proof. by intros n s. Qed.

Lemma triple_raise {A} e (P : Agent W → Prop) (Q : A → Agent W → Prop) :
  (∀ s, P s → I s) → triple P (raise e) Q I.
Proof. intros HP n s Hs. by apply HP. Qed.

Lemma triple_bind {A B} P (m : Run A) (k : A → Run B) R Q :
  triple P m R I → (∀ a, triple (R a) (k a) Q I) → triple P (bind m k) Q I.
Proof.
  intros Hm Hk n s Hs. specialize (Hm n s Hs). unfold bind.
  destruct (m n s) as [[n' s'] [a|e|]]; simpl in *; [|done..]. by apply Hk.
Qed.

Lemma triple_read {A} (f : Journal → A) P (Q : A → Agent W → Prop) :
  (∀ s, P s → Q (f (ag_journal s)) s) → triple P (read f) Q I.
Proof. intros HP n s Hs. by apply HP. Qed.

Lemma triple_boot P (Q : string → Agent W → Prop) :
  (∀ s, P s → Q (ag_boot_id s) s) → triple P the_boot Q I.
Proof. intros HP n s Hs. by apply HP. Qed.

Lemma triple_act {A} (f : Agent W → Agent W * A) P Q :
  (∀ s, P s → I s) → (∀ s, P s → Q (f s).2 (f s).1) → triple P (act f) Q I.
Proof. intros HI HQ [|n] s Hs; simpl; auto. Qed.

Lemma triple_lift {A E} (f : E → DispatchError) (r : Result A E) P Q :
  (∀ s, P s → I s) → (∀ a s, r = Ok a → P s → Q a s) → triple P (lift f r) Q I.
Proof. intros HI HQ. destruct r; simpl; intros n s Hs; simpl; auto. Qed.

Lemma triple_write f P Q :
  (∀ s, P s → I s) → (∀ s j, P s → f (ag_journal s) = Some j → Q tt (set_journal s j)) →
  triple P (write f) Q I.
Proof.
  intros HI HQ. eapply triple_bind.
  - apply (triple_act _ _ (λ ok s, if ok : bool then Q tt s else I s)); [done|].
    intros s Hs. destruct (f (ag_journal s)) as [j|] eqn:E; simpl; auto.
  - intros [] n s Hs; done.
Qed.

Lemma triple_conseq {A} (P P' : Agent W → Prop) (m : Run A) (Q Q' : A → Agent W → Prop) :
  (∀ s, P s → P' s) → triple P' m Q' I → (∀ a s, Q' a s → Q a s) → triple P m Q I.
Proof.
  intros HP Hm HQ n s Hs. specialize (Hm n s (HP s Hs)).
  destruct (m n s) as [[n' s'] [a|e|]]; simpl in *; auto.
Qed.

Lemma triple_pure {A} (P : Agent W → Prop) (φ : Prop) (m : Run A) Q :
  (φ → triple P m Q I) → triple (λ s, P s ∧ φ) m Q I.
Proof. intros Hm n s [Hs Hφ]. by apply Hm. Qed.
End triples.

(** ** What is kept

    Journal rows keep their identity; results and bound resources are set
    once. *)
Definition jc_kept (c c' : JournaledCommand) : Prop :=
  jc_command_id c' = jc_command_id c ∧ jc_request_hash c' = jc_request_hash c
  ∧ jc_envelope c' = jc_envelope c ∧ jc_received_at c' = jc_received_at c
  ∧ (∀ r, jc_result c = Some r → jc_result c' = Some r).

Definition env_kept (e e' : Environment) : Prop :=
  env_id e' = env_id e ∧ env_placement_id e' = env_placement_id e
  ∧ env_generation e' = env_generation e ∧ env_prepare e' = env_prepare e
  ∧ (∀ i, env_local_identity e = Some i → env_local_identity e' = Some i).

Record journal_kept (j j' : Journal) : Prop := {
  jk_commands : ∀ c, c ∈ j_commands j → ∃ c', c' ∈ j_commands j' ∧ jc_kept c c';
  jk_environments : ∀ e, e ∈ j_environments j → ∃ e', e' ∈ j_environments j' ∧ env_kept e e' }.

#[export] Instance jc_kept_preorder : PreOrder jc_kept.
Proof.
  split; [by intros c|]. intros a b c (?&?&?&?&Hr) (?&?&?&?&Hr'). split_and!; try congruence. auto.
Qed.
#[export] Instance env_kept_preorder : PreOrder env_kept.
Proof.
  split; [by intros c|]. intros a b c (?&?&?&?&Hr) (?&?&?&?&Hr'). split_and!; try congruence. auto.
Qed.
#[export] Instance journal_kept_preorder : PreOrder journal_kept.
Proof.
  split; [intros j; split; intros x Hx; exists x; (split; [done|reflexivity])|]. intros j1 j2 j3 [C1 E1] [C2 E2]. split.
  - intros c Hc. destruct (C1 c Hc) as (c2 & Hc2 & ?). destruct (C2 c2 Hc2) as (c3 & ? & ?).
    exists c3. split; [done|by etrans].
  - intros e He. destruct (E1 e He) as (e2 & He2 & ?). destruct (E2 e2 He2) as (e3 & ? & ?).
    exists e3. split; [done|by etrans].
Qed.

Lemma journal_kept_same j j' :
  j_commands j' = j_commands j → j_environments j' = j_environments j → journal_kept j j'.
Proof.
  intros Ec Ee. split; [rewrite Ec|rewrite Ee]; intros x Hx; exists x; (split; [done|reflexivity]).
Qed.

Lemma update_kept {A} (R : A → A → Prop) (q : A → bool) f l a :
  Reflexive R → (∀ b, b ∈ l → q b = true → R b (f b)) → a ∈ l → ∃ a', a' ∈ update_where q f l ∧ R a a'.
Proof.
  intros HR Hf Ha. exists (if q a then f a else a). split; [apply elem_of_update_where; eauto|].
  destruct (q a) eqn:E; [by apply Hf|done].
Qed.

(** ** Success is journaled *)
Definition of_scope (e : Environment) (sc : CommandScope) : Prop :=
  ∃ backend, sc = ScopePlacement (env_placement_id e) backend (env_generation e).

(** What the journal holds when a command reports this evidence. *)
Definition durable (j : Journal) (envelope : AgentCommandEnvelope) (ev : SuccessEvidence) : Prop :=
  match ev with
  | EvPreparedEnvironment id =>
      ∃ e, e ∈ j_environments j ∧ env_id e = id ∧ of_scope e (scope envelope)
  | EvRunnerStarted id _ _ identity =>
      ∃ e, e ∈ j_environments j ∧ env_id e = id ∧ of_scope e (scope envelope)
        ∧ env_local_identity e = Some identity
  | _ => True
  end.

Lemma env_kept_scope e e' sc : env_kept e e' → of_scope e sc → of_scope e' sc.
Proof. intros (_ & Hp & Hg & _) [b ->]. exists b. by rewrite Hp, Hg. Qed.

Lemma durable_kept j j' envelope ev : journal_kept j j' → durable j envelope ev → durable j' envelope ev.
Proof.
  intros [_ HE]. destruct ev; try done; simpl.
  - intros (e & He & <- & Hs). destruct (HE e He) as (e' & He' & Hk).
    exists e'. split; [done|]. split; [apply Hk|by eapply env_kept_scope].
  - intros (e & He & <- & Hs & Hi). destruct (HE e He) as (e' & He' & Hk).
    exists e'. split; [done|]. split; [apply Hk|]. split; [by eapply env_kept_scope|by apply Hk].
Qed.

(** ** What the helper may be asked *)
Definition resource_of (op : AgentOperation) : option LocalResourceIdentity :=
  match op with
  | OpInspect x | OpDrain x | OpStop x _ | OpCleanup x | OpExecuteSandbox x _ _ _ _ _
  | OpSandboxFile x _ | OpSandboxArtifact x _ => Some x
  | _ => None
  end.

(** A request the agent may make for a journaled command. *)
Definition permitted (trust : Trust) (j : Journal) (envelope : AgentCommandEnvelope)
    (req : HelperRequest) : Prop :=
  hr_operation req = operation envelope
  ∧ (hr_docker_socket req = true → trust_docker_socket trust = true)
  ∧ match operation envelope with
    | OpPrepareEnvironment p => hr_prepared req = Some p
        ∧ (ec_requires_docker_socket (pe_configuration p) = true → trust_docker_socket trust = true)
    | OpInspectHost | OpDrainHost => hr_environment_id req = None ∧ scope envelope = ScopeHost
    | OpUpgradeAgent _ _ _ _ => False
    | op => ∃ e, e ∈ j_environments j ∧ hr_environment_id req = Some (env_id e)
              ∧ hr_prepared req = Some (env_prepare e) ∧ of_scope e (scope envelope)
              ∧ match op with
                | OpStartRunner start => env_id e = sr_prepared_environment_id start
                | _ => env_local_identity e = resource_of op
                end
    end.

Lemma permitted_kept trust j j' envelope req :
  journal_kept j j' → permitted trust j envelope req → permitted trust j' envelope req.
Proof.
  intros [_ HE] (Ho & Hd & Hp). split; [done|]. split; [done|].
  destruct (operation envelope); try done;
    destruct Hp as (e & He & Hid & Hpr & Hs & Hx); destruct (HE e He) as (e' & He' & Hk);
    pose proof Hk as (Ki & _ & _ & Kp & Kl); exists e'; rewrite Ki, Kp;
    split_and!; try done; (try by eapply env_kept_scope); simpl in *; auto.
Qed.

(** ** The invariant *)
Record agent_wf {W} `{Codec} (trust : Trust) (s : Agent W) : Prop := {
  aw_commands : NoDup (jc_command_id <$> j_commands (ag_journal s));
  aw_rows : ∀ c, c ∈ j_commands (ag_journal s) →
    jc_command_id c = command_id (jc_envelope c) ∧ jc_request_hash c = request_hash (jc_envelope c);
  aw_environments : NoDup (env_id <$> j_environments (ag_journal s));
  aw_once : NoDup (ag_calls s).*1;
  aw_calls : ∀ id req, (id, req) ∈ ag_calls s →
    ∃ c, c ∈ j_commands (ag_journal s) ∧ jc_command_id c = id
      ∧ permitted trust (ag_journal s) (jc_envelope c) req;
  aw_results : ∀ c r, c ∈ j_commands (ag_journal s) → jc_result c = Some r →
    result_validate_against r (jc_envelope c) = Ok r
    ∧ ∀ ev, res_outcome r = OutSucceeded ev → durable (ag_journal s) (jc_envelope c) ev }.

Section agent_spec.
Context {W : Type} `{RuntimeHelper W, UuidText, Codec, EnvelopeReader} (trust : Trust).
Implicit Types (s : Agent W) (e : AgentCommandEnvelope).

(** A write to the journal keeps the calls it had. *)
Lemma wf_set_journal s j :
  agent_wf trust s → journal_kept (ag_journal s) j →
  NoDup (jc_command_id <$> j_commands j) →
  (∀ c, c ∈ j_commands j → jc_command_id c = command_id (jc_envelope c)
     ∧ jc_request_hash c = request_hash (jc_envelope c)) →
  NoDup (env_id <$> j_environments j) →
  (∀ c r, c ∈ j_commands j → jc_result c = Some r →
     (c ∈ j_commands (ag_journal s))
     ∨ result_validate_against r (jc_envelope c) = Ok r
       ∧ ∀ ev, res_outcome r = OutSucceeded ev → durable j (jc_envelope c) ev) →
  agent_wf trust (set_journal s j).
Proof.
  intros [Hc Hr He Ho Hcalls Hres] Hk Hc' Hr' He' Hres'. split; try done; simpl.
  - intros id req Hin. destruct (Hcalls id req Hin) as (c & Hc1 & Hid & Hp).
    destruct (jk_commands _ _ Hk c Hc1) as (c' & Hin' & Ki & _ & Ke & _). exists c'.
    split; [done|]. split; [congruence|]. rewrite Ke. by eapply permitted_kept.
  - intros c r Hin E. destruct (Hres' c r Hin E) as [Hold|Hnew]; [|done].
    destruct (Hres c r Hold E) as [Hv Hd]. split; [done|]. intros ev Ev. by eapply durable_kept, Hd.
Qed.

(** The states a run passes through: well formed and grown from [s0]. *)
Definition inv (s0 s : Agent W) : Prop :=
  agent_wf trust s ∧ journal_kept (ag_journal s0) (ag_journal s).

Definition known_row e s : Prop :=
  ∃ c, c ∈ j_commands (ag_journal s) ∧ jc_envelope c = e.

Definition working (s0 : Agent W) e s : Prop := inv s0 s ∧ known_row e s.

Lemma journaled_Some j id c : journaled j id = Some c → c ∈ j_commands j ∧ jc_command_id c = id.
Proof. intros [Hin Hq]%fetch_Some. by bool_to_prop. Qed.

(** *** Receipt *)

(** A journaled command with this identifier and hash is this command. *)
Definition no_collision s e : Prop :=
  ∀ c, c ∈ j_commands (ag_journal s) → jc_command_id c = command_id e →
    jc_request_hash c = request_hash e → jc_envelope c = e.

Definition received (s0 : Agent W) e (r : Result Receipt JournalError) s : Prop :=
  match r with
  | Ok ReceiptNew => working s0 e s ∧ command_id e ∉ (ag_calls s).*1
  | Ok ReceiptInterrupted => working s0 e s
  | Ok (ReceiptCompleted res) =>
      inv s0 s ∧ ∃ c, c ∈ j_commands (ag_journal s) ∧ jc_envelope c = e ∧ jc_result c = Some res
  | Err _ => inv s0 s
  end.

Lemma receive_new s0 s e clock :
  inv s0 s → journaled (ag_journal s) (command_id e) = None →
  received s0 e (Ok ReceiptNew)
    (set_journal s (receive (ag_journal s) e clock (ag_boot_id s)).1).
Proof.
  intros [Hw Hk] Hj. unfold receive. rewrite Hj. simpl.
  unfold journaled in Hj. rewrite fetch_None in Hj.
  set (row := {| jc_command_id := _ |}). set (j := set_j_commands _ _).
  assert (journal_kept (ag_journal s) j) as Hkj.
  { split; simpl; [|intros x Hx; exists x; (split; [done|reflexivity])].
    intros c Hc. exists c. split; [set_solver|done]. }
  assert (agent_wf trust (set_journal s j)) as Hw'.
  { apply wf_set_journal; try done; simpl.
    - rewrite fmap_app. apply NoDup_app. split; [apply Hw|]. split; [|apply NoDup_singleton].
      intros x (c & -> & Hc)%list_elem_of_fmap Hx%list_elem_of_singleton. apply Hj in Hc.
      simpl in Hx. rewrite Hx, Z.eqb_refl in Hc. done.
    - intros c [Hc|Hc%list_elem_of_singleton]%elem_of_app; [by apply (aw_rows _ _ Hw)|by subst].
    - apply Hw.
    - intros c r [Hc|Hc%list_elem_of_singleton]%elem_of_app; [by left|by subst]. }
  split; [split; [split; [done|by etrans]|]|].
  - exists row. simpl. split; [set_solver|done].
  - simpl. intros ([id req] & Hid & Hin)%list_elem_of_fmap. simpl in Hid. subst id.
    destruct (aw_calls _ _ Hw _ _ Hin) as (c & Hc & Hid & _). apply Hj in Hc.
    rewrite Hid, Z.eqb_refl in Hc. done.
Qed.

Lemma receive_triple s0 e clock :
  triple (λ s, inv s0 s ∧ no_collision s e) (journal_receive e clock) (received s0 e) (inv s0).
Proof.
  apply triple_act; [by intros s [? _]|]. intros s [Hi Hnc].
  destruct (journaled (ag_journal s) (command_id e)) as [c|] eqn:Ej.
  - unfold receive. rewrite Ej. simpl. apply journaled_Some in Ej as [Hc Hid].
    assert (set_journal s (ag_journal s) = s) as -> by by destruct s.
    destruct (String.eqb_spec (jc_request_hash c) (request_hash e)) as [Eh|]; simpl; [|done].
    specialize (Hnc c Hc Hid Eh). destruct (jc_result c) eqn:Er; simpl.
    + split; [done|]. by exists c.
    + split; [done|]. by exists c.
  - pose proof (receive_new s0 s e clock Hi Ej) as Hn.
    unfold receive in Hn |- *. rewrite Ej in Hn |- *. exact Hn.
Qed.

(** *** The actions of a command at work *)
Definition backed e (o : CommandOutcome) s : Prop :=
  ∀ ev, o = OutSucceeded ev → evidence_matches e ev = true → durable (ag_journal s) e ev.

Definition done_work (s0 : Agent W) e (o : CommandOutcome) s : Prop := working s0 e s ∧ backed e o s.

Definition may_call (s0 : Agent W) e (P : Journal → Prop) s : Prop :=
  working s0 e s ∧ command_id e ∉ (ag_calls s).*1 ∧ P (ag_journal s).

Lemma call_triple s0 e req (P : Journal → Prop) :
  (∀ j, P j → permitted trust j e req) →
  triple (may_call s0 e P) (call (command_id e) req)
    (λ _ s, working s0 e s ∧ P (ag_journal s)) (inv s0).
Proof.
  intros Hperm. apply triple_act; [by intros s [[? _] _]|].
  intros s ([[Hw Hk] Hopen] & Hfresh & HP). simpl. split; [|done]. split; [split; [|done]|done].
  pose proof Hw as [Hc Hr He Ho Hcalls Hres]. split; try done; simpl.
  - rewrite fmap_app. simpl. apply NoDup_app. split; [done|]. split; [|apply NoDup_singleton].
    intros x Hx ->%list_elem_of_singleton. done.
  - intros id r [Hin|Hin%list_elem_of_singleton]%elem_of_app; [by apply Hcalls|].
    injection Hin as -> ->. destruct Hopen as (c & Hin & He'). exists c. split; [done|].
    rewrite He'. split; [|by apply Hperm]. destruct (Hr c Hin) as [-> _]. by rewrite He'.
Qed.

Lemma record_environment_working s0 e s env j :
  working s0 e s → record_environment (ag_journal s) env = Some j →
  working s0 e (set_journal s j) ∧ env ∈ j_environments j.
Proof.
  unfold record_environment. intros [[Hw Hk] Hopen] E. inv_result. rewrite exists_row_false in E0.
  set (j := set_j_environments _ _).
  assert (journal_kept (ag_journal s) j) as Hkj.
  { split; simpl; [intros x Hx; exists x; (split; [done|reflexivity])|].
    intros x Hx. exists x. split; [set_solver|done]. }
  split; [|simpl; set_solver]. split; [|done]. split; [|by etrans].
  apply wf_set_journal; try done; simpl; try apply Hw; [|by left].
  rewrite fmap_app. apply NoDup_app. split; [apply Hw|]. split; [|apply NoDup_singleton].
  intros x (y & -> & Hy)%list_elem_of_fmap Hx%list_elem_of_singleton. apply E0 in Hy. simpl in Hx.
  by rewrite Hx, Z.eqb_refl in Hy.
Qed.

Lemma bind_working s0 e s id identity j :
  working s0 e s → bind_local_identity (ag_journal s) id identity = Some j →
  working s0 e (set_journal s j)
  ∧ ∀ x, x ∈ j_environments (ag_journal s) → env_id x = id → of_scope x (scope e) →
      ∃ x', x' ∈ j_environments j ∧ env_id x' = id ∧ of_scope x' (scope e)
        ∧ env_local_identity x' = Some identity.
Proof.
  unfold bind_local_identity. intros [[Hw Hk] Hopen] E. inv_result.
  set (free := λ x : Environment, _ && _) in *. set (j := set_j_environments _ _).
  assert (journal_kept (ag_journal s) j) as Hkj.
  { split; simpl; [intros x Hx; exists x; (split; [done|reflexivity])|].
    intros x Hx. apply update_kept; [apply _| |done]. intros y _ Hy. split_and!; try done.
    intros i Hi. unfold free in Hy. rewrite Hi in Hy. simpl in Hy. bool_to_prop. simpl. congruence. }
  split.
  - split; [|done]. split; [|by etrans]. apply wf_set_journal; try done; simpl; try apply Hw; [|by left].
    rewrite update_where_fmap; [apply Hw|done].
  - intros x Hx Hid Hs. exists (env_bind identity x). simpl. split; [|done].
    apply elem_of_update_where. exists x. split; [done|]. destruct (free x) eqn:Ef; [done|]. exfalso.
    (* exactly one row is free, and identifiers are unique *)
    assert (∃ y, y ∈ j_environments (ag_journal s) ∧ free y = true) as (y & Hy & Hfy).
    { apply count_rows_pos. bool_to_prop. lia. }
    assert (env_id y = id) as Hyid by (unfold free in Hfy; by bool_to_prop).
    assert (x = y) as -> by (eapply (unique_by env_id); [apply Hw|done|done|congruence]). congruence.
Qed.

Lemma done_any {A} s0 (a : A) (P : Agent W → Prop) :
  (∀ s, P s → inv s0 s) → triple P (ret a) (λ _ s, inv s0 s) (inv s0).
Proof. intros HP n s Hs. by apply HP. Qed.

Lemma done_ret s0 e o (P : Agent W → Prop) :
  (∀ s, P s → working s0 e s) → (∀ s, P s → backed e o s) →
  triple P (ret o) (done_work s0 e) (inv s0).
Proof. intros Hw Hb n s Hs. split; auto. Qed.

(** Outcomes that are not a success need no backing. *)
Lemma done_ret_plain s0 e o :
  (∀ ev, o ≠ OutSucceeded ev) → triple (working s0 e) (ret o) (done_work s0 e) (inv s0).
Proof. intros Ho. apply done_ret; [done|]. intros s _ ev E. by destruct (Ho ev). Qed.

Lemma working_inv s0 e s : working s0 e s → inv s0 s.
Proof. by intros [? _]. Qed.

Lemma fetch_environment j p g x :
  placement_environment j p g = Some x →
  x ∈ j_environments j ∧ env_placement_id x = p ∧ env_generation x = g.
Proof. intros [Hin Hq]%fetch_Some. by bool_to_prop. Qed.

Lemma prepare_triple s0 e p placement backend generation drawn :
  operation e = OpPrepareEnvironment p → scope e = ScopePlacement placement backend generation →
  (ec_requires_docker_socket (pe_configuration p) = true → trust_docker_socket trust = true) →
  triple (may_call s0 e (λ _, True)) (prepare trust e p placement generation drawn)
    (done_work s0 e) (inv s0).
Proof.
  intros Hop Hsc Htr. unfold prepare. eapply triple_bind.
  { apply (triple_lift _ _ _ _ (λ id, may_call s0 e (λ _, True))); [by intros s [[? _] _]|done]. }
  intros id. set (env := {| env_id := id |}). eapply triple_bind.
  { apply call_triple. intros j _. split; [done|]. simpl. split; [by intros [? _]%andb_true_iff|].
    by rewrite Hop. }
  intros response.
  assert (∀ o, (∀ ev, o = OutSucceeded ev → evidence_matches e ev = false) →
    triple (λ s, working s0 e s ∧ True) (ret o) (done_work s0 e) (inv s0)) as Hno.
  { intros o Ho. apply done_ret; [by intros s [? _]|]. intros s _ ev ->. by rewrite (Ho ev). }
  destruct response as [ev|code retryable]; [|by apply Hno].
  destruct ev as [reported| | | | | | | | |]; try by apply Hno.
  destruct (Z.eqb_spec reported id) as [->|]; [|by apply Hno].
  eapply triple_bind.
  - apply (triple_write _ _ _ (λ _ s, working s0 e s ∧ env ∈ j_environments (ag_journal s)));
      [by intros s [[? _] _]|]. intros s j [Hw _] E. by eapply record_environment_working.
  - intros []. apply done_ret; [by intros s [? _]|]. intros s [_ Hin] ev [= <-] _. exists env.
    split; [done|]. split; [done|]. by exists backend.
Qed.

Lemma authorize_inl op owned x :
  authorize op owned = inl x →
  owned = Some x
  ∧ match op with
    | OpPrepareEnvironment _ | OpInspectHost | OpDrainHost | OpUpgradeAgent _ _ _ _ => False
    | OpStartRunner start => env_id x = sr_prepared_environment_id start
    | op => env_local_identity x = resource_of op
    end.
Proof.
  unfold authorize, is_owned_fix_sandbox. intros E.
  destruct op; try done; destruct owned as [y|]; try done; case_match; try done; injection E as ->;
    bool_to_prop; done.
Qed.

Lemma run_in_triple s0 e x placement backend generation bootstrap :
  scope e = ScopePlacement placement backend generation →
  authorize (operation e) (Some x) = inl x →
  triple (may_call s0 e (λ j, placement_environment j placement generation = Some x))
    (run_in trust e x bootstrap) (done_work s0 e) (inv s0).
Proof.
  intros Hsc [_ Hau]%authorize_inl. unfold run_in.
  assert (∀ j, placement_environment j placement generation = Some x →
    x ∈ j_environments j ∧ of_scope x (scope e)) as Hx.
  { intros j (Hin & <- & <-)%fetch_environment. split; [done|]. by exists backend. }
  eapply triple_bind.
  { apply call_triple. intros j [Hin Hs]%Hx. split; [done|]. split; [by intros [? _]%andb_true_iff|].
    destruct (operation e); try done; by exists x. }
  intros response.
  assert (∀ o, (∀ ev, o = OutSucceeded ev →
      (∀ id, ev ≠ EvPreparedEnvironment id) ∧ (∀ a b c d, ev ≠ EvRunnerStarted a b c d)
      ∨ evidence_matches e ev = false) →
    triple (λ s, working s0 e s ∧ placement_environment (ag_journal s) placement generation = Some x)
      (ret o) (done_work s0 e) (inv s0)) as Hno.
  { intros o Ho. apply done_ret; [by intros s [? _]|]. intros s _ ev ->.
    destruct (Ho ev eq_refl) as [[H1' H2']| ->]; [|done]. intros _. destruct ev; try done; naive_solver. }
  destruct response as [ev|]; [|by apply Hno].
  destruct ev as [id|id profile revision identity| | | | | | | |];
    try (apply Hno; intros ev' [= <-]; left; split; by intros).
  - apply Hno. intros ev' [= <-]. right. unfold evidence_matches. by destruct (operation e).
  - eapply triple_bind.
    + apply (triple_write _ _ _ (λ _ s, working s0 e s
        ∧ ∃ x', x' ∈ j_environments (ag_journal s) ∧ env_id x' = env_id x ∧ of_scope x' (scope e)
            ∧ env_local_identity x' = Some identity)); [by intros s [[? _] _]|].
      intros s j [Hw [Hin Hs]%Hx] E. destruct (bind_working _ _ _ _ _ _ Hw E) as [? Hb].
      split; [done|]. simpl. by apply (Hb x).
    + intros []. apply done_ret; [by intros s [? _]|].
      intros s [_ (x' & Hin & Hid & Hs & Hi)] ev [= <-] Hm. exists x'. split; [done|].
      split; [|done]. unfold evidence_matches in Hm. destruct (operation e); try done.
      bool_to_prop. congruence.
Qed.

Lemma execute_triple s0 e bootstrap drawn :
  triple (may_call s0 e (λ _, True)) (execute trust e bootstrap drawn) (done_work s0 e) (inv s0).
Proof.
  unfold execute. destruct (scope e) as [|placement backend generation] eqn:Hsc.
  - assert (∀ code, triple (may_call s0 e (λ _, True)) (ret (refused code)) (done_work s0 e) (inv s0))
      as Hrefuse by (intros code; apply done_ret; [by intros s [? _]|done]).
    destruct (operation e) eqn:Hop; try apply Hrefuse.
    all: eapply triple_bind;
      [apply call_triple; intros j _; repeat split; try done; [by intros [? _]%andb_true_iff|by rewrite Hop]|].
    all: intros response; apply done_ret; [by intros s [? _]|]; intros s _ ev _ Hm;
      unfold evidence_matches in Hm; rewrite Hop in Hm; by destruct ev.
  - eapply triple_bind.
    { apply (triple_read _ _ _ (λ owned s, may_call s0 e
        (λ j, placement_environment j placement generation = owned) s)).
      intros s (Hw & Hf & _). done. }
    intros owned.
    assert (∀ o, (∀ ev, o ≠ OutSucceeded ev) →
      triple (may_call s0 e (λ j, placement_environment j placement generation = owned)) (ret o)
        (done_work s0 e) (inv s0)) as Hplain.
    { intros o Ho. apply done_ret; [by intros s [? _]|]. intros s _ ev ->. by destruct (Ho ev). }
    assert (match authorize (operation e) owned with
            | inl x => triple (may_call s0 e (λ j, placement_environment j placement generation = owned))
                         (run_in trust e x bootstrap) (done_work s0 e) (inv s0)
            | inr o => triple (may_call s0 e (λ j, placement_environment j placement generation = owned))
                         (ret o) (done_work s0 e) (inv s0)
            end) as Hau.
    { destruct (authorize (operation e) owned) as [x|o] eqn:Ea.
      - pose proof (authorize_inl _ _ _ Ea) as [-> _]. by eapply run_in_triple.
      - apply Hplain. intros ev ->. unfold authorize in Ea. destruct (operation e); repeat case_match; done. }
    destruct (operation e) eqn:Hop; try (destruct (authorize _ owned); exact Hau).
    destruct (ec_requires_docker_socket (pe_configuration p) && negb (trust_docker_socket trust)) eqn:Et;
      [by apply Hplain|]. destruct (ec_requires_interactive _); [by apply Hplain|].
    destruct (negb (is_none owned)) eqn:Eo; [by apply Hplain|].
    eapply triple_conseq; [|apply (prepare_triple _ _ p placement backend generation); [done|done|]|done].
    + by intros s (? & ? & _).
    + intros Hd. rewrite Hd in Et. simpl in Et. by apply negb_false_iff in Et.
Qed.

(** *** Recovery and conclusion *)
Lemma recover_triple s0 e :
  triple (working s0 e) (recover trust e) (done_work s0 e) (inv s0).
Proof.
  unfold recover. destruct (scope e) as [|placement backend generation] eqn:Hsc; [by apply done_ret_plain|].
  eapply triple_bind.
  { apply (triple_read _ _ _ (λ owned s, working s0 e s
      ∧ placement_environment (ag_journal s) placement generation = owned)). done. }
  intros owned.
  set (P := λ s, working s0 e s ∧ placement_environment (ag_journal s) placement generation = owned).
  assert (∀ s, P s → inv s0 s) as HPi by (by intros s [[? _] _]).
  assert (∀ o, (∀ ev, o ≠ OutSucceeded ev) → triple P (ret o) (done_work s0 e) (inv s0)) as Hplain.
  { intros o Ho. apply done_ret; [by intros s [? _]|]. intros s _ ev ->. by destruct (Ho ev). }
  assert (∀ s x, P s → owned = Some x → x ∈ j_environments (ag_journal s) ∧ of_scope x (scope e)) as Hx.
  { intros s x [_ Ho] ->. apply fetch_environment in Ho as (Hin & <- & <-). split; [done|]. rewrite Hsc.
    by exists backend. }
  destruct (operation e) as [p|start| | | | | | | | | |] eqn:Hop; try by apply Hplain.
  - destruct owned as [x|]; [|by apply Hplain]. apply done_ret; [by intros s [? _]|].
    intros s Hs ev [= <-] _. destruct (Hx s x Hs eq_refl). by exists x.
  - destruct owned as [x|]; [|by apply Hplain].
    destruct (Z.eqb_spec (env_id x) (sr_prepared_environment_id start)) as [Eid|]; [|by apply Hplain].
    destruct (env_local_identity x) as [identity|] eqn:Ei.
    + apply done_ret; [by intros s [? _]|]. intros s Hs ev [= <-] _.
      destruct (Hx s x Hs eq_refl). by exists x.
    + eapply triple_bind; [by apply (triple_boot _ _ (λ _, P))|]. intros boot.
      eapply triple_bind; [by apply (triple_read _ _ _ (λ _, P))|]. intros rebooted.
      eapply triple_bind; [apply (triple_act _ _ _ (λ _, P)); [done|]|].
      { intros s [[[Hw Hk] Hopen] Hown]. split; [|done]. split; [split; [|done]|done].
        by destruct Hw. }
      intros [identity| |]; [|by apply Hplain..]. eapply triple_bind.
      * apply (triple_write _ _ _ (λ _ s, working s0 e s
          ∧ ∃ x', x' ∈ j_environments (ag_journal s) ∧ env_id x' = env_id x ∧ of_scope x' (scope e)
              ∧ env_local_identity x' = Some identity)); [done|].
        intros s j Hs E. destruct (Hx s x Hs eq_refl) as [Hin Hsx]. destruct Hs as [Hw _].
        destruct (bind_working _ _ _ _ _ _ Hw E) as [? Hb]. split; [done|]. simpl. by apply (Hb x).
      * intros []. apply done_ret; [by intros s [? _]|].
        intros s [_ (x' & Hin & Hid & Hs & Hi)] ev [= <-] _. exists x'. split; [done|].
        split; [congruence|done].
Qed.

Lemma result_Ok e o now drawn r :
  result e o now drawn = Ok r →
  res_command_id r = command_id e ∧ res_outcome r = o
  ∧ ∀ o', (∀ ev, o' = OutSucceeded ev → evidence_matches e ev = true) →
      result_validate_against (set_outcome o' r) e = Ok (set_outcome o' r).
Proof.
  unfold result. intros E. apply bind_Ok in E as (id & _ & E).
  apply bind_Ok in E as (hash & Eh%map_err_Ok & [= <-]). split; [done|]. split; [done|].
  intros o' Ho. unfold result_validate_against. simpl. rewrite !Z.eqb_refl, bool_decide_true by done. simpl.
  assert (b64_encode hash = request_hash e) as ->.
  { unfold Sha256Digest_try_from in Eh. inv_result. by bool_to_prop. }
  rewrite String.eqb_refl. simpl.
  assert (scope_generation_matches (scope e) (scope_generation (scope e)) = true) as ->.
  { destruct (scope e); simpl; [done|]. apply Z.eqb_refl. }
  simpl. destruct o' as [| |ev| |]; try done. by rewrite (Ho ev).
Qed.

(** The answer a run concludes with. *)
Definition answered (s0 : Agent W) e (r : AgentCommandResult) s : Prop :=
  inv s0 s ∧ ∃ c, c ∈ j_commands (ag_journal s) ∧ jc_envelope c = e ∧ jc_result c = Some r.

Lemma complete_answered s0 e o r s j :
  done_work s0 e o s → res_command_id r = command_id e → res_outcome r = o ∨ res_outcome r = unknown →
  result_validate_against r e = Ok r → complete (ag_journal s) r = Some j →
  answered s0 e r (set_journal s j).
Proof.
  intros [[[Hw Hk] Hopen] Hback] Hid Hout Hval E. unfold complete in E. inv_result.
  set (q := λ c : JournaledCommand, _ && _) in *. set (j := set_j_commands _ _).
  assert (∀ c, c ∈ j_commands (ag_journal s) → q c = true → jc_envelope c = e ∧ jc_result c = None) as Hq.
  { intros c Hc Hqc. unfold q in Hqc. bool_to_prop. destruct Hopen as (c' & Hc' & He').
    split; [|by destruct (jc_result c)]. assert (c = c') as ->; [|done]. eapply (unique_by jc_command_id); [apply Hw|done|done|].
    destruct (aw_rows _ _ Hw c' Hc') as [-> _]. congruence. }
  assert (journal_kept (ag_journal s) j) as Hkj.
  { split; simpl; [|intros x Hx; exists x; (split; [done|reflexivity])].
    intros c Hc. apply update_kept; [apply _| |done]. intros b Hb Hqb.
    destruct (Hq b Hb Hqb) as [_ Hn]. split_and!; try done. intros r' Hr'. congruence. }
  split; [split; [|by etrans]|].
  - apply wf_set_journal; try done; simpl; try apply Hw.
    + rewrite update_where_fmap; [apply Hw|done].
    + intros c (b & Hb & ->)%elem_of_update_where. case_match; [|by apply (aw_rows _ _ Hw)].
      simpl. by apply (aw_rows _ _ Hw).
    + intros c r' (b & Hb & ->)%elem_of_update_where Hr'. destruct (q b) eqn:Eq; [right|by left].
      destruct (Hq b Hb Eq) as [He _]. simpl in *. injection Hr' as <-. rewrite He. split; [done|].
      intros ev Hev. destruct Hout as [Ho|Hu]; [|by rewrite Hu in Hev].
      eapply durable_kept; [exact Hkj|]. apply Hback; [congruence|].
      unfold result_validate_against in Hval. inv_result. rewrite Hev in Hval. by inv_result.
  - destruct (count_rows_pos q (j_commands (ag_journal s))) as (c & Hc & Hqc); [bool_to_prop; lia|].
    exists (jc_complete r c). simpl. split; [|split; [by apply Hq|done]].
    apply elem_of_update_where. exists c. by rewrite Hqc.
Qed.

Lemma conclude_triple s0 e o now drawn :
  triple (done_work s0 e o) (conclude e o now drawn) (answered s0 e) (inv s0).
Proof.
  unfold conclude. eapply triple_bind.
  { apply (triple_lift _ _ _ _ (λ r s, result e o now drawn = Ok r ∧ done_work s0 e o s));
      [by intros s [[? _] _]|done]. }
  intros r. set (r' := if is_ok _ then r else _).
  apply (triple_bind _ _ _ _ (λ _, answered s0 e r')); [|intros []; apply (triple_ret _ r' (answered s0 e))].
  apply triple_write; [by intros s (_ & [? _] & _)|]. intros s j [E Hd] Ej.
  apply result_Ok in E as (Hid & Ho & Hv). eapply complete_answered; [exact Hd| | | |exact Ej]; unfold r'.
  - by case_match.
  - case_match; auto.
  - destruct (is_ok (result_validate_against r e)) eqn:Eok; [|by apply Hv].
    destruct (result_validate_against r e) as [r2|] eqn:Er; [|done].
    unfold result_validate_against in Er. inv_result. case_match; by inv_result.
Qed.

(** ** Histories *)
Lemma dispatch_triple s0 body session now bootstrap clock d1 d2 :
  triple (λ s, s = s0 ∧ agent_wf trust s
            ∧ ∀ e, from_slice body = Some e → no_collision s e)
    (dispatch_with trust body session now bootstrap clock d1 d2)
    (λ r s, inv s0 s ∧ ∃ e c, from_slice body = Some e ∧ c ∈ j_commands (ag_journal s)
        ∧ jc_envelope c = e ∧ jc_result c = Some r) (inv s0).
Proof.
  unfold dispatch_with. eapply triple_bind.
  { apply (triple_lift _ _ _ _ (λ e s, inv s0 s ∧ no_collision s e ∧ from_slice body = Some e)).
    - by intros s (-> & ? & _).
    - intros e s E (-> & Hw & Hnc). unfold parse_json in E. inv_result. split; [done|]. auto. }
  intros e. eapply triple_bind.
  { apply (triple_lift _ _ _ _ (λ _ s, inv s0 s ∧ no_collision s e ∧ from_slice body = Some e));
      [by intros s [? _]|done]. }
  intros []. eapply triple_conseq; [|apply (triple_pure _ (λ s, inv s0 s ∧ no_collision s e)
    (from_slice body = Some e))|intros a s Ha; exact Ha]; [by intros s (? & ? & ?)|]. intros Eb.
  eapply triple_bind; [apply (receive_triple s0 e clock)|].
  intros receipt. eapply triple_bind.
  { apply (triple_lift _ _ _ _ (λ r s, received s0 e (Ok r) s)); [|by intros r s ->].
    intros s. destruct receipt as [[| |]|]; simpl; [by intros [[? _] _]|by intros [? _]|by intros [? _]|done]. }
  assert (∀ r s, answered s0 e r s → inv s0 s ∧ ∃ e' c, from_slice body = Some e' ∧ c ∈ j_commands (ag_journal s)
      ∧ jc_envelope c = e' ∧ jc_result c = Some r) as Hans.
  { intros r s [Hi (c & ? & ? & ?)]. split; [done|]. by exists e, c. }
  intros [| |r].
  - eapply triple_bind; [|intros o; eapply triple_conseq; [done|apply conclude_triple|exact Hans]].
    destruct (is_ok (validate_against e session now)); simpl.
    + eapply triple_conseq; [|apply execute_triple|done]. by intros s [? ?].
    + apply done_ret; [by intros s [? _]|done].
  - eapply triple_bind; [apply recover_triple|]. intros o.
    eapply triple_conseq; [done|apply conclude_triple|exact Hans].
  - intros n s Hs. simpl. by apply Hans.
Qed.

Lemma interrupted_triple s0 e now drawn :
  triple (working s0 e) (dispatch_interrupted trust e now drawn) (answered s0 e) (inv s0).
Proof. eapply triple_bind; [apply recover_triple|]. intros o. apply conclude_triple. Qed.

Lemma known_row_kept e s s' :
  journal_kept (ag_journal s) (ag_journal s') → known_row e s → known_row e s'.
Proof.
  intros [HC _] (c & Hc & <-). destruct (HC c Hc) as (c' & Hc' & _ & _ & He & _). by exists c'.
Qed.

Lemma deliver_each_triple s0 post now drawn l :
  triple (λ s, inv s0 s ∧ ∀ e stored, (e, stored) ∈ l → known_row e s)
    (deliver_each trust post now drawn l) (λ _ s, inv s0 s) (inv s0).
Proof.
  (* the rows of the list were there at the start of the loop *)
  intros n s1 [Hi1 Hk1]. revert n s1 Hi1 Hk1.
  enough (∀ s1, (∀ e stored, (e, stored) ∈ l → known_row e s1) →
    triple (λ s, inv s0 s ∧ journal_kept (ag_journal s1) (ag_journal s))
      (deliver_each trust post now drawn l) (λ _ s, inv s0 s) (inv s0)) as Hgen.
  { intros n s1 Hi1 Hk1. by apply (Hgen s1 Hk1). }
  intros s1 Hk1. induction l as [|[e stored] l IH]; simpl.
  { apply done_any. by intros s [? _]. }
  eapply triple_bind.
  - apply (triple_conseq _ _ (λ s, inv s0 s ∧ journal_kept (ag_journal s1) (ag_journal s)) _
      (λ _ s, inv s0 s ∧ journal_kept (ag_journal s1) (ag_journal s))
      (λ _ s, inv s0 s ∧ journal_kept (ag_journal s1) (ag_journal s))); [done| |done].
    destruct stored as [r|]; [by intros n s|].
    intros n s [Hi Hk].
    assert (working s e s) as Hw.
    { split; [split; [apply Hi|reflexivity]|]. eapply known_row_kept; [exact Hk|]. eapply Hk1. left. }
    pose proof (interrupted_triple s e now (drawn (command_id e)) n s Hw) as Ht.
    destruct Hi as [Hwf Hk0].
    destruct (dispatch_interrupted trust e now (drawn (command_id e)) n s) as [[n' s'] [r|x|]]; simpl in *.
    + destruct Ht as [[? ?] _]. split; [split; [done|by etrans]|by etrans].
    + destruct Ht as [? ?]. split; [done|by etrans].
    + destruct Ht as [? ?]. split; [done|by etrans].
  - intros r. assert (triple (λ s, inv s0 s ∧ journal_kept (ag_journal s1) (ag_journal s))
      (bind (write (λ j, Some (delivered j (command_id e)))) (λ _, deliver_each trust post now drawn l))
      (λ _ s, inv s0 s) (inv s0)) as Hgo.
    { apply (triple_bind _ _ _ _ (λ _ s, inv s0 s ∧ journal_kept (ag_journal s1) (ag_journal s)));
        [|intros []; apply IH; intros e' st' Hin; eapply Hk1; right; exact Hin].
      apply triple_write; [by intros s [? _]|]. intros s j [[Hw Hk] Hks] [= <-].
      assert (journal_kept (ag_journal s) (delivered (ag_journal s) (command_id e))) as Hd.
      { unfold delivered. case_match; [done|]. by apply journal_kept_same. }
      split; [|by etrans]. split; [|by etrans]. apply wf_set_journal; try done.
      all: unfold delivered; case_match; simpl; try apply Hw. all: by left. }
    destruct (post r) as [|[]|]; [exact Hgo|apply done_any; by intros s [? _]|exact Hgo|
                                  apply done_any; by intros s [? _]].
Qed.

(** What can happen to an agent.  Commands are handled one at a time; any run
    may be cut off after [n] actions; runtimes change and hosts reboot at any
    time in between. *)
Inductive agent_step : Agent W → Agent W → Prop :=
| as_dispatch body session now bootstrap clock d1 d2 n s :
    (∀ e, from_slice body = Some e → no_collision s e) →
    agent_step s (dispatch_with trust body session now bootstrap clock d1 d2 n s).1.2
| as_deliver_results post now drawn clock n s :
    agent_step s (deliver_results trust post now drawn clock n s).1.2
| as_delivered id s : agent_step s (set_journal s (delivered (ag_journal s) id))
| as_output_shipped id s : agent_step s (set_journal s (output_shipped (ag_journal s) id))
| as_store_identity i s : agent_step s (set_journal s (store_identity (ag_journal s) i))
| as_rotation_secret op g fresh s :
    agent_step s (set_journal s (rotation_secret (ag_journal s) op g fresh).1)
| as_finish_rotation c g s : agent_step s (set_journal s (finish_rotation (ag_journal s) c g))
| as_world runtime boot s :
    agent_step s {| ag_journal := ag_journal s; ag_runtime := runtime; ag_boot_id := boot;
                    ag_calls := ag_calls s |}.

Lemma inv_refl s : agent_wf trust s → inv s s.
Proof. intros Hw. by split. Qed.

Lemma inv_rows_same s j :
  agent_wf trust s → j_commands j = j_commands (ag_journal s) →
  j_environments j = j_environments (ag_journal s) → inv s (set_journal s j).
Proof.
  intros Hw Ec Ee. assert (journal_kept (ag_journal s) j) by by apply journal_kept_same.
  split; [|done]. apply wf_set_journal; try done; rewrite ?Ec, ?Ee; try apply Hw. by left.
Qed.

Lemma triple_exit {A} (m : Run (W := W) A) (P : Agent W → Prop) Q s0 n s :
  triple P m Q (inv s0) → P s → (∀ a s', Q a s' → inv s0 s') → inv s0 (m n s).1.2.
Proof.
  intros Hm Hs HQ. specialize (Hm n s Hs). destruct (m n s) as [[n' s'] [a|e|]]; simpl in *; eauto.
Qed.

Lemma agent_step_inv s s' : agent_step s s' → agent_wf trust s → inv s s'.
Proof.
  intros Hs Hw. destruct Hs as [??????????|??????|? s|? s|? s|??? s|?? s|?? s].
  - eapply triple_exit; [apply dispatch_triple|done|by intros a s' [? _]].
  - unfold deliver_results.
    apply (triple_exit _ (eq s) (λ _ s', inv s s')); [|done|by intros a s' ?].
    eapply triple_bind; [|intros l; apply deliver_each_triple].
    apply (triple_read _ _ _ (λ l s', inv s s' ∧ ∀ e stored, (e, stored) ∈ l → known_row e s')).
    intros s' <-. split; [by apply inv_refl|].
    intros e stored (c & [= -> ->] & Hc)%list_elem_of_fmap.
    apply elem_of_order_by, elem_of_select in Hc as [Hc _]. by exists c.
  - apply inv_rows_same; [done|..]; unfold delivered; by case_match.
  - apply inv_rows_same; [done|..]; unfold output_shipped; by case_match.
  - by apply inv_rows_same.
  - apply inv_rows_same; [done|..]; unfold rotation_secret; repeat case_match; done.
  - by apply inv_rows_same.
  - split; [|done]. destruct Hw. by split.
Qed.

Lemma agent_rtc_inv s s' : rtc agent_step s s' → agent_wf trust s → inv s s'.
Proof.
  intros Hr. induction Hr as [s|s1 s2 s3 Hs _ IH]; intros Hw; [by apply inv_refl|].
  destruct (agent_step_inv _ _ Hs Hw) as [Hw2 Hk]. destruct (IH Hw2) as [Hw3 Hk']. split; [done|by etrans].
Qed.

(** An agent just installed. *)
Definition new_agent (runtime : W) (boot : string) : Agent W :=
  {| ag_journal := {| j_identity := None; j_rotation := None; j_commands := []; j_environments := [];
                      j_shipped_output := []; j_delivered_results := [] |};
     ag_runtime := runtime; ag_boot_id := boot; ag_calls := [] |}.

Lemma new_agent_wf runtime boot : agent_wf trust (new_agent runtime boot).
Proof.
  split; simpl; try apply NoDup_nil_2; try (intros c Hc; by apply not_elem_of_nil in Hc).
  - intros id req Hc. by apply not_elem_of_nil in Hc.
  - intros c r Hc. by apply not_elem_of_nil in Hc.
Qed.

Lemma reachable_agent_wf runtime boot s :
  rtc agent_step (new_agent runtime boot) s → agent_wf trust s.
Proof. intros Hr. eapply agent_rtc_inv in Hr as [? _]; [done|]. apply new_agent_wf. Qed.

(** C5: The agent runs a command at most once, and only on what it owns.
    Whatever was delivered, however often, and wherever the agent was cut off
    and restarted: the helper was called at most once for each command, for a
    journaled command and its own operation; other than to prepare or to look
    at the host, only inside the environment journaled for that command's
    placement and generation and, for an operation on a resource, only on the
    resource that environment owns; and with the Docker socket only where the
    operator declared it trusted. *)
Theorem agent_runs_once (runtime : W) (boot : string) (s : Agent W) :
  rtc agent_step (new_agent runtime boot) s →
  NoDup (ag_calls s).*1
  ∧ ∀ id req, (id, req) ∈ ag_calls s →
      ∃ c, c ∈ j_commands (ag_journal s) ∧ jc_command_id c = id
        ∧ permitted trust (ag_journal s) (jc_envelope c) req.
Proof. intros Hw%reachable_agent_wf. split; apply Hw. Qed.

Lemma dispatch_returns s body session now bootstrap clock d1 d2 n n' s' r :
  agent_wf trust s → (∀ e, from_slice body = Some e → no_collision s e) →
  dispatch_with trust body session now bootstrap clock d1 d2 n s = (n', s', Returned r) →
  inv s s' ∧ ∃ e c, from_slice body = Some e ∧ c ∈ j_commands (ag_journal s')
    ∧ jc_envelope c = e ∧ jc_result c = Some r.
Proof.
  intros Hw Hnc E. pose proof (dispatch_triple s body session now bootstrap clock d1 d2 n s) as Ht.
  rewrite E in Ht. by apply Ht.
Qed.

Lemma dispatch_backed s s' body session now bootstrap clock d1 d2 n n' e r :
  agent_wf trust s → from_slice body = Some e → no_collision s e →
  dispatch_with trust body session now bootstrap clock d1 d2 n s = (n', s', Returned r) →
  result_validate_against r e = Ok r
  ∧ ∀ ev, res_outcome r = OutSucceeded ev → durable (ag_journal s') e ev.
Proof.
  intros Hw Hb Hnc E. apply dispatch_returns in E as [[Hw' _] (e' & c & Hb' & Hc & He & Hr)];
    [|done|by intros x Hx; rewrite Hb in Hx; injection Hx as <-].
  rewrite Hb in Hb'. injection Hb' as <-. rewrite <-He. by apply (aw_results _ _ Hw' c r).
Qed.

(** What the agent answers, it answers truthfully.  A result it returns
    passes the server's check against the command it was sent, and a success
    is in the journal before it is told: a prepared environment is recorded
    for the command's placement and generation, and a started runner is the
    resource bound to its environment. *)
Theorem agent_answers_are_backed (runtime : W) (boot : string) (s s' : Agent W) (body : list Z)
    (session : ExpectedAgentSession) (now clock : Z) (bootstrap : option string) (d1 d2 : Uuid)
    (n n' : nat) (e : AgentCommandEnvelope) (r : AgentCommandResult) :
  rtc agent_step (new_agent runtime boot) s → from_slice body = Some e → no_collision s e →
  dispatch_with trust body session now bootstrap clock d1 d2 n s = (n', s', Returned r) →
  result_validate_against r e = Ok r
  ∧ ∀ ev, res_outcome r = OutSucceeded ev → durable (ag_journal s') e ev.
Proof. intros Hw%reachable_agent_wf. by apply dispatch_backed. Qed.

(** C6: An answer is final.  Once a command was answered, after any further
    history, restarts included, delivering it again to a session it is bound
    to gives the same answer, without calling the helper or writing to the
    journal. *)
Theorem agent_answers_are_final (runtime : W) (boot : string) (s s1 s2 : Agent W) (body : list Z)
    (session session' : ExpectedAgentSession) (now now' clock clock' : Z)
    (bootstrap bootstrap' : option string) (d1 d2 d1' d2' : Uuid) (n n1 m : nat)
    (e : AgentCommandEnvelope) (r : AgentCommandResult) :
  rtc agent_step (new_agent runtime boot) s → from_slice body = Some e → no_collision s e →
  dispatch_with trust body session now bootstrap clock d1 d2 n s = (n1, s1, Returned r) →
  rtc agent_step s1 s2 → validate_binding e session' = Ok tt →
  dispatch_with trust body session' now' bootstrap' clock' d1' d2' (S m) s2 = (m, s2, Returned r).
Proof.
  intros Hw%reachable_agent_wf Hb Hnc E Hr12 Hbind.
  pose proof E as E'. apply dispatch_returns in E' as [[Hw1 _] (e' & c & Hb' & Hc & He & Hr)];
    [|done|by intros x Hx; rewrite Hb in Hx; injection Hx as <-].
  rewrite Hb in Hb'. injection Hb' as <-.
  destruct (agent_rtc_inv _ _ Hr12 Hw1) as [Hw2 [HC _]].
  destruct (HC c Hc) as (c2 & Hc2 & Ki & Kh & Ke & _ & Kr). specialize (Kr r Hr).
  destruct (aw_rows _ _ Hw2 c2 Hc2) as [Hid Hhash].
  assert (journaled (ag_journal s2) (command_id e) = Some c2) as Hj.
  { unfold journaled. destruct (fetch _ _) as [x|] eqn:Ef.
    - apply fetch_Some in Ef as [Hx Hq]. bool_to_prop. f_equal.
      eapply (unique_by jc_command_id); [apply Hw2|done|done|]. congruence.
    - rewrite fetch_None in Ef. apply Ef in Hc2. rewrite Hid, Ke, He, Z.eqb_refl in Hc2. done. }
  assert (parse_json body DEFAULT_JSON_BYTES = Ok e) as Hp.
  { unfold dispatch_with in E. destruct (parse_json body _) as [x|] eqn:Ep; [|done].
    unfold parse_json in Ep. inv_result. congruence. }
  unfold dispatch_with, bind. rewrite Hp. simpl. rewrite Hbind. simpl.
  unfold receive. rewrite Hj. simpl. rewrite Hhash, Ke, He, String.eqb_refl. simpl. rewrite Kr. simpl.
  by destruct s2.
Qed.
End agent_spec.
