(* ===== verification/EndToEnd.v ===== *)
(** * The control plane and the agent together

    A command the registry hands out, run by the agent, comes back as a report
    the registry takes, whatever else happened meanwhile; and what happens to
    a command the agent no longer remembers to report. *)
From S2P Require Import Prelude Base64 Ids Domain Protocol Outcomes Capabilities Crypto Store Service Admission AdmissionSpec Deletion Commands Placement Evolution Fleet CommandsSpec Agent AgentSpec.
#[local] Open Scope string_scope.
#[local] Open Scope Z_scope.

(** ** Taking a report cannot fail *)

(** Every charge belongs to a stored placement. *)
Definition charges_owned (w : Work) : Prop :=
  ∀ a, a ∈ capacity_allocations w → ∃ pl, pl ∈ workload_placements w ∧ pl_id pl = a_placement_id a.

Lemma charges_owned_same w w' :
  workload_placements w' = workload_placements w → capacity_allocations w' = capacity_allocations w →
  charges_owned w → charges_owned w'.
Proof. intros EP EA Hw a. rewrite EA, EP. apply Hw. Qed.

Lemma release_total w placement now : charges_owned w → ∃ w', release w placement now = Ok w'.
Proof.
  intros Hw. unfold release, release_allocations. set (w1 := set_placements w _).
  destruct (_ && _) eqn:E; simpl; [exfalso|by eexists]. bool_to_prop.
  apply exists_row_true in H as (a & Ha & Hq). unfold unreleased_of in Hq. bool_to_prop.
  destruct (Hw a Ha) as (pl & Hpl & Hid). unfold release_proven in H0. rewrite exists_row_false in H0.
  specialize (H0 (pl_prove_absent now pl)).
  assert (pl_prove_absent now pl ∈ workload_placements w1) as Hin.
  { simpl. apply elem_of_update_where. exists pl. split; [done|].
    assert (String.eqb (pl_id pl) placement = true) as -> by (apply String.eqb_eq; congruence). done. }
  apply H0 in Hin. unfold not_null, is_null, pl_prove_absent, coalesce in Hin. simpl in Hin.
  assert (String.eqb (pl_id pl) placement = true) as Heq by (apply String.eqb_eq; congruence).
  rewrite Heq in Hin. by destruct (pl_local_absence_proven_at pl), (pl_delayed_starts_excluded_at pl).
Qed.

Section taken.
Context `{UuidText, Codec, RequestJson, ResultJson, Aead}.

Lemma placement_effect_total w placement kind o now :
  charges_owned w → ∃ x, placement_effect w placement kind o now = Ok x.
Proof.
  intros Hw. destruct (release_total w placement now Hw) as [w' Hr]. unfold placement_effect.
  destruct o as [| |ev| |]; repeat case_match; rewrite ?Hr; simpl; eauto.
Qed.

Lemma apply_to_placement_total w placement kind r now :
  charges_owned w → ∃ w', apply_to_placement w placement kind r now = Ok w'.
Proof.
  intros Hw. unfold apply_to_placement.
  set (w1 := if (_ && _ : bool) then erase_bootstrap _ _ _ else w).
  destruct (placement_effect_total w1 placement kind (res_outcome r) now) as [x Hx].
  { unfold w1. destruct (_ && _); [by eapply charges_owned_same|done]. }
  rewrite Hx. simpl. destruct x as [[w2 next]|]; eauto.
Qed.

Lemma apply_result_total w row late r now :
  charges_owned w → ∃ w', apply_result w row late r now = Ok w'.
Proof.
  intros Hw. unfold apply_result. set (w2 := upsert_attempt _ _ _ _ _).
  assert (charges_owned w2) as Hw2 by by eapply charges_owned_same.
  destruct (c_placement_id row) as [placement|]; [|simpl; eauto].
  destruct (apply_to_placement_total w2 placement (c_kind row) r now Hw2) as [w3 Hw3].
  destruct late; simpl; [|rewrite Hw3; simpl; eauto].
  destruct (placement_is_uncertain w2 placement); simpl; [|eauto]. rewrite Hw3. simpl. eauto.
Qed.

Lemma consistent_charges w : consistent w → charges_owned w.
Proof. intros Hw a Ha. destruct (inv_charges _ Hw a Ha) as (_ & _ & _ & pl & ? & ? & _). eauto. Qed.

Lemma record_total p w auth r now c encoded :
  consistent w → c ∈ host_commands w → c_host_id c = to_string (ah_host_id auth) →
  ensure_authenticated_generation p auth now = Ok tt →
  result_validate_against r (c_payload c) = Ok r → result_json r = Some encoded →
  (∀ x, x ∈ host_command_results w → r_id x = to_string (res_result_id r) →
     r_command_id x = c_id c ∧ r_result_hash x = hash_token encoded) →
  ∃ w' d, record_command_result p w auth r now = Ok (w', d).
Proof.
  intros Hw Hc Hh Hauth Hv Hj Hfresh.
  destruct (inv_sealed _ Hw c Hc) as (_ & Hid & _).
  assert (to_string (res_command_id r) = c_id c) as Hrid.
  { pose proof (result_validate_Ok _ _ _ Hv) as _. unfold result_validate_against in Hv. inv_result.
    bool_to_prop. congruence. }
  unfold record_command_result. rewrite Hauth. simpl. rewrite Hrid.
  destruct (fetch _ (host_commands w)) as [row|] eqn:Ef.
  2: { rewrite fetch_None in Ef. apply Ef in Hc. rewrite Hh, !String.eqb_refl in Hc. done. }
  apply fetch_Some in Ef as [Hrow Hq]. bool_to_prop.
  assert (row = c) as -> by (eapply (unique_by c_id); [apply Hw|done|done|done]).
  simpl. rewrite Hv. simpl. rewrite Hj. simpl.
  destruct (fetch _ (host_command_results w)) as [x|] eqn:Efr; [by eauto|].
  destruct (exists_row _ (host_command_results w)) eqn:Ex.
  { exfalso. apply exists_row_true in Ex as (x & Hx & Hxq). bool_to_prop.
    destruct (Hfresh x Hx Hxq) as [H1' H2']. rewrite fetch_None in Efr. apply Efr in Hx.
    by rewrite H1', H2', !String.eqb_refl in Hx. }
  set (late := bool_decide _ && _). destruct (negb late && _); simpl; [eauto|].
  edestruct (apply_result_total) as [w' ->]; [|simpl; eauto].
  eapply charges_owned_same; [..|by apply consistent_charges]; done.
Qed.

(** ** Commands stay *)
Definition command_kept (w w' : Work) : Prop :=
  ∀ c, c ∈ host_commands w → ∃ c', c' ∈ host_commands w' ∧ c_envelope c = c_envelope c'.

#[export] Instance command_kept_preorder : PreOrder command_kept.
Proof.
  split; [by intros w c Hc; exists c|]. intros w1 w2 w3 H1' H2' c Hc.
  destruct (H1' c Hc) as (c2 & Hc2 & E2). destruct (H2' c2 Hc2) as (c3 & Hc3 & E3).
  exists c3. split; [done|congruence].
Qed.

Lemma evolves_command_kept w w' : evolves w w' → command_kept w w'.
Proof. intros [_ _ HC _ _] c Hc. destruct (Forall2_elem_of_l _ _ _ _ HC Hc) as (c' & ? & E & _). eauto. Qed.

Lemma superset_command_kept w w' : host_commands w ⊆ host_commands w' → command_kept w w'.
Proof. intros Hs c Hc. exists c. split; [set_solver|done]. Qed.

Lemma step_command_kept p w w' : consistent w → step p w w' → command_kept w w'.
Proof.
  intros Hw Hs. pose proof (inv_commands _ Hw) as Hnd.
  destruct Hs as [????? s E|???? b E|?????? outcome E| | | | | |? ? ? ? ? ? ? ? E| | | |????? b E];
    try (apply evolves_command_kept;
         solve [eauto using poll_commands_evolves, claim_bootstrap_evolves, record_command_result_evolves,
           settle_unreceived_evolves, repair_unconfirmed_evolves, store_bootstrap_evolves,
           mark_starting_evolves, abandon_unstarted_evolves]).
  - apply superset_command_kept. apply submit_intent_Ok in E as (? & ? & _ & _ & _ & E).
    destruct (operation_by_key _ _ _); [by destruct E as [-> _]|].
    by destruct E as (? & _ & _ & _ & _ & _ & -> & _).
  - apply superset_command_kept. unfold cancel_queued in E. injection E as <- <-. by case_match.
  - apply admit_operation_Ok in E as [_ E].
    destruct outcome; [|apply superset_command_kept; by destruct E as [? ->]|by subst].
    destruct E as (intent & c & cs & t & _ & _ & _ & _ & _ & _ & _ & Hins%insert_admission_Ok).
    destruct (admission_command _ _ _ _ _ _ _ Hins) as (cmd & Ec & _).
    apply superset_command_kept. rewrite Ec. set_solver.
  - apply issue_command_Ok in E as [[-> _]|(cmd & -> & _)]; [done|].
    apply superset_command_kept. simpl. set_solver.
  - apply evolves_command_kept. injection E as <- <-. apply set_state_evolves.
Qed.

Lemma rtc_command_kept w w' c :
  consistent w → rtc (step_keeping (c_id c)) w w' → c ∈ host_commands w →
  ∃ c', c' ∈ host_commands w' ∧ c_envelope c = c_envelope c'.
Proof.
  intros Hw Hr. remember (c_id c) as id eqn:Hid. revert c Hid.
  induction Hr as [w|w1 w2 w3 Hs _ IH]; intros c Hid Hc; [by exists c|].
  assert (∃ c2, c2 ∈ host_commands w2 ∧ c_envelope c = c_envelope c2) as (c2 & Hc2 & E2).
  { destruct Hs as [[p Hs]|p pool p' E Hk]; [by eapply step_command_kept|]. exists c. split; [by apply Hk|done]. }
  destruct (IH ltac:(eapply any_step_consistent; [by eapply step_keeping_any|done]) c2) as (c3 & Hc3 & E3); [|done|].
  - rewrite Hid. change (c_id (c_envelope c) = c_id (c_envelope c2)). by rewrite E2.
  - exists c3. split; [done|congruence].
Qed.
End taken.

(** ** There and back *)
Section loop.
Context {W : Type} `{RuntimeHelper W, UuidText, Codec, RequestJson, ResultJson, Aead, EnvelopeReader}.
Context (trust : Trust).

(** C7: A command comes back.  When a poll handed out a command, and an agent
    in any reachable state ran it and returned a result, the registry takes
    that result from the same host whatever the fleet did meanwhile, short of
    deleting the command with its pool: it is neither refused as not matching its
    command nor rolled back, provided the host's credential is valid then, the
    result has a JSON text and an identifier that is not another result's, and
    the agent's journal holds no other command with the same identifier and
    request hash. *)
Theorem delivered_commands_come_back (p p' : Policy) (w w1 w2 : Work) (auth auth' : AuthenticatedHost)
    (session_id : Uuid) (polled later now clock : Z) (e : AgentCommandEnvelope) (runtime : W)
    (boot : string) (s s' : Agent W) (body : list Z) (session : ExpectedAgentSession)
    (bootstrap : option string) (d1 d2 : Uuid) (n n' : nat) (r : AgentCommandResult)
    (encoded : string) :
  rtc any_step new_database w → poll_commands p w auth session_id polled = Ok (w1, [e]) →
  rtc (step_keeping (to_string (command_id e))) w1 w2 →
  rtc (agent_step trust) (new_agent runtime boot) s → from_slice body = Some e → no_collision s e →
  dispatch_with trust body session now bootstrap clock d1 d2 n s = (n', s', Returned r) →
  ensure_authenticated_generation p' auth' later = Ok tt → ah_host_id auth' = ah_host_id auth →
  result_json r = Some encoded →
  (∀ x, x ∈ host_command_results w2 → r_id x = to_string (res_result_id r) →
     r_command_id x = to_string (command_id e) ∧ r_result_hash x = hash_token encoded) →
  ∃ w3 d, record_command_result p' w2 auth' r later = Ok (w3, d).
Proof.
  intros Hr Hp H12 Hs%reachable_agent_wf Hb Hnc Hd Hauth Hhost Hj Hfresh.
  assert (consistent w) as Hw by (eapply rtc_consistent; [exact Hr|apply new_database_consistent]).
  destruct (poll_delivery _ _ _ _ _ _ _ Hw Hp) as [?|(c & [= ->] & Hdel)]; [done|].
  assert (consistent w1) as Hw1 by (eapply step_consistent; [by eapply step_poll|done]).
  assert (consistent w2) as Hw2 by by eapply keeping_consistent.
  pose proof (dl_marked _ _ _ _ _ _ _ Hdel) as Hm. destruct (inv_sealed _ Hw1 _ Hm) as (_ & Hmid & _).
  simpl in Hmid. rewrite <-Hmid in H12.
  destruct (rtc_command_kept _ _ (c_set CsDelivered (c_attempt_count c + 1) c) Hw1 H12 Hm) as (c2 & Hc2 & Ec2).
  assert (c_payload c2 = c_payload c ∧ c_host_id c2 = c_host_id c) as [Epay Ehost].
  { split; [change (c_payload (c_envelope c2) = c_payload (c_envelope c))
           |change (c_host_id (c_envelope c2) = c_host_id (c_envelope c))]; by rewrite <-Ec2. }
  eapply dispatch_backed in Hd as [Hval _]; [|exact Hs|exact Hb|exact Hnc].
  destruct (inv_sealed _ Hw2 c2 Hc2) as (_ & Hid & _).
  eapply (record_total p' w2 auth' r later c2 encoded); try done.
  - rewrite Ehost, Hhost. apply Hdel.
  - by rewrite Epay.
  - intros x Hx Hxid. destruct (Hfresh x Hx Hxid) as [-> ->]. split; [|done]. by rewrite Hid, Epay.
Qed.
End loop.

(** ** A machine at work

    The agent of the sample fleet's machine, with a runtime that counts the
    containers it started. *)
Module SampleAgent.
Import SampleFleet SampleService SampleAdmission SampleRun.

#[export] Instance runtime : RuntimeHelper nat :=
  {| helper_call req n :=
       match hr_operation req with
       | OpPrepareEnvironment _ =>
           (HelperSucceeded (EvPreparedEnvironment (default 0 (hr_environment_id req))), n)
       | OpStartRunner st =>
           (HelperSucceeded (EvRunnerStarted (sr_prepared_environment_id st)
              (sr_execution_profile_id st) (sr_profile_revision st) (ResDocker "container")), S n)
       | _ => (HelperFailed FailUnsupported false, n)
       end;
     interrupted_start _ _ n :=
       (match n with O => RemainsNothing | S _ => RemainsRunner (ResDocker "container") end, n) |}.

Definition trust : Trust := {| trust_docker_socket := false |}.

(** The wire: a command's body is its identifier. *)
Definition payload (w : Work) (id : string) : option AgentCommandEnvelope :=
  c_payload <$> fetch (λ c, String.eqb (c_id c) id) (host_commands w).

#[export] Instance reader : EnvelopeReader :=
  {| from_slice body := match body with
                        | [n] => payload w_issued (SampleFleet.id n)
                        | _ => None
                        end |}.

Definition dispatch (n : nat) (id now d1 d2 : Z) (s : Agent nat) :=
  dispatch_with trust [id] agent_session now (Some "jit") now d1 d2 n s.
Definition next {A} (r : nat * Agent nat * Exit A) : Agent nat := r.1.2.

Definition a_new : Agent nat := new_agent 0%nat "boot".
Definition a_prepared : Agent nat := next (dispatch 9 71 3000 100 200 a_new).
Definition a_started : Agent nat := next (dispatch 9 102 6000 110 202 a_prepared).
(** Cut off right after the container was started. *)
Definition a_cut : Agent nat := next (dispatch 2 102 6000 110 202 a_prepared).

Lemma dispatch_step n id now d1 d2 s :
  (∀ e, from_slice [id] = Some e → no_collision s e) →
  agent_step trust s (next (dispatch n id now d1 d2 s)).
Proof. intros Hc. unfold next, dispatch. apply as_dispatch. exact Hc. Qed.

(** Rows of the agent's journal, by identifier: none is another's. *)
Lemma no_collision_by_id (s : Agent nat) e :
  Forall (λ c, jc_command_id c = command_id e → jc_envelope c = e) (j_commands (ag_journal s)) →
  no_collision s e.
Proof. rewrite Forall_forall. intros Hf c Hc Hid _. by apply Hf. Qed.

Lemma fresh_no_collision (s : Agent nat) e :
  Forall (λ c, jc_command_id c ≠ command_id e) (j_commands (ag_journal s)) → no_collision s e.
Proof. rewrite Forall_forall. intros Hf c Hc Hid _. by destruct (Hf c Hc). Qed.

Lemma new_no_collision e : no_collision a_new e.
Proof. intros c Hc. by apply not_elem_of_nil in Hc. Qed.
Lemma prepared_reachable : rtc (agent_step trust) a_new a_prepared.
Proof. apply rtc_once, dispatch_step. intros e _. apply new_no_collision. Qed.

Lemma start_is_new e : from_slice [102] = Some e → no_collision a_prepared e.
Proof.
  intros Hb. apply fresh_no_collision.
  assert (command_id <$> from_slice [102] = Some 102) as Hid by (vm_compute; reflexivity).
  rewrite Hb in Hid. injection Hid as ->.
  assert (bool_decide (Forall (λ c, jc_command_id c ≠ 102) (j_commands (ag_journal a_prepared))) = true)
    as Hf by (vm_compute; reflexivity).
  by apply bool_decide_eq_true in Hf.
Qed.

Lemma started_reachable : rtc (agent_step trust) a_new a_started.
Proof. eapply rtc_r; [apply prepared_reachable|]. apply dispatch_step, start_is_new. Qed.

Lemma agent_runs_once_witness :
  NoDup (ag_calls a_started).*1 ∧ (ag_calls a_started).*1 = [71; 102].
Proof.
  split; [apply (agent_runs_once trust 0%nat "boot" a_started), started_reachable|].
  vm_compute. reflexivity.
Defined.

(** A run that returned, with what it returned. *)
Definition returned {A} (r : nat * Agent nat * Exit A) : option A :=
  match r.2 with Returned a => Some a | _ => None end.
Lemma returns {A} (r : nat * Agent nat * Exit A) a :
  returned r = Some a → ∃ n, r = (n, next r, Returned a).
Proof. destruct r as [[n s] [b|x|]]; simpl; [intros [= ->]; by exists n|done..]. Qed.

Lemma prepare_returned :
  ∃ e r n, from_slice [71] = Some e ∧ returned (dispatch 9 71 3000 100 200 a_new) = Some r
    ∧ dispatch_with trust [71] agent_session 3000 (Some "jit") 3000 100 200 9%nat a_new
        = (n, a_prepared, Returned r)
    ∧ is_ok (validate_binding e agent_session) = true
    ∧ res_outcome r = OutSucceeded (EvPreparedEnvironment 100).
Proof.
  destruct (from_slice [71]) as [e|] eqn:Eb; [|vm_compute in Eb; discriminate Eb].
  destruct (returned (dispatch 9 71 3000 100 200 a_new)) as [r|] eqn:Er; [|vm_compute in Er; discriminate Er].
  destruct (returns _ _ Er) as [n En].
  exists e, r, n. split; [reflexivity|]. split; [reflexivity|]. split; [exact En|]. split.
  - vm_compute in Eb. injection Eb as <-. vm_compute. reflexivity.
  - vm_compute in Er. injection Er as <-. reflexivity.
Qed.

Lemma agent_answers_are_backed_witness :
  ∃ e, from_slice [71] = Some e ∧ durable (ag_journal a_prepared) e (EvPreparedEnvironment 100).
Proof.
  destruct prepare_returned as (e & r & n & Eb & _ & En & _ & Ho).
  exists e. split; [exact Eb|].
  refine (proj2 (agent_answers_are_backed trust 0%nat "boot" a_new a_prepared [71] agent_session
    3000 3000 (Some "jit") 100 200 9%nat n e r _ Eb (new_no_collision e) En) _ Ho).
  apply rtc_refl.
Defined.

(** The preparation delivered again after the start: the same answer. *)
Lemma agent_answers_are_final_witness :
  ∃ r, dispatch_with trust [71] agent_session 9000 None 9000 500 600 9%nat a_started
         = (8%nat, a_started, Returned r)
       ∧ res_result_id r = 200 ∧ ag_runtime a_started = 1%nat.
Proof.
  destruct prepare_returned as (e & r & n & Eb & Er & En & Hv & _).
  assert (res_result_id <$> returned (dispatch 9 71 3000 100 200 a_new) = Some 200) as Hid
    by (vm_compute; reflexivity).
  rewrite Er in Hid. injection Hid as Hid.
  exists r. split; [|split; [exact Hid|vm_compute; reflexivity]].
  refine (agent_answers_are_final trust 0%nat "boot" a_new a_prepared a_started [71] agent_session
    agent_session 3000 9000 3000 9000 (Some "jit") None 100 200 500 600 9%nat n 8%nat e r _ Eb
    (new_no_collision e) En _ _).
  - apply rtc_refl.
  - apply rtc_once, dispatch_step, start_is_new.
  - destruct (validate_binding e agent_session) as [[]|]; [reflexivity|discriminate Hv].
Defined.

(** The preparation handed out by the sample fleet, run here, taken there. *)
Lemma delivered_commands_come_back_witness :
  ∃ r w d, returned (dispatch 9 71 3000 100 200 a_new) = Some r
    ∧ record_command_result policy w_delivered auth r 4000 = Ok (w, d).
Proof.
  destruct prepare_returned as (e & r & n & Eb & Er & En & _ & _).
  destruct (after_Ok (poll w_placed 3000)) as [l El]; [vm_compute; reflexivity|].
  assert (l = [e]) as ->.
  { assert (match poll w_placed 3000 with Ok (_, l) => Some l | Err _ => None end
            = (λ e, [e]) <$> from_slice [71]) as Hl by (vm_compute; reflexivity).
    rewrite El, Eb in Hl. injection Hl as ->. reflexivity. }
  assert (is_ok (ensure_authenticated_generation policy auth 4000) = true) as Ha by (vm_compute; reflexivity).
  assert (host_command_results w_delivered = []) as Hn by (vm_compute; reflexivity).
  destruct (Commands.result_json r) as [encoded|] eqn:Ej.
  2: { unfold Commands.result_json, SampleRun.result_json in Ej. discriminate Ej. }
  destruct (delivered_commands_come_back trust policy policy w_placed w_delivered w_delivered auth auth
    7 3000 4000 3000 3000 e 0%nat "boot" a_new a_prepared [71] agent_session (Some "jit") 100 200 9%nat n r
    encoded) as (w3 & d & E3).
  - apply reachable_any, placed_reachable.
  - exact El.
  - apply rtc_refl.
  - apply rtc_refl.
  - exact Eb.
  - apply new_no_collision.
  - exact En.
  - destruct (ensure_authenticated_generation policy auth 4000) as [[]|]; [reflexivity|discriminate Ha].
  - reflexivity.
  - exact Ej.
  - rewrite Hn. intros x Hx. exact (match not_elem_of_nil x Hx with end).
  - exists r, w3, d. split; [exact Er|exact E3].
Defined.
(** *** An agent away for more than a day *)

Lemma cut_reachable : rtc (agent_step trust) a_new a_cut.
Proof. eapply rtc_r; [apply prepared_reachable|]. apply dispatch_step, start_is_new. Qed.

(** The agent reconnects at [at_]: it delivers, then opens session [9]. *)
Definition redeliver (at_ : Z) :=
  deliver_results trust (λ _, PostOk) at_ (λ id, id + 1000) at_ 9%nat a_cut.
Definition w_settled (at_ : Z) : Work :=
  match settle_unreceived w_sent 5 1 (SampleFleet.id 9) at_ with Ok w => w | Err _ => empty end.

Lemma settled_reachable at_ :
  is_ok (settle_unreceived w_sent 5 1 (SampleFleet.id 9) at_) = true →
  rtc (step policy) new_database (w_settled at_).
Proof.
  intros Hok. eapply rtc_r; [apply sent_reachable|].
  apply (step_settle _ _ 5 1 (SampleFleet.id 9) at_). unfold w_settled.
  destruct (settle_unreceived _ _ _ _ _) as [w|]; [reflexivity|discriminate Hok].
Qed.

(** A start forgotten after a day.  The agent started a container and was
    cut off before it could record that.  Reconnecting an hour later it reports
    the running container.  Reconnecting after 25 hours it reports nothing yet
    tells the server that all is delivered; the server then takes the start as
    never received, fails the placement and releases its capacity, with the
    container still there. *)
Theorem old_start_forgotten :
  let hour := 60 * 60 * 1000 in
  let soon := 6000 + hour in
  let late := 6000 + 25 * hour in
  rtc (agent_step trust) a_new a_cut ∧ ag_runtime a_cut = 1%nat
  ∧ (∃ c r, c ∈ j_commands (ag_journal (next (redeliver soon))) ∧ jc_command_id c = 102
       ∧ jc_result c = Some r
       ∧ res_outcome r = OutSucceeded (EvRunnerStarted 100 40 3 (ResDocker "container"))
       ∧ 102 ∈ j_delivered_results (ag_journal (next (redeliver soon))))
  ∧ redeliver late = (9%nat, a_cut, Returned true)
  ∧ rtc (step policy) new_database (w_settled late)
  ∧ pl_state <$> workload_placements (w_settled late) = [TerminalFailure]
  ∧ a_state <$> capacity_allocations (w_settled late) = [AllocReleased; AllocReleased].
Proof.
  cbv zeta. split; [apply cut_reachable|]. split; [vm_compute; reflexivity|]. split.
  { destruct (j_commands (ag_journal (next (redeliver (6000 + 60 * 60 * 1000))))) as [|c1 [|c2 l]] eqn:E;
      [vm_compute in E; discriminate E..|].
    vm_compute in E. injection E as <- <- <-. eexists _, _.
    split; [right; left|]. do 3 (split; [reflexivity|]).
    apply list_elem_of_In. vm_compute. right. left. reflexivity. }
  split; [vm_compute; reflexivity|]. split; [apply settled_reachable; vm_compute; reflexivity|].
  split; vm_compute; reflexivity.
Qed.
End SampleAgent.
