(* ===== verification/RegistryStore.v ===== *)
(** * The registry's tables
    ([migrations/0022_fleet_foundation.sql], [0025_fleet_registry.sql] and
    [0026_fleet_inventory.sql] as [crates/gridops-core/src/fleet/registry] reads
    and writes them).

    [Registry] is the database as the registry sees it: the tables of
    [Store.Policy], which it owns, and those of enrollment, credential rotation
    and observation.  A [CHECK], a [UNIQUE] key or a trigger that a statement
    may meet is part of the statement below, which then fails. *)
From S2P Require Import Prelude Base64 Ids Domain Protocol Outcomes Capabilities Inventory Crypto Store Service Admission Commands.
#[local] Open Scope string_scope.
#[local] Open Scope Z_scope.

(** ** Rows *)
Inductive EnrollmentMode := ModeNormal | ModeRecovery.
Inductive RotationPhase := PhaseRequested | PhaseExchanged | PhaseAcknowledged | PhaseRevoked.

#[export] Instance EnrollmentMode_eq_dec : EqDecision EnrollmentMode.
Proof. solve_decision. Defined.
#[export] Instance RotationPhase_eq_dec : EqDecision RotationPhase.
Proof. solve_decision. Defined.

(** [scope_json] holds the target identifiers of the scope it decodes to. *)
Record EnrollmentRow := {
  en_id : string; en_code_verifier : string; en_intended_host_id : option string;
  en_scope : option (list Uuid); en_issued_by : string; en_created_at : Z; en_expires_at : Z;
  en_consumed_at : option Z; en_consumed_host_id : option string; en_revoked_at : option Z;
  en_mode : EnrollmentMode; en_expected_host_epoch : option Z;
  en_expected_host_revision : option Z; en_idempotency_key : option string;
  en_request_hash : option string }.
#[export] Instance EnrollmentRow_fields : Fields EnrollmentRow := λ e,
  {| en_id := en_id e; en_code_verifier := en_code_verifier e;
    en_intended_host_id := en_intended_host_id e; en_scope := en_scope e;
    en_issued_by := en_issued_by e; en_created_at := en_created_at e;
    en_expires_at := en_expires_at e; en_consumed_at := en_consumed_at e;
    en_consumed_host_id := en_consumed_host_id e; en_revoked_at := en_revoked_at e;
    en_mode := en_mode e; en_expected_host_epoch := en_expected_host_epoch e;
    en_expected_host_revision := en_expected_host_revision e;
    en_idempotency_key := en_idempotency_key e; en_request_hash := en_request_hash e |}.

Record RotationRow := {
  ro_id : string; ro_host_id : string; ro_old_credential_id : string; ro_old_generation : Z;
  ro_old_host_epoch : Z; ro_next_generation : Z; ro_idempotency_key : string;
  ro_requested_by : string; ro_request_method : string; ro_request_resource : string;
  ro_request_hash : string; ro_phase : RotationPhase; ro_proposed_verifier : option string;
  ro_requested_at : Z; ro_expires_at : Z; ro_exchanged_at : option Z;
  ro_overlap_expires_at : option Z; ro_acknowledged_at : option Z; ro_revoked_at : option Z }.
#[export] Instance RotationRow_fields : Fields RotationRow := λ o,
  {| ro_id := ro_id o; ro_host_id := ro_host_id o;
    ro_old_credential_id := ro_old_credential_id o;
    ro_old_generation := ro_old_generation o; ro_old_host_epoch := ro_old_host_epoch o;
    ro_next_generation := ro_next_generation o;
    ro_idempotency_key := ro_idempotency_key o; ro_requested_by := ro_requested_by o;
    ro_request_method := ro_request_method o;
    ro_request_resource := ro_request_resource o; ro_request_hash := ro_request_hash o;
    ro_phase := ro_phase o; ro_proposed_verifier := ro_proposed_verifier o;
    ro_requested_at := ro_requested_at o; ro_expires_at := ro_expires_at o;
    ro_exchanged_at := ro_exchanged_at o;
    ro_overlap_expires_at := ro_overlap_expires_at o;
    ro_acknowledged_at := ro_acknowledged_at o; ro_revoked_at := ro_revoked_at o |}.

Record ObservationRow := {
  ob_session_id : string; ob_host_id : string; ob_host_epoch : Z; ob_boot_id : string;
  ob_control_plane_incarnation : string; ob_initial_credential_id : string;
  ob_initial_credential_generation : Z; ob_current_credential_id : string;
  ob_current_credential_generation : Z; ob_initial_request_id : string;
  ob_initial_body_digest : string; ob_state : ObservationSessionState; ob_created_at : Z;
  ob_last_seen_at : Z; ob_ended_at : option Z; ob_lease_expires_at : Z;
  ob_current_inventory_sequence : Z; ob_current_inventory_digest : option string;
  ob_current_inventory_received_at : option Z; ob_current_heartbeat_sequence : Z;
  ob_current_heartbeat_digest : option string; ob_current_heartbeat_received_at : option Z;
  ob_handshake_received_at : Z; ob_handshake_lease_expires_at : Z;
  ob_handshake_state : ObservationSessionState;
  ob_current_heartbeat_lease_expires_at : option Z;
  ob_current_heartbeat_state : option ObservationSessionState }.
#[export] Instance ObservationRow_fields : Fields ObservationRow := λ s,
  {| ob_session_id := ob_session_id s; ob_host_id := ob_host_id s;
    ob_host_epoch := ob_host_epoch s; ob_boot_id := ob_boot_id s;
    ob_control_plane_incarnation := ob_control_plane_incarnation s;
    ob_initial_credential_id := ob_initial_credential_id s;
    ob_initial_credential_generation := ob_initial_credential_generation s;
    ob_current_credential_id := ob_current_credential_id s;
    ob_current_credential_generation := ob_current_credential_generation s;
    ob_initial_request_id := ob_initial_request_id s;
    ob_initial_body_digest := ob_initial_body_digest s; ob_state := ob_state s;
    ob_created_at := ob_created_at s; ob_last_seen_at := ob_last_seen_at s;
    ob_ended_at := ob_ended_at s; ob_lease_expires_at := ob_lease_expires_at s;
    ob_current_inventory_sequence := ob_current_inventory_sequence s;
    ob_current_inventory_digest := ob_current_inventory_digest s;
    ob_current_inventory_received_at := ob_current_inventory_received_at s;
    ob_current_heartbeat_sequence := ob_current_heartbeat_sequence s;
    ob_current_heartbeat_digest := ob_current_heartbeat_digest s;
    ob_current_heartbeat_received_at := ob_current_heartbeat_received_at s;
    ob_handshake_received_at := ob_handshake_received_at s;
    ob_handshake_lease_expires_at := ob_handshake_lease_expires_at s;
    ob_handshake_state := ob_handshake_state s;
    ob_current_heartbeat_lease_expires_at := ob_current_heartbeat_lease_expires_at s;
    ob_current_heartbeat_state := ob_current_heartbeat_state s |}.

(** The snapshot's own text is never read by the modelled code. *)
Record SnapshotRow := {
  sn_host_id : string; sn_authority_session_id : string; sn_host_epoch : Z;
  sn_control_plane_incarnation : string; sn_inventory_sequence : Z; sn_digest : string;
  sn_received_at : Z; sn_receipt_lease_expires_at : Z;
  sn_receipt_state : ObservationSessionState; sn_inventory_revision : Z;
  sn_domain_mappings : list InventoryIdMapping; sn_backend_mappings : list InventoryIdMapping;
  sn_interactive_mappings : list InventoryIdMapping }.

(** What was last observed under a host's local keys.  The provenance columns
    name the session that observed it. *)
Record ObservedDomainRow := {
  odr_host_id : string; odr_local_key : string; odr_domain_id : string;
  odr_parent_local_key : option string; odr_kind : DomainKind; odr_observed_name : string;
  odr_runtime_identity : option string; odr_cpu_millis : option Z; odr_memory_mib : option Z;
  odr_disk_bytes : option Z; odr_session_id : string; odr_host_epoch : Z;
  odr_control_plane_incarnation : string; odr_inventory_sequence : Z; odr_received_at : Z }.
Record ObservedBackendRow := {
  obr_host_id : string; obr_local_key : string; obr_backend_id : string;
  obr_domain_local_key : string; obr_runtime_kind : string; obr_execution_os : string;
  obr_architecture : string; obr_capabilities : CapabilityReport;
  obr_observed_readiness : BackendReadiness; obr_reason : option string;
  obr_runtime_identity : option string; obr_session_id : string; obr_host_epoch : Z;
  obr_control_plane_incarnation : string; obr_inventory_sequence : Z; obr_received_at : Z }.
Record ObservedHelperRow := {
  ohr_host_id : string; ohr_local_key : string; ohr_session_id : string; ohr_os_user_id : string;
  ohr_observed_helper_state : string; ohr_authority_session_id : string; ohr_boot_id : string;
  ohr_host_epoch : Z; ohr_control_plane_incarnation : string; ohr_inventory_sequence : Z;
  ohr_received_at : Z }.
#[export] Instance ObservedHelperRow_fields : Fields ObservedHelperRow := λ x,
  {| ohr_host_id := ohr_host_id x; ohr_local_key := ohr_local_key x;
    ohr_session_id := ohr_session_id x; ohr_os_user_id := ohr_os_user_id x;
    ohr_observed_helper_state := ohr_observed_helper_state x;
    ohr_authority_session_id := ohr_authority_session_id x; ohr_boot_id := ohr_boot_id x;
    ohr_host_epoch := ohr_host_epoch x;
    ohr_control_plane_incarnation := ohr_control_plane_incarnation x;
    ohr_inventory_sequence := ohr_inventory_sequence x;
    ohr_received_at := ohr_received_at x |}.

Record SampleRow := {
  sa_host_id : string; sa_domain_id : string; sa_host_epoch : Z; sa_observed_at : Z;
  sa_received_at : Z; sa_cpu_used_millis : option Z; sa_memory_used_mib : option Z;
  sa_disk_free_bytes : option Z; sa_uptime_seconds : option Z; sa_coverage : SampleCoverage;
  sa_authority_session_id : string; sa_boot_id : string; sa_control_plane_incarnation : string }.

Record Registry := {
  rg_policy : Policy;
  host_enrollments : list EnrollmentRow;
  host_credential_rotations : list RotationRow;
  fleet_observation_sessions : list ObservationRow;
  fleet_inventory_snapshots : list SnapshotRow;
  fleet_observed_domains : list ObservedDomainRow;
  fleet_observed_backends : list ObservedBackendRow;
  fleet_observed_interactive_sessions : list ObservedHelperRow;
  host_samples : list SampleRow;
  registry_events : list EventRow }.
#[export] Instance Registry_fields : Fields Registry := λ r,
  {| rg_policy := rg_policy r; host_enrollments := host_enrollments r;
    host_credential_rotations := host_credential_rotations r;
    fleet_observation_sessions := fleet_observation_sessions r;
    fleet_inventory_snapshots := fleet_inventory_snapshots r;
    fleet_observed_domains := fleet_observed_domains r;
    fleet_observed_backends := fleet_observed_backends r;
    fleet_observed_interactive_sessions := fleet_observed_interactive_sessions r;
    host_samples := host_samples r; registry_events := registry_events r |}.

(** [audit_and_event]: the audit row and the event row share this content. *)
Definition audit_and_event (r : Registry) (subject kind : string) (now : Z) : Registry :=
  r <| registry_events ::=
         (λ l, l ++ [{| e_subject := subject; e_kind := kind; e_created_at := now |}])%list |>.

(** ** Statements on [fleet_hosts] *)

(** The trigger [fleet_hosts_invalidate_inventory_on_authority_change]. *)
Definition authority_changed (old new : HostRow) : bool :=
  negb (h_epoch new =? h_epoch old)
  || negb (bool_decide (h_agent_session_id new = h_agent_session_id old))
  || negb (bool_decide (h_boot_id new = h_boot_id old))
  || negb (bool_decide (h_authority_incarnation new = h_authority_incarnation old)).

Definition invalidate_inventory (old new : HostRow) : HostRow :=
  if authority_changed old new
  then new <| h_inventory_complete := false |> <| h_last_inventory_at := None |>
           <| h_inventory_epoch := None |> <| h_inventory_session_id := None |>
           <| h_inventory_boot_id := None |>
  else new.

Definition update_hosts (q : HostRow → bool) (f : HostRow → HostRow) (r : Registry) : Registry :=
  r <| rg_policy ::= (λ p, p <| fleet_hosts ::=
         update_where q (λ h, invalidate_inventory h (f h)) |>) |>.

(** With [revision=revision+1], which fails when the counter is full. *)
Definition bump_hosts (q : HostRow → bool) (f : HostRow → HostRow) (r : Registry)
    : Result Registry RegistryError :=
  if exists_row (λ h, q h && (i64_max <=? h_revision h)) (fleet_hosts (rg_policy r))
  then Err RegDatabase
  else Ok (update_hosts q (λ h, f h <| h_revision ::= Z.succ |>) r).

Definition host_named (id : string) (h : HostRow) : bool := String.eqb (h_id h) id.
Definition host_of (r : Registry) (id : string) : option HostRow :=
  fetch (host_named id) (fleet_hosts (rg_policy r)).

(** ** Statements on [host_credentials] *)

(** [length(verifier) = 43] and no character outside base64url. *)
Definition is_base64url (b : Z) : bool :=
  (48 <=? b) && (b <=? 57) || (65 <=? b) && (b <=? 90) || (97 <=? b) && (b <=? 122)
  || (b =? 95) || (b =? 45).
Definition verifier_format (v : string) : bool :=
  (byte_len v =? 43) && forallb is_base64url (bytes v).

Definition update_credentials (q : CredentialRow → bool) (f : CredentialRow → CredentialRow)
    (r : Registry) : Registry :=
  r <| rg_policy ::= (λ p, p <| host_credentials ::= update_where q f |>) |>.

(** [INSERT INTO host_credentials]: the keys, the format trigger and the
    positive counters. *)
Definition insert_credential (c : CredentialRow) (r : Registry) : Result Registry RegistryError :=
  if exists_row (λ x, String.eqb (cred_id x) (cred_id c)
                      || String.eqb (cred_verifier x) (cred_verifier c)
                      || (String.eqb (cred_host_id x) (cred_host_id c)
                          && (cred_generation x =? cred_generation c)))
       (host_credentials (rg_policy r))
     || negb (verifier_format (cred_verifier c))
     || (cred_generation c <=? 0) || (cred_host_epoch c <=? 0)
  then Err RegDatabase
  else Ok (r <| rg_policy ::= (λ p, p <| host_credentials ::= (λ l, l ++ [c])%list |>) |>).

Definition unexpired (now : Z) (c : CredentialRow) : bool :=
  match cred_overlap_expires_at c with Some t => now <? t | None => true end.

(** [UPDATE host_credentials SET revoked_at=? WHERE host_id=? AND ... AND
    revoked_at IS NULL]. *)
Definition revoke_credentials (host : string) (q : CredentialRow → bool) (now : Z) (r : Registry)
    : Registry :=
  update_credentials (λ c, String.eqb (cred_host_id c) host && q c && is_null (cred_revoked_at c))
    (λ c, c <| cred_revoked_at := Some now |>) r.

(** ** Statements on [host_credential_rotations] *)
Definition open_phase (p : RotationPhase) : bool :=
  match p with PhaseRequested | PhaseExchanged => true | _ => false end.

Definition update_rotations (q : RotationRow → bool) (f : RotationRow → RotationRow)
    (r : Registry) : Registry :=
  r <| host_credential_rotations ::= update_where q f |>.

Definition is_hex (b : Z) : bool := (48 <=? b) && (b <=? 57) || (97 <=? b) && (b <=? 102).

(** [INSERT INTO host_credential_rotations]. *)
Definition insert_rotation (o : RotationRow) (r : Registry) : Result Registry RegistryError :=
  if exists_row (λ x, String.eqb (ro_id x) (ro_id o)
                      || (String.eqb (ro_host_id x) (ro_host_id o)
                          && (String.eqb (ro_idempotency_key x) (ro_idempotency_key o)
                              || open_phase (ro_phase x)))) (host_credential_rotations r)
     || (ro_next_generation o <=? ro_old_generation o)
     || negb (byte_len (ro_request_hash o) =? 64)
     || negb (forallb is_hex (bytes (ro_request_hash o)))
  then Err RegDatabase
  else Ok (r <| host_credential_rotations ::= (λ l, l ++ [o])%list |>).

(** ** Statements on [host_enrollments] *)
Definition MAX_ENROLLMENT_TTL_MILLIS : Z := 60 * 60 * 1000.

(** [INSERT INTO host_enrollments]. *)
Definition insert_enrollment (e : EnrollmentRow) (r : Registry) : Result Registry RegistryError :=
  if exists_row (λ x, String.eqb (en_id x) (en_id e)
                      || String.eqb (en_code_verifier x) (en_code_verifier e)
                      || (String.eqb (en_issued_by x) (en_issued_by e)
                          && eq_sql (en_idempotency_key x) (en_idempotency_key e)))
       (host_enrollments r)
     || negb (verifier_format (en_code_verifier e))
     || (en_expires_at e <=? en_created_at e)
     || (en_created_at e + MAX_ENROLLMENT_TTL_MILLIS <? en_expires_at e)
  then Err RegDatabase
  else Ok (r <| host_enrollments ::= (λ l, l ++ [e])%list |>).

(** [UPDATE host_enrollments SET consumed_at=?,consumed_host_id=? WHERE id=?
    AND consumed_at IS NULL AND revoked_at IS NULL AND expires_at>?] and its
    row count.  The lineage trigger and the index on recovered epochs may
    abort it. *)
Definition consume_row (id host : string) (now : Z) (r : Registry) : Result Registry RegistryError :=
  let q e := String.eqb (en_id e) id && is_null (en_consumed_at e) && is_null (en_revoked_at e)
             && (now <? en_expires_at e) in
  let recovery e := bool_decide (en_mode e = ModeRecovery) in
  if exists_row (λ e, q e && recovery e
       && (negb (eq_sql (en_intended_host_id e) (Some host))
           || exists_row (λ x, recovery x && not_null (en_consumed_at x)
                && eq_sql (en_consumed_host_id x) (Some host)
                && eq_sql (en_expected_host_epoch x) (en_expected_host_epoch e))
                (host_enrollments r))) (host_enrollments r)
  then Err RegDatabase
  else if negb (count_rows q (host_enrollments r) =? 1) then Err EnrollmentGone
  else Ok (r <| host_enrollments ::= update_where q (λ e,
         e <| en_consumed_at := Some now |> <| en_consumed_host_id := Some host |>) |>).

(** The triggers on [current_enrollment_id], for the row a statement would
    write. *)
Definition lineage_consistent (r : Registry) (new : HostRow) : bool :=
  match h_current_enrollment_id new with
  | None => true
  | Some id =>
      exists_row (λ e, String.eqb (en_id e) id && not_null (en_consumed_at e)
        && eq_sql (en_consumed_host_id e) (Some (h_id new))
        && eq_sql (h_current_enrollment_epoch new) (Some (h_epoch new))
        && match en_mode e with
           | ModeNormal => (h_epoch new =? 1) && is_null (en_expected_host_epoch e)
           | ModeRecovery => eq_sql (en_expected_host_epoch e) (Some (h_epoch new - 1))
           end) (host_enrollments r)
  end.

Definition lineage_immutable (old new : HostRow) : bool :=
  is_null (h_current_enrollment_id old)
  || (bool_decide (h_current_enrollment_id new = h_current_enrollment_id old)
      && bool_decide (h_current_enrollment_epoch new = h_current_enrollment_epoch old))
  || ((h_epoch old <? h_epoch new)
      && eq_sql (h_current_enrollment_epoch new) (Some (h_epoch new))).

Definition lineage_aborts (q : HostRow → bool) (f : HostRow → HostRow) (r : Registry) : bool :=
  exists_row (λ h, q h && negb (lineage_consistent r (f h) && lineage_immutable h (f h)))
    (fleet_hosts (rg_policy r)).
