(* ===== verification/Registry.v ===== *)
(** * Fleet registry: enrollment, approval, credentials and rotation
    ([crates/gridops-core/src/fleet/registry/{mod,credentials,enrollment}.rs]).

    Each operation is the body of one transaction on [RegistryStore.Registry];
    an error rolls it back.  Clock readings, drawn UUIDs and the random bytes
    of a secret are arguments. *)
From S2P Require Import Prelude Base64 Ids Domain Protocol Outcomes Capabilities Inventory Crypto Store Service Admission Commands RegistryStore.
From stdpp Require Import pretty.
#[local] Open Scope string_scope.
#[local] Open Scope Z_scope.

Definition DEFAULT_ENROLLMENT_TTL_MILLIS : Z := 10 * 60 * 1000.
Definition ROTATION_OVERLAP_MILLIS : Z := 5 * 60 * 1000.
Definition ROTATION_TTL_MILLIS : Z := 15 * 60 * 1000.
Definition MAX_ENROLLMENT_TARGETS : Z := 64.
Definition SECRET_BYTES : Z := 32.
Definition SECRET_TEXT_LENGTH : Z := 43.

(** [serde_json::to_string] of a scope. *)
Class ScopeJson := { scope_text : list Uuid → option string }.

(** ** Secrets *)

(** [OneTimeSecret::generate], from the bytes that were drawn. *)
Definition OneTimeSecret_generate (drawn : list Z) : string := b64_encode drawn.

Definition validate_secret_text (value : string) : Result unit RegistryError :=
  if negb (byte_len value =? SECRET_TEXT_LENGTH) || negb (forallb is_base64url (bytes value))
  then Err CredentialFailure else
  let? decoded := ok_or CredentialFailure (b64_decode value) in
  if negb (Z.of_nat (length decoded) =? SECRET_BYTES) then Err CredentialFailure
  else if negb (String.eqb (b64_encode decoded) value) then Err CredentialFailure else Ok tt.

Definition OneTimeSecret_parse (value : string) : Result string RegistryError :=
  let? _ := validate_secret_text value in Ok value.

Definition Verifier_from_secret `{Codec} (secret : string) : string :=
  b64_encode (sha256 (bytes secret)).

(** [hash_request]. *)
Definition hash_request `{Codec} (value : string) : string := hex (sha256 (bytes value)).

(** ** Inputs *)
Fixpoint dedup (l : list Uuid) : list Uuid :=
  match l with
  | a :: (b :: _) as l' => if a =? b then dedup l' else a :: dedup l'
  | _ => l
  end.

Definition EnrollmentScope_new `{UuidText} (target_ids : list Uuid)
    : Result (list Uuid) RegistryError :=
  if Z.of_nat (length target_ids) >? MAX_ENROLLMENT_TARGETS then Err InputFailure else
  let scope := dedup (order_by (λ a b, String.leb (to_string a) (to_string b)) target_ids) in
  if negb (Z.of_nat (length scope) =? Z.of_nat (length target_ids)) then Err InputFailure
  else Ok scope.

Record HostRegistration := {
  hreg_name : string; hreg_host_os : ExecutionOs; hreg_architecture : Architecture;
  hreg_fingerprint : option string }.

Definition bounded_name (max : Z) (value : string) : Result string RegistryError :=
  if (chars_count value <? 1) || (max <? chars_count value) then Err InputFailure
  else if has_control value then Err InputFailure else Ok value.

Definition HostRegistration_new (name : string) (os : ExecutionOs) (arch : Architecture)
    (fingerprint : option string) : Result HostRegistration RegistryError :=
  let? name := bounded_name 128 name in
  let? fingerprint := match fingerprint with
                      | Some f => let? f := bounded_name 256 f in Ok (Some f)
                      | None => Ok None
                      end in
  Ok {| hreg_name := name; hreg_host_os := os; hreg_architecture := arch;
        hreg_fingerprint := fingerprint |}.

Record IssueEnrollment := {
  ie_idempotency_key : string; ie_scope : list Uuid; ie_intended_host_id : option Uuid;
  ie_ttl_millis : option Z }.
Record RecoverHost := {
  rh_host_id : Uuid; rh_expected_revision : Z; rh_idempotency_key : string }.
Record ApproveHost := {
  ap_host_id : Uuid; ap_expected_revision : Z; ap_expected_inventory_revision : Z;
  ap_expected_inventory_digest : string; ap_scope : list Uuid }.
Record RequestRotation := {
  rr_host_id : Uuid; rr_expected_generation : Z; rr_idempotency_key : string }.

Definition ie_ttl (request : IssueEnrollment) : Result Z RegistryError :=
  let ttl := default DEFAULT_ENROLLMENT_TTL_MILLIS (ie_ttl_millis request) in
  if (ttl <? 60000) || (MAX_ENROLLMENT_TTL_MILLIS <? ttl) then Err InputFailure else Ok ttl.

Definition validate_idempotency_key (value : string) : Result unit RegistryError :=
  let? _ := map_err (λ _, RegInvalidRequest "idempotency key is malformed")
              (IdempotencyKey_parse value) in Ok tt.

(** ** Answers *)
Record EnrollmentMetadata := {
  em_id : Uuid; em_expires_at : Z; em_consumed_at : option Z; em_revoked_at : option Z;
  em_consumed_host_id : option Uuid }.
Record IssuedEnrollment := { is_id : Uuid; is_code : string; is_expires_at : Z }.
Inductive EnrollmentIssue :=
| EnrollmentCreated (issued : IssuedEnrollment) | EnrollmentReplay (metadata : EnrollmentMetadata).
Record IssuedRecoveryEnrollment := {
  ir_id : Uuid; ir_host_id : Uuid; ir_code : string; ir_expires_at : Z }.
Inductive RecoveryIssue :=
| RecoveryCreated (issued : IssuedRecoveryEnrollment) | RecoveryReplay (metadata : EnrollmentMetadata).
Record EnrollmentReceipt := {
  er_host_id : Uuid; er_credential_id : Uuid; er_credential_generation : Z;
  er_credential : string }.
Record RotationRequestReceipt := {
  rq_operation_id : Uuid; rq_host_id : Uuid; rq_old_generation : Z; rq_next_generation : Z;
  rq_expires_at : Z }.
Record RotationExchangeReceipt := {
  rx_operation_id : Uuid; rx_credential_id : Uuid; rx_generation : Z; rx_overlap_expires_at : Z }.
Record RotationAckReceipt := {
  ra_operation_id : Uuid; ra_host_id : Uuid; ra_generation : Z; ra_acknowledged_at : Z }.
Inductive RotationOperationState :=
| RotRequested | RotExchanged | RotAcknowledged | RotRevoked | RotExpired.
Record RotationOperationStatus := {
  rs_operation_id : Uuid; rs_host_id : Uuid; rs_state : RotationOperationState;
  rs_old_generation : Z; rs_next_generation : Z; rs_expires_at : Z; rs_updated_at : Z }.

Definition generation_from_i64 (value : Z) : Result Z RegistryError :=
  let malformed := RegInvalidRequest "stored generation is malformed" in
  let? value := ok_or malformed (u64_try_from value) in
  map_err (λ _, malformed) (Generation_new value).

(** [i64::try_from(u64)]. *)
Definition to_i64 (why : string) (value : Z) : Result Z RegistryError :=
  if value >? i64_max then Err (RegInvalidRequest why) else Ok value.

Section registry.
Context `{UuidText, Codec, ScopeJson}.

Definition parse_uuid (value : string) : Result Uuid RegistryError :=
  ok_or (RegInvalidRequest "stored UUID is malformed") (parse_str value).

(** [value.parse::<HostId>()?]. *)
Definition parse_host (value : string) : Result Uuid RegistryError :=
  map_err (λ _, RegInvalidIdentifier) (fleet_uuid_from_str value).

Definition consumed_host (e : EnrollmentRow) : Result (option Uuid) RegistryError :=
  match en_consumed_host_id e with
  | Some value => let? host := parse_host value in Ok (Some host)
  | None => Ok None
  end.

Definition metadata_with (e : EnrollmentRow) (id : Uuid) (host : option Uuid) : EnrollmentMetadata :=
  {| em_id := id; em_expires_at := en_expires_at e; em_consumed_at := en_consumed_at e;
     em_revoked_at := en_revoked_at e; em_consumed_host_id := host |}.

Definition metadata (e : EnrollmentRow) : Result EnrollmentMetadata RegistryError :=
  let? id := parse_uuid (en_id e) in
  let? host := consumed_host e in Ok (metadata_with e id host).

(** ** Administration of targets *)
Definition installation_of (p : Policy) (t : TargetRow) : option InstallationRow :=
  fetch (λ i, eq_sql (Some (ins_id i)) (t_installation_id t)) (installations p).

Definition administers_installation (p : Policy) (user : string) (installation : Z) : bool :=
  exists_row (λ ui, String.eqb (ui_user_id ui) user && (ui_installation_id ui =? installation)
      && String.eqb (ui_permission ui) "admin"
      && exists_row (λ i, (ins_id i =? installation) && is_null (ins_suspended_at i))
           (installations p)) (user_installations p).

Definition administers_connection (p : Policy) (user connection : string) : bool :=
  exists_row (λ g, String.eqb (bug_user_id g) user && String.eqb (bug_connection_id g) connection
      && String.eqb (bug_permission g) "admin" && is_null (bug_revoked_at g))
    (bitbucket_user_grants p).

Definition ensure_target_admin (p : Policy) (user : string) (target : Uuid)
    : Result unit RegistryError :=
  let? t := ok_or RegNotFound (target_of p (to_string target)) in
  let allowed :=
    match t_installation_id t, t_bitbucket_connection_id t with
    | Some installation, _ =>
        (if String.eqb (t_kind t) "github_organization"
         then bool_decide (t_organization_id t = ins_account_id <$> installation_of p t)
         else true)
        && match t_repository_id t with
           | Some repository => exists_row (λ x, (repo_id x =? repository)
                                   && (repo_installation_id x =? installation)) (repositories p)
           | None => true
           end
        && administers_installation p user installation
    | None, Some connection =>
        match t_workspace_uuid t, bc_workspace_uuid <$>
                fetch (λ c, String.eqb (bc_id c) connection) (bitbucket_connections p) with
        | Some a, Some b => eq_ignore_ascii_case (trim_braces a) (trim_braces b)
        | _, _ => false
        end && administers_connection p user connection
    | None, None => false
    end in
  if allowed then Ok tt else Err TargetScopeForbidden.

Definition ensure_targets (p : Policy) (user : string) (scope : list Uuid)
    : Result unit RegistryError :=
  try_fold (λ _ target, ensure_target_admin p user target) tt scope.

Definition ensure_scope_admin (p : Policy) (user : string) (scope : list Uuid)
    : Result unit RegistryError :=
  let? _ := ensure_system_admin p user in ensure_targets p user scope.

Definition scope_is_subset (requested issued : list Uuid) : bool :=
  forallb (λ r, existsb (λ i, i =? r) issued) requested.

(** ** Issuing and revoking enrollment codes *)
Definition issued_before (r : Registry) (user key : string) : option EnrollmentRow :=
  fetch (λ e, String.eqb (en_issued_by e) user && eq_sql (en_idempotency_key e) (Some key))
    (host_enrollments r).

Definition issue_enrollment (r : Registry) (principal : Principal) (request : IssueEnrollment)
    (secret : list Z) (id : Uuid) (now : Z) : Result (Registry * EnrollmentIssue) RegistryError :=
  let? user := ok_or RegForbidden (user_of principal) in
  let key := ie_idempotency_key request in
  let? _ := validate_idempotency_key key in
  let? ttl := ie_ttl request in
  let? scope_json := ok_or RegJson (scope_text (ie_scope request)) in
  let hash := hash_request (scope_json +:+ "|"
                +:+ default "" (to_string <$> ie_intended_host_id request) +:+ "|" +:+ pretty ttl) in
  let code := OneTimeSecret_generate secret in
  let? expires_at := ok_or (RegInvalidRequest "enrollment lifetime overflowed")
                       (i64_checked_add now ttl) in
  let? _ := ensure_system_admin (rg_policy r) user in
  let? _ := ensure_scope_admin (rg_policy r) user (ie_scope request) in
  match issued_before r user key with
  | Some existing =>
      if negb (eq_sql (en_request_hash existing) (Some hash)) then Err RegIdempotencyConflict else
      let? host := consumed_host existing in
      let? existing_id := parse_uuid (en_id existing) in
      Ok (r, EnrollmentReplay (metadata_with existing existing_id host))
  | None =>
      if not_null (ie_intended_host_id request)
      then Err (RegInvalidRequest "existing hosts require explicit recovery") else
      let? r := insert_enrollment
        {| en_id := to_string id; en_code_verifier := Verifier_from_secret code;
           en_intended_host_id := None; en_scope := Some (ie_scope request); en_issued_by := user;
           en_created_at := now; en_expires_at := expires_at; en_consumed_at := None;
           en_consumed_host_id := None; en_revoked_at := None; en_mode := ModeNormal;
           en_expected_host_epoch := None; en_expected_host_revision := None;
           en_idempotency_key := Some key; en_request_hash := Some hash |} r in
      Ok (audit_and_event r (to_string id) "fleet.enrollment.issued" now,
          EnrollmentCreated {| is_id := id; is_code := code; is_expires_at := expires_at |})
  end.

Definition enrollment_of (r : Registry) (id : Uuid) : option EnrollmentRow :=
  fetch (λ e, String.eqb (en_id e) (to_string id)) (host_enrollments r).

Definition revoke_enrollment (r : Registry) (principal : Principal) (id : Uuid) (now : Z)
    : Result Registry RegistryError :=
  let? user := ok_or RegForbidden (user_of principal) in
  let? _ := ensure_system_admin (rg_policy r) user in
  let? current := ok_or RegNotFound (enrollment_of r id) in
  if not_null (en_revoked_at current) then Ok r
  else if not_null (en_consumed_at current) then Err EnrollmentGone else
  let q e := String.eqb (en_id e) (to_string id) && is_null (en_revoked_at e)
             && is_null (en_consumed_at e) in
  if negb (count_rows q (host_enrollments r) =? 1) then Err EnrollmentGone else
  Ok (audit_and_event (r <| host_enrollments ::= update_where q
        (λ e, e <| en_revoked_at := Some now |>) |>) (to_string id) "fleet.enrollment.revoked" now).

Definition enrollment_status (r : Registry) (principal : Principal) (id : Uuid)
    : Result EnrollmentMetadata RegistryError :=
  let? user := ok_or RegForbidden (user_of principal) in
  let? _ := ensure_system_admin (rg_policy r) user in
  let? row := ok_or RegNotFound (enrollment_of r id) in metadata row.

(** ** Rotation bookkeeping *)

(** [COALESCE((SELECT MAX(...)),0)]; generations are positive. *)
Definition max_over {A} (f : A → Z) (l : list A) : Z := foldr (λ a m, Z.max (f a) m) 0 l.
Definition last_generation (r : Registry) (host : string) : Z :=
  Z.max (max_over cred_generation
           (select (λ c, String.eqb (cred_host_id c) host) (host_credentials (rg_policy r))))
        (max_over ro_next_generation
           (select (λ o, String.eqb (ro_host_id o) host) (host_credential_rotations r))).

Definition next_generation (r : Registry) (host : string) : Result Z RegistryError :=
  ok_or (RegInvalidRequest "credential generation overflowed")
    (i64_checked_add (last_generation r host) 1).

Definition close_rotation (q : RotationRow → bool) (action : string) (now : Z) (r : Registry)
    (id : string) : Registry :=
  let q o := String.eqb (ro_id o) id && q o in
  if count_rows q (host_credential_rotations r) =? 1
  then audit_and_event (update_rotations q
         (λ o, o <| ro_phase := PhaseRevoked |> <| ro_revoked_at := Some now |>) r) id action now
  else r.

Definition revoke_rotations (q : RotationRow → bool) (action : string) (now : Z) (r : Registry)
    (host : string) : Registry :=
  fold_left (close_rotation q action now)
    (ro_id <$> select (λ o, String.eqb (ro_host_id o) host && q o) (host_credential_rotations r)) r.

Definition revoke_open_rotations (r : Registry) (host : string) (now : Z) (action : string)
    : Registry :=
  revoke_rotations (λ o, open_phase (ro_phase o)) action now r host.

Definition revoke_expired_rotations (r : Registry) (host : string) (now : Z) : Registry :=
  revoke_rotations (λ o, bool_decide (ro_phase o = PhaseRequested) && (ro_expires_at o <=? now))
    "fleet.credential.rotation_expired" now r host.

(** ** Consuming a code *)
Definition new_credential (id : Uuid) (host : string) (epoch generation : Z) (secret : string)
    (now : Z) : CredentialRow :=
  {| cred_id := to_string id; cred_host_id := host; cred_generation := generation;
     cred_host_epoch := epoch; cred_revoked_at := None; cred_overlap_expires_at := None;
     cred_verifier := Verifier_from_secret secret; cred_created_at := now;
     cred_acknowledged_at := None |}.

(** The columns a recovery resets. *)
Definition recovered (enrollment : string) (epoch generation : Z) (h : HostRow) : HostRow :=
  h <| h_epoch := epoch |> <| h_enrollment_state := EnrPending |>
    <| h_lifecycle_state := IntPaused |> <| h_integrity_state := Unverified |>
    <| h_agent_session_id := None |> <| h_boot_id := None |> <| h_authority_expires_at := None |>
    <| h_inventory_complete := false |> <| h_inventory_revision := 0 |>
    <| h_inventory_digest := None |> <| h_current_credential_generation := Some generation |>
    <| h_current_enrollment_id := Some enrollment |> <| h_current_enrollment_epoch := Some epoch |>.

Definition consume_recovery (r : Registry) (e : EnrollmentRow) (credential : string)
    (credential_id : Uuid) (now : Z) : Result (Registry * EnrollmentReceipt) RegistryError :=
  let? host_text := ok_or EnrollmentScopeMismatch (en_intended_host_id e) in
  let? host_id := parse_host host_text in
  let? expected_epoch := ok_or EnrollmentScopeMismatch (en_expected_host_epoch e) in
  let? expected_revision := ok_or EnrollmentScopeMismatch (en_expected_host_revision e) in
  let host := to_string host_id in
  let? h := ok_or EnrollmentScopeMismatch (host_of r host) in
  if negb (h_epoch h =? expected_epoch) || negb (h_revision h =? expected_revision)
     || bool_decide (h_enrollment_state h = EnrRevoked)
  then Err EnrollmentScopeMismatch
  else if bool_decide (h_lifecycle_state h = IntRetired) then Err RegForbidden else
  let? new_epoch := ok_or (RegInvalidRequest "host epoch overflowed")
                      (i64_checked_add expected_epoch 1) in
  let? generation := next_generation r host in
  let r := revoke_open_rotations r host now "fleet.credential.rotation_revoked_by_recovery" in
  let r := revoke_credentials host (λ _, true) now r in
  let? r := consume_row (en_id e) host now r in
  let q h := host_named host h && (h_epoch h =? expected_epoch)
             && (h_revision h =? expected_revision) in
  if lineage_aborts q (recovered (en_id e) new_epoch generation) r then Err RegDatabase
  else if negb (count_rows q (fleet_hosts (rg_policy r)) =? 1) then Err StaleRevision else
  let? r := bump_hosts q (recovered (en_id e) new_epoch generation) r in
  let? r := insert_credential (new_credential credential_id host new_epoch generation credential now) r in
  Ok (audit_and_event r host "fleet.host.recovered" now,
      {| er_host_id := host_id; er_credential_id := credential_id;
         er_credential_generation := generation; er_credential := credential |}).

(** [INSERT INTO fleet_hosts], [host_resource_domains]. *)
Definition new_host (host : string) (registration : HostRegistration) : HostRow :=
  {| h_id := host; h_enrollment_state := EnrPending; h_lifecycle_state := IntPaused;
     h_integrity_state := Unverified; h_pressure_state := PressureUnknown; h_epoch := 1;
     h_boot_id := None; h_agent_session_id := None; h_authority_incarnation := None;
     h_authority_expires_at := None; h_last_heartbeat_at := None; h_last_inventory_at := None;
     h_inventory_complete := false; h_inventory_epoch := None; h_inventory_session_id := None;
     h_inventory_boot_id := None; h_tags := Some []; h_name := hreg_name registration;
     h_host_os := hreg_host_os registration; h_architecture := hreg_architecture registration;
     h_revision := 1; h_agent_version := None;
     h_hardware_fingerprint := hreg_fingerprint registration; h_inventory_revision := 0;
     h_inventory_digest := None; h_current_credential_generation := Some 1;
     h_current_enrollment_id := None; h_current_enrollment_epoch := None; h_retired_at := None |}.

Definition insert_host (h : HostRow) (r : Registry) : Result Registry RegistryError :=
  if exists_row (host_named (h_id h)) (fleet_hosts (rg_policy r)) then Err RegDatabase
  else Ok (r <| rg_policy ::= (λ p, p <| fleet_hosts ::= (λ l, l ++ [h])%list |>) |>).

Definition insert_root_domain (id host : string) (r : Registry) : Result Registry RegistryError :=
  if exists_row (λ d, String.eqb (d_id d) id
                      || (String.eqb (d_host_id d) host && is_null (d_parent_domain_id d)))
       (host_resource_domains (rg_policy r))
  then Err RegDatabase
  else Ok (r <| rg_policy ::= (λ p, p <| host_resource_domains ::= (λ l, l ++
         [{| d_id := id; d_host_id := host; d_parent_domain_id := None; d_cpu_millis := 0;
             d_memory_mib := 0; d_disk_bytes := 0; d_revision := 1;
             d_name := "physical-root" |}])%list |>) |>).

Definition enrolled (enrollment : string) (h : HostRow) : HostRow :=
  h <| h_current_enrollment_id := Some enrollment |>
    <| h_current_enrollment_epoch := Some (h_epoch h) |>.

Definition consume_normal (r : Registry) (e : EnrollmentRow) (registration : HostRegistration)
    (credential : string) (host_id root_domain_id credential_id : Uuid) (now : Z)
    : Result (Registry * EnrollmentReceipt) RegistryError :=
  if not_null (en_intended_host_id e) || not_null (en_expected_host_epoch e)
     || not_null (en_expected_host_revision e)
  then Err EnrollmentScopeMismatch else
  let host := to_string host_id in
  let? r := insert_host (new_host host registration) r in
  let? r := insert_root_domain (to_string root_domain_id) host r in
  let? r := insert_credential (new_credential credential_id host 1 1 credential now) r in
  let? r := consume_row (en_id e) host now r in
  let q h := host_named host h && (h_epoch h =? 1) && is_null (h_current_enrollment_id h) in
  if lineage_aborts q (enrolled (en_id e)) r then Err RegDatabase
  else if negb (count_rows q (fleet_hosts (rg_policy r)) =? 1) then Err StaleRevision else
  let r := update_hosts q (enrolled (en_id e)) r in
  Ok (audit_and_event r host "fleet.enrollment.consumed" now,
      {| er_host_id := host_id; er_credential_id := credential_id; er_credential_generation := 1;
         er_credential := credential |}).

Definition consume_enrollment (r : Registry) (code : string) (registration : HostRegistration)
    (secret : list Z) (host_id root_domain_id credential_id : Uuid) (now : Z)
    : Result (Registry * EnrollmentReceipt) RegistryError :=
  let? code := OneTimeSecret_parse code in
  let verifier := Verifier_from_secret code in
  let credential := OneTimeSecret_generate secret in
  let? host_id := map_err (λ _, RegInvalidRequest "host id generation failed")
                    (fleet_uuid_try_new host_id) in
  let? e := ok_or EnrollmentGone
              (fetch (λ e, String.eqb (en_code_verifier e) verifier) (host_enrollments r)) in
  if (en_expires_at e <=? now) || not_null (en_consumed_at e) || not_null (en_revoked_at e)
  then Err EnrollmentGone else
  let? scope := ok_or EnrollmentScopeMismatch (en_scope e) in
  let? _ := ensure_scope_admin (rg_policy r) (en_issued_by e) scope in
  match en_mode e with
  | ModeRecovery => consume_recovery r e credential credential_id now
  | ModeNormal => consume_normal r e registration credential host_id root_domain_id credential_id now
  end.

(** ** Recovery *)

(** The scope a recovery carries: what the pending host was enrolled for, or
    what the approved one is granted. *)
Definition granted_targets (r : Registry) (host : string) : list string :=
  order_by String.leb (g_target_id <$> select
    (λ g, String.eqb (g_host_id g) host && is_null (g_revoked_at g))
    (host_target_grants (rg_policy r))).

Definition lineage (r : Registry) (h : HostRow) : option EnrollmentRow :=
  fetch (λ e, eq_sql (Some (en_id e)) (h_current_enrollment_id h)
              && eq_sql (en_consumed_host_id e) (Some (h_id h))
              && not_null (en_consumed_at e)) (host_enrollments r).

Definition recovery_scope (r : Registry) (h : HostRow) : Result (list Uuid) RegistryError :=
  if bool_decide (h_enrollment_state h = EnrPending) then
    let? e := ok_or EnrollmentScopeMismatch (lineage r h) in
    ok_or EnrollmentScopeMismatch (en_scope e)
  else
    let? targets := traverse parse_host (granted_targets r (h_id h)) in
    EnrollmentScope_new targets.

Definition recover_host (r : Registry) (principal : Principal) (request : RecoverHost)
    (secret : list Z) (id : Uuid) (now : Z) : Result (Registry * RecoveryIssue) RegistryError :=
  let? user := ok_or RegForbidden (user_of principal) in
  let key := rh_idempotency_key request in
  let? _ := validate_idempotency_key key in
  let code := OneTimeSecret_generate secret in
  let? expires_at := ok_or (RegInvalidRequest "recovery lifetime overflowed")
                       (i64_checked_add now DEFAULT_ENROLLMENT_TTL_MILLIS) in
  let? _ := ensure_system_admin (rg_policy r) user in
  let host := to_string (rh_host_id request) in
  let hash := hash_request (host +:+ "|" +:+ pretty (rh_expected_revision request)) in
  match issued_before r user key with
  | Some existing =>
      if negb (eq_sql (en_request_hash existing) (Some hash))
         || negb (bool_decide (en_mode existing = ModeRecovery))
      then Err RegIdempotencyConflict else
      let? scope := ok_or EnrollmentScopeMismatch (en_scope existing) in
      let? _ := ensure_scope_admin (rg_policy r) user scope in
      let? m := metadata existing in Ok (r, RecoveryReplay m)
  | None =>
      let? h := ok_or RegNotFound (fetch (λ h, host_named host h
                  && negb (bool_decide (h_enrollment_state h = EnrRevoked)))
                  (fleet_hosts (rg_policy r))) in
      if bool_decide (h_lifecycle_state h = IntRetired) then Err RegForbidden else
      let? expected := to_i64 "revision exceeds SQLite integer" (rh_expected_revision request) in
      if negb (h_revision h =? expected) then Err StaleRevision else
      let? scope := recovery_scope r h in
      let? _ := ensure_scope_admin (rg_policy r) user scope in
      let? _ := ok_or RegJson (scope_text scope) in
      let? r := insert_enrollment
        {| en_id := to_string id; en_code_verifier := Verifier_from_secret code;
           en_intended_host_id := Some host; en_scope := Some scope; en_issued_by := user;
           en_created_at := now; en_expires_at := expires_at; en_consumed_at := None;
           en_consumed_host_id := None; en_revoked_at := None; en_mode := ModeRecovery;
           en_expected_host_epoch := Some (h_epoch h);
           en_expected_host_revision := Some (h_revision h); en_idempotency_key := Some key;
           en_request_hash := Some hash |} r in
      Ok (audit_and_event r host "fleet.host.recovery_issued" now,
          RecoveryCreated {| ir_id := id; ir_host_id := rh_host_id request; ir_code := code;
                             ir_expires_at := expires_at |})
  end.

(** ** Lifecycle, backends and grants *)
Definition set_host_lifecycle (r : Registry) (principal : Principal) (host_id : Uuid)
    (expected_revision : Z) (intent : HostIntent) (now : Z) : Result Registry RegistryError :=
  let? user := ok_or RegForbidden (user_of principal) in
  if bool_decide (intent = IntRetired)
  then Err (RegInvalidRequest "retire hosts through retirement") else
  let? _ := ensure_system_admin (rg_policy r) user in
  let host := to_string host_id in
  let? h := ok_or RegNotFound (host_of r host) in
  if negb (bool_decide (h_enrollment_state h = EnrApproved))
     || bool_decide (h_lifecycle_state h = IntRetired)
  then Err (RegInvalidRequest "host is not approved") else
  let? expected := to_i64 "revision exceeds SQLite integer" expected_revision in
  if negb (h_revision h =? expected) then Err StaleRevision
  else if bool_decide (h_lifecycle_state h = intent) then Ok r else
  let works := bool_decide (intent = IntActive) || bool_decide (intent = IntDraining) in
  let? r := bump_hosts (λ h, host_named host h && (h_revision h =? expected))
    (λ h, h <| h_lifecycle_state := intent |>
            <| h_authority_expires_at ::= (λ t, if works then t else None) |>) r in
  Ok (audit_and_event r host "fleet.host.lifecycle_changed" now).

(** [state NOT IN ('cleaned','failed')]. *)
Definition unfinished (pl : PlacementRow) : bool :=
  negb (bool_decide (pl_state pl = Cleaned) || bool_decide (pl_state pl = TerminalFailure)).

Definition retire_host (r : Registry) (w : Work) (principal : Principal) (host_id : Uuid)
    (expected_revision : Z) (now : Z) : Result Registry RegistryError :=
  let? user := ok_or RegForbidden (user_of principal) in
  let? _ := ensure_system_admin (rg_policy r) user in
  let? expected := to_i64 "revision exceeds SQLite integer" expected_revision in
  let host := to_string host_id in
  let? h := ok_or RegNotFound (host_of r host) in
  if bool_decide (h_lifecycle_state h = IntRetired) then Ok r
  else if negb (h_revision h =? expected) then Err StaleRevision
  else if count_rows (λ pl, String.eqb (pl_host_id pl) host && unfinished pl)
            (workload_placements w) >? 0
  then Err (RegInvalidRequest "the machine still runs work; drain it first") else
  let? r := bump_hosts (λ h, host_named host h && (h_revision h =? expected))
    (λ h, h <| h_lifecycle_state := IntRetired |> <| h_retired_at := Some now |>
            <| h_authority_expires_at := None |>) r in
  let r := revoke_credentials host (λ _, true) now r in
  Ok (audit_and_event r host "fleet.host.retired" now).

Definition set_backend_enabled (r : Registry) (principal : Principal) (host_id backend_id : Uuid)
    (enabled : bool) (now : Z) : Result Registry RegistryError :=
  let? user := ok_or RegForbidden (user_of principal) in
  let? _ := ensure_system_admin (rg_policy r) user in
  let q b := String.eqb (b_id b) (to_string backend_id) && String.eqb (b_host_id b) (to_string host_id) in
  if negb (count_rows q (host_backends (rg_policy r)) =? 1) then Err RegNotFound else
  Ok (audit_and_event (r <| rg_policy ::= (λ p, p <| host_backends ::=
        update_where q (λ b, b <| b_enabled := enabled |>) |>) |>)
        (to_string backend_id) "fleet.backend.enabled_changed" now).

Definition grant_of (host target : string) (g : HostTargetGrantRow) : bool :=
  String.eqb (g_host_id g) host && String.eqb (g_target_id g) target.

(** [UPDATE host_target_grants SET ..., revision=revision+1 WHERE q]. *)
Definition bump_grants (q : HostTargetGrantRow → bool) (f : HostTargetGrantRow → HostTargetGrantRow)
    (r : Registry) : Result Registry RegistryError :=
  if exists_row (λ g, q g && (i64_max <=? g_revision g)) (host_target_grants (rg_policy r))
  then Err RegDatabase
  else Ok (r <| rg_policy ::= (λ p, p <| host_target_grants ::=
             update_where q (λ g, f g <| g_revision ::= Z.succ |>) |>) |>).

Definition insert_grant (g : HostTargetGrantRow) (r : Registry) : Registry :=
  r <| rg_policy ::= (λ p, p <| host_target_grants ::= (λ l, l ++ [g])%list |>) |>.

Definition set_host_grant (r : Registry) (principal : Principal) (host_id : Uuid) (target : string)
    (allow_schedule allow_native allow_docker_socket : bool) (now : Z)
    : Result Registry RegistryError :=
  let? user := ok_or RegForbidden (user_of principal) in
  let? _ := ensure_system_admin (rg_policy r) user in
  let host := to_string host_id in
  if negb (exists_row (λ h, host_named host h && negb (bool_decide (h_lifecycle_state h = IntRetired)))
             (fleet_hosts (rg_policy r))
           && exists_row (λ t, String.eqb (t_id t) target) (fleet_ci_targets (rg_policy r)))
  then Err RegNotFound else
  let? r :=
    if exists_row (grant_of host target) (host_target_grants (rg_policy r))
    then bump_grants (grant_of host target) (λ g, g <| g_allow_schedule := allow_schedule |>
           <| g_allow_native := allow_native |> <| g_allow_docker_socket := allow_docker_socket |>
           <| g_revoked_at := None |> <| g_granted_by := Some user |>) r
    else Ok (insert_grant {| g_host_id := host; g_target_id := target;
           g_allow_schedule := allow_schedule; g_allow_native := allow_native;
           g_allow_interactive := false; g_allow_docker_socket := allow_docker_socket;
           g_revoked_at := None; g_revision := 1; g_granted_by := Some user |} r) in
  Ok (audit_and_event r host "fleet.grant.changed" now).

(** ** Approval *)

(** The number of (session, snapshot, credential) rows the join returns. *)
Definition count_observations (r : Registry) (host : string) (h : HostRow) (digest : string)
    (revision now : Z) : Z :=
  let q s i c :=
    String.eqb (sn_host_id i) (ob_host_id s)
    && String.eqb (sn_authority_session_id i) (ob_session_id s)
    && (sn_inventory_sequence i =? ob_current_inventory_sequence s)
    && String.eqb (cred_host_id c) (ob_host_id s)
    && String.eqb (cred_id c) (ob_current_credential_id s)
    && (cred_generation c =? ob_current_credential_generation s)
    && (cred_host_epoch c =? ob_host_epoch s)
    && String.eqb (ob_host_id s) host && eq_sql (Some (ob_session_id s)) (h_agent_session_id h)
    && (ob_host_epoch s =? h_epoch h) && eq_sql (Some (ob_boot_id s)) (h_boot_id h)
    && eq_sql (Some (ob_control_plane_incarnation s)) (h_authority_incarnation h)
    && is_null (ob_ended_at s) && negb (bool_decide (ob_state s = Conflicted))
    && (now <? ob_lease_expires_at s) && eq_sql (ob_current_inventory_digest s) (Some digest)
    && eq_sql (ob_current_inventory_received_at s) (h_last_inventory_at h)
    && (sn_host_epoch i =? ob_host_epoch s)
    && String.eqb (sn_control_plane_incarnation i) (ob_control_plane_incarnation s)
    && (0 <? sn_inventory_sequence i)
    && eq_sql (Some (sn_digest i)) (ob_current_inventory_digest s)
    && eq_sql (Some (sn_received_at i)) (ob_current_inventory_received_at s)
    && (sn_inventory_revision i =? revision)
    && is_null (cred_revoked_at c) && unexpired now c in
  sum_rows (λ s, sum_rows (λ i, count_rows (q s i) (host_credentials (rg_policy r)))
                   (fleet_inventory_snapshots r)) (fleet_observation_sessions r).

Definition is_some_and {A} (f : A → bool) (o : option A) : bool :=
  match o with Some a => f a | None => false end.

(** The observation an approval was decided on is still the current one. *)
Definition observation_stale (r : Registry) (h : HostRow) (revision inventory_revision : Z)
    (digest : string) (now : Z) : bool :=
  let fresh := is_some_and (λ t, (t <=? now) && (i64_saturating_sub now t <? 45000))
                 (h_last_inventory_at h) in
  let canonical := is_some_and (λ d, is_ok (OneTimeSecret_parse d)) (h_inventory_digest h) in
  negb (h_revision h =? revision) || negb (h_inventory_revision h =? inventory_revision)
  || (inventory_revision <=? 0)
  || negb (bool_decide (h_inventory_digest h = Some digest)) || negb canonical
  || negb (h_inventory_complete h) || negb (bool_decide (h_inventory_epoch h = Some (h_epoch h)))
  || negb (bool_decide (h_inventory_session_id h = h_agent_session_id h))
  || negb (bool_decide (h_inventory_boot_id h = h_boot_id h))
  || negb (bool_decide (h_authority_incarnation h
                        = cp_incarnation <$> fleet_control_plane (rg_policy r)))
  || negb fresh.

(** One turn of the loop over the requested targets. *)
Definition approve_target (host user : string) (r : Registry) (target : string)
    : Result Registry RegistryError :=
  match fetch (grant_of host target) (host_target_grants (rg_policy r)) with
  | None =>
      Ok (insert_grant {| g_host_id := host; g_target_id := target; g_allow_schedule := true;
            g_allow_native := false; g_allow_interactive := false;
            g_allow_docker_socket := false; g_revoked_at := None; g_revision := 1;
            g_granted_by := Some user |} r)
  | Some g =>
      if not_null (g_revoked_at g)
      then bump_grants (λ g, grant_of host target g && not_null (g_revoked_at g))
             (λ g, g <| g_allow_schedule := false |> <| g_allow_native := false |>
                     <| g_allow_interactive := false |> <| g_allow_docker_socket := false |>
                     <| g_revoked_at := None |> <| g_granted_by := Some user |>) r
      else Ok r
  end.

Definition approve_host (r : Registry) (principal : Principal) (request : ApproveHost) (now : Z)
    : Result Registry RegistryError :=
  let? user := ok_or RegForbidden (user_of principal) in
  let p := rg_policy r in
  let? _ := ensure_system_admin p user in
  let host := to_string (ap_host_id request) in
  let? h := ok_or RegNotFound (host_of r host) in
  if bool_decide (h_enrollment_state h = EnrRevoked) || bool_decide (h_lifecycle_state h = IntRetired)
  then Err RegForbidden
  else if negb (bool_decide (h_enrollment_state h = EnrPending)) then Err StaleRevision else
  let? expected := to_i64 "revision exceeds SQLite integer" (ap_expected_revision request) in
  let? inventory_revision := to_i64 "inventory revision exceeds SQLite integer"
                               (ap_expected_inventory_revision request) in
  let digest := ap_expected_inventory_digest request in
  if observation_stale r h expected inventory_revision digest now then Err StaleRevision
  else if negb (count_observations r host h digest inventory_revision now =? 1)
  then Err StaleRevision else
  let? e := ok_or EnrollmentScopeMismatch (lineage r h) in
  let? issued := ok_or EnrollmentScopeMismatch (en_scope e) in
  let? _ := ensure_scope_admin p (en_issued_by e) issued in
  if negb (scope_is_subset (ap_scope request) issued) then Err EnrollmentScopeMismatch else
  let? _ := ensure_scope_admin p user (ap_scope request) in
  let? _ := ensure_targets p user (ap_scope request) in
  let? current := traverse parse_host (granted_targets r host) in
  let? _ := ensure_targets p user current in
  let requested := to_string <$> ap_scope request in
  let r := r <| rg_policy ::= (λ p, p <| host_target_grants ::= update_where
      (λ g, String.eqb (g_host_id g) host && is_null (g_revoked_at g)
            && negb (existsb (String.eqb (g_target_id g)) requested))
      (λ g, g <| g_revoked_at := Some now |>) |>) |> in
  let? r := try_fold (approve_target host user) r requested in
  let? r := bump_hosts (λ x, host_named host x && (h_revision x =? h_revision h))
    (λ x, x <| h_enrollment_state := EnrApproved |> <| h_lifecycle_state := IntPaused |>
            <| h_integrity_state := Verified |>) r in
  Ok (audit_and_event r host "fleet.host.approved" now).

(** ** Authentication *)
Definition authenticate (r : Registry) (host_id : Uuid) (secret : string) (now : Z)
    : Result AuthenticatedHost RegistryError :=
  let? _ := validate_secret_text secret in
  let verifier := Verifier_from_secret secret in
  let host := to_string host_id in
  let? h := ok_or InvalidCredential (host_of r host) in
  let? c := ok_or InvalidCredential (fetch (λ c, String.eqb (cred_host_id c) host
              && is_null (cred_revoked_at c) && unexpired now c
              && String.eqb verifier (cred_verifier c)) (host_credentials (rg_policy r))) in
  if bool_decide (h_enrollment_state h = EnrRevoked) || bool_decide (h_lifecycle_state h = IntRetired)
  then Err InvalidCredential else
  let? id := ok_or InvalidCredential (parse_str (cred_id c)) in
  let? generation := ok_or InvalidCredential (u64_try_from (cred_generation c)) in
  let? generation := map_err (λ _, InvalidCredential) (Generation_new generation) in
  let? epoch := ok_or InvalidCredential (u64_try_from (h_epoch h)) in
  let? epoch := map_err (λ _, InvalidCredential) (HostEpoch_new epoch) in
  if cred_host_epoch c =? h_epoch h
  then Ok {| ah_host_id := host_id; ah_credential_id := id; ah_generation := generation;
             ah_epoch := epoch |}
  else Err InvalidCredential.

(** ** Rotation *)
Definition request_method : string := "fleet.credential.request".

Definition request_rotation (r : Registry) (principal : Principal) (request : RequestRotation)
    (operation_id : Uuid) (now : Z) : Result (Registry * RotationRequestReceipt) RegistryError :=
  let key := rr_idempotency_key request in
  let? _ := validate_idempotency_key key in
  let? user := ok_or RegForbidden (user_of principal) in
  let host := to_string (rr_host_id request) in
  let hash := hash_request (pretty (rr_expected_generation request)) in
  let? expires_at := ok_or (RegInvalidRequest "rotation lifetime overflowed")
                       (i64_checked_add now ROTATION_TTL_MILLIS) in
  let? _ := ensure_system_admin (rg_policy r) user in
  match fetch (λ o, String.eqb (ro_host_id o) host && String.eqb (ro_idempotency_key o) key)
          (host_credential_rotations r) with
  | Some o =>
      if negb (String.eqb (ro_requested_by o) user && String.eqb (ro_request_method o) request_method
               && String.eqb (ro_request_resource o) host && String.eqb (ro_request_hash o) hash)
      then Err RegIdempotencyConflict else
      let? old := generation_from_i64 (ro_old_generation o) in
      let? id := parse_uuid (ro_id o) in
      let? next := generation_from_i64 (ro_next_generation o) in
      Ok (r, {| rq_operation_id := id; rq_host_id := rr_host_id request; rq_old_generation := old;
                rq_next_generation := next; rq_expires_at := ro_expires_at o |})
  | None =>
      let? h := ok_or RegNotFound (host_of r host) in
      if bool_decide (h_enrollment_state h = EnrRevoked)
         || bool_decide (h_lifecycle_state h = IntRetired)
      then Err RegForbidden else
      let? expected := to_i64 "generation exceeds SQLite integer" (rr_expected_generation request) in
      if is_some_and (λ current, negb (current =? expected)) (h_current_credential_generation h)
      then Err StaleGeneration else
      let r := revoke_expired_rotations r host now in
      if negb (count_rows (λ o, String.eqb (ro_host_id o) host && open_phase (ro_phase o)
                 && is_null (ro_revoked_at o) && is_null (ro_acknowledged_at o))
                 (host_credential_rotations r) =? 0)
      then Err RotationConflict else
      let? c := ok_or StaleGeneration (fetch (λ c, String.eqb (cred_host_id c) host
                  && (cred_generation c =? expected) && (cred_host_epoch c =? h_epoch h)
                  && is_null (cred_revoked_at c) && unexpired now c)
                  (host_credentials (rg_policy r))) in
      let? next := next_generation r host in
      let? r := insert_rotation
        {| ro_id := to_string operation_id; ro_host_id := host; ro_old_credential_id := cred_id c;
           ro_old_generation := cred_generation c; ro_old_host_epoch := cred_host_epoch c;
           ro_next_generation := next; ro_idempotency_key := key; ro_requested_by := user;
           ro_request_method := request_method; ro_request_resource := host;
           ro_request_hash := hash; ro_phase := PhaseRequested; ro_proposed_verifier := None;
           ro_requested_at := now; ro_expires_at := expires_at; ro_exchanged_at := None;
           ro_overlap_expires_at := None; ro_acknowledged_at := None; ro_revoked_at := None |} r in
      let invalid := RegInvalidRequest "generation invalid" in
      let? next := ok_or invalid (u64_try_from next) in
      let? next := map_err (λ _, invalid) (Generation_new next) in
      Ok (audit_and_event r host "fleet.credential.rotation_requested" now,
          {| rq_operation_id := operation_id; rq_host_id := rr_host_id request;
             rq_old_generation := rr_expected_generation request; rq_next_generation := next;
             rq_expires_at := expires_at |})
  end.

Definition rotation_of (r : Registry) (id : Uuid) : option RotationRow :=
  fetch (λ o, String.eqb (ro_id o) (to_string id)) (host_credential_rotations r).

Definition rotation_status (r : Registry) (principal : Principal) (operation_id : Uuid) (now : Z)
    : Result RotationOperationStatus RegistryError :=
  let? user := ok_or RegForbidden (user_of principal) in
  let? _ := ensure_system_admin (rg_policy r) user in
  let? o := ok_or RegNotFound (rotation_of r operation_id) in
  let state :=
    if bool_decide (ro_phase o = PhaseRevoked) then RotRevoked
    else if not_null (ro_acknowledged_at o) then RotAcknowledged
    else if not_null (ro_proposed_verifier o) then RotExchanged
    else if ro_expires_at o <=? now then RotExpired else RotRequested in
  let updated_at := match state with
                    | RotRequested | RotExpired => ro_requested_at o
                    | RotExchanged => default (ro_requested_at o) (ro_exchanged_at o)
                    | RotAcknowledged => default (ro_requested_at o) (ro_acknowledged_at o)
                    | RotRevoked => default (ro_requested_at o) (ro_revoked_at o)
                    end in
  let? host := parse_host (ro_host_id o) in
  let? old := generation_from_i64 (ro_old_generation o) in
  let? next := generation_from_i64 (ro_next_generation o) in
  Ok {| rs_operation_id := operation_id; rs_host_id := host; rs_state := state;
        rs_old_generation := old; rs_next_generation := next; rs_expires_at := ro_expires_at o;
        rs_updated_at := updated_at |}.

(** The exchange was made before: the same secret gets the same answer. *)
Definition replay_exchange (r : Registry) (o : RotationRow) (operation_id : Uuid)
    (existing verifier : string) : Result RotationExchangeReceipt RegistryError :=
  if negb (String.eqb existing verifier) then Err RotationConflict else
  let? next := generation_from_i64 (ro_next_generation o) in
  let? c := ok_or RegDatabase (fetch (λ c, String.eqb (cred_host_id c) (ro_host_id o)
              && (cred_generation c =? next)) (host_credentials (rg_policy r))) in
  let? overlap := ok_or RotationConflict (ro_overlap_expires_at o) in
  let? id := parse_uuid (cred_id c) in
  Ok {| rx_operation_id := operation_id; rx_credential_id := id; rx_generation := next;
        rx_overlap_expires_at := overlap |}.

Definition exchange_rotation (r : Registry) (auth : AuthenticatedHost) (operation_id : Uuid)
    (next_secret : string) (credential_id : Uuid) (now : Z)
    : Result (Registry * RotationExchangeReceipt) RegistryError :=
  let? secret := OneTimeSecret_parse next_secret in
  let verifier := Verifier_from_secret secret in
  let? _ := ensure_authenticated_generation (rg_policy r) auth now in
  let? o := ok_or RegNotFound (rotation_of r operation_id) in
  let host := ro_host_id o in
  if negb (String.eqb host (to_string (ah_host_id auth))) then Err RegForbidden else
  let? old := generation_from_i64 (ro_old_generation o) in
  if negb (old =? ah_generation auth) then Err StaleGeneration
  else if negb (String.eqb (ro_old_credential_id o) (to_string (ah_credential_id auth)))
          || negb (ro_old_host_epoch o =? ah_epoch auth)
  then Err StaleGeneration
  else if bool_decide (ro_phase o = PhaseRevoked)
          || (bool_decide (ro_phase o = PhaseRequested) && (ro_expires_at o <=? now))
  then Err RotationGone else
  match ro_proposed_verifier o with
  | Some existing =>
      let? receipt := replay_exchange r o operation_id existing verifier in Ok (r, receipt)
  | None =>
      let? next := generation_from_i64 (ro_next_generation o) in
      let? overlap := ok_or (RegInvalidRequest "overlap lifetime overflowed")
                        (i64_checked_add now ROTATION_OVERLAP_MILLIS) in
      let? h := ok_or RotationConflict (host_of r host) in
      let? r := insert_credential (new_credential credential_id host (h_epoch h) next secret now) r in
      let q c := String.eqb (cred_id c) (ro_old_credential_id o) && String.eqb (cred_host_id c) host
                 && (cred_generation c =? old) && (cred_host_epoch c =? ro_old_host_epoch o)
                 && is_null (cred_revoked_at c) in
      if negb (count_rows q (host_credentials (rg_policy r)) =? 1) then Err StaleGeneration else
      let r := update_credentials q (λ c, c <| cred_overlap_expires_at := Some overlap |>) r in
      let q o := String.eqb (ro_id o) (to_string operation_id)
                 && bool_decide (ro_phase o = PhaseRequested) && is_null (ro_revoked_at o)
                 && (now <? ro_expires_at o) in
      if negb (count_rows q (host_credential_rotations r) =? 1) then Err RotationConflict else
      let r := update_rotations q (λ o, o <| ro_phase := PhaseExchanged |>
                 <| ro_proposed_verifier := Some verifier |> <| ro_exchanged_at := Some now |>
                 <| ro_overlap_expires_at := Some overlap |>) r in
      Ok (audit_and_event r host "fleet.credential.rotation_exchanged" now,
          {| rx_operation_id := operation_id; rx_credential_id := credential_id;
             rx_generation := next; rx_overlap_expires_at := overlap |})
  end.

Definition acknowledge_rotation (r : Registry) (auth : AuthenticatedHost) (operation_id : Uuid)
    (now : Z) : Result (Registry * RotationAckReceipt) RegistryError :=
  let? _ := ensure_authenticated_generation (rg_policy r) auth now in
  let? o := ok_or RegNotFound (rotation_of r operation_id) in
  let host := to_string (ah_host_id auth) in
  if negb (String.eqb (ro_host_id o) host) then Err StaleGeneration else
  let? next := generation_from_i64 (ro_next_generation o) in
  if negb (next =? ah_generation auth) then Err StaleGeneration
  else if bool_decide (ro_phase o = PhaseRevoked) || is_null (ro_exchanged_at o)
  then Err RotationGone else
  let receipt at_ := {| ra_operation_id := operation_id; ra_host_id := ah_host_id auth;
                        ra_generation := ah_generation auth; ra_acknowledged_at := at_ |} in
  match ro_acknowledged_at o with
  | Some acknowledged_at => Ok (r, receipt acknowledged_at)
  | None =>
      let q o := String.eqb (ro_id o) (to_string operation_id)
                 && bool_decide (ro_phase o = PhaseExchanged) && is_null (ro_acknowledged_at o)
                 && is_null (ro_revoked_at o) in
      if negb (count_rows q (host_credential_rotations r) =? 1) then Err RotationConflict else
      let r := update_rotations q (λ o, o <| ro_phase := PhaseAcknowledged |>
                 <| ro_acknowledged_at := Some now |>) r in
      let q c := String.eqb (cred_host_id c) host && (cred_generation c =? ah_generation auth)
                 && is_null (cred_revoked_at c) in
      if negb (count_rows q (host_credentials (rg_policy r)) =? 1) then Err StaleGeneration else
      let r := update_credentials q (λ c, c <| cred_acknowledged_at := Some now |>) r in
      let r := revoke_credentials host (λ c, cred_generation c <? ah_generation auth) now r in
      let? r := bump_hosts (host_named host)
                  (λ h, h <| h_current_credential_generation := Some (ah_generation auth) |>) r in
      Ok (audit_and_event r host "fleet.credential.rotation_acknowledged" now, receipt now)
  end.

Definition revoke_credential (r : Registry) (principal : Principal) (host_id : Uuid)
    (generation now : Z) : Result Registry RegistryError :=
  let? user := ok_or RegForbidden (user_of principal) in
  let? _ := ensure_system_admin (rg_policy r) user in
  let host := to_string host_id in
  let? h := ok_or RegNotFound (host_of r host) in
  let? generation := to_i64 "generation exceeds SQLite integer" generation in
  if negb (count_rows (λ c, String.eqb (cred_host_id c) host && (cred_generation c =? generation)
             && is_null (cred_revoked_at c)) (host_credentials (rg_policy r)) =? 1)
  then Err RegNotFound else
  let r := revoke_credentials host (λ c, cred_generation c =? generation) now r in
  let r := revoke_open_rotations r host now "fleet.credential.rotation_revoked" in
  let? r :=
    if bool_decide (h_lifecycle_state h = IntRetired) then Ok r
    else bump_hosts (host_named host)
           (λ h, h <| h_lifecycle_state := IntPaused |> <| h_integrity_state := Quarantined |>
                   <| h_agent_session_id := None |> <| h_boot_id := None |>
                   <| h_authority_expires_at := None |> <| h_inventory_complete := false |>
                   <| h_inventory_revision := 0 |> <| h_inventory_digest := None |>) r in
  Ok (audit_and_event r host "fleet.credential.revoked" now).
End registry.
