(* ===== verification/Observation.v ===== *)
(** * Observation sessions
    ([crates/gridops-core/src/fleet/registry/handshake.rs] and the sessions and
    heartbeats of [registry/inventory.rs]).

    An operation is one transaction on the registry and the work tables.  Its
    [_tx] form fails where the transaction rolls back; where it commits and then
    answers with an error, as a detected session conflict does, the answer is
    the error and the tables are those that were committed.  JSON text belongs
    to a third-party crate: it is the class [ObservationJson]. *)
From S2P Require Import Prelude Base64 Ids Domain Protocol Outcomes Capabilities Inventory Crypto Store Service Admission Commands RegistryStore Registry.
#[local] Open Scope string_scope.
#[local] Open Scope Z_scope.

Definition OBSERVATION_LEASE_MILLIS : Z := 90000.
Definition HEARTBEAT_INTERVAL_MILLIS : Z := 15000.
Definition WORK_AUTHORITY_MILLIS : Z := 90000.

Inductive InventoryError :=
| InvDatabase | InvRegistry (e : RegistryError) | InvPayload (e : InventoryPayloadError)
| DependencyUnavailable | IdentityConflict | HandshakeConflict | CredentialConflict
| SessionConflict | SequenceConflict | MappingConflict | DomainDepth | RootConflict
| HeartbeatConflict | InvJson.

(** [serde_json::to_vec] of the bodies and of a report's value, and the text
    of the columns. *)
Class ObservationJson := {
  handshake_json : HandshakeRequest → option (list Z);
  report_json : InventoryReport → option (list Z);
  heartbeat_json : HeartbeatRequest → option (list Z);
  capabilities_json : CapabilityReport → option string;
  mappings_json : list InventoryIdMapping → option string }.

Notation Answer A := (Result (Registry * Work * Result A InventoryError) InventoryError) (only parsing).

(** Commit, or roll back. *)
Definition transact {A} (r : Registry) (w : Work) (tx : Answer A)
    : Registry * Work * Result A InventoryError :=
  match tx with Ok committed => committed | Err e => (r, w, Err e) end.

Definition reg {A} (x : Result A RegistryError) : Result A InventoryError := map_err InvRegistry x.
Definition invalid {A E} (why : string) (x : Result A E) : Result A InventoryError :=
  map_err (λ _, InvRegistry (RegInvalidRequest why)) x.

Definition u16_try_from (value : Z) : option Z :=
  if (0 <=? value) && (value <=? 65535) then Some value else None.

(** [String::from(Sha256Digest::of(bytes))]. *)
Definition digest_text `{Codec} (body : list Z) : string := b64_encode (sha256 body).

Definition lease (why : string) (expires : Z) : Result ObservationLease InventoryError :=
  let? expires := invalid why (WireTimestamp_from_millis expires) in
  let? heartbeat := invalid "heartbeat interval is malformed"
                      (BrowserUint53_new HEARTBEAT_INTERVAL_MILLIS) in
  Ok {| lease_expires_at := expires; lease_heartbeat_ms := heartbeat |}.

(** ** Statements on [fleet_observation_sessions] *)
Definition session_named (id : string) (s : ObservationRow) : bool := String.eqb (ob_session_id s) id.
Definition live_session (r : Registry) (host : string) : option ObservationRow :=
  fetch (λ s, String.eqb (ob_host_id s) host && is_null (ob_ended_at s))
    (fleet_observation_sessions r).

Definition update_sessions (q : ObservationRow → bool) (f : ObservationRow → ObservationRow)
    (r : Registry) : Registry := r <| fleet_observation_sessions ::= update_where q f |>.

(** [CHECK (ended_at IS NULL OR ended_at >= created_at)]. *)
Definition end_session (id : string) (state : option ObservationSessionState) (now : Z) (r : Registry)
    : Result Registry InventoryError :=
  if exists_row (λ s, session_named id s && (now <? ob_created_at s)) (fleet_observation_sessions r)
  then Err InvDatabase
  else Ok (update_sessions (session_named id) (λ s, s <| ob_ended_at := Some now |>
             <| ob_state ::= (λ old, default old state) |>) r).

(** The key of the table, one live session per host, and the credential it
    refers to. *)
Definition insert_session (s : ObservationRow) (r : Registry) : Result Registry InventoryError :=
  if exists_row (λ x, session_named (ob_session_id s) x
                      || (String.eqb (ob_host_id x) (ob_host_id s) && is_null (ob_ended_at x)))
       (fleet_observation_sessions r)
     || negb (exists_row (λ c, String.eqb (cred_host_id c) (ob_host_id s)
                && String.eqb (cred_id c) (ob_current_credential_id s)
                && (cred_generation c =? ob_current_credential_generation s)
                && (cred_host_epoch c =? ob_host_epoch s)) (host_credentials (rg_policy r)))
     || negb ((1 <=? chars_count (ob_boot_id s)) && (chars_count (ob_boot_id s) <=? 128))
     || negb (byte_len (ob_initial_body_digest s) =? 43)
  then Err InvDatabase
  else Ok (r <| fleet_observation_sessions ::= (λ l, l ++ [s])%list |>).

Section observation.
Context `{UuidText, Codec, Aead, ResultJson, ScopeJson, ObservationJson}.

(** ** Handshake *)
Definition handshake_digest (request : HandshakeRequest) : Result string RegistryError :=
  let? body := ok_or RegJson (handshake_json request) in Ok (digest_text body).

Definition epoch_from_row (h : HostRow) : Result Z RegistryError :=
  let malformed := RegInvalidRequest "host epoch is malformed" in
  let? epoch := ok_or malformed (u64_try_from (h_epoch h)) in
  map_err (λ _, malformed) (HostEpoch_new epoch).

(** What [clear_host_observation] and a conflict set in a host. *)
Definition unobserved (h : HostRow) : HostRow :=
  h <| h_authority_expires_at := None |> <| h_inventory_complete := false |>
    <| h_last_inventory_at := None |> <| h_inventory_epoch := None |>
    <| h_inventory_session_id := None |> <| h_inventory_boot_id := None |>
    <| h_inventory_digest := None |>.
Definition quarantine (h : HostRow) : HostRow :=
  h <| h_integrity_state := Quarantined |> <| h_lifecycle_state := IntPaused |>.

Definition clear_host_observation (r : Registry) (host_id : Uuid) (now : Z) : Registry :=
  let host := to_string host_id in
  let r := update_hosts (host_named host) unobserved r in
  r <| rg_policy ::= (λ p,
         p <| host_backends ::= update_where (λ b, String.eqb (b_host_id b) host)
                (λ b, b <| b_readiness := BackendUnknown |>
                        <| b_reason_code := Some "stale_inventory" |> <| b_last_probed_at := None |>
                        <| b_probe_epoch := None |> <| b_probe_session_id := None |>
                        <| b_probe_boot_id := None |> <| b_probe_incarnation := None |>) |>
           <| host_sessions ::= update_where (λ s, String.eqb (s_host_id s) host)
                (λ s, s <| s_helper_state := "unknown" |> <| s_last_seen_at := None |>) |>) |>
    <| fleet_observed_interactive_sessions ::= update_where
         (λ x, String.eqb (ohr_host_id x) host) (λ x, x <| ohr_observed_helper_state := "unknown" |>) |>.

(** A rotation that leads from one credential to the next. *)
Definition successor_rotation (host credential : string) (generation epoch next : Z) (o : RotationRow)
    : bool :=
  String.eqb (ro_host_id o) host && String.eqb (ro_old_credential_id o) credential
  && (ro_old_generation o =? generation) && (ro_old_host_epoch o =? epoch)
  && (ro_next_generation o =? next)
  && (bool_decide (ro_phase o = PhaseExchanged) || bool_decide (ro_phase o = PhaseAcknowledged))
  && is_null (ro_revoked_at o).

(** The trigger [fleet_observation_session_current_credential_guard] and the
    reference to the credential may abort the update. *)
Definition advance_aborts (r : Registry) (q : ObservationRow → bool) (credential : string)
    (generation : Z) : bool :=
  exists_row (λ s, q s
    && negb (exists_row (successor_rotation (ob_host_id s) (ob_current_credential_id s)
                 (ob_current_credential_generation s) (ob_host_epoch s) generation)
               (host_credential_rotations r)
             && exists_row (λ c, String.eqb (cred_host_id c) (ob_host_id s)
                  && String.eqb (cred_id c) credential && (cred_generation c =? generation)
                  && (cred_host_epoch c =? ob_host_epoch s)) (host_credentials (rg_policy r))))
    (fleet_observation_sessions r).

Definition advance_rotated_session_credential (r : Registry) (host_id : Uuid) (session_id : string)
    (current_credential_id : string) (current_generation : Z) (auth : AuthenticatedHost) (now : Z)
    : Result Registry InventoryError :=
  let? generation := reg (to_i64 "generation exceeds SQLite integer" (ah_generation auth)) in
  let? epoch := reg (to_i64 "epoch exceeds SQLite integer" (ah_epoch auth)) in
  let host := to_string host_id in
  let credential := to_string (ah_credential_id auth) in
  if negb (exists_row (successor_rotation host current_credential_id current_generation epoch
                         generation) (host_credential_rotations r))
     || String.eqb credential current_credential_id || (generation <=? current_generation)
  then Err CredentialConflict else
  let q s := String.eqb (ob_host_id s) host && session_named session_id s
             && String.eqb (ob_current_credential_id s) current_credential_id
             && (ob_current_credential_generation s =? current_generation)
             && is_null (ob_ended_at s) in
  if advance_aborts r q credential generation then Err InvDatabase
  else if negb (count_rows q (fleet_observation_sessions r) =? 1) then Err CredentialConflict else
  Ok (audit_and_event (update_sessions q (λ s, s <| ob_current_credential_id := credential |>
        <| ob_current_credential_generation := generation |>) r)
        host "fleet.observation.session_credential_advanced" now).

(** The session moves on when the presented credential is not the one it
    last saw. *)
Definition follow_credential (r : Registry) (s : ObservationRow) (auth : AuthenticatedHost) (now : Z)
    : Result Registry InventoryError :=
  let? generation := reg (to_i64 "generation exceeds SQLite integer" (ah_generation auth)) in
  if String.eqb (ob_current_credential_id s) (to_string (ah_credential_id auth))
     && (ob_current_credential_generation s =? generation)
  then Ok r
  else advance_rotated_session_credential r (ah_host_id auth) (ob_session_id s)
         (ob_current_credential_id s) (ob_current_credential_generation s) auth now.

Definition handshake_response (why : string) (request : HandshakeRequest) (host_id : Uuid) (epoch : Z)
    (incarnation : Uuid) (state : ObservationSessionState) (expires_at received_at : Z)
    : Result HandshakeResponse InventoryError :=
  let? received_at := invalid why (WireTimestamp_from_millis received_at) in
  let? version := invalid "protocol version invalid" (ProtocolVersion_new 1) in
  let? lease := lease "lease timestamp invalid" expires_at in
  Ok {| hr_request_id := hs_request_id request; hr_host_id := host_id; hr_host_epoch := epoch;
        hr_control_plane_incarnation := incarnation;
        hr_agent_session_id := hs_agent_session_id request; hr_boot_id := hs_boot_id request;
        hr_negotiated_protocol := Supported version; hr_state := state; hr_lease := Some lease;
        hr_received_at := received_at |}.

(** Open a new session, after whatever was there has ended. *)
Definition open_session (r : Registry) (w : Work) (auth : AuthenticatedHost)
    (request : HandshakeRequest) (epoch : Z) (incarnation : Uuid) (digest : string) (now : Z)
    : Answer HandshakeResponse :=
  let host := to_string (ah_host_id auth) in
  let session_id := to_string (hs_agent_session_id request) in
  let? epoch_i64 := reg (to_i64 "epoch exceeds SQLite integer" epoch) in
  let? generation := reg (to_i64 "generation exceeds SQLite integer" (ah_generation auth)) in
  let? expires := ok_or (InvRegistry (RegInvalidRequest "observation lease overflowed"))
                    (i64_checked_add now OBSERVATION_LEASE_MILLIS) in
  let credential := to_string (ah_credential_id auth) in
  let? r := insert_session
    {| ob_session_id := session_id; ob_host_id := host; ob_host_epoch := epoch_i64;
       ob_boot_id := hs_boot_id request; ob_control_plane_incarnation := to_string incarnation;
       ob_initial_credential_id := credential; ob_initial_credential_generation := generation;
       ob_current_credential_id := credential; ob_current_credential_generation := generation;
       ob_initial_request_id := to_string (hs_request_id request); ob_initial_body_digest := digest;
       ob_state := Observing; ob_created_at := now; ob_last_seen_at := now; ob_ended_at := None;
       ob_lease_expires_at := expires; ob_current_inventory_sequence := 0;
       ob_current_inventory_digest := None; ob_current_inventory_received_at := None;
       ob_current_heartbeat_sequence := 0; ob_current_heartbeat_digest := None;
       ob_current_heartbeat_received_at := None; ob_handshake_received_at := now;
       ob_handshake_lease_expires_at := expires; ob_handshake_state := Observing;
       ob_current_heartbeat_lease_expires_at := None; ob_current_heartbeat_state := None |} r in
  let r := update_hosts (host_named host) (λ h, h <| h_agent_session_id := Some session_id |>
             <| h_boot_id := Some (hs_boot_id request) |>
             <| h_agent_version := Some (hs_agent_version request) |>
             <| h_authority_incarnation := Some (to_string incarnation) |>
             <| h_authority_expires_at := None |> <| h_inventory_complete := false |>
             <| h_last_inventory_at := None |>) r in
  let? w := if hs_results_flushed request
            then reg (settle_unreceived w (ah_host_id auth) epoch_i64 session_id now) else Ok w in
  let r := audit_and_event r host "fleet.observation.session_established" now in
  Ok (r, w, handshake_response "server clock is outside wire range" request (ah_host_id auth) epoch
              incarnation Observing (now + OBSERVATION_LEASE_MILLIS) now).

Definition handshake_tx (r : Registry) (w : Work) (auth : AuthenticatedHost)
    (request : HandshakeRequest) (now : Z) : Answer HandshakeResponse :=
  let? digest := reg (handshake_digest request) in
  let? _ := reg (ensure_authenticated_generation (rg_policy r) auth now) in
  let host_id := ah_host_id auth in
  let host := to_string host_id in
  let? h := ok_or (InvRegistry RegNotFound) (host_of r host) in
  let? epoch := reg (epoch_from_row h) in
  if is_some_and (λ expected, negb (expected =? epoch)) (hs_expected_host_epoch request)
  then Err IdentityConflict else
  let? control := ok_or DependencyUnavailable (fleet_control_plane (rg_policy r)) in
  let? incarnation := invalid "control-plane incarnation is malformed"
                        (fleet_uuid_from_str (cp_incarnation control)) in
  let malformed := InvRegistry (RegInvalidRequest "protocol range is malformed") in
  let? protocol_min := ok_or malformed (u16_try_from (cp_protocol_min control)) in
  let? protocol_max := ok_or malformed (u16_try_from (cp_protocol_max control)) in
  if negb (includes (hs_supported_protocol request) 1 && (protocol_min <=? 1) && (1 <=? protocol_max))
  then
    let? received_at := invalid "server clock is outside wire range" (WireTimestamp_from_millis now) in
    Ok (r, w, Ok {| hr_request_id := hs_request_id request; hr_host_id := host_id;
                    hr_host_epoch := epoch; hr_control_plane_incarnation := incarnation;
                    hr_agent_session_id := hs_agent_session_id request;
                    hr_boot_id := hs_boot_id request; hr_negotiated_protocol := Incompatible;
                    hr_state := Conflicted; hr_lease := None; hr_received_at := received_at |})
  else
  match live_session r host with
  | None => open_session r w auth request epoch incarnation digest now
  | Some s =>
      let? epoch_i64 := reg (to_i64 "epoch exceeds SQLite integer" epoch) in
      let same_lineage := (ob_host_epoch s =? epoch_i64)
                          && String.eqb (ob_control_plane_incarnation s) (to_string incarnation) in
      if String.eqb (ob_session_id s) (to_string (hs_agent_session_id request))
         && String.eqb (ob_boot_id s) (hs_boot_id request) && same_lineage
      then
        if negb (String.eqb (ob_initial_body_digest s) digest) then Err HandshakeConflict else
        let? r := follow_credential r s auth now in
        let? response := handshake_response "session receipt timestamp invalid" request host_id
                           epoch incarnation (ob_handshake_state s) (ob_handshake_lease_expires_at s)
                           (ob_handshake_received_at s) in
        Ok (r, w, Ok response)
      else if same_lineage && negb (String.eqb (ob_boot_id s) (hs_boot_id request))
              && ((now <? ob_lease_expires_at s)
                  || is_some_and (λ expires, now <? expires) (h_authority_expires_at h))
      then
        let? r := end_session (ob_session_id s) (Some Conflicted) now r in
        let r := clear_host_observation r host_id now in
        let r := update_hosts (host_named host) quarantine r in
        Ok (audit_and_event r host "fleet.observation.session_conflict" now, w, Err SessionConflict)
      else
        let? r := end_session (ob_session_id s) None now r in
        open_session (clear_host_observation r host_id now) w auth request epoch incarnation digest now
  end.

Definition handshake (r : Registry) (w : Work) (auth : AuthenticatedHost)
    (request : HandshakeRequest) (now : Z)
    : Registry * Work * Result HandshakeResponse InventoryError :=
  transact r w (handshake_tx r w auth request now).

(** ** The current session *)
Record CurrentInventorySession := {
  cs_host_id : Uuid; cs_host_epoch : Z; cs_authority_session_id : Uuid; cs_boot_id : string;
  cs_control_plane_incarnation : Uuid; cs_state : ObservationSessionState;
  cs_lease_expires_at : Z; cs_current_inventory_sequence : Z;
  cs_current_inventory_digest : option string; cs_current_inventory_received_at : option Z;
  cs_current_heartbeat_sequence : Z; cs_current_heartbeat_digest : option string;
  cs_current_heartbeat_received_at : option Z; cs_current_heartbeat_lease_expires_at : option Z;
  cs_current_heartbeat_state : option ObservationSessionState }.

(** A receipt is complete exactly when its sequence is positive. *)
Definition inventory_receipt_broken (s : ObservationRow) : bool :=
  ((ob_current_inventory_sequence s =? 0)
   && (not_null (ob_current_inventory_digest s) || not_null (ob_current_inventory_received_at s)))
  || ((0 <? ob_current_inventory_sequence s)
      && (is_null (ob_current_inventory_digest s) || is_null (ob_current_inventory_received_at s))).

Definition heartbeat_receipt_broken (s : ObservationRow) : bool :=
  ((ob_current_heartbeat_sequence s =? 0)
   && (not_null (ob_current_heartbeat_digest s) || not_null (ob_current_heartbeat_received_at s)
       || not_null (ob_current_heartbeat_lease_expires_at s)
       || not_null (ob_current_heartbeat_state s)))
  || ((0 <? ob_current_heartbeat_sequence s)
      && (is_null (ob_current_heartbeat_digest s) || is_null (ob_current_heartbeat_received_at s)
          || is_null (ob_current_heartbeat_lease_expires_at s)
          || is_null (ob_current_heartbeat_state s))).

(** [load_current_session]; only the identity of the report is read. *)
Definition load_current_session (r : Registry) (auth : AuthenticatedHost) (report : InventoryReport)
    (now : Z) : Result (Registry * CurrentInventorySession) InventoryError :=
  let? _ := reg (ensure_authenticated_generation (rg_policy r) auth now) in
  if negb (ir_host_epoch report =? ah_epoch auth) || is_empty (ir_boot_id report)
  then Err IdentityConflict else
  let? control := ok_or DependencyUnavailable (fleet_control_plane (rg_policy r)) in
  let? incarnation := invalid "control-plane incarnation is malformed"
                        (fleet_uuid_from_str (cp_incarnation control)) in
  if negb (incarnation =? ir_control_plane_incarnation report) then Err IdentityConflict else
  let host := to_string (ah_host_id auth) in
  let session_id := to_string (ir_authority_session_id report) in
  let report_incarnation := to_string (ir_control_plane_incarnation report) in
  let? s := ok_or IdentityConflict (fetch (λ s, String.eqb (ob_host_id s) host
              && session_named session_id s && is_null (ob_ended_at s))
              (fleet_observation_sessions r)) in
  let? h := ok_or IdentityConflict (host_of r host) in
  if negb (bool_decide (h_agent_session_id h = Some session_id))
     || negb (bool_decide (h_boot_id h = Some (ir_boot_id report)))
     || negb (bool_decide (h_authority_incarnation h = Some report_incarnation))
  then Err IdentityConflict else
  let? epoch := reg (to_i64 "epoch exceeds SQLite integer" (ir_host_epoch report)) in
  if negb (ob_host_epoch s =? epoch) || negb (String.eqb (ob_boot_id s) (ir_boot_id report))
     || negb (String.eqb (ob_control_plane_incarnation s) report_incarnation)
  then Err IdentityConflict else
  let? r := follow_credential r s auth now in
  if bool_decide (ob_state s = Conflicted) then Err SessionConflict
  else if ob_lease_expires_at s <=? now then Err SessionConflict
  else if inventory_receipt_broken s then Err SequenceConflict
  else if heartbeat_receipt_broken s then Err HeartbeatConflict else
  Ok (r, {| cs_host_id := ah_host_id auth; cs_host_epoch := ah_epoch auth;
            cs_authority_session_id := ir_authority_session_id report;
            cs_boot_id := ir_boot_id report;
            cs_control_plane_incarnation := ir_control_plane_incarnation report;
            cs_state := ob_state s; cs_lease_expires_at := ob_lease_expires_at s;
            cs_current_inventory_sequence := ob_current_inventory_sequence s;
            cs_current_inventory_digest := ob_current_inventory_digest s;
            cs_current_inventory_received_at := ob_current_inventory_received_at s;
            cs_current_heartbeat_sequence := ob_current_heartbeat_sequence s;
            cs_current_heartbeat_digest := ob_current_heartbeat_digest s;
            cs_current_heartbeat_received_at := ob_current_heartbeat_received_at s;
            cs_current_heartbeat_lease_expires_at := ob_current_heartbeat_lease_expires_at s;
            cs_current_heartbeat_state := ob_current_heartbeat_state s |}).

(** [WHERE session_id=? AND host_id=?]. *)
Definition of_session (cs : CurrentInventorySession) (s : ObservationRow) : bool :=
  session_named (to_string (cs_authority_session_id cs)) s
  && String.eqb (ob_host_id s) (to_string (cs_host_id cs)).

(** ** Samples *)
Definition opt_u64 (value : option Z) : option Z :=
  value ≫= λ value, if value <=? i64_max then Some value else None.

(** The domain's foreign key; the provenance is the session's own. *)
Definition insert_sample (cs : CurrentInventorySession) (domains : gmap string Uuid) (now : Z)
    (r : Registry) (sample : ObservedSample) : Result Registry InventoryError :=
  let? domain := ok_or MappingConflict (domains !! os_domain_local_key sample) in
  let? epoch := reg (to_i64 "epoch exceeds SQLite integer" (cs_host_epoch cs)) in
  if negb (exists_row (λ d, String.eqb (d_id d) (to_string domain)
                            && String.eqb (d_host_id d) (to_string (cs_host_id cs)))
             (host_resource_domains (rg_policy r)))
  then Err InvDatabase
  else Ok (r <| host_samples ::= (λ l, l ++
    [{| sa_host_id := to_string (cs_host_id cs); sa_domain_id := to_string domain;
        sa_host_epoch := epoch; sa_observed_at := os_observed_at sample; sa_received_at := now;
        sa_cpu_used_millis := opt_u64 (os_cpu_used_millis sample);
        sa_memory_used_mib := opt_u64 (os_memory_used_mib sample);
        sa_disk_free_bytes := opt_u64 (os_disk_free_bytes sample);
        sa_uptime_seconds := opt_u64 (os_uptime_seconds sample); sa_coverage := os_coverage sample;
        sa_authority_session_id := to_string (cs_authority_session_id cs);
        sa_boot_id := cs_boot_id cs;
        sa_control_plane_incarnation := to_string (cs_control_plane_incarnation cs) |}])%list |>).

Definition insert_samples (r : Registry) (cs : CurrentInventorySession)
    (samples : list ObservedSample) (domains : gmap string Uuid) (now : Z)
    : Result Registry InventoryError :=
  try_fold (insert_sample cs domains now) r samples.

(** ** Heartbeat *)
Definition MEMORY_PRESSURE_PERCENT : Z := 92.
Definition CPU_PRESSURE_PERCENT : Z := 200.

Definition u64_saturating_mul (a b : Z) : Z := Z.min u64_max (a * b).

Definition over (used capacity : option Z) (percent : Z) : option bool :=
  match used, capacity with
  | Some used, Some capacity =>
      if 0 <? capacity
      then Some (u64_saturating_mul capacity percent <? u64_saturating_mul used 100)
      else None
  | _, _ => None
  end.

Definition pressure_from (r : Registry) (cs : CurrentInventorySession)
    (samples : list ObservedSample) : PressureState :=
  match fetch (λ d, String.eqb (odr_host_id d) (to_string (cs_host_id cs))
                    && is_null (odr_parent_local_key d)) (fleet_observed_domains r) with
  | None => PressureUnknown
  | Some root =>
      match fetch (λ sample, String.eqb (os_domain_local_key sample) (odr_local_key root)) samples with
      | None => PressureUnknown
      | Some sample =>
          match over (os_memory_used_mib sample) (odr_memory_mib root) MEMORY_PRESSURE_PERCENT,
                over (os_cpu_used_millis sample) (odr_cpu_millis root) CPU_PRESSURE_PERCENT with
          | Some true, _ | _, Some true => Pressured
          | Some false, Some false | Some false, None => PressureNormal
          | _, _ => PressureUnknown
          end
      end
  end.

Definition reconciled (r : Registry) (w : Work) (cs : CurrentInventorySession) : bool :=
  is_some_and (λ h, h_inventory_complete h
      && eq_sql (h_inventory_session_id h) (Some (to_string (cs_authority_session_id cs)))
      && negb (exists_row (λ pl, String.eqb (pl_host_id pl) (h_id h)
                                 && bool_decide (pl_state pl = Uncertain)) (workload_placements w)))
    (host_of r (to_string (cs_host_id cs))).

(** The rotation an administrator asked for, latest first. *)
Definition pending_rotation (r : Registry) (cs : CurrentInventorySession) (now : Z)
    : Result (option PendingRotation) InventoryError :=
  match order_by (λ a b, ro_requested_at b <=? ro_requested_at a)
          (select (λ o, String.eqb (ro_host_id o) (to_string (cs_host_id cs))
                        && open_phase (ro_phase o) && is_null (ro_revoked_at o)
                        && (bool_decide (ro_phase o = PhaseExchanged) || (now <? ro_expires_at o)))
             (host_credential_rotations r)) with
  | [] => Ok None
  | o :: _ =>
      let malformed := "rotation row is malformed" in
      let? id := invalid malformed (fleet_uuid_from_str (ro_id o)) in
      let? generation := ok_or (InvRegistry (RegInvalidRequest malformed))
                           (u64_try_from (ro_next_generation o)) in
      let? generation := invalid malformed (Generation_new generation) in
      Ok (Some {| pend_operation_id := id; pend_next_generation := generation |})
  end.

(** What a host must be to hold work authority of a session. *)
Definition may_work (session : string) (h : HostRow) : bool :=
  bool_decide (h_enrollment_state h = EnrApproved)
  && (bool_decide (h_lifecycle_state h = IntActive) || bool_decide (h_lifecycle_state h = IntDraining))
  && bool_decide (h_integrity_state h = Verified) && h_inventory_complete h
  && eq_sql (h_inventory_session_id h) (Some session).

Definition serves (host session : string) (h : HostRow) : bool :=
  host_named host h && eq_sql (h_agent_session_id h) (Some session).

Definition grant_authority (r : Registry) (host session : string) (expires : Z) (ready : bool)
    : Registry :=
  let r := update_hosts (λ h, serves host session h && (negb ready || may_work session h))
             (λ h, h <| h_authority_expires_at := if ready then Some expires else None |>) r in
  update_hosts (λ h, serves host session h && not_null (h_authority_expires_at h)
                     && negb (may_work session h))
    (λ h, h <| h_authority_expires_at := None |>) r.

Definition work_authority (r : Registry) (cs : CurrentInventorySession) (grant_at : option (Z * bool))
    : Result (Registry * option Z) InventoryError :=
  let session := to_string (cs_authority_session_id cs) in
  let host := to_string (cs_host_id cs) in
  let? r := match grant_at with
            | Some (now, ready) =>
                let? expires := ok_or (InvRegistry (RegInvalidRequest "authority overflowed"))
                                  (i64_checked_add now WORK_AUTHORITY_MILLIS) in
                Ok (grant_authority r host session expires ready)
            | None => Ok r
            end in
  match fetch (serves host session) (fleet_hosts (rg_policy r)) ≫= h_authority_expires_at with
  | Some value =>
      let? expires := invalid "authority is malformed" (WireTimestamp_from_millis value) in
      Ok (r, Some expires)
  | None => Ok (r, None)
  end.

Definition heartbeat_response (request : HeartbeatRequest) (cs : CurrentInventorySession)
    (rotation : option PendingRotation) (authority : option Z) (received lease_expires : Z)
    (state : ObservationSessionState) : Result HeartbeatResponse InventoryError :=
  let? received_at := invalid "receipt timestamp is malformed" (WireTimestamp_from_millis received) in
  let? lease := lease "lease timestamp is malformed" lease_expires in
  Ok {| hp_request_id := hb_request_id request; hp_host_id := cs_host_id cs;
        hp_host_epoch := cs_host_epoch cs;
        hp_control_plane_incarnation := cs_control_plane_incarnation cs;
        hp_authority_session_id := cs_authority_session_id cs;
        hp_heartbeat_sequence := hb_heartbeat_sequence request; hp_received_at := received_at;
        hp_state := state; hp_lease := lease; hp_pending_rotation := rotation;
        hp_work_authority_expires_at := authority |}.

(** The report a heartbeat stands for. *)
Definition heartbeat_report (request : HeartbeatRequest) : InventoryReport :=
  {| ir_host_epoch := hb_host_epoch request;
     ir_control_plane_incarnation := hb_control_plane_incarnation request;
     ir_authority_session_id := hb_authority_session_id request; ir_boot_id := hb_boot_id request;
     ir_inventory_sequence := hb_heartbeat_sequence request; ir_observed_at := hb_observed_at request;
     ir_domains := []; ir_backends := []; ir_interactive_sessions := [];
     ir_samples := hb_samples request |}.

(** The domains of the host whose identifiers parse, by local key. *)
Definition known_domains (r : Registry) (host : string) : gmap string Uuid :=
  fold_left (λ m d, match fleet_uuid_from_str (odr_domain_id d) with
                    | Ok id => <[odr_local_key d := id]> m
                    | Err _ => m
                    end)
    (select (λ d, String.eqb (odr_host_id d) host) (fleet_observed_domains r)) ∅.

Definition replay_heartbeat (r : Registry) (w : Work) (cs : CurrentInventorySession)
    (request : HeartbeatRequest) (now : Z) : Answer HeartbeatResponse :=
  let? received := ok_or HeartbeatConflict (cs_current_heartbeat_received_at cs) in
  let? state := ok_or HeartbeatConflict (cs_current_heartbeat_state cs) in
  let? rotation := pending_rotation r cs now in
  let? authority := work_authority r cs None in
  let? expires := ok_or HeartbeatConflict (cs_current_heartbeat_lease_expires_at cs) in
  let? response := heartbeat_response request cs rotation authority.2 received expires state in
  Ok (r, w, Ok response).

Definition heartbeat_tx (r : Registry) (w : Work) (auth : AuthenticatedHost)
    (request : HeartbeatRequest) (now : Z) : Answer HeartbeatResponse :=
  let? _ := map_err InvPayload (heartbeat_validate_shape request) in
  let? body := ok_or InvJson (heartbeat_json request) in
  let digest := digest_text body in
  let? loaded := load_current_session r auth (heartbeat_report request) now in
  let '(r, cs) := loaded in
  let? sequence := reg (to_i64 "heartbeat sequence exceeds SQLite integer"
                          (hb_heartbeat_sequence request)) in
  if sequence <=? cs_current_heartbeat_sequence cs then
    if (sequence =? cs_current_heartbeat_sequence cs)
       && bool_decide (cs_current_heartbeat_digest cs = Some digest)
    then replay_heartbeat r w cs request now
    else Err HeartbeatConflict
  else
  let? r := insert_samples r cs (hb_samples request)
              (known_domains r (to_string (cs_host_id cs))) now in
  let state := if bool_decide (cs_state cs = SessReconciling) && reconciled r w cs
               then SessReady else cs_state cs in
  let? expires := ok_or (InvRegistry (RegInvalidRequest "observation lease overflowed"))
                    (i64_checked_add now OBSERVATION_LEASE_MILLIS) in
  let r := update_sessions (of_session cs) (λ s, s <| ob_last_seen_at := now |>
             <| ob_lease_expires_at := expires |> <| ob_current_heartbeat_sequence := sequence |>
             <| ob_current_heartbeat_digest := Some digest |>
             <| ob_current_heartbeat_received_at := Some now |>
             <| ob_current_heartbeat_lease_expires_at := Some expires |>
             <| ob_current_heartbeat_state := Some state |>
             <| ob_state ::= (λ old, if bool_decide (state = cs_state cs) then old else state) |>) r in
  let pressure := pressure_from r cs (hb_samples request) in
  let r := update_hosts (host_named (to_string (cs_host_id cs)))
             (λ h, h <| h_last_heartbeat_at := Some now |> <| h_pressure_state := pressure |>) r in
  let? rotation := pending_rotation r cs now in
  let? authority := work_authority r cs (Some (now, bool_decide (state = SessReady))) in
  Ok (authority.1, w, heartbeat_response request cs rotation authority.2 now expires state).

Definition heartbeat (r : Registry) (w : Work) (auth : AuthenticatedHost)
    (request : HeartbeatRequest) (now : Z)
    : Registry * Work * Result HeartbeatResponse InventoryError :=
  transact r w (heartbeat_tx r w auth request now).
End observation.
