(* ===== verification/Reconcile.v ===== *)
(** * Inventory reconciliation
    ([submit_inventory] of [crates/gridops-core/src/fleet/registry/inventory.rs]).

    A complete inventory maps the agent's local keys to the server's
    identifiers, records what was observed and gives a budget to the domains
    that have none.  The UUIDs drawn for the keys that are new are an
    argument.  A loop that follows parents has fuel: the check that runs first
    bounds the walk by 64 domains. *)
From S2P Require Import Prelude Base64 Ids Domain Protocol Outcomes Capabilities Inventory Crypto Store Service Admission Commands RegistryStore Registry Observation.
#[local] Open Scope string_scope.
#[local] Open Scope Z_scope.

(** The UUIDs [Uuid::new_v4] returns, by the local key they are drawn for. *)
Record Drawn := {
  draw_domain : string → Uuid; draw_backend : string → Uuid; draw_session : string → Uuid }.

(** ** The domain graph *)

(** [by_key]: a later entry of a key replaces an earlier one. *)
Definition by_key (domains : list ObservedDomain) (key : string) : option ObservedDomain :=
  fetch (λ d, String.eqb (od_local_key d) key) (rev domains).

(** The loop of [validate_root_and_depth]; [fuel] is [64 - depth]. *)
Fixpoint walk_to_root (domains : list ObservedDomain) (fuel : nat) (current : ObservedDomain)
    (seen : list string) : Result unit InventoryError :=
  match od_parent_local_key current with
  | None => Ok tt
  | Some parent =>
      if existsb (String.eqb parent) seen then Err (InvPayload InvalidDomainGraph) else
      let? next := ok_or (InvPayload InvalidDomainGraph) (by_key domains parent) in
      match fuel with
      | O => Err DomainDepth
      | S fuel => walk_to_root domains fuel next (parent :: seen)
      end
  end.

Definition validate_root_and_depth (report : InventoryReport) : Result unit InventoryError :=
  let domains := ir_domains report in
  match select (λ d, is_null (od_parent_local_key d)) domains with
  | [root] =>
      if negb (bool_decide (od_kind root = Physical)) then Err RootConflict
      else try_fold (λ _ d, walk_to_root domains 63 d []) tt domains
  | _ => Err RootConflict
  end.

(** The sort key of a pending domain: how many parents it has. *)
Fixpoint depth_of (domains : list ObservedDomain) (fuel : nat) (key : string) : option nat :=
  match fuel with
  | O => None
  | S fuel =>
      match by_key domains key ≫= od_parent_local_key with
      | None => Some O
      | Some parent => S <$> depth_of domains fuel parent
      end
  end.

Definition by_depth (domains : list ObservedDomain) : list ObservedDomain :=
  let depth d := default O (depth_of domains 64 (od_local_key d)) in
  order_by (λ a b, Nat.leb (depth a) (depth b)) domains.

(** ** Digests *)
Definition by_text {A} (key : A → string) (l : list A) : list A :=
  order_by (λ a b, String.leb (key a) (key b)) l.

(** The order in which the agent listed its observations does not count. *)
Definition canonical (report : InventoryReport) : InventoryReport :=
  report <| ir_domains ::= by_text od_local_key |> <| ir_backends ::= by_text obk_local_key |>
         <| ir_interactive_sessions ::= by_text ois_local_key |>
         <| ir_samples ::= by_text os_domain_local_key |>.

Definition canonical_inventory_digest `{Codec, ObservationJson} (report : InventoryReport)
    : Result string InventoryError :=
  let? body := ok_or InvJson (report_json (canonical report)) in Ok (digest_text body).

(** 80% of what is reported, for a budget nobody has set. *)
Definition share (value : option Z) : Z :=
  match value with
  | None => 0
  | Some value => let part := value / 5 * 4 in if part <=? i64_max then part else i64_max
  end.

Section reconcile.
Context `{UuidText, Codec, ObservationJson}.
Variables (cs : CurrentInventorySession) (report : InventoryReport) (drawn : Drawn) (now : Z).
Notation host := (to_string (cs_host_id cs)).
Notation session := (to_string (cs_authority_session_id cs)).

Definition owned_domain (id : string) (d : DomainRow) : bool :=
  String.eqb (d_id d) id && String.eqb (d_host_id d) host.

(** ** Domains *)
Definition ensure_domain_owner (r : Registry) (id : Uuid) : Result unit InventoryError :=
  if bool_decide (d_host_id <$> fetch (λ d, String.eqb (d_id d) (to_string id))
                    (host_resource_domains (rg_policy r)) = Some host)
  then Ok tt else Err MappingConflict.

Definition domain_id_of (r : Registry) (root : Uuid) (domain : ObservedDomain)
    : Result Uuid InventoryError :=
  let known q := is_some_and q (od_known_id domain) in
  match fetch (λ m, String.eqb (odr_host_id m) host
                    && String.eqb (odr_local_key m) (od_local_key domain))
          (fleet_observed_domains r) with
  | Some m =>
      let? mapped := invalid "domain mapping ID is malformed" (fleet_uuid_from_str (odr_domain_id m)) in
      if known (λ id, negb (id =? mapped)) then Err MappingConflict
      else if negb (bool_decide (odr_kind m = od_kind domain)) then Err MappingConflict
      else if negb (bool_decide (odr_parent_local_key m = od_parent_local_key domain))
              || negb (bool_decide (odr_runtime_identity m = od_runtime_identity domain))
      then Err MappingConflict else Ok mapped
  | None =>
      if is_null (od_parent_local_key domain) then
        if known (λ id, negb (id =? root)) then Err MappingConflict else Ok root
      else if known (λ _, true) then Err MappingConflict
      else invalid "domain ID generation failed"
             (fleet_uuid_try_new (draw_domain drawn (od_local_key domain)))
  end.

(** [INSERT INTO host_resource_domains] with no budget. *)
Definition insert_domain (id parent name : string) (r : Registry) : Result Registry InventoryError :=
  if exists_row (λ d, String.eqb (d_id d) id) (host_resource_domains (rg_policy r))
     || negb (exists_row (owned_domain parent) (host_resource_domains (rg_policy r)))
  then Err InvDatabase
  else Ok (r <| rg_policy ::= (λ p, p <| host_resource_domains ::= (λ l, l ++
         [{| d_id := id; d_host_id := host; d_parent_domain_id := Some parent; d_cpu_millis := 0;
             d_memory_mib := 0; d_disk_bytes := 0; d_revision := 1; d_name := name |}])%list |>) |>).

Definition place_domain (r : Registry) (mapped : gmap string Uuid) (id : Uuid)
    (domain : ObservedDomain) : Result Registry InventoryError :=
  match od_parent_local_key domain with
  | None => Ok r
  | Some parent =>
      let? parent_id := ok_or MappingConflict (mapped !! parent) in
      match fetch (owned_domain (to_string id)) (host_resource_domains (rg_policy r)) with
      | Some d =>
          let? existing := ok_or InvDatabase (d_parent_domain_id d) in
          if String.eqb existing (to_string parent_id) then Ok r else Err MappingConflict
      | None => insert_domain (to_string id) (to_string parent_id) (od_name domain) r
      end
  end.

Definition observed_domain (id : Uuid) (domain : ObservedDomain) : ObservedDomainRow :=
  {| odr_host_id := host; odr_local_key := od_local_key domain; odr_domain_id := to_string id;
     odr_parent_local_key := od_parent_local_key domain; odr_kind := od_kind domain;
     odr_observed_name := od_name domain; odr_runtime_identity := od_runtime_identity domain;
     odr_cpu_millis := opt_u64 (oc_cpu_millis (od_capacity domain));
     odr_memory_mib := opt_u64 (oc_memory_mib (od_capacity domain));
     odr_disk_bytes := opt_u64 (oc_disk_bytes (od_capacity domain)); odr_session_id := session;
     odr_host_epoch := cs_host_epoch cs;
     odr_control_plane_incarnation := to_string (cs_control_plane_incarnation cs);
     odr_inventory_sequence := ir_inventory_sequence report; odr_received_at := now |}.

(** The upsert.  A key of the table already there keeps its domain and its
    kind, and two keys never share a domain. *)
Definition upsert_observed_domain (id : Uuid) (domain : ObservedDomain) (r : Registry)
    : Result Registry InventoryError :=
  let new := observed_domain id domain in
  let same m := String.eqb (odr_host_id m) host && String.eqb (odr_local_key m) (odr_local_key new) in
  if exists_row (λ m, String.eqb (odr_host_id m) host
                      && String.eqb (odr_domain_id m) (odr_domain_id new) && negb (same m))
       (fleet_observed_domains r)
     || negb (exists_row (owned_domain (to_string id)) (host_resource_domains (rg_policy r)))
  then Err InvDatabase
  else Ok (r <| fleet_observed_domains ::= (λ l,
         if exists_row same l
         then update_where same (λ m,
                {| odr_host_id := odr_host_id m; odr_local_key := odr_local_key m;
                   odr_domain_id := odr_domain_id m;
                   odr_parent_local_key := odr_parent_local_key new; odr_kind := odr_kind m;
                   odr_observed_name := odr_observed_name new;
                   odr_runtime_identity := odr_runtime_identity new;
                   odr_cpu_millis := odr_cpu_millis new; odr_memory_mib := odr_memory_mib new;
                   odr_disk_bytes := odr_disk_bytes new; odr_session_id := odr_session_id new;
                   odr_host_epoch := odr_host_epoch new;
                   odr_control_plane_incarnation := odr_control_plane_incarnation new;
                   odr_inventory_sequence := odr_inventory_sequence new;
                   odr_received_at := odr_received_at new |}) l
         else (l ++ [new])%list) |>).

(** A budget nobody has set yet. *)
Definition unset (id : string) (d : DomainRow) : bool :=
  owned_domain id d && (d_cpu_millis d =? 0) && (d_memory_mib d =? 0) && (d_disk_bytes d =? 0).

Definition set_budget (id : Uuid) (capacity : ObservedCapacity) (r : Registry)
    : Result Registry InventoryError :=
  let cpu := share (oc_cpu_millis capacity) in
  let memory := share (oc_memory_mib capacity) in
  let q d := unset (to_string id) d && (0 <? cpu) && (0 <? memory) in
  if exists_row (λ d, q d && (i64_max <=? d_revision d)) (host_resource_domains (rg_policy r))
  then Err InvDatabase
  else Ok (r <| rg_policy ::= (λ p, p <| host_resource_domains ::= update_where q
         (λ d, d <| d_cpu_millis := cpu |> <| d_memory_mib := memory |>
                 <| d_disk_bytes := share (oc_disk_bytes capacity) |>
                 <| d_revision ::= Z.succ |>) |>) |>).

(** One turn of the loop over the domains. *)
Definition reconcile_domain (root : Uuid) (st : Registry * gmap string Uuid) (domain : ObservedDomain)
    : Result (Registry * gmap string Uuid) InventoryError :=
  let '(r, mapped) := st in
  let? id := domain_id_of r root domain in
  let? r := place_domain r mapped id domain in
  let? r := upsert_observed_domain id domain r in
  let? r := set_budget id (od_capacity domain) r in
  Ok (r, <[od_local_key domain := id]> mapped).

(** ** Backends *)
Definition backend_id_of (r : Registry) (backend : ObservedBackend) : Result Uuid InventoryError :=
  match fetch (λ m, String.eqb (obr_host_id m) host
                    && String.eqb (obr_local_key m) (obk_local_key backend))
          (fleet_observed_backends r) with
  | Some m =>
      let? mapped := invalid "backend mapping ID is malformed" (fleet_uuid_from_str (obr_backend_id m)) in
      if is_some_and (λ id, negb (id =? mapped)) (obk_known_id backend)
         || negb (String.eqb (obr_domain_local_key m) (obk_domain_local_key backend))
         || negb (String.eqb (obr_runtime_kind m) (runtime_name (obk_runtime_kind backend)))
         || negb (String.eqb (obr_execution_os m) (os_name (obk_execution_os backend)))
         || negb (String.eqb (obr_architecture m) (arch_name (obk_architecture backend)))
         || negb (bool_decide (obr_runtime_identity m = obk_runtime_identity backend))
      then Err MappingConflict else Ok mapped
  | None =>
      if is_some_and (λ _, true) (obk_known_id backend) then Err MappingConflict
      else invalid "backend ID generation failed"
             (fleet_uuid_try_new (draw_backend drawn (obk_local_key backend)))
  end.

Definition new_backend (id domain : string) (backend : ObservedBackend) : BackendRow :=
  {| b_id := id; b_host_id := host; b_domain_id := domain;
     b_runtime_kind := runtime_name (obk_runtime_kind backend);
     b_execution_os := os_name (obk_execution_os backend);
     b_architecture := arch_name (obk_architecture backend); b_readiness := obk_readiness backend;
     b_enabled := false; b_capabilities := Some (obk_capabilities backend);
     b_last_probed_at := None; b_probe_epoch := None; b_probe_session_id := None;
     b_probe_boot_id := None; b_probe_incarnation := None; b_reason_code := obk_reason backend |}.

Definition owned_backend (id : string) (b : BackendRow) : bool :=
  String.eqb (b_id b) id && String.eqb (b_host_id b) host.

(** The row is there and means the same, or it is inserted, disabled. *)
Definition place_backend (id domain : string) (backend : ObservedBackend) (r : Registry)
    : Result Registry InventoryError :=
  match fetch (owned_backend id) (host_backends (rg_policy r)) with
  | Some b =>
      if negb (String.eqb (b_domain_id b) domain)
         || negb (String.eqb (b_runtime_kind b) (runtime_name (obk_runtime_kind backend)))
         || negb (String.eqb (b_execution_os b) (os_name (obk_execution_os backend)))
         || negb (String.eqb (b_architecture b) (arch_name (obk_architecture backend)))
      then Err MappingConflict else Ok r
  | None =>
      if exists_row (λ b, String.eqb (b_id b) id) (host_backends (rg_policy r))
         || negb (exists_row (owned_domain domain) (host_resource_domains (rg_policy r)))
      then Err InvDatabase
      else Ok (r <| rg_policy ::= (λ p, p <| host_backends ::=
                      (λ l, l ++ [new_backend id domain backend])%list |>) |>)
  end.

Definition probe (backend : ObservedBackend) (b : BackendRow) : BackendRow :=
  b <| b_readiness := obk_readiness backend |> <| b_reason_code := obk_reason backend |>
    <| b_capabilities := Some (obk_capabilities backend) |> <| b_last_probed_at := Some now |>
    <| b_probe_epoch := Some (cs_host_epoch cs) |> <| b_probe_session_id := Some session |>
    <| b_probe_boot_id := Some (cs_boot_id cs) |>
    <| b_probe_incarnation := Some (to_string (cs_control_plane_incarnation cs)) |>.

Definition observed_backend (id : string) (backend : ObservedBackend) : ObservedBackendRow :=
  {| obr_host_id := host; obr_local_key := obk_local_key backend; obr_backend_id := id;
     obr_domain_local_key := obk_domain_local_key backend;
     obr_runtime_kind := runtime_name (obk_runtime_kind backend);
     obr_execution_os := os_name (obk_execution_os backend);
     obr_architecture := arch_name (obk_architecture backend);
     obr_capabilities := obk_capabilities backend; obr_observed_readiness := obk_readiness backend;
     obr_reason := obk_reason backend; obr_runtime_identity := obk_runtime_identity backend;
     obr_session_id := session; obr_host_epoch := cs_host_epoch cs;
     obr_control_plane_incarnation := to_string (cs_control_plane_incarnation cs);
     obr_inventory_sequence := ir_inventory_sequence report; obr_received_at := now |}.

(** The conflicting columns are those that identify the row, which an upsert
    leaves alone. *)
Definition upsert_observed_backend (id : string) (backend : ObservedBackend) (r : Registry)
    : Result Registry InventoryError :=
  let new := observed_backend id backend in
  let same m := String.eqb (obr_host_id m) host && String.eqb (obr_local_key m) (obr_local_key new) in
  if exists_row (λ m, String.eqb (obr_host_id m) host && String.eqb (obr_backend_id m) id
                      && negb (same m)) (fleet_observed_backends r)
     || negb (exists_row (λ d, String.eqb (odr_host_id d) host
                               && String.eqb (odr_local_key d) (obr_domain_local_key new))
                (fleet_observed_domains r))
  then Err InvDatabase
  else Ok (r <| fleet_observed_backends ::= (λ l,
         if exists_row same l
         then update_where same (λ m,
                {| obr_host_id := obr_host_id m; obr_local_key := obr_local_key m;
                   obr_backend_id := obr_backend_id m;
                   obr_domain_local_key := obr_domain_local_key new;
                   obr_runtime_kind := obr_runtime_kind m; obr_execution_os := obr_execution_os m;
                   obr_architecture := obr_architecture m;
                   obr_capabilities := obr_capabilities new;
                   obr_observed_readiness := obr_observed_readiness new;
                   obr_reason := obr_reason new; obr_runtime_identity := obr_runtime_identity new;
                   obr_session_id := obr_session_id new; obr_host_epoch := obr_host_epoch new;
                   obr_control_plane_incarnation := obr_control_plane_incarnation new;
                   obr_inventory_sequence := obr_inventory_sequence new;
                   obr_received_at := obr_received_at new |}) l
         else (l ++ [new])%list) |>).

Definition upsert_backend (r : Registry) (backend : ObservedBackend) (domain_id : Uuid)
    : Result (Registry * Uuid) InventoryError :=
  let? id := backend_id_of r backend in
  let? r := place_backend (to_string id) (to_string domain_id) backend r in
  let? _ := ok_or InvJson (capabilities_json (obk_capabilities backend)) in
  let r := r <| rg_policy ::= (λ p, p <| host_backends ::=
             update_where (owned_backend (to_string id)) (probe backend) |>) |> in
  let? r := upsert_observed_backend (to_string id) backend r in
  Ok (r, id).

Definition reconcile_backend (domains : gmap string Uuid) (st : Registry * gmap string Uuid)
    (backend : ObservedBackend) : Result (Registry * gmap string Uuid) InventoryError :=
  let '(r, mapped) := st in
  let? domain_id := ok_or MappingConflict (domains !! obk_domain_local_key backend) in
  let? done := upsert_backend r backend domain_id in
  Ok (done.1, <[obk_local_key backend := done.2]> mapped).

(** ** Interactive sessions *)
Definition session_id_of (r : Registry) (helper : ObservedInteractiveSession)
    : Result Uuid InventoryError :=
  match fetch (λ m, String.eqb (ohr_host_id m) host
                    && String.eqb (ohr_local_key m) (ois_local_key helper))
          (fleet_observed_interactive_sessions r) with
  | Some m =>
      let? mapped := invalid "session mapping ID is malformed" (fleet_uuid_from_str (ohr_session_id m)) in
      if is_some_and (λ id, negb (id =? mapped)) (ois_known_id helper)
         || negb (String.eqb (ohr_os_user_id m) (ois_os_user_id helper))
      then Err MappingConflict else Ok mapped
  | None =>
      if is_some_and (λ _, true) (ois_known_id helper) then Err MappingConflict
      else if exists_row (λ s, String.eqb (s_host_id s) host
                               && String.eqb (s_session_key s) (ois_local_key helper))
                (host_sessions (rg_policy r))
      then Err MappingConflict
      else invalid "session ID generation failed"
             (fleet_uuid_try_new (draw_session drawn (ois_local_key helper)))
  end.

Definition session_row_named (id : string) (s : SessionRow) : bool := String.eqb (s_id s) id.

(** A session that is new is not authorized for anything. *)
Definition place_session (id : string) (helper : ObservedInteractiveSession) (r : Registry)
    : Result Registry InventoryError :=
  match fetch (session_row_named id) (host_sessions (rg_policy r)) with
  | None =>
      if exists_row (λ s, String.eqb (s_host_id s) host
                          && String.eqb (s_session_key s) (ois_local_key helper))
           (host_sessions (rg_policy r)) then Err InvDatabase
      else Ok (r <| rg_policy ::= (λ p, p <| host_sessions ::= (λ l, l ++
             [{| s_id := id; s_host_id := host;
                 s_helper_state := helper_state_name (ois_helper_state helper);
                 s_authorized := false; s_max_jobs := 1; s_last_seen_at := None;
                 s_session_key := ois_local_key helper; s_os_user_id := ois_os_user_id helper |}])%list
             |>) |>)
  | Some s => if String.eqb (s_host_id s) host then Ok r else Err MappingConflict
  end.

Definition observed_helper (id : string) (helper : ObservedInteractiveSession) : ObservedHelperRow :=
  {| ohr_host_id := host; ohr_local_key := ois_local_key helper; ohr_session_id := id;
     ohr_os_user_id := ois_os_user_id helper;
     ohr_observed_helper_state := helper_state_name (ois_helper_state helper);
     ohr_authority_session_id := session; ohr_boot_id := cs_boot_id cs;
     ohr_host_epoch := cs_host_epoch cs;
     ohr_control_plane_incarnation := to_string (cs_control_plane_incarnation cs);
     ohr_inventory_sequence := ir_inventory_sequence report; ohr_received_at := now |}.

Definition upsert_observed_helper (id : string) (helper : ObservedInteractiveSession) (r : Registry)
    : Result Registry InventoryError :=
  let new := observed_helper id helper in
  let same m := String.eqb (ohr_host_id m) host && String.eqb (ohr_local_key m) (ohr_local_key new) in
  if exists_row (λ m, String.eqb (ohr_host_id m) host && String.eqb (ohr_session_id m) id
                      && negb (same m)) (fleet_observed_interactive_sessions r)
  then Err InvDatabase
  else Ok (r <| fleet_observed_interactive_sessions ::= (λ l,
         if exists_row same l
         then update_where same (λ m,
                m <| ohr_observed_helper_state := ohr_observed_helper_state new |>
                  <| ohr_authority_session_id := ohr_authority_session_id new |>
                  <| ohr_boot_id := ohr_boot_id new |> <| ohr_host_epoch := ohr_host_epoch new |>
                  <| ohr_control_plane_incarnation := ohr_control_plane_incarnation new |>
                  <| ohr_inventory_sequence := ohr_inventory_sequence new |>
                  <| ohr_received_at := ohr_received_at new |>) l
         else (l ++ [new])%list) |>).

Definition upsert_interactive (r : Registry) (helper : ObservedInteractiveSession)
    : Result (Registry * Uuid) InventoryError :=
  let? id := session_id_of r helper in
  let? r := place_session (to_string id) helper r in
  if negb (bool_decide (s_os_user_id <$> fetch (session_row_named (to_string id))
                          (host_sessions (rg_policy r)) = Some (ois_os_user_id helper)))
  then Err MappingConflict else
  let r := r <| rg_policy ::= (λ p, p <| host_sessions ::= update_where
             (λ s, session_row_named (to_string id) s && String.eqb (s_host_id s) host)
             (λ s, s <| s_helper_state := helper_state_name (ois_helper_state helper) |>
                     <| s_last_seen_at := Some now |>) |>) |> in
  let? r := upsert_observed_helper (to_string id) helper r in
  Ok (r, id).

Definition reconcile_helper (st : Registry * gmap string Uuid) (helper : ObservedInteractiveSession)
    : Result (Registry * gmap string Uuid) InventoryError :=
  let '(r, mapped) := st in
  let? done := upsert_interactive r helper in
  Ok (done.1, <[ois_local_key helper := done.2]> mapped).

(** ** The whole report *)

(** Nothing an earlier inventory said of backends and helpers stands. *)
Definition forget_probes (r : Registry) : Registry :=
  r <| rg_policy ::= (λ p,
         p <| host_backends ::= update_where (λ b, String.eqb (b_host_id b) host)
                (λ b, b <| b_readiness := BackendUnknown |>
                        <| b_reason_code := Some "stale_inventory" |> <| b_last_probed_at := None |>
                        <| b_probe_epoch := None |> <| b_probe_session_id := None |>
                        <| b_probe_boot_id := None |> <| b_probe_incarnation := None |>) |>
           <| host_sessions ::= update_where (λ s, String.eqb (s_host_id s) host)
                (λ s, s <| s_helper_state := "unknown" |> <| s_last_seen_at := None |>) |>) |>
    <| fleet_observed_interactive_sessions ::= update_where (λ x, String.eqb (ohr_host_id x) host)
         (λ x, x <| ohr_observed_helper_state := "unknown" |>
                 <| ohr_authority_session_id := session |> <| ohr_boot_id := cs_boot_id cs |>
                 <| ohr_host_epoch := cs_host_epoch cs |>
                 <| ohr_control_plane_incarnation := to_string (cs_control_plane_incarnation cs) |>) |>.

Record Mappings := {
  mp_domains : gmap string Uuid; mp_backends : gmap string Uuid; mp_sessions : gmap string Uuid }.

Definition reconcile_inventory (r : Registry) : Result (Registry * Mappings) InventoryError :=
  let? _ := ok_or RootConflict (fetch (λ d, is_null (od_parent_local_key d)) (ir_domains report)) in
  let? root := ok_or MappingConflict (fetch (λ d, String.eqb (d_host_id d) host
                 && is_null (d_parent_domain_id d)) (host_resource_domains (rg_policy r))) in
  let? root_id := invalid "root domain ID is malformed" (fleet_uuid_from_str (d_id root)) in
  let? _ := ensure_domain_owner r root_id in
  let? domains := try_fold (reconcile_domain root_id) (r, ∅) (by_depth (ir_domains report)) in
  let r := forget_probes domains.1 in
  let? backends := try_fold (reconcile_backend domains.2) (r, ∅) (ir_backends report) in
  let? helpers := try_fold reconcile_helper (backends.1, ∅) (ir_interactive_sessions report) in
  Ok (helpers.1, {| mp_domains := domains.2; mp_backends := backends.2; mp_sessions := helpers.2 |}).
End reconcile.

(** ** The transaction *)
Definition sorted_id_mappings (mappings : gmap string Uuid)
    : Result (list InventoryIdMapping) InventoryError :=
  let? mappings := traverse (λ m, let? key := invalid "inventory key is malformed" (UpstreamText_new m.1) in
                                  Ok {| im_local_key := key; im_server_id := m.2 |})
                     (map_to_list mappings) in
  Ok (by_text im_local_key mappings).

Section submit.
Context `{UuidText, Codec, ObservationJson}.

Definition inventory_response (request : InventoryRequest) (cs : CurrentInventorySession)
    (digest : string) (received revision : Z) (state : ObservationSessionState) (lease_expires : Z)
    (domain_ids backend_ids session_ids : list InventoryIdMapping)
    : Result InventoryResponse InventoryError :=
  let malformed := "inventory revision is malformed" in
  let? revision := ok_or (InvRegistry (RegInvalidRequest malformed)) (u64_try_from revision) in
  let? revision := invalid malformed (BrowserCounter_new revision) in
  let? _ := invalid "inventory digest is malformed" (Sha256Digest_try_from digest) in
  let? received_at := invalid "receipt timestamp is malformed" (WireTimestamp_from_millis received) in
  let? lease := lease "lease timestamp is malformed" lease_expires in
  Ok {| iv_request_id := iq_request_id request; iv_host_id := cs_host_id cs;
        iv_host_epoch := cs_host_epoch cs;
        iv_control_plane_incarnation := cs_control_plane_incarnation cs;
        iv_authority_session_id := ir_authority_session_id (iq_report request);
        iv_inventory_sequence := ir_inventory_sequence (iq_report request);
        iv_inventory_revision := revision; iv_digest := digest; iv_domain_ids := domain_ids;
        iv_backend_ids := backend_ids; iv_interactive_session_ids := session_ids;
        iv_received_at := received_at; iv_state := state; iv_lease := lease |}.

(** The receipt of the inventory that is current. *)
Definition replay_inventory (r : Registry) (w : Work) (cs : CurrentInventorySession)
    (request : InventoryRequest) (sequence : Z) (digest : string) : Answer InventoryResponse :=
  let? row := ok_or SequenceConflict (fetch (λ i, String.eqb (sn_host_id i) (to_string (cs_host_id cs))
      && String.eqb (sn_authority_session_id i) (to_string (cs_authority_session_id cs))
      && (sn_inventory_sequence i =? sequence)) (fleet_inventory_snapshots r)) in
  if negb (String.eqb (sn_digest row) digest) then Err SequenceConflict else
  let? response := inventory_response request cs (sn_digest row) (sn_received_at row)
                     (sn_inventory_revision row) (sn_receipt_state row)
                     (sn_receipt_lease_expires_at row) (sn_domain_mappings row)
                     (sn_backend_mappings row) (sn_interactive_mappings row) in
  Ok (r, w, Ok response).

Definition insert_snapshot (i : SnapshotRow) (r : Registry) : Result Registry InventoryError :=
  if exists_row (λ x, String.eqb (sn_host_id x) (sn_host_id i)
                      && String.eqb (sn_authority_session_id x) (sn_authority_session_id i)
                      && (sn_inventory_sequence x =? sn_inventory_sequence i))
       (fleet_inventory_snapshots r)
     || negb (byte_len (sn_digest i) =? 43) || (sn_inventory_revision i <=? 0)
  then Err InvDatabase
  else Ok (r <| fleet_inventory_snapshots ::= (λ l, l ++ [i])%list |>).

(** The trigger [fleet_hosts_inventory_requires_current_authority]. *)
Definition inventory_matches (h : HostRow) : bool :=
  negb (h_inventory_complete h)
  || (not_null (h_last_inventory_at h)
      && bool_decide (h_inventory_epoch h = Some (h_epoch h))
      && not_null (h_agent_session_id h)
      && bool_decide (h_inventory_session_id h = h_agent_session_id h)
      && not_null (h_boot_id h) && bool_decide (h_inventory_boot_id h = h_boot_id h)
      && not_null (h_authority_incarnation h)).

(** [SET inventory_revision=?,inventory_digest=?,...]. *)
Definition with_inventory (cs : CurrentInventorySession) (digest : string) (revision now : Z)
    (h : HostRow) : HostRow :=
  h <| h_inventory_revision := revision |> <| h_inventory_digest := Some digest |>
    <| h_inventory_epoch := Some (cs_host_epoch cs) |>
    <| h_inventory_session_id := Some (to_string (cs_authority_session_id cs)) |>
    <| h_inventory_boot_id := Some (cs_boot_id cs) |> <| h_inventory_complete := true |>
    <| h_last_inventory_at := Some now |>.

Definition complete_inventory (cs : CurrentInventorySession) (digest : string) (revision now : Z)
    (r : Registry) : Result Registry InventoryError :=
  let q := host_named (to_string (cs_host_id cs)) in
  if exists_row (λ h, q h && negb (inventory_matches (with_inventory cs digest revision now h)))
       (fleet_hosts (rg_policy r))
  then Err InvDatabase else Ok (update_hosts q (with_inventory cs digest revision now) r).

Definition accept_inventory (r : Registry) (w : Work) (cs : CurrentInventorySession)
    (request : InventoryRequest) (drawn : Drawn) (sequence : Z) (digest : string) (now : Z)
    : Answer InventoryResponse :=
  let report := iq_report request in
  let host := to_string (cs_host_id cs) in
  let session := to_string (cs_authority_session_id cs) in
  let? _ := validate_root_and_depth report in
  let? reconciled := reconcile_inventory cs report drawn now r in
  let '(r, mappings) := reconciled in
  let? r := insert_samples r cs (ir_samples report) (mp_domains mappings) now in
  let? h := ok_or InvDatabase (host_of r host) in
  let? revision := ok_or (InvRegistry (RegInvalidRequest "inventory revision overflowed"))
                     (i64_checked_add (h_inventory_revision h) 1) in
  let? expires := ok_or (InvRegistry (RegInvalidRequest "observation lease overflowed"))
                    (i64_checked_add now OBSERVATION_LEASE_MILLIS) in
  let? domain_ids := sorted_id_mappings (mp_domains mappings) in
  let? backend_ids := sorted_id_mappings (mp_backends mappings) in
  let? session_ids := sorted_id_mappings (mp_sessions mappings) in
  let? _ := traverse (λ ids, ok_or InvJson (mappings_json ids)) [domain_ids; backend_ids; session_ids] in
  let? r := insert_snapshot
    {| sn_host_id := host; sn_authority_session_id := session; sn_host_epoch := cs_host_epoch cs;
       sn_control_plane_incarnation := to_string (cs_control_plane_incarnation cs);
       sn_inventory_sequence := sequence; sn_digest := digest; sn_received_at := now;
       sn_receipt_lease_expires_at := expires; sn_receipt_state := SessReconciling;
       sn_inventory_revision := revision; sn_domain_mappings := domain_ids;
       sn_backend_mappings := backend_ids; sn_interactive_mappings := session_ids |} r in
  let? r := complete_inventory cs digest revision now r in
  let r := update_sessions (of_session cs) (λ s, s <| ob_state := SessReconciling |>
             <| ob_last_seen_at := now |> <| ob_lease_expires_at := expires |>
             <| ob_current_inventory_sequence := sequence |>
             <| ob_current_inventory_digest := Some digest |>
             <| ob_current_inventory_received_at := Some now |>) r in
  let r := if sequence =? 1
           then audit_and_event r host "fleet.observation.inventory_received" now else r in
  Ok (r, w, inventory_response request cs digest now revision SessReconciling expires domain_ids
              backend_ids session_ids).

Definition submit_inventory_tx (r : Registry) (w : Work) (auth : AuthenticatedHost)
    (request : InventoryRequest) (drawn : Drawn) (now : Z) : Answer InventoryResponse :=
  let report := iq_report request in
  let? _ := map_err InvPayload (validate_shape report) in
  let? digest := canonical_inventory_digest report in
  let? loaded := load_current_session r auth report now in
  let '(r, cs) := loaded in
  let? sequence := reg (to_i64 "inventory sequence exceeds SQLite integer"
                          (ir_inventory_sequence report)) in
  if sequence <=? cs_current_inventory_sequence cs then
    if (sequence =? cs_current_inventory_sequence cs)
       && bool_decide (cs_current_inventory_digest cs = Some digest)
    then replay_inventory r w cs request sequence digest
    else Err SequenceConflict
  else accept_inventory r w cs request drawn sequence digest now.

Definition submit_inventory (r : Registry) (w : Work) (auth : AuthenticatedHost)
    (request : InventoryRequest) (drawn : Drawn) (now : Z)
    : Registry * Work * Result InventoryResponse InventoryError :=
  transact r w (submit_inventory_tx r w auth request drawn now).
End submit.
