(* ===== verification/RegistrySpec.v ===== *)
(** * What the registry guarantees

    The registry's transactions as the steps of a state machine, over which
    identities are immutable, revocation, consumption and retirement are
    permanent, and at most one rotation of a host is open.  From that follow
    the security properties of enrollment, authentication, rotation, recovery
    and approval. *)
From S2P Require Import Prelude Base64 Ids Domain Protocol Outcomes Capabilities Inventory Crypto Store Service Admission Commands RegistryStore Registry Observation Reconcile.
From stdpp Require Import pretty.
#[local] Open Scope string_scope.
#[local] Open Scope Z_scope.

(** ** How rows change *)

(** Every row of [l] is still there, up to [le]. *)
Definition kept {A} (le : A → A → Prop) (l l' : list A) : Prop :=
  ∀ a, a ∈ l → ∃ a', a' ∈ l' ∧ le a a'.

#[export] Instance kept_preorder {A} (le : A → A → Prop) : PreOrder le → PreOrder (kept le).
Proof.
  intros Hle. split; [by intros l a Ha; exists a|].
  intros l1 l2 l3 H12 H23 a Ha. destruct (H12 a Ha) as (b & Hb & Hab).
  destruct (H23 b Hb) as (c & Hc & Hbc). exists c. split; [done|by etrans].
Qed.

Lemma kept_app {A} (le : A → A → Prop) `{!PreOrder le} l l2 : kept le l (l ++ l2).
Proof. intros a Ha. exists a. split; [set_solver|done]. Qed.

Lemma kept_update {A} (le : A → A → Prop) `{!PreOrder le} q f l :
  (∀ a, a ∈ l → q a = true → le a (f a)) → kept le l (update_where q f l).
Proof.
  intros Hf a Ha. exists (if q a then f a else a). split; [apply elem_of_update_where; eauto|].
  destruct (q a) eqn:E; [by apply Hf|done].
Qed.

Definition cred_identity (c : CredentialRow) :=
  (cred_id c, cred_host_id c, cred_generation c, cred_host_epoch c, cred_verifier c).
Definition cred_le (c c' : CredentialRow) : Prop :=
  cred_identity c' = cred_identity c ∧ ∀ t, cred_revoked_at c = Some t → cred_revoked_at c' = Some t.

Definition host_le (h h' : HostRow) : Prop :=
  h_id h' = h_id h ∧ h_epoch h ≤ h_epoch h' ∧ h_revision h ≤ h_revision h'
  ∧ (h_lifecycle_state h = IntRetired → h_lifecycle_state h' = IntRetired).

Definition enr_identity (e : EnrollmentRow) :=
  (en_id e, en_code_verifier e, en_mode e, en_intended_host_id e, en_scope e, en_issued_by e,
   en_expires_at e).
Definition enr_le (e e' : EnrollmentRow) : Prop :=
  enr_identity e' = enr_identity e
  ∧ (∀ t, en_consumed_at e = Some t → en_consumed_at e' = Some t
                                      ∧ en_consumed_host_id e' = en_consumed_host_id e)
  ∧ ∀ t, en_revoked_at e = Some t → en_revoked_at e' = Some t.

Definition rot_identity (o : RotationRow) :=
  (ro_id o, ro_host_id o, ro_old_credential_id o, ro_old_generation o, ro_next_generation o).
Definition rot_le (o o' : RotationRow) : Prop :=
  rot_identity o' = rot_identity o
  ∧ (open_phase (ro_phase o) = false → ro_phase o' = ro_phase o)
  ∧ ∀ v, ro_proposed_verifier o = Some v → ro_proposed_verifier o' = Some v.

Definition sess_identity (x : ObservationRow) :=
  (ob_session_id x, ob_host_id x, ob_host_epoch x, ob_boot_id x, ob_control_plane_incarnation x,
   ob_initial_body_digest x).
Definition sess_le (x x' : ObservationRow) : Prop :=
  sess_identity x' = sess_identity x ∧ (∀ t, ob_ended_at x = Some t → ob_ended_at x' = Some t)
  ∧ ob_current_inventory_sequence x ≤ ob_current_inventory_sequence x'
  ∧ ob_current_heartbeat_sequence x ≤ ob_current_heartbeat_sequence x'
  ∧ ob_current_credential_generation x ≤ ob_current_credential_generation x'.

#[export] Instance cred_le_preorder : PreOrder cred_le.
Proof. split; [done|]. intros c1 c2 c3 [E1 R1] [E2 R2]. split; [congruence|auto]. Qed.
#[export] Instance host_le_preorder : PreOrder host_le.
Proof.
  split; [done|]. intros h1 h2 h3 (? & ? & ? & ?) (? & ? & ? & ?).
  repeat split; [congruence|lia|lia|auto].
Qed.
#[export] Instance enr_le_preorder : PreOrder enr_le.
Proof.
  split; [done|]. intros e1 e2 e3 (E1 & C1 & R1) (E2 & C2 & R2). split; [congruence|].
  split; [|auto]. intros t Ht. destruct (C1 t Ht) as [? ?]. destruct (C2 t) as [? ?]; [done|].
  split; [done|congruence].
Qed.
#[export] Instance rot_le_preorder : PreOrder rot_le.
Proof.
  split; [done|]. intros o1 o2 o3 (E1 & P1 & V1) (E2 & P2 & V2). split; [congruence|].
  split; [|auto]. intros Ho. rewrite <-(P1 Ho). apply P2. by rewrite P1.
Qed.

#[export] Instance sess_le_preorder : PreOrder sess_le.
Proof.
  split; [done|]. intros x1 x2 x3 (E1 & T1 & ? & ? & ?) (E2 & T2 & ? & ? & ?).
  split; [congruence|]. split; [auto|lia].
Qed.

Lemma cred_le_fields c c' :
  cred_le c c' → cred_id c' = cred_id c ∧ cred_host_id c' = cred_host_id c
    ∧ cred_generation c' = cred_generation c ∧ cred_host_epoch c' = cred_host_epoch c
    ∧ cred_verifier c' = cred_verifier c.
Proof. intros [[= ? ? ? ? ?] _]. done. Qed.

Notation hosts r := (fleet_hosts (rg_policy r)).
Notation credentials r := (host_credentials (rg_policy r)).

(** The registry only ever moves forward. *)
Record reg_le (r r' : Registry) : Prop := {
  le_hosts : kept host_le (hosts r) (hosts r');
  le_credentials : kept cred_le (credentials r) (credentials r');
  le_enrollments : kept enr_le (host_enrollments r) (host_enrollments r');
  le_rotations : kept rot_le (host_credential_rotations r) (host_credential_rotations r');
  le_sessions : kept sess_le (fleet_observation_sessions r) (fleet_observation_sessions r') }.

#[export] Instance reg_le_preorder : PreOrder reg_le.
Proof.
  split; [done|]. intros r1 r2 r3 [H1 C1 E1 O1 S1] [H2 C2 E2 O2 S2]. split; by etrans.
Qed.

(** ** Well-formedness *)
Section wf.
Context `{UuidText}.

Definition is_uuid (u : Uuid) : Prop := 0 ≤ u < 2 ^ 128.

(** Whoever holds work authority is approved, working and verified, and has a
    complete inventory of the session that holds it. *)
Definition authority_ok (h : HostRow) : Prop :=
  ∀ t, h_authority_expires_at h = Some t →
    ∃ session, h_agent_session_id h = Some session ∧ may_work session h = true.

(** A complete inventory is of the current epoch, session and boot. *)
Definition host_ok (h : HostRow) : Prop :=
  (h_lifecycle_state h = IntActive → h_enrollment_state h = EnrApproved)
  ∧ 1 ≤ h_epoch h ≤ i64_max ∧ inventory_matches h = true ∧ authority_ok h.

(** A credential belongs to a host, and one that is not revoked to the
    host's current epoch. *)
Definition cred_ok (r : Registry) (c : CredentialRow) : Prop :=
  (∃ u, is_uuid u ∧ cred_id c = to_string u)
  ∧ 1 ≤ cred_generation c ≤ i64_max ∧ 1 ≤ cred_host_epoch c
  ∧ ∃ h, h ∈ hosts r ∧ h_id h = cred_host_id c
      ∧ (cred_revoked_at c = None → cred_host_epoch c = h_epoch h).

Definition rot_shape (o : RotationRow) : Prop :=
  match ro_phase o with
  | PhaseRequested => ro_proposed_verifier o = None ∧ ro_exchanged_at o = None
                      ∧ ro_acknowledged_at o = None ∧ ro_revoked_at o = None
  | PhaseExchanged => is_Some (ro_proposed_verifier o) ∧ is_Some (ro_exchanged_at o)
                      ∧ is_Some (ro_overlap_expires_at o) ∧ ro_acknowledged_at o = None
                      ∧ ro_revoked_at o = None
  | PhaseAcknowledged => is_Some (ro_acknowledged_at o) ∧ is_Some (ro_proposed_verifier o)
  | PhaseRevoked => is_Some (ro_revoked_at o) ∧ ro_acknowledged_at o = None
  end.

Definition rot_ok (o : RotationRow) : Prop :=
  rot_shape o ∧ 1 ≤ ro_old_generation o < ro_next_generation o ∧ ro_next_generation o ≤ i64_max.

Record reg_wf (r : Registry) : Prop := {
  wf_hosts : NoDup (h_id <$> hosts r);
  wf_host : ∀ h, h ∈ hosts r → host_ok h;
  wf_cred_ids : NoDup (cred_id <$> credentials r);
  wf_verifiers : NoDup (cred_verifier <$> credentials r);
  wf_generations : NoDup ((λ c, (cred_host_id c, cred_generation c)) <$> credentials r);
  wf_creds : ∀ c, c ∈ credentials r → cred_ok r c;
  wf_enr_ids : NoDup (en_id <$> host_enrollments r);
  wf_codes : NoDup (en_code_verifier <$> host_enrollments r);
  wf_rot_ids : NoDup (ro_id <$> host_credential_rotations r);
  wf_rots : ∀ o, o ∈ host_credential_rotations r → rot_ok o;
  wf_open : ∀ o o', o ∈ host_credential_rotations r → o' ∈ host_credential_rotations r →
    ro_host_id o = ro_host_id o' → open_phase (ro_phase o) = true →
    open_phase (ro_phase o') = true → ro_id o = ro_id o';
  wf_sess_ids : NoDup (ob_session_id <$> fleet_observation_sessions r);
  wf_live : ∀ x x', x ∈ fleet_observation_sessions r → x' ∈ fleet_observation_sessions r →
    ob_host_id x = ob_host_id x' → ob_ended_at x = None → ob_ended_at x' = None →
    ob_session_id x = ob_session_id x' }.
End wf.

(** A statement that keeps the registry well formed and moves it forward. *)
Definition good `{UuidText} (r r' : Registry) : Prop := reg_wf r → reg_wf r' ∧ reg_le r r'.

#[export] Instance good_preorder `{UuidText} : PreOrder good.
Proof.
  split; [by intros r Hr|]. intros r1 r2 r3 H12 H23 H1. destruct (H12 H1) as [H2 L12].
  destruct (H23 H2) as [H3 L23]. split; [done|by etrans].
Qed.

(** ** Statements *)
Lemma elem_of_snoc {A} (l : list A) a x : a ∈ (l ++ [x])%list ↔ a ∈ l ∨ a = x.
Proof. by rewrite elem_of_app, list_elem_of_singleton. Qed.

Section statements.
Context `{UuidText}.
Implicit Types r : Registry.

Lemma good_audit r subject kind now : good r (audit_and_event r subject kind now).
Proof. intros Hr. split; [|by split]. by destruct Hr. Qed.

(** Everything but the tables of identity may change. *)
Lemma good_same r r' :
  hosts r' = hosts r → credentials r' = credentials r → host_enrollments r' = host_enrollments r →
  host_credential_rotations r' = host_credential_rotations r →
  fleet_observation_sessions r' = fleet_observation_sessions r → good r r'.
Proof.
  intros EH EC EE EO ES Hr. split.
  - destruct Hr as [? ? ? ? ? Hc]. split; rewrite ?EH, ?EC, ?EE, ?EO, ?ES; try done.
    intros c Hin. destruct (Hc c Hin) as (? & ? & ? & Hx). unfold cred_ok. by rewrite EH.
  - split; by rewrite ?EH, ?EC, ?EE, ?EO, ?ES.
Qed.

(** What an [UPDATE fleet_hosts] may do to a row. *)
Definition host_step r (h h' : HostRow) : Prop :=
  host_le h h' ∧ host_ok h' ∧ (authority_changed h h' = true → h_authority_expires_at h' = None)
  ∧ (h_epoch h' = h_epoch h
     ∨ ∀ c, c ∈ credentials r → cred_host_id c = h_id h → is_Some (cred_revoked_at c)).

Lemma authority_ok_None h : h_authority_expires_at h = None → authority_ok h.
Proof. intros E t Ht. congruence. Qed.

Lemma inventory_matches_incomplete h : h_inventory_complete h = false → inventory_matches h = true.
Proof. intros E. unfold inventory_matches. by rewrite E. Qed.

Lemma authority_unchanged h h' :
  h_epoch h' = h_epoch h → h_agent_session_id h' = h_agent_session_id h →
  h_boot_id h' = h_boot_id h → h_authority_incarnation h' = h_authority_incarnation h →
  authority_changed h h' = false.
Proof.
  intros E1 E2 E3 E4. unfold authority_changed. rewrite E1, E2, E3, E4, Z.eqb_refl.
  by rewrite !bool_decide_eq_true_2.
Qed.

(** The columns [host_ok] reads. *)
Definition host_core (h : HostRow) :=
  (h_epoch h, h_lifecycle_state h, h_enrollment_state h, h_integrity_state h,
   (h_agent_session_id h, h_boot_id h, h_authority_incarnation h, h_authority_expires_at h),
   (h_inventory_complete h, h_last_inventory_at h, h_inventory_epoch h, h_inventory_session_id h,
    h_inventory_boot_id h)).

Lemma host_ok_core h h' : host_core h' = host_core h → host_ok h → host_ok h'.
Proof.
  intros [= E1 E2 E3 E4 E5 E6 E7 E8 E9 E10 E11 E12 E13].
  unfold host_ok, inventory_matches, authority_ok, may_work.
  by rewrite E1, E2, E3, E4, E5, E6, E7, E8, E9, E10, E11, E12, E13.
Qed.

(** Nothing that matters here changes. *)
Lemma host_step_core r h h' :
  host_ok h → host_core h' = host_core h → h_id h' = h_id h → h_revision h ≤ h_revision h' →
  host_step r h h'.
Proof.
  intros Hok E Ei Er. assert (host_core h' = host_core h) as E' by done.
  injection E' as E1 E2 E3 E4 E5 E6 E7 E8 E9 E10 E11 E12 E13.
  split; [split_and!; [done|lia|done|congruence]|]. split; [by eapply host_ok_core|].
  split; [by rewrite authority_unchanged|by left].
Qed.

(** What an update that ends work authority may do. *)
Lemma host_step_quiet r h h' :
  host_ok h → h_id h' = h_id h → h_epoch h' = h_epoch h → h_revision h ≤ h_revision h' →
  (h_lifecycle_state h = IntRetired → h_lifecycle_state h' = IntRetired) →
  (h_lifecycle_state h' = IntActive → h_enrollment_state h' = EnrApproved) →
  h_authority_expires_at h' = None → inventory_matches h' = true → host_step r h h'.
Proof.
  intros (_ & He & _) Ei Ee Er Hl Ha Hx Hi. split; [split_and!; [done|lia|lia|done]|].
  split; [split_and!; [done|lia..|done|by apply authority_ok_None]|]. split; [done|by left].
Qed.

Lemma invalidate_inventory_same h h' :
  h_id (invalidate_inventory h h') = h_id h' ∧ h_epoch (invalidate_inventory h h') = h_epoch h'
  ∧ h_revision (invalidate_inventory h h') = h_revision h'
  ∧ h_lifecycle_state (invalidate_inventory h h') = h_lifecycle_state h'
  ∧ h_enrollment_state (invalidate_inventory h h') = h_enrollment_state h'
  ∧ h_authority_expires_at (invalidate_inventory h h') = h_authority_expires_at h'.
Proof. unfold invalidate_inventory. by case_match. Qed.

Lemma host_ok_invalidate h h' :
  host_ok h' → (authority_changed h h' = true → h_authority_expires_at h' = None) →
  host_ok (invalidate_inventory h h').
Proof.
  intros (? & ? & ? & ?) Hx. unfold invalidate_inventory. case_match; [|done].
  split; [done|]. split; [done|]. split; [done|]. by apply authority_ok_None, Hx.
Qed.

Lemma good_update_hosts r q f :
  (∀ h, h ∈ hosts r → host_ok h → q h = true → host_step r h (f h)) → good r (update_hosts q f r).
Proof.
  intros Hf0 Hr. set (f' := λ h, invalidate_inventory h (f h)).
  assert (∀ h, h ∈ hosts r → q h = true → host_le h (f' h) ∧ host_ok (f' h) ∧
    (h_epoch (f' h) = h_epoch h ∨
     ∀ c, c ∈ credentials r → cred_host_id c = h_id h → is_Some (cred_revoked_at c))) as Hf.
  { intros h Hh Hq. destruct (Hf0 h Hh (wf_host _ Hr _ Hh) Hq) as ((? & ? & ? & ?) & ? & ? & ?).
    destruct (invalidate_inventory_same h (f h)) as (Ei & Ee & Er & El & _ & _). unfold f', host_le.
    rewrite Ei, Ee, Er, El. split; [done|]. split; [by apply host_ok_invalidate|done]. }
  assert (hosts (update_hosts q f r) = update_where q f' (hosts r)) as EH by done.
  split; [|split; [rewrite EH; apply kept_update; [apply _|intros h Hh Hq; by apply Hf]|done..]].
  destruct Hr as [Hnd Ha ? ? ? Hc]. split; try done; rewrite ?EH.
  - rewrite update_where_fmap_in; [done|]. intros h Hh Hq. by apply Hf.
  - intros h' (h & Hh & ->)%elem_of_update_where. destruct (q h) eqn:E; [by apply Hf|by apply Ha].
  - intros c Hin. destruct (Hc c Hin) as (? & ? & ? & h & Hh & Ei & Ee).
    split; [done|]. split; [done|]. split; [done|]. exists (if q h then f' h else h).
    rewrite EH. split; [apply elem_of_update_where; eauto|].
    destruct (q h) eqn:E; [|done]. destruct (Hf h Hh E) as ((Hi & _) & _ & Hep).
    split; [congruence|]. intros Hrev. destruct Hep as [->|Hall]; [by apply Ee|].
    destruct (Hall c Hin) as [t Ht]; congruence.
Qed.

Lemma good_bump_hosts r r' q f :
  (∀ h, h ∈ hosts r → host_ok h → q h = true → host_step r h (f h)) →
  bump_hosts q f r = Ok r' → good r r'.
Proof.
  intros Hf E. unfold bump_hosts in E. inv_result. apply good_update_hosts.
  intros h Hh Hok Hq. destruct (Hf h Hh Hok Hq) as ((? & ? & ? & ?) & ? & ? & ?).
  split; [split_and!; [done|done|simpl; lia|done]|]. split; [by eapply host_ok_core|]. by split.
Qed.

Lemma good_update_credentials r q f :
  (∀ c, c ∈ credentials r → q c = true → cred_le c (f c)) → good r (update_credentials q f r).
Proof.
  intros Hf Hr. assert (credentials (update_credentials q f r) = update_where q f (credentials r)) as EC by done.
  assert (∀ c', c' ∈ update_where q f (credentials r) → ∃ c, c ∈ credentials r ∧ cred_le c c') as Hcases.
  { intros c' (c & Hc & ->)%elem_of_update_where. exists c. split; [done|].
    destruct (q c) eqn:E; [by apply Hf|done]. }
  split; [|split; [done|rewrite EC; apply kept_update; [apply _|done]|done..]].
  destruct Hr as [? ? Hi Hv Hg Hc]. split; try done; rewrite ?EC.
  1-3: rewrite update_where_fmap_in; [done|]; intros c Hin Hq;
    destruct (cred_le_fields _ _ (Hf c Hin Hq)) as (? & ? & ? & ? & ?); congruence.
  - intros c' Hin. destruct (Hcases c' Hin) as (c & Hcc & Hle).
    destruct (cred_le_fields _ _ Hle) as (Ei & Eh & Eg & Ee & Ev). destruct Hle as [_ R].
    destruct (Hc c Hcc) as (? & ? & ? & h & ? & ? & Hep). unfold cred_ok.
    rewrite Ei, Eh, Eg, Ee. split; [done|]. split; [done|]. split; [done|].
    exists h. split_and!; [done|done|]. intros Hn. apply Hep.
    destruct (cred_revoked_at c) as [t|] eqn:Et; [by rewrite (R t) in Hn|done].
Qed.

Lemma good_revoke_credentials r host q now : good r (revoke_credentials host q now r).
Proof.
  apply good_update_credentials. intros c _ Hq. bool_to_prop. split; [done|].
  intros t Ht. unfold is_null in *. by rewrite Ht in *.
Qed.

Lemma good_insert_credential r r' c :
  (∃ u, is_uuid u ∧ cred_id c = to_string u) → cred_generation c ≤ i64_max →
  (∃ h, h ∈ hosts r ∧ h_id h = cred_host_id c ∧ cred_host_epoch c = h_epoch h) →
  insert_credential c r = Ok r' → good r r'.
Proof.
  intros Hid Hmax (h & Hh & Eh & Ee) E Hr. unfold insert_credential in E. inv_result. bool_to_prop.
  match goal with H : exists_row _ _ = false |- _ => rename H into Hnew end.
  rewrite exists_row_false in Hnew.
  assert (∀ x, x ∈ credentials r → cred_id x ≠ cred_id c ∧ cred_verifier x ≠ cred_verifier c ∧
    (cred_host_id x, cred_generation x) ≠ (cred_host_id c, cred_generation c)) as Hfresh.
  { intros x Hx. specialize (Hnew x Hx). simpl in Hnew. bool_to_prop. split_and!; [done|done|].
    intros [= E1 E2]. by rewrite E1, E2, String.eqb_refl, Z.eqb_refl in *. }
  split; [|split; try done; by apply kept_app, _].
  destruct Hr as [? ? ? ? ? Hc]. split; simpl; try done.
  1-3: apply NoDup_snoc; [done|]; intros x Hx; by apply Hfresh.
  intros x [Hx| ->]%elem_of_snoc; [by apply Hc|]. split; [done|]. split; [lia|]. split; [lia|].
  by exists h.
Qed.

Lemma good_insert_host r r' h :
  host_ok h → insert_host h r = Ok r' → good r r'.
Proof.
  intros Hok E Hr. unfold insert_host in E. inv_result.
  match goal with H : exists_row _ _ = false |- _ => rewrite exists_row_false in H; rename H into Hnew end.
  split; [|split; try done; by apply kept_app, _].
  destruct Hr as [? Ha ? ? ? Hc]. split; simpl; try done.
  - apply NoDup_snoc; [done|]. intros x Hx. specialize (Hnew x Hx). unfold host_named in Hnew.
    by bool_to_prop.
  - intros x [Hx| ->]%elem_of_snoc; [by apply Ha|done].
  - intros c Hin. destruct (Hc c Hin) as (? & ? & ? & x & Hx & ?). split; [done|]. split; [done|].
    split; [done|]. exists x. split; [|done]. apply elem_of_app. by left.
Qed.

Lemma good_insert_enrollment r r' e : insert_enrollment e r = Ok r' → good r r'.
Proof.
  intros E Hr. unfold insert_enrollment in E. inv_result. bool_to_prop.
  match goal with H : exists_row _ _ = false |- _ => rename H into Hnew end.
  rewrite exists_row_false in Hnew.
  split; [|split; try done; by apply kept_app, _].
  destruct Hr. split; simpl; try done; (apply NoDup_snoc; [done|]); intros x Hx;
    specialize (Hnew x Hx); simpl in Hnew; by bool_to_prop.
Qed.

Lemma good_update_enrollments r q f :
  (∀ e, e ∈ host_enrollments r → q e = true → enr_le e (f e)) →
  good r (r <| host_enrollments ::= update_where q f |>).
Proof.
  intros Hf Hr. split; [|split; try done; apply kept_update; [apply _|done]].
  destruct Hr. split; simpl; try done; (rewrite update_where_fmap_in; [done|]);
    intros e He Hq; destruct (Hf e He Hq) as ([=] & _); congruence.
Qed.

Lemma good_consume_row r r' id host now : consume_row id host now r = Ok r' → good r r'.
Proof.
  intros E. unfold consume_row in E. inv_result. apply good_update_enrollments.
  intros e _ Hq. bool_to_prop. split; [done|]. split; [|done].
  intros t Ht. unfold is_null in *. by rewrite Ht in *.
Qed.

(** What an [UPDATE host_credential_rotations] may do to a row. *)
Definition rot_step (o o' : RotationRow) : Prop :=
  rot_le o o' ∧ rot_shape o' ∧ (open_phase (ro_phase o') = true → open_phase (ro_phase o) = true).

Lemma good_update_rotations r q f :
  (∀ o, o ∈ host_credential_rotations r → rot_ok o → q o = true → rot_step o (f o)) →
  good r (update_rotations q f r).
Proof.
  intros Hf0 Hr. assert (∀ o, o ∈ host_credential_rotations r → q o = true → rot_step o (f o)) as Hf.
  { intros o Ho. apply Hf0; [done|]. by apply Hr. }
  assert (∀ o', o' ∈ update_where q f (host_credential_rotations r) → ∃ o,
    o ∈ host_credential_rotations r ∧ (o' = o ∨ rot_step o o')) as Hcases.
  { intros o' (o & Ho & ->)%elem_of_update_where. exists o. split; [done|].
    destruct (q o) eqn:E; [right; by apply Hf|by left]. }
  assert (∀ o', o' ∈ update_where q f (host_credential_rotations r) → ∃ o,
    o ∈ host_credential_rotations r ∧ rot_identity o' = rot_identity o
    ∧ (open_phase (ro_phase o') = true → open_phase (ro_phase o) = true)) as Hback.
  { intros o' Ho'. destruct (Hcases o' Ho') as (o & Ho & [->|((? & _) & _ & ?)]); eauto. }
  split; [|split; try done; apply kept_update; [apply _|intros o Ho Hq; by apply Hf]].
  destruct Hr as [? ? ? ? ? Hc ? ? ? Hro Hop]. split; simpl; try done.
  - rewrite update_where_fmap_in; [done|]. intros o Ho Hq. by destruct (Hf o Ho Hq) as (([=] & _) & _).
  - intros o' Ho'. destruct (Hcases o' Ho') as (o & Ho & [->|Hs]); [by apply Hro|].
    destruct (Hro o Ho) as (_ & ? & ?). destruct Hs as (([=] & _) & ? & _). split; [done|]. lia.
  - intros o1 o2 Hi1 Hi2 Eh Ho1 Ho2. destruct (Hback o1 Hi1) as (p1 & Hp1 & [=] & Hpo1).
    destruct (Hback o2 Hi2) as (p2 & Hp2 & [=] & Hpo2).
    assert (ro_id p1 = ro_id p2); [apply Hop; auto; congruence|congruence].
Qed.

Lemma good_insert_rotation r r' o :
  rot_ok o → insert_rotation o r = Ok r' → good r r'.
Proof.
  intros Hok E Hr. unfold insert_rotation in E. inv_result. bool_to_prop.
  match goal with H : exists_row _ _ = false |- _ => rename H into Hnew end.
  rewrite exists_row_false in Hnew.
  assert (∀ x, x ∈ host_credential_rotations r → ro_id x ≠ ro_id o
    ∧ (ro_host_id x = ro_host_id o → open_phase (ro_phase x) = false)) as Hfresh.
  { intros x Hx. specialize (Hnew x Hx). simpl in Hnew. bool_cases; by split. }
  split; [|split; try done; by apply kept_app, _].
  destruct Hr as [? ? ? ? ? Hc ? ? ? Hro Hop]. split; simpl; try done.
  - apply NoDup_snoc; [done|]. intros x Hx. by apply Hfresh.
  - intros x [Hx| ->]%elem_of_snoc; [by apply Hro|done].
  - intros o1 o2 [Hi1| ->]%elem_of_snoc [Hi2| ->]%elem_of_snoc Eh Ho1 Ho2; [by apply Hop| | |done].
    + rewrite (proj2 (Hfresh o1 Hi1) Eh) in Ho1. done.
    + rewrite (proj2 (Hfresh o2 Hi2) (eq_sym Eh)) in Ho2. done.
Qed.

(** Revoking an open rotation. *)
Lemma rot_step_revoke o now :
  rot_ok o → open_phase (ro_phase o) = true →
  rot_step o (o <| ro_phase := PhaseRevoked |> <| ro_revoked_at := Some now |>).
Proof.
  intros (Hs & _) Hop. split; [split; [done|split; [by rewrite Hop|done]]|].
  split; [|done]. unfold rot_shape in *. simpl. split; [by eexists|].
  destruct (ro_phase o); simplify_eq/=; naive_solver.
Qed.

Lemma good_revoke_rotations r q action now host :
  (∀ o, q o = true → open_phase (ro_phase o) = true) → good r (revoke_rotations q action now r host).
Proof.
  intros Hq. unfold revoke_rotations.
  generalize (ro_id <$> select (λ o, String.eqb (ro_host_id o) host && q o) (host_credential_rotations r)).
  intros ids. revert r. induction ids as [|id ids IH]; intros r; simpl; [reflexivity|].
  etrans; [|apply IH]. unfold close_rotation. case_match; [|reflexivity].
  etrans; [apply good_update_rotations|apply good_audit].
  intros o _ Hok Ho. simpl in Ho. bool_to_prop. apply rot_step_revoke; auto.
Qed.

Lemma good_revoke_open r host now action : good r (revoke_open_rotations r host now action).
Proof. by apply good_revoke_rotations. Qed.

Lemma good_revoke_expired r host now : good r (revoke_expired_rotations r host now).
Proof. apply good_revoke_rotations. intros o Ho. bool_to_prop. by rewrite H0. Qed.
End statements.

(** ** Operations *)
Section operations.
Context `{UuidText, Codec, ScopeJson}.
Implicit Types r : Registry.

Lemma max_over_ge {A} (f : A → Z) l a : a ∈ l → f a ≤ max_over f l.
Proof. induction 1; simpl; lia. Qed.

Lemma last_generation_credential r c :
  c ∈ credentials r → cred_generation c ≤ last_generation r (cred_host_id c).
Proof.
  intros Hc. unfold last_generation.
  assert (cred_generation c ≤ max_over cred_generation (select (λ x,
    String.eqb (cred_host_id x) (cred_host_id c)) (credentials r))); [|lia].
  apply max_over_ge, elem_of_select. by rewrite String.eqb_refl.
Qed.

Lemma next_generation_Ok r host g :
  next_generation r host = Ok g → last_generation r host < g ≤ i64_max.
Proof. unfold next_generation, i64_checked_add. intros E. inv_result. bool_to_prop. lia. Qed.

Lemma host_of_Some r id h : host_of r id = Some h → h ∈ hosts r ∧ h_id h = id.
Proof. intros [? ?]%fetch_Some. unfold host_named in *. by bool_to_prop. Qed.

Lemma same_host r h h' :
  reg_wf r → h ∈ hosts r → h' ∈ hosts r → h_id h = h_id h' → h = h'.
Proof. intros Hr Hh Hh'. by eapply unique_by; [apply wf_hosts|..]. Qed.

Lemma good_issue_enrollment r r' principal request secret id now issue :
  issue_enrollment r principal request secret id now = Ok (r', issue) → good r r'.
Proof.
  unfold issue_enrollment. intros E. inv_result. destruct (issued_before _ _ _); inv_result.
  - by simplify_eq.
  - simplify_eq. etrans; [by eapply good_insert_enrollment|apply good_audit].
Qed.

Lemma good_revoke_enrollment r r' principal id now :
  revoke_enrollment r principal id now = Ok r' → good r r'.
Proof.
  unfold revoke_enrollment. intros E. inv_result. case_match; inv_result; [done|].
  etrans; [apply good_update_enrollments|apply good_audit].
  intros e _ Hq. simpl in Hq. bool_to_prop. split; [done|]. split; [intros t Ht; by split|].
  intros t Ht. unfold is_null in *. by rewrite Ht in *.
Qed.

Lemma good_recover_host r r' principal request secret id now issue :
  recover_host r principal request secret id now = Ok (r', issue) → good r r'.
Proof.
  unfold recover_host. intros E. inv_result. destruct (issued_before _ _ _); inv_result.
  - by simplify_eq.
  - simplify_eq. etrans; [by eapply good_insert_enrollment|apply good_audit].
Qed.

Lemma good_wf r r' : (reg_wf r → good r r') → good r r'.
Proof. intros Hg Hr. by apply Hg. Qed.

(** The host an operation loaded is the row its [UPDATE] changes. *)
Lemma host_of_unique r id h x :
  reg_wf r → host_of r id = Some h → x ∈ hosts r → host_named id x = true → x = h.
Proof.
  intros Hr [Hh Ei]%host_of_Some Hx Hn. unfold host_named in Hn. bool_to_prop.
  eapply same_host; [done..|congruence].
Qed.

Lemma good_set_host_lifecycle r r' principal host_id expected intent now :
  set_host_lifecycle r principal host_id expected intent now = Ok r' → good r r'.
Proof.
  unfold set_host_lifecycle. intros E. inv_result. case_match; inv_result; [done|].
  apply good_wf. intros Hr. etrans; [|apply good_audit]. eapply good_bump_hosts; [|done].
  intros h Hh Hok Hq. simpl in Hq. bool_to_prop.
  assert (h = x1) as -> by by eapply (host_of_unique r).
  destruct (bool_decide (intent = IntActive) || bool_decide (intent = IntDraining)) eqn:Hworks.
  - destruct Hok as (? & ? & Hi & Hau). split; [split_and!; simpl; done|].
    split; [|split; [by rewrite authority_unchanged|by left]].
    split; [done|]. split; [done|]. split; [done|]. intros t Ht. destruct (Hau t Ht) as (session & ? & Hw).
    exists session. split; [done|]. unfold may_work in *. simpl. rewrite Hworks.
    rewrite !andb_true_iff in *. tauto.
  - apply host_step_quiet; try done. apply Hok.
Qed.

Lemma good_retire_host r r' w principal host_id expected now :
  retire_host r w principal host_id expected now = Ok r' → good r r'.
Proof.
  unfold retire_host. intros E. inv_result. case_match; inv_result; [done|].
  apply good_wf. intros Hr. etrans; [|apply good_audit].
  etrans; [|apply good_revoke_credentials]. eapply good_bump_hosts; [|done].
  intros h Hh Hok Hq. simpl in Hq. bool_to_prop. apply host_step_quiet; try done. apply Hok.
Qed.

Lemma good_set_backend_enabled r r' principal host_id backend_id enabled now :
  set_backend_enabled r principal host_id backend_id enabled now = Ok r' → good r r'.
Proof.
  unfold set_backend_enabled. intros E. inv_result. etrans; [|apply good_audit]. by apply good_same.
Qed.

(** Grants are the only thing a grant statement changes. *)
Definition grants_only r r' : Prop := ∃ g, r' = r <| rg_policy ::= (λ p, p <| host_target_grants ::= g |>) |>.

Lemma bump_grants_only r r' q f : bump_grants q f r = Ok r' → grants_only r r'.
Proof. unfold bump_grants. intros E. inv_result. by eexists. Qed.

Lemma approve_target_only host user r r' target :
  approve_target host user r target = Ok r' → grants_only r r'.
Proof.
  unfold approve_target. intros E. repeat case_match; inv_result.
  - by eapply bump_grants_only.
  - exists id. by destruct r' as [[]].
  - by eexists.
Qed.

Lemma grants_only_trans r1 r2 r3 : grants_only r1 r2 → grants_only r2 r3 → grants_only r1 r3.
Proof. intros [f ->] [g ->]. by exists (λ l, g (f l)). Qed.

Lemma good_grants_only r r' : grants_only r r' → good r r'.
Proof. intros [g ->]. by apply good_same. Qed.

Lemma good_set_host_grant r r' principal host_id target a b c now :
  set_host_grant r principal host_id target a b c now = Ok r' → good r r'.
Proof.
  unfold set_host_grant. intros E. inv_result. etrans; [|apply good_audit].
  apply good_grants_only. case_match; inv_result; [by eapply bump_grants_only|by eexists].
Qed.

Lemma approve_targets_only host user r r' l :
  try_fold (approve_target host user) r l = Ok r' → grants_only r r'.
Proof.
  revert r. induction l as [|t l IH]; simpl; intros r E; inv_result.
  - exists id. by destruct r' as [[]].
  - eapply grants_only_trans; [by eapply approve_target_only|by apply IH].
Qed.

Lemma good_approve_host r r' principal request now :
  approve_host r principal request now = Ok r' → good r r'.
Proof.
  unfold approve_host. intros E. inv_result.
  match goal with H : try_fold (approve_target _ _) _ _ = _ |- _ => rename H into Hfold end.
  set (r1 := r <| rg_policy ::= _ |>) in Hfold.
  assert (grants_only r r1) as H01 by by eexists.
  pose proof (grants_only_trans _ _ _ H01 (approve_targets_only _ _ _ _ _ Hfold)) as H02.
  apply good_wf. intros Hr. etrans; [by apply good_grants_only|].
  etrans; [|apply good_audit]. apply good_wf. intros Hr2. eapply good_bump_hosts; [|done].
  intros h Hh Hok Hq. simpl in Hq. bool_to_prop.
  assert (h = x1) as ->. { destruct H02 as [g ->]. by eapply (host_of_unique r). }
  apply host_step_quiet; try done; [|apply Hok]. simpl.
  destruct (h_authority_expires_at x1) as [t|] eqn:Ht; [|done]. destruct Hok as (_ & _ & _ & Hau).
  destruct (Hau t Ht) as (? & _ & Hw). unfold may_work in Hw. bool_to_prop. congruence.
Qed.

Lemma revoke_rotations_frame r q action now host :
  rg_policy (revoke_rotations q action now r host) = rg_policy r
  ∧ host_enrollments (revoke_rotations q action now r host) = host_enrollments r.
Proof.
  unfold revoke_rotations. apply fold_left_ind; [|done]. intros s id _ [E1 E2].
  unfold close_rotation. by case_match.
Qed.

Lemma generation_from_i64_Ok v g : generation_from_i64 v = Ok g → g = v ∧ 1 ≤ v.
Proof.
  unfold generation_from_i64, u64_try_from, Generation_new, counter_try_from. intros E. inv_result.
  repeat case_match; inv_result; bool_to_prop; lia.
Qed.

Lemma good_request_rotation r r' principal request operation_id now receipt :
  request_rotation r principal request operation_id now = Ok (r', receipt) → good r r'.
Proof.
  unfold request_rotation. intros E. inv_result. case_match; inv_result; [by simplify_eq|].
  destruct (revoke_rotations_frame r (λ o, bool_decide (ro_phase o = PhaseRequested)
    && (ro_expires_at o <=? now)) "fleet.credential.rotation_expired" now
    (to_string (rr_host_id request))) as [Ep _].
  fold (revoke_expired_rotations r (to_string (rr_host_id request)) now) in Ep.
  simplify_eq. etrans; [|apply good_audit]. etrans; [apply good_revoke_expired|].
  apply good_wf. intros Hr1. eapply good_insert_rotation; [|done].
  match goal with H : fetch _ _ = Some ?c |- _ => apply fetch_Some in H as [Hc Hq] end.
  match goal with H : next_generation _ _ = Ok _ |- _ => apply next_generation_Ok in H as Hn end.
  pose proof (last_generation_credential _ _ Hc) as Hl.
  destruct (wf_creds _ Hr1 _ Hc) as (_ & Hg & _). simpl in Hq. bool_to_prop.
  split; [done|]. simpl. subst. match goal with H : cred_host_id _ = _ |- _ => rewrite H in Hl end. lia.
Qed.

Lemma good_exchange_rotation r r' auth operation_id next_secret credential_id now receipt :
  is_uuid credential_id →
  exchange_rotation r auth operation_id next_secret credential_id now = Ok (r', receipt) → good r r'.
Proof.
  unfold exchange_rotation. intros Hid E. inv_result.
  match goal with H : rotation_of r _ = Some ?o |- _ => apply fetch_Some in H as [Ho Eo] end.
  case_match; inv_result; [by simplify_eq|]. simplify_eq.
  match goal with H : host_of r _ = Some ?h |- _ => apply host_of_Some in H as [Hh Ei] end.
  repeat match goal with H : generation_from_i64 _ = Ok _ |- _ =>
    apply generation_from_i64_Ok in H as [-> ?] end.
  apply good_wf. intros Hr. destruct (wf_rots _ Hr _ Ho) as (_ & ? & ?).
  etrans; [eapply good_insert_credential; [| | |done]|]; simpl; [by eexists|lia|by eexists|].
  etrans; [|apply good_audit].
  etrans; [|apply good_update_rotations]; [by apply good_update_credentials|]. intros o _ Hok Hq. simpl in Hq. bool_to_prop.
  match goal with H : ro_phase o = PhaseRequested |- _ => rename H into Hph end.
  destruct Hok as (Hs & _). unfold rot_shape in Hs. rewrite Hph in Hs.
  destruct Hs as (Hv & ? & ? & ?). split; [|split; [|by rewrite Hph]].
  - split; [done|]. rewrite Hph, Hv. done.
  - split_and!; try done; by eexists.
Qed.

Lemma good_acknowledge_rotation r r' auth operation_id now receipt :
  acknowledge_rotation r auth operation_id now = Ok (r', receipt) → good r r'.
Proof.
  unfold acknowledge_rotation. intros E. inv_result. case_match; inv_result; [by simplify_eq|].
  simplify_eq. etrans; [|apply good_audit].
  etrans; [|apply good_wf; intros Hr; eapply good_bump_hosts; [|done]].
  - etrans; [|apply good_revoke_credentials]. etrans; [|apply good_update_credentials]; [|done].
    apply good_update_rotations. intros o _ Hok Hq. simpl in Hq. bool_to_prop.
    match goal with H : ro_phase o = PhaseExchanged |- _ => rename H into Hph end.
    destruct Hok as (Hs & _). unfold rot_shape in Hs. rewrite Hph in Hs.
    destruct Hs as (Hv & ? & ? & ? & ?). split; [|split; [|by rewrite Hph]].
    + split; [done|]. by rewrite Hph.
    + split; [by eexists|done].
  - intros h Hh Hok Hq. by apply host_step_core.
Qed.

Lemma good_revoke_credential r r' principal host_id generation now :
  revoke_credential r principal host_id generation now = Ok r' → good r r'.
Proof.
  unfold revoke_credential. intros E. inv_result. etrans; [|apply good_audit].
  apply good_wf. intros Hr0. etrans; [apply good_revoke_credentials|].
  etrans; [apply good_revoke_open|]. case_match; inv_result; [done|]. bool_to_prop.
  apply good_wf. intros Hr. eapply good_bump_hosts; [|done]. intros h Hh Hok Hq.
  unfold revoke_open_rotations in Hh. rewrite (proj1 (revoke_rotations_frame _ _ _ _ _)) in Hh.
  assert (h = x1) as -> by by eapply (host_of_unique r). by apply host_step_quiet.
Qed.

Lemma revoked_all r host now c :
  c ∈ credentials (revoke_credentials host (λ _, true) now r) → cred_host_id c = host →
  is_Some (cred_revoked_at c).
Proof.
  intros (x & Hx & ->)%elem_of_update_where Eh. case_match eqn:Hq; [by eexists|].
  rewrite Eh, String.eqb_refl in Hq. unfold is_null in Hq. by case_match.
Qed.

Lemma consume_row_policy r r' id host now :
  consume_row id host now r = Ok r' → rg_policy r' = rg_policy r.
Proof. unfold consume_row. intros E. by inv_result. Qed.

Lemma update_hosts_in r q f h :
  h ∈ hosts r → q h = true →
  ∃ h', h' ∈ hosts (update_hosts q f r) ∧ h_id h' = h_id (f h) ∧ h_epoch h' = h_epoch (f h)
        ∧ h_lifecycle_state h' = h_lifecycle_state (f h)
        ∧ h_enrollment_state h' = h_enrollment_state (f h).
Proof.
  intros Hh Hq. exists (invalidate_inventory h (f h)).
  destruct (invalidate_inventory_same h (f h)) as (-> & -> & _ & -> & -> & _).
  split; [|done]. apply elem_of_update_where. exists h. by rewrite Hq.
Qed.

Lemma bump_hosts_in r r' q f h :
  bump_hosts q f r = Ok r' → h ∈ hosts r → q h = true →
  ∃ h', h' ∈ hosts r' ∧ h_id h' = h_id (f h) ∧ h_epoch h' = h_epoch (f h)
        ∧ h_lifecycle_state h' = h_lifecycle_state (f h)
        ∧ h_enrollment_state h' = h_enrollment_state (f h).
Proof.
  unfold bump_hosts. intros E Hh Hq. inv_result.
  exact (update_hosts_in r q (λ h, f h <| h_revision ::= Z.succ |>) h Hh Hq).
Qed.

Lemma good_consume_recovery r r' e credential credential_id now receipt :
  is_uuid credential_id →
  consume_recovery r e credential credential_id now = Ok (r', receipt) → good r r'.
Proof.
  intros Hid E. unfold consume_recovery in E. inv_result. simplify_eq.
  set (host := to_string x0) in *. bool_to_prop. apply good_wf. intros Hr.
  match goal with H : consume_row _ _ _ ?s = Ok _ |- _ => set (r2 := s) in *; rename H into Hc end.
  assert (rg_policy r2 = rg_policy (revoke_credentials host (λ _, true) now r)) as Ep2.
  { unfold r2, revoke_credentials, update_credentials, revoke_open_rotations. simpl.
    by rewrite (proj1 (revoke_rotations_frame _ _ _ _ _)). }
  pose proof (consume_row_policy _ _ _ _ _ Hc) as Ep.
  match goal with H : host_of r host = Some _ |- _ => rename H into Hhost end.
  match goal with H : bump_hosts _ _ _ = Ok _ |- _ => rename H into Hbump end.
  etrans; [apply good_revoke_open|]. etrans; [apply good_revoke_credentials|].
  etrans; [by eapply good_consume_row|]. apply good_wf. intros Hr3.
  etrans; [eapply good_bump_hosts; [|done]|].
  - intros h Hh Hok Hq. simpl in Hq. bool_to_prop. rewrite Ep, Ep2 in Hh.
    assert (h = x3) as -> by by eapply (host_of_unique r).
    match goal with H : i64_checked_add _ 1 = Some _ |- _ =>
      unfold i64_checked_add in H; inv_result; bool_to_prop end.
    split; [|split; [|split; [done|right]]].
    + split_and!; simpl; try done; lia.
    + destruct Hok as (_ & ? & _). split; [done|]. split; [simpl; lia|]. split; [done|].
      by apply authority_ok_None.
    + intros c. rewrite Ep, Ep2. intros Hin Eh. eapply revoked_all; [done|].
      apply host_of_Some in Hhost as [_ Ei]. congruence.
  - etrans; [|apply good_audit]. eapply good_insert_credential; [| | |done]; simpl.
    + by eexists.
    + match goal with H : next_generation _ _ = Ok _ |- _ => apply next_generation_Ok in H end. lia.
    + assert (x3 ∈ hosts x6 ∧ h_id x3 = host) as [Hin Ei].
      { rewrite Ep, Ep2. by apply host_of_Some. }
      edestruct (bump_hosts_in _ _ _ _ x3 Hbump) as (h' & ? & Ei' & Ee' & _); [done| |].
      { unfold host_named. rewrite Ei, String.eqb_refl. simpl. apply andb_true_iff.
        split; by apply Z.eqb_eq. }
      exists h'. simpl in *. by rewrite Ei', Ee'.
Qed.

Lemma new_host_ok host registration : host_ok (new_host host registration).
Proof. split_and!; try done; by apply authority_ok_None. Qed.

Lemma good_consume_normal r r' e registration credential host_id domain_id credential_id now receipt :
  is_uuid credential_id →
  consume_normal r e registration credential host_id domain_id credential_id now = Ok (r', receipt) →
  good r r'.
Proof.
  intros Hid E. unfold consume_normal in E. inv_result. simplify_eq.
  set (host := to_string host_id) in *.
  match goal with H : insert_root_domain _ _ ?s = Ok _ |- _ =>
    rename H into Hdom; unfold insert_root_domain in Hdom; inv_result end.
  match goal with H : insert_host _ _ = Ok _ |- _ => rename H into Hins end.
  etrans; [apply (good_insert_host _ _ (new_host host registration)); [apply new_host_ok|exact Hins]|].
  etrans; [|apply good_audit].
  etrans; [|apply good_wf; intros Hr; apply good_update_hosts; intros h Hh Hok Hq].
  - etrans; [|by eapply good_consume_row]. etrans; [|eapply good_insert_credential; [| | |done]].
    + by apply good_same.
    + by eexists.
    + by compute.
    + unfold insert_host in Hins. inv_result. simpl. exists (new_host host registration).
      split; [|done]. apply elem_of_app. right. left.
  - by apply host_step_core.
Qed.

Lemma good_consume_enrollment r r' code registration secret host_id domain_id credential_id now receipt :
  is_uuid credential_id →
  consume_enrollment r code registration secret host_id domain_id credential_id now = Ok (r', receipt) →
  good r r'.
Proof.
  intros Hid E. unfold consume_enrollment in E. inv_result. case_match; inv_result.
  - by eapply good_consume_normal.
  - by eapply good_consume_recovery.
Qed.
End operations.
