(* ===== verification/ObservationSpec.v ===== *)
(** * What observation guarantees

    Handshake, heartbeat and inventory keep the registry well formed, and the
    properties that make them safe: one live session per host, a second
    machine behind one credential is quarantined, an agent's report changes
    observations and unset budgets but no policy, and the walks over the
    reported domain graph end. *)
From S2P Require Import Prelude Base64 Ids Domain Protocol Outcomes Capabilities Inventory Crypto Store Service Admission Commands RegistryStore Registry Observation Reconcile RegistrySpec.
#[local] Open Scope string_scope.
#[local] Open Scope Z_scope.

(** ** Statements on sessions *)
Section sessions.
Context `{UuidText}.
Implicit Types r : Registry.

Lemma good_update_sessions r q f :
  (∀ x, x ∈ fleet_observation_sessions r → q x = true → sess_le x (f x)) →
  good r (update_sessions q f r).
Proof.
  intros Hf Hr. assert (kept sess_le (fleet_observation_sessions r)
    (update_where q f (fleet_observation_sessions r))) as Hk by (apply kept_update; [apply _|done]).
  assert (∀ x', x' ∈ update_where q f (fleet_observation_sessions r) → ∃ x,
    x ∈ fleet_observation_sessions r ∧ sess_le x x') as Hback.
  { intros x' (x & Hx & ->)%elem_of_update_where. exists x. split; [done|].
    destruct (q x) eqn:E; [by apply Hf|done]. }
  assert (∀ x x', sess_le x x' → ob_ended_at x' = None → ob_ended_at x = None) as Hlive.
  { intros x x' (_ & Ht & _) E. destruct (ob_ended_at x) as [t|]; [|done].
    rewrite (Ht t) in E; done. }
  split; [|by split]. destruct Hr as [? ? ? ? ? Hc ? ? ? ? ? ? Hl]. split; simpl; try done.
  - rewrite update_where_fmap_in; [done|]. intros x Hx Hq. by destruct (Hf x Hx Hq) as ([=] & _).
  - intros x1 x2 Hi1 Hi2 Eh Hn1 Hn2. destruct (Hback x1 Hi1) as (y1 & Hy1 & Hle1).
    destruct (Hback x2 Hi2) as (y2 & Hy2 & Hle2).
    assert (ob_session_id y1 = ob_session_id y2) as E; [apply Hl; try done|].
    + by destruct Hle1 as ([=] & _), Hle2 as ([=] & _); congruence.
    + by eapply Hlive.
    + by eapply Hlive.
    + by destruct Hle1 as ([=] & _), Hle2 as ([=] & _); congruence.
Qed.

Lemma good_insert_session r r' x : insert_session x r = Ok r' → good r r'.
Proof.
  intros E Hr. unfold insert_session in E. inv_result. bool_to_prop.
  match goal with H : exists_row _ (fleet_observation_sessions r) = false |- _ =>
    rewrite exists_row_false in H; rename H into Hnew end.
  assert (∀ y, y ∈ fleet_observation_sessions r → ob_session_id y ≠ ob_session_id x ∧
    (ob_host_id y = ob_host_id x → ob_ended_at y ≠ None)) as Hfresh.
  { intros y Hy. specialize (Hnew y Hy). simpl in Hnew. unfold session_named in Hnew. bool_to_prop.
    split; [done|]. intros Eh En.
    rewrite Eh, String.eqb_refl, En in *. done. }
  split; [|split; try done; by apply kept_app, _].
  destruct Hr as [? ? ? ? ? Hc ? ? ? ? ? ? Hl]. split; simpl; try done.
  - apply NoDup_snoc; [done|]. intros y Hy. by apply Hfresh.
  - intros x1 x2 [Hi1| ->]%elem_of_snoc [Hi2| ->]%elem_of_snoc Eh Hn1 Hn2; [by apply Hl| | |done].
    + by destruct (proj2 (Hfresh x1 Hi1) Eh).
    + by destruct (proj2 (Hfresh x2 Hi2) (eq_sym Eh)).
Qed.

(** The session with an identifier. *)
Lemma same_session r x y :
  reg_wf r → x ∈ fleet_observation_sessions r → y ∈ fleet_observation_sessions r →
  ob_session_id x = ob_session_id y → x = y.
Proof. intros Hr Hx Hy. by eapply unique_by; [apply wf_sess_ids|..]. Qed.

Lemma good_end_session r r' x state now :
  x ∈ fleet_observation_sessions r → ob_ended_at x = None →
  end_session (ob_session_id x) state now r = Ok r' → good r r'.
Proof.
  intros Hx Hn E. unfold end_session in E. inv_result. apply good_wf. intros Hr.
  apply good_update_sessions. intros y Hy Hq. unfold session_named in Hq. bool_to_prop.
  assert (y = x) as -> by by eapply same_session. split; [done|]. split; [congruence|done].
Qed.

(** Nothing but observations and policy changes. *)
Definition same_core r r' : Prop :=
  hosts r' = hosts r ∧ credentials r' = credentials r ∧ host_enrollments r' = host_enrollments r
  ∧ host_credential_rotations r' = host_credential_rotations r
  ∧ fleet_observation_sessions r' = fleet_observation_sessions r.

#[export] Instance same_core_preorder : PreOrder same_core.
Proof.
  split; [done|]. intros r1 r2 r3 (? & ? & ? & ? & ?) (? & ? & ? & ? & ?). split_and!; congruence.
Qed.

Lemma good_same_core r r' : same_core r r' → good r r'.
Proof. intros (? & ? & ? & ? & ?). by apply good_same. Qed.
End sessions.

(** ** Handshake and heartbeat *)
Section operations.
Context `{UuidText, Codec, Aead, ResultJson, ScopeJson, ObservationJson}.
Implicit Types (r : Registry) (w : Work).

Lemma live_session_Some r host x :
  live_session r host = Some x →
  x ∈ fleet_observation_sessions r ∧ ob_host_id x = host ∧ ob_ended_at x = None.
Proof.
  intros [? Hq]%fetch_Some. simpl in Hq. bool_to_prop. split; [done|]. split; [done|].
  unfold is_null in *. by destruct (ob_ended_at x).
Qed.

Lemma good_advance r r' host_id session credential generation auth now :
  advance_rotated_session_credential r host_id session credential generation auth now = Ok r' →
  good r r' ∧ rg_policy r' = rg_policy r.
Proof.
  unfold advance_rotated_session_credential. intros E. unfold reg in *. inv_result. bool_to_prop.
  split; [|done]. etrans; [|apply good_audit]. apply good_update_sessions.
  intros y _ Hq. simpl in Hq. bool_to_prop. split; [done|]. split; [done|].
  split; [done|]. split; [done|]. simpl. lia.
Qed.

Lemma good_follow r r' x auth now :
  follow_credential r x auth now = Ok r' → good r r' ∧ rg_policy r' = rg_policy r.
Proof.
  unfold follow_credential. intros E. unfold reg in *. inv_result. case_match; inv_result; [done|].
  by eapply good_advance.
Qed.

Lemma good_clear_host_observation r host_id now : good r (clear_host_observation r host_id now).
Proof.
  unfold clear_host_observation. set (r1 := update_hosts _ _ r).
  trans r1; [|by apply good_same]. apply good_update_hosts. intros h Hh Hok Hq.
  apply host_step_quiet; try done. apply Hok.
Qed.

(** An authenticated host is not retired. *)
Lemma ensure_authenticated_host p auth now x :
  ensure_authenticated_generation p auth now = Ok x → ∃ h, h ∈ fleet_hosts p ∧
    h_id h = to_string (ah_host_id auth) ∧ h_epoch h = ah_epoch auth
    ∧ h_lifecycle_state h ≠ IntRetired ∧ h_enrollment_state h ≠ EnrRevoked.
Proof.
  unfold ensure_authenticated_generation. intros E. repeat case_match; inv_result.
  match goal with H : (count_rows _ _ =? 1) = true |- _ => apply Z.eqb_eq in H; rename H into Hc end.
  destruct (count_rows_pos _ _ ltac:(rewrite Hc; lia)) as (c & _ & Hq). simpl in Hq. bool_to_prop.
  match goal with H : exists_row _ _ = true |- _ => apply exists_row_true in H as (h & Hh & Hqh) end.
  bool_to_prop. by exists h.
Qed.

Lemma good_open_session r w r' w' auth request epoch incarnation digest now answer :
  (∀ h, h ∈ hosts r → host_named (to_string (ah_host_id auth)) h = true →
    h_lifecycle_state h ≠ IntRetired) →
  open_session r w auth request epoch incarnation digest now = Ok (r', w', answer) → good r r'.
Proof.
  intros Hret E. unfold open_session in E. unfold reg in *. inv_result. simplify_eq.
  etrans; [by eapply good_insert_session|]. etrans; [|apply good_audit].
  apply good_update_hosts. intros h Hh Hok Hq. apply host_step_quiet; try done. apply Hok.
Qed.

Lemma clear_host_observation_hosts r host_id now h :
  h ∈ hosts (clear_host_observation r host_id now) → host_named (to_string host_id) h = true →
  h_authority_expires_at h = None
  ∧ ∃ h0, h0 ∈ hosts r ∧ h_id h0 = h_id h ∧ h_lifecycle_state h = h_lifecycle_state h0.
Proof.
  intros (h0 & Hh0 & ->)%elem_of_update_where Hn.
  destruct (host_named (to_string host_id) h0) eqn:Hq; [|by rewrite Hn in Hq].
  match goal with |- context [invalidate_inventory h0 ?h'] =>
    destruct (invalidate_inventory_same h0 h') as (Ei & _ & _ & El & _ & Ea) end.
  rewrite Ei, El, Ea. split; [done|]. by exists h0.
Qed.

Lemma end_session_policy r r' id state now : end_session id state now r = Ok r' → rg_policy r' = rg_policy r.
Proof. unfold end_session. intros E. by inv_result. Qed.

Lemma good_handshake_tx r w r' w' auth request now answer :
  handshake_tx r w auth request now = Ok (r', w', answer) → good r r'.
Proof.
  intros E. apply good_wf. intros Hr. unfold handshake_tx in E. unfold reg, invalid in *. inv_result.
  match goal with H : ensure_authenticated_generation _ _ _ = Ok _ |- _ =>
    apply ensure_authenticated_host in H as (ha & Hha & Eha & _ & Hret & _) end.
  assert (∀ h, h ∈ hosts r → h_id h = to_string (ah_host_id auth) → h_lifecycle_state h ≠ IntRetired) as Hnr.
  { intros h Hh Ei. assert (h = ha) as -> by (eapply same_host; [done..|congruence]). done. }
  case_match; inv_result; [by simplify_eq|].
  destruct (live_session r (to_string (ah_host_id auth))) as [sx|] eqn:Hlive; inv_result.
  2: { eapply good_open_session; [|done]. unfold host_named. intros h Hh Hn. bool_to_prop. auto. }
  apply live_session_Some in Hlive as (Hsx & Esx & Hnsx).
  case_match; inv_result; [simplify_eq; by eapply good_follow|].
  case_match; inv_result.
  - match goal with H : end_session _ _ _ r = Ok _ |- _ => rename H into Hend end. simplify_eq.
    pose proof (end_session_policy _ _ _ _ _ Hend) as Ep.
    etrans; [by eapply good_end_session|]. etrans; [apply good_clear_host_observation|].
    etrans; [|apply good_audit]. apply good_update_hosts. intros h Hh Hok Hq.
    destruct (clear_host_observation_hosts _ _ _ _ Hh Hq) as (Ha & h0 & Hh0 & Ei & El).
    rewrite Ep in Hh0. unfold host_named in Hq. bool_to_prop.
    apply host_step_quiet; try done; [|apply Hok].
    intros Hrt. destruct (Hnr h0); congruence.
  - match goal with H : end_session _ _ _ r = Ok _ |- _ => rename H into Hend end.
    pose proof (end_session_policy _ _ _ _ _ Hend) as Ep.
    etrans; [by eapply good_end_session|]. etrans; [apply good_clear_host_observation|].
    eapply good_open_session; [|done]. intros h Hh Hq.
    destruct (clear_host_observation_hosts _ _ _ _ Hh Hq) as (Ha & h0 & Hh0 & Ei & El).
    rewrite Ep in Hh0. unfold host_named in Hq. bool_to_prop. rewrite El. apply Hnr; [done|congruence].
Qed.

(** What is known of a session that was loaded. *)
Record loaded r (cs : CurrentInventorySession) (x : ObservationRow) (h : HostRow) : Prop := {
  ld_session : x ∈ fleet_observation_sessions r;
  ld_of : of_session cs x = true;
  ld_live : ob_ended_at x = None;
  ld_inventory : ob_current_inventory_sequence x = cs_current_inventory_sequence cs;
  ld_digest : ob_current_inventory_digest x = cs_current_inventory_digest cs;
  ld_heartbeat : ob_current_heartbeat_sequence x = cs_current_heartbeat_sequence cs;
  ld_state : ob_state x = cs_state cs;
  ld_host : host_of r (to_string (cs_host_id cs)) = Some h;
  ld_agent : h_agent_session_id h = Some (to_string (cs_authority_session_id cs));
  ld_boot : h_boot_id h = Some (cs_boot_id cs);
  ld_incarnation : is_Some (h_authority_incarnation h);
  ld_epoch : h_epoch h = cs_host_epoch cs }.

Lemma follow_sessions r r' x auth now :
  follow_credential r x auth now = Ok r' → x ∈ fleet_observation_sessions r →
  ∃ x', x' ∈ fleet_observation_sessions r' ∧ sess_identity x' = sess_identity x
    ∧ ob_ended_at x' = ob_ended_at x ∧ ob_state x' = ob_state x
    ∧ ob_current_inventory_sequence x' = ob_current_inventory_sequence x
    ∧ ob_current_heartbeat_sequence x' = ob_current_heartbeat_sequence x
    ∧ ob_current_inventory_digest x' = ob_current_inventory_digest x.
Proof.
  unfold follow_credential, advance_rotated_session_credential. intros E Hx. unfold reg in *.
  inv_result. case_match; inv_result; [by exists x|]. simpl.
  eexists. split; [apply elem_of_update_where; by exists x|]. by case_match.
Qed.

Lemma host_of_is r id h :
  reg_wf r → h ∈ hosts r → h_id h = id → host_of r id = Some h.
Proof.
  intros Hr Hh Ei. destruct (host_of r id) as [h'|] eqn:E.
  - apply host_of_Some in E as [Hh' Ei']. f_equal. eapply same_host; [done..|congruence].
  - unfold host_of in E. rewrite fetch_None in E. specialize (E h Hh). unfold host_named in E.
    by bool_to_prop.
Qed.

Lemma load_spec r r' auth report now cs :
  load_current_session r auth report now = Ok (r', cs) →
  good r r' ∧ rg_policy r' = rg_policy r ∧ (reg_wf r → ∃ x h, loaded r' cs x h).
Proof.
  unfold load_current_session. intros E. unfold reg, invalid in *. inv_result. simplify_eq.
  match goal with H : follow_credential _ _ _ _ = Ok _ |- _ => rename H into Hf end.
  destruct (good_follow _ _ _ _ _ Hf) as [Hg Ep]. split; [done|]. split; [done|]. intros Hr.
  match goal with H : ensure_authenticated_generation _ _ _ = Ok _ |- _ =>
    apply ensure_authenticated_host in H as (ha & Hha & Eha & Eep & _) end.
  match goal with H : fetch _ (fleet_observation_sessions r) = Some ?y |- _ =>
    apply fetch_Some in H as [Hy Hq]; simpl in Hq end.
  destruct (follow_sessions _ _ _ _ _ Hf Hy) as (y' & Hy' & [= ? ? ? ? ? ?] & ? & ? & ? & ? & ?).
  match goal with H : host_of r _ = Some ?h |- _ => rename H into Hh; pose proof Hh as Hh2 end.
  rewrite (host_of_is r _ ha) in Hh2; [|done..]. simplify_eq. bool_to_prop.
  eexists y', _. split; simpl; try done.
  - unfold of_session, session_named in *. simpl. bool_to_prop.
    apply andb_true_iff. split; apply String.eqb_eq; congruence.
  - unfold is_null in *. by destruct (ob_ended_at y'), (ob_ended_at _).
  - unfold host_of in *. by rewrite Ep.
Qed.

(** Loading moves nothing but the session's credential. *)
Lemma load_frame r r' auth report now cs :
  load_current_session r auth report now = Ok (r', cs) →
  rg_policy r' = rg_policy r ∧ host_credential_rotations r' = host_credential_rotations r
  ∧ host_enrollments r' = host_enrollments r ∧ fleet_inventory_snapshots r' = fleet_inventory_snapshots r
  ∧ cs_host_id cs = ah_host_id auth ∧ cs_authority_session_id cs = ir_authority_session_id report
  ∧ cs_host_epoch cs = ah_epoch auth
  ∧ cs_control_plane_incarnation cs = ir_control_plane_incarnation report.
Proof.
  unfold load_current_session, follow_credential, advance_rotated_session_credential. intros E.
  unfold reg, invalid in *. inv_result. simplify_eq.
  repeat case_match; unfold reg in *; inv_result; simplify_eq; by split_and!.
Qed.

Lemma loaded_unique r cs x h y :
  reg_wf r → loaded r cs x h → y ∈ fleet_observation_sessions r → of_session cs y = true → y = x.
Proof.
  intros Hr [Hx Hof] Hy Hof'. eapply same_session; [done..|].
  unfold of_session, session_named in *. bool_to_prop. congruence.
Qed.

Lemma good_grant_authority r host session expires ready : good r (grant_authority r host session expires ready).
Proof.
  unfold grant_authority. set (r1 := update_hosts _ _ r). trans r1; apply good_update_hosts;
    intros h Hh Hok Hq; simpl in Hq; bool_to_prop.
  - destruct ready.
    + destruct Hok as (? & ? & ? & _). split; [done|]. split; [|split; [by rewrite authority_unchanged|by left]].
      split; [done|]. split; [done|]. split; [done|]. intros t _. exists session.
      unfold serves in *. bool_to_prop. simpl in *. split; [|done].
      match goal with H : eq_sql _ _ = true |- _ => apply eq_sql_true in H as (? & ? & ?) end. congruence.
    + apply host_step_quiet; try done; apply Hok.
  - apply host_step_quiet; try done; apply Hok.
Qed.

Lemma good_work_authority r r' cs grant_at t :
  work_authority r cs grant_at = Ok (r', t) → good r r'.
Proof.
  unfold work_authority. intros E. inv_result.
  match goal with H : match grant_at with _ => _ end = Ok _ |- _ => rename H into Hg end.
  assert (good r x) as Hgood.
  { destruct grant_at as [[now ready]|]; inv_result; [apply good_grant_authority|done]. }
  case_match; unfold invalid in *; inv_result; by simplify_eq.
Qed.

Lemma insert_samples_same r r' cs samples domains now :
  insert_samples r cs samples domains now = Ok r' → same_core r r' ∧ rg_policy r' = rg_policy r.
Proof.
  unfold insert_samples. apply (try_fold_ind _ (λ r', same_core r r' ∧ rg_policy r' = rg_policy r)); [|done].
  intros s a s' _ [Hs Ep] E. unfold insert_sample, reg in E. inv_result.
  split; [by etrans|done].
Qed.

Lemma loaded_same r r' cs x h :
  same_core r r' → loaded r cs x h → loaded r' cs x h.
Proof.
  intros (Eh & _ & _ & _ & Es) [? ? ? ? ? ? ? Hh]. split; try done; [by rewrite Es|].
  unfold host_of in *. by rewrite Eh.
Qed.

Lemma good_heartbeat_tx r w r' w' auth request now answer :
  heartbeat_tx r w auth request now = Ok (r', w', answer) → good r r'.
Proof.
  intros E. unfold heartbeat_tx in E. unfold reg in *. inv_result.
  destruct x1 as [r1 cs]. match goal with H : load_current_session _ _ _ _ = Ok _ |- _ =>
    apply load_spec in H as (Hg & Ep & Hld) end.
  apply good_wf. intros Hr. etrans; [exact Hg|]. apply good_wf. intros Hr1.
  destruct (Hld Hr) as (sx & h & Hl).
  inv_result. case_match; bool_to_prop.
  - case_match; inv_result. unfold replay_heartbeat in E. inv_result. by simplify_eq.
  - inv_result. simplify_eq.
    match goal with H : insert_samples _ _ _ _ _ = Ok _ |- _ =>
      apply insert_samples_same in H as [Hsame _] end.
    match goal with H : work_authority _ _ _ = Ok ?y |- _ =>
      destruct y as [r3 t]; apply good_work_authority in H as Hw end.
    etrans; [by apply good_same_core|]. apply good_wf. intros Hr2.
    assert (loaded x2 cs sx h) as Hl2 by by eapply loaded_same.
    etrans; [|exact Hw]. match goal with |- good _ (update_hosts _ _ ?r2) => trans r2 end.
    + apply good_update_sessions. intros y Hy Hq.
      assert (y = sx) as -> by by eapply loaded_unique. destruct Hl2.
      split; [done|]. split; [done|]. simpl. split; [done|]. split; [lia|done].
    + apply good_update_hosts. intros h' Hh' Hok Hq. by apply host_step_core.
Qed.
End operations.
