(* ===== verification/ReconcileSpec.v ===== *)
(** * What an inventory may change

    The reconciliation of a report keeps identities and the administrator's
    policy: it adds rows of its own host, disabled and unauthorized, gives a
    budget only to a domain that has none, and touches no other table. *)
From S2P Require Import Prelude Base64 Ids Domain Protocol Outcomes Capabilities Inventory Crypto Store Service Admission Commands RegistryStore Registry Observation Reconcile RegistrySpec ObservationSpec.
#[local] Open Scope string_scope.
#[local] Open Scope Z_scope.

(** ** Tables that evolve *)
Definition evolves {A} (le : A → A → Prop) (fresh : A → Prop) (l l' : list A) : Prop :=
  kept le l l' ∧ ∀ a', a' ∈ l' → (∃ a, a ∈ l ∧ le a a') ∨ fresh a'.

Section evolves.
Context {A} (le : A → A → Prop) (fresh : A → Prop) `{!PreOrder le}.
Hypothesis fresh_le : ∀ a a', fresh a → le a a' → fresh a'.

Lemma evolves_refl l : evolves le fresh l l.
Proof. split; [done|]. intros a Ha. left. by exists a. Qed.

Lemma evolves_trans l1 l2 l3 : evolves le fresh l1 l2 → evolves le fresh l2 l3 → evolves le fresh l1 l3.
Proof.
  intros [K12 N12] [K23 N23]. split; [by etrans|]. intros c Hc.
  destruct (N23 c Hc) as [(b & Hb & Hbc)|Hf]; [|by right].
  destruct (N12 b Hb) as [(a & Ha & Hab)|Hf]; [left; exists a; split; [done|by etrans]|].
  right. by eapply fresh_le.
Qed.

Lemma evolves_update q f l :
  (∀ a, a ∈ l → q a = true → le a (f a)) → evolves le fresh l (update_where q f l).
Proof.
  intros Hf. split; [by apply kept_update|]. intros a' (a & Ha & ->)%elem_of_update_where. left.
  exists a. split; [done|]. destruct (q a) eqn:E; [by apply Hf|done].
Qed.

Lemma evolves_snoc l a : fresh a → evolves le fresh l (l ++ [a]).
Proof.
  intros Hf. split; [by apply kept_app|]. intros a' [Ha| ->]%elem_of_snoc; [|by right].
  left. by exists a'.
Qed.
End evolves.

Section observes.
Context `{UuidText}.
Variables (host : string) (report : InventoryReport).

(** The budget of a domain, unset or the share of something reported. *)
Definition granted (d : DomainRow) : Prop :=
  (d_cpu_millis d = 0 ∧ d_memory_mib d = 0 ∧ d_disk_bytes d = 0)
  ∨ ∃ od, od ∈ ir_domains report ∧ d_cpu_millis d = share (oc_cpu_millis (od_capacity od))
      ∧ d_memory_mib d = share (oc_memory_mib (od_capacity od))
      ∧ d_disk_bytes d = share (oc_disk_bytes (od_capacity od)).

Definition domain_le (d d' : DomainRow) : Prop :=
  (d_id d', d_host_id d', d_parent_domain_id d', d_name d')
  = (d_id d, d_host_id d, d_parent_domain_id d, d_name d)
  ∧ (d' = d ∨ d_host_id d = host ∧ granted d'
      ∧ d_cpu_millis d = 0 ∧ d_memory_mib d = 0 ∧ d_disk_bytes d = 0).
Definition domain_new (d : DomainRow) : Prop := d_host_id d = host ∧ granted d.

Definition backend_policy (b : BackendRow) :=
  (b_id b, b_host_id b, b_domain_id b, b_runtime_kind b, b_execution_os b, b_architecture b, b_enabled b).
Definition backend_le (b b' : BackendRow) : Prop :=
  backend_policy b' = backend_policy b ∧ (b' = b ∨ b_host_id b = host).
Definition backend_new (b : BackendRow) : Prop := b_host_id b = host ∧ b_enabled b = false.

Definition session_policy (s : SessionRow) :=
  (s_id s, s_host_id s, s_session_key s, s_os_user_id s, s_authorized s, s_max_jobs s).
Definition session_le (s s' : SessionRow) : Prop :=
  session_policy s' = session_policy s ∧ (s' = s ∨ s_host_id s = host).
Definition session_new (s : SessionRow) : Prop := s_host_id s = host ∧ s_authorized s = false.

(** The tables a report never touches. *)
Definition others (p : Policy) : Policy :=
  p <| fleet_hosts := [] |> <| host_resource_domains := [] |> <| host_backends := [] |>
    <| host_sessions := [] |>.

Record observes (p p' : Policy) : Prop := {
  ob_others : others p' = others p;
  ob_domains : evolves domain_le domain_new (host_resource_domains p) (host_resource_domains p');
  ob_backends : evolves backend_le backend_new (host_backends p) (host_backends p');
  ob_sessions : evolves session_le session_new (host_sessions p) (host_sessions p') }.

#[export] Instance domain_le_preorder : PreOrder domain_le.
Proof.
  split; [split; [done|by left]|]. intros d1 d2 d3 [E12 H12] [E23 H23]. split; [congruence|].
  destruct H12 as [->|(? & ? & ? & ? & ?)]; [done|].
  destruct H23 as [->|(? & ? & ?)]; right; split_and!; done.
Qed.
#[export] Instance backend_le_preorder : PreOrder backend_le.
Proof.
  split; [split; [done|by left]|]. intros b1 b2 b3 [E12 H12] [E23 H23]. split; [congruence|].
  destruct H12 as [->|?]; [done|by right].
Qed.
#[export] Instance session_le_preorder : PreOrder session_le.
Proof.
  split; [split; [done|by left]|]. intros b1 b2 b3 [E12 H12] [E23 H23]. split; [congruence|].
  destruct H12 as [->|?]; [done|by right].
Qed.

#[export] Instance observes_preorder : PreOrder observes.
Proof.
  split; [intros p; split; [done|apply evolves_refl, _..]|].
  intros p1 p2 p3 [O12 D12 B12 S12] [O23 D23 B23 S23]. split; [congruence|..].
  - eapply evolves_trans; [apply _| |done..]. intros d d' [? Hg] [[= ? ? ? ?] Hd].
    split; [congruence|]. by destruct Hd as [->|(_ & ? & _)].
  - eapply evolves_trans; [apply _| |done..]. intros b b' [? ?] [[= ? ? ? ? ? ? ?] _]. split; congruence.
  - eapply evolves_trans; [apply _| |done..]. intros b b' [? ?] [[= ? ? ? ? ? ?] _]. split; congruence.
Qed.

(** Only the domains, backends or sessions of a policy change. *)
Lemma observes_domains p l :
  evolves domain_le domain_new (host_resource_domains p) l →
  observes p (p <| host_resource_domains := l |>).
Proof. intros Hl. split; [done|done|apply evolves_refl, _..]. Qed.
Lemma observes_backends p l :
  evolves backend_le backend_new (host_backends p) l → observes p (p <| host_backends := l |>).
Proof. intros Hl. split; [done|apply evolves_refl, _|done|apply evolves_refl, _]. Qed.
Lemma observes_sessions p l :
  evolves session_le session_new (host_sessions p) l → observes p (p <| host_sessions := l |>).
Proof. intros Hl. split; [done|apply evolves_refl, _|apply evolves_refl, _|done]. Qed.
End observes.

(** ** The reconciliation *)
Section reconcile.
Context `{UuidText, Codec, ObservationJson}.
Variables (cs : CurrentInventorySession) (report : InventoryReport) (drawn : Drawn) (now : Z).
Notation host := (to_string (cs_host_id cs)).

Definition rec_ok (r r' : Registry) : Prop :=
  same_core r r' ∧ observes host report (rg_policy r) (rg_policy r').

#[export] Instance rec_ok_preorder : PreOrder rec_ok.
Proof. split; [done|]. intros r1 r2 r3 [? ?] [? ?]. split; by etrans. Qed.

Lemma rec_ok_policy r p' :
  fleet_hosts p' = hosts r → host_credentials p' = credentials r →
  observes host report (rg_policy r) p' → rec_ok r (r <| rg_policy := p' |>).
Proof. intros Eh Ec Ho. split; [|done]. by split_and!. Qed.

Lemma place_domain_ok r r' mapped id od :
  place_domain cs r mapped id od = Ok r' → rec_ok r r'.
Proof.
  unfold place_domain, insert_domain. intros E. case_match; inv_result; [|done].
  case_match; inv_result; [done|]. apply (rec_ok_policy r); [done..|].
  apply observes_domains, evolves_snoc; [apply _|]. split; [done|]. by left.
Qed.

Lemma upsert_observed_domain_ok r r' id od :
  upsert_observed_domain cs report now id od r = Ok r' → rec_ok r r'.
Proof. unfold upsert_observed_domain. intros E. by inv_result. Qed.

Lemma set_budget_ok r r' id od :
  od ∈ ir_domains report → set_budget cs id (od_capacity od) r = Ok r' → rec_ok r r'.
Proof.
  unfold set_budget. intros Hod E. inv_result. apply (rec_ok_policy r); [done..|].
  apply observes_domains, evolves_update; [apply _|]. intros d Hd Hq.
  unfold unset, owned_domain in Hq. simpl in Hq. bool_to_prop.
  split; [done|]. right. split; [done|]. split; [|done]. right. by exists od.
Qed.

Lemma reconcile_domain_ok root st st' od :
  od ∈ ir_domains report → reconcile_domain cs report drawn now root st od = Ok st' → rec_ok st.1 st'.1.
Proof.
  destruct st as [r mapped]. unfold reconcile_domain. intros Hod E. inv_result. simpl.
  etrans; [by eapply place_domain_ok|]. etrans; [by eapply upsert_observed_domain_ok|].
  by eapply set_budget_ok.
Qed.

Lemma update_backends_ok r q f :
  (∀ b, q b = true → backend_le host b (f b)) →
  rec_ok r (r <| rg_policy ::= (λ p, p <| host_backends ::= update_where q f |>) |>).
Proof.
  intros Hf. apply (rec_ok_policy r); [done..|]. apply observes_backends, evolves_update; [apply _|].
  intros b _. apply Hf.
Qed.

Lemma update_sessions_ok r q f :
  (∀ s, q s = true → session_le host s (f s)) →
  rec_ok r (r <| rg_policy ::= (λ p, p <| host_sessions ::= update_where q f |>) |>).
Proof.
  intros Hf. apply (rec_ok_policy r); [done..|]. apply observes_sessions, evolves_update; [apply _|].
  intros s _. apply Hf.
Qed.

Lemma forget_probes_ok r : rec_ok r (forget_probes cs r).
Proof.
  unfold forget_probes. split; [done|].
  trans (rg_policy r <| host_backends ::= update_where (λ b, String.eqb (b_host_id b) host)
    (λ b, b <| b_readiness := BackendUnknown |> <| b_reason_code := Some "stale_inventory" |>
            <| b_last_probed_at := None |> <| b_probe_epoch := None |> <| b_probe_session_id := None |>
            <| b_probe_boot_id := None |> <| b_probe_incarnation := None |>) |>).
  - apply observes_backends, evolves_update; [apply _|]. intros b _ Hq. bool_to_prop.
    split; [done|by right].
  - apply observes_sessions, evolves_update; [apply _|]. intros s _ Hq. bool_to_prop.
    split; [done|by right].
Qed.

Lemma place_backend_ok r r' id domain backend :
  place_backend cs id domain backend r = Ok r' → rec_ok r r'.
Proof.
  unfold place_backend. intros E. case_match; inv_result; [done|]. apply (rec_ok_policy r); [done..|].
  by apply observes_backends, evolves_snoc; [apply _|].
Qed.

Lemma reconcile_backend_ok domains st st' backend :
  reconcile_backend cs report drawn now domains st backend = Ok st' → rec_ok st.1 st'.1.
Proof.
  destruct st as [r mapped]. unfold reconcile_backend, upsert_backend, upsert_observed_backend.
  intros E. inv_result. simpl. etrans; [by eapply place_backend_ok|].
  apply update_backends_ok. intros b Hq. unfold owned_backend in Hq. bool_to_prop.
  split; [done|by right].
Qed.

Lemma place_session_ok r r' id helper :
  place_session cs id helper r = Ok r' → rec_ok r r'.
Proof.
  unfold place_session. intros E. case_match; inv_result; [done|]. apply (rec_ok_policy r); [done..|].
  by apply observes_sessions, evolves_snoc; [apply _|].
Qed.

Lemma reconcile_helper_ok st st' helper :
  reconcile_helper cs report drawn now st helper = Ok st' → rec_ok st.1 st'.1.
Proof.
  destruct st as [r mapped]. unfold reconcile_helper, upsert_interactive, upsert_observed_helper.
  intros E. inv_result. simpl. etrans; [by eapply place_session_ok|].
  apply update_sessions_ok. intros b Hq. simpl in Hq. bool_to_prop. split; [done|by right].
Qed.

(** A loop each turn of which is a [rec_ok] step. *)
Lemma fold_ok {A} (f : Registry * gmap string Uuid → A → Result (Registry * gmap string Uuid) InventoryError) st l st' :
  (∀ st a st', a ∈ l → f st a = Ok st' → rec_ok st.1 st'.1) → try_fold f st l = Ok st' → rec_ok st.1 st'.1.
Proof.
  intros Hf. apply (try_fold_ind _ (λ x, rec_ok st.1 x.1)); [|done].
  intros s a s' Ha Hs E. etrans; [exact Hs|]. by eapply Hf.
Qed.

Lemma reconcile_inventory_ok r r' mappings :
  reconcile_inventory cs report drawn now r = Ok (r', mappings) → rec_ok r r'.
Proof.
  unfold reconcile_inventory. intros E. unfold invalid in *. inv_result. simplify_eq.
  match goal with H : try_fold (reconcile_domain _ _ _ _ _) _ _ = Ok _ |- _ =>
    apply fold_ok in H; [rename H into Hd|] end.
  2: { intros st od st' Hod. apply reconcile_domain_ok. by apply elem_of_order_by in Hod. }
  match goal with H : try_fold (reconcile_backend _ _ _ _ _) _ _ = Ok _ |- _ =>
    apply fold_ok in H; [rename H into Hb|] end.
  2: { intros st b st' _. apply reconcile_backend_ok. }
  match goal with H : try_fold (reconcile_helper _ _ _ _) _ _ = Ok _ |- _ =>
    apply fold_ok in H; [rename H into Hh|] end.
  2: { intros st b st' _. apply reconcile_helper_ok. }
  etrans; [exact Hd|]. etrans; [apply forget_probes_ok|]. etrans; [exact Hb|exact Hh].
Qed.
End reconcile.

(** ** The transaction *)
Section submit.
Context `{UuidText, Codec, Aead, ResultJson, ScopeJson, ObservationJson}.
Implicit Types (r : Registry) (w : Work).

(** An update that replaces the inventory by one of the current session. *)
Lemma host_step_inventory r h h' :
  host_ok h → h_id h' = h_id h → h_epoch h' = h_epoch h → h_revision h' = h_revision h →
  h_lifecycle_state h' = h_lifecycle_state h → h_enrollment_state h' = h_enrollment_state h →
  h_integrity_state h' = h_integrity_state h → h_agent_session_id h' = h_agent_session_id h →
  h_boot_id h' = h_boot_id h → h_authority_incarnation h' = h_authority_incarnation h →
  h_authority_expires_at h' = h_authority_expires_at h →
  h_inventory_complete h' = true → inventory_matches h' = true → host_step r h h'.
Proof.
  intros (? & ? & _ & Hau) Ei Ee Er El En Eg Ea Eb Ec Ex Hc Hm.
  split; [split_and!; [done|lia|lia|congruence]|].
  split; [|split; [by rewrite authority_unchanged|by left]].
  split; [by rewrite El, En|]. split; [lia|]. split; [done|]. intros t Ht. rewrite Ex in Ht.
  destruct (Hau t Ht) as (session & Es & Hw). exists session. split; [congruence|].
  unfold inventory_matches in Hm. rewrite Hc in Hm. simpl in Hm. bool_to_prop.
  match goal with H : h_inventory_session_id h' = _ |- _ => rename H into Ei' end.
  unfold may_work in *. rewrite El, En, Eg, Hc, Ei', Ea, Es. simpl.
  rewrite (bool_decide_eq_true_2 (session = session)) by done. rewrite !andb_true_iff in *. tauto.
Qed.

Lemma good_complete_inventory r r' cs digest revision now :
  complete_inventory cs digest revision now r = Ok r' → good r r'.
Proof.
  unfold complete_inventory. intros E. inv_result.
  match goal with H : exists_row _ _ = false |- _ => rewrite exists_row_false in H; rename H into Hg end.
  apply good_update_hosts. intros h Hh Hok Hq. specialize (Hg h Hh). cbv beta in Hg.
  rewrite Hq, andb_true_l in Hg. apply negb_false_iff in Hg. by apply host_step_inventory.
Qed.

Lemma insert_snapshot_same r r' i :
  insert_snapshot i r = Ok r' → same_core r r' ∧ rg_policy r' = rg_policy r.
Proof. unfold insert_snapshot. intros E. by inv_result. Qed.

Lemma good_submit_inventory_tx r w r' w' auth request drawn now answer :
  submit_inventory_tx r w auth request drawn now = Ok (r', w', answer) → good r r'.
Proof.
  intros E. unfold submit_inventory_tx in E. unfold reg in *. inv_result.
  destruct x1 as [r1 cs]. match goal with H : load_current_session _ _ _ _ = Ok _ |- _ =>
    apply load_spec in H as (Hg & Ep & Hld) end.
  apply good_wf. intros Hr. etrans; [exact Hg|]. apply good_wf. intros Hr1.
  destruct (Hld Hr) as (sx & h & Hl). inv_result. case_match; bool_to_prop.
  - case_match; inv_result. unfold replay_inventory in E. inv_result. by simplify_eq.
  - unfold accept_inventory in E. inv_result. destruct x3 as [r2 mappings]. inv_result. simplify_eq.
    match goal with H : reconcile_inventory _ _ _ _ _ = Ok _ |- _ =>
      apply reconcile_inventory_ok in H as [Hs2 _] end.
    match goal with H : insert_samples _ _ _ _ _ = Ok _ |- _ =>
      apply insert_samples_same in H as [Hs3 _] end.
    match goal with H : insert_snapshot _ _ = Ok _ |- _ =>
      apply insert_snapshot_same in H as [Hs4 _] end.
    match goal with H : complete_inventory _ _ _ _ _ = Ok ?y |- _ =>
      pose proof (good_complete_inventory _ _ _ _ _ _ H) as Hg5;
      assert (fleet_observation_sessions y = fleet_observation_sessions r1) as Es5; [
        unfold complete_inventory in H; inv_result;
        destruct Hs2 as (_ & _ & _ & _ & Es2), Hs3 as (_ & _ & _ & _ & Es3),
          Hs4 as (_ & _ & _ & _ & Es4); simpl; congruence|] end.
    etrans; [apply good_same_core; by etrans; [etrans|]|]. etrans; [exact Hg5|].
    match goal with |- good _ (if _ then audit_and_event ?r6 _ _ _ else _) => trans r6 end.
    + apply good_update_sessions. intros y Hy Hq. rewrite Es5 in Hy.
      assert (y = sx) as -> by by eapply loaded_unique. destruct Hl.
      split; [done|]. split; [done|]. simpl. split; [lia|done].
    + case_match; [apply good_audit|done].
Qed.
End submit.
