(* ===== verification/RegistryTrace.v ===== *)
(** * The registry over time

    Every transaction of the registry is a step; other components may change
    the tables of the policy in between, except the hosts and their
    credentials, which only the registry writes.  Over any sequence of steps
    the registry stays well formed and only moves forward, and from that
    follow the security properties of enrollment and of credentials. *)
From S2P Require Import Prelude Base64 Ids Domain Protocol Outcomes Capabilities Inventory Crypto Store Service Admission Commands RegistryStore Registry Observation Reconcile RegistrySpec ObservationSpec ReconcileSpec.
#[local] Open Scope string_scope.
#[local] Open Scope Z_scope.

Section trace.
Context `{UuidText, Codec, Aead, ResultJson, ScopeJson, ObservationJson}.
Implicit Types (r : Registry) (w : Work).

Inductive reg_step : Registry → Registry → Prop :=
| step_issue r r' principal request secret id now issue :
    issue_enrollment r principal request secret id now = Ok (r', issue) → reg_step r r'
| step_revoke_enrollment r r' principal id now :
    revoke_enrollment r principal id now = Ok r' → reg_step r r'
| step_recover r r' principal request secret id now issue :
    recover_host r principal request secret id now = Ok (r', issue) → reg_step r r'
| step_consume r r' code registration secret host_id domain_id credential_id now receipt :
    is_uuid credential_id →
    consume_enrollment r code registration secret host_id domain_id credential_id now
      = Ok (r', receipt) → reg_step r r'
| step_lifecycle r r' principal host_id expected intent now :
    set_host_lifecycle r principal host_id expected intent now = Ok r' → reg_step r r'
| step_retire r r' w principal host_id expected now :
    retire_host r w principal host_id expected now = Ok r' → reg_step r r'
| step_backend r r' principal host_id backend_id enabled now :
    set_backend_enabled r principal host_id backend_id enabled now = Ok r' → reg_step r r'
| step_grant r r' principal host_id target a b c now :
    set_host_grant r principal host_id target a b c now = Ok r' → reg_step r r'
| step_approve r r' principal request now :
    approve_host r principal request now = Ok r' → reg_step r r'
| step_request_rotation r r' principal request operation_id now receipt :
    request_rotation r principal request operation_id now = Ok (r', receipt) → reg_step r r'
| step_exchange r r' auth operation_id secret credential_id now receipt :
    is_uuid credential_id →
    exchange_rotation r auth operation_id secret credential_id now = Ok (r', receipt) → reg_step r r'
| step_acknowledge r r' auth operation_id now receipt :
    acknowledge_rotation r auth operation_id now = Ok (r', receipt) → reg_step r r'
| step_revoke_credential r r' principal host_id generation now :
    revoke_credential r principal host_id generation now = Ok r' → reg_step r r'
| step_handshake r r' w w' auth request now answer :
    handshake r w auth request now = (r', w', answer) → reg_step r r'
| step_heartbeat r r' w w' auth request now answer :
    heartbeat r w auth request now = (r', w', answer) → reg_step r r'
| step_inventory r r' w w' auth request drawn now answer :
    submit_inventory r w auth request drawn now = (r', w', answer) → reg_step r r'
| step_policy r p' :
    fleet_hosts p' = hosts r → host_credentials p' = credentials r →
    reg_step r (r <| rg_policy := p' |>).

Lemma transact_good {A} r w r' w' (tx : Answer A) answer :
  (∀ r' w' answer, tx = Ok (r', w', answer) → good r r') →
  transact r w tx = (r', w', answer) → good r r'.
Proof.
  intros Htx. unfold transact. destruct tx as [[[r1 w1] a]|e] eqn:E; intros [= <- <- <-]; [|done].
  by eapply Htx.
Qed.

Lemma step_good r r' : reg_step r r' → good r r'.
Proof.
  destruct 1.
  - by eapply good_issue_enrollment.
  - by eapply good_revoke_enrollment.
  - by eapply good_recover_host.
  - by eapply good_consume_enrollment.
  - by eapply good_set_host_lifecycle.
  - by eapply good_retire_host.
  - by eapply good_set_backend_enabled.
  - by eapply good_set_host_grant.
  - by eapply good_approve_host.
  - by eapply good_request_rotation.
  - by eapply good_exchange_rotation.
  - by eapply good_acknowledge_rotation.
  - by eapply good_revoke_credential.
  - eapply transact_good; [|done]. intros. by eapply good_handshake_tx.
  - eapply transact_good; [|done]. intros. by eapply good_heartbeat_tx.
  - eapply transact_good; [|done]. intros. by eapply good_submit_inventory_tx.
  - by apply good_same.
Qed.

Lemma steps_good r r' : rtc reg_step r r' → good r r'.
Proof. induction 1; [done|]. etrans; [by apply step_good|done]. Qed.

(** A registry before the first host. *)
Definition vacant r : Prop :=
  hosts r = [] ∧ credentials r = [] ∧ host_enrollments r = [] ∧ host_credential_rotations r = []
  ∧ fleet_observation_sessions r = [].

Definition reg_reachable r : Prop := ∃ r0, vacant r0 ∧ rtc reg_step r0 r.

Lemma vacant_wf r : vacant r → reg_wf r.
Proof.
  intros (E1 & E2 & E3 & E4 & E5). split; rewrite ?E1, ?E2, ?E3, ?E4, ?E5; try apply NoDup_nil_2;
    intros *; by rewrite elem_of_nil.
Qed.

Lemma reachable_wf r : reg_reachable r → reg_wf r.
Proof. intros (r0 & Hv & Hs). by apply (steps_good _ _ Hs), vacant_wf. Qed.

(** C29: in every registry that its transactions can reach, no host holds two
    credentials of one generation, a credential that is not revoked is of its
    host's current epoch, at most one rotation of a host is open, at most one
    observation session of a host is live, and only approved hosts are
    active. *)
Theorem reachable_registry r :
  reg_reachable r →
  NoDup ((λ c, (cred_host_id c, cred_generation c)) <$> credentials r)
  ∧ (∀ c, c ∈ credentials r → cred_revoked_at c = None →
      ∃ h, h ∈ hosts r ∧ h_id h = cred_host_id c ∧ cred_host_epoch c = h_epoch h)
  ∧ (∀ o o', o ∈ host_credential_rotations r → o' ∈ host_credential_rotations r →
      ro_host_id o = ro_host_id o' → open_phase (ro_phase o) = true →
      open_phase (ro_phase o') = true → o = o')
  ∧ (∀ x x', x ∈ fleet_observation_sessions r → x' ∈ fleet_observation_sessions r →
      ob_host_id x = ob_host_id x' → ob_ended_at x = None → ob_ended_at x' = None → x = x')
  ∧ ∀ h, h ∈ hosts r → h_lifecycle_state h = IntActive → h_enrollment_state h = EnrApproved.
Proof.
  intros Hr%reachable_wf. split; [by apply wf_generations|]. split.
  { intros c Hin Hn. destruct (wf_creds _ Hr c Hin) as (_ & _ & _ & h & ? & ? & ?). eauto. }
  split. { intros o o' Hi Hi' Eh Hp Hp'. eapply unique_by; [apply (wf_rot_ids _ Hr)|done..|by apply (wf_open _ Hr)]. }
  split. { intros x x' Hi Hi' Eh Hn Hn'. eapply same_session; [done..|by apply (wf_live _ Hr)]. }
  intros h Hin. by apply (wf_host _ Hr h Hin).
Qed.

(** C30: whenever a host holds work authority, it is approved, active or
    draining, and verified, and the session that holds it has reported a
    complete inventory of the host's current epoch and boot.  (A comment of the
    code names active hosts only; its statements admit draining ones.) *)
Theorem work_authority_needs_evidence r h t :
  reg_reachable r → h ∈ hosts r → h_authority_expires_at h = Some t →
  h_enrollment_state h = EnrApproved
  ∧ (h_lifecycle_state h = IntActive ∨ h_lifecycle_state h = IntDraining)
  ∧ h_integrity_state h = Verified
  ∧ is_Some (h_agent_session_id h) ∧ h_inventory_complete h = true
  ∧ h_inventory_session_id h = h_agent_session_id h ∧ h_inventory_epoch h = Some (h_epoch h)
  ∧ h_inventory_boot_id h = h_boot_id h.
Proof.
  intros Hr%reachable_wf Hh Ht. destruct (wf_host _ Hr _ Hh) as (_ & _ & Hm & Ha).
  destruct (Ha t Ht) as (session & Es & Hw). unfold may_work in Hw. bool_to_prop.
  match goal with H : h_inventory_complete h = true |- _ => rename H into Hc end.
  match goal with H : _ || _ = true |- _ => rename H into Hl end.
  unfold inventory_matches in Hm. rewrite Hc in Hm. simpl in Hm. bool_to_prop.
  split; [done|]. split; [bool_cases; auto|]. rewrite Es in *. by split_and!.
Qed.

(** ** Nothing is undone *)
Lemma authenticate_Ok r host_id secret now a :
  authenticate r host_id secret now = Ok a → ∃ h c,
    host_of r (to_string host_id) = Some h ∧ c ∈ credentials r
    ∧ cred_host_id c = to_string host_id ∧ cred_revoked_at c = None ∧ unexpired now c = true
    ∧ cred_verifier c = Verifier_from_secret secret
    ∧ h_enrollment_state h ≠ EnrRevoked ∧ h_lifecycle_state h ≠ IntRetired
    ∧ parse_str (cred_id c) = Some (ah_credential_id a) ∧ ah_host_id a = host_id
    ∧ ah_generation a = cred_generation c ∧ ah_epoch a = h_epoch h ∧ cred_host_epoch c = h_epoch h.
Proof.
  unfold authenticate. intros E. inv_result.
  match goal with H : fetch _ (credentials r) = Some ?c |- _ =>
    apply fetch_Some in H as [Hc Hq]; simpl in Hq; rename c into cx end.
  bool_to_prop. eexists _, cx. split; [done|]. split; [done|].
  match goal with H : Generation_new _ = Ok _ |- _ =>
    unfold Generation_new, counter_try_from in H; inv_result end.
  match goal with H : HostEpoch_new _ = Ok _ |- _ =>
    unfold HostEpoch_new, counter_try_from in H; inv_result end.
  unfold u64_try_from in *. inv_result. simpl. unfold is_null in *.
  split_and!; try done. by destruct (cred_revoked_at cx).
Qed.

(** A revoked credential stays revoked. *)
Lemma revoked_later r r' c t :
  reg_wf r → rtc reg_step r r' → c ∈ credentials r → cred_revoked_at c = Some t →
  ∃ c', c' ∈ credentials r' ∧ cred_le c c' ∧ cred_revoked_at c' = Some t.
Proof.
  intros Hr Hs Hc Ht. destruct (steps_good _ _ Hs Hr) as [_ Hle].
  destruct (le_credentials _ _ Hle c Hc) as (c' & Hc' & Hcc). exists c'. split; [done|].
  split; [done|]. by apply Hcc.
Qed.

Lemma revoked_never_authenticates r r' c secret host_id now a :
  reg_wf r → c ∈ credentials r → is_Some (cred_revoked_at c) →
  cred_verifier c = Verifier_from_secret secret → rtc reg_step r r' →
  authenticate r' host_id secret now ≠ Ok a.
Proof.
  intros Hr Hc [t Ht] Hv Hs. destruct (steps_good _ _ Hs Hr) as [Hr' _].
  destruct (revoked_later _ _ _ _ Hr Hs Hc Ht) as (c' & Hc' & Hle & Ht').
  destruct (cred_le_fields _ _ Hle) as (_ & _ & _ & _ & Ev).
  intros (h & x & _ & Hx & _ & Hn & _ & Hvx & _)%authenticate_Ok.
  assert (x = c') as -> by (eapply unique_by; [apply (wf_verifiers _ Hr')|done..|congruence]).
  congruence.
Qed.

Lemma revoked_never_accepted r r' c auth now :
  reg_wf r → c ∈ credentials r → is_Some (cred_revoked_at c) → rtc reg_step r r' →
  to_string (ah_credential_id auth) = cred_id c →
  ensure_authenticated_generation (rg_policy r') auth now ≠ Ok tt.
Proof.
  intros Hr Hc [t Ht] Hs Ea E. destruct (steps_good _ _ Hs Hr) as [Hr' _].
  destruct (revoked_later _ _ _ _ Hr Hs Hc Ht) as (c' & Hc' & Hle & Ht').
  destruct (cred_le_fields _ _ Hle) as (Ei & _).
  unfold ensure_authenticated_generation in E. repeat case_match; inv_result.
  match goal with H : (count_rows _ _ =? 1) = true |- _ => apply Z.eqb_eq in H; rename H into Hcnt end.
  destruct (count_rows_pos _ _ ltac:(rewrite Hcnt; lia)) as (x & Hx & Hq). simpl in Hq. bool_to_prop.
  assert (x = c') as -> by (eapply unique_by; [apply (wf_cred_ids _ Hr')|done..|congruence]).
  unfold is_null in *. by rewrite Ht' in *.
Qed.

(** C31: once a credential is revoked, no later state of the registry
    authenticates its secret, for any host and at any time, and no transaction
    accepts an identity that was authenticated with it before. *)
Theorem revocation_is_permanent r r' c secret :
  reg_wf r → c ∈ credentials r → is_Some (cred_revoked_at c) →
  cred_verifier c = Verifier_from_secret secret → rtc reg_step r r' →
  (∀ host_id now a, authenticate r' host_id secret now ≠ Ok a)
  ∧ ∀ auth now, to_string (ah_credential_id auth) = cred_id c →
      ensure_authenticated_generation (rg_policy r') auth now ≠ Ok tt.
Proof.
  intros Hr Hc Hrev Hv Hs. split; [intros; by eapply revoked_never_authenticates|].
  intros auth now Ea. by eapply revoked_never_accepted.
Qed.

(** A host that is retired stays retired: nothing in any later state
    authenticates for it. *)
Theorem retirement_is_final r r' h host_id :
  reg_wf r → h ∈ hosts r → h_lifecycle_state h = IntRetired → h_id h = to_string host_id →
  rtc reg_step r r' →
  (∃ h', h' ∈ hosts r' ∧ h_id h' = h_id h ∧ h_lifecycle_state h' = IntRetired)
  ∧ ∀ secret now a, authenticate r' host_id secret now ≠ Ok a.
Proof.
  intros Hr Hh Hl Ei Hs. destruct (steps_good _ _ Hs Hr) as [Hr' Hle].
  destruct (le_hosts _ _ Hle h Hh) as (h' & Hh' & Ei' & _ & _ & Hl'). split; [by exists h'; auto|].
  intros secret now a (x & c & Hx & _ & _ & _ & _ & _ & _ & Hnr & _)%authenticate_Ok.
  rewrite (host_of_is r' _ h') in Hx; [|done|done|congruence]. simplify_eq. by apply Hnr, Hl'.
Qed.

(** Whoever [authenticate] accepts, every transaction that checks the
    identity again at the same time accepts too. *)
Lemma authenticated_is_accepted r host_id secret now a :
  reg_wf r → authenticate r host_id secret now = Ok a →
  ensure_authenticated_generation (rg_policy r) a now = Ok tt.
Proof.
  intros Hr (h & c & Hh & Hc & Eh & Hn & Hu & Hv & He & Hl & Hp & Eha & Eg & Ee & Eep)%authenticate_Ok.
  destruct (wf_creds _ Hr c Hc) as ((u & Hu128 & Eid) & Hg & _). pose proof Hh as [Hin Ei]%host_of_Some.
  destruct (wf_host _ Hr h Hin) as (_ & Hep & _).
  assert (ah_credential_id a = u) as Ecid. { rewrite Eid, parse_to_string in Hp; [congruence|done]. }
  unfold ensure_authenticated_generation. rewrite Eg, Ee, Eha, Ecid.
  destruct (Z.gtb_spec (cred_generation c) i64_max); [lia|].
  destruct (Z.gtb_spec (h_epoch h) i64_max); [lia|].
  rewrite (count_one cred_id _ _ c); [done|apply (wf_cred_ids _ Hr)|done| |].
  - unfold unexpired in Hu. rewrite Eid, Eh, Eep, Hn, Hu, !String.eqb_refl, !Z.eqb_refl. simpl.
    apply exists_row_true. exists h. split; [done|].
    rewrite Ei, String.eqb_refl, Z.eqb_refl, !bool_decide_eq_false_2 by done. done.
  - intros b _ Hq. bool_to_prop. congruence.
Qed.
End trace.
