(* ===== verification/RegistrySample.v ===== *)
(** * A host from its enrollment to its retirement

    One run of the registry on concrete inputs: Alice issues a code, a machine
    enrolls with it, opens a session, reports its inventory, is approved and
    activated and gets work authority; its credential is rotated and revoked,
    it is recovered and finally retired.  The states of the run are where the
    theorems of the registry are applied. *)
From S2P Require Import Prelude Base64 Ids Domain Protocol Outcomes Capabilities Inventory Crypto Store Service Admission Commands Fleet RegistryStore Registry Observation Reconcile RegistrySpec ObservationSpec ReconcileSpec RegistryTrace.
From stdpp Require Import pretty.
#[local] Open Scope string_scope.
#[local] Open Scope Z_scope.

Module SampleRegistry.
#[export] Existing Instances Hyphenated.uuid_text PlainAead.aead SampleRun.result_json.

(** A digest of 32 bytes, whatever the length of the text. *)
#[export] Instance codec : Codec :=
  {| sha256 text := take 32 (text ++ replicate 32 0)%list;
     envelope_json e := Some (bytes (idempotency_key e)) |}.
#[export] Instance scope_json : ScopeJson := {| scope_text scope := Some (String.concat "," (to_string <$> scope)) |}.
#[export] Instance observation_json : ObservationJson :=
  {| handshake_json request := Some (bytes (to_string (hs_request_id request)));
     report_json report := Some (bytes (pretty (ir_inventory_sequence report)));
     heartbeat_json request := Some (bytes (to_string (hb_request_id request)));
     capabilities_json _ := Some "{}";
     mappings_json l := Some (String.concat "," (im_local_key <$> l)) |}.

Definition alice : Principal := AuthenticatedUser "alice".
Definition id (n : Z) : string := Hyphenated.print n.

(** The database before the first host. *)
Definition r_new : Registry :=
  {| rg_policy := SampleFleet.policy <| fleet_hosts := [] |> <| host_credentials := [] |>
       <| host_resource_domains := [] |> <| host_backends := [] |> <| host_target_grants := [] |>
       <| host_sessions := [] |>;
     host_enrollments := []; host_credential_rotations := []; fleet_observation_sessions := [];
     fleet_inventory_snapshots := []; fleet_observed_domains := []; fleet_observed_backends := [];
     fleet_observed_interactive_sessions := []; host_samples := []; registry_events := [] |}.

(** The state after a transaction that answers, and after one that does not. *)
Definition after {A} (x : Result (Registry * A) RegistryError) : Registry :=
  match x with Ok (r, _) => r | Err _ => r_new end.
Definition committed (x : Result Registry RegistryError) : Registry :=
  match x with Ok r => r | Err _ => r_new end.
Definition seen {A} (x : Registry * Work * Result A InventoryError) : Registry := x.1.1.

Definition drawn (n : Z) : list Z := replicate 32 n.
Definition secret (n : Z) : string := OneTimeSecret_generate (drawn n).

Definition registration : HostRegistration :=
  {| hreg_name := "builder"; hreg_host_os := Linux; hreg_architecture := X64;
     hreg_fingerprint := None |}.

Definition enrollment : IssueEnrollment :=
  {| ie_idempotency_key := "enroll-1"; ie_scope := [30]; ie_intended_host_id := None;
     ie_ttl_millis := None |}.
Notation issue r := (issue_enrollment r alice enrollment (drawn 1) 80 1000).
Notation consume r := (consume_enrollment r (secret 1) registration (drawn 2) 5 20 91 2000).

Definition auth : AuthenticatedHost :=
  {| ah_host_id := 5; ah_credential_id := 91; ah_generation := 1; ah_epoch := 1 |}.

Definition hello (request session : Z) (boot : string) : HandshakeRequest :=
  {| hs_request_id := request; hs_agent_session_id := session; hs_boot_id := boot;
     hs_supported_protocol := {| pr_min := 1; pr_max := 1 |}; hs_agent_version := "0.1.3";
     hs_expected_host_epoch := Some 1; hs_results_flushed := true |}.

Definition domain (key : string) (parent : option string) (kind : DomainKind) : ObservedDomain :=
  {| od_local_key := key; od_known_id := None; od_parent_local_key := parent; od_kind := kind;
     od_name := key; od_runtime_identity := None;
     od_capacity := {| oc_cpu_millis := Some 4000; oc_memory_mib := Some 8192;
                       oc_disk_bytes := Some 1000000 |} |}.
Definition backend : ObservedBackend :=
  {| obk_local_key := "docker"; obk_known_id := None; obk_domain_local_key := "vm";
     obk_runtime_kind := Docker; obk_execution_os := Linux; obk_architecture := X64;
     obk_capabilities := SampleBackend.report; obk_readiness := BackendReady; obk_reason := None;
     obk_runtime_identity := None |}.
Definition sample (key : string) : ObservedSample :=
  {| os_domain_local_key := key; os_observed_at := 3000; os_coverage := CoverageComplete;
     os_cpu_used_millis := Some 100; os_memory_used_mib := Some 1000;
     os_disk_free_bytes := Some 900000; os_uptime_seconds := Some 60 |}.

(** The child is reported before its parent. *)
Definition report : InventoryReport :=
  {| ir_host_epoch := 1; ir_control_plane_incarnation := 6; ir_authority_session_id := 7;
     ir_boot_id := "boot"; ir_inventory_sequence := 1; ir_observed_at := 3000;
     ir_domains := [domain "vm" (Some "root") VirtualMachine; domain "root" None Physical];
     ir_backends := [backend]; ir_interactive_sessions := []; ir_samples := [sample "root"] |}.
Definition inventory : InventoryRequest := {| iq_request_id := 301; iq_report := report |}.
Definition ids : Drawn :=
  {| draw_domain key := if String.eqb key "root" then 20 else 21; draw_backend _ := 8;
     draw_session _ := 90 |}.

Definition beat (request sequence now : Z) : HeartbeatRequest :=
  {| hb_request_id := request; hb_host_epoch := 1; hb_control_plane_incarnation := 6;
     hb_authority_session_id := 7; hb_boot_id := "boot"; hb_heartbeat_sequence := sequence;
     hb_observed_at := now; hb_samples := [sample "root"] |}.

Definition w0 : Work := SampleFleet.empty.
Definition r_issued : Registry := after (issue r_new).
Definition r_enrolled : Registry := after (consume r_issued).
Definition r_opened : Registry := seen (handshake r_enrolled w0 auth (hello 300 7 "boot") 3000).
Definition r_observed : Registry := seen (submit_inventory r_opened w0 auth inventory ids 4000).

Definition approval : ApproveHost :=
  {| ap_host_id := 5; ap_expected_revision := 1; ap_expected_inventory_revision := 1;
     ap_expected_inventory_digest := "MQAAAAAAAAAAAAAAAAAAAAAAAAAAAAAAAAAAAAAAAAA";
     ap_scope := [30] |}.
Definition r_approved : Registry := committed (approve_host r_observed alice approval 5000).
Definition r_active : Registry := committed (set_host_lifecycle r_approved alice 5 2 IntActive 6000).
Definition r_working : Registry := seen (heartbeat r_active w0 auth (beat 302 1 7000) 7000).

(** A rotation, and the revocation of a credential. *)
Definition rotation : RequestRotation :=
  {| rr_host_id := 5; rr_expected_generation := 1; rr_idempotency_key := "rotate-1" |}.
Definition r_requested : Registry := after (request_rotation r_working alice rotation 400 8000).
Definition r_exchanged : Registry :=
  after (exchange_rotation r_requested auth 400 (secret 3) 92 9000).
Definition auth2 : AuthenticatedHost :=
  {| ah_host_id := 5; ah_credential_id := 92; ah_generation := 2; ah_epoch := 1 |}.
Definition r_rotated : Registry := after (acknowledge_rotation r_exchanged auth2 400 10000).
Definition r_revoked : Registry := committed (revoke_credential r_working alice 5 1 8000).

(** A recovery, and a retirement. *)
Definition recovery : RecoverHost :=
  {| rh_host_id := 5; rh_expected_revision := 3; rh_idempotency_key := "recover-1" |}.
Definition r_recovering : Registry := after (recover_host r_working alice recovery (drawn 4) 81 8000).
Notation recover r := (consume_enrollment r (secret 4) registration (drawn 5) 6 22 93 9000).
Definition r_recovered : Registry := after (recover r_recovering).
Definition r_paused : Registry := committed (set_host_lifecycle r_working alice 5 3 IntPaused 8000).
Definition r_retired : Registry := committed (retire_host r_paused w0 alice 5 4 9000).

(** ** The run is a sequence of steps *)
Lemma answered_Ok {A} (x : Result (Registry * A) RegistryError) :
  is_ok x = true → ∃ a, x = Ok (after x, a).
Proof. destruct x as [[r a]|]; [by exists a|done]. Qed.

Lemma committed_Ok (x : Result Registry RegistryError) : is_ok x = true → x = Ok (committed x).
Proof. by destruct x. Qed.

Lemma seen_Ok {A} (x : Registry * Work * Result A InventoryError) : x = (seen x, x.1.2, x.2).
Proof. by destruct x as [[? ?] ?]. Qed.

Lemma small_uuid u : (0 <=? u) = true → (u <? 2 ^ 128) = true → is_uuid u.
Proof. unfold is_uuid. lia. Qed.

Lemma new_vacant : vacant r_new.
Proof. done. Qed.

Lemma issue_step r : is_ok (issue r) = true → reg_step r (after (issue r)).
Proof. intros [a E]%answered_Ok. by eapply step_issue. Qed.
Lemma consume_step r : is_ok (consume r) = true → reg_step r (after (consume r)).
Proof. intros [a E]%answered_Ok. eapply step_consume; [by apply (small_uuid 91)|exact E]. Qed.
Lemma recover_step r : is_ok (recover_host r alice recovery (drawn 4) 81 8000) = true →
  reg_step r (after (recover_host r alice recovery (drawn 4) 81 8000)).
Proof. intros [a E]%answered_Ok. by eapply step_recover. Qed.
Lemma approve_step r now : is_ok (approve_host r alice approval now) = true →
  reg_step r (committed (approve_host r alice approval now)).
Proof. intros E%committed_Ok. by eapply step_approve. Qed.
Lemma intent_step r revision intent now : is_ok (set_host_lifecycle r alice 5 revision intent now) = true →
  reg_step r (committed (set_host_lifecycle r alice 5 revision intent now)).
Proof. intros E%committed_Ok. by eapply step_lifecycle. Qed.
Lemma retire_step r revision now : is_ok (retire_host r w0 alice 5 revision now) = true →
  reg_step r (committed (retire_host r w0 alice 5 revision now)).
Proof. intros E%committed_Ok. by eapply step_retire. Qed.
Lemma revoke_step r now : is_ok (revoke_credential r alice 5 1 now) = true →
  reg_step r (committed (revoke_credential r alice 5 1 now)).
Proof. intros E%committed_Ok. by eapply step_revoke_credential. Qed.
Lemma hello_step r a request now : reg_step r (seen (handshake r w0 a request now)).
Proof. eapply step_handshake, seen_Ok. Qed.
Lemma inventory_step r a request now : reg_step r (seen (submit_inventory r w0 a request ids now)).
Proof. eapply step_inventory, seen_Ok. Qed.
Lemma beat_step r a request now : reg_step r (seen (heartbeat r w0 a request now)).
Proof. eapply step_heartbeat, seen_Ok. Qed.

Lemma issued_step : reg_step r_new r_issued.
Proof. apply issue_step. by vm_compute. Qed.
Lemma enrolled_step : reg_step r_issued r_enrolled.
Proof. apply consume_step. by vm_compute. Qed.
Lemma opened_step : reg_step r_enrolled r_opened.
Proof. apply hello_step. Qed.
Lemma observed_step : reg_step r_opened r_observed.
Proof. apply inventory_step. Qed.
Lemma approved_step : reg_step r_observed r_approved.
Proof. apply approve_step. by vm_compute. Qed.
Lemma active_step : reg_step r_approved r_active.
Proof. apply intent_step. by vm_compute. Qed.
Lemma working_step : reg_step r_active r_working.
Proof. apply beat_step. Qed.
Lemma recovering_step : reg_step r_working r_recovering.
Proof. apply recover_step. by vm_compute. Qed.
Lemma paused_step : reg_step r_working r_paused.
Proof. apply intent_step. by vm_compute. Qed.
Lemma retired_step : reg_step r_paused r_retired.
Proof. apply retire_step. by vm_compute. Qed.
Lemma revoked_step : reg_step r_working r_revoked.
Proof. apply revoke_step. by vm_compute. Qed.

Lemma opened_reachable : rtc reg_step r_new r_opened.
Proof.
  eapply rtc_l; [exact issued_step|]. eapply rtc_l; [exact enrolled_step|]. apply rtc_once, opened_step.
Qed.

Lemma observed_reachable : rtc reg_step r_new r_observed.
Proof. eapply rtc_r; [exact opened_reachable|exact observed_step]. Qed.

Lemma working_reachable : rtc reg_step r_new r_working.
Proof.
  etrans; [exact observed_reachable|]. eapply rtc_l; [exact approved_step|].
  eapply rtc_l; [exact active_step|]. apply rtc_once, working_step.
Qed.

Lemma reached_wf r : rtc reg_step r_new r → reg_wf r.
Proof. intros Hs. apply reachable_wf. by exists r_new. Qed.

(** The only row of a table of one. *)
Definition only {A} (l : list A) : option A := match l with [a] => Some a | _ => None end.
Lemma only_in {A} (l : list A) a : only l = Some a → a ∈ l.
Proof. destruct l as [|b [|]]; intros [= ->]. left. Qed.
Lemma only_eq {A} (l : list A) a b : only l = Some a → b ∈ l → b = a.
Proof. destruct l as [|c [|]]; intros [= ->]. by rewrite list_elem_of_singleton. Qed.
End SampleRegistry.
