(* ===== verification/InventoryProps.v ===== *)
(** * Properties of inventories and observation sessions

    The walks over a reported domain graph end and visit parents first; the
    digest of a report does not depend on the order of its lists; a report
    changes no policy; a replayed inventory gets the answer of the first. *)
From S2P Require Import Prelude Base64 Ids Domain Protocol Outcomes Capabilities Inventory Crypto Store Service Admission Commands RegistryStore Registry Observation Reconcile RegistrySpec ObservationSpec ReconcileSpec.
From stdpp Require Import sorting.
#[local] Open Scope string_scope.
#[local] Open Scope Z_scope.

(** ** The domain graph *)
Section graph.
Variable domains : list ObservedDomain.

Lemma by_key_Some key d : by_key domains key = Some d → d ∈ domains ∧ od_local_key d = key.
Proof.
  intros [Hd Hk]%fetch_Some. apply list_elem_of_In, in_rev, list_elem_of_In in Hd. by bool_to_prop.
Qed.

(** A walk the check accepted is a walk that ends. *)
Lemma walk_ends fuel d seen :
  walk_to_root domains fuel d seen = Ok tt →
  ∃ n, (n ≤ fuel)%nat ∧ ∀ more key, by_key domains key = Some d →
    depth_of domains (S (n + more)) key = Some n.
Proof.
  revert d seen. induction fuel as [|fuel IH]; intros d seen E; simpl in E;
    destruct (od_parent_local_key d) as [parent|] eqn:Hp; inv_result.
  1, 3: exists O; split; [lia|]; intros more key Hk; simpl; by rewrite Hk; simpl; rewrite Hp.
  destruct (IH _ _ E) as (n & Hn & Hd). exists (S n). split; [lia|]. intros more key Hk.
  change (depth_of domains (S (S n + more)) key) with
    (match by_key domains key ≫= od_parent_local_key with
     | None => Some O | Some parent => S <$> depth_of domains (S (n + more)) parent end).
  rewrite Hk. cbn [mbind option_bind]. rewrite Hp. by rewrite (Hd more parent).
Qed.

Lemma by_key_total d : d ∈ domains → is_Some (by_key domains (od_local_key d)).
Proof.
  intros Hd. destruct (by_key domains (od_local_key d)) eqn:E; [by eexists|].
  unfold by_key in E. rewrite fetch_None in E.
  specialize (E d). rewrite String.eqb_refl in E. discriminate E.
  apply list_elem_of_In. rewrite <-in_rev. by apply list_elem_of_In.
Qed.
End graph.

Lemma accepted_walk report d :
  validate_root_and_depth report = Ok tt → d ∈ ir_domains report →
  walk_to_root (ir_domains report) 63 d [] = Ok tt.
Proof.
  unfold validate_root_and_depth. intros E Hd. repeat case_match; inv_result.
  by eapply try_fold_each in E.
Qed.

(** Once [validate_root_and_depth] accepts a report, the loop that
    computes the sort key of a pending domain ends for every domain, after
    at most 63 parents: with any fuel from 64 on it returns the same depth. *)
Theorem depth_walk_terminates report :
  validate_root_and_depth report = Ok tt →
  ∀ d, d ∈ ir_domains report → ∃ n, (n ≤ 63)%nat ∧
    ∀ fuel, (64 ≤ fuel)%nat → depth_of (ir_domains report) fuel (od_local_key d) = Some n.
Proof.
  intros E d Hd. destruct (by_key_total _ d Hd) as [d' Hk]. pose proof (by_key_Some _ _ _ Hk) as [Hd' _].
  destruct (walk_ends _ _ _ _ (accepted_walk _ _ E Hd')) as (n & Hn & Hdepth).
  exists n. split; [done|]. intros fuel Hf. replace fuel with (S (n + (fuel - S n))) by lia. by apply Hdepth.
Qed.

Lemma walk_parent domains fuel d seen p :
  walk_to_root domains fuel d seen = Ok tt → od_parent_local_key d = Some p →
  ∃ dp fuel', fuel = S fuel' ∧ by_key domains p = Some dp ∧ walk_to_root domains fuel' dp (p :: seen) = Ok tt.
Proof.
  intros E Hp. destruct fuel as [|fuel]; simpl in E; rewrite Hp in E; inv_result.
  by eexists _, fuel.
Qed.

(** A child is one deeper than its parent. *)
Lemma child_deeper report d p :
  NoDup (od_local_key <$> ir_domains report) → validate_root_and_depth report = Ok tt →
  d ∈ ir_domains report → od_parent_local_key d = Some p →
  ∃ dp n, dp ∈ ir_domains report ∧ od_local_key dp = p
    ∧ depth_of (ir_domains report) 64 (od_local_key dp) = Some n
    ∧ depth_of (ir_domains report) 64 (od_local_key d) = Some (S n).
Proof.
  intros Hnd Hv Hd Hp.
  destruct (walk_parent _ _ _ _ _ (accepted_walk _ _ Hv Hd) Hp) as (dp & fuel & [= <-] & Hk & Hw).
  destruct (walk_ends _ _ _ _ Hw) as (n & Hn & Hdepth). pose proof (by_key_Some _ _ _ Hk) as [Hdp <-].
  destruct (by_key_total _ d Hd) as [d0 Hd0]. pose proof (by_key_Some _ _ _ Hd0) as [Hin0 Ek0].
  assert (d0 = d) as -> by by eapply unique_by.
  exists dp, n. split_and!; [done|done| |].
  - replace 64%nat with (S (n + (63 - n))) by lia. by apply Hdepth.
  - assert (depth_of (ir_domains report) 63 (od_local_key dp) = Some n) as E.
    { replace 63%nat with (S (n + (62 - n))) by lia. by apply Hdepth. }
    change (match by_key (ir_domains report) (od_local_key d) ≫= od_parent_local_key with
      | None => Some O | Some p => S <$> depth_of (ir_domains report) 63 p end = Some (S n)).
    rewrite Hd0. cbn [mbind option_bind]. by rewrite Hp, E.
Qed.

Lemma sorted_suffix {A} (R : A → A → Prop) l1 a l2 b :
  StronglySorted R (l1 ++ a :: l2) → b ∈ l2 → R a b.
Proof.
  intros Hs Hb. induction l1 as [|x l1 IH]; simpl in Hs; inversion Hs as [|? ? Hs' HF]; subst; [|auto].
  rewrite Forall_forall in HF. by apply HF.
Qed.

(** The domains are reconciled in an order in which every parent comes
    before its children, so that the parent's server identifier is known when
    a child is placed. *)
Theorem parents_come_first report l1 d l2 parent :
  validate_shape report = Ok tt → validate_root_and_depth report = Ok tt →
  by_depth (ir_domains report) = (l1 ++ d :: l2)%list → od_parent_local_key d = Some parent →
  ∃ d', d' ∈ l1 ∧ od_local_key d' = parent.
Proof.
  intros Hs Hv E Hp.
  assert (NoDup (od_local_key <$> ir_domains report)) as Hnd.
  { unfold validate_shape in Hs. inv_result. bool_to_prop. unfold nodup_b in *. by bool_to_prop. }
  unfold by_depth in E. pose proof (order_by_sorted (λ a b,
    Nat.leb (default O (depth_of (ir_domains report) 64 (od_local_key a)))
      (default O (depth_of (ir_domains report) 64 (od_local_key b))))
    ltac:(intros a b; rewrite !Nat.leb_le; lia)
    ltac:(intros a b c; rewrite !Nat.leb_le; lia) (ir_domains report)) as Hsort.
  rewrite E in Hsort.
  assert (d ∈ ir_domains report) as Hd.
  { assert (d ∈ (l1 ++ d :: l2)%list) as Hd by (apply elem_of_app; right; left).
    rewrite <-E in Hd. by apply elem_of_order_by in Hd. }
  destruct (child_deeper report d parent) as (dp & n & Hdp & Ek & E1 & E2); [done..|].
  exists dp. split; [|done].
  assert (dp ∈ (l1 ++ d :: l2)%list) as Hin by (rewrite <-E; by apply elem_of_order_by).
  apply elem_of_app in Hin as [Hin|Hin]; [done|exfalso].
  apply elem_of_cons in Hin as [->|Hin]; [assert (n = S n) by congruence; lia|].
  pose proof (sorted_suffix _ _ _ _ _ Hsort Hin) as HF. cbv beta in HF. rewrite E1, E2 in HF.
  apply Nat.leb_le in HF. simpl in HF. lia.
Qed.

(** ** The digest of a report *)
Lemma by_text_permutation {A} (key : A → string) l l' :
  NoDup (key <$> l) → l' ≡ₚ l → by_text key l' = by_text key l.
Proof.
  intros Hnd Hp. unfold by_text. set (le := λ a b, String.leb (key a) (key b)).
  assert (∀ m, StronglySorted (λ x y, le x y = true) (order_by le m)) as Hs.
  { apply order_by_sorted; unfold le; [intros; apply String.leb_total|].
    intros a b c. apply string_leb_trans. }
  eapply StronglySorted_unique_strong; [|apply Hs..|by rewrite !order_by_perm].
  intros x y Hx%elem_of_order_by Hy%elem_of_order_by H1 H2.
  eapply unique_by; [exact Hnd|by rewrite <-Hp|done|by apply String.leb_antisym].
Qed.

(** Two reports that list the same observations. *)
Record same_observations (a b : InventoryReport) : Prop := {
  so_identity : a <| ir_domains := [] |> <| ir_backends := [] |> <| ir_interactive_sessions := [] |>
                  <| ir_samples := [] |>
              = b <| ir_domains := [] |> <| ir_backends := [] |> <| ir_interactive_sessions := [] |>
                  <| ir_samples := [] |>;
  so_domains : ir_domains a ≡ₚ ir_domains b;
  so_backends : ir_backends a ≡ₚ ir_backends b;
  so_sessions : ir_interactive_sessions a ≡ₚ ir_interactive_sessions b;
  so_samples : ir_samples a ≡ₚ ir_samples b }.

(** The digest by which a repeated inventory is recognized does not
    depend on the order in which the agent lists its domains, backends,
    sessions and samples, when no two samples are of one domain. *)
Theorem digest_ignores_order `{Codec, ObservationJson} (a b : InventoryReport) :
  same_observations a b → validate_shape b = Ok tt → NoDup (os_domain_local_key <$> ir_samples b) →
  canonical_inventory_digest a = canonical_inventory_digest b.
Proof.
  intros [Ei Hd Hb Hi Hsa] Hs Hns. unfold canonical_inventory_digest.
  assert (canonical a = canonical b) as ->; [|done].
  unfold validate_shape in Hs. inv_result. bool_to_prop. unfold nodup_b in *. bool_to_prop.
  destruct a, b. simpl in *. injection Ei as -> -> -> -> -> ->. 
  cbv -[by_text od_local_key obk_local_key ois_local_key os_domain_local_key].
  f_equal; by apply by_text_permutation.
Qed.

(** ** What a report may change *)
Section policy.
Context `{UuidText, Codec, Aead, ResultJson, ScopeJson, ObservationJson}.

(** What of a host belongs to the administrator and the control plane. *)
Definition host_policy (h : HostRow) :=
  (h_id h, h_epoch h, h_revision h, h_enrollment_state h, h_lifecycle_state h, h_integrity_state h,
   h_authority_expires_at h, h_tags h, h_current_credential_generation h).

Lemma complete_inventory_hosts r r' cs digest revision now :
  complete_inventory cs digest revision now r = Ok r' → host_policy <$> hosts r' = host_policy <$> hosts r.
Proof.
  unfold complete_inventory. intros E. inv_result. apply update_where_fmap_in. intros h _ _.
  unfold invalidate_inventory. by case_match.
Qed.

Lemma observes_hosts host report p p' f :
  observes host report p p' → observes host report p (p' <| fleet_hosts ::= f |>).
Proof. intros [? ? ? ?]. by split. Qed.

(** Whatever an agent reports, an inventory leaves the work tables, the
    grants and every other table of the administrator's policy alone; of a
    host it keeps the lifecycle, the approval, the integrity, the epoch and
    the work authority; it disables or enables no backend and authorizes no
    session; it adds only rows of its own host, disabled and unauthorized;
    and it changes a budget only where none was set, to a share of what was
    reported. *)
Theorem inventory_respects_policy r w auth request drawn now r' w' answer :
  submit_inventory r w auth request drawn now = (r', w', answer) →
  w' = w ∧ host_credential_rotations r' = host_credential_rotations r
  ∧ host_enrollments r' = host_enrollments r
  ∧ observes (to_string (ah_host_id auth)) (iq_report request) (rg_policy r) (rg_policy r')
  ∧ host_policy <$> hosts r' = host_policy <$> hosts r.
Proof.
  unfold submit_inventory, transact. destruct (submit_inventory_tx _ _ _ _ _ _) as [[[r1 w1] a1]|e] eqn:E;
    intros [= <- <- <-]; [|done].
  unfold submit_inventory_tx in E. unfold reg in *. inv_result. destruct x1 as [r2 cs].
  match goal with H : load_current_session _ _ _ _ = Ok _ |- _ => pose proof (load_frame _ _ _ _ _ _ H) as
    (Ep & Ero & Een & _ & Ehost & _) end.
  inv_result. case_match.
  - case_match; inv_result. unfold replay_inventory in E. inv_result. simplify_eq. by rewrite Ep, Ero, Een.
  - unfold accept_inventory in E. inv_result. destruct x3 as [r3 mappings]. inv_result. simplify_eq.
    match goal with H : reconcile_inventory _ _ _ _ _ = Ok _ |- _ =>
      apply reconcile_inventory_ok in H as [(Hh3 & _ & En3 & Ro3 & _) Hob] end.
    match goal with H : insert_samples _ _ _ _ _ = Ok _ |- _ =>
      apply insert_samples_same in H as [(_ & _ & En4 & Ro4 & _) Ep4] end.
    match goal with H : insert_snapshot _ _ = Ok _ |- _ =>
      apply insert_snapshot_same in H as [(_ & _ & En5 & Ro5 & _) Ep5] end.
    match goal with H : complete_inventory _ _ _ _ _ = Ok ?y |- _ =>
      pose proof (complete_inventory_hosts _ _ _ _ _ _ H) as Hhosts;
      unfold complete_inventory in H; inv_result end.
    rewrite Ep5, Ep4, Hh3, Ep in Hhosts.
    case_match; simpl in *; (split; [done|]); (split; [congruence|]); (split; [congruence|]);
      (split; [|done]); rewrite Ep5, Ep4; rewrite Ehost, Ep in Hob; by apply observes_hosts.
Qed.
End policy.

(** ** Two machines behind one credential *)
Section exclusion.
Context `{UuidText, Codec, Aead, ResultJson, ScopeJson, ObservationJson}.

(** The session still speaks for its machine. *)
Definition still_live (x : ObservationRow) (h : HostRow) (now : Z) : Prop :=
  now < ob_lease_expires_at x ∨ ∃ t, h_authority_expires_at h = Some t ∧ now < t.

(** The session and the host are of the same epoch and control plane. *)
Definition same_authority r (x : ObservationRow) (h : HostRow) : Prop :=
  ob_host_epoch x = h_epoch h
  ∧ ∃ cp u, fleet_control_plane (rg_policy r) = Some cp ∧ fleet_uuid_from_str (cp_incarnation cp) = Ok u
      ∧ ob_control_plane_incarnation x = to_string u.

Lemma is_some_and_true {A} (f : A → bool) o :
  is_some_and f o = true ↔ ∃ a, o = Some a ∧ f a = true.
Proof. destruct o; simpl; naive_solver. Qed.

Lemma epoch_from_row_Ok h e : epoch_from_row h = Ok e → e = h_epoch h.
Proof.
  unfold epoch_from_row, u64_try_from, HostEpoch_new, counter_try_from. intros E. inv_result.
  repeat case_match; by inv_result.
Qed.

(** What a host quarantined for a conflict looks like. *)
Definition quarantined (h : HostRow) : Prop :=
  h_integrity_state h = Quarantined ∧ h_lifecycle_state h = IntPaused
  ∧ h_authority_expires_at h = None ∧ h_inventory_complete h = false.

Lemma invalidate_incomplete h h' :
  h_inventory_complete h' = false → h_inventory_complete (invalidate_inventory h h') = false.
Proof. intros E. unfold invalidate_inventory. by case_match. Qed.

Lemma invalidate_unchanged h h' :
  h_epoch h' = h_epoch h → h_agent_session_id h' = h_agent_session_id h →
  h_boot_id h' = h_boot_id h → h_authority_incarnation h' = h_authority_incarnation h →
  invalidate_inventory h h' = h'.
Proof. intros. unfold invalidate_inventory. by rewrite authority_unchanged. Qed.

(** The row of a host after an [UPDATE ... WHERE id=?]. *)
Lemma update_named host f r h :
  (∀ h, h_id (f h) = h_id h) → h ∈ hosts (update_hosts (host_named host) f r) → h_id h = host →
  ∃ h0, h0 ∈ hosts r ∧ h_id h0 = host ∧ h = invalidate_inventory h0 (f h0).
Proof.
  intros Hf (h0 & Hh0 & ->)%elem_of_update_where Ei. exists h0. split; [done|].
  unfold host_named in *. destruct (String.eqb (h_id h0) host) eqn:E0; bool_to_prop; done.
Qed.

Lemma quarantine_quarantined h :
  h_authority_expires_at h = None → h_inventory_complete h = false →
  quarantined (invalidate_inventory h (quarantine h)).
Proof. intros ? ?. by rewrite invalidate_unchanged. Qed.

Lemma quarantine_hosts r host_id now h :
  h ∈ hosts (update_hosts (host_named (to_string host_id)) quarantine (clear_host_observation r host_id now)) →
  h_id h = to_string host_id → quarantined h.
Proof.
  intros Hh Ei. apply update_named in Hh as (h1 & Hh1 & Ei1 & ->); [|done..].
  apply (update_named _ unobserved r) in Hh1 as (h0 & Hh0 & Ei0 & ->); [|done..].
  destruct (invalidate_inventory_same h0 (unobserved h0)) as (_ & _ & _ & _ & _ & E2).
  apply quarantine_quarantined; [by rewrite E2|by apply invalidate_incomplete].
Qed.

(** A transaction that rolls back does not answer with a session conflict. *)
Definition no_conflict {A} (x : Result A InventoryError) : Prop := x ≠ Err SessionConflict.

Lemma no_conflict_bind {A B} (c : Result A InventoryError) (k : A → Result B InventoryError) :
  no_conflict c → (∀ a, no_conflict (k a)) → no_conflict (result_bind c k).
Proof. intros Hc Hk. destruct c; simpl; [apply Hk|]. intros [= ->]. by apply Hc. Qed.
Lemma no_conflict_reg {A} (x : Result A RegistryError) : no_conflict (reg x).
Proof. by destruct x. Qed.
Lemma no_conflict_invalid {A E} why (x : Result A E) : no_conflict (invalid why x).
Proof. by destruct x. Qed.
Lemma no_conflict_ok_or {A} e (x : option A) : e ≠ SessionConflict → no_conflict (ok_or e x).
Proof. intros He. destruct x; [done|]. by intros [= ->]. Qed.

Ltac no_conflict_step :=
  first
    [ done
    | apply no_conflict_bind; [|intros ?]
    | apply no_conflict_reg
    | apply no_conflict_invalid
    | apply no_conflict_ok_or; discriminate
    | progress case_match ].
Ltac no_conflict := repeat no_conflict_step.

Lemma open_session_no_conflict r w auth request epoch incarnation digest now :
  no_conflict (open_session r w auth request epoch incarnation digest now).
Proof. unfold open_session, insert_session. cbv zeta. no_conflict. Qed.

Lemma handshake_tx_no_conflict r w auth request now : no_conflict (handshake_tx r w auth request now).
Proof.
  unfold handshake_tx, end_session, follow_credential, advance_rotated_session_credential,
    handshake_response, lease. cbv zeta.
  repeat first [apply open_session_no_conflict | no_conflict_step].
Qed.

Lemma open_session_answer r w auth request epoch incarnation digest now r' w' a :
  open_session r w auth request epoch incarnation digest now = Ok (r', w', a) → no_conflict a.
Proof.
  unfold open_session, handshake_response, lease. intros E. unfold reg in *. inv_result. simplify_eq.
  no_conflict.
Qed.

(** C33: a handshake answers with a session conflict only if the host has a
    live session of another boot, in the same epoch and under the same
    control plane; and then the conflict is committed before it is answered:
    that session is ended, and the host is quarantined and paused, without
    work authority and without a complete inventory. *)
Theorem session_conflict_quarantines r w auth request now r' w' :
  reg_wf r → handshake r w auth request now = (r', w', Err SessionConflict) →
  ∃ x h, live_session r (to_string (ah_host_id auth)) = Some x
    ∧ host_of r (to_string (ah_host_id auth)) = Some h ∧ same_authority r x h
    ∧ ob_boot_id x ≠ hs_boot_id request ∧ still_live x h now
    ∧ w' = w ∧ live_session r' (to_string (ah_host_id auth)) = None
    ∧ ∀ h', h' ∈ hosts r' → h_id h' = to_string (ah_host_id auth) → quarantined h'.
Proof.
  intros Hr. unfold handshake, transact.
  destruct (handshake_tx _ _ _ _ _) as [[[r1 w1] a1]|e] eqn:E; intros [= <- <- ->];
    [|by apply handshake_tx_no_conflict in E].
  unfold handshake_tx in E. unfold reg, invalid in *. inv_result.
  match goal with H : epoch_from_row _ = Ok _ |- _ => apply epoch_from_row_Ok in H; subst end.
  case_match; inv_result.
  destruct (live_session r (to_string (ah_host_id auth))) as [sx|] eqn:Hlive;
    [|exfalso; by apply open_session_answer in E].
  inv_result. case_match; inv_result. case_match; [|inv_result; exfalso; by apply open_session_answer in E].
  inv_result. simplify_eq. simpl in *. bool_to_prop.
  apply live_session_Some in Hlive as Hl. destruct Hl as (Hsx & Esx & Hnsx).
  match goal with H : to_i64 _ _ = Ok _ |- _ => unfold to_i64 in H; inv_result end.
  match goal with H : host_of r _ = Some ?hh |- _ => rename H into Hh; exists sx, hh end.
  split; [done|]. split; [done|]. split; [by split; [|eauto]|]. split; [congruence|].
  split.
  { match goal with H : (_ <? _) || is_some_and _ _ = true |- _ =>
      apply orb_true_iff in H as [H|(t & ? & H)%is_some_and_true]; bool_to_prop end;
      [by left|right; by exists t]. }
  split; [done|]. split; [|by apply (quarantine_hosts _ _ now)].
  match goal with H : end_session _ _ _ r = Ok _ |- _ => unfold end_session in H; inv_result end.
  unfold live_session. apply fetch_None. simpl. intros y (z & Hz & ->)%elem_of_update_where.
  unfold session_named. destruct (String.eqb (ob_session_id z) (ob_session_id sx)) eqn:Ez.
  - simpl. by rewrite andb_false_r.
  - apply andb_false_iff. destruct (String.eqb_spec (ob_host_id z) (to_string (ah_host_id auth))) as [Ehz|];
      [right|by left]. destruct (ob_ended_at z) eqn:Hn; [done|exfalso].
    apply String.eqb_neq in Ez. apply Ez. apply (wf_live _ Hr); try done. congruence.
Qed.

(** A handshake is accepted only if no other machine is live behind the
    credential: where the host has a session of its epoch and control plane,
    the request comes from the same boot, or both the session's lease and the
    host's work authority have run out. *)
Theorem accepted_handshake_excludes r w auth request now r' w' response x h :
  handshake r w auth request now = (r', w', Ok response) →
  hr_negotiated_protocol response = Supported 1 →
  live_session r (to_string (ah_host_id auth)) = Some x →
  host_of r (to_string (ah_host_id auth)) = Some h → same_authority r x h →
  ob_boot_id x = hs_boot_id request ∨ ¬ still_live x h now.
Proof.
  unfold handshake, transact. destruct (handshake_tx _ _ _ _ _) as [[[r1 w1] a1]|e] eqn:E;
    intros [= <- <- ->] Hsup Hlive Hh (Eep & cp & u & Hcp & Hu & Einc).
  unfold handshake_tx in E. unfold reg, invalid in *. inv_result.
  match goal with H : epoch_from_row _ = Ok _ |- _ => apply epoch_from_row_Ok in H; subst end.
  simplify_eq. case_match; inv_result; [by simplify_eq/=|]. rewrite Hlive in E. inv_result.
  match goal with H : to_i64 _ _ = Ok _ |- _ => unfold to_i64 in H; inv_result end.
  rewrite Hu in *. simplify_eq. rewrite Eep, Z.eqb_refl, Einc, String.eqb_refl in E. simpl in E.
  destruct (String.eqb_spec (ob_boot_id x) (hs_boot_id request)) as [|Hb]; [by left|right].
  rewrite andb_false_r in E. simpl in E. case_match; inv_result; simplify_eq.
  match goal with H : _ || _ = false |- _ => apply orb_false_iff in H as [Hlease Hauth] end.
  bool_to_prop. intros [Hl|(t & Ht & Hl)]; [lia|].
  rewrite Ht in Hauth. simpl in Hauth. bool_to_prop. lia.
Qed.
End exclusion.

(** ** Repeated inventories *)
Section replay.
Context `{UuidText, Codec, Aead, ResultJson, ScopeJson, ObservationJson}.

(** The receipt a loaded session carries is that of its row. *)
Lemma load_row r r' auth report now cs :
  load_current_session r auth report now = Ok (r', cs) →
  ∃ x, x ∈ fleet_observation_sessions r
    ∧ ob_session_id x = to_string (ir_authority_session_id report)
    ∧ cs_current_inventory_sequence cs = ob_current_inventory_sequence x
    ∧ cs_current_inventory_digest cs = ob_current_inventory_digest x.
Proof.
  unfold load_current_session. intros E. unfold reg, invalid in *. inv_result. simplify_eq.
  match goal with H : fetch _ (fleet_observation_sessions r) = Some ?y |- _ =>
    apply fetch_Some in H as [Hy Hq]; exists y end.
  simpl in Hq. unfold session_named in Hq. by bool_to_prop.
Qed.

Lemma inventory_response_session request cs cs' digest received revision state expires a b c :
  cs_host_id cs' = cs_host_id cs → cs_host_epoch cs' = cs_host_epoch cs →
  cs_control_plane_incarnation cs' = cs_control_plane_incarnation cs →
  inventory_response request cs' digest received revision state expires a b c
  = inventory_response request cs digest received revision state expires a b c.
Proof. intros E1 E2 E3. unfold inventory_response. by rewrite E1, E2, E3. Qed.

(** What the tables hold once an inventory was answered. *)
Lemma submitted_receipt r w auth request drawn now r' w' response :
  reg_wf r → submit_inventory_tx r w auth request drawn now = Ok (r', w', Ok response) →
  ∃ r1 cs digest x i,
    canonical_inventory_digest (iq_report request) = Ok digest
    ∧ load_current_session r auth (iq_report request) now = Ok (r1, cs)
    ∧ x ∈ fleet_observation_sessions r'
    ∧ ob_session_id x = to_string (ir_authority_session_id (iq_report request))
    ∧ ob_current_inventory_sequence x = ir_inventory_sequence (iq_report request)
    ∧ ob_current_inventory_digest x = Some digest
    ∧ fetch (λ i, String.eqb (sn_host_id i) (to_string (cs_host_id cs))
        && String.eqb (sn_authority_session_id i) (to_string (cs_authority_session_id cs))
        && (sn_inventory_sequence i =? ir_inventory_sequence (iq_report request)))
        (fleet_inventory_snapshots r') = Some i
    ∧ sn_digest i = digest
    ∧ inventory_response request cs digest (sn_received_at i) (sn_inventory_revision i)
        (sn_receipt_state i) (sn_receipt_lease_expires_at i) (sn_domain_mappings i)
        (sn_backend_mappings i) (sn_interactive_mappings i) = Ok response.
Proof.
  intros Hr E. unfold submit_inventory_tx in E. unfold reg in *. inv_result.
  destruct x1 as [r1 cs].
  match goal with H : load_current_session _ _ _ _ = Ok _ |- _ => rename H into Hload end.
  destruct (load_spec _ _ _ _ _ _ Hload) as (_ & _ & Hld). destruct (Hld Hr) as (sx & h & Hl).
  inv_result. match goal with H : to_i64 _ _ = Ok _ |- _ => unfold to_i64 in H; inv_result end.
  pose proof (load_frame _ _ _ _ _ _ Hload) as (_ & _ & _ & _ & _ & Esess & _).
  exists r1, cs, x0. case_match.
  - case_match; inv_result. bool_to_prop. unfold replay_inventory in E. inv_result. simplify_eq.
    bool_to_prop. destruct Hl. exists sx. eexists. split; [done|]. split; [done|]. split; [done|].
    unfold of_session, session_named in ld_of. bool_to_prop.
    split; [congruence|]. split; [congruence|]. split; [congruence|]. split; [done|]. by subst.
  - unfold accept_inventory in E. inv_result. destruct x2 as [r3 mappings]. inv_result. simplify_eq.
    match goal with H : reconcile_inventory _ _ _ _ _ = Ok _ |- _ =>
      apply reconcile_inventory_ok in H as [(_ & _ & _ & _ & Es3) _] end.
    match goal with H : insert_samples _ _ _ _ _ = Ok _ |- _ =>
      apply insert_samples_same in H as [(_ & _ & _ & _ & Es4) _] end.
    match goal with H : insert_snapshot _ _ = Ok _ |- _ => unfold insert_snapshot in H; inv_result end.
    match goal with H : complete_inventory _ _ _ _ _ = Ok _ |- _ =>
      unfold complete_inventory in H; inv_result end.
    bool_to_prop. match goal with H : exists_row _ (fleet_inventory_snapshots _) = false |- _ =>
      rename H into Hnew end.
    match goal with |- context [fleet_observation_sessions (if _ then audit_and_event ?r6 _ _ _ else _)] =>
      assert (∀ b t k n, fleet_observation_sessions (if b : bool then audit_and_event r6 t k n else r6)
        = fleet_observation_sessions r6) as Hev by (intros []; done);
      assert (∀ b t k n, fleet_inventory_snapshots (if b : bool then audit_and_event r6 t k n else r6)
        = fleet_inventory_snapshots r6) as Hev2 by (intros []; done) end.
    eexists _, _. split; [done|]. split; [done|]. rewrite Hev, Hev2. simpl. rewrite Es4, Es3. destruct Hl.
    split; [apply elem_of_update_where; by exists sx|]. rewrite ld_of. simpl.
    unfold of_session, session_named in ld_of. bool_to_prop.
    split; [congruence|]. split; [done|]. split; [done|].
    split.
    { rewrite fetch_app. rewrite exists_row_false in Hnew.
      rewrite (proj2 (fetch_None _ _)); [|exact Hnew]. simpl. by rewrite !String.eqb_refl, Z.eqb_refl. }
    by split.
Qed.

(** An inventory that is sent again, as long as its session is current,
    gets the answer of the first: the same revision, identifiers, receipt time
    and lease, whatever UUIDs would be drawn, and nothing more is recorded
    than that the session was looked up. *)
Theorem repeated_inventory_is_answered_alike r w auth request drawn now r1 w1 response
    drawn' now' r2 cs :
  reg_wf r → submit_inventory r w auth request drawn now = (r1, w1, Ok response) →
  load_current_session r1 auth (iq_report request) now' = Ok (r2, cs) →
  submit_inventory r1 w1 auth request drawn' now' = (r2, w1, Ok response).
Proof.
  intros Hr. unfold submit_inventory, transact.
  destruct (submit_inventory_tx r w auth request drawn now) as [[[s1 v1] a1]|e] eqn:E;
    intros [= <- <- ->] Hload.
  pose proof (good_submit_inventory_tx _ _ _ _ _ _ _ _ _ E Hr) as [Hr1 _].
  destruct (submitted_receipt _ _ _ _ _ _ _ _ _ Hr E) as
    (r0 & cs0 & digest & x & i & Hd & Hl0 & Hx & Eid & Eseq & Edig & Hf & Hi & Hresp).
  destruct (load_row _ _ _ _ _ _ Hload) as (y & Hy & Eidy & Eseqy & Edigy).
  assert (y = x) as -> by (eapply same_session; [done..|congruence]).
  pose proof (load_frame _ _ _ _ _ _ Hload) as (_ & _ & _ & Esn & Eh & Es & Ee & Ei).
  pose proof (load_frame _ _ _ _ _ _ Hl0) as (_ & _ & _ & _ & Eh0 & Es0 & Ee0 & Ei0).
  unfold submit_inventory_tx in *. rewrite Hd in *. rewrite Hl0 in E. rewrite Hload.
  destruct (validate_shape (iq_report request)); [|done]. cbn [map_err result_bind] in E |- *.
  unfold reg, to_i64 in *. case_match; [done|]. cbn [map_err result_bind] in E |- *.
  rewrite Eseqy, Eseq, Z.leb_refl, Z.eqb_refl, Edigy, Edig, bool_decide_eq_true_2 by done.
  cbn [andb]. unfold replay_inventory.
  rewrite Esn, Eh, Es, <-Eh0, <-Es0, Hf. cbn [ok_or result_bind]. rewrite Hi, String.eqb_refl. cbn [negb].
  rewrite (inventory_response_session request cs0 cs) by congruence. by rewrite Hresp.
Qed.
End replay.
