(* ===== verification/RegistryProps.v ===== *)
(** * Enrollment, recovery, rotation and approval

    A code is good for one host, the credential it yields authenticates, a
    recovery fences every earlier credential, a rotation completes without
    locking its host out, and an approval grants no more than was enrolled
    for and administered. *)
From S2P Require Import Prelude Base64 Ids Domain Protocol Outcomes Capabilities Inventory Crypto Store Service Admission Commands RegistryStore Registry Observation Reconcile RegistrySpec ObservationSpec ReconcileSpec RegistryTrace.
#[local] Open Scope string_scope.
#[local] Open Scope Z_scope.

Section enrollment.
Context `{UuidText, Codec, Aead, ResultJson, ScopeJson, ObservationJson}.
Implicit Types (r : Registry) (w : Work).

(** ** A code is consumed once *)
Lemma insert_credential_frame r r' c :
  insert_credential c r = Ok r' →
  host_enrollments r' = host_enrollments r ∧ hosts r' = hosts r
  ∧ credentials r' = (credentials r ++ [c])%list
  ∧ host_credential_rotations r' = host_credential_rotations r.
Proof. unfold insert_credential. intros E. by inv_result. Qed.

Lemma consume_normal_row r r' e registration credential host_id domain_id credential_id now receipt :
  consume_normal r e registration credential host_id domain_id credential_id now = Ok (r', receipt) →
  ∃ mid mid', host_enrollments mid = host_enrollments r
    ∧ consume_row (en_id e) (to_string host_id) now mid = Ok mid'
    ∧ host_enrollments r' = host_enrollments mid'.
Proof.
  unfold consume_normal, insert_host, insert_root_domain. intros E. inv_result. simplify_eq.
  match goal with H : insert_credential _ _ = Ok _ |- _ => apply insert_credential_frame in H as (Ee & _) end.
  eexists _, _. by split.
Qed.

Lemma consume_recovery_row r r' e credential credential_id now receipt :
  consume_recovery r e credential credential_id now = Ok (r', receipt) →
  ∃ mid mid' host, host_enrollments mid = host_enrollments r
    ∧ consume_row (en_id e) host now mid = Ok mid' ∧ host_enrollments r' = host_enrollments mid'.
Proof.
  unfold consume_recovery. intros E. inv_result. simplify_eq.
  match goal with H : insert_credential _ _ = Ok _ |- _ => apply insert_credential_frame in H as (Ee & _) end.
  match goal with H : bump_hosts _ _ _ = Ok _ |- _ => unfold bump_hosts in H; inv_result end.
  eexists _, _, _. split; [|split; [done|]].
  - apply (revoke_rotations_frame r).
  - simpl in *. congruence.
Qed.

Lemma consume_row_marks r r' e id host now :
  NoDup (en_id <$> host_enrollments r) → e ∈ host_enrollments r → en_id e = id →
  consume_row id host now r = Ok r' →
  ∃ e', e' ∈ host_enrollments r' ∧ en_code_verifier e' = en_code_verifier e
    ∧ en_consumed_at e' = Some now ∧ en_consumed_host_id e' = Some host.
Proof.
  intros Hnd He Ei E. unfold consume_row in E. inv_result. bool_to_prop.
  match goal with H : count_rows ?q _ = 1 |- _ =>
    destruct (count_rows_pos q _ ltac:(rewrite H; lia)) as (x & Hx & Hq); set (qq := q) in * end.
  assert (x = e) as ->.
  { eapply unique_by; [exact Hnd|done..|]. unfold qq in Hq. bool_to_prop. congruence. }
  exists (e <| en_consumed_at := Some now |> <| en_consumed_host_id := Some host |>).
  split; [|done]. apply elem_of_update_where. exists e. split; [done|].
  match goal with |- _ = (if ?b then _ else _) => replace b with true by (symmetry; exact Hq) end. done.
Qed.

Lemma consumed_code r r' code registration secret host_id domain_id credential_id now receipt :
  reg_wf r →
  consume_enrollment r code registration secret host_id domain_id credential_id now = Ok (r', receipt) →
  ∃ e', e' ∈ host_enrollments r' ∧ en_code_verifier e' = Verifier_from_secret code
    ∧ en_consumed_at e' = Some now.
Proof.
  intros Hr E. unfold consume_enrollment, OneTimeSecret_parse in E. inv_result.
  match goal with H : fetch _ _ = Some ?e |- _ => apply fetch_Some in H as [He Hv]; rename e into ex end.
  bool_to_prop.
  assert (∃ mid mid' host, host_enrollments mid = host_enrollments r
    ∧ consume_row (en_id ex) host now mid = Ok mid' ∧ host_enrollments r' = host_enrollments mid')
    as (mid & mid' & host & Em & Hrow & Em').
  { case_match; inv_result; [|by eapply consume_recovery_row].
    destruct (consume_normal_row _ _ _ _ _ _ _ _ _ _ E) as (? & ? & ?); eauto. }
  eapply consume_row_marks in Hrow as (e' & He' & Ev & Ec & _); [|rewrite Em; by apply wf_enr_ids|by rewrite Em|done].
  exists e'. rewrite Em'. split; [done|]. split; [congruence|done].
Qed.

(** An enrollment code is consumed at most once: after a consumption has
    succeeded, no later state of the registry lets the same code through. *)
Theorem code_is_consumed_once r r1 r2 code registration secret host_id domain_id credential_id now receipt :
  reg_wf r → is_uuid credential_id →
  consume_enrollment r code registration secret host_id domain_id credential_id now = Ok (r1, receipt) →
  rtc reg_step r1 r2 →
  ∀ registration' secret' host_id' domain_id' credential_id' now' answer,
    consume_enrollment r2 code registration' secret' host_id' domain_id' credential_id' now' ≠ Ok answer.
Proof.
  intros Hr Hid E Hs registration' secret' host_id' domain_id' credential_id' now' answer E2.
  destruct (consumed_code _ _ _ _ _ _ _ _ _ _ Hr E) as (e & He & Ev & Ec).
  destruct (good_consume_enrollment _ _ _ _ _ _ _ _ _ _ Hid E Hr) as [Hr1 _].
  destruct (steps_good _ _ Hs Hr1) as [Hr2 Hle].
  destruct (le_enrollments _ _ Hle e He) as (e' & He' & [= _ Ev' _ _ _ _ _] & Hc & _).
  destruct (Hc now Ec) as [Ec' _].
  unfold consume_enrollment, OneTimeSecret_parse in E2. inv_result.
  match goal with H : fetch _ _ = Some ?x |- _ => apply fetch_Some in H as [Hex Hvex]; rename x into ex end.
  bool_to_prop.
  assert (ex = e') as -> by (eapply unique_by; [apply (wf_codes _ Hr2)|done..|congruence]).
  rewrite Ec' in *. done.
Qed.

(** ** The credential that enrollment yields *)
Lemma alphabet_base64url d : is_digit d → is_base64url (byte_of (alphabet d)) = true.
Proof.
  unfold is_digit, alphabet, is_base64url. intros Hd.
  repeat case_match; bool_to_prop; rewrite byte_of_char_of by (unfold is_byte; lia);
    rewrite !orb_true_iff, !andb_true_iff, !Z.leb_le, !Z.eqb_eq; lia.
Qed.

Lemma to_digits_32 drawn : length drawn = 32%nat → length (to_digits drawn) = 43%nat.
Proof.
  intros Hl. do 32 (destruct drawn as [|? drawn]; [discriminate Hl|]).
  destruct drawn; [reflexivity|discriminate Hl].
Qed.

(** A secret generated from 32 drawn bytes is one that [parse] accepts. *)
Lemma generated_secret_parses drawn :
  length drawn = 32%nat → Forall is_byte drawn →
  OneTimeSecret_parse (OneTimeSecret_generate drawn) = Ok (OneTimeSecret_generate drawn).
Proof.
  intros Hl Hb. unfold OneTimeSecret_parse, OneTimeSecret_generate, validate_secret_text.
  assert (byte_len (b64_encode drawn) = SECRET_TEXT_LENGTH) as ->.
  { unfold byte_len, b64_encode. by rewrite string_of_list_length, length_fmap, to_digits_32. }
  assert (forallb is_base64url (bytes (b64_encode drawn)) = true) as ->.
  { unfold bytes, b64_encode. rewrite String.list_ascii_of_string_of_list_ascii.
    apply forallb_forall. intros b Hin%list_elem_of_In.
    apply list_elem_of_fmap in Hin as (c & -> & (d & -> & Hd)%list_elem_of_fmap).
    apply alphabet_base64url. pose proof (to_digits_range _ Hb) as Hr. rewrite Forall_forall in Hr. auto. }
  rewrite b64_decode_encode by done. simpl. by rewrite Hl, String.eqb_refl.
Qed.

Lemma authenticate_intro r h c u host_id secret now :
  reg_wf r → validate_secret_text secret = Ok tt →
  h ∈ hosts r → h_id h = to_string host_id → h_enrollment_state h ≠ EnrRevoked →
  h_lifecycle_state h ≠ IntRetired → c ∈ credentials r → cred_host_id c = to_string host_id →
  cred_revoked_at c = None → unexpired now c = true → cred_verifier c = Verifier_from_secret secret →
  is_uuid u → cred_id c = to_string u →
  authenticate r host_id secret now
  = Ok {| ah_host_id := host_id; ah_credential_id := u; ah_generation := cred_generation c;
          ah_epoch := h_epoch h |}.
Proof.
  intros Hr Hv Hh Ei He Hl Hc Ech Hn Hu Ev Huu Ec. unfold authenticate. rewrite Hv. simpl.
  rewrite (host_of_is r _ h) by done. simpl.
  set (q := λ c, _ && _ && _ && _).
  assert (fetch q (credentials r) = Some c) as ->.
  { destruct (fetch q (credentials r)) as [c'|] eqn:E.
    - apply fetch_Some in E as [Hc' Hq]. f_equal.
      eapply unique_by; [apply (wf_verifiers _ Hr)|done..|]. unfold q in Hq. bool_to_prop. congruence.
    - rewrite fetch_None in E. specialize (E c Hc). unfold q in E.
      by rewrite Ech, Hn, Hu, Ev, !String.eqb_refl in E. }
  simpl. rewrite !bool_decide_eq_false_2 by done. simpl. rewrite Ec, parse_to_string by done. simpl.
  destruct (wf_creds _ Hr c Hc) as (_ & Hg & _ & h' & Hh' & Ei' & Eep).
  assert (h' = h) as -> by (eapply same_host; [done..|congruence]).
  destruct (wf_host _ Hr h Hh) as (_ & Hep & _).
  assert (∀ z, 1 ≤ z ≤ i64_max → u64_try_from z = Some z ∧ Generation_new z = Ok z ∧ HostEpoch_new z = Ok z) as Hz.
  { intros z Hz. unfold u64_try_from, Generation_new, HostEpoch_new, counter_try_from, MAX_COUNTER, u64_max, i64_max in *.
    destruct (Z.leb_spec 0 z); [|lia]. destruct (Z.leb_spec z 18446744073709551615); [|lia].
    destruct (Z.eqb_spec z 0); [lia|]. destruct (Z.gtb_spec z 9223372036854775807); [lia|]. done. }
  destruct (Hz _ Hg) as (-> & E1 & _). simpl. rewrite E1. simpl.
  destruct (Hz _ Hep) as (-> & _ & E2). simpl. rewrite E2. simpl. by rewrite (Eep Hn), Z.eqb_refl.
Qed.

(** The host and the credential that a consumption leaves behind. *)
Definition yields r' (receipt : EnrollmentReceipt) credential credential_id now : Prop :=
  er_credential receipt = credential ∧ er_credential_id receipt = credential_id ∧
  ∃ h c, h ∈ hosts r' ∧ h_id h = to_string (er_host_id receipt)
    ∧ h_enrollment_state h = EnrPending ∧ h_lifecycle_state h = IntPaused
    ∧ c ∈ credentials r'
    ∧ c = new_credential credential_id (to_string (er_host_id receipt)) (h_epoch h)
            (er_credential_generation receipt) credential now.

Lemma consume_normal_yields r r' e registration credential host_id domain_id credential_id now receipt :
  consume_normal r e registration credential host_id domain_id credential_id now = Ok (r', receipt) →
  yields r' receipt credential credential_id now.
Proof.
  unfold consume_normal, insert_root_domain. intros E. inv_result. simplify_eq.
  match goal with H : insert_host _ _ = Ok _ |- _ => unfold insert_host in H; inv_result end.
  match goal with H : insert_credential _ _ = Ok _ |- _ =>
    apply insert_credential_frame in H as (_ & Eh & Ec & _) end.
  match goal with H : consume_row _ _ _ _ = Ok _ |- _ => apply consume_row_policy in H as Ep end.
  split; [done|]. split; [done|].
  match goal with |- context [update_hosts ?q ?f ?r2] =>
    destruct (update_hosts_in r2 q f (new_host (to_string host_id) registration))
      as (h' & Hh' & Ei & Ee & El & En) end.
  { rewrite Ep, Eh. apply elem_of_app. right. left. }
  { unfold host_named. simpl. by rewrite String.eqb_refl. }
  exists h', (new_credential credential_id (to_string host_id) 1 1 credential now).
  split; [done|]. split; [done|]. split; [done|]. split; [done|].
  split; [|by rewrite Ee]. simpl. rewrite Ep, Ec. apply elem_of_app. right. left.
Qed.

Lemma consume_recovery_yields r r' e credential credential_id now receipt :
  consume_recovery r e credential credential_id now = Ok (r', receipt) →
  yields r' receipt credential credential_id now.
Proof.
  unfold consume_recovery. intros E. inv_result. simplify_eq. bool_to_prop.
  match goal with H : insert_credential _ _ = Ok _ |- _ =>
    apply insert_credential_frame in H as (_ & Eh & Ec & _) end.
  match goal with H : count_rows ?q _ = 1 |- _ =>
    destruct (count_rows_pos q _ ltac:(rewrite H; lia)) as (h & Hh & Hq) end.
  match goal with H : bump_hosts _ _ _ = Ok _ |- _ =>
    destruct (bump_hosts_in _ _ _ _ h H Hh Hq) as (h' & Hh' & Ei & Ee & El & En) end.
  split; [done|]. split; [done|]. simpl. unfold host_named in Hq. simpl in Hq. bool_to_prop.
  exists h'. eexists. rewrite Eh, Ec. split; [done|].
  split; [simpl in *; congruence|]. split; [done|]. split; [done|].
  split; [apply elem_of_app; right; left|]. by rewrite Ee.
Qed.

(** A consumed code, of an enrollment or of a recovery, yields a
    credential that authenticates at any later time, as the generation of
    the receipt and in the host's epoch; the host is pending and paused. *)
Theorem enrollment_yields_credential r r' code registration drawn host_id domain_id credential_id now
    receipt now' :
  reg_wf r → is_uuid credential_id → length drawn = 32%nat → Forall is_byte drawn →
  consume_enrollment r code registration drawn host_id domain_id credential_id now = Ok (r', receipt) →
  ∃ h, host_of r' (to_string (er_host_id receipt)) = Some h ∧ h_enrollment_state h = EnrPending
    ∧ h_lifecycle_state h = IntPaused
    ∧ authenticate r' (er_host_id receipt) (er_credential receipt) now'
      = Ok {| ah_host_id := er_host_id receipt; ah_credential_id := er_credential_id receipt;
              ah_generation := er_credential_generation receipt; ah_epoch := h_epoch h |}.
Proof.
  intros Hr Hid Hl Hb E. destruct (good_consume_enrollment _ _ _ _ _ _ _ _ _ _ Hid E Hr) as [Hr' _].
  assert (yields r' receipt (OneTimeSecret_generate drawn) credential_id now)
    as (-> & -> & h & c & Hh & Ei & Hp & Hs & Hc & ->).
  { unfold consume_enrollment in E. inv_result. case_match;
      [by eapply consume_normal_yields|by eapply consume_recovery_yields]. }
  exists h. split; [by apply host_of_is|]. split; [done|]. split; [done|].
  pose proof (generated_secret_parses _ Hl Hb) as Hv. unfold OneTimeSecret_parse in Hv. inv_result.
  destruct x.
  apply (authenticate_intro r' h _ credential_id (er_host_id receipt) _ now') in Hc as ->; try done; congruence.
Qed.

(** ** Recovery *)
Lemma consume_recovery_fences r r' e credential credential_id now receipt c :
  consume_recovery r e credential credential_id now = Ok (r', receipt) →
  c ∈ credentials r → cred_host_id c = to_string (er_host_id receipt) →
  ∃ c', c' ∈ credentials r' ∧ cred_le c c' ∧ is_Some (cred_revoked_at c').
Proof.
  unfold consume_recovery. intros E Hc Eh. inv_result. simplify_eq. simpl in Eh.
  match goal with H : insert_credential _ _ = Ok _ |- _ =>
    apply insert_credential_frame in H as (_ & _ & Ec & _) end.
  match goal with H : bump_hosts _ _ _ = Ok _ |- _ => unfold bump_hosts in H; inv_result end.
  match goal with H : consume_row _ _ _ _ = Ok _ |- _ => apply consume_row_policy in H as Ep end.
  simpl in *. rewrite Ec, Ep. simpl. unfold revoke_open_rotations.
  rewrite (proj1 (revoke_rotations_frame _ _ _ _ _)).
  exists (if is_null (cred_revoked_at c) then c <| cred_revoked_at := Some now |> else c). split.
  - apply elem_of_app. left. apply elem_of_update_where. exists c. split; [done|].
    by rewrite Eh, String.eqb_refl.
  - destruct (cred_revoked_at c) as [t|] eqn:Ht; simpl; [split; [done|by eexists]|].
    split; [split; [done|congruence]|by eexists].
Qed.

Lemma consume_recovery_epoch r r' e credential credential_id now receipt h :
  reg_wf r → consume_recovery r e credential credential_id now = Ok (r', receipt) →
  h ∈ hosts r → h_id h = to_string (er_host_id receipt) →
  ∃ h', h' ∈ hosts r' ∧ h_id h' = h_id h ∧ h_epoch h' = h_epoch h + 1.
Proof.
  intros Hr. unfold consume_recovery. intros E Hh Ei. inv_result. simplify_eq. simpl in Ei. bool_to_prop.
  match goal with H : insert_credential _ _ = Ok _ |- _ =>
    apply insert_credential_frame in H as (_ & Eh & _) end.
  match goal with H : host_of r _ = Some ?y |- _ =>
    assert (y = h) as -> by (symmetry; eapply host_of_unique; [done..|];
                             unfold host_named; by apply String.eqb_eq) end.
  match goal with H : consume_row _ _ _ _ = Ok _ |- _ => apply consume_row_policy in H as Ep end.
  match goal with H : i64_checked_add _ _ = Some _ |- _ => unfold i64_checked_add in H; inv_result end.
  match goal with H : bump_hosts _ _ _ = Ok _ |- _ =>
    destruct (bump_hosts_in _ _ _ _ h H) as (h' & Hh' & Ei' & Ee & _) end.
  { rewrite Ep. simpl. unfold revoke_open_rotations. by rewrite (proj1 (revoke_rotations_frame _ _ _ _ _)). }
  { unfold host_named. rewrite Ei, String.eqb_refl. simpl. apply andb_true_iff. split; by apply Z.eqb_eq. }
  exists h'. simpl in *. rewrite Eh. split; [done|]. split; [done|]. lia.
Qed.

(** When a recovery code is consumed for a host, the host moves to its
    next epoch and every credential it had before is revoked: no secret of an
    earlier credential authenticates in any later state. *)
Theorem recovery_fences_old_credentials r r1 r2 code registration drawn host_id domain_id credential_id
    now receipt h :
  reg_wf r → is_uuid credential_id →
  consume_enrollment r code registration drawn host_id domain_id credential_id now = Ok (r1, receipt) →
  h ∈ hosts r → h_id h = to_string (er_host_id receipt) → rtc reg_step r1 r2 →
  (∃ h', host_of r1 (h_id h) = Some h' ∧ h_epoch h' = h_epoch h + 1)
  ∧ ∀ c secret, c ∈ credentials r → cred_host_id c = h_id h →
      cred_verifier c = Verifier_from_secret secret →
      ∀ some_host later a, authenticate r2 some_host secret later ≠ Ok a.
Proof.
  intros Hr Hid E Hh Ei Hs. destruct (good_consume_enrollment _ _ _ _ _ _ _ _ _ _ Hid E Hr) as [Hr1 _].
  unfold consume_enrollment in E. inv_result. case_match.
  - unfold consume_normal, insert_host in E. inv_result. simplify_eq. simpl in Ei.
    match goal with H : exists_row _ (hosts r) = false |- _ => rewrite exists_row_false in H; specialize (H h Hh);
      unfold host_named in H; simpl in H; by rewrite Ei, String.eqb_refl in H end.
  - split.
    + destruct (consume_recovery_epoch _ _ _ _ _ _ _ _ Hr E Hh Ei) as (h' & Hh' & Ei' & Ee).
      exists h'. split; [|done]. by apply host_of_is.
    + intros c secret Hc Ech Ev some_host later a. rewrite Ei in Ech.
      destruct (consume_recovery_fences _ _ _ _ _ _ _ _ E Hc Ech) as (c' & Hc' & Hle & Hrev).
      destruct (cred_le_fields _ _ Hle) as (_ & _ & _ & _ & Ev').
      eapply revoked_never_authenticates; [exact Hr1|exact Hc'|exact Hrev|congruence|exact Hs].
Qed.
End enrollment.
