(* ===== verification/RotationProps.v ===== *)
(** * A rotation completes without locking its host out

    From the request on, if the agent exchanges a fresh secret with its
    current credential and acknowledges with the new one, both transactions
    succeed; in between, the old secret works for the overlap and the new one
    works too, and afterwards only the new one does. *)
From S2P Require Import Prelude Base64 Ids Domain Protocol Outcomes Capabilities Inventory Crypto Store Service Admission Commands RegistryStore Registry Observation Reconcile RegistrySpec ObservationSpec ReconcileSpec RegistryTrace RegistryProps.
From stdpp Require Import pretty.
#[local] Open Scope string_scope.
#[local] Open Scope Z_scope.

Section rotation.
Context `{UuidText, Codec, Aead, ResultJson, ScopeJson, ObservationJson}.
Implicit Types (r : Registry) (w : Work).

Lemma generation_from_i64_ok v : 1 ≤ v ≤ i64_max → generation_from_i64 v = Ok v.
Proof.
  intros Hv. unfold generation_from_i64, u64_try_from, Generation_new, counter_try_from, MAX_COUNTER, u64_max, i64_max in *.
  destruct (Z.leb_spec 0 v); [|lia]. destruct (Z.leb_spec v 18446744073709551615); [|lia]. simpl.
  destruct (Z.eqb_spec v 0); [lia|]. destruct (Z.gtb_spec v 9223372036854775807); [lia|]. done.
Qed.

Lemma rotation_of_is r o id :
  reg_wf r → o ∈ host_credential_rotations r → ro_id o = to_string id → rotation_of r id = Some o.
Proof.
  intros Hr Ho Ei. apply (fetch_unique ro_id); [by apply wf_rot_ids|done|by apply String.eqb_eq|].
  intros b _ Hq. bool_to_prop. congruence.
Qed.

(** A secret and an identifier that no credential has. *)
Definition fresh_credential r (secret : string) (id : Uuid) : Prop :=
  OneTimeSecret_parse secret = Ok secret ∧ verifier_format (Verifier_from_secret secret) = true ∧ is_uuid id
  ∧ ∀ c, c ∈ credentials r → cred_verifier c ≠ Verifier_from_secret secret ∧ cred_id c ≠ to_string id.

(** A rotation that waits for its exchange. *)
Record requested r (o : RotationRow) (id : Uuid) (auth : AuthenticatedHost) (now : Z) : Prop := {
  rd_in : o ∈ host_credential_rotations r;
  rd_id : ro_id o = to_string id;
  rd_phase : ro_phase o = PhaseRequested;
  rd_host : ro_host_id o = to_string (ah_host_id auth);
  rd_credential : ro_old_credential_id o = to_string (ah_credential_id auth);
  rd_generation : ro_old_generation o = ah_generation auth;
  rd_epoch : ro_old_host_epoch o = ah_epoch auth;
  rd_now : now < ro_expires_at o;
  rd_next : ∀ c, c ∈ credentials r → cred_host_id c = ro_host_id o →
              cred_generation c ≠ ro_next_generation o }.

(** What the exchange leaves behind. *)
Record exchanged r r' (o : RotationRow) (id : Uuid) (auth : AuthenticatedHost) (secret : string)
    (credential_id : Uuid) (now : Z) : Prop := {
  ex_hosts : hosts r' = hosts r;
  ex_new : new_credential credential_id (ro_host_id o) (ah_epoch auth) (ro_next_generation o) secret now
             ∈ credentials r';
  ex_old : ∃ c, c ∈ credentials r ∧ cred_id c = to_string (ah_credential_id auth)
             ∧ cred_host_id c = to_string (ah_host_id auth) ∧ cred_generation c = ah_generation auth
             ∧ cred_revoked_at c = None
             ∧ c <| cred_overlap_expires_at := Some (now + ROTATION_OVERLAP_MILLIS) |> ∈ credentials r';
  ex_rotation : o <| ro_phase := PhaseExchanged |>
                  <| ro_proposed_verifier := Some (Verifier_from_secret secret) |>
                  <| ro_exchanged_at := Some now |>
                  <| ro_overlap_expires_at := Some (now + ROTATION_OVERLAP_MILLIS) |>
                ∈ host_credential_rotations r' }.

Lemma ensure_authenticated_credential p auth now x :
  ensure_authenticated_generation p auth now = Ok x → ∃ c, c ∈ host_credentials p ∧
    cred_id c = to_string (ah_credential_id auth) ∧ cred_host_id c = to_string (ah_host_id auth)
    ∧ cred_generation c = ah_generation auth ∧ cred_host_epoch c = ah_epoch auth
    ∧ cred_revoked_at c = None ∧ unexpired now c = true.
Proof.
  unfold ensure_authenticated_generation. intros E. repeat case_match; inv_result.
  match goal with H : (count_rows _ _ =? 1) = true |- _ => apply Z.eqb_eq in H; rename H into Hc end.
  destruct (count_rows_pos _ _ ltac:(rewrite Hc; lia)) as (c & Hin & Hq). simpl in Hq. bool_to_prop.
  exists c. split_and!; try done. unfold is_null in *. by destruct (cred_revoked_at c).
Qed.

Lemma insert_credential_ok r c :
  (∀ x, x ∈ credentials r → cred_id x ≠ cred_id c ∧ cred_verifier x ≠ cred_verifier c
    ∧ (cred_host_id x = cred_host_id c → cred_generation x ≠ cred_generation c)) →
  verifier_format (cred_verifier c) = true → 1 ≤ cred_generation c → 1 ≤ cred_host_epoch c →
  insert_credential c r
  = Ok (r <| rg_policy ::= (λ p, p <| host_credentials ::= (λ l, l ++ [c])%list |>) |>).
Proof.
  intros Hx Hf Hg He. unfold insert_credential. rewrite Hf.
  destruct (Z.leb_spec (cred_generation c) 0); [lia|]. destruct (Z.leb_spec (cred_host_epoch c) 0); [lia|].
  match goal with |- context [exists_row ?q ?l] => assert (exists_row q l = false) as -> end; [|done].
  apply exists_row_false. intros x Hin. destruct (Hx x Hin) as (? & ? & Hg').
  apply orb_false_iff. split; [apply orb_false_iff; split; by apply String.eqb_neq|].
  destruct (String.eqb_spec (cred_host_id x) (cred_host_id c)) as [E|]; [|done]. simpl.
  apply Z.eqb_neq. auto.
Qed.

Lemma exchange_ok r o id auth secret credential_id now :
  reg_wf r → ensure_authenticated_generation (rg_policy r) auth now = Ok tt →
  requested r o id auth now → fresh_credential r secret credential_id →
  i64_checked_add now ROTATION_OVERLAP_MILLIS = Some (now + ROTATION_OVERLAP_MILLIS) →
  ∃ r' receipt, exchange_rotation r auth id secret credential_id now = Ok (r', receipt)
    ∧ exchanged r r' o id auth secret credential_id now.
Proof.
  intros Hr Hauth [Ho Ei Hph Eh Ecr Eg Ee Hnow Hnext] (Hparse & Hfmt & Hcid & Hfresh) Hadd.
  destruct (wf_rots _ Hr _ Ho) as (Hshape & Hgen & Hmax). unfold rot_shape in Hshape. rewrite Hph in Hshape.
  destruct Hshape as (Hv & _ & _ & Hrev).
  destruct (ensure_authenticated_host _ _ _ _ Hauth) as (h & Hh & Ehi & Eep & _).
  destruct (ensure_authenticated_credential _ _ _ _ Hauth) as (c & Hc & Eci & Ech & Ecg & Ece & Hcr & _).
  destruct (wf_host _ Hr h Hh) as (_ & Hep & _).
  set (new := new_credential credential_id (ro_host_id o) (h_epoch h) (ro_next_generation o) secret now).
  assert (insert_credential new r
    = Ok (r <| rg_policy ::= (λ p, p <| host_credentials ::= (λ l, l ++ [new])%list |>) |>)) as Hins.
  { apply insert_credential_ok; [|done|simpl; lia|simpl; lia]. intros x Hx.
    destruct (Hfresh x Hx). split; [done|]. split; [done|]. intros Eq. by apply Hnext. }
  set (r1 := r <| rg_policy ::= _ |>) in Hins.
  assert (reg_wf r1) as Hr1.
  { eapply (good_insert_credential r r1 new); [by eexists|simpl; lia| |done|done].
    exists h. simpl. split; [done|]. split; [congruence|done]. }
  assert (credentials r1 = (credentials r ++ [new])%list) as Ec1 by done.
  assert (hosts r1 = hosts r) as Eh1 by done.
  assert (host_credential_rotations r1 = host_credential_rotations r) as Er1 by done.
  clearbody r1.
  unfold exchange_rotation. rewrite Hparse. simpl. rewrite Hauth. simpl.
  rewrite (rotation_of_is r o) by done. simpl. rewrite Eh, String.eqb_refl. simpl.
  rewrite generation_from_i64_ok by lia. simpl. rewrite Eg, Z.eqb_refl, Ecr, String.eqb_refl, Ee, Z.eqb_refl.
  simpl. rewrite Hph. rewrite bool_decide_eq_false_2 by done. rewrite (proj2 (Z.leb_gt _ _)) by done.
  rewrite andb_false_r. simpl. rewrite Hv, generation_from_i64_ok by lia. simpl. rewrite Hadd. simpl.
  rewrite (host_of_is r _ h) by done. simpl. rewrite <-Eh. fold new. rewrite Hins. simpl.
  assert (c ∈ credentials r1) as Hc1 by (rewrite Ec1; apply elem_of_app; by left).
  match goal with |- context [count_rows ?q (credentials r1)] =>
    set (qc := q); assert (qc c = true) as Hqc; [|rewrite (count_one cred_id qc (credentials r1) c)] end.
  { unfold qc. by rewrite Eci, Ech, Ecg, Ece, Hcr, Eh, !String.eqb_refl, !Z.eqb_refl. }
  2: by apply wf_cred_ids. 2: done. 2: done.
  2: { intros b _ Hq. unfold qc in Hq. bool_to_prop. congruence. }
  simpl. rewrite Er1. match goal with |- context [count_rows ?q (host_credential_rotations r)] =>
    set (qo := q); assert (qo o = true) as Hqo; [|rewrite (count_one ro_id qo (host_credential_rotations r) o)] end.
  { unfold qo. rewrite Ei, String.eqb_refl, Hph, Hrev, bool_decide_eq_true_2 by done. simpl.
    by apply Z.ltb_lt. }
  2: by apply wf_rot_ids. 2: done. 2: done.
  2: { intros b _ Hq. unfold qo in Hq. bool_to_prop. congruence. }
  simpl. eexists _, _. split; [done|]. split; simpl.
  - done.
  - apply elem_of_update_where. exists new. split; [rewrite Ec1; apply elem_of_app; right; left|].
    assert (qc new = false) as ->; [|by unfold new; rewrite Eep].
    unfold qc. simpl. rewrite (proj2 (String.eqb_neq _ _)); [done|].
    rewrite <-Eci. intros E. by destruct (Hfresh c Hc) as [_ []].
  - exists c. do 5 (split; [done|]). apply elem_of_update_where. exists c. by rewrite Hqc.
  - rewrite Er1. apply elem_of_update_where. exists o. by rewrite Hqo.
Qed.

Lemma acknowledge_ok r o id auth now :
  reg_wf r → ensure_authenticated_generation (rg_policy r) auth now = Ok tt →
  o ∈ host_credential_rotations r → ro_id o = to_string id → ro_phase o = PhaseExchanged →
  ro_host_id o = to_string (ah_host_id auth) → ro_next_generation o = ah_generation auth →
  (∀ h, h ∈ hosts r → h_id h = to_string (ah_host_id auth) → h_revision h < i64_max) →
  ∃ r' receipt, acknowledge_rotation r auth id now = Ok (r', receipt)
    ∧ (∀ h, h ∈ hosts r → h_id h = to_string (ah_host_id auth) → ∃ h', h' ∈ hosts r' ∧ h_id h' = h_id h
        ∧ h_epoch h' = h_epoch h ∧ h_lifecycle_state h' = h_lifecycle_state h
        ∧ h_enrollment_state h' = h_enrollment_state h)
    ∧ (∀ c, c ∈ credentials r → cred_host_id c = to_string (ah_host_id auth) →
        cred_generation c < ah_generation auth →
        ∃ c', c' ∈ credentials r' ∧ cred_le c c' ∧ is_Some (cred_revoked_at c'))
    ∧ ∀ c, c ∈ credentials r → cred_host_id c = to_string (ah_host_id auth) → cred_revoked_at c = None →
        cred_generation c = ah_generation auth →
        c <| cred_acknowledged_at := Some now |> ∈ credentials r'.
Proof.
  intros Hr Hauth Ho Ei Hph Eh Eg Hrevn. set (host := to_string (ah_host_id auth)) in *.
  destruct (wf_rots _ Hr _ Ho) as (Hshape & Hgen & Hmax). unfold rot_shape in Hshape. rewrite Hph in Hshape.
  destruct Hshape as (_ & [t Hex] & _ & Hack & Hrev).
  destruct (ensure_authenticated_credential _ _ _ _ Hauth) as (c & Hc & Eci & Ech & Ecg & _ & Hcr & _).
  unfold acknowledge_rotation. rewrite Hauth. simpl. rewrite (rotation_of_is r o) by done. simpl.
  fold host. rewrite Eh, String.eqb_refl. simpl. rewrite generation_from_i64_ok by lia. simpl.
  rewrite Eg, Z.eqb_refl, Hph, bool_decide_eq_false_2 by done. simpl. rewrite Hex. simpl. rewrite Hack.
  match goal with |- context [count_rows ?q (host_credential_rotations r)] =>
    rewrite (count_one ro_id q (host_credential_rotations r) o) end; [|by apply wf_rot_ids|done| |].
  2: by rewrite Ei, Hph, Hack, Hrev, String.eqb_refl, bool_decide_eq_true_2.
  2: { intros b _ Hq. bool_to_prop. congruence. }
  simpl. match goal with |- context [count_rows ?q (credentials r)] =>
    set (qc := q); rewrite (count_one (λ c, (cred_host_id c, cred_generation c)) qc (credentials r) c) end;
    [|by apply wf_generations|done| |].
  2: unfold qc; by rewrite Ech, Ecg, Hcr, String.eqb_refl, Z.eqb_refl.
  2: { intros b _ Hq. unfold qc in Hq. bool_to_prop. subst host; congruence. }
  simpl. unfold bump_hosts. simpl.
  match goal with |- context [exists_row ?q (hosts r)] => assert (exists_row q (hosts r) = false) as -> end.
  { apply exists_row_false. intros h Hh. unfold host_named. apply andb_false_iff.
    destruct (String.eqb_spec (h_id h) host) as [E|]; [right|by left]. apply Z.leb_gt. by apply Hrevn. }
  simpl. eexists _, _. split; [done|]. split; [|split].
  - intros h Hh E. match goal with |- context [update_hosts ?q ?f ?r2] =>
      destruct (update_hosts_in r2 q f h Hh) as (h' & Hh' & Hrest) end; [|by exists h'].
    unfold host_named. by apply String.eqb_eq.
  - intros x Hx Ex Hlt. simpl.
    assert (qc x = false) as Hqx. { unfold qc. rewrite Ex. destruct (Z.eqb_spec (cred_generation x) (ah_generation auth)); [lia|].
      by rewrite andb_false_r. }
    exists (if is_null (cred_revoked_at x) then x <| cred_revoked_at := Some now |> else x). split.
    + apply elem_of_update_where. exists x. split; [apply elem_of_update_where; exists x; by rewrite Hqx|].
      rewrite Ex, String.eqb_refl, (proj2 (Z.ltb_lt _ _)) by done. done.
    + destruct (cred_revoked_at x) as [t'|] eqn:Ht; simpl; [split; [done|by eexists]|].
      split; [split; [done|congruence]|by eexists].
  - intros x Hx Ex Hn Egx. simpl.
    assert (qc x = true) as Hqx. { unfold qc. by rewrite Ex, Egx, Hn, String.eqb_refl, Z.eqb_refl. }
    apply elem_of_update_where. exists (x <| cred_acknowledged_at := Some now |>).
    split; [apply elem_of_update_where; exists x; by rewrite Hqx|]. simpl.
    by rewrite Egx, Z.ltb_irrefl, andb_false_r.
Qed.

(** The rotation that a request leaves behind. *)
Lemma request_ok r r1 principal request operation_id now0 receipt :
  request_rotation r principal request operation_id now0 = Ok (r1, receipt) →
  (∀ o, o ∈ host_credential_rotations r → ro_host_id o = to_string (rr_host_id request) →
    ro_idempotency_key o ≠ rr_idempotency_key request) →
  credentials r1 = credentials r
  ∧ ∃ o c, o ∈ host_credential_rotations r1 ∧ ro_id o = to_string operation_id
    ∧ ro_phase o = PhaseRequested ∧ ro_host_id o = to_string (rr_host_id request)
    ∧ c ∈ credentials r ∧ cred_host_id c = to_string (rr_host_id request)
    ∧ cred_generation c = rr_expected_generation request ∧ ro_old_credential_id o = cred_id c
    ∧ ro_old_generation o = cred_generation c ∧ ro_old_host_epoch o = cred_host_epoch c
    ∧ ro_expires_at o = rq_expires_at receipt
    ∧ ∀ c', c' ∈ credentials r → cred_host_id c' = ro_host_id o → cred_generation c' ≠ ro_next_generation o.
Proof.
  intros E Hkey. unfold request_rotation in E. inv_result. case_match; inv_result.
  { match goal with H : fetch _ _ = Some _ |- _ => apply fetch_Some in H as [Ho Hq] end.
    simpl in Hq. bool_to_prop. by destruct (Hkey _ Ho). }
  destruct (revoke_rotations_frame r (λ o, bool_decide (ro_phase o = PhaseRequested)
    && (ro_expires_at o <=? now0)) "fleet.credential.rotation_expired" now0
    (to_string (rr_host_id request))) as [Ep _].
  fold (revoke_expired_rotations r (to_string (rr_host_id request)) now0) in Ep.
  match goal with H : insert_rotation ?x _ = Ok _ |- _ =>
    unfold insert_rotation in H; inv_result; simplify_eq; set (o := x) in * end.
  simpl. rewrite Ep. split; [done|].
  match goal with H : fetch _ _ = Some ?y |- _ => apply fetch_Some in H as [Hc Hq]; rename y into c end.
  match goal with H : next_generation _ _ = Ok _ |- _ => apply next_generation_Ok in H as Hn end.
  match goal with H : to_i64 _ _ = Ok _ |- _ => unfold to_i64 in H; inv_result end.
  simpl in Hq. bool_to_prop. rewrite Ep in Hc. exists o, c.
  split; [apply elem_of_app; right; left|]. do 10 (split; [first [done|simpl; congruence]|]).
  simpl. intros c' Hc' Ec'.
  assert (c' ∈ credentials (revoke_expired_rotations r (to_string (rr_host_id request)) now0)) as Hc1 by by rewrite Ep.
  pose proof (last_generation_credential _ _ Hc1) as Hl. rewrite Ec' in Hl. lia.
Qed.

Lemma request_requested r r1 principal request operation_id now0 receipt secret auth now :
  reg_wf r → request_rotation r principal request operation_id now0 = Ok (r1, receipt) →
  (∀ o, o ∈ host_credential_rotations r → ro_host_id o = to_string (rr_host_id request) →
    ro_idempotency_key o ≠ rr_idempotency_key request) →
  authenticate r1 (rr_host_id request) secret now = Ok auth →
  ah_generation auth = rr_expected_generation request → now < rq_expires_at receipt →
  ∃ o, requested r1 o operation_id auth now.
Proof.
  intros Hr E Hkey Ha Eg Hnow. destruct (good_request_rotation _ _ _ _ _ _ _ E Hr) as [Hr1 _].
  destruct (request_ok _ _ _ _ _ _ _ E Hkey)
    as (Ec1 & o & c & Ho & Ei & Hph & Eh & Hc & Ech & Ecg & Eoc & Eog & Eoe & Eex & Hnext).
  apply authenticate_Ok in Ha as (h & x & _ & Hx & Exh & _ & _ & _ & _ & _ & Hp & Eah & Eag & Eae & Exe).
  assert (x = c) as ->.
  { eapply (unique_by (λ c, (cred_host_id c, cred_generation c))); [by apply (wf_generations _ Hr1)|done|by rewrite Ec1|].
    simpl. congruence. }
  destruct (wf_creds _ Hr1 c Hx) as ((u & Hu & Eid) & _). rewrite Eid, parse_to_string in Hp by done.
  exists o. split; try congruence; []. by rewrite Ec1.
Qed.

Lemma authenticate_text r host_id secret now a :
  authenticate r host_id secret now = Ok a → validate_secret_text secret = Ok tt.
Proof. unfold authenticate. intros E. inv_result. by destruct x. Qed.

Lemma authenticated_credential r host_id secret now auth c :
  reg_wf r → authenticate r host_id secret now = Ok auth → c ∈ credentials r →
  cred_id c = to_string (ah_credential_id auth) →
  cred_verifier c = Verifier_from_secret secret ∧ is_uuid (ah_credential_id auth).
Proof.
  intros Hr (h & x & _ & Hx & _ & _ & _ & Exv & _ & _ & Hp & _)%authenticate_Ok Hc Eci.
  destruct (wf_creds _ Hr x Hx) as ((u & Hu & Eid) & _). rewrite Eid, parse_to_string in Hp by done.
  injection Hp as Eu. assert (x = c) as ->
    by (eapply unique_by; [by apply (wf_cred_ids _ Hr)|done..|congruence]).
  by rewrite <-Eu.
Qed.

(** During the overlap the old secret authenticates as before. *)
Lemma overlap_old r1 r2 o id auth host_id old secret credential_id now t :
  reg_wf r1 → reg_wf r2 → authenticate r1 host_id old now = Ok auth →
  exchanged r1 r2 o id auth secret credential_id now → t < now + ROTATION_OVERLAP_MILLIS →
  authenticate r2 host_id old t = Ok auth.
Proof.
  intros Hr1 Hr2 Ha [Eh _ (c & Hc & Eci & Ech & Ecg & Hcr & Hc2) _] Ht.
  destruct (authenticated_credential _ _ _ _ _ _ Hr1 Ha Hc Eci) as [Hv Hu].
  pose proof (authenticate_text _ _ _ _ _ Ha) as Htext.
  apply authenticate_Ok in Ha as (h & _ & Hh & _ & _ & _ & _ & _ & He & Hl & _ & Eah & _ & Eae & _).
  apply host_of_Some in Hh as [Hh Ei].
  apply (authenticate_intro r2 h _ (ah_credential_id auth) host_id old t) in Hc2 as ->; try done;
    [|by rewrite Eh|simpl; congruence|by apply Z.ltb_lt].
  f_equal. destruct auth. simpl in *. congruence.
Qed.

(** A rotation completes without locking its host out.  After a new
    request, an agent that holds the credential of the expected generation
    and exchanges a fresh secret in time succeeds; the old secret works until
    the overlap ends and the new one from then on; acknowledging with the new
    identity succeeds; afterwards the new secret still authenticates and the
    old one never does, in any later state. *)
Theorem rotation_completes r r1 principal request operation_id now0 receipt old auth now secret
    credential_id now2 :
  reg_wf r → request_rotation r principal request operation_id now0 = Ok (r1, receipt) →
  (∀ o, o ∈ host_credential_rotations r → ro_host_id o = to_string (rr_host_id request) →
    ro_idempotency_key o ≠ rr_idempotency_key request) →
  authenticate r1 (rr_host_id request) old now = Ok auth →
  ah_generation auth = rr_expected_generation request → now < rq_expires_at receipt →
  fresh_credential r1 secret credential_id →
  i64_checked_add now ROTATION_OVERLAP_MILLIS = Some (now + ROTATION_OVERLAP_MILLIS) →
  (∀ h, h ∈ hosts r1 → h_revision h < i64_max) →
  ∃ r2 exchange auth' r3 ack,
    exchange_rotation r1 auth operation_id secret credential_id now = Ok (r2, exchange)
    ∧ (∀ t, t < now + ROTATION_OVERLAP_MILLIS → authenticate r2 (rr_host_id request) old t = Ok auth)
    ∧ (∀ t, authenticate r2 (rr_host_id request) secret t = Ok auth')
    ∧ acknowledge_rotation r2 auth' operation_id now2 = Ok (r3, ack)
    ∧ (∀ t, authenticate r3 (rr_host_id request) secret t = Ok auth')
    ∧ ∀ r4, rtc reg_step r3 r4 → ∀ host t a, authenticate r4 host old t ≠ Ok a.
Proof.
  intros Hr Hreq Hkey Ha Eg Hnow Hf Hadd Hrevn. set (host := rr_host_id request) in *.
  destruct (good_request_rotation _ _ _ _ _ _ _ Hreq Hr) as [Hr1 _].
  destruct (request_requested _ _ _ _ _ _ _ _ _ _ Hr Hreq Hkey Ha Eg Hnow) as [o Ho].
  pose proof (authenticated_is_accepted _ _ _ _ _ Hr1 Ha) as Hacc.
  destruct (exchange_ok _ _ _ _ _ _ _ Hr1 Hacc Ho Hf Hadd) as (r2 & xr & Hex & Hx).
  destruct Hf as (Hparse & _ & Huuid & _).
  destruct (good_exchange_rotation _ _ _ _ _ _ _ _ Huuid Hex Hr1) as [Hr2 _].
  unfold OneTimeSecret_parse in Hparse. inv_result. destruct x.
  pose proof (authenticate_Ok _ _ _ _ _ Ha) as (h & _ & Hh & _ & _ & _ & _ & _ & He & Hl & _ & Eah & _ & Eae & _).
  apply host_of_Some in Hh as [Hh Ei].
  pose proof (rd_host _ _ _ _ _ Ho) as Eoh. rewrite Eah in Eoh. fold host in Ei, Eoh.
  pose proof Hx as [Ehs Hnew (c & Hc & Eci & Ech & Ecg & Hcr & Hc2) Ho2].
  set (auth' := {| ah_host_id := host; ah_credential_id := credential_id;
                   ah_generation := ro_next_generation o; ah_epoch := h_epoch h |}).
  assert (∀ t, authenticate r2 host secret t = Ok auth') as Hnew2.
  { intros t. apply (authenticate_intro r2 h _ credential_id host secret t Hr2) in Hnew as ->; try done. by rewrite Ehs. }
  destruct (acknowledge_ok r2 _ operation_id auth' now2 Hr2
    (authenticated_is_accepted _ _ _ now2 _ Hr2 (Hnew2 now2)) Ho2) as (r3 & ack & Hack & Hhosts & Hold & Hkeep);
    [apply Ho|done|done|done|rewrite Ehs; auto|].
  destruct (good_acknowledge_rotation _ _ _ _ _ _ Hack Hr2) as [Hr3 _].
  exists r2, xr, auth', r3, ack. split; [done|]. split; [intros t Ht; exact (overlap_old _ _ _ _ _ _ _ _ _ _ _ Hr1 Hr2 Ha Hx Ht)|].
  split; [done|]. split; [done|]. split.
  - intros t. rewrite Ehs in Hhosts. destruct (Hhosts h Hh Ei) as (h3 & Hh3 & Ei3 & Ee3 & El3 & En3).
    apply Hkeep in Hnew; [|done..].
    apply (authenticate_intro r3 h3 _ credential_id host secret t Hr3) in Hnew as ->; try done; [|congruence..].
    unfold auth'. by rewrite Ee3.
  - intros r4 Hs some t a. destruct (Hold _ Hc2) as (c3 & Hc3 & Hle & Hrev3); [simpl; congruence| |].
    { destruct (wf_rots _ Hr1 _ (rd_in _ _ _ _ _ Ho)) as (_ & Hgen & _).
      simpl. rewrite Ecg, <-(rd_generation _ _ _ _ _ Ho). lia. }
    destruct (cred_le_fields _ _ Hle) as (_ & _ & _ & _ & Ev).
    destruct (authenticated_credential _ _ _ _ _ _ Hr1 Ha Hc Eci) as [Hv _].
    eapply (revoked_never_authenticates r3 r4 c3); [done|done|done|simpl in Ev; congruence|done].
Qed.
End rotation.
