(* ===== verification/ApprovalProps.v ===== *)
(** * What an approval grants

    Approving a host turns the scope an administrator asks for into grants:
    never more than the enrollment was issued for, and never a capability
    that was not granted on purpose. *)
From S2P Require Import Prelude Base64 Ids Domain Protocol Outcomes Capabilities Inventory Crypto Store Service Admission Commands RegistryStore Registry Observation Reconcile RegistrySpec ObservationSpec.
#[local] Open Scope string_scope.
#[local] Open Scope Z_scope.

Section approval.
Context `{UuidText, Codec, ScopeJson}.
Implicit Types (r : Registry) (g : HostTargetGrantRow).

Definition live_grant host target g : Prop :=
  g_host_id g = host ∧ g_target_id g = target ∧ g_revoked_at g = None.

(** A grant that lets jobs run in containers only. *)
Definition unprivileged g : Prop :=
  g_allow_native g = false ∧ g_allow_interactive g = false ∧ g_allow_docker_socket g = false.

(** The grants of [l] in terms of those of [l0], for an approval of [host]
    with the targets [requested]. *)
Definition narrowed host (requested : list string) (l0 l : list HostTargetGrantRow) : Prop :=
  ∀ g, g ∈ l →
    (g_host_id g ≠ host → g ∈ l0)
    ∧ ∀ target, live_grant host target g → target ∈ requested ∧ (g ∈ l0 ∨ unprivileged g).

Lemma narrowed_revoked host requested now l :
  narrowed host requested l (update_where (λ g, String.eqb (g_host_id g) host && is_null (g_revoked_at g)
    && negb (existsb (String.eqb (g_target_id g)) requested)) (λ g, g <| g_revoked_at := Some now |>) l).
Proof.
  intros g (g0 & Hg0 & ->)%elem_of_update_where.
  destruct (_ && _) eqn:Hq; simpl; bool_to_prop; [split; [done|by intros ? (_ & _ & ?)]|].
  split; [done|]. intros target (Eh & Et & Hn). split; [|by left].
  rewrite Eh, Hn, String.eqb_refl in Hq. simpl in Hq. apply negb_false_iff, existsb_exists in Hq as (t & Ht & E).
  apply String.eqb_eq in E. rewrite <-Et, E. by apply list_elem_of_In.
Qed.

Lemma narrowed_approve_target host user requested l0 r target r' :
  target ∈ requested → narrowed host requested l0 (host_target_grants (rg_policy r)) →
  approve_target host user r target = Ok r' →
  narrowed host requested l0 (host_target_grants (rg_policy r')).
Proof.
  intros Ht Hn. unfold approve_target, bump_grants. intros E. repeat case_match; inv_result; simpl; [|done|].
  - intros g (g0 & Hg0 & ->)%elem_of_update_where. destruct (_ && _) eqn:Hq; [|by apply Hn].
    unfold grant_of in Hq. bool_to_prop. split; simpl; [done|].
    intros t (Eh & Et & _). simpl in *. split; [congruence|by right].
  - intros g [Hg|Hg]%elem_of_app; [by apply Hn|]. apply list_elem_of_singleton in Hg as ->.
    split; simpl; [done|]. intros t (Eh & Et & _). simpl in *. split; [congruence|by right].
Qed.

Lemma approve_targets_narrowed host user l0 r requested r' :
  narrowed host requested l0 (host_target_grants (rg_policy r)) →
  try_fold (approve_target host user) r requested = Ok r' →
  narrowed host requested l0 (host_target_grants (rg_policy r')).
Proof.
  apply (try_fold_ind _ (λ r, narrowed host requested l0 (host_target_grants (rg_policy r)))).
  intros s t s' Ht Hs E. by eapply narrowed_approve_target.
Qed.

Lemma approve_target_live host user r target r' :
  approve_target host user r target = Ok r' →
  (∃ g, g ∈ host_target_grants (rg_policy r') ∧ live_grant host target g)
  ∧ ∀ t g, g ∈ host_target_grants (rg_policy r) → live_grant host t g →
      g ∈ host_target_grants (rg_policy r').
Proof.
  unfold approve_target, bump_grants. intros E. repeat case_match; inv_result; simpl.
  - match goal with H : fetch _ _ = Some ?x |- _ => apply fetch_Some in H as [Hg Hq]; rename x into g end.
    split.
    + eexists. split; [apply elem_of_update_where; exists g; split; [done|reflexivity]|].
      simpl. rewrite Hq. match goal with H : not_null _ = true |- _ => rewrite H end.
      unfold grant_of in Hq. bool_to_prop. done.
    + intros t g' Hg' (_ & _ & Hn). apply elem_of_update_where. exists g'. split; [done|].
      by rewrite Hn, andb_false_r.
  - match goal with H : fetch _ _ = Some ?x |- _ => apply fetch_Some in H as [Hg Hq]; rename x into g end.
    split; [|done]. exists g. unfold grant_of in Hq. bool_to_prop. split; [done|]. split_and!; try done.
    by destruct (g_revoked_at g).
  - split; [|intros; apply elem_of_app; by left].
    eexists. split; [apply elem_of_app; right; left|done].
Qed.

Lemma approve_targets_live host user r targets r' :
  try_fold (approve_target host user) r targets = Ok r' →
  (∀ t, t ∈ targets → ∃ g, g ∈ host_target_grants (rg_policy r') ∧ live_grant host t g)
  ∧ ∀ t g, g ∈ host_target_grants (rg_policy r) → live_grant host t g →
      g ∈ host_target_grants (rg_policy r').
Proof.
  revert r. induction targets as [|t targets IH]; simpl; intros r E.
  { inv_result. split; [intros ?; by rewrite elem_of_nil|done]. }
  inv_result. destruct (IH _ E) as [IH1 IH2].
  match goal with H : approve_target _ _ _ _ = Ok _ |- _ => apply approve_target_live in H as [(g & Hg & Hl) Hold] end.
  split; [|eauto]. intros t' [->|Ht]%elem_of_cons; [eauto|by apply IH1].
Qed.

Lemma ensure_targets_each p user scope u :
  ensure_targets p user scope = Ok u → ∀ t, t ∈ scope → ensure_target_admin p user t = Ok tt.
Proof. apply try_fold_each. Qed.

Lemma scope_is_subset_in requested issued :
  scope_is_subset requested issued = true → ∀ t, t ∈ requested → t ∈ issued.
Proof.
  unfold scope_is_subset. intros Hs t Ht. rewrite forallb_forall in Hs.
  apply list_elem_of_In, Hs, existsb_exists in Ht as (x & Hx & ->%Z.eqb_eq). by apply list_elem_of_In.
Qed.

(** C32: an approval that succeeds is of a pending host, and afterwards the
    live grants of the host are exactly those for the targets asked for: each
    is in the scope the enrollment was issued for, administered by the
    approver and by the issuer of the code, and is either a grant that was
    live before or one that allows neither native nor interactive runs nor
    the Docker socket.  Grants of other hosts are as before, and the host is
    approved but still paused. *)
Theorem approval_grants_only_what_was_enrolled r r' principal request now :
  reg_wf r → approve_host r principal request now = Ok r' →
  let host := to_string (ap_host_id request) in
  let grants r := host_target_grants (rg_policy r) in
  ∃ user h e issued,
    user_of principal = Some user ∧ host_of r host = Some h ∧ h_enrollment_state h = EnrPending
    ∧ lineage r h = Some e ∧ en_scope e = Some issued
    ∧ (∀ g, g ∈ grants r' → g_revoked_at g = None → g_host_id g = host →
        (∃ t, g_target_id g = to_string t ∧ t ∈ ap_scope request ∧ t ∈ issued
           ∧ ensure_target_admin (rg_policy r) user t = Ok tt
           ∧ ensure_target_admin (rg_policy r) (en_issued_by e) t = Ok tt)
        ∧ (g ∈ grants r ∨ unprivileged g))
    ∧ (∀ t, t ∈ ap_scope request → ∃ g, g ∈ grants r' ∧ live_grant host (to_string t) g)
    ∧ (∀ g, g ∈ grants r' → g_host_id g ≠ host → g ∈ grants r)
    ∧ ∃ h', host_of r' host = Some h' ∧ h_enrollment_state h' = EnrApproved
        ∧ h_lifecycle_state h' = IntPaused.
Proof.
  intros Hr E. destruct (good_approve_host _ _ _ _ _ E Hr) as [Hr' _].
  intros host grants. unfold approve_host in E. fold host in E. inv_result.
  set (requested := to_string <$> ap_scope request) in *.
  match goal with H : user_of _ = Some ?u |- _ => exists u end.
  match goal with H : host_of r _ = Some ?u |- _ => exists u; rename u into h; rename H into Hh end.
  match goal with H : lineage r h = Some ?u |- _ => exists u; rename u into e end.
  match goal with H : en_scope e = Some ?u |- _ => exists u; rename u into issued end.
  match goal with H : try_fold _ ?r1 _ = Ok ?r2 |- _ =>
    set (r1' := r1) in H; rename r2 into r2', H into Hfold end.
  match goal with H : bump_hosts _ _ _ = Ok ?r3 |- _ => rename H into Hbump, r3 into r3' end.
  assert (grants (audit_and_event r3' host "fleet.host.approved" now) = grants r2') as ->.
  { unfold bump_hosts in Hbump. inv_result. done. }
  pose proof (approve_targets_narrowed host _ (grants r) r1' requested r2'
    (narrowed_revoked host requested now (grants r)) Hfold) as Hnar.
  pose proof (approve_targets_only _ _ _ _ _ Hfold) as Honly.
  apply approve_targets_live in Hfold as [Hlive _].
  bool_to_prop. do 5 (split; [done|]). split; [|split; [|split]].
  - intros g Hg Hn Eh. destruct (Hnar g Hg) as [_ Hl].
    destruct (Hl (g_target_id g)) as [Ht Hor]; [done|]. split; [|done].
    apply list_elem_of_fmap in Ht as (t & Et & Ht). exists t. split; [done|]. split; [done|].
    split; [by eapply scope_is_subset_in|]. unfold ensure_scope_admin in *. inv_result.
    split; [by eapply (ensure_targets_each _ _ (ap_scope request))|].
    eapply (ensure_targets_each _ _ issued); [eassumption|by eapply scope_is_subset_in].
  - intros t Ht. apply Hlive. by apply list_elem_of_fmap_2.
  - intros g Hg. by apply Hnar.
  - apply host_of_Some in Hh as [Hin Ei].
    assert (hosts r2' = hosts r) as Ehs by (by destruct Honly as [f ->]).
    destruct (bump_hosts_in _ _ _ _ h Hbump) as (h' & Hh' & Ei' & _ & El & Een).
    { by rewrite Ehs. }
    { unfold host_named. by rewrite Ei, String.eqb_refl, Z.eqb_refl. }
    exists h'. split; [|done]. apply host_of_is; [done|done|]. by rewrite Ei'.
Qed.
End approval.
