(* ===== verification/RegistryWitnesses.v ===== *)
(** * The registry's theorems at the states of a run

    Each theorem of the registry, the sessions and the inventory, applied at
    the states of the run of [RegistrySample]. *)
From S2P Require Import Prelude Base64 Ids Domain Protocol Outcomes Capabilities Inventory Crypto Store Service Admission Commands Fleet RegistryStore Registry Observation Reconcile RegistrySpec ObservationSpec ReconcileSpec RegistryTrace RegistrySample InventoryProps RegistryProps RotationProps ApprovalProps.
From stdpp Require Import pretty.
Import SampleRegistry.
#[local] Open Scope string_scope.
#[local] Open Scope Z_scope.

(** ** Invariants *)
Lemma reachable_registry_witness :
  reg_reachable r_working ∧ NoDup ((λ c, (cred_host_id c, cred_generation c)) <$> credentials r_working).
Proof.
  assert (reg_reachable r_working) as Hr by (exists r_new; exact (conj new_vacant working_reachable)).
  split; [exact Hr|]. exact (proj1 (reachable_registry r_working Hr)).
Defined.

Lemma work_authority_needs_evidence_witness :
  ∃ h, only (hosts r_working) = Some h ∧ h_authority_expires_at h = Some 97000
    ∧ h_integrity_state h = Verified.
Proof.
  eexists. split; [vm_compute; reflexivity|]. split; [reflexivity|].
  refine (proj1 (proj2 (proj2 (work_authority_needs_evidence r_working _ 97000 _ _ _)))).
  - exists r_new. exact (conj new_vacant working_reachable).
  - apply only_in. vm_compute. reflexivity.
  - reflexivity.
Defined.

Lemma revoked_reachable : rtc reg_step r_new r_revoked.
Proof. eapply rtc_r; [exact working_reachable|exact revoked_step]. Qed.

Lemma revocation_is_permanent_witness :
  (∃ c, only (credentials r_revoked) = Some c ∧ cred_revoked_at c = Some 8000)
  ∧ ∀ host_id now a, authenticate r_revoked host_id (secret 2) now ≠ Ok a.
Proof.
  split; [eexists; split; [vm_compute; reflexivity|reflexivity]|].
  refine (proj1 (revocation_is_permanent r_revoked r_revoked _ (secret 2)
    (reached_wf _ revoked_reachable) _ _ _ (rtc_refl _ _))).
  - apply only_in. vm_compute. reflexivity.
  - eexists. reflexivity.
  - vm_compute. reflexivity.
Defined.

Lemma retired_reachable : rtc reg_step r_new r_retired.
Proof.
  eapply rtc_r; [|exact retired_step]. eapply rtc_r; [exact working_reachable|exact paused_step].
Qed.

Lemma retirement_is_final_witness :
  (∃ h, only (hosts r_retired) = Some h ∧ h_lifecycle_state h = IntRetired)
  ∧ ∀ secret now a, authenticate r_retired 5 secret now ≠ Ok a.
Proof.
  split; [eexists; split; [vm_compute; reflexivity|reflexivity]|].
  refine (proj2 (retirement_is_final r_retired r_retired _ 5
    (reached_wf _ retired_reachable) _ _ _ (rtc_refl _ _))).
  - apply only_in. vm_compute. reflexivity.
  - reflexivity.
  - vm_compute. reflexivity.
Defined.

(** ** Enrollment and recovery *)
Lemma issued_wf : reg_wf r_issued.
Proof. apply reached_wf, rtc_once, issued_step. Qed.

Definition receipt : EnrollmentReceipt :=
  {| er_host_id := 5; er_credential_id := 91; er_credential_generation := 1;
     er_credential := secret 2 |}.

Lemma code_is_consumed_once_witness :
  consume r_issued = Ok (r_enrolled, receipt)
  ∧ ∀ registration' secret' host_id' domain_id' credential_id' now' answer,
      consume_enrollment r_enrolled (secret 1) registration' secret' host_id' domain_id' credential_id' now'
      ≠ Ok answer.
Proof.
  assert (consume r_issued = Ok (r_enrolled, receipt)) as E by (vm_compute; reflexivity).
  split; [exact E|].
  exact (code_is_consumed_once r_issued r_enrolled r_enrolled (secret 1) registration (drawn 2) 5 20 91 2000
    receipt issued_wf (small_uuid 91 eq_refl eq_refl) E (rtc_refl _ _)).
Defined.

Lemma enrollment_yields_credential_witness :
  ∃ h, host_of r_enrolled (to_string 5) = Some h ∧ h_lifecycle_state h = IntPaused
    ∧ authenticate r_enrolled 5 (secret 2) 99999 = Ok auth.
Proof.
  assert (consume r_issued = Ok (r_enrolled, receipt)) as E by (vm_compute; reflexivity).
  destruct (enrollment_yields_credential r_issued r_enrolled (secret 1) registration (drawn 2) 5 20 91 2000
    receipt 99999 issued_wf (small_uuid 91 eq_refl eq_refl) eq_refl) as (h & Hh & _ & Hp & Ha).
  - repeat constructor; vm_compute; discriminate || reflexivity.
  - exact E.
  - exists h. split; [exact Hh|]. split; [exact Hp|]. vm_compute. reflexivity.
Defined.

Lemma recovery_fences_old_credentials_witness :
  is_ok (recover r_recovering) = true
  ∧ ∀ some_host later a, authenticate r_recovered some_host (secret 2) later ≠ Ok a.
Proof.
  split; [vm_compute; reflexivity|].
  assert (∃ x, recover r_recovering = Ok (r_recovered, x) ∧ er_host_id x = 5) as (x & E & Ex)
    by (eexists; vm_compute; split; reflexivity).
  assert (∃ h, only (hosts r_recovering) = Some h ∧ h_id h = to_string (er_host_id x)) as (h & Hh & Ei)
    by (rewrite Ex; eexists; vm_compute; split; reflexivity).
  assert (∃ c, only (credentials r_recovering) = Some c ∧ cred_host_id c = to_string 5
    ∧ cred_verifier c = Verifier_from_secret (secret 2)) as (c & Hc & Ech & Ev)
    by (eexists; vm_compute; split; [|split]; reflexivity).
  assert (reg_wf r_recovering) as Hr
    by (apply reached_wf; eapply rtc_r; [exact working_reachable|exact recovering_step]).
  refine (proj2 (recovery_fences_old_credentials r_recovering r_recovered r_recovered (secret 4) registration
    (drawn 5) 6 22 93 9000 x h Hr (small_uuid 93 eq_refl eq_refl) E (only_in _ _ Hh) Ei (rtc_refl _ _))
    c (secret 2) (only_in _ _ Hc) _ Ev).
  congruence.
Defined.

(** ** Rotation and approval *)
Lemma working_wf : reg_wf r_working.
Proof. apply reached_wf, working_reachable. Qed.

Definition rotation_receipt : RotationRequestReceipt :=
  {| rq_operation_id := 400; rq_host_id := 5; rq_old_generation := 1; rq_next_generation := 2;
     rq_expires_at := 908000 |}.

Lemma rotation_completes_witness :
  ∃ r2 exchange auth' r3 ack,
    exchange_rotation r_requested auth 400 (secret 3) 92 9000 = Ok (r2, exchange)
    ∧ acknowledge_rotation r2 auth' 400 10000 = Ok (r3, ack)
    ∧ (∀ t, authenticate r3 5 (secret 3) t = Ok auth')
    ∧ ∀ host t a, authenticate r3 host (secret 2) t ≠ Ok a.
Proof.
  destruct (rotation_completes r_working r_requested alice rotation 400 8000 rotation_receipt (secret 2) auth
    9000 (secret 3) 92 10000 working_wf) as (r2 & x & auth' & r3 & ack & Hx & _ & _ & Ha & Hn & Ho).
  - vm_compute. reflexivity.
  - assert (host_credential_rotations r_working = []) as E by (vm_compute; reflexivity).
    intros o. rewrite E. by intros []%not_elem_of_nil.
  - vm_compute. reflexivity.
  - reflexivity.
  - reflexivity.
  - split; [vm_compute; reflexivity|]. split; [vm_compute; reflexivity|].
    split; [exact (small_uuid 92 eq_refl eq_refl)|].
    assert (∃ c, only (credentials r_requested) = Some c
      ∧ cred_verifier c ≠ Verifier_from_secret (secret 3) ∧ cred_id c ≠ to_string 92) as (c & Hc & Hne)
      by (eexists; vm_compute; split; [reflexivity|split; discriminate]).
    intros c' Hin. by rewrite (only_eq _ _ _ Hc Hin).
  - reflexivity.
  - assert (∃ h, only (hosts r_requested) = Some h ∧ h_revision h < i64_max) as (h & Hh & Hlt)
      by (eexists; split; [vm_compute; reflexivity|reflexivity]).
    intros h' Hin. by rewrite (only_eq _ _ _ Hh Hin).
  - exists r2, x, auth', r3, ack. split; [exact Hx|]. split; [exact Ha|]. split; [exact Hn|].
    exact (Ho r3 (rtc_refl _ _)).
Defined.

Lemma approval_grants_only_what_was_enrolled_witness :
  ∃ g, only (host_target_grants (rg_policy r_approved)) = Some g ∧ live_grant (to_string 5) (to_string 30) g.
Proof.
  destruct (approval_grants_only_what_was_enrolled r_observed r_approved alice approval 5000
    (reached_wf _ observed_reachable)) as (user & h & e & issued & _ & _ & _ & _ & _ & _ & Hall & _).
  - vm_compute. reflexivity.
  - destruct (Hall 30) as (g & Hg & Hl); [left|].
    exists g. split; [|exact Hl].
    assert (∃ g, only (host_target_grants (rg_policy r_approved)) = Some g) as [g' Hg'] by (eexists; vm_compute; reflexivity).
    rewrite Hg'. f_equal. symmetry. exact (only_eq _ _ _ Hg' Hg).
Defined.

(** ** Inventory *)
Lemma depth_walk_terminates_witness :
  ∃ n, (n ≤ 63)%nat ∧ depth_of (ir_domains report) 64 "vm" = Some n.
Proof.
  destruct (depth_walk_terminates report eq_refl (domain "vm" (Some "root") VirtualMachine)) as (n & Hn & Hd).
  - left.
  - exists n. split; [exact Hn|]. exact (Hd 64%nat ltac:(lia)).
Defined.

Lemma parents_come_first_witness :
  ∃ d', d' ∈ [domain "root" None Physical] ∧ od_local_key d' = "root".
Proof.
  exact (parents_come_first report [domain "root" None Physical] (domain "vm" (Some "root") VirtualMachine) []
    "root" eq_refl eq_refl eq_refl eq_refl).
Defined.

(** The same report, with the parent first. *)
Definition sorted_report : InventoryReport :=
  report <| ir_domains := [domain "root" None Physical; domain "vm" (Some "root") VirtualMachine] |>.

Lemma digest_ignores_order_witness :
  canonical_inventory_digest sorted_report = canonical_inventory_digest report.
Proof.
  apply digest_ignores_order.
  - split; [reflexivity| |reflexivity..]. apply perm_swap.
  - reflexivity.
  - repeat constructor. intros []%elem_of_nil.
Defined.

Lemma inventory_respects_policy_witness :
  ∃ answer, submit_inventory r_opened w0 auth inventory ids 4000 = (r_observed, w0, Ok answer)
    ∧ host_enrollments r_observed = host_enrollments r_opened.
Proof.
  eexists. split; [vm_compute; reflexivity|].
  refine (proj1 (proj2 (proj2 (inventory_respects_policy r_opened w0 auth inventory ids 4000
    r_observed w0 _ _)))).
  vm_compute. reflexivity.
Defined.

(** ** Sessions *)
Definition r_conflicted : Registry := seen (handshake r_working w0 auth (hello 303 9 "other") 8000).

Lemma session_conflict_quarantines_witness :
  handshake r_working w0 auth (hello 303 9 "other") 8000 = (r_conflicted, w0, Err SessionConflict)
  ∧ live_session r_conflicted (to_string 5) = None.
Proof.
  assert (handshake r_working w0 auth (hello 303 9 "other") 8000 = (r_conflicted, w0, Err SessionConflict))
    as E by (vm_compute; reflexivity).
  split; [exact E|].
  destruct (session_conflict_quarantines r_working w0 auth (hello 303 9 "other") 8000 r_conflicted w0
    working_wf E) as (x & h & _ & _ & _ & _ & _ & _ & Hl & _).
  exact Hl.
Defined.

Definition r_reopened : Registry := seen (handshake r_opened w0 auth (hello 303 9 "boot") 3500).

Lemma accepted_handshake_excludes_witness :
  ∃ x h, live_session r_opened (to_string 5) = Some x ∧ host_of r_opened (to_string 5) = Some h
    ∧ (ob_boot_id x = "boot" ∨ ¬ still_live x h 3500).
Proof.
  do 2 eexists. split; [vm_compute; reflexivity|]. split; [vm_compute; reflexivity|].
  eapply (accepted_handshake_excludes r_opened w0 auth (hello 303 9 "boot") 3500 r_reopened w0).
  - vm_compute. reflexivity.
  - reflexivity.
  - vm_compute. reflexivity.
  - vm_compute. reflexivity.
  - split; [reflexivity|]. do 2 eexists. split; [vm_compute; reflexivity|].
    split; [vm_compute; reflexivity|reflexivity].
Defined.

Lemma repeated_inventory_is_answered_alike_witness :
  ∃ answer r2, submit_inventory r_observed w0 auth inventory ids 4500 = (r2, w0, Ok answer).
Proof.
  do 2 eexists.
  eapply (repeated_inventory_is_answered_alike r_opened w0 auth inventory ids 4000 r_observed w0 _ ids 4500).
  - exact (reached_wf _ opened_reachable).
  - vm_compute. reflexivity.
  - vm_compute. reflexivity.
Defined.
