(* ===== verification/SessionFrame.v ===== *)
(** * What a session leaves alone

    An agent that connects again shakes hands, reports its inventory and sends
    heartbeats.  Whatever these transactions do, of whichever machine, the
    credentials and rotations stay as they are, and a machine keeps its epoch
    and its enrollment and is not retired. *)
From S2P Require Import Prelude Base64 Ids Domain Protocol Outcomes Capabilities Inventory Crypto Store Service Admission Commands RegistryStore Registry Observation Reconcile RegistrySpec ObservationSpec ReconcileSpec RegistryTrace.
#[local] Open Scope string_scope.
#[local] Open Scope Z_scope.

Definition host_same (h h' : HostRow) : Prop :=
  h_id h' = h_id h ∧ h_epoch h' = h_epoch h ∧ h_revision h' = h_revision h
  ∧ h_enrollment_state h' = h_enrollment_state h
  ∧ (h_lifecycle_state h' = IntRetired → h_lifecycle_state h = IntRetired).

#[export] Instance host_same_preorder : PreOrder host_same.
Proof.
  split; [done|]. intros h1 h2 h3 (? & ? & ? & ? & ?) (? & ? & ? & ? & ?). split_and!; first [congruence|auto].
Qed.

Record leaves (r r' : Registry) : Prop := {
  lv_credentials : credentials r' = credentials r;
  lv_rotations : host_credential_rotations r' = host_credential_rotations r;
  lv_hosts : kept host_same (hosts r) (hosts r') }.

#[export] Instance leaves_preorder : PreOrder leaves.
Proof.
  split; [intros r; split; [done..|reflexivity]|].
  intros r1 r2 r3 [? ? ?] [? ? ?]. split; [congruence..|by etrans].
Qed.

Lemma leaves_same r r' :
  rg_policy r' = rg_policy r → host_credential_rotations r' = host_credential_rotations r → leaves r r'.
Proof. intros E Er. split; [by rewrite E|done|]. rewrite E. reflexivity. Qed.

Lemma leaves_update_hosts r q f : (∀ h, host_same h (f h)) → leaves r (update_hosts q f r).
Proof.
  intros Hf. split; [done..|]. apply kept_update; [apply _|]. intros h _ _.
  destruct (invalidate_inventory_same h (f h)) as (Ei & Ee & Er & El & En & _). unfold host_same.
  rewrite Ei, Ee, Er, El, En. apply Hf.
Qed.

Section sessions.
Context `{UuidText, Codec, Aead, ResultJson, ScopeJson, ObservationJson}.
Implicit Types (r : Registry) (w : Work).

(** The transactions of sessions, and changes of other tables. *)
Inductive session_step : Registry → Registry → Prop :=
| session_handshake r r' w w' auth request now answer :
    handshake r w auth request now = (r', w', answer) → session_step r r'
| session_heartbeat r r' w w' auth request now answer :
    heartbeat r w auth request now = (r', w', answer) → session_step r r'
| session_inventory r r' w w' auth request drawn now answer :
    submit_inventory r w auth request drawn now = (r', w', answer) → session_step r r'
| session_policy_change r p' :
    fleet_hosts p' = hosts r → host_credentials p' = credentials r →
    session_step r (r <| rg_policy := p' |>).

Lemma session_is_step r r' : session_step r r' → reg_step r r'.
Proof.
  destruct 1; [by eapply step_handshake|by eapply step_heartbeat|by eapply step_inventory|by apply step_policy].
Qed.

Lemma leaves_core r r' : same_core r r' → leaves r r'.
Proof. intros (Eh & Ec & _ & Er & _). split; [done..|]. rewrite Eh. reflexivity. Qed.

Lemma leaves_clear r host_id now : leaves r (clear_host_observation r host_id now).
Proof.
  unfold clear_host_observation. set (r1 := update_hosts _ _ r). trans r1.
  - by apply leaves_update_hosts.
  - split; [done..|]. simpl. reflexivity.
Qed.

Lemma leaves_follow r r' x auth now : follow_credential r x auth now = Ok r' → leaves r r'.
Proof.
  unfold follow_credential, advance_rotated_session_credential. intros E. unfold reg in *. inv_result.
  repeat case_match; unfold reg in *; inv_result; by apply leaves_same.
Qed.

Lemma leaves_end r r' id state now : end_session id state now r = Ok r' → leaves r r'.
Proof. unfold end_session. intros E. inv_result. by apply leaves_same. Qed.

Lemma leaves_open r w r' w' auth request epoch incarnation digest now answer :
  open_session r w auth request epoch incarnation digest now = Ok (r', w', answer) → leaves r r'.
Proof.
  intros E. unfold open_session in E. unfold reg in *. inv_result. simplify_eq.
  match goal with H : insert_session _ _ = Ok _ |- _ => unfold insert_session in H; inv_result end.
  match goal with |- leaves _ (audit_and_event (update_hosts _ _ ?r1) _ _ _) => trans r1 end; [by apply leaves_same|].
  match goal with |- leaves _ (audit_and_event ?r2 _ _ _) => trans r2 end; [by apply leaves_update_hosts|].
  by apply leaves_same.
Qed.

Lemma leaves_handshake r w r' w' auth request now answer :
  handshake_tx r w auth request now = Ok (r', w', answer) → leaves r r'.
Proof.
  intros E. unfold handshake_tx in E. unfold reg, invalid in *. inv_result.
  case_match; inv_result; [by simplify_eq|].
  destruct (live_session r (to_string (ah_host_id auth))) as [sx|]; inv_result; [|by eapply leaves_open].
  case_match; inv_result; [simplify_eq; by eapply leaves_follow|].
  case_match; inv_result; (etrans; [by eapply leaves_end|]; etrans; [apply leaves_clear|]);
    [|by eapply leaves_open].
  simplify_eq. match goal with |- leaves _ (audit_and_event ?r2 _ _ _) => trans r2 end; [|by apply leaves_same].
  by apply leaves_update_hosts.
Qed.

Lemma leaves_load r r' auth report now cs : load_current_session r auth report now = Ok (r', cs) → leaves r r'.
Proof. intros (Ep & Er & _)%load_frame. by apply leaves_same. Qed.

Lemma leaves_authority r r' cs grant_at t : work_authority r cs grant_at = Ok (r', t) → leaves r r'.
Proof.
  unfold work_authority. intros E. inv_result.
  match goal with H : match grant_at with _ => _ end = Ok _ |- _ => rename H into Hg end.
  assert (leaves r x) as Hl.
  { destruct grant_at as [[now ready]|]; inv_result; [|done]. unfold grant_authority.
    set (r1 := update_hosts _ _ r). trans r1; by apply leaves_update_hosts. }
  case_match; unfold invalid in *; inv_result; by simplify_eq.
Qed.

Lemma leaves_heartbeat r w r' w' auth request now answer :
  heartbeat_tx r w auth request now = Ok (r', w', answer) → leaves r r'.
Proof.
  intros E. unfold heartbeat_tx in E. unfold reg in *. inv_result. destruct x1 as [r1 cs].
  match goal with H : load_current_session _ _ _ _ = Ok _ |- _ => apply leaves_load in H as Hl end.
  etrans; [exact Hl|]. inv_result. case_match.
  - case_match; inv_result. unfold replay_heartbeat in E. inv_result. by simplify_eq.
  - inv_result. simplify_eq.
    match goal with H : insert_samples _ _ _ _ _ = Ok _ |- _ => apply insert_samples_same in H as [Hs _] end.
    match goal with H : work_authority _ _ _ = Ok ?y |- _ => destruct y as [r3 t]; apply leaves_authority in H as Hw end.
    etrans; [by apply leaves_core|]. etrans; [|exact Hw].
    match goal with |- leaves _ (update_hosts _ _ ?r2) => trans r2 end; [by apply leaves_same|by apply leaves_update_hosts].
Qed.

Lemma leaves_inventory r w r' w' auth request drawn now answer :
  submit_inventory_tx r w auth request drawn now = Ok (r', w', answer) → leaves r r'.
Proof.
  intros E. unfold submit_inventory_tx in E. unfold reg in *. inv_result. destruct x1 as [r1 cs].
  match goal with H : load_current_session _ _ _ _ = Ok _ |- _ => apply leaves_load in H as Hl end.
  etrans; [exact Hl|]. inv_result. case_match.
  - case_match; inv_result. unfold replay_inventory in E. inv_result. by simplify_eq.
  - unfold accept_inventory in E. inv_result. destruct x3 as [r2 mappings]. inv_result. simplify_eq.
    match goal with H : reconcile_inventory _ _ _ _ _ = Ok _ |- _ => apply reconcile_inventory_ok in H as [Hs2 _] end.
    match goal with H : insert_samples _ _ _ _ _ = Ok _ |- _ => apply insert_samples_same in H as [Hs3 _] end.
    match goal with H : insert_snapshot _ _ = Ok _ |- _ => apply insert_snapshot_same in H as [Hs4 _] end.
    match goal with H : complete_inventory _ _ _ _ _ = Ok _ |- _ => unfold complete_inventory in H; inv_result end.
    etrans; [apply leaves_core; by etrans; [etrans|]|].
    match goal with |- context [update_sessions _ _ ?r5] => trans r5 end; [by apply leaves_update_hosts|].
    case_match; by apply leaves_same.
Qed.

Lemma leaves_transact {A} r w r' w' (tx : Answer A) answer :
  (∀ r' w' answer, tx = Ok (r', w', answer) → leaves r r') → transact r w tx = (r', w', answer) → leaves r r'.
Proof. intros Htx. unfold transact. destruct tx as [[[r1 w1] a]|e] eqn:E; intros [= <- <- <-]; [by eapply Htx|done]. Qed.

Lemma session_leaves r r' : session_step r r' → leaves r r'.
Proof.
  destruct 1.
  - eapply leaves_transact; [|done]. intros. by eapply leaves_handshake.
  - eapply leaves_transact; [|done]. intros. by eapply leaves_heartbeat.
  - eapply leaves_transact; [|done]. intros. by eapply leaves_inventory.
  - split; [done..|]. simpl. match goal with H : fleet_hosts p' = _ |- _ => rewrite H end. reflexivity.
Qed.

(** ** Other transactions that leave one machine alone *)
Record spares (host : string) (r r' : Registry) : Prop := {
  sp_credentials : ∀ c, cred_host_id c = host → c ∈ credentials r ↔ c ∈ credentials r';
  sp_rotations : ∀ o, ro_host_id o = host → o ∈ host_credential_rotations r → o ∈ host_credential_rotations r';
  sp_hosts : ∀ h, h ∈ hosts r → h_id h = host → ∃ h', h' ∈ hosts r' ∧ h_id h' = host ∧ h_epoch h' = h_epoch h
    ∧ (h_enrollment_state h' = EnrRevoked → h_enrollment_state h = EnrRevoked)
    ∧ (h_lifecycle_state h' = IntRetired → h_lifecycle_state h = IntRetired)
    ∧ (h_revision h < i64_max → h_revision h' < i64_max) }.

#[export] Instance spares_preorder host : PreOrder (spares host).
Proof.
  split; [intros r; split; [done..|]; intros h Hh Ei; by exists h|].
  intros r1 r2 r3 [C12 R12 H12] [C23 R23 H23]. split.
  - intros c Ec. by rewrite C12, C23.
  - intros o Eo Ho. auto.
  - intros h Hh Ei. destruct (H12 h Hh Ei) as (h2 & Hh2 & Ei2 & Ee2 & ? & ? & ?).
    destruct (H23 h2 Hh2 Ei2) as (h3 & Hh3 & Ei3 & Ee3 & ? & ? & ?). exists h3. split_and!; auto. congruence.
Qed.

Lemma leaves_spares host r r' : leaves r r' → spares host r r'.
Proof.
  intros [Ec Er Hk]. split; [by rewrite Ec|by rewrite Er|]. intros h Hh Ei.
  destruct (Hk h Hh) as (h' & Hh' & Ei' & Ee & Erv & En & El). exists h'. split_and!; try done; [congruence..|lia].
Qed.

(** A transaction of a session, of any machine, or any other transaction that
    leaves the machine's credentials and rotations alone and does not retire
    or revoke it. *)
Inductive meantime (host : string) (r r' : Registry) : Prop :=
| by_session : session_step r r' → meantime host r r'
| by_others : reg_step r r' → spares host r r' → meantime host r r'.

Lemma meantime_spares host r r' : rtc (meantime host) r r' → spares host r r'.
Proof.
  induction 1 as [|r1 r2 r3 Hs _ IH]; [done|]. etrans; [|exact IH].
  destruct Hs as [Hs|_ Hs]; [by apply leaves_spares, session_leaves|done].
Qed.

Lemma meantime_steps host r r' : rtc (meantime host) r r' → rtc reg_step r r'.
Proof.
  induction 1 as [|r1 r2 r3 Hs _ IH]; [done|]. eapply rtc_l; [|exact IH].
  destruct Hs as [Hs|Hs _]; [by apply session_is_step|done].
Qed.

Lemma meantime_wf host r r' : reg_wf r → rtc (meantime host) r r' → reg_wf r'.
Proof. intros Hr Hs. by apply (steps_good _ _ (meantime_steps _ _ _ Hs) Hr). Qed.
End sessions.
