(* ===== verification/Autoscaling.v ===== *)
(** * Autoscaling: which pool, repository and provider a queued job calls for
    ([crates/gridops-core/src/autoscaling.rs]).

    The label rules, the assignment of every queued job to one pool, the
    counts per provider and per repository, and the choices made from them.
    [arch] is [std::env::consts::ARCH] of the machine that runs the code. *)
From S2P Require Import Prelude Base64 Ids Domain Protocol Outcomes Capabilities Crypto Store.
#[local] Open Scope string_scope.
#[local] Open Scope Z_scope.

(** ** Labels *)
Definition SYSTEM_LABELS : list string :=
  ["self-hosted"; "linux"; "macos"; "windows"; "x64"; "arm64"; "arm"; "x86"].

Definition is_runner_system_label (label : string) : bool :=
  existsb (λ system, eq_ignore_ascii_case system label) SYSTEM_LABELS.

Section labels.
Context (arch : string).

Definition runner_arch_label : string :=
  if String.eqb arch "x86_64" then "x64" else if String.eqb arch "aarch64" then "arm64"
  else if String.eqb arch "x86" then "x86" else if String.eqb arch "arm" then "arm" else arch.

Definition runner_system_labels (provider : string) : list string :=
  if String.eqb provider "tart" then ["self-hosted"; "macOS"; "ARM64"]
  else ["self-hosted"; "linux"; runner_arch_label].

(** One turn of the loop over the configured labels. *)
Definition add_label (labels : list string) (label : string) : list string :=
  if negb (is_runner_system_label label)
     && negb (existsb (λ existing, eq_ignore_ascii_case existing label) labels)
  then (labels ++ [label])%list else labels.

Definition effective_runner_labels (provider : string) (configured : list string) : list string :=
  fold_left add_label configured (runner_system_labels provider).

Definition runner_supports_system_label (provider label : string) : bool :=
  existsb (λ system, eq_ignore_ascii_case system label) (runner_system_labels provider).

Definition provider_supports_labels (provider : string) (requested configured : list string) : bool :=
  forallb (λ requested,
    if eq_ignore_ascii_case requested "self-hosted" then true
    else if is_runner_system_label requested then runner_supports_system_label provider requested
    else existsb (λ label, eq_ignore_ascii_case label requested) configured) requested.

Definition compatible_runner_provider (providers requested configured : list string) : option string :=
  fetch (λ provider, provider_supports_labels provider requested configured) providers.
End labels.

(** ** Targets and deficits *)
Definition scale_up_target (desired busy queued factor maximum : Z) : Z :=
  Z.min maximum (Z.max desired (i64_saturating_add busy (i64_saturating_mul queued factor))).

Record ProviderCapacity := { pc_provider : string; pc_queued : Z; pc_active : Z; pc_busy : Z }.
#[export] Instance ProviderCapacity_fields : Fields ProviderCapacity := λ c,
  {| pc_provider := pc_provider c; pc_queued := pc_queued c; pc_active := pc_active c;
     pc_busy := pc_busy c |}.

Record RepositoryCapacity := {
  rc_repository_id : Z; rc_installation_id : Z; rc_owner : string; rc_name : string;
  rc_queued : Z; rc_active : Z; rc_busy : Z; rc_prioritised : Z; rc_prioritised_since : option Z }.

#[export] Instance RepositoryCapacity_fields : Fields RepositoryCapacity := λ c,
  {| rc_repository_id := rc_repository_id c; rc_installation_id := rc_installation_id c;
     rc_owner := rc_owner c; rc_name := rc_name c; rc_queued := rc_queued c;
     rc_active := rc_active c; rc_busy := rc_busy c; rc_prioritised := rc_prioritised c;
     rc_prioritised_since := rc_prioritised_since c |}.

Record QueuedJob := {
  qj_repository_id : Z; qj_labels : list string; qj_queued_at : Z; qj_prioritised : bool }.

Definition unmet_priority (capacity : RepositoryCapacity) (factor : Z) : option Z :=
  if i64_saturating_mul (rc_prioritised capacity) factor
     >? i64_saturating_sub (rc_active capacity) (rc_busy capacity)
  then rc_prioritised_since capacity else None.

Definition provider_capacity_deficit (capacity : ProviderCapacity) (factor : Z) : Z :=
  i64_saturating_sub (i64_saturating_add (pc_busy capacity)
    (i64_saturating_mul (pc_queued capacity) factor)) (pc_active capacity).

Definition repository_capacity_deficit (capacity : RepositoryCapacity) (factor : Z) : Z :=
  i64_saturating_sub (i64_saturating_add (rc_busy capacity)
    (i64_saturating_mul (rc_queued capacity) factor)) (rc_active capacity).

(** ** The pool a queued job is assigned to *)
Definition PLATFORM_LABELS : list string :=
  ["linux"; "macos"; "windows"; "x64"; "arm64"; "arm"; "x86"].

(** The condition of the queries on one requested label. *)
Definition label_served (platform : list string) (assigned : list string) (requested : string) : bool :=
  let requested := lower requested in
  String.eqb requested "self-hosted"
  || (negb (existsb (String.eqb requested) PLATFORM_LABELS)
      && existsb (λ label, String.eqb (lower label) requested) assigned)
  || existsb (String.eqb requested) platform.

Section queries.
Context (arch : string) (p : Policy).

Definition serves_repository (q : PoolRow) (repo : RepositoryRow) : bool :=
  exists_row (λ m, String.eqb (rpr_pool_id m) (pool_id q) && (rpr_repository_id m =? repo_id repo))
    (runner_pool_repositories p)
  || eq_sql (pool_repository_id q) (Some (repo_id repo))
  || (String.eqb (pool_scope q) "organization"
      && eq_sql (pool_installation_id q) (Some (repo_installation_id repo))).

Definition fleet_profiles (q : PoolRow) : list ProfileRow :=
  select (λ x, String.eqb (p_pool_id x) (pool_id q) && p_enabled x && is_null (p_archived_at x))
    (pool_execution_profiles p).

(** The platforms of the built-in host, and those of the fleet. *)
Definition builtin_platform (provider : string) : list string :=
  if String.eqb (lower provider) "tart" then ["macos"; "arm64"]
  else ["linux"; lower (runner_arch_label arch)].

Definition platforms (q : PoolRow) : list (list string) :=
  (if exists_row (λ x, String.eqb (p_placement x) "machines") (fleet_profiles q) then []
   else builtin_platform <$> select (λ provider, String.eqb (lower provider) "docker"
                                                 || String.eqb (lower provider) "tart")
                               (pool_providers q))
  ++ ((λ x, [p_execution_os x; p_architecture x]) <$> fleet_profiles q).

(** What [repository_capacities] asks of a provider instead. *)
Definition provider_platform (provider : string) : list string :=
  if String.eqb (lower provider) "docker" then ["linux"; lower (runner_arch_label arch)]
  else if String.eqb (lower provider) "tart" then ["macos"; "arm64"] else [].

Definition candidate (offers : PoolRow → list (list string)) (labels : list string)
    (repo : RepositoryRow) (q : PoolRow) : bool :=
  pool_autoscaling_enabled q && negb (pool_paused q) && serves_repository q repo
  && existsb (λ platform, forallb (label_served platform (pool_labels q)) labels) (offers q).

(** [ORDER BY CASE WHEN scope='repository' THEN 0 ELSE 1 END, created_at, id]. *)
Definition candidate_le : PoolRow → PoolRow → bool :=
  lex_le (λ q, if String.eqb (pool_scope q) "repository" then 0 else 1)
    (lex_le pool_created_at (λ a b, String.leb (pool_id a) (pool_id b))).

Definition assigned_pool (offers : PoolRow → list (list string)) (labels : list string)
    (repo : RepositoryRow) : option PoolRow :=
  head (order_by candidate_le (select (candidate offers labels repo) (runner_pools p))).

(** The repository of a job that waits in a run that has not finished. *)
Definition waiting_in (wj : WorkflowJobRow) : option RepositoryRow :=
  if negb (String.eqb (wj_status wj) "queued") then None else
  match fetch (λ wr, wr_id wr =? wj_run_id wj) (workflow_runs p) with
  | Some wr => if String.eqb (wr_status wr) "completed" then None
               else fetch (λ repo, repo_id repo =? wr_repository_id wr) (repositories p)
  | None => None
  end.

Definition assigned_to (offers : PoolRow → list (list string)) (pool : string) (wj : WorkflowJobRow)
    : option (WorkflowJobRow * RepositoryRow) :=
  match waiting_in wj with
  | Some repo =>
      if eq_sql (Some pool) (pool_id <$> assigned_pool offers (wj_labels wj) repo)
      then Some (wj, repo) else None
  | None => None
  end.

Definition assigned_jobs (offers : PoolRow → list (list string)) (pool : string)
    : list (WorkflowJobRow * RepositoryRow) :=
  omap (assigned_to offers pool) (workflow_jobs p).

Definition assigned_queued_jobs (pool : string) : Z :=
  Z.of_nat (length (assigned_jobs platforms pool)).

(** [prioritised_job!]. *)
Definition prioritised_job (pool : string) (now : Z) (job : WorkflowJobRow * RepositoryRow) : bool :=
  exists_row (λ f, String.eqb (rpp_pool_id f) pool && (rpp_repository_id f =? repo_id job.2))
    (runner_pool_priority_repositories p)
  || (wj_created_at job.1 <=? now - 60000 *
        default 10 (rpw_wait_minutes <$> fetch (λ q, String.eqb (rpw_pool_id q) pool)
                      (runner_pool_priorities p))).

Definition queued_job_assignments (pool : string) (now : Z) : list QueuedJob :=
  (λ job, {| qj_repository_id := repo_id job.2; qj_labels := wj_labels job.1;
             qj_queued_at := wj_created_at job.1; qj_prioritised := prioritised_job pool now job |})
  <$> order_by (lex_le (λ job, wj_created_at job.1)
                  (λ a b : WorkflowJobRow * RepositoryRow, wj_id a.1 <=? wj_id b.1))
        (assigned_jobs platforms pool).

(** ** Counts per provider *)

(** [iter_mut().find(...)], then the change. *)
Fixpoint update_first {A} (q : A → bool) (f : A → A) (l : list A) : list A :=
  match l with
  | [] => []
  | a :: l => if q a then f a :: l else a :: update_first q f l
  end.

Definition ACTIVE_STATUSES : list string :=
  ["starting"; "online"; "idle"; "busy"; "paused"; "stopped"].

Definition active_runner (pool : string) (x : RunnerRow) : bool :=
  String.eqb (rn_pool_id x) pool && is_null (rn_deleted_at x)
  && existsb (String.eqb (rn_status x)) ACTIVE_STATUSES.

Definition no_capacity (provider : string) : ProviderCapacity :=
  {| pc_provider := provider; pc_queued := 0; pc_active := 0; pc_busy := 0 |}.

(** One job, and one row of [GROUP BY provider]. *)
Definition count_job (providers configured : list string) (capacities : list ProviderCapacity)
    (job : QueuedJob) : list ProviderCapacity :=
  match compatible_runner_provider arch providers (qj_labels job) configured with
  | Some provider => update_first (λ c, String.eqb (pc_provider c) provider)
                       (λ c, c <| pc_queued := i64_saturating_add (pc_queued c) 1 |>) capacities
  | None => capacities
  end.

Definition count_runners (rows : list RunnerRow) (capacities : list ProviderCapacity)
    (provider : string) : list ProviderCapacity :=
  update_first (λ c, String.eqb (pc_provider c) provider)
    (λ c, c <| pc_active := count_rows (λ x, String.eqb (rn_provider x) provider) rows |>
            <| pc_busy := count_rows (λ x, String.eqb (rn_provider x) provider && rn_busy x) rows |>)
    capacities.

Definition capacities_from (providers configured : list string) (jobs : list QueuedJob)
    (rows : list RunnerRow) : list ProviderCapacity :=
  let capacities := fold_left (count_job providers configured) jobs (no_capacity <$> providers) in
  fold_left (count_runners rows) (remove_dups (rn_provider <$> rows)) capacities.

Definition provider_capacities (pool : string) (providers configured : list string) (now : Z)
    : list ProviderCapacity :=
  capacities_from providers configured (queued_job_assignments pool now)
    (select (active_runner pool) (runners p)).

(** [Iterator::max_by]: of equal elements the last. *)
Definition max_by {A} (le : A → A → bool) (l : list A) : option A :=
  match l with
  | [] => None
  | a :: l => Some (fold_left (λ best x, if le best x then x else best) l a)
  end.

(** The comparison of [next_runner_provider], on capacities with their index. *)
Definition provider_le (factor : Z) : nat * ProviderCapacity → nat * ProviderCapacity → bool :=
  lex_le (λ c, provider_capacity_deficit c.2 factor)
    (lex_le (λ c, pc_queued c.2) (λ a b, Nat.leb b.1 a.1)).

(** The counts for one repository, or for all. *)
Definition scoped_capacities (pool : string) (repository_id : option Z)
    (providers configured : list string) (now : Z) : list ProviderCapacity :=
  let in_scope id := match repository_id with Some x => x =? id | None => true end in
  capacities_from providers configured
    (select (λ j, in_scope (qj_repository_id j)) (queued_job_assignments pool now))
    (select (λ x, active_runner pool x
               && match repository_id with
                  | Some id => eq_sql (rn_target_repository_id x) (Some id)
                  | None => true
                  end) (runners p)).

Definition next_runner_provider (pool : string) (repository_id : option Z)
    (providers configured : list string) (factor now : Z) : option string :=
  let capacities := scoped_capacities pool repository_id providers configured now in
  match max_by (provider_le factor)
          (select (λ c, provider_capacity_deficit c.2 factor >? 0)
             (zip (seq 0 (length capacities)) capacities)) with
  | Some c => Some (pc_provider c.2)
  | None => head providers
  end.

(** ** Counts per repository *)
Definition min_over (l : list Z) : option Z :=
  match l with [] => None | a :: l => Some (fold_left Z.min l a) end.

Definition repository_capacity (pool : string) (now : Z) (repo : RepositoryRow) : RepositoryCapacity :=
  let jobs := select (λ job, repo_id job.2 =? repo_id repo)
                (assigned_jobs (λ q, provider_platform <$> pool_providers q) pool) in
  let urgent := select (prioritised_job pool now) jobs in
  let mine x := active_runner pool x && eq_sql (rn_target_repository_id x) (Some (repo_id repo)) in
  {| rc_repository_id := repo_id repo; rc_installation_id := repo_installation_id repo;
     rc_owner := repo_owner repo; rc_name := repo_name repo;
     rc_queued := Z.of_nat (length jobs); rc_active := count_rows mine (runners p);
     rc_busy := count_rows (λ x, mine x && rn_busy x) (runners p);
     rc_prioritised := Z.of_nat (length urgent);
     rc_prioritised_since := min_over ((λ job, wj_created_at job.1) <$> urgent) |}.

(** The repositories of the pool that are not archived, as they joined it. *)
Definition member_repositories (pool : string) : list RepositoryRow :=
  let member m := match fetch (λ repo, repo_id repo =? rpr_repository_id m) (repositories p) with
                  | Some repo => if repo_archived repo then None else Some (m, repo)
                  | None => None
                  end in
  snd <$> order_by (lex_le (λ x, rpr_created_at x.1)
                      (λ a b : PoolRepositoryRow * RepositoryRow, repo_id a.2 <=? repo_id b.2))
            (omap member (select (λ m, String.eqb (rpr_pool_id m) pool) (runner_pool_repositories p))).

Definition repository_capacities (pool : string) (now : Z) : list RepositoryCapacity :=
  repository_capacity pool now <$> member_repositories pool.

(** The comparison of [next_runner_repository]. *)
Definition urgency_le (factor : Z) (le : RepositoryCapacity → RepositoryCapacity → bool)
    : RepositoryCapacity → RepositoryCapacity → bool :=
  lex_le (λ c, match unmet_priority c factor with Some _ => 0 | None => 1 end)
    (lex_le (λ c, default 0 (unmet_priority c factor)) le).

Definition repository_le (factor : Z) : RepositoryCapacity → RepositoryCapacity → bool :=
  urgency_le factor (lex_le (λ c, - repository_capacity_deficit c factor)
    (lex_le (λ c, - rc_queued c) (lex_le rc_active (λ a b, rc_repository_id a <=? rc_repository_id b)))).

Definition next_runner_repository (pool : string) (factor now : Z) : option RepositoryCapacity :=
  head (order_by (repository_le factor) (repository_capacities pool now)).
End queries.
