(* ===== verification/AutoscalingSpec.v ===== *)
(** * What the autoscaler counts and chooses

    The queries' label rule is the one the code applies, every waiting job
    counts for exactly one pool, and the next runner goes where it is needed
    most. *)
From S2P Require Import Prelude Base64 Ids Domain Protocol Outcomes Capabilities Crypto Store Autoscaling.
#[local] Open Scope string_scope.
#[local] Open Scope Z_scope.

(** ** Labels *)
Lemma system_label_lower label :
  is_runner_system_label label = existsb (String.eqb (lower label)) SYSTEM_LABELS.
Proof.
  unfold is_runner_system_label, eq_ignore_ascii_case. simpl.
  by rewrite !(String.eqb_sym (lower label)).
Qed.

Lemma supports_lower arch provider label :
  provider = "docker" ∨ provider = "tart" →
  runner_supports_system_label arch provider label
  = existsb (String.eqb (lower label)) ("self-hosted" :: builtin_platform arch provider).
Proof.
  unfold runner_supports_system_label, eq_ignore_ascii_case.
  intros [-> | ->]; simpl; by rewrite !(String.eqb_sym (lower label)).
Qed.

Lemma label_agrees arch provider configured requested :
  provider = "docker" ∨ provider = "tart" → is_runner_system_label (runner_arch_label arch) = true →
  (if eq_ignore_ascii_case requested "self-hosted" then true
   else if is_runner_system_label requested then runner_supports_system_label arch provider requested
   else existsb (λ label, eq_ignore_ascii_case label requested) configured)
  = label_served (builtin_platform arch provider) configured requested.
Proof.
  intros Hp Ha. unfold label_served, eq_ignore_ascii_case. rewrite supports_lower by done.
  rewrite !system_label_lower in *. change (lower "self-hosted") with "self-hosted".
  destruct (String.eqb_spec (lower requested) "self-hosted") as [E|Hs]; [done|].
  assert (existsb (String.eqb (lower requested)) SYSTEM_LABELS
          = existsb (String.eqb (lower requested)) PLATFORM_LABELS) as ->.
  { simpl. by rewrite (proj2 (String.eqb_neq _ _) Hs). }
  destruct (existsb _ PLATFORM_LABELS) eqn:Er; simpl; [by rewrite (proj2 (String.eqb_neq _ _) Hs)|].
  assert (existsb (String.eqb (lower requested)) (builtin_platform arch provider) = false) as ->;
    [|by rewrite orb_false_r].
  apply not_true_is_false. intros (x & Hx & <-%String.eqb_eq)%existsb_exists.
  assert (existsb (String.eqb (lower requested)) SYSTEM_LABELS = true) as Hsys.
  { unfold builtin_platform in Hx. destruct Hp as [-> | ->]; simpl in Hx.
    - destruct Hx as [<-|[<-|[]]]; [done|exact Ha].
    - by destruct Hx as [<-|[<-|[]]]. }
  simpl in Hsys, Er. rewrite (proj2 (String.eqb_neq _ _) Hs) in Hsys. simpl in Hsys. congruence.
Qed.

(** For the providers of the built-in host, the condition the queries put
    on the labels of a job is [provider_supports_labels], letter case ignored,
    on every architecture that is itself a runner label. *)
Theorem labels_agree arch provider requested configured :
  provider = "docker" ∨ provider = "tart" → is_runner_system_label (runner_arch_label arch) = true →
  provider_supports_labels arch provider requested configured
  = forallb (label_served (builtin_platform arch provider) configured) requested.
Proof.
  intros Hp Ha. unfold provider_supports_labels. induction requested as [|r l IH]; [done|].
  cbn [forallb]. by rewrite IH, label_agrees.
Qed.

(** ** Every waiting job counts for one pool *)
Section assignment.
Context (arch : string) (p : Policy).
Implicit Types (offers : PoolRow → list (list string)) (wj : WorkflowJobRow).

Lemma candidate_le_total a b : candidate_le a b = true ∨ candidate_le b a = true.
Proof. apply lex_le_total. apply lex_le_total. intros. apply String.leb_total. Qed.

Lemma candidate_le_trans a b c :
  candidate_le a b = true → candidate_le b c = true → candidate_le a c = true.
Proof. apply lex_le_trans. apply lex_le_trans. intros ???. apply string_leb_trans. Qed.

Definition has_pool offers wj : bool :=
  match waiting_in p wj with
  | Some repo => exists_row (candidate p offers (wj_labels wj) repo) (runner_pools p)
  | None => false
  end.

(** The pool of a job is the first candidate. *)
Lemma assigned_pool_spec offers labels repo q :
  assigned_pool p offers labels repo = Some q →
  q ∈ runner_pools p ∧ candidate p offers labels repo q = true
  ∧ ∀ q', q' ∈ runner_pools p → candidate p offers labels repo q' = true → candidate_le q q' = true.
Proof.
  unfold assigned_pool. intros E. destruct (order_by _ _) as [|x l] eqn:Eo; [done|]. injection E as ->.
  assert (q ∈ select (candidate p offers labels repo) (runner_pools p)) as [Hq Hc]%elem_of_select.
  { eapply elem_of_order_by. rewrite Eo. left. }
  split; [done|]. split; [done|]. intros q' Hq' Hc'.
  eapply order_by_head; [exact candidate_le_total|exact candidate_le_trans|exact Eo|by apply elem_of_select].
Qed.

Lemma assigned_pool_exists offers labels repo :
  is_Some (assigned_pool p offers labels repo)
  ↔ exists_row (candidate p offers labels repo) (runner_pools p) = true.
Proof.
  unfold assigned_pool. rewrite exists_row_true. split.
  - intros [q (Hq & Hc & _)%assigned_pool_spec]. eauto.
  - intros (q & Hq & Hc). destruct (order_by _ _) as [|x l] eqn:E; [|by eexists].
    assert (q ∈ order_by candidate_le (select (candidate p offers labels repo) (runner_pools p))) as Hin
      by by apply elem_of_order_by, elem_of_select.
    rewrite E in Hin. by apply elem_of_nil in Hin.
Qed.

Lemma length_omap_count {A B} (f : A → option B) l :
  Z.of_nat (length (omap f l)) = count_rows (λ a, not_null (f a)) l.
Proof.
  induction l as [|a l IH]; [done|]. rewrite count_rows_cons, <-IH.
  change (omap f (a :: l)) with (match f a with Some b => b :: omap f l | None => omap f l end).
  destruct (f a); cbn [not_null is_null length negb]; lia.
Qed.

Lemma assigned_to_count offers wj :
  NoDup (pool_id <$> runner_pools p) →
  count_rows (λ q, not_null (assigned_to p offers (pool_id q) wj)) (runner_pools p)
  = if has_pool offers wj then 1 else 0.
Proof.
  intros Hnd. unfold assigned_to, has_pool. destruct (waiting_in p wj) as [repo|]; [|by apply count_rows_none].
  destruct (assigned_pool p offers (wj_labels wj) repo) as [q|] eqn:E.
  - rewrite (proj1 (assigned_pool_exists offers (wj_labels wj) repo)) by by rewrite E.
    pose proof (assigned_pool_spec _ _ _ _ E) as (Hq & _).
    apply (count_one pool_id _ _ q Hnd Hq).
    + simpl. by rewrite bool_decide_eq_true_2.
    + intros b _ Hb. destruct (eq_sql _ _) eqn:Es; [|done]. by apply eq_sql_true in Es as (? & [= <-] & [= ->]).
  - assert (exists_row (candidate p offers (wj_labels wj) repo) (runner_pools p) = false) as ->.
    { apply not_true_is_false. rewrite <-assigned_pool_exists, E. by intros []. }
    by apply count_rows_none.
Qed.

(** Every job that waits in an unfinished run counts for exactly one pool
    if some pool can run it, and for none otherwise: the queues of the pools
    add up to the jobs that some pool can run. *)
Theorem queued_jobs_partitioned :
  NoDup (pool_id <$> runner_pools p) →
  sum_rows (λ q, assigned_queued_jobs arch p (pool_id q)) (runner_pools p)
  = count_rows (has_pool (platforms arch p)) (workflow_jobs p).
Proof.
  intros Hnd. unfold assigned_queued_jobs, assigned_jobs.
  rewrite (sum_rows_ext _ (λ q, count_rows (λ wj, not_null (assigned_to p (platforms arch p) (pool_id q) wj))
    (workflow_jobs p))) by (intros; apply length_omap_count).
  rewrite count_rows_swap, count_rows_sum. apply sum_rows_ext. intros wj _. by apply assigned_to_count.
Qed.
End assignment.

(** ** The next repository *)
Lemma key_le {A} (key : A → Z) (le : A → A → bool) a b :
  lex_le key le a b = true → key a ≤ key b ∧ (key a = key b → le a b = true).
Proof. unfold lex_le. destruct (Z.ltb_spec (key a) (key b)), (Z.ltb_spec (key b) (key a)); intros; try done; lia || (split; [lia|done]). Qed.

Lemma repository_le_total factor a b : repository_le factor a b = true ∨ repository_le factor b a = true.
Proof. do 5 (apply lex_le_total; clear a b; intros a b). rewrite !Z.leb_le. lia. Qed.

Lemma repository_le_trans factor a b c :
  repository_le factor a b = true → repository_le factor b c = true → repository_le factor a c = true.
Proof. do 5 (apply lex_le_trans; clear a b c; intros a b c). rewrite !Z.leb_le. lia. Qed.

(** The repository the next runner goes to is one of the pool's; if any
    has more prioritised jobs than idle runners, it is one of them whose
    oldest such job has waited longest; if none has, it is one furthest
    behind its queue. *)
Theorem next_repository_most_urgent arch p pool factor now c :
  next_runner_repository arch p pool factor now = Some c →
  c ∈ repository_capacities arch p pool now
  ∧ ∀ c', c' ∈ repository_capacities arch p pool now →
      (∀ since', unmet_priority c' factor = Some since' →
        ∃ since, unmet_priority c factor = Some since ∧ since ≤ since')
      ∧ (unmet_priority c factor = None →
        repository_capacity_deficit c' factor ≤ repository_capacity_deficit c factor).
Proof.
  unfold next_runner_repository. intros E. split; [by eapply order_by_head_elem|].
  intros c' Hc'. destruct (order_by _ _) as [|x l] eqn:Eo; [done|]. injection E as ->.
  pose proof (order_by_head _ (repository_le_total factor) (repository_le_trans factor) _ _ _ Eo c' Hc') as Hle.
  unfold repository_le, urgency_le in Hle.
  destruct (unmet_priority c factor) as [since|] eqn:Hs, (unmet_priority c' factor) as [since'|] eqn:Hs';
    apply key_le in Hle as [H1 Hle]; rewrite Hs, Hs' in H1, Hle; try lia.
  - specialize (Hle eq_refl). apply key_le in Hle as [H2 _]. rewrite Hs, Hs' in H2.
    split; [|done]. intros s [= <-]. by exists since.
  - done.
  - specialize (Hle eq_refl). apply key_le in Hle as [H2 Hle]. rewrite Hs, Hs' in Hle.
    specialize (Hle eq_refl). apply key_le in Hle as [H3 _]. split; [done|]. intros _. lia.
Qed.

(** ** The next provider *)
Lemma max_by_spec {A} (le : A → A → bool) l a :
  (∀ x y, le x y = true ∨ le y x = true) → (∀ x y z, le x y = true → le y z = true → le x z = true) →
  max_by le l = Some a → a ∈ l ∧ ∀ b, b ∈ l → le b a = true.
Proof.
  intros Ht Htr. destruct l as [|x l]; [done|]. cbn [max_by]. intros [= <-].
  revert x. induction l as [|y l IH]; intros x; simpl.
  { split; [left|]. intros b ->%list_elem_of_singleton. by destruct (Ht x x). }
  destruct (le x y) eqn:E.
  - destruct (IH y) as [Hin Hall]. split; [by right|]. intros b [->|Hb]%elem_of_cons; [|by apply Hall].
    apply (Htr _ y); [done|]. apply Hall. left.
  - destruct (IH x) as [Hin Hall]. split; [by apply elem_of_cons in Hin as [Hin|Hin]; [rewrite Hin; left|right; right]|].
    assert (le y x = true) as Hyx by (destruct (Ht x y); congruence).
    intros b [Hb|[Hb|Hb]%elem_of_cons]%elem_of_cons; [subst; apply Hall; left| |apply Hall; by right].
    subst. apply (Htr _ x); [done|]. apply Hall. left.
Qed.

Lemma update_first_fmap {A B} (g : A → B) q f l :
  (∀ a, g (f a) = g a) → g <$> update_first q f l = g <$> l.
Proof. intros Hg. induction l as [|a l IH]; [done|]. cbn [update_first]. destruct (q a); csimpl; congruence. Qed.

Lemma capacities_from_providers arch providers configured jobs rows :
  pc_provider <$> capacities_from arch providers configured jobs rows = providers.
Proof.
  unfold capacities_from. apply fold_left_ind.
  { intros s a _ <-. by apply update_first_fmap. }
  apply fold_left_ind; [|by rewrite <-list_fmap_compose, list_fmap_id].
  intros s a _ <-. unfold count_job. case_match; [|done]. by apply update_first_fmap.
Qed.

Lemma provider_le_total factor a b : provider_le factor a b = true ∨ provider_le factor b a = true.
Proof. do 2 (apply lex_le_total; clear a b; intros a b). rewrite !Nat.leb_le. lia. Qed.

Lemma provider_le_trans factor a b c :
  provider_le factor a b = true → provider_le factor b c = true → provider_le factor a c = true.
Proof. do 2 (apply lex_le_trans; clear a b c; intros a b c). rewrite !Nat.leb_le. lia. Qed.

Lemma enumerate_in {A} (l : list A) a : a ∈ l → ∃ i, (i, a) ∈ zip (seq 0 (length l)) l.
Proof.
  intros [i Hi]%list_elem_of_lookup. exists i. apply list_elem_of_lookup. exists i.
  apply lookup_zip_with_Some. exists i, a. split; [done|]. split; [|done].
  apply lookup_seq. split; [done|]. by apply lookup_lt_Some in Hi.
Qed.

(** The provider of the next runner is one of the pool's, and if any
    provider is behind the jobs it would run, it is one furthest behind. *)
Theorem next_provider_furthest_behind arch p pool repository providers configured factor now provider :
  next_runner_provider arch p pool repository providers configured factor now = Some provider →
  let capacities := scoped_capacities arch p pool repository providers configured now in
  provider ∈ providers
  ∧ ∀ c, c ∈ capacities → 0 < provider_capacity_deficit c factor →
      ∃ c', c' ∈ capacities ∧ pc_provider c' = provider
        ∧ provider_capacity_deficit c factor ≤ provider_capacity_deficit c' factor.
Proof.
  intros E capacities. unfold next_runner_provider in E. fold capacities in E.
  assert (pc_provider <$> capacities = providers) as Hp by apply capacities_from_providers.
  destruct (max_by _ _) as [[i c']|] eqn:Em.
  - injection E as <-. apply max_by_spec in Em as [[Hin _]%elem_of_select Hmax];
      [|apply provider_le_total|apply provider_le_trans].
    apply elem_of_zip_r in Hin. split; [rewrite <-Hp; by apply list_elem_of_fmap_2|].
    intros c Hc Hd. exists c'. split; [done|]. split; [done|].
    destruct (enumerate_in _ _ Hc) as [j Hj].
    assert (provider_le factor (j, c) (i, c') = true) as [Hle _]%key_le; [|exact Hle].
    apply Hmax, elem_of_select. split; [done|simpl; lia].
  - split; [destruct providers; [done|]; injection E as ->; left|].
    intros c Hc Hd. exfalso. destruct (select _ _) as [|x l] eqn:Es; [|done].
    destruct (enumerate_in _ _ Hc) as [j Hj].
    assert ((j, c) ∈ ([] : list (nat * ProviderCapacity))) as []%elem_of_nil. rewrite <-Es.
    apply elem_of_select. split; [done|simpl; lia].
Qed.

(** ** Samples *)
Module SampleScaling.
(** A pool that runs only on Windows machines of the fleet and, created
    later, a pool on the built-in Linux host; both serve repository 12, where a
    Linux job waits, and the second also serves repository 10. *)
Definition windows_only : ProfileRow :=
  {| p_id := "windows"; p_pool_id := "machines"; p_revision := 1; p_enabled := true;
     p_runtime_kind := "native_process"; p_execution_os := "windows"; p_architecture := "x64";
     p_mode := "ephemeral"; p_requires_interactive := false; p_requires_docker_socket := false;
     p_all_authorized_hosts := true; p_image := "runner"; p_labels := Some []; p_config := None;
     p_cpu_millis := 1000; p_memory_mib := 1024; p_disk_bytes := 0; p_placement := "machines";
     p_archived_at := None; p_name := "windows-x64-native_process"; p_created_at := 1 |}.

Definition pool (name : string) (created_at : Z) : PoolRow :=
  {| pool_id := name; pool_installation_id := Some 11; pool_repository_id := None;
     pool_scope := "repository"; pool_paused := false; pool_state := "active"; pool_max_count := 5;
     pool_autoscaling_enabled := true; pool_providers := ["docker"]; pool_labels := [];
     pool_created_at := created_at; pool_provider := "docker"; pool_image := "runner:latest";
     pool_docker_image := ""; pool_desired_count := 0; pool_min_count := 0;
     pool_queue_scale_factor := 1; pool_idle_timeout_minutes := 10; pool_name := name; pool_mode := "ephemeral";
     pool_ephemeral := true; pool_macos_runtime := "vm"; pool_tart_image := "";
     pool_runner_group_id := 1; pool_configuration_version := 1; pool_provision_failure_count := 0;
     pool_provision_retry_at := None; pool_provision_circuit_open := false |}.

Definition repository (id : Z) : RepositoryRow :=
  {| repo_id := id; repo_installation_id := 11; repo_owner := "acme"; repo_name := "app";
     repo_archived := false |}.

Definition policy : Policy :=
  SampleFleet.policy <| repositories := [repository 10; repository 12] |>
    <| runner_pools := [pool "machines" 1; pool "host" 2] |>
    <| runner_pool_repositories :=
         [{| rpr_pool_id := "machines"; rpr_repository_id := 12; rpr_created_at := 1 |};
          {| rpr_pool_id := "host"; rpr_repository_id := 10; rpr_created_at := 2 |};
          {| rpr_pool_id := "host"; rpr_repository_id := 12; rpr_created_at := 2 |}] |>
    <| pool_execution_profiles := [windows_only] |>
    <| workflow_runs := [{| wr_id := 20; wr_repository_id := 12; wr_status := "queued" |}] |>
    <| workflow_jobs := [{| wj_id := 30; wj_run_id := 20; wj_status := "queued";
                            wj_labels := ["self-hosted"; "Linux"]; wj_created_at := 1000 |}] |>.

(** The two copies of the assignment rule disagree on a pool that runs on
    machines only.  The waiting job counts for the pool of the built-in host,
    which starts a runner for it, but the count per repository gives it to
    the other pool: the runner is registered to repository 10, where nothing
    waits, and not to repository 12. *)
Theorem runner_for_idle_repository :
  assigned_queued_jobs "x86_64" policy "host" = 1
  ∧ (qj_repository_id <$> queued_job_assignments "x86_64" policy "host" 2000) = [12]
  ∧ ∃ c, next_runner_repository "x86_64" policy "host" 1 2000 = Some c
    ∧ rc_repository_id c = 10 ∧ rc_queued c = 0.
Proof.
  split; [vm_compute; reflexivity|]. split; [vm_compute; reflexivity|].
  eexists. split; [vm_compute; reflexivity|]. split; reflexivity.
Qed.

Lemma labels_agree_witness :
  provider_supports_labels "x86_64" "docker" ["self-hosted"; "Linux"; "X64"; "gpu"] ["GPU"]
  = forallb (label_served (builtin_platform "x86_64" "docker") ["GPU"])
      ["self-hosted"; "Linux"; "X64"; "gpu"].
Proof. apply labels_agree; [left; reflexivity|reflexivity]. Defined.

Lemma queued_jobs_partitioned_witness :
  sum_rows (λ q, assigned_queued_jobs "x86_64" policy (pool_id q)) (runner_pools policy) = 1.
Proof.
  rewrite queued_jobs_partitioned; [reflexivity|]. repeat constructor; set_solver.
Defined.

Lemma next_repository_most_urgent_witness :
  ∃ c, next_runner_repository "x86_64" policy "machines" 1 2000 = Some c
    ∧ c ∈ repository_capacities "x86_64" policy "machines" 2000.
Proof.
  eexists. split; [vm_compute; reflexivity|].
  refine (proj1 (next_repository_most_urgent "x86_64" policy "machines" 1 2000 _ _)).
  vm_compute. reflexivity.
Defined.

Lemma next_provider_furthest_behind_witness :
  next_runner_provider "x86_64" policy "host" None ["tart"; "docker"] [] 1 2000 = Some "docker"
  ∧ "docker" ∈ ["tart"; "docker"].
Proof.
  split; [vm_compute; reflexivity|].
  refine (proj1 (next_provider_furthest_behind "x86_64" policy "host" None ["tart"; "docker"] [] 1 2000
    "docker" _)).
  vm_compute. reflexivity.
Defined.
End SampleScaling.
