(* ===== verification/Targets.v ===== *)
(** * CI targets and the fleet settings of a pool
    ([crates/gridops-core/src/fleet/targets.rs], down to [external] and the
    helpers after it).

    [ensure_target], [sync_github_targets] and [pool_targets] run statement by
    statement outside a transaction: an error leaves what was written before
    it.  They are actions on the database, [Action].  The saving of settings
    and the deletion of a pool are transactions.  Identifiers drawn by
    [Uuid::new_v4] are an argument, indexed by the draw. *)
From S2P Require Import Prelude Base64 Ids Domain Protocol Outcomes Capabilities Inventory Crypto Store.
From S2P Require Import Service Admission.
#[local] Open Scope string_scope.
#[local] Open Scope Z_scope.

(** ** Statements outside a transaction *)
Definition Action (A : Type) : Type := Policy → Result A FleetError * Policy.

Definition succeed {A} (a : A) : Action A := λ p, (Ok a, p).
Definition of_result {A} (r : Result A FleetError) : Action A := λ p, (r, p).
Definition query {A} (q : Policy → Result A FleetError) : Action A := λ p, (q p, p).

Definition and_then {A B} (c : Action A) (k : A → Action B) : Action B := λ p,
  match c p with
  | (Ok a, p) => k a p
  | (Err e, p) => (Err e, p)
  end.

Notation "'let*' x ':=' c 'in' k" := (and_then c (λ x, k))
  (at level 200, x pattern, c at level 100, k at level 200, right associativity) : fleet_scope.

(** [for a in l { ... }] with the index of the draw. *)
Fixpoint each {A B} (f : nat → A → Action B) (n : nat) (l : list A) : Action (list B) :=
  match l with
  | [] => succeed []
  | a :: l => let* b := f n a in let* bs := each f (S n) l in succeed (b :: bs)
  end.

(** ** Targets *)
Definition external (value : Z) : Result Z FleetError :=
  let? raw := ok_or (InvalidRequest "external ID") (u64_try_from value) in
  map_err (λ _, InvalidRequest "external ID") (ExternalId_try_from raw).

Section targets.
Context `{UuidText}.

(** The row of a target, with the foreign keys of the table checked. *)
Definition target_row (id : string) (target : CiTarget) : Result TargetRow FleetError :=
  match target with
  | GithubRepository installation_id repository_id =>
      Ok {| t_id := id; t_kind := "github_repository"; t_installation_id := Some installation_id;
            t_repository_id := Some repository_id; t_organization_id := None;
            t_bitbucket_connection_id := None; t_workspace_uuid := None; t_repository_uuid := None;
            t_canonical_key := canonical_key target |}
  | GithubOrganization installation_id organization_id =>
      Ok {| t_id := id; t_kind := "github_organization"; t_installation_id := Some installation_id;
            t_repository_id := None; t_organization_id := Some organization_id;
            t_bitbucket_connection_id := None; t_workspace_uuid := None; t_repository_uuid := None;
            t_canonical_key := canonical_key target |}
  | _ => Err (InvalidRequest "only GitHub targets are synced")
  end.

Definition references_exist (p : Policy) (t : TargetRow) : bool :=
  match t_installation_id t with
  | Some id => exists_row (λ i, ins_id i =? id) (installations p)
  | None => true
  end
  && match t_repository_id t with
     | Some id => exists_row (λ r, repo_id r =? id) (repositories p)
     | None => true
     end.

Definition same_key (key : string) (t : TargetRow) : bool := String.eqb (t_canonical_key t) key.

(** [INSERT ... ON CONFLICT(canonical_key) DO NOTHING]. *)
Definition insert_target (t : TargetRow) : Action unit := λ p,
  if exists_row (same_key (t_canonical_key t)) (fleet_ci_targets p) then (Ok tt, p)
  else if exists_row (λ x, String.eqb (t_id x) (t_id t)) (fleet_ci_targets p)
          || negb (references_exist p t)
  then (Err Database, p)
  else (Ok tt, p <| fleet_ci_targets ::= (λ l, l ++ [t])%list |>).

Definition ensure_target (drawn : Uuid) (target : CiTarget) : Action string :=
  let* row := of_result (target_row (to_string drawn) target) in
  let* _ := insert_target row in
  query (λ p, ok_or Database
    (t_id <$> fetch (same_key (canonical_key target)) (fleet_ci_targets p))).

Definition repository_target (draws : nat → Uuid) (n : nat) (r : RepositoryRow) : Action string :=
  let* installation := of_result (external (repo_installation_id r)) in
  let* repository := of_result (external (repo_id r)) in
  ensure_target (draws n) (GithubRepository installation repository).

Definition organization_target (draws : nat → Uuid) (n : nat) (i : InstallationRow) : Action string :=
  let* installation := of_result (external (ins_id i)) in
  let* organization := of_result (external (ins_account_id i)) in
  ensure_target (draws n) (GithubOrganization installation organization).

Definition sync_github_targets (draws : nat → Uuid) : Action unit := λ p,
  (let* repos := each (repository_target draws) 0 (repositories p) in
   let* orgs := each (organization_target draws) (length repos)
                  (select (λ i, String.eqb (ins_account_type i) "Organization") (installations p)) in
   succeed tt) p.

(** The targets a pool serves: its repositories, or its organization. *)
Definition member_repos (p : Policy) (pool : string) : list RepositoryRow :=
  omap (λ m, fetch (λ r, repo_id r =? rpr_repository_id m) (repositories p))
    (select (λ m, String.eqb (rpr_pool_id m) pool) (runner_pool_repositories p)).

Definition pool_targets (draws : nat → Uuid) (pool : string) : Action (list string) := λ p,
  match fetch (λ q, String.eqb (pool_id q) pool) (runner_pools p) with
  | None => (Err NotFound, p)
  | Some q =>
      if String.eqb (pool_scope q) "repository"
      then each (repository_target draws) 0 (member_repos p pool) p
      else match pool_installation_id q with
           | None => (Err Database, p) (* the column is NOT NULL *)
           | Some installation =>
               match fetch (λ i, ins_id i =? installation) (installations p) with
               | None => (Ok [], p)
               | Some i =>
                   (let* id := of_result (external installation) in
                    let* account := of_result (external (ins_account_id i)) in
                    let* target := ensure_target (draws 0%nat) (GithubOrganization id account) in
                    succeed [target]) p
               end
           end
  end.
End targets.

(** ** Fleet settings *)
Inductive Placement := Machines | MachinesFirst | HostFirst.

Definition Placement_name (x : Placement) : string :=
  match x with
  | Machines => "machines" | MachinesFirst => "machines_first" | HostFirst => "host_first"
  end.

(** [name] and [serde_value] of a platform are [runtime_name], [os_name] and
    [arch_name]. *)
Definition mode_name (m : RunnerMode) : string :=
  match m with Ephemeral => "ephemeral" | Persistent => "persistent" end.

Record ProfileInput := {
  in_enabled : bool; in_runtime_kind : RuntimeKind; in_execution_os : ExecutionOs;
  in_architecture : Architecture; in_mode : RunnerMode; in_image : string;
  in_labels : list string; in_cpu_millis : Z; in_memory_mib : Z; in_disk_bytes : Z;
  in_requires_docker_socket : bool; in_placement : Placement }.

Record Profile := {
  pf_id : string; pf_revision : Z; pf_input : ProfileInput; pf_target_ids : list string }.

Record PlatformInput := {
  pi_id : option string; pi_runtime_kind : RuntimeKind; pi_execution_os : ExecutionOs;
  pi_architecture : Architecture; pi_image : string; pi_requires_docker_socket : bool }.
#[export] Instance PlatformInput_fields : Fields PlatformInput := λ x,
  {| pi_id := pi_id x; pi_runtime_kind := pi_runtime_kind x; pi_execution_os := pi_execution_os x;
     pi_architecture := pi_architecture x; pi_image := pi_image x;
     pi_requires_docker_socket := pi_requires_docker_socket x |}.

Record FleetSettingsInput := {
  fi_enabled : bool; fi_placement : Placement; fi_mode : RunnerMode; fi_cpu_millis : Z;
  fi_memory_mib : Z; fi_disk_bytes : Z; fi_platforms : list PlatformInput }.

Record Platform := {
  plat_id : string; plat_revision : Z; plat_runtime_kind : RuntimeKind;
  plat_execution_os : ExecutionOs; plat_architecture : Architecture; plat_image : string;
  plat_requires_docker_socket : bool }.

Record FleetSettings := {
  fs_enabled : bool; fs_placement : Placement; fs_mode : RunnerMode; fs_cpu_millis : Z;
  fs_memory_mib : Z; fs_disk_bytes : Z; fs_platforms : list Platform; fs_target_ids : list string }.

(** The stored text read back by [serde_json::from_value]. *)
Definition parse_placement (x : string) : Result Placement FleetError :=
  if String.eqb x "machines" then Ok Machines
  else if String.eqb x "machines_first" then Ok MachinesFirst
  else if String.eqb x "host_first" then Ok HostFirst else Err (Invariant "placement").

Definition stored {A E} (r : Result A E) : Result A FleetError := invariant_err "stored profile" r.

Definition profile_input (x : ProfileRow) : Result ProfileInput FleetError :=
  let? kind := stored (parse_runtime_kind (p_runtime_kind x)) in
  let? os := stored (parse_execution_os (p_execution_os x)) in
  let? architecture := stored (parse_architecture (p_architecture x)) in
  let? mode := stored (parse_mode (p_mode x)) in
  let? cpu := ok_or (Invariant "stored profile") (u32_try_from (p_cpu_millis x)) in
  let? memory := ok_or (Invariant "stored profile") (u32_try_from (p_memory_mib x)) in
  let? disk := ok_or (Invariant "stored profile") (u64_try_from (p_disk_bytes x)) in
  let? placement := stored (parse_placement (p_placement x)) in
  Ok {| in_enabled := p_enabled x; in_runtime_kind := kind; in_execution_os := os;
        in_architecture := architecture; in_mode := mode; in_image := p_image x;
        in_labels := default [] (p_labels x); in_cpu_millis := cpu; in_memory_mib := memory;
        in_disk_bytes := disk; in_requires_docker_socket := p_requires_docker_socket x;
        in_placement := placement |}.

Definition linked_targets (p : Policy) (profile : string) : list string :=
  pct_target_id <$> select (λ x, String.eqb (pct_profile_id x) profile && pct_enabled x
                                 && is_null (pct_revoked_at x)) (profile_ci_targets p).

Definition read_profile (p : Policy) (x : ProfileRow) : Result Profile FleetError :=
  let? input := profile_input x in
  Ok {| pf_id := p_id x; pf_revision := p_revision x; pf_input := input;
        pf_target_ids := linked_targets p (p_id x) |}.

Definition current_of (pool : string) (x : ProfileRow) : bool :=
  String.eqb (p_pool_id x) pool && is_null (p_archived_at x).

Definition pool_profiles (p : Policy) (pool : string) : Result (list Profile) FleetError :=
  traverse (read_profile p)
    (order_by (λ a b, p_created_at a <=? p_created_at b)
       (select (current_of pool) (pool_execution_profiles p))).

Definition platform_of (x : Profile) : Platform :=
  {| plat_id := pf_id x; plat_revision := pf_revision x;
     plat_runtime_kind := in_runtime_kind (pf_input x);
     plat_execution_os := in_execution_os (pf_input x);
     plat_architecture := in_architecture (pf_input x); plat_image := in_image (pf_input x);
     plat_requires_docker_socket := in_requires_docker_socket (pf_input x) |}.

Definition pool_fleet (p : Policy) (pool : string) : Result (option FleetSettings) FleetError :=
  let? profiles := pool_profiles p pool in
  match profiles with
  | [] => Ok None
  | first :: _ =>
      let shared := pf_input first in
      Ok (Some {| fs_enabled := existsb (λ x, in_enabled (pf_input x)) profiles;
                  fs_placement := in_placement shared; fs_mode := in_mode shared;
                  fs_cpu_millis := in_cpu_millis shared; fs_memory_mib := in_memory_mib shared;
                  fs_disk_bytes := in_disk_bytes shared;
                  fs_platforms := platform_of <$> profiles;
                  fs_target_ids := order_by String.leb (pf_target_ids first) |})
  end.

(** ** Saving *)
Definition STOCK_DOCKER_IMAGE : string := "ghcr.io/actions/actions-runner:latest".

Definition pool_docker_image_of (p : Policy) (pool : string) : string :=
  let image := match fetch (λ q, String.eqb (pool_id q) pool) (runner_pools p) with
               | Some q => if is_empty (pool_docker_image q) && String.eqb (pool_provider q) "docker"
                           then pool_image q else pool_docker_image q
               | None => ""
               end in
  if is_empty (trim image) then STOCK_DOCKER_IMAGE else trim image.

Definition unset_image (x : PlatformInput) : bool :=
  bool_decide (pi_runtime_kind x = Docker) && is_empty (trim (pi_image x)).

Definition with_images (p : Policy) (pool : string) (l : list PlatformInput) : list PlatformInput :=
  if existsb unset_image l
  then update_where unset_image (λ x, x <| pi_image := pool_docker_image_of p pool |>) l
  else l.

Definition runtime_runs (k : RuntimeKind) (o : ExecutionOs) : bool :=
  match k with
  | Docker => bool_decide (o = Linux)
  | TartVm => bool_decide (o = Macos)
  | NativeProcess => true
  end.

Definition platform_key3 (x : PlatformInput) : string * string * string :=
  (runtime_name (pi_runtime_kind x), os_name (pi_execution_os x), arch_name (pi_architecture x)).

(** One turn of the loop that checks the platforms. *)
Definition check_platform (seen : list (string * string * string)) (x : PlatformInput)
    : Result (list (string * string * string)) FleetError :=
  if negb (runtime_runs (pi_runtime_kind x) (pi_execution_os x))
  then Err (InvalidRequest "runtime doesn't run that OS")
  else if is_empty (trim (pi_image x)) then Err (InvalidRequest "platform needs an image")
  else
    let? _ := map_err (λ _, InvalidRequest "image reference")
                (ImageReference_try_from (trim (pi_image x))) in
    if bool_decide (platform_key3 x ∈ seen) then Err (InvalidRequest "a platform is listed twice")
    else Ok (seen ++ [platform_key3 x])%list.

Definition check_settings (p : Policy) (pool : string) (input : FleetSettingsInput)
    : Result (list PlatformInput) FleetError :=
  if (fi_cpu_millis input =? 0) || (fi_memory_mib input =? 0)
  then Err (InvalidRequest "platforms need CPU and memory")
  else if (Z.of_nat (length (fi_platforms input)) >? 12) then Err (InvalidRequest "too many platforms")
  else if fi_enabled input && bool_decide (fi_platforms input = [])
  then Err (InvalidRequest "add a platform to run on machines")
  else
    let platforms := with_images p pool (fi_platforms input) in
    let? _ := try_fold check_platform [] platforms in
    Ok platforms.

Definition docker_socket (x : PlatformInput) : bool :=
  pi_requires_docker_socket x && bool_decide (pi_runtime_kind x = Docker).

(** The columns a save writes, and the ones its [NOT (...)] compares. *)
Definition written (input : FleetSettingsInput) (x : PlatformInput) (row : ProfileRow) : ProfileRow :=
  row <| p_enabled := fi_enabled input |> <| p_runtime_kind := runtime_name (pi_runtime_kind x) |>
      <| p_execution_os := os_name (pi_execution_os x) |>
      <| p_architecture := arch_name (pi_architecture x) |> <| p_mode := mode_name (fi_mode input) |>
      <| p_requires_docker_socket := docker_socket x |> <| p_image := trim (pi_image x) |>
      <| p_cpu_millis := fi_cpu_millis input |> <| p_memory_mib := fi_memory_mib input |>
      <| p_disk_bytes := fi_disk_bytes input |> <| p_placement := Placement_name (fi_placement input) |>.

Definition unchanged (input : FleetSettingsInput) (x : PlatformInput) (row : ProfileRow) : bool :=
  Bool.eqb (p_enabled row) (fi_enabled input)
  && String.eqb (p_runtime_kind row) (runtime_name (pi_runtime_kind x))
  && String.eqb (p_execution_os row) (os_name (pi_execution_os x))
  && String.eqb (p_architecture row) (arch_name (pi_architecture x))
  && String.eqb (p_mode row) (mode_name (fi_mode input))
  && Bool.eqb (p_requires_docker_socket row) (docker_socket x)
  && String.eqb (p_image row) (trim (pi_image x))
  && (p_cpu_millis row =? fi_cpu_millis input) && (p_memory_mib row =? fi_memory_mib input)
  && (p_disk_bytes row =? fi_disk_bytes input)
  && String.eqb (p_placement row) (Placement_name (fi_placement input)).

Definition update_profile (input : FleetSettingsInput) (x : PlatformInput) (id : string) (p : Policy)
    : Policy :=
  p <| pool_execution_profiles ::= update_where
         (λ row, String.eqb (p_id row) id && negb (unchanged input x row))
         (λ row, written input x row <| p_revision := p_revision row + 1 |>
                   <| p_all_authorized_hosts := true |> <| p_labels := Some [] |>) |>.

Definition new_profile (input : FleetSettingsInput) (x : PlatformInput) (pool id : string) (now : Z)
    : ProfileRow :=
  {| p_id := id; p_pool_id := pool; p_revision := 1; p_enabled := fi_enabled input;
     p_runtime_kind := runtime_name (pi_runtime_kind x);
     p_execution_os := os_name (pi_execution_os x);
     p_architecture := arch_name (pi_architecture x); p_mode := mode_name (fi_mode input);
     p_requires_interactive := false; p_requires_docker_socket := docker_socket x;
     p_all_authorized_hosts := true; p_image := trim (pi_image x); p_labels := Some [];
     p_config := Some {| oc_network := None |}; p_cpu_millis := fi_cpu_millis input;
     p_memory_mib := fi_memory_mib input; p_disk_bytes := fi_disk_bytes input;
     p_placement := Placement_name (fi_placement input); p_archived_at := None;
     p_name := os_name (pi_execution_os x) +:+ "-" +:+ arch_name (pi_architecture x) +:+ "-"
                 +:+ runtime_name (pi_runtime_kind x);
     p_created_at := now |}.

Definition insert_profile (row : ProfileRow) (p : Policy) : Result Policy FleetError :=
  if exists_row (λ x, String.eqb (p_id x) (p_id row)) (pool_execution_profiles p) then Err Database
  else Ok (p <| pool_execution_profiles ::= (λ l, l ++ [row])%list |>).

(** [INSERT INTO profile_ci_targets ... ON CONFLICT DO UPDATE]. *)
Definition links (profile target : string) (x : ProfileTargetRow) : bool :=
  String.eqb (pct_profile_id x) profile && String.eqb (pct_target_id x) target.

Definition link_target (profile : string) (l : list ProfileTargetRow) (target : string)
    : list ProfileTargetRow :=
  if exists_row (links profile target) l
  then update_where (links profile target)
         (λ x, x <| pct_enabled := true |> <| pct_revoked_at := None |>) l
  else (l ++ [{| pct_profile_id := profile; pct_target_id := target; pct_enabled := true;
                 pct_revoked_at := None |}])%list.

Definition link_targets (profile : string) (targets : list string) (p : Policy) : Policy :=
  p <| profile_ci_targets ::= (λ l,
         fold_left (link_target profile) targets
           (update_where (λ x, String.eqb (pct_profile_id x) profile)
              (λ x, x <| pct_enabled := false |>) l)) |>.

(** One turn of the loop over the platforms: the database and the profiles
    kept so far. *)
Definition save_platform `{UuidText} (input : FleetSettingsInput) (pool : string)
    (existing targets : list string) (draws : nat → Uuid) (now : Z)
    (state : Policy * list string) (x : PlatformInput) : Result (Policy * list string) FleetError :=
  let '(p, kept) := state in
  let existing_id := match pi_id x with
                     | Some id => if bool_decide (id ∈ existing) then Some id else None
                     | None => None
                     end in
  let? saved := match existing_id with
                | Some id => Ok (update_profile input x id p, id)
                | None =>
                    let id := to_string (draws (length kept)) in
                    let? p := insert_profile (new_profile input x pool id now) p in
                    Ok (p, id)
                end in
  Ok (link_targets saved.2 targets saved.1, (kept ++ [saved.2])%list).

Definition archive_profile (now : Z) (p : Policy) (id : string) : Policy :=
  p <| pool_execution_profiles ::= update_where (λ row, String.eqb (p_id row) id)
         (λ row, row <| p_enabled := false |> <| p_archived_at := Some now |>
                   <| p_revision := p_revision row + 1 |>) |>.

Definition save_transaction `{UuidText} (input : FleetSettingsInput) (pool : string)
    (platforms : list PlatformInput) (targets : list string) (draws : nat → Uuid) (now : Z)
    (p : Policy) : Result Policy FleetError :=
  let existing := p_id <$> select (current_of pool) (pool_execution_profiles p) in
  if fi_disk_bytes input >? i64_max then Err (InvalidRequest "disk") else
  let? saved := try_fold (save_platform input pool existing targets draws now) (p, []) platforms in
  Ok (fold_left (archive_profile now) (select (λ id, negb (bool_decide (id ∈ saved.2))) existing)
        saved.1).

Definition save_pool_fleet `{UuidText} (pool : string) (input : FleetSettingsInput)
    (syncs members draws : nat → Uuid) (now : Z) : Action FleetSettings :=
  let* platforms := query (λ p, check_settings p pool input) in
  let* _ := sync_github_targets syncs in
  let* targets := pool_targets members pool in
  let* _ := (λ p, match save_transaction input pool platforms targets draws now p with
                  | Ok p' => (Ok tt, p')
                  | Err e => (Err e, p)
                  end) in
  let* settings := query (λ p, pool_fleet p pool) in
  of_result (ok_or (Invariant "saved fleet settings") settings).

(** ** A repository that joins a pool later *)
Definition link_pool_target (pool target : string) (p : Policy) : Policy :=
  match fetch (λ q, String.eqb (pool_id q) pool) (runner_pools p),
        fetch (λ t, String.eqb (t_id t) target && String.eqb (t_kind t) "github_repository")
          (fleet_ci_targets p) with
  | Some q, Some t =>
      if eq_sql (pool_repository_id q) (t_repository_id t)
         || exists_row (λ m, String.eqb (rpr_pool_id m) pool
                             && eq_sql (Some (rpr_repository_id m)) (t_repository_id t))
              (runner_pool_repositories p)
      then p <| profile_ci_targets ::= (λ l,
                  fold_left (λ l profile, link_target profile l target)
                    (p_id <$> select (current_of pool) (pool_execution_profiles p)) l) |>
      else p
  | _, _ => p
  end.
