(* ===== verification/TargetsSpec.v ===== *)
(** * Targets and settings: theorems

    Targets keep their identity, a save is all or nothing and reads back, a
    repeated save changes nothing, and a deleted pool takes only finished work
    with it. *)
From S2P Require Import Prelude Base64 Ids Domain Protocol Outcomes Capabilities Inventory Crypto Store.
From S2P Require Import Service Admission AdmissionSpec Deletion Commands Placement Evolution Fleet Targets.
#[local] Open Scope string_scope.
#[local] Open Scope Z_scope.

(** ** Actions that only add targets *)

(** The keys of the table of targets. *)
Definition targets_wf (p : Policy) : Prop :=
  NoDup (t_canonical_key <$> fleet_ci_targets p) ∧ NoDup (t_id <$> fleet_ci_targets p).

(** [p'] is [p] with targets added. *)
Definition adds_targets (p p' : Policy) : Prop :=
  (∃ l, p' = p <| fleet_ci_targets := (fleet_ci_targets p ++ l)%list |>)
  ∧ (targets_wf p → targets_wf p').

#[export] Instance adds_targets_preorder : PreOrder adds_targets.
Proof.
  split.
  - intros p. split; [|done]. exists []. rewrite app_nil_r. by destruct p.
  - intros p1 p2 p3 [[l ->] H12] [[l' ->] H23]. split; [|auto]. exists (l ++ l')%list.
    simpl. by rewrite app_assoc.
Qed.

(** An action keeps what it finds. *)
Definition additive {A} (c : Action A) : Prop := ∀ p r p', c p = (r, p') → adds_targets p p'.

Lemma additive_result {A} (r : Result A FleetError) : additive (of_result r).
Proof. intros p r' p' [= _ <-]. reflexivity. Qed.

Lemma additive_succeed {A} (a : A) : additive (succeed a).
Proof. intros p r' p' [= _ <-]. reflexivity. Qed.

Lemma additive_query {A} (q : Policy → Result A FleetError) : additive (query q).
Proof. intros p r' p' [= _ <-]. reflexivity. Qed.

Lemma additive_then {A B} (c : Action A) (k : A → Action B) :
  additive c → (∀ a, additive (k a)) → additive (and_then c k).
Proof.
  intros Hc Hk p r p'. unfold and_then. destruct (c p) as [[a|e] p1] eqn:E.
  - intros E'. etrans; [by eapply Hc|by eapply Hk].
  - intros [= <- <-]. by eapply Hc.
Qed.

Lemma additive_each {A B} (f : nat → A → Action B) n l :
  (∀ n a, additive (f n a)) → additive (each f n l).
Proof.
  intros Hf. revert n. induction l as [|a l IH]; intros n; simpl; [apply additive_succeed|].
  apply additive_then; [apply Hf|]. intros b. apply additive_then; [apply IH|].
  intros bs. apply additive_succeed.
Qed.

#[export] Hint Resolve additive_result additive_succeed additive_query additive_then additive_each : fleet.

Lemma additive_insert t : additive (insert_target t).
Proof.
  intros p r p'. unfold insert_target.
  destruct (exists_row (same_key _) _) eqn:Hk; [intros [= <- <-]; reflexivity|].
  destruct (exists_row (λ x, String.eqb (t_id x) _) _) eqn:Hi; simpl; [intros [= <- <-]; reflexivity|].
  destruct (references_exist p t); simpl; intros [= <- <-]; [|reflexivity].
  split; [by exists [t]|]. intros [Hkeys Hids]. split; simpl; apply NoDup_snoc; try done.
  - intros x Hx Heq. apply (proj1 (exists_row_false _ _) Hk) in Hx. unfold same_key in Hx.
    by apply String.eqb_neq in Hx.
  - intros x Hx Heq. apply (proj1 (exists_row_false _ _) Hi) in Hx. by apply String.eqb_neq in Hx.
Qed.
#[export] Hint Resolve additive_insert : fleet.

Section spec.
Context `{UuidText}.

Lemma additive_ensure drawn target : additive (ensure_target drawn target).
Proof. unfold ensure_target. auto with fleet. Qed.
#[local] Hint Resolve additive_ensure : fleet.

Lemma additive_repository draws n r : additive (repository_target draws n r).
Proof. unfold repository_target. auto 6 with fleet. Qed.

Lemma additive_organization draws n i : additive (organization_target draws n i).
Proof. unfold organization_target. auto 6 with fleet. Qed.
#[local] Hint Resolve additive_repository additive_organization : fleet.

Lemma additive_sync draws : additive (sync_github_targets draws).
Proof. intros p. apply (additive_then _ _); auto with fleet. Qed.

Lemma additive_pool_targets draws pool : additive (pool_targets draws pool).
Proof.
  intros p r p'. unfold pool_targets.
  destruct (fetch _ _) as [q|]; [|intros [= <- <-]; reflexivity].
  destruct (String.eqb _ _); [apply additive_each; auto with fleet|].
  destruct (pool_installation_id q); [|intros [= <- <-]; reflexivity].
  destruct (fetch _ _) as [i|]; [|intros [= <- <-]; reflexivity].
  apply (additive_then _ _); auto 8 with fleet.
Qed.

(** What [ensure_target] returns is the row of that key. *)
Lemma ensure_target_Ok drawn target p id p' :
  ensure_target drawn target p = (Ok id, p') →
  ∃ t, t ∈ fleet_ci_targets p' ∧ t_id t = id ∧ t_canonical_key t = canonical_key target.
Proof.
  unfold ensure_target, and_then, of_result, query.
  destruct (target_row _ _); [|done]. destruct (insert_target _ _) as [[|] p1]; [|done].
  intros [= E ->]. apply ok_or_Ok, fmap_Some in E as (t & (Hin & Hk)%fetch_Some & ->).
  exists t. split_and!; [done..|]. by apply String.eqb_eq.
Qed.
End spec.

(** ** The transaction of a save *)

(** Values of the input's types: [u32], [u32] and [u64]. *)
Definition input_wf (input : FleetSettingsInput) : Prop :=
  0 ≤ fi_cpu_millis input ≤ u32_max ∧ 0 ≤ fi_memory_mib input ≤ u32_max
  ∧ 0 ≤ fi_disk_bytes input ≤ u64_max.

(** No platform is named twice. *)
Definition distinct_ids (l : list PlatformInput) : Prop := NoDup (omap pi_id l).

Definition profiles_wf (p : Policy) : Prop := NoDup (p_id <$> pool_execution_profiles p).

Ltac same_columns := unfold unchanged; simpl; by rewrite !Bool.eqb_reflx, !String.eqb_refl, !Z.eqb_refl.

Lemma unchanged_written input x row revision hosts labels :
  unchanged input x (written input x row <| p_revision := revision |>
                       <| p_all_authorized_hosts := hosts |> <| p_labels := labels |>) = true.
Proof. same_columns. Qed.

(** A row that a save of [x] would not change. *)
Definition holds (input : FleetSettingsInput) (pool : string) (x : PlatformInput) (row : ProfileRow)
    : Prop := current_of pool row = true ∧ unchanged input x row = true.

(** The profiles of [kept] hold the platforms of [l]. *)
Definition rows_backed (input : FleetSettingsInput) (pool : string) (rows : list ProfileRow)
    : list PlatformInput → list string → Prop :=
  Forall2 (λ x id, ∃ row, row ∈ rows ∧ p_id row = id ∧ holds input pool x row).

(** The loop over the platforms, after those of [l]. *)
Record saving (input : FleetSettingsInput) (pool : string) (p0 : Policy) (l : list PlatformInput)
    (p : Policy) (kept : list string) : Prop := {
  sv_ids : profiles_wf p;
  sv_kept : NoDup kept;
  sv_rows : rows_backed input pool (pool_execution_profiles p) l kept;
  sv_rest : ∀ row, p_id row ∉ kept →
              row ∈ pool_execution_profiles p ↔ row ∈ pool_execution_profiles p0;
  sv_named : ∀ row, row ∈ pool_execution_profiles p0 → p_id row ∈ kept →
               p_id row ∈ omap pi_id l
               ∧ p_id row ∈ (p_id <$> select (current_of pool) (pool_execution_profiles p0));
  sv_targets : fleet_ci_targets p = fleet_ci_targets p0 }.

(** Only the profiles and the targets matter for [saving]. *)
Lemma saving_ext input pool p0 l p p' kept :
  pool_execution_profiles p' = pool_execution_profiles p → fleet_ci_targets p' = fleet_ci_targets p →
  saving input pool p0 l p kept → saving input pool p0 l p' kept.
Proof. intros E1 E2 [? ? ? ? ? ?]. split; unfold profiles_wf; rewrite ?E1, ?E2; done. Qed.

Lemma saved_row input pool x p id row :
  row ∈ pool_execution_profiles p → p_id row = id → current_of pool row = true →
  ∃ row', row' ∈ pool_execution_profiles (update_profile input x id p) ∧ p_id row' = id
          ∧ holds input pool x row'.
Proof.
  intros Hin Hid Hcur. destruct (unchanged input x row) eqn:E.
  - exists row. split; [|done]. apply elem_of_update_where. exists row.
    by rewrite E, andb_false_r.
  - eexists. split; [apply elem_of_update_where; exists row; split; [done|reflexivity]|].
    rewrite E, Hid, String.eqb_refl. cbn [negb andb]. split; [done|]. split; [done|].
    apply unchanged_written.
Qed.

Lemma update_profile_other input x p id row :
  p_id row ≠ id →
  row ∈ pool_execution_profiles (update_profile input x id p) ↔ row ∈ pool_execution_profiles p.
Proof.
  intros Hne. unfold update_profile. simpl. rewrite elem_of_update_where. split.
  - intros (a & Ha & ->). destruct (String.eqb_spec (p_id a) id); [|done].
    destruct (negb _); [|done]. by contradict Hne.
  - intros Hin. exists row. split; [done|]. by rewrite (proj2 (String.eqb_neq _ _) Hne).
Qed.

Section saving.
Context `{UuidText} (input : FleetSettingsInput) (pool : string) (p0 : Policy).

Notation existing := (p_id <$> select (current_of pool) (pool_execution_profiles p0)).

Lemma existing_row id :
  id ∈ existing → ∃ row, row ∈ pool_execution_profiles p0 ∧ p_id row = id ∧ current_of pool row = true.
Proof. intros (row & -> & [? ?]%elem_of_select)%list_elem_of_fmap. eauto. Qed.

Lemma backed_mono rows rows' l kept :
  (∀ row, p_id row ∈ kept → row ∈ rows → row ∈ rows') →
  rows_backed input pool rows l kept → rows_backed input pool rows' l kept.
Proof.
  intros Hk [Hlen HF]%Forall2_same_length_lookup.
  apply Forall2_same_length_lookup. split; [done|]. intros i x id Hx Hid.
  destruct (HF i x id Hx Hid) as (row & Hin & <- & ?). exists row. split_and!; [|done..].
  apply Hk; [|done]. by eapply list_elem_of_lookup_2.
Qed.

Lemma save_platform_saving targets draws now l x p kept p' kept' :
  distinct_ids (l ++ [x]) → saving input pool p0 l p kept →
  save_platform input pool existing targets draws now (p, kept) x = Ok (p', kept') →
  saving input pool p0 (l ++ [x]) p' kept'.
Proof.
  intros Hd [Hids Hkept Hrows Hrest Hnamed Htg]. unfold save_platform.
  unfold distinct_ids in Hd. rewrite omap_app in Hd.
  set (eid := match pi_id x with Some _ => _ | None => None end).
  destruct eid as [id|] eqn:Eid; subst eid; intros E; inv_result.
  - (* a platform that exists *)
    destruct (pi_id x) as [id'|] eqn:Ex; [|done]. destruct (bool_decide _) eqn:Hb; [|done].
    injection Eid as ->. apply bool_decide_eq_true in Hb.
    destruct (existing_row id Hb) as (row & Hin & Hrid & Hcur).
    assert (id ∉ kept) as Hnk.
    { intros Hk. rewrite <-Hrid in Hk. destruct (Hnamed row Hin Hk) as [Hnm _].
      apply NoDup_app in Hd as (_ & Hd & _). apply (Hd (p_id row)); [done|].
      simpl. rewrite Ex. by rewrite Hrid; left. }
    assert (row ∈ pool_execution_profiles p) as Hinp by (apply Hrest; [by rewrite Hrid|done]).
    apply (saving_ext _ _ _ _ (update_profile input x id p)); [done..|]. split.
    + unfold profiles_wf, update_profile. simpl. by rewrite update_where_fmap.
    + apply NoDup_app. split; [done|]. split; [set_solver|apply NoDup_singleton].
    + apply Forall2_app.
      * eapply backed_mono; [|done]. intros r Hr Hrin. apply update_profile_other; [|done].
        intros Heq. by rewrite Heq in Hr.
      * constructor; [|constructor]. by eapply saved_row.
    + intros r Hr. rewrite <-Hrest by set_solver. apply update_profile_other. set_solver.
    + intros r Hr0 Hrk. rewrite omap_app, elem_of_app. apply elem_of_app in Hrk as [Hk|Hk].
      * destruct (Hnamed r Hr0 Hk). auto.
      * apply list_elem_of_singleton in Hk. rewrite Hk. split; [right|done]. simpl. rewrite Ex. by left.
    + done.
  - (* a new one *)
    unfold insert_profile in Hx0. destruct (exists_row _ _) eqn:Hf; [done|]. inv_result.
    set (row := new_profile input x pool _ now) in *.
    set (id := p_id row) in *. change (to_string (draws (length kept))) with id.
    assert (∀ r, r ∈ pool_execution_profiles p → p_id r ≠ id) as Hfresh.
    { intros r Hr. apply (proj1 (exists_row_false _ _) Hf) in Hr. by apply String.eqb_neq. }
    assert (id ∉ kept) as Hnk.
    { intros (i & Hi)%list_elem_of_lookup. destruct (Forall2_lookup_r _ _ _ _ _ Hrows Hi) as (y & _ & r & Hr & Hrid & _).
      by eapply Hfresh. }
    eapply saving_ext; [done..|]. split; simpl.
    + by apply NoDup_snoc.
    + apply NoDup_app. split; [done|]. split; [set_solver|apply NoDup_singleton].
    + apply Forall2_app.
      * eapply backed_mono; [|done]. intros r _ Hr. apply elem_of_app. by left.
      * constructor; [|constructor]. exists row. split; [set_solver|]. split; [done|].
        split; [unfold current_of, row; simpl; by rewrite String.eqb_refl|].
        unfold row. same_columns.
    + intros r Hr. rewrite <-Hrest by set_solver. rewrite elem_of_app, list_elem_of_singleton.
      split; [|by left]. intros [?| ->]; [done|]. set_solver.
    + intros r Hr0 [Hk|Hk%list_elem_of_singleton]%elem_of_app.
      * rewrite omap_app, elem_of_app. destruct (Hnamed r Hr0 Hk). auto.
      * destruct (decide (p_id r ∈ kept)); [congruence|].
        exfalso. apply (Hfresh r); [by apply Hrest|done].
    + done.
Qed.

Lemma save_platforms_saving targets draws now l' l p kept p' kept' :
  distinct_ids (l ++ l') → saving input pool p0 l p kept →
  try_fold (save_platform input pool existing targets draws now) (p, kept) l' = Ok (p', kept') →
  saving input pool p0 (l ++ l') p' kept'.
Proof.
  revert l p kept. induction l' as [|x l' IH]; intros l p kept Hd Hs E; simpl in E.
  - injection E as <- <-. by rewrite app_nil_r.
  - apply bind_Ok in E as ([p1 kept1] & Hx & E).
    replace (l ++ x :: l')%list with ((l ++ [x]) ++ l')%list in * by by rewrite <-app_assoc.
    eapply IH; [done| |done]. eapply save_platform_saving; [|done..].
    unfold distinct_ids in *. rewrite omap_app in Hd. by apply NoDup_app in Hd as [? _].
Qed.

(** Archiving touches the profiles it names. *)
Lemma archive_columns now ids p :
  let p' := fold_left (archive_profile now) ids p in
  p_id <$> pool_execution_profiles p' = p_id <$> pool_execution_profiles p
  ∧ fleet_ci_targets p' = fleet_ci_targets p ∧ profile_ci_targets p' = profile_ci_targets p.
Proof.
  induction ids as [|id ids IH] using rev_ind; simpl; [done|].
  rewrite fold_left_app. simpl. destruct IH as (Hids & ? & ?). split; [|done].
  by rewrite update_where_fmap.
Qed.

Lemma archive_from now ids p row :
  row ∈ pool_execution_profiles (fold_left (archive_profile now) ids p) →
  (row ∈ pool_execution_profiles p ∧ p_id row ∉ ids)
  ∨ (p_id row ∈ ids ∧ current_of pool row = false
     ∧ ∃ a, a ∈ pool_execution_profiles p ∧ p_id a = p_id row ∧ p_pool_id a = p_pool_id row).
Proof.
  revert row. induction ids as [|id ids IH] using rev_ind; intros row; simpl; [set_solver|].
  rewrite fold_left_app. intros (a & Ha & Hrow)%elem_of_update_where.
  destruct (String.eqb_spec (p_id a) id) as [<-|Hne].
  - right. subst row. split; [set_solver|]. split; [unfold current_of; simpl; by rewrite andb_false_r|].
    destruct (IH a Ha) as [[? ?]|(? & ? & a' & ? & ? & ?)]; [by exists a|by exists a'].
  - subst a. destruct (IH row Ha) as [[? ?]|(? & ? & ?)]; [left|right]; set_solver.
Qed.

Lemma archive_to now ids p row :
  row ∈ pool_execution_profiles p → p_id row ∉ ids →
  row ∈ pool_execution_profiles (fold_left (archive_profile now) ids p).
Proof.
  intros Hin. induction ids as [|id ids IH] using rev_ind; simpl; [done|]. intros Hn.
  rewrite fold_left_app. apply elem_of_update_where. exists row. split; [apply IH; set_solver|].
  destruct (String.eqb_spec (p_id row) id); set_solver.
Qed.

(** What a committed save leaves: the current profiles of the pool are the
    platforms of the input, one each; the others are as they were. *)
Record save_settled (platforms : list PlatformInput) (p' : Policy) : Prop := {
  st_ids : profiles_wf p';
  st_rows : ∃ rows, rows ≡ₚ select (current_of pool) (pool_execution_profiles p')
                    ∧ Forall2 (holds input pool) platforms rows;
  st_others : ∀ row, p_pool_id row ≠ pool →
                row ∈ pool_execution_profiles p' ↔ row ∈ pool_execution_profiles p0;
  st_targets : fleet_ci_targets p' = fleet_ci_targets p0 }.

(** The kept rows, and nothing else, are current. *)
Lemma backed_rows rows l kept :
  NoDup (p_id <$> rows) → NoDup kept → rows_backed input pool rows l kept →
  (∀ row, row ∈ rows → current_of pool row = true → p_id row ∈ kept) →
  ∃ rows', rows' ≡ₚ select (current_of pool) rows ∧ Forall2 (holds input pool) l rows'
           ∧ p_id <$> rows' = kept.
Proof.
  intros Hids Hkept Hb Hcur.
  assert (∃ rows', Forall2 (holds input pool) l rows' ∧ p_id <$> rows' = kept
                   ∧ ∀ row, row ∈ rows' → row ∈ rows) as (rows' & HF & Hk & Hsub).
  { clear Hkept Hcur. induction Hb as [|x id l kept (row & ? & ? & ?) _ (rows' & ? & ? & ?)].
    - exists []. split; [constructor|]. set_solver.
    - exists (row :: rows'). split; [by constructor|].
      rewrite fmap_cons. split; [by f_equal|set_solver]. }
  exists rows'. split; [|done]. apply NoDup_Permutation.
  - apply (NoDup_fmap_1 p_id). by rewrite Hk.
  - apply (NoDup_fmap_1 p_id). clear -Hids. induction rows as [|row rows IH]; simpl; [constructor|].
    apply NoDup_cons in Hids as [Hn Hids]. destruct (current_of pool row); [|by apply IH].
    simpl. constructor; [|by apply IH]. intros (r & Heq & [Hr _]%elem_of_select)%list_elem_of_fmap.
    apply Hn. rewrite Heq. by apply list_elem_of_fmap_2.
  - intros row. rewrite elem_of_select. split.
    + intros Hin. split; [by apply Hsub|].
      destruct (Forall2_elem_of_r _ _ _ _ HF Hin) as (x & _ & ? & _). done.
    + intros [Hin Hc]. specialize (Hcur row Hin Hc). rewrite <-Hk in Hcur.
      apply list_elem_of_fmap in Hcur as (r & Heq & Hr).
      rewrite (unique_by p_id rows row r); auto.
Qed.

Lemma save_transaction_Ok platforms targets draws now p' :
  profiles_wf p0 → distinct_ids platforms →
  save_transaction input pool platforms targets draws now p0 = Ok p' → save_settled platforms p'.
Proof.
  intros Hwf Hd E. unfold save_transaction in E. inv_result. destruct x as [p kept].
  eapply (save_platforms_saving _ _ _ _ []) in Hx; [|done|].
  2: { split; [done|constructor|constructor|done|set_solver|done]. }
  simpl in Hx. destruct Hx as [Hids Hkept Hrows Hrest Hnamed Htg].
  set (gone := select _ existing). simpl in gone.
  assert (∀ row, row ∈ pool_execution_profiles p → current_of pool row = true →
                 p_id row ∉ gone → p_id row ∈ kept) as Hstay.
  { intros row Hin Hc Hg. destruct (decide (p_id row ∈ kept)) as [|Hn]; [done|]. exfalso.
    apply Hg. apply elem_of_select. split; [|by rewrite bool_decide_false].
    apply list_elem_of_fmap. exists row. split; [done|]. apply elem_of_select. split; [|done].
    by apply Hrest. }
  assert (∀ id, id ∈ gone → id ∉ kept) as Hgone.
  { intros id [_ Hb]%elem_of_select. by apply negb_true_iff, bool_decide_eq_false in Hb. }
  destruct (archive_columns now gone p) as (Hcol & Htg' & _).
  split; cbn [fst]; [by unfold profiles_wf; rewrite Hcol| | |by rewrite Htg'].
  - destruct (backed_rows (pool_execution_profiles (fold_left (archive_profile now) gone p)) platforms kept)
      as (rows & ? & ? & _); [by rewrite Hcol|done|eapply backed_mono; [|done]| |by exists rows].
    + intros row Hk Hin. apply archive_to; [done|]. intros Hg. by apply (Hgone _ Hg).
    + intros row Hin Hc. destruct (archive_from now gone p row Hin) as [[? ?]|(_ & Hc' & _)]; [auto|congruence].
  - intros row Hp.
    assert (∀ r, r ∈ pool_execution_profiles p0 → p_pool_id r ≠ pool → p_id r ∉ existing) as Hother.
    { intros r Hr Hne Hex. destruct (existing_row _ Hex) as (r' & Hr' & Heq & Hc).
      rewrite (unique_by p_id _ _ _ Hwf Hr' Hr Heq) in Hc. unfold current_of in Hc. by bool_to_prop. }
    assert (∀ r, r ∈ pool_execution_profiles p → p_pool_id r ≠ pool → p_id r ∉ kept) as Hnk.
    { intros r Hr Hne (i & Hi)%list_elem_of_lookup.
      destruct (Forall2_lookup_r _ _ _ _ _ Hrows Hi) as (y & _ & r' & Hr' & Heq & Hc & _).
      rewrite (unique_by p_id _ _ _ Hids Hr' Hr Heq) in Hc. unfold current_of in Hc. by bool_to_prop. }
    split.
    + intros Hin. destruct (archive_from now gone p row Hin) as [[Hr _]|(Hg & _ & a & Ha & Hid & Hpool)].
      * apply Hrest; [by apply Hnk|done].
      * exfalso. apply elem_of_select in Hg as [Hex _]. rewrite <-Hid in Hex.
        apply (Hother a); [|congruence|done]. apply Hrest; [apply Hnk|]; congruence.
    + intros Hin. assert (p_id row ∉ kept) as Hk.
      { intros Hk. destruct (Hnamed row Hin Hk) as [_ Hex]. by apply (Hother row). }
      apply archive_to; [by apply Hrest|]. intros [Hex _]%elem_of_select. by apply (Hother row).
Qed.
End saving.

(** ** Reading the settings back *)

(** What a platform of the input asks for, and what a platform read back says. *)
Definition wanted (x : PlatformInput) : RuntimeKind * ExecutionOs * Architecture * string * bool :=
  (pi_runtime_kind x, pi_execution_os x, pi_architecture x, trim (pi_image x), docker_socket x).

Definition shape (x : Platform) : RuntimeKind * ExecutionOs * Architecture * string * bool :=
  (plat_runtime_kind x, plat_execution_os x, plat_architecture x, plat_image x,
   plat_requires_docker_socket x).

(** A profile as a save of [x] stores it. *)
Definition saved_input (input : FleetSettingsInput) (x : PlatformInput) (labels : list string)
    : ProfileInput :=
  {| in_enabled := fi_enabled input; in_runtime_kind := pi_runtime_kind x;
     in_execution_os := pi_execution_os x; in_architecture := pi_architecture x;
     in_mode := fi_mode input; in_image := trim (pi_image x); in_labels := labels;
     in_cpu_millis := fi_cpu_millis input; in_memory_mib := fi_memory_mib input;
     in_disk_bytes := fi_disk_bytes input; in_requires_docker_socket := docker_socket x;
     in_placement := fi_placement input |}.

Lemma try_from_bound max z : 0 ≤ z ≤ max → (0 <=? z) && (z <=? max) = true.
Proof. intros. apply andb_true_intro. split; apply Z.leb_le; lia. Qed.

Lemma unchanged_columns input x row : unchanged input x row = true →
  row = written input x row.
Proof.
  unfold unchanged. intros E. repeat (apply andb_prop in E as [E ?]).
  repeat match goal with
  | H : Bool.eqb _ _ = true |- _ => apply Bool.eqb_prop in H
  | H : String.eqb _ _ = true |- _ => apply String.eqb_eq in H
  | H : (_ =? _) = true |- _ => apply Z.eqb_eq in H
  end.
  unfold written. destruct row. simpl in *. by subst.
Qed.

(** The stored names read back. *)
Lemma parse_runtime k : parse_runtime_kind (runtime_name k) = Ok k.
Proof. by destruct k. Qed.
Lemma parse_os o : parse_execution_os (os_name o) = Ok o.
Proof. by destruct o. Qed.
Lemma parse_arch a : parse_architecture (arch_name a) = Ok a.
Proof. by destruct a. Qed.
Lemma parse_mode_name m : parse_mode (mode_name m) = Ok m.
Proof. by destruct m. Qed.
Lemma parse_placement_name x : parse_placement (Placement_name x) = Ok x.
Proof. by destruct x. Qed.

Lemma read_saved p input pool x row :
  input_wf input → holds input pool x row →
  read_profile p row = Ok {| pf_id := p_id row; pf_revision := p_revision row;
                             pf_input := saved_input input x (default [] (p_labels row));
                             pf_target_ids := linked_targets p (p_id row) |}.
Proof.
  intros (Hc & Hm & Hd) [_ Hu]. apply unchanged_columns in Hu. rewrite Hu.
  unfold read_profile, profile_input, stored, u32_try_from, u64_try_from.
  unfold written. simpl. rewrite !try_from_bound by done.
  rewrite (proj2 (Z.leb_le 0 (fi_disk_bytes input))) by lia.
  by rewrite parse_runtime, parse_os, parse_arch, parse_mode_name, parse_placement_name.
Qed.

(** The settings of a pool whose current profiles are [l]'s platforms. *)
Lemma fleet_read_back p input pool l rows :
  input_wf input → l ≠ [] →
  rows ≡ₚ select (current_of pool) (pool_execution_profiles p) → Forall2 (holds input pool) l rows →
  ∃ s, pool_fleet p pool = Ok (Some s)
    ∧ fs_enabled s = fi_enabled input ∧ fs_placement s = fi_placement input ∧ fs_mode s = fi_mode input
    ∧ fs_cpu_millis s = fi_cpu_millis input ∧ fs_memory_mib s = fi_memory_mib input
    ∧ fs_disk_bytes s = fi_disk_bytes input ∧ shape <$> fs_platforms s ≡ₚ wanted <$> l
    ∧ plat_id <$> fs_platforms s ≡ₚ p_id <$> rows
    ∧ (∀ x, x ∈ fs_platforms s → ∃ y row, y ∈ l ∧ row ∈ rows ∧ holds input pool y row
         ∧ plat_id x = p_id row ∧ shape x = wanted y).
Proof.
  intros Hwf Hne Hperm HF. unfold pool_fleet, pool_profiles.
  set (ordered := order_by _ _).
  assert (ordered ≡ₚ rows) as Ho by (rewrite Hperm; apply order_by_perm).
  assert (∃ l', l' ≡ₚ l ∧ Forall2 (holds input pool) l' ordered) as (l' & Hl' & HF').
  { symmetry in Ho. apply Forall2_flip in HF.
    destruct (Permutation_Forall2 Ho HF) as (l' & ? & HF'). exists l'. split; [done|].
    by apply Forall2_flip. }
  assert (∃ profiles, traverse (read_profile p) ordered = Ok profiles
    ∧ Forall2 (λ x f, ∃ row, row ∈ ordered ∧ holds input pool x row ∧ pf_id f = p_id row
                       ∧ pf_input f = saved_input input x (default [] (p_labels row))) l' profiles)
    as (profiles & Et & HP).
  { clear Ho Hperm HF Hl'. clearbody ordered. induction HF' as [|x row l' ordered Hx HF' IH].
    - exists []. split; [done|constructor].
    - destruct IH as (profiles & Et & HP). simpl. rewrite (read_saved p input pool x row Hwf Hx), Et.
      eexists. split; [done|]. constructor; [exists row; split; [left|done]|].
      eapply Forall2_impl; [exact HP|]. intros y f (r & ? & ?). exists r. split; [by right|done]. }
  assert (plat_id <$> (platform_of <$> profiles) = p_id <$> ordered) as Hids.
  { apply traverse_Ok in Et. clear -Et. induction Et as [|row f ordered profiles Hr _ IH]; [done|].
    unfold read_profile in Hr. inv_result. rewrite !fmap_cons. by f_equal. }
  assert (∀ x, x ∈ platform_of <$> profiles → ∃ y row, y ∈ l ∧ row ∈ rows ∧ holds input pool y row
            ∧ plat_id x = p_id row ∧ shape x = wanted y) as Hrows.
  { intros x (f & -> & Hf)%list_elem_of_fmap.
    destruct (Forall2_elem_of_r _ _ _ _ HP Hf) as (y & Hy & row & Hr & Hh & Hi & Hfi).
    exists y, row. rewrite <-Hl', <-Ho. split_and!; [done..|]. unfold shape. simpl. by rewrite Hfi. }
  rewrite Et. simpl. destruct HP as [|x f l'' profiles (row & Hin & Hh & Hid & Hf) HP].
  { symmetry in Hl'. by apply Permutation_nil_r in Hl'. }
  eexists. split; [done|]. rewrite <-Ho, <-Hids. simpl. rewrite Hf.
  split_and!; [|done..| |done|done].
  - simpl. destruct (fi_enabled input) eqn:En; [done|simpl].
    clear -HP En. induction HP as [|y g l profiles (r & _ & _ & _ & Hg) _ IH]; simpl; [done|].
    rewrite Hg. simpl. by rewrite En.
  - rewrite <-Hl'. simpl. apply reflexive_eq. f_equal; [by unfold shape; simpl; rewrite Hf|].
    clear -HP. induction HP as [|y g l profiles (r & _ & _ & _ & Hg) _ IH]; simpl; [done|].
    f_equal; [by unfold shape; simpl; rewrite Hg|done].
Qed.

Lemma omap_update_where {A B} (f : A → option B) (q : A → bool) (g : A → A) l :
  (∀ a, f (g a) = f a) → omap f (update_where q g l) = omap f l.
Proof.
  intros Hf. induction l as [|a l IH]; [done|]. simpl.
  replace (f (if q a then g a else a)) with (f a) by (destruct (q a); [by rewrite Hf|done]).
  destruct (f a); [f_equal|]; exact IH.
Qed.

Lemma with_images_ids p pool l : omap pi_id (with_images p pool l) = omap pi_id l.
Proof.
  unfold with_images. destruct (existsb _ _); [|done]. by apply omap_update_where.
Qed.

Lemma with_images_nil p pool l : with_images p pool l = [] ↔ l = [].
Proof.
  unfold with_images. destruct (existsb _ _); [|done]. unfold update_where. by destruct l.
Qed.

Section saves.
Context `{UuidText}.

(** A save, taken apart: it fails before the transaction, in it, or commits. *)
Lemma save_pool_fleet_cases pool input syncs members draws now p r p' :
  save_pool_fleet pool input syncs members draws now p = (r, p') →
  (∃ e, r = Err e ∧ adds_targets p p')
  ∨ ∃ platforms targets p2, check_settings p pool input = Ok platforms ∧ adds_targets p p2
      ∧ save_transaction input pool platforms targets draws now p2 = Ok p'
      ∧ r = result_bind (pool_fleet p' pool) (ok_or (Invariant "saved fleet settings")).
Proof.
  unfold save_pool_fleet, and_then, query.
  destruct (check_settings p pool input) as [platforms|e] eqn:Ec.
  2: { intros [= <- <-]. left. eexists. split; [done|reflexivity]. }
  destruct (sync_github_targets syncs p) as [[u|e] p1] eqn:Es.
  2: { intros [= <- <-]. left. eexists. split; [done|]. by eapply additive_sync. }
  destruct (pool_targets members pool p1) as [[targets|e] p2] eqn:Et.
  all: assert (adds_targets p p2) as Ha
    by (etrans; [by eapply additive_sync|by eapply additive_pool_targets]).
  2: { intros [= <- <-]. left. eexists. by split. }
  destruct (save_transaction _ _ _ _ _ _ p2) as [p3|e] eqn:Ex.
  2: { intros [= <- <-]. left. eexists. by split. }
  unfold of_result. intros E. right. exists platforms, targets, p2.
  destruct (pool_fleet p3 pool) as [s|e] eqn:Ef; injection E as <- <-; by rewrite Ef.
Qed.

Lemma check_settings_Ok p pool input platforms :
  check_settings p pool input = Ok platforms → platforms = with_images p pool (fi_platforms input).
Proof. unfold check_settings. intros E. by inv_result. Qed.

Lemma adds_targets_profiles p p' :
  adds_targets p p' → pool_execution_profiles p' = pool_execution_profiles p
                      ∧ profile_ci_targets p' = profile_ci_targets p.
Proof. by intros [[l ->] _]. Qed.

(** C35: a save of one or more platforms, none named twice, is all or nothing.
    (Without any platform it is not, as the sample shows.)  When it returns
    settings they are the ones that were asked for, one stored platform for
    each of the input's with the pool's own image filled in, and reading the
    pool again gives them; when it returns an error no profile and no link
    has changed.  Profiles of other pools are never touched. *)
Theorem save_is_all_or_nothing pool input syncs members draws now p r p' :
  profiles_wf p → input_wf input → distinct_ids (fi_platforms input) → fi_platforms input ≠ [] →
  save_pool_fleet pool input syncs members draws now p = (r, p') →
  match r with
  | Ok s =>
      pool_fleet p' pool = Ok (Some s)
      ∧ fs_enabled s = fi_enabled input ∧ fs_placement s = fi_placement input
      ∧ fs_mode s = fi_mode input ∧ fs_cpu_millis s = fi_cpu_millis input
      ∧ fs_memory_mib s = fi_memory_mib input ∧ fs_disk_bytes s = fi_disk_bytes input
      ∧ shape <$> fs_platforms s ≡ₚ wanted <$> with_images p pool (fi_platforms input)
  | Err _ =>
      pool_execution_profiles p' = pool_execution_profiles p
      ∧ profile_ci_targets p' = profile_ci_targets p
  end
  ∧ ∀ row, p_pool_id row ≠ pool →
      row ∈ pool_execution_profiles p' ↔ row ∈ pool_execution_profiles p.
Proof.
  intros Hwf Hin Hd Hne E.
  apply save_pool_fleet_cases in E as [(e & -> & Ha)|(platforms & targets & p2 & Hc & Ha & Ht & ->)].
  - apply adds_targets_profiles in Ha as [E1 E2]. by rewrite E1, E2.
  - apply check_settings_Ok in Hc as ->. apply adds_targets_profiles in Ha as [E1 _].
    apply save_transaction_Ok in Ht as [_ (rows & Hp & HF) Hoth _].
    + destruct (fleet_read_back p' input pool (with_images p pool (fi_platforms input)) rows)
        as (s & Es & Hs); [done|by rewrite with_images_nil|done..|].
      rewrite Es. simpl. split; [naive_solver|]. intros row Hrow. by rewrite Hoth, E1.
    + unfold profiles_wf. by rewrite E1.
    + unfold distinct_ids. by rewrite with_images_ids.
Qed.

(** The settings as read, sent again. *)
Definition again (s : FleetSettings) : FleetSettingsInput :=
  {| fi_enabled := fs_enabled s; fi_placement := fs_placement s; fi_mode := fs_mode s;
     fi_cpu_millis := fs_cpu_millis s; fi_memory_mib := fs_memory_mib s;
     fi_disk_bytes := fs_disk_bytes s;
     fi_platforms := (λ x, {| pi_id := Some (plat_id x); pi_runtime_kind := plat_runtime_kind x;
                              pi_execution_os := plat_execution_os x;
                              pi_architecture := plat_architecture x; pi_image := plat_image x;
                              pi_requires_docker_socket := plat_requires_docker_socket x |})
                     <$> fs_platforms s |}.

(** Platforms that are stored as they are: the loop writes no profile. *)
Lemma save_nothing input pool existing targets draws now l p kept p' kept' :
  profiles_wf p →
  (∀ x, x ∈ l → ∃ row, row ∈ pool_execution_profiles p ∧ pi_id x = Some (p_id row)
                       ∧ p_id row ∈ existing ∧ unchanged input x row = true) →
  try_fold (save_platform input pool existing targets draws now) (p, kept) l = Ok (p', kept') →
  pool_execution_profiles p' = pool_execution_profiles p ∧ kept' = (kept ++ omap pi_id l)%list.
Proof.
  revert p kept. induction l as [|x l IH]; intros p kept Hwf Hl E; simpl in E.
  { injection E as <- <-. by rewrite app_nil_r. }
  apply bind_Ok in E as ([p1 kept1] & Hx & E).
  destruct (Hl x ltac:(by left)) as (row & Hin & Hid & Hex & Hu).
  unfold save_platform in Hx. rewrite Hid, bool_decide_true in Hx by done. simpl in Hx.
  injection Hx as <- <-.
  assert (pool_execution_profiles (link_targets (p_id row) targets (update_profile input x (p_id row) p))
          = pool_execution_profiles p) as E1.
  { unfold link_targets, update_profile. simpl. apply update_where_id. intros a Ha.
    destruct (String.eqb_spec (p_id a) (p_id row)) as [Heq|]; [|done].
    by rewrite (unique_by p_id _ _ _ Hwf Ha Hin Heq), Hu. }
  apply IH in E as [E2 ->]; [|by unfold profiles_wf; rewrite E1|].
  - rewrite E2, E1. split; [done|]. simpl. rewrite Hid. by rewrite <-app_assoc.
  - intros y Hy. rewrite E1. apply Hl. by right.
Qed.

Lemma trimmed_images l seen seen' :
  try_fold check_platform seen l = Ok seen' → ∀ x, x ∈ l → is_empty (trim (pi_image x)) = false.
Proof.
  revert seen. induction l as [|y l IH]; intros seen E x Hx; [by apply elem_of_nil in Hx|].
  simpl in E. apply bind_Ok in E as (seen1 & Ey & E).
  apply elem_of_cons in Hx as [->|Hx]; [|by eapply IH]. unfold check_platform in Ey. by inv_result.
Qed.

(** Stored images are set and trimmed, so they are sent as they are. *)
Lemma again_images p pool s (l : list PlatformInput) :
  (∀ x, x ∈ l → is_empty (trim (pi_image x)) = false) →
  (∀ x, x ∈ fs_platforms s → ∃ y, y ∈ l ∧ shape x = wanted y) →
  with_images p pool (fi_platforms (again s)) = fi_platforms (again s).
Proof.
  intros Himg Hs. unfold with_images. destruct (existsb _ _) eqn:Eu; [|done]. exfalso.
  apply existsb_exists in Eu as (x & (y & <- & Hy)%in_map_iff & Hu).
  destruct (Hs y) as (z & Hz & [= _ _ _ Hi _]); [by apply list_elem_of_In|].
  unfold unset_image in Hu. simpl in Hu. bool_to_prop.
  rewrite Hi, trim_idem in *. by rewrite Himg in *.
Qed.

Lemma again_unchanged input s x y row :
  unchanged input y row = true → shape x = wanted y →
  fs_enabled s = fi_enabled input → fs_placement s = fi_placement input → fs_mode s = fi_mode input →
  fs_cpu_millis s = fi_cpu_millis input → fs_memory_mib s = fi_memory_mib input →
  fs_disk_bytes s = fi_disk_bytes input →
  unchanged (again s) {| pi_id := Some (plat_id x); pi_runtime_kind := plat_runtime_kind x;
                         pi_execution_os := plat_execution_os x; pi_architecture := plat_architecture x;
                         pi_image := plat_image x;
                         pi_requires_docker_socket := plat_requires_docker_socket x |} row = true.
Proof.
  intros Hh%unchanged_columns [= Hk Ho Har Hi Hso] He Hpl Hm Hcpu Hmem Hdisk. rewrite Hh.
  unfold unchanged, written, docker_socket. simpl.
  rewrite He, Hpl, Hm, Hcpu, Hmem, Hdisk, Hk, Ho, Har, Hi, Hso, trim_idem. unfold docker_socket.
  rewrite <-(andb_assoc (pi_requires_docker_socket y)), andb_diag.
  by rewrite !Bool.eqb_reflx, !String.eqb_refl, !Z.eqb_refl.
Qed.

(** Sending the settings a save returned once more changes no profile:
    no revision moves, so runners already waiting for a platform stay valid. *)
Theorem resave_changes_nothing pool input syncs members draws now p s p' syncs' members' draws' now' r p'' :
  profiles_wf p → input_wf input → distinct_ids (fi_platforms input) → fi_platforms input ≠ [] →
  save_pool_fleet pool input syncs members draws now p = (Ok s, p') →
  save_pool_fleet pool (again s) syncs' members' draws' now' p' = (r, p'') →
  pool_execution_profiles p'' = pool_execution_profiles p'.
Proof.
  intros Hwf Hin Hd Hne E E'.
  apply save_pool_fleet_cases in E' as [(e & -> & Ha)|(platforms' & targets' & p3 & Hc' & Ha' & Ht' & _)].
  { by apply adds_targets_profiles in Ha as [? _]. }
  apply save_pool_fleet_cases in E as [(e & ? & _)|(platforms & targets & p2 & Hc & Ha & Ht & Hr)]; [done|].
  assert (∀ x, x ∈ platforms → is_empty (trim (pi_image x)) = false) as Himg.
  { unfold check_settings in Hc. inv_result. by eapply trimmed_images. }
  apply check_settings_Ok in Hc as ->. apply check_settings_Ok in Hc' as ->.
  apply adds_targets_profiles in Ha as [E1 _]. apply adds_targets_profiles in Ha' as [E3 _].
  apply save_transaction_Ok in Ht as [Hwf' (rows & Hp & HF) _ _];
    [|by unfold profiles_wf; rewrite E1|by unfold distinct_ids; rewrite with_images_ids].
  destruct (fleet_read_back p' input pool (with_images p pool (fi_platforms input)) rows)
    as (s' & Es & He & Hpl & Hm & Hcpu & Hmem & Hdisk & _ & Hids & Hrows);
    [done|by rewrite with_images_nil|done..|].
  rewrite Es in Hr. simpl in Hr. injection Hr as <-.
  assert (with_images p' pool (fi_platforms (again s)) = fi_platforms (again s)) as Hw.
  { apply (again_images p' pool s (with_images p pool (fi_platforms input))); [done|].
    intros x Hx. destruct (Hrows x Hx) as (y & _ & ? & _ & _ & _ & ?). by exists y. }
  rewrite Hw in Ht'. unfold save_transaction in Ht'. inv_result. destruct x as [p4 kept].
  assert (∀ row, row ∈ rows → row ∈ pool_execution_profiles p3
            ∧ p_id row ∈ (p_id <$> select (current_of pool) (pool_execution_profiles p3))) as Hcur.
  { intros row Hr. rewrite Hp in Hr. rewrite E3. split; [by apply elem_of_select in Hr as [? _]|].
    by apply list_elem_of_fmap_2. }
  apply save_nothing in Hx as [E4 ->]; [|by unfold profiles_wf; rewrite E3|].
  - simpl. replace (select _ _) with (@nil string); [simpl; congruence|]. symmetry.
    apply elem_of_nil_inv. intros id [Hid Hb]%elem_of_select.
    apply negb_true_iff, bool_decide_eq_false in Hb. apply Hb.
    rewrite E3 in Hid. rewrite <-Hp, <-Hids in Hid. simpl. clear -Hid.
    induction (fs_platforms s) as [|x l IH]; [done|]. rewrite fmap_cons in Hid. simpl.
    apply elem_of_cons in Hid as [->|Hid]; [by left|right; by apply IH].
  - intros x (y & -> & Hy)%list_elem_of_fmap.
    destruct (Hrows y Hy) as (z & row & Hz & Hr & [_ Hh] & Hid & Hsh). exists row.
    destruct (Hcur row Hr). split_and!; [done|by rewrite Hid|done|].
    by apply (again_unchanged input s y z).
Qed.
End saves.


(** ** The identity of targets *)
Section stability.
Context `{UuidText}.

(** Everything that writes targets or profiles. *)
Inductive settings_step (p : Policy) : Policy → Prop :=
| ss_ensure drawn target r p' : ensure_target drawn target p = (r, p') → settings_step p p'
| ss_sync draws r p' : sync_github_targets draws p = (r, p') → settings_step p p'
| ss_members draws pool r p' : pool_targets draws pool p = (r, p') → settings_step p p'
| ss_save pool input syncs members draws now r p' :
    save_pool_fleet pool input syncs members draws now p = (r, p') → settings_step p p'
| ss_link pool target : settings_step p (link_pool_target pool target p)
| ss_delete w pool p' w' : delete_pool p w pool = Ok (p', w', true) → settings_step p p'.

Definition keeps_targets (p p' : Policy) : Prop :=
  ∃ l, fleet_ci_targets p' = (fleet_ci_targets p ++ l)%list ∧ (targets_wf p → targets_wf p').

#[export] Instance keeps_targets_preorder : PreOrder keeps_targets.
Proof.
  split.
  - intros p. exists []. by rewrite app_nil_r.
  - intros p1 p2 p3 (l & E & Hw) (l' & E' & Hw'). exists (l ++ l')%list. rewrite E', E, app_assoc. auto.
Qed.

Lemma adds_keeps p p' : adds_targets p p' → keeps_targets p p'.
Proof. intros [[l ->] Hw]. by exists l. Qed.

Lemma same_keeps p p' : fleet_ci_targets p' = fleet_ci_targets p → keeps_targets p p'.
Proof. intros E. exists []. rewrite app_nil_r, E. split; [done|]. unfold targets_wf. by rewrite E. Qed.

Lemma save_transaction_targets input pool platforms targets draws now p p' :
  save_transaction input pool platforms targets draws now p = Ok p' →
  fleet_ci_targets p' = fleet_ci_targets p.
Proof.
  unfold save_transaction. intros E. inv_result.
  destruct (archive_columns now (select (λ id, negb (bool_decide (id ∈ x.2)))
    (p_id <$> select (current_of pool) (pool_execution_profiles p))) x.1) as (_ & -> & _).
  eapply (try_fold_ind _ (λ s, fleet_ci_targets s.1 = fleet_ci_targets p)); [| |exact Hx]; [|done].
  intros [q kept] y s' _ Hq Hs. unfold save_platform in Hs. inv_result. simpl.
  destruct (match pi_id y with Some _ => _ | None => None end); inv_result; [exact Hq|].
  unfold insert_profile in *. inv_result. exact Hq.
Qed.

Lemma settings_step_keeps p p' : settings_step p p' → keeps_targets p p'.
Proof.
  destruct 1 as [d t r p' E|d r p' E|d q r p' E|q i s m d n r p' E|q t|w q p' w' E].
  - by eapply adds_keeps, additive_ensure.
  - by eapply adds_keeps, additive_sync.
  - by eapply adds_keeps, additive_pool_targets.
  - apply save_pool_fleet_cases in E as [(e & _ & Ha)|(l & ts & p2 & _ & Ha & Ht & _)];
      [by apply adds_keeps|].
    etrans; [by apply adds_keeps|]. by eapply same_keeps, save_transaction_targets.
  - apply same_keeps. unfold link_pool_target. crush_match.
  - apply same_keeps. unfold delete_pool in E. destruct (pool_has_live_workloads w q); [done|].
    inv_result. done.
Qed.

(** A CI target keeps its identifier: whatever is synced, saved, linked
    or deleted in between, asking for two targets gives the same identifier
    exactly when they are the same target. *)
Theorem target_ids_are_stable drawn drawn' t t' p p1 p2 p3 id id' :
  targets_wf p → target_wf t → target_wf t' →
  ensure_target drawn t p = (Ok id, p1) → rtc settings_step p1 p2 →
  ensure_target drawn' t' p2 = (Ok id', p3) →
  id = id' ↔ t = t'.
Proof.
  intros Hwf Ht Ht' E1 Hsteps E2.
  assert (keeps_targets p p3 ∧ keeps_targets p1 p3) as [(_ & _ & Hw) (l & El & _)].
  { assert (keeps_targets p1 p3) as H13.
    { etrans; [|by eapply adds_keeps, additive_ensure].
      clear -Hsteps. induction Hsteps as [|a b c Hs _ IH]; [reflexivity|].
      etrans; [by apply settings_step_keeps|done]. }
    split; [|done]. etrans; [by eapply adds_keeps, additive_ensure|done]. }
  destruct (Hw Hwf) as [Hkeys Hids].
  apply ensure_target_Ok in E1 as (x & Hx & <- & Kx). apply ensure_target_Ok in E2 as (y & Hy & <- & Ky).
  assert (x ∈ fleet_ci_targets p3) as Hx3 by (rewrite El; set_solver).
  split; intros Heq.
  - apply canonical_key_inj; [done..|]. rewrite <-Kx, <-Ky. f_equal.
    by apply (unique_by t_id (fleet_ci_targets p3)).
  - f_equal. apply (unique_by t_canonical_key (fleet_ci_targets p3)); [done..|]. congruence.
Qed.
End stability.

(** ** Concrete runs *)
Module SampleTargets.
Import SampleFleet SampleRun.

Definition draws (n : nat) : Uuid := 300 + Z.of_nat n.

(** The sample's platform kept, and a second one with no image of its own. *)
Definition kept_platform : PlatformInput :=
  {| pi_id := Some (id 40); pi_runtime_kind := Docker; pi_execution_os := Linux;
     pi_architecture := X64; pi_image := " runner:2 "; pi_requires_docker_socket := true |}.
Definition new_platform : PlatformInput :=
  {| pi_id := None; pi_runtime_kind := Docker; pi_execution_os := Linux; pi_architecture := Arm64;
     pi_image := ""; pi_requires_docker_socket := false |}.
Definition input (enabled : bool) (platforms : list PlatformInput) : FleetSettingsInput :=
  {| fi_enabled := enabled; fi_placement := HostFirst; fi_mode := Ephemeral; fi_cpu_millis := 2000;
     fi_memory_mib := 4096; fi_disk_bytes := 0; fi_platforms := platforms |}.

Notation save i p := (save_pool_fleet "pool" i draws draws draws 9000 p).
Definition both : FleetSettingsInput := input true [kept_platform; new_platform].
Definition saved : Policy := (save both policy).2.
Definition settings : FleetSettings :=
  match (save both policy).1 with
  | Ok s => s
  | Err _ => {| fs_enabled := false; fs_placement := Machines; fs_mode := Ephemeral; fs_cpu_millis := 0;
                fs_memory_mib := 0; fs_disk_bytes := 0; fs_platforms := []; fs_target_ids := [] |}
  end.

Lemma save_both : save both policy = (Ok settings, saved).
Proof. by vm_compute. Qed.

Lemma both_wf : input_wf both.
Proof. unfold input_wf, u32_max, u64_max. cbn. lia. Qed.

Lemma policy_wf : profiles_wf policy.
Proof. apply NoDup_singleton. Qed.

Lemma both_distinct : distinct_ids (fi_platforms both).
Proof. apply NoDup_singleton. Qed.

Lemma save_is_all_or_nothing_witness :
  pool_fleet saved "pool" = Ok (Some settings)
  ∧ shape <$> fs_platforms settings
    = [(Docker, Linux, X64, "runner:2", true); (Docker, Linux, Arm64, "runner:latest", false)].
Proof.
  split; [|by vm_compute].
  by apply (save_is_all_or_nothing "pool" both draws draws draws 9000 policy (Ok settings) saved
              policy_wf both_wf both_distinct ltac:(done) save_both).
Defined.

Lemma resave_changes_nothing_witness :
  pool_execution_profiles (save (again settings) saved).2 = pool_execution_profiles saved
  ∧ p_revision <$> pool_execution_profiles saved = [4; 1].
Proof.
  split; [|by vm_compute].
  apply (resave_changes_nothing "pool" both draws draws draws 9000 policy settings saved draws draws draws 9000
           (save (again settings) saved).1);
    [exact policy_wf|exact both_wf|exact both_distinct|done|exact save_both|].
  by destruct (save (again settings) saved).
Defined.


Definition repository : CiTarget := GithubRepository 11 12.
Definition organization : CiTarget := GithubOrganization 11 13.

Lemma target_ids_are_stable_witness :
  (id 30 = to_string 301 ↔ repository = organization)
  ∧ (ensure_target 400 organization saved).1 = Ok (to_string 301).
Proof.
  split; [|by vm_compute].
  apply (target_ids_are_stable 400 400 repository organization policy policy saved saved).
  - split; apply NoDup_singleton.
  - cbn. unfold i64_max. lia.
  - cbn. unfold i64_max. lia.
  - by vm_compute.
  - apply rtc_once. by eapply ss_save, save_both.
  - by vm_compute.
Defined.

(** Saving disabled settings without any platform archives the pool's
    platforms and commits, and then reports an internal error: the settings
    it reads back are gone. *)
Theorem emptied_settings_reported_as_failure :
  (save (input false []) policy).1 = Err (Invariant "saved fleet settings")
  ∧ select (current_of "pool") (pool_execution_profiles policy) = [profile false]
  ∧ select (current_of "pool") (pool_execution_profiles (save (input false []) policy).2) = []
  ∧ p_revision <$> pool_execution_profiles (save (input false []) policy).2 = [4].
Proof. split_and!; by vm_compute. Qed.
End SampleTargets.
