(* ===== verification/Platforms.v ===== *)
(** * The platform of a pool's next runner
    ([crates/gridops-core/src/fleet/targets.rs], from [platform_supports_labels]
    and [pool_blocked_hosts] on).

    [Room] is what is left on the machines, counted down while queued jobs are
    attributed to the platforms of a pool, and [choose_platform] picks the
    platform that is furthest behind.  The maps of [Room] are finite maps on
    pairs of host and domain. *)
From S2P Require Import Prelude Base64 Ids Domain Protocol Outcomes Capabilities Inventory Crypto Store.
From S2P Require Import Service Admission Autoscaling Targets.
#[local] Open Scope string_scope.
#[local] Open Scope Z_scope.

Definition platform_supports_labels (execution_os : ExecutionOs) (architecture : Architecture)
    (requested configured : list string) : bool :=
  forallb (λ label,
    eq_ignore_ascii_case label "self-hosted" || eq_ignore_ascii_case label (os_name execution_os)
    || eq_ignore_ascii_case label (arch_name architecture)
    || (negb (is_runner_system_label label)
        && existsb (λ item, eq_ignore_ascii_case item label) configured)) requested.

(** A host and one of its resource domains. *)
Notation Key := (string * string)%type.

(** ** Machines *)
Definition later (t : option Z) (bound : Z) : bool :=
  match t with Some t => bound <? t | None => false end.

Section queries.
Context (p : Policy) (w : Work).

(** [authorized_backends!]. *)
Definition authorized_backends (profile : string) (now : Z) : list (string * string) :=
  x ← select (λ x, String.eqb (p_id x) profile) (pool_execution_profiles p);
  b ← select (λ b, String.eqb (b_runtime_kind b) (p_runtime_kind x)
                   && String.eqb (b_execution_os b) (p_execution_os x)
                   && String.eqb (b_architecture b) (p_architecture x)
                   && b_enabled b && bool_decide (b_readiness b = BackendReady)) (host_backends p);
  h ← select (λ h, String.eqb (h_id h) (b_host_id b)
                   && bool_decide (h_enrollment_state h = EnrApproved)
                   && bool_decide (h_lifecycle_state h = IntActive)
                   && bool_decide (h_integrity_state h = Verified)
                   && bool_decide (h_pressure_state h = PressureNormal)
                   && later (h_last_heartbeat_at h) (now - 45000)
                   && later (h_authority_expires_at h) now) (fleet_hosts p);
  pt ← select (λ pt, String.eqb (pct_profile_id pt) (p_id x) && pct_enabled pt
                     && is_null (pct_revoked_at pt)) (profile_ci_targets p);
  _ ← select (λ g, String.eqb (g_host_id g) (h_id h) && String.eqb (g_target_id g) (pct_target_id pt)
                   && g_allow_schedule g && is_null (g_revoked_at g)
                   && (negb (String.eqb (p_runtime_kind x) "native_process") || g_allow_native g))
        (host_target_grants p);
  [(b_host_id b, b_domain_id b)].

Definition machine_available (profile : string) (now : Z) : bool :=
  negb (bool_decide (authorized_backends profile now = [])).

Definition machines_available (profiles : list Profile) (now : Z) : list bool :=
  (λ x, machine_available (pf_id x) now) <$> profiles.

Definition machine_ready (pool profile : string) (now : Z) : bool :=
  negb (exists_row (λ i, String.eqb (i_pool_id i) pool && String.eqb (i_profile_id i) profile
                         && bool_decide (i_status i = IntentQueued)) (workload_intents w))
  && machine_available profile now.

(** A row of [pool_runners]. *)
Record PoolRunner := { pr_profile_id : string; pr_repository : option Z; pr_busy : bool }.

Definition pool_runners (pool : string) : list PoolRunner :=
  x ← select (active_runner pool) (runners p);
  i ← select (λ i, String.eqb (i_workload_id i) (rn_id x)) (workload_intents w);
  [{| pr_profile_id := i_profile_id i; pr_repository := rn_target_repository_id x;
      pr_busy := rn_busy x |}].

(** ** Room *)
(** [[i64; 3]]: CPU, memory and disk. *)
Record Axes := { ax_cpu : Z; ax_memory : Z; ax_disk : Z }.

Record Room := {
  room_free : gmap Key Axes; room_parents : gmap Key (option string);
  room_backends : list (list Key); room_request : list Axes }.
#[export] Instance Room_fields : Fields Room := λ r,
  {| room_free := room_free r; room_parents := room_parents r; room_backends := room_backends r;
     room_request := room_request r |}.

Definition axes_sub (a b : Axes) : Axes :=
  {| ax_cpu := ax_cpu a - ax_cpu b; ax_memory := ax_memory a - ax_memory b;
     ax_disk := ax_disk a - ax_disk b |}.

(** What the domain's allocations leave of it. *)
Definition left_over (d : DomainRow) : Axes :=
  let live := select (live_on (d_id d) (d_host_id d)) (capacity_allocations w) in
  {| ax_cpu := d_cpu_millis d - sum_rows a_cpu_millis live;
     ax_memory := d_memory_mib d - sum_rows a_memory_mib live;
     ax_disk := d_disk_bytes d - sum_rows a_disk_bytes live |}.

Definition domain_key (d : DomainRow) : Key := (d_host_id d, d_id d).

Definition load_domain (r : Room) (d : DomainRow) : Room :=
  r <| room_free ::= <[domain_key d := left_over d]> |>
    <| room_parents ::= <[domain_key d := d_parent_domain_id d]> |>.

Definition profile_request (x : Profile) : Axes :=
  {| ax_cpu := in_cpu_millis (pf_input x); ax_memory := in_memory_mib (pf_input x);
     ax_disk := if in_disk_bytes (pf_input x) <=? i64_max then in_disk_bytes (pf_input x)
                else i64_max |}.

Definition Room_load (profiles : list Profile) (now : Z) : Room :=
  fold_left load_domain (host_resource_domains p)
    {| room_free := ∅; room_parents := ∅;
       room_backends := (λ x, remove_dups (authorized_backends (pf_id x) now)) <$> profiles;
       room_request := profile_request <$> profiles |}.
End queries.

(** The [while let] loop of [path]: [None] when [fuel] turns are not enough. *)
Fixpoint path_loop (fuel : nat) (parents : gmap Key (option string)) (host : string)
    (path : list Key) (next : option string) : option (list Key) :=
  match next with
  | None => Some path
  | Some domain =>
      match fuel with
      | O => None
      | S fuel =>
          let key := (host, domain) in
          if bool_decide (key ∈ path) then Some path
          else path_loop fuel parents host (path ++ [key])%list (default None (parents !! key))
      end
  end.

Definition Room_path (r : Room) (backend : Key) : list Key :=
  default [] (path_loop (2 + size (room_parents r)) (room_parents r) backend.1 [] (Some backend.2)).

Definition axis_fits (free request : Z) : Z :=
  if request >? 0 then Z.max free 0 / request else if 0 <=? free then i64_max else 0.

Definition axes_fit (free request : Axes) : Z :=
  Z.min (axis_fits (ax_cpu free) (ax_cpu request))
    (Z.min (axis_fits (ax_memory free) (ax_memory request))
       (axis_fits (ax_disk free) (ax_disk request))).

Definition no_axes : Axes := {| ax_cpu := 0; ax_memory := 0; ax_disk := 0 |}.

Definition request_of (r : Room) (index : nat) : Axes := default no_axes (room_request r !! index).
Definition backends_of (r : Room) (index : nat) : list Key := default [] (room_backends r !! index).

Definition Room_fits (r : Room) (index : nat) (backend : Key) : Z :=
  default 0 (min_over
    ((λ domain, axes_fit (default no_axes (room_free r !! domain)) (request_of r index))
     <$> Room_path r backend)).

Definition Room_slots (r : Room) (index : nat) : Z :=
  fold_left (λ total backend, i64_saturating_add total (Room_fits r index backend))
    (backends_of r index) 0.

Definition spend (request : Axes) (m : gmap Key Axes) (domain : Key) : gmap Key Axes :=
  match m !! domain with
  | Some a => <[domain := axes_sub a request]> m
  | None => m
  end.

Definition Room_take (r : Room) (index : nat) : Room :=
  match max_by (λ a b, Room_fits r index a <=? Room_fits r index b)
          (select (λ backend, Room_fits r index backend >? 0) (backends_of r index)) with
  | None => r
  | Some backend =>
      r <| room_free ::= (λ m, fold_left (spend (request_of r index)) (Room_path r backend) m) |>
  end.

(** ** Attribution of the queued jobs *)

(** [Iterator::position] and [Vec::swap_remove]. *)
Fixpoint position {A} (q : A → bool) (l : list A) : option nat :=
  match l with
  | [] => None
  | a :: l => if q a then Some O else S <$> position q l
  end.

Definition swap_remove {A} (at_ : nat) (l : list A) : list A :=
  match last l with
  | Some z => removelast (<[at_ := z]> l)
  | None => l
  end.

Section attribution.
Context (profiles : list Profile) (available : list bool).

(** The platforms a job can run on, by index. *)
Definition supporting (configured : list string) (job : QueuedJob) : list nat :=
  select (λ index, match profiles !! index with
                   | Some x => platform_supports_labels (in_execution_os (pf_input x))
                                 (in_architecture (pf_input x)) (qj_labels job) configured
                   | None => false
                   end) (seq 0 (length profiles)).

Definition spare_runners (runners : list PoolRunner) : list (list (option Z)) :=
  (λ x, pr_repository <$> select (λ row, String.eqb (pr_profile_id row) (pf_id x)
                                         && negb (pr_busy row)) runners) <$> profiles.

(** A runner that takes any repository, or the job's. *)
Definition takes (job : QueuedJob) (repository : option Z) : bool :=
  match repository with Some id => id =? qj_repository_id job | None => true end.

Definition cover (spare : list (list (option Z))) (job : QueuedJob) (index : nat)
    : option nat := position (takes job) (default [] (spare !! index)).

(** The first platform with a spare runner for the job. *)
Definition covered (spare : list (list (option Z))) (platforms : list nat) (job : QueuedJob)
    : option nat := fetch (λ index, not_null (cover spare job index)) platforms.

Definition use_spare (spare : list (list (option Z))) (job : QueuedJob) (index : nat)
    : list (list (option Z)) :=
  match cover spare job index with
  | Some at_ => <[index := swap_remove at_ (default [] (spare !! index))]> spare
  | None => spare
  end.

(** [max_by_key] with the key [(slots, Reverse(index))]. *)
Definition roomier (r : Room) (a b : nat) : bool :=
  lex_le (Room_slots r) (λ a b, Nat.leb b a) a b.

Definition is_available (index : nat) : bool := default false (available !! index).

Definition or_else {A} (a b : option A) : option A := match a with Some x => Some x | None => b end.

Definition placed_on (r : Room) (platforms : list nat) : option nat :=
  match platforms with
  | [only] => Some only
  | _ => or_else (max_by (roomier r) (select (λ index, Room_slots r index >? 0) platforms))
           (or_else (fetch is_available platforms) (head platforms))
  end.

Record Attribution := {
  at_room : Room; at_spare : list (list (option Z)); at_jobs : list (QueuedJob * nat) }.

(** One turn of the loop over the jobs. *)
Definition attribute_job (s : Attribution) (job : list nat * QueuedJob) : Attribution :=
  match covered (at_spare s) job.1 job.2 with
  | Some index =>
      {| at_room := at_room s; at_spare := use_spare (at_spare s) job.2 index;
         at_jobs := (at_jobs s ++ [(job.2, index)])%list |}
  | None =>
      match placed_on (at_room s) job.1 with
      | Some index =>
          {| at_room := Room_take (at_room s) index; at_spare := at_spare s;
             at_jobs := (at_jobs s ++ [(job.2, index)])%list |}
      | None => s
      end
  end.

Definition several (job : list nat * QueuedJob) : Z := if (length job.1 <=? 1)%nat then 0 else 1.

Definition attribute_jobs (r : Room) (spare : list (list (option Z))) (configured : list string)
    (jobs : list QueuedJob) : Attribution :=
  fold_left attribute_job
    (order_by (λ a b, several a <=? several b) ((λ job, (supporting configured job, job)) <$> jobs))
    {| at_room := r; at_spare := spare; at_jobs := [] |}.

(** The runners that wait for a machine take their room first. *)
Definition take_waiting (r : Room) (profile : string) : Room :=
  match position (λ x, String.eqb (pf_id x) profile) profiles with
  | Some index => Room_take r index
  | None => r
  end.
End attribution.

Section platform.
Context (arch : string) (p : Policy) (w : Work).

Definition attribute_queued_jobs (pool : string) (configured : list string) (profiles : list Profile)
    (available : list bool) (runners : list PoolRunner) (now : Z)
    : list (QueuedJob * nat) * Room :=
  let waiting := i_profile_id <$> select (λ i, String.eqb (i_pool_id i) pool
                                    && bool_decide (i_status i = IntentQueued)) (workload_intents w) in
  let room := fold_left (take_waiting profiles) waiting (Room_load p w profiles now) in
  let s := attribute_jobs profiles available room (spare_runners profiles runners) configured
             (queued_job_assignments arch p pool now) in
  (at_jobs s, at_room s).

Definition platform_jobs (pool : string) (configured : list string) (profiles : list Profile)
    (profile : string) (now : Z) : list QueuedJob :=
  let platform := position (λ x, String.eqb (pf_id x) profile) profiles in
  fst <$> select (λ job, bool_decide (Some job.2 = platform))
    (attribute_queued_jobs pool configured profiles (machines_available p profiles now)
       (pool_runners p w pool) now).1.

(** ** The choice *)
Section choice.
Context (factor : Z) (profiles : list Profile) (rows : list PoolRunner)
  (jobs : list (QueuedJob * nat)).

Definition of_platform (index : nat) (row : PoolRunner) : bool :=
  match profiles !! index with
  | Some x => String.eqb (pr_profile_id row) (pf_id x)
  | None => false
  end.

Definition queued_on (index : nat) : list QueuedJob :=
  fst <$> select (λ job, (job.2 =? index)%nat) jobs.

Definition waits_on (index : nat) (repository : Z) : bool :=
  existsb (λ job, qj_repository_id job =? repository) (queued_on index).

(** A runner on a job, or one that can take a queued one. *)
Definition useful (index : nat) (row : PoolRunner) : bool :=
  pr_busy row || match pr_repository row with
                 | Some repository => waits_on index repository
                 | None => true
                 end.

Definition platform_deficit (index : nat) : Z :=
  let mine := select (λ row, of_platform index row && useful index row) rows in
  i64_saturating_sub
    (i64_saturating_add (count_rows pr_busy mine)
       (i64_saturating_mul (Z.of_nat (length (queued_on index))) factor))
    (Z.of_nat (length mine)).

(** [prioritised[index]]: per repository the prioritised jobs and the oldest. *)
Definition count_prioritised (m : gmap Z (Z * Z)) (job : QueuedJob) : gmap Z (Z * Z) :=
  if qj_prioritised job then
    let '(count, since) := default (0, qj_queued_at job) (m !! qj_repository_id job) in
    <[qj_repository_id job := (count + 1, Z.min since (qj_queued_at job))]> m
  else m.

Definition prioritised_on (index : nat) : gmap Z (Z * Z) :=
  fold_left count_prioritised (queued_on index) ∅.

Definition idle_for (index : nat) (repository : Z) : Z :=
  count_rows (λ row, of_platform index row && negb (pr_busy row)
                     && bool_decide (pr_repository row = Some repository)) rows.

Definition unmet_on (index : nat) : option Z :=
  min_over ((λ e : Z * (Z * Z), e.2.2) <$>
    select (λ e, i64_saturating_mul e.2.1 factor >? idle_for index e.1)
      (map_to_list (prioritised_on index))).

(** [(since, index)] in order, the first of them. *)
Definition most_urgent : option nat :=
  snd <$> head (order_by (lex_le fst (λ a b : Z * nat, Nat.leb a.2 b.2))
                  (omap (λ index, (λ since, (since, index)) <$> unmet_on index)
                     (seq 0 (length profiles)))).

Definition furthest_behind : option nat :=
  max_by (lex_le platform_deficit (λ a b, Nat.leb b a))
    (select (λ index, platform_deficit index >? 0) (seq 0 (length profiles))).

Definition idle_choice (room : Room) (available : list bool) : option nat :=
  or_else (fetch (λ index, Room_slots room index >? 0) (seq 0 (length profiles)))
    (or_else (fetch (is_available available) (seq 0 (length profiles)))
       (if bool_decide (profiles = []) then None else Some O)).

Definition choice (room : Room) (available : list bool) : option (nat * bool) :=
  or_else ((λ index, (index, true)) <$> or_else most_urgent furthest_behind)
    ((λ index, (index, false)) <$> idle_choice room available).
End choice.

Definition choose_platform (pool : string) (configured : list string) (factor : Z)
    (profiles : list Profile) (now : Z) : option (Profile * bool) :=
  let available := machines_available p profiles now in
  let rows := pool_runners p w pool in
  let '(jobs, room) := attribute_queued_jobs pool configured profiles available rows now in
  chosen ← choice factor profiles rows jobs room available;
  x ← profiles !! chosen.1;
  Some (x, chosen.2).
End platform.
