(* ===== verification/PlatformsSpec.v ===== *)
(** * Platforms: theorems

    The walk over the ancestors of a domain ends, the room it counts agrees
    with what admission would accept, attributing jobs never books more than
    there is, every job a platform can run is attributed once, and the choice
    is the platform furthest behind. *)
From S2P Require Import Prelude Base64 Ids Domain Protocol Outcomes Capabilities Inventory Crypto Store.
From S2P Require Import Service Admission AdmissionSpec Deletion Commands Placement Evolution Fleet.
From S2P Require Import Autoscaling AutoscalingSpec Targets Platforms.
#[local] Open Scope string_scope.
#[local] Open Scope Z_scope.

(** ** The walk to the root *)
Lemma path_loop_ends fuel parents host path next :
  NoDup path → (∀ key, key ∈ path → key ∈ dom parents) → (size parents < length path + fuel)%nat →
  is_Some (path_loop fuel parents host path next).
Proof.
  revert path next. induction fuel as [|fuel IH]; intros path [domain|] Hnd Hsub Hlen; simpl; try by eexists.
  - exfalso. assert (size (list_to_set path : gset Key) ≤ size (dom parents))%nat as Hle.
    { apply subseteq_size. intros key Hk. apply Hsub. by apply elem_of_list_to_set in Hk. }
    rewrite size_list_to_set, size_dom in Hle by done. lia.
  - destruct (bool_decide _) eqn:Eb; [by eexists|]. apply bool_decide_eq_false in Eb.
    destruct (parents !! (host, domain)) as [[next|]|] eqn:E; simpl; [|by destruct fuel; eexists..].
    apply IH.
    + apply NoDup_app. split; [done|]. split; [set_solver|apply NoDup_singleton].
    + intros key [?| ->%list_elem_of_singleton]%elem_of_app; [auto|]. apply elem_of_dom. by eexists.
    + rewrite length_app. simpl. lia.
Qed.

(** More turns change nothing. *)
Lemma path_loop_more fuel fuel' parents host path next l :
  path_loop fuel parents host path next = Some l → (fuel ≤ fuel')%nat →
  path_loop fuel' parents host path next = Some l.
Proof.
  revert fuel' path next. induction fuel as [|fuel IH]; intros fuel' path [domain|]; simpl; try done.
  - by destruct fuel'.
  - intros E Hle. destruct fuel' as [|fuel']; [lia|]. simpl.
    destruct (bool_decide _); [done|]. apply IH; [done|lia].
  - by destruct fuel'.
Qed.

Lemma Room_path_loop r backend fuel :
  (2 + size (room_parents r) ≤ fuel)%nat →
  path_loop fuel (room_parents r) backend.1 [] (Some backend.2) = Some (Room_path r backend).
Proof.
  intros Hle. unfold Room_path.
  destruct (path_loop_ends (2 + size (room_parents r)) (room_parents r) backend.1 [] (Some backend.2))
    as [l E]; [constructor|set_solver|simpl; lia|].
  rewrite E. simpl. by eapply path_loop_more.
Qed.

(** C39: the walk from a domain over its ancestors ends whatever the parents
    are, also in a cycle: as many turns as there are domains, and two, are
    enough, and more turns give the same path. *)
Theorem path_terminates (r : Room) (backend : Key) (fuel : nat) :
  (2 + size (room_parents r) ≤ fuel)%nat →
  path_loop fuel (room_parents r) backend.1 [] (Some backend.2) = Some (Room_path r backend).
Proof. apply Room_path_loop. Qed.

Lemma path_loop_NoDup fuel parents host path next l :
  NoDup path → path_loop fuel parents host path next = Some l → NoDup l.
Proof.
  revert path next. induction fuel as [|fuel IH]; intros path [domain|] Hnd; simpl; try naive_solver.
  destruct (bool_decide _) eqn:Eb; [naive_solver|]. apply bool_decide_eq_false in Eb. apply IH.
  apply NoDup_app. split; [done|]. split; [set_solver|apply NoDup_singleton].
Qed.

Lemma Room_path_NoDup r backend : NoDup (Room_path r backend).
Proof.
  unfold Room_path. destruct (path_loop _ _ _ _ _) as [l|] eqn:E; simpl; [|constructor].
  eapply path_loop_NoDup; [|exact E]. constructor.
Qed.

(** On a chain of parents the walk is that chain. *)
Lemma path_loop_chain fuel parents host path next ds :
  chain next ds → (∀ d, d ∈ ds → parents !! (host, d_id d) = Some (d_parent_domain_id d)) →
  NoDup (path ++ ((λ d, (host, d_id d)) <$> ds)) → (length ds ≤ fuel)%nat →
  path_loop fuel parents host path next = Some (path ++ ((λ d, (host, d_id d)) <$> ds))%list.
Proof.
  intros Hc. revert fuel path. induction Hc as [|id d ds <- Hc IH]; intros fuel path Hp Hnd Hlen.
  - rewrite app_nil_r. by destruct fuel.
  - destruct fuel as [|fuel]; cbn [path_loop length] in *; [lia|].
    rewrite fmap_cons in *. rewrite bool_decide_false.
    2: { apply NoDup_app in Hnd as (_ & Hd & _). intros Hin. apply (Hd _ Hin). by left. }
    rewrite (Hp d) by by left. simpl.
    replace (path ++ (host, d_id d) :: ((λ d, (host, d_id d)) <$> ds))%list
      with ((path ++ [(host, d_id d)]) ++ ((λ d, (host, d_id d)) <$> ds))%list in * by by rewrite <-app_assoc.
    apply IH; [|done|lia]. intros e He. apply Hp. by right.
Qed.

(** ** Loading *)
Section load.
Context (p : Policy) (w : Work) (profiles : list Profile) (now : Z).
Notation room := (Room_load p w profiles now).

Lemma load_columns l r :
  room_backends (fold_left (load_domain w) l r) = room_backends r
  ∧ room_request (fold_left (load_domain w) l r) = room_request r.
Proof. revert r. induction l as [|d l IH]; intros r; simpl; [done|]. by destruct (IH (load_domain w r d)) as [-> ->]. Qed.

Lemma load_lookup l r d :
  NoDup (domain_key <$> l) → d ∈ l →
  room_free (fold_left (load_domain w) l r) !! domain_key d = Some (left_over w d)
  ∧ room_parents (fold_left (load_domain w) l r) !! domain_key d = Some (d_parent_domain_id d).
Proof.
  induction l as [|e l IH] using rev_ind; [by intros _ ?%elem_of_nil|].
  rewrite fmap_app, fold_left_app. intros (Hnd & Hne & _)%NoDup_app [Hd| ->%list_elem_of_singleton]%elem_of_app;
    simpl; [|by rewrite !lookup_insert_eq].
  assert (domain_key d ≠ domain_key e) as Hk.
  { intros Hk. apply (Hne (domain_key d)); [by apply list_elem_of_fmap_2|]. rewrite Hk. by left. }
  rewrite !lookup_insert_ne by done. by apply IH.
Qed.

Lemma load_from l r key a :
  room_free (fold_left (load_domain w) l r) !! key = Some a →
  (∃ d, d ∈ l ∧ domain_key d = key ∧ a = left_over w d) ∨ room_free r !! key = Some a.
Proof.
  induction l as [|e l IH] using rev_ind; [by right|]. rewrite fold_left_app. simpl.
  intros [[<- <-]|[_ E]]%lookup_insert_Some; [left; exists e; set_solver|].
  destruct (IH E) as [(d & ? & ? & ?)|]; [left; exists d; set_solver|by right].
Qed.

Hypothesis Hids : NoDup (d_id <$> host_resource_domains p).

Lemma keys_unique : NoDup (domain_key <$> host_resource_domains p).
Proof.
  apply (NoDup_fmap_1 snd). rewrite <-list_fmap_compose. exact Hids.
Qed.

Lemma room_lookup d :
  d ∈ host_resource_domains p →
  room_free room !! domain_key d = Some (left_over w d)
  ∧ room_parents room !! domain_key d = Some (d_parent_domain_id d).
Proof. apply load_lookup, keys_unique. Qed.

(** The path that admission walks. *)
Lemma room_path leaf host ds :
  domain_path p leaf host = Ok ds → Room_path room (host, leaf) = (λ d, (host, d_id d)) <$> ds.
Proof.
  intros (Hc & Hrows & _ & Hnd)%domain_path_Ok. rewrite Forall_forall in Hrows.
  assert (∀ d, d ∈ ds → room_parents room !! (host, d_id d) = Some (d_parent_domain_id d)) as Hp.
  { intros d [Hin <-]%Hrows%domain_row_spec. by apply room_lookup. }
  assert (NoDup ((λ d, (host, d_id d)) <$> ds)) as Hk.
  { apply (NoDup_fmap_1 snd). rewrite <-list_fmap_compose. exact Hnd. }
  pose proof (path_loop_chain (2 + size (room_parents room) + length ds) (room_parents room) host []
                (Some leaf) ds Hc Hp Hk ltac:(lia)) as E.
  rewrite (Room_path_loop room (host, leaf)) in E by lia. by injection E.
Qed.
End load.

(** ** Room and admission *)
Lemma min_over_le l m : min_over l = Some m → m ∈ l ∧ ∀ x, x ∈ l → m ≤ x.
Proof.
  destruct l as [|a l]; simpl; [done|]. intros [= <-]. revert a.
  induction l as [|b l IH]; intros a; simpl; [set_solver by lia|].
  destruct (IH (Z.min a b)) as [Hin Hle]. split.
  - apply elem_of_cons in Hin as [->|Hin]; [|set_solver]. destruct (Z.min_spec a b) as [[_ ->]|[_ ->]]; set_solver.
  - intros x [->|[->|Hx]%elem_of_cons]%elem_of_cons.
    + etrans; [apply Hle; by left|lia].
    + etrans; [apply Hle; by left|lia].
    + apply Hle. by right.
Qed.

Lemma min_over_pos l : 0 < default 0 (min_over l) ↔ l ≠ [] ∧ ∀ x, x ∈ l → 0 < x.
Proof.
  destruct (min_over l) as [m|] eqn:E; simpl.
  - apply min_over_le in E as [Hin Hle]. split; [|intros [_ H]; by apply H].
    intros Hm. split; [by intros ->; apply elem_of_nil in Hin|]. intros x Hx. specialize (Hle x Hx). lia.
  - destruct l; [|done]. split; [lia|by intros [? _]].
Qed.

Lemma axis_fits_pos free request :
  0 ≤ request → 0 < axis_fits free request ↔ request ≤ free.
Proof.
  intros Hr. unfold axis_fits. destruct (Z.gtb_spec request 0).
  - split.
    + intros Hd. destruct (Z.le_gt_cases request free); [done|].
      rewrite Z.div_small in Hd; lia.
    + intros Hle. rewrite Z.max_l by lia. apply Z.div_str_pos. lia.
  - destruct (Z.leb_spec 0 free); unfold i64_max; lia.
Qed.

Definition axes_of (a : ResourceAmount) : Axes :=
  {| ax_cpu := ra_cpu_millis a; ax_memory := ra_memory_mib a; ax_disk := ra_disk_bytes a |}.

Lemma axes_fit_pos free request :
  amount_wf request →
  0 < axes_fit free (axes_of request) ↔
  ra_cpu_millis request ≤ ax_cpu free ∧ ra_memory_mib request ≤ ax_memory free
  ∧ ra_disk_bytes request ≤ ax_disk free.
Proof.
  intros (? & ? & ?). unfold axes_fit. rewrite !Z.min_glb_lt_iff. simpl.
  rewrite !axis_fits_pos by lia. done.
Qed.

Lemma amount_from_db_wf neg bounds a :
  amount_wf a →
  amount_from_db neg bounds (ra_cpu_millis a) (ra_memory_mib a) (ra_disk_bytes a) = Ok a.
Proof.
  intros (? & ? & ?). unfold amount_from_db, u64_try_from, invariant_err.
  rewrite !(proj2 (Z.leb_le _ _)) by lia. simpl.
  rewrite (proj2 (ResourceAmount_new_Ok _ _ _ a)); [done|]. split; [by destruct a|lia].
Qed.

Lemma part_wf b l :
  Forall (λ a, amount_wf (charge a)) l → amount_wf (amount_plus b (total l)) →
  0 ≤ ra_cpu_millis b → 0 ≤ ra_memory_mib b → 0 ≤ ra_disk_bytes b → amount_wf b.
Proof.
  rewrite Forall_forall. intros Hl Hb ? ? ?.
  assert (0 ≤ sum_rows a_cpu_millis l ∧ 0 ≤ sum_rows a_memory_mib l ∧ 0 ≤ sum_rows a_disk_bytes l)
    as (? & ? & ?).
  { split_and!; apply sum_rows_nonneg; intros x Hx; destruct (Hl x Hx) as (? & ? & ?); simpl in *; lia. }
  revert Hb. unfold amount_wf, amount_plus, total. simpl. lia.
Qed.

(** Sums that stay in range are computed. *)
Lemma add_allocations_total l z :
  amount_wf z → Forall (λ a, amount_wf (charge a)) l → amount_wf (amount_plus z (total l)) →
  try_fold add_allocation z l = Ok (amount_plus z (total l)).
Proof.
  intros Hz Hl. revert z Hz. induction Hl as [|a l Ha Hl IH]; intros z Hz Ht; simpl.
  - by rewrite amount_plus_zero_r.
  - rewrite total_cons, amount_plus_assoc in *.
    assert (amount_wf (amount_plus z (charge a))) as Hza.
    { eapply part_wf; [exact Hl|exact Ht| | |]; revert Hz Ha; unfold amount_wf, amount_plus; simpl; lia. }
    rewrite <-IH by done. unfold add_allocation at 1. rewrite (amount_from_db_wf _ _ (charge a) Ha). simpl.
    unfold invariant_err. by rewrite (proj2 (checked_add_amount_Ok _ _ _ Hz Ha) (conj eq_refl Hza)).
Qed.

(** A domain takes the request exactly when its charges leave that much. *)
Lemma domain_fits_iff w host r d :
  Forall (λ a, amount_wf (charge a)) (capacity_allocations w) → amount_wf (budget d) → amount_wf r →
  domain_fits w host r d = Ok None ↔ amount_le (amount_plus (usage w (d_id d) host) r) (budget d).
Proof.
  intros Hl Hb Hr. split; [apply domain_fits_None|]. intros Hle.
  set (live := select (live_on (d_id d) host) (capacity_allocations w)).
  assert (Forall (λ a, amount_wf (charge a)) live) as Hlive.
  { rewrite Forall_forall in *. intros a [Ha _]%elem_of_select. by apply Hl. }
  assert (amount_wf (total live)) as Hu.
  { assert (0 ≤ sum_rows a_cpu_millis live ∧ 0 ≤ sum_rows a_memory_mib live
            ∧ 0 ≤ sum_rows a_disk_bytes live) as (? & ? & ?).
    { rewrite Forall_forall in Hlive.
      split_and!; apply sum_rows_nonneg; intros x Hx; destruct (Hlive x Hx) as (? & ? & ?); simpl in *; lia. }
    revert Hle Hb Hr. unfold usage. fold live. unfold amount_le, amount_wf, amount_plus, total. simpl. lia. }
  unfold domain_fits. fold live.
  rewrite add_allocations_total by (auto with fleet; by rewrite amount_plus_zero_l).
  rewrite amount_plus_zero_l. simpl.
  rewrite (amount_from_db_wf _ _ (budget d) Hb). simpl.
  set (rest := {| ra_cpu_millis := d_cpu_millis d - sum_rows a_cpu_millis live;
                  ra_memory_mib := d_memory_mib d - sum_rows a_memory_mib live;
                  ra_disk_bytes := d_disk_bytes d - sum_rows a_disk_bytes live |}).
  revert Hle. unfold usage. fold live. intros Hle.
  rewrite (proj2 (checked_sub_amount_Ok (budget d) (total live) rest Hb Hu)).
  - rewrite (proj2 (fits_request_true rest r)); [done|].
    revert Hle. unfold amount_le, amount_plus, total, rest. simpl. lia.
  - split; [unfold amount_plus, budget, rest, total; simpl; f_equal; lia|].
    revert Hle Hb Hr Hu. unfold amount_le, amount_wf, amount_plus, total, rest. simpl. lia.
Qed.

Lemma domains_fit_loop_iff w host r path :
  Forall (λ a, amount_wf (charge a)) (capacity_allocations w) →
  Forall (λ d, amount_wf (budget d)) path → amount_wf r →
  domains_fit_loop w host r path = Ok None
  ↔ Forall (λ d, amount_le (amount_plus (usage w (d_id d) host) r) (budget d)) path.
Proof.
  intros Hl Hp Hr. split; [apply domains_fit_loop_None|].
  induction 1 as [|d path Hd _ IH]; simpl; [done|]. apply Forall_cons in Hp as [Hb Hp].
  rewrite (proj2 (domain_fits_iff w host r d Hl Hb Hr) Hd). simpl. by apply IH.
Qed.

(** Every amount in the database is a 64-bit integer and not negative. *)
Definition amounts_wf (p : Policy) (w : Work) : Prop :=
  Forall (λ a, amount_wf (charge a)) (capacity_allocations w)
  ∧ Forall (λ d, amount_wf (budget d)) (host_resource_domains p).

Lemma Room_fits_iff p w profiles now index r host leaf path :
  NoDup (d_id <$> host_resource_domains p) →
  profile_request <$> profiles !! index = Some (axes_of r) → amount_wf r →
  domain_path p leaf host = Ok path →
  0 < Room_fits (Room_load p w profiles now) index (host, leaf)
  ↔ Forall (λ d, amount_le (amount_plus (usage w (d_id d) host) r) (budget d)) path.
Proof.
  intros Hids Hx Hr Hpath. unfold Room_fits. rewrite min_over_pos.
  rewrite (room_path p w profiles now Hids leaf host path Hpath), Forall_forall.
  assert (request_of (Room_load p w profiles now) index = axes_of r) as ->.
  { unfold request_of, Room_load. destruct (load_columns w (host_resource_domains p)
      {| room_free := ∅; room_parents := ∅;
         room_backends := (λ x, remove_dups (authorized_backends p (pf_id x) now)) <$> profiles;
         room_request := profile_request <$> profiles |}) as [_ ->].
    simpl. by rewrite list_lookup_fmap, Hx. }
  apply domain_path_Ok in Hpath as (Hc & Hrows & _). rewrite Forall_forall in Hrows.
  assert (∀ d, d ∈ path → 0 < axes_fit (default no_axes (room_free (Room_load p w profiles now) !! (host, d_id d)))
            (axes_of r) ↔ amount_le (amount_plus (usage w (d_id d) host) r) (budget d)) as Hd.
  { intros d [Hin <-]%Hrows%domain_row_spec. destruct (room_lookup p w profiles now Hids d Hin) as [E _].
    unfold domain_key in E. rewrite E, axes_fit_pos by done. simpl.
    unfold amount_le, amount_plus, usage, total. simpl. lia. }
  split.
  - intros [_ Hall] d Hin. apply Hd; [done|]. apply Hall.
    apply list_elem_of_fmap. exists (host, d_id d). split; [done|].
    apply list_elem_of_fmap. by exists d.
  - intros Hall. split; [by inversion Hc|].
    intros x (k & -> & (d & -> & Hin)%list_elem_of_fmap)%list_elem_of_fmap. by apply Hd, Hall.
Qed.

(** C37: the room that is counted for a platform agrees with admission: a
    machine's backend has room for one more runner of the platform exactly
    when the resource check of an admission on it would pass. *)
Theorem room_agrees_with_admission (p : Policy) (w : Work) (profiles : list Profile) (now : Z)
    (index : nat) (c : Candidate) (path : list DomainRow) :
  NoDup (d_id <$> host_resource_domains p) → amounts_wf p w → amount_wf (demand c) →
  profile_request <$> profiles !! index = Some (axes_of (demand c)) →
  domain_path p (ca_domain c) (ca_host c) = Ok path →
  0 < Room_fits (Room_load p w profiles now) index (ca_host c, ca_domain c)
  ↔ domains_fit p w c = Ok None.
Proof.
  intros Hids [Ha Hb] Hr Hx Hpath. rewrite (Room_fits_iff _ _ _ _ _ (demand c)) by done.
  rewrite <-domains_fit_loop_iff; [|done| |done].
  - unfold domains_fit. rewrite Hpath. simpl. pose proof Hr as (? & ? & ?). unfold u64_try_from. simpl in *.
    rewrite !(proj2 (Z.leb_le _ _)) by lia. simpl. unfold invariant_err.
    by rewrite (proj2 (ResourceAmount_new_Ok _ _ _ (demand c))) by (split; [done|lia]).
  - apply domain_path_Ok in Hpath as (_ & Hrows & _). rewrite Forall_forall in *.
    intros d [Hin _]%Hrows%domain_row_spec. by apply Hb.
Qed.

(** ** Nothing is booked twice *)
Definition not_negative (a : Axes) : Prop := 0 ≤ ax_cpu a ∧ 0 ≤ ax_memory a ∧ 0 ≤ ax_disk a.

Definition room_left (r : Room) : Prop := ∀ key a, room_free r !! key = Some a → not_negative a.

Definition covers (a b : Axes) : Prop :=
  ax_cpu b ≤ ax_cpu a ∧ ax_memory b ≤ ax_memory a ∧ ax_disk b ≤ ax_disk a.

Lemma max_by_elem {A} (le : A → A → bool) l a : max_by le l = Some a → a ∈ l.
Proof.
  destruct l as [|x l]; simpl; [done|]. intros [= <-]. revert x.
  induction l as [|y l IH]; intros x; simpl; [set_solver|].
  specialize (IH (if le x y then y else x)). destruct (le x y); set_solver.
Qed.

Definition requests_wf (r : Room) : Prop := ∀ index, not_negative (request_of r index).

(** *** Bookings

    What the attribution should come to, without reference to how it counts
    down: runners are booked one after the other, each on a backend all of whose
    domains can still take it, or not at all when there is none. *)
Definition charge_on (r : Room) (key : Key) (booking : nat * Key) : Axes :=
  if bool_decide (key ∈ Room_path r booking.2) then request_of r booking.1 else no_axes.

(** What the bookings take of a domain, whether it is the backend's own or one
    of its ancestors. *)
Definition booked (r : Room) (bs : list (nat * Key)) (key : Key) : Axes :=
  {| ax_cpu := sum_rows (λ x, ax_cpu (charge_on r key x)) bs;
     ax_memory := sum_rows (λ x, ax_memory (charge_on r key x)) bs;
     ax_disk := sum_rows (λ x, ax_disk (charge_on r key x)) bs |}.

Definition remaining (r : Room) (bs : list (nat * Key)) (key : Key) : option Axes :=
  (λ a, axes_sub a (booked r bs key)) <$> room_free r !! key.

Definition has_room (r : Room) (bs : list (nat * Key)) (index : nat) (backend : Key) : Prop :=
  ∀ key, key ∈ Room_path r backend →
    covers (default no_axes (remaining r bs key)) (request_of r index).

Inductive books (r : Room) : list nat → list (nat * Key) → Prop :=
| books_nil : books r [] []
| books_some takes bs index backend :
    books r takes bs → backend ∈ backends_of r index → has_room r bs index backend →
    books r (takes ++ [index])%list (bs ++ [(index, backend)])%list
| books_none takes bs index :
    books r takes bs → (∀ backend, backend ∈ backends_of r index → ¬ has_room r bs index backend) →
    books r (takes ++ [index])%list bs.

(** A room that has been counted down by the bookings. *)
Record counted (r : Room) (bs : list (nat * Key)) (r' : Room) : Prop := {
  ct_parents : room_parents r' = room_parents r;
  ct_backends : room_backends r' = room_backends r;
  ct_request : room_request r' = room_request r;
  ct_free : ∀ key, room_free r' !! key = remaining r bs key }.

Lemma path_loop_prefix fuel parents host path next l :
  path_loop fuel parents host path next = Some l → path `prefix_of` l.
Proof.
  revert path next. induction fuel as [|fuel IH]; intros path [domain|]; simpl; try naive_solver.
  destruct (bool_decide _); [naive_solver|]. intros E%IH. etrans; [|exact E]. by eexists.
Qed.

Lemma path_loop_start fuel parents host domain l :
  path_loop (S fuel) parents host [] (Some domain) = Some l → l ≠ [].
Proof.
  cbn [path_loop]. rewrite bool_decide_false by apply not_elem_of_nil.
  by intros [k ->]%path_loop_prefix.
Qed.

Lemma Room_path_nonempty r backend : Room_path r backend ≠ [].
Proof. eapply path_loop_start, (Room_path_loop r backend (2 + size (room_parents r))). done. Qed.

Lemma axes_fit_pos_iff a b : not_negative b → 0 < axes_fit a b ↔ covers a b.
Proof.
  intros (? & ? & ?). unfold axes_fit, covers. by rewrite !Z.min_glb_lt_iff, !axis_fits_pos.
Qed.

Lemma counted_room_requests r bs r' index backend :
  counted r bs r' → requests_wf r → 0 < Room_fits r' index backend ↔ has_room r bs index backend.
Proof.
  intros [Ep Eb Er Ef] Hwf. unfold Room_fits, has_room. rewrite min_over_pos.
  assert (Room_path r' backend = Room_path r backend) as -> by (unfold Room_path; by rewrite Ep).
  assert (request_of r' index = request_of r index) as -> by (unfold request_of; by rewrite Er).
  split.
  - intros [_ Hall] key Hk. apply axes_fit_pos_iff; [apply Hwf|]. rewrite <-Ef. apply Hall.
    apply list_elem_of_fmap. eauto.
  - intros Hall. split; [intros Hnil%fmap_nil_inv; by apply Room_path_nonempty in Hnil|].
    intros x (key & -> & Hk)%list_elem_of_fmap. rewrite Ef. apply axes_fit_pos_iff; [apply Hwf|by apply Hall].
Qed.

Lemma spend_exact request path m key :
  NoDup path →
  fold_left (spend request) path m !! key
  = if bool_decide (key ∈ path) then (λ a, axes_sub a request) <$> m !! key else m !! key.
Proof.
  intros Hnd. revert m. induction Hnd as [|k path Hk Hnd IH]; intros m; simpl; [done|]. rewrite IH.
  assert (∀ k', spend request m k !! k' = if decide (k' = k) then (λ a, axes_sub a request) <$> m !! k else m !! k')
    as Hs.
  { intros k'. unfold spend. destruct (m !! k) as [a|] eqn:E; destruct (decide (k' = k)) as [->|Hne]; simpl;
      rewrite ?lookup_insert_eq, ?lookup_insert_ne by done; done. }
  rewrite Hs. destruct (decide (key = k)) as [->|Hne].
  - rewrite (bool_decide_false (k ∈ path)) by done. by rewrite bool_decide_true by by left.
  - rewrite (bool_decide_ext (key ∈ k :: path) (key ∈ path)) by set_solver. done.
Qed.

Lemma booked_snoc r bs x key a :
  axes_sub a (booked r (bs ++ [x])%list key) = axes_sub (axes_sub a (booked r bs key)) (charge_on r key x).
Proof. unfold axes_sub, booked. simpl. rewrite !sum_rows_app. simpl. f_equal; lia. Qed.

Lemma axes_sub_none a : axes_sub a no_axes = a.
Proof. destruct a. unfold axes_sub. simpl. f_equal; lia. Qed.

Lemma max_by_None {A} (le : A → A → bool) l : max_by le l = None → l = [].
Proof. by destruct l. Qed.

(** [Room_take] books one runner. *)
Lemma Room_take_books r takes bs r' index :
  requests_wf r → books r takes bs → counted r bs r' →
  ∃ bs', books r (takes ++ [index])%list bs' ∧ counted r bs' (Room_take r' index).
Proof.
  intros Hwf Hb Hc. pose proof Hc as [Ep Eb Er Ef]. unfold Room_take.
  assert (backends_of r' index = backends_of r index) as Ebk by (unfold backends_of; by rewrite Eb).
  destruct (max_by _ _) as [backend|] eqn:E.
  - apply max_by_elem, elem_of_select in E as [Hin Hf%Z.gtb_lt]. rewrite Ebk in Hin.
    exists (bs ++ [(index, backend)])%list. split; [apply books_some; [done..|]; by apply (counted_room_requests r bs r')|].
    split; try done. intros key. simpl.
    assert (Room_path r' backend = Room_path r backend) as -> by (unfold Room_path; by rewrite Ep).
    assert (request_of r' index = request_of r index) as -> by (unfold request_of; by rewrite Er).
    rewrite spend_exact by apply Room_path_NoDup. rewrite Ef. unfold remaining.
    destruct (room_free r !! key) as [a|]; simpl; [|by case_match].
    rewrite booked_snoc. unfold charge_on. simpl. case_match; [done|]. by rewrite axes_sub_none.
  - exists bs. split; [|done]. apply books_none; [done|]. intros backend Hin Hr.
    apply max_by_None in E. apply (counted_room_requests _ _ _ _ _ Hc Hwf) in Hr.
    apply (elem_of_nil backend). rewrite <-E. apply elem_of_select. rewrite Ebk. split; [done|]. by apply Z.gtb_lt.
Qed.

(** The waiting runners, by platform. *)
Definition waiting_platforms (w : Work) (pool : string) (profiles : list Profile) : list nat :=
  omap (λ profile, position (λ x, String.eqb (pf_id x) profile) profiles)
    (i_profile_id <$> select (λ i, String.eqb (i_pool_id i) pool && bool_decide (i_status i = IntentQueued))
                        (workload_intents w)).

Lemma take_waiting_books profiles r l takes bs r' :
  requests_wf r → books r takes bs → counted r bs r' →
  ∃ bs', books r (takes ++ omap (λ profile, position (λ x, String.eqb (pf_id x) profile) profiles) l)%list bs'
    ∧ counted r bs' (fold_left (take_waiting profiles) l r').
Proof.
  intros Hwf. revert takes bs r'. induction l as [|profile l IH]; intros takes bs r' Hb Hc; simpl.
  - exists bs. by rewrite app_nil_r.
  - unfold take_waiting at 2. destruct (position _ _) as [index|]; [|by apply (IH takes bs)].
    destruct (Room_take_books _ _ _ _ index Hwf Hb Hc) as (bs1 & Hb1 & Hc1).
    destruct (IH _ _ _ Hb1 Hc1) as (bs2 & Hb2 & Hc2). exists bs2. by rewrite <-app_assoc in Hb2.
Qed.

Lemma length_swap_remove {A} at_ (l : list A) : (at_ < length l)%nat → length (swap_remove at_ l) = pred (length l).
Proof.
  intros Hl. unfold swap_remove. destruct (last l) as [z|] eqn:E.
  - assert (∀ k : list A, length (removelast k) = pred (length k)) as Hrm.
    { induction k as [|a [|b k] IH]; simpl in *; try done. by rewrite IH. }
    by rewrite Hrm, length_insert.
  - apply last_None in E as ->. simpl in Hl. lia.
Qed.

Lemma position_lt {A} (q : A → bool) l n : position q l = Some n → (n < length l)%nat.
Proof.
  revert n. induction l as [|a l IH]; intros n; simpl; [done|]. destruct (q a); [intros [= <-]; lia|].
  intros (m & Hm & ->)%fmap_Some. apply IH in Hm. lia.
Qed.

Lemma length_swap_concat {A} (ls : list (list A)) index l l' :
  ls !! index = Some l →
  (length (concat (<[index := l']> ls)) + length l = length (concat ls) + length l')%nat.
Proof.
  revert index. induction ls as [|k ls IH]; intros [|index]; simpl; try done.
  - intros [= ->]. rewrite !length_app. lia.
  - intros E%IH. rewrite !length_app. lia.
Qed.

(** A spare runner that takes a job is spare no more. *)
Lemma use_spare_less spare job index :
  not_null (cover spare job index) = true →
  length (concat spare) = S (length (concat (use_spare spare job index))).
Proof.
  unfold use_spare. destruct (cover spare job index) as [at_|] eqn:E; [intros _|done].
  unfold cover in E. apply position_lt in E as Hlt.
  destruct (spare !! index) as [l|] eqn:El; simpl in *; [|lia].
  pose proof (length_swap_concat spare index l (swap_remove at_ l) El).
  assert (length (swap_remove at_ l) = pred (length l)) as Hs by by apply length_swap_remove. lia.
Qed.

Lemma attribute_books available r l takes bs s :
  requests_wf r → books r takes bs → counted r bs (at_room s) →
  let s' := fold_left (attribute_job available) l s in
  ∃ new uncovered bs', at_jobs s' = (at_jobs s ++ new)%list
    ∧ books r (takes ++ uncovered)%list bs' ∧ counted r bs' (at_room s')
    ∧ uncovered `sublist_of` (snd <$> new)
    ∧ (length new + length (concat (at_spare s')) = length uncovered + length (concat (at_spare s)))%nat.
Proof.
  intros Hwf. revert takes bs s. induction l as [|job l IH]; intros takes bs s Hb Hc; cbn [fold_left].
  - exists [], [], bs. rewrite !app_nil_r. split_and!; done.
  - cbv zeta. remember (attribute_job available s job) as s1 eqn:Es1. unfold attribute_job in Es1.
    destruct (covered (at_spare s) job.1 job.2) as [index|] eqn:Ec.
    + destruct (IH takes bs s1) as (new & unc & bs' & E & Hb' & Hc' & Hs & Hn); [done|by rewrite Es1|].
      exists ((job.2, index) :: new), unc, bs'. rewrite E, Es1 in *. cbn [at_jobs at_spare] in *.
      rewrite <-app_assoc. split_and!; [done..|by apply sublist_cons|].
      apply fetch_Some in Ec as [_ Hcov]. apply use_spare_less in Hcov. simpl. lia.
    + destruct (placed_on available (at_room s) job.1) as [index|] eqn:Ep; [|subst s1; by apply (IH takes bs)].
      destruct (Room_take_books _ _ _ _ index Hwf Hb Hc) as (bs1 & Hb1 & Hc1).
      destruct (IH (takes ++ [index])%list bs1 s1) as (new & unc & bs' & E & Hb' & Hc' & Hs & Hn); [done|by rewrite Es1|].
      exists ((job.2, index) :: new), (index :: unc), bs'. rewrite E, Es1 in *. cbn [at_jobs at_spare] in *.
      rewrite <-!app_assoc in *. split_and!; [done..|by apply sublist_skip|simpl; lia].
Qed.

(** Bookings leave no domain negative that was not. *)
Lemma books_left r takes bs key a :
  requests_wf r → books r takes bs → room_left r → remaining r bs key = Some a → not_negative a.
Proof.
  intros Hwf Hb Hl. revert a. induction Hb as [|takes bs index backend Hb IH Hin Hr|takes bs index Hb IH _]; intros a Ha.
  - unfold remaining in Ha. apply fmap_Some in Ha as (b & Hb & ->). apply Hl in Hb.
    destruct Hb as (? & ? & ?). unfold not_negative. simpl. lia.
  - unfold remaining in Ha, IH, Hr. apply fmap_Some in Ha as (b & Hkey & ->). rewrite booked_snoc. unfold charge_on. simpl.
    rewrite Hkey in IH. simpl in IH. specialize (IH _ eq_refl).
    case_bool_decide as Hk; [|by rewrite axes_sub_none]. specialize (Hr key Hk).
    unfold remaining in Hr. rewrite Hkey in Hr. simpl in Hr. destruct Hr as (? & ? & ?).
    unfold not_negative, axes_sub in *. simpl in *. lia.
  - by apply IH.
Qed.

Lemma load_requests p w profiles now :
  Forall (λ x, not_negative (profile_request x)) profiles → requests_wf (Room_load p w profiles now).
Proof.
  intros Hreq index. unfold request_of, Room_load.
  destruct (load_columns w (host_resource_domains p)
    {| room_free := ∅; room_parents := ∅;
       room_backends := (λ x, remove_dups (authorized_backends p (pf_id x) now)) <$> profiles;
       room_request := profile_request <$> profiles |}) as [_ ->].
  simpl. rewrite list_lookup_fmap. destruct (profiles !! index) as [x|] eqn:E; simpl; [|done].
  rewrite Forall_forall in Hreq. by eapply Hreq, list_elem_of_lookup_2.
Qed.

Lemma load_free p w profiles now key a :
  room_free (Room_load p w profiles now) !! key = Some a →
  ∃ d, d ∈ host_resource_domains p ∧ domain_key d = key ∧ a = left_over w d.
Proof. intros [?|E]%load_from; [done|]. simpl in E. by rewrite lookup_empty in E. Qed.

Lemma counted_nil r : counted r [] r.
Proof.
  split; try done. intros key. unfold remaining. destruct (room_free r !! key) as [[]|]; simpl; [|done].
  unfold axes_sub. simpl. by rewrite !Z.sub_0_r.
Qed.

(** C36: attributing queued jobs never books more than a machine has.  The
    runners of the pool that wait for a machine, and then the jobs that no spare
    runner takes, are booked one after the other, each on a backend of its
    platform all of whose domains, up to the root, still have its CPU, memory and
    disk, or, when there is no such backend, not at all; every attributed job is
    booked so or is taken by a spare runner of its own; and what is left of a
    domain is exactly what its charges leave, less what was booked on it and
    below it.  When charges are within the budgets, that is not negative. *)
Theorem attribution_never_overbooks (arch : string) (p : Policy) (w : Work) (pool : string)
    (configured : list string) (profiles : list Profile) (available : list bool)
    (runners : list PoolRunner) (now : Z) :
  Forall (λ x, not_negative (profile_request x)) profiles →
  let room := Room_load p w profiles now in
  let '(jobs, r) := attribute_queued_jobs arch p w pool configured profiles available runners now in
  ∃ uncovered bs,
    books room (waiting_platforms w pool profiles ++ uncovered)%list bs
    ∧ uncovered `sublist_of` (snd <$> jobs)
    ∧ (length jobs ≤ length uncovered + length (concat (spare_runners profiles runners)))%nat
    ∧ (∀ key, room_free r !! key = remaining room bs key)
    ∧ ∀ key a, room_free r !! key = Some a →
        (∃ d, d ∈ host_resource_domains p ∧ domain_key d = key ∧ a = axes_sub (left_over w d) (booked room bs key))
        ∧ (within_budget p w → not_negative a).
Proof.
  intros Hreq room. unfold attribute_queued_jobs. fold room.
  pose proof (load_requests p w profiles now Hreq) as Hwf. fold room in Hwf.
  destruct (take_waiting_books profiles room
    (i_profile_id <$> select (λ i, String.eqb (i_pool_id i) pool && bool_decide (i_status i = IntentQueued))
                        (workload_intents w)) [] [] room Hwf (books_nil room) (counted_nil room))
    as (bs1 & Hb1 & Hc1).
  unfold attribute_jobs. set (l := order_by _ _). set (s := Build_Attribution _ _ _).
  destruct (attribute_books available room l _ _ s Hwf Hb1 Hc1) as (new & unc & bs & E & Hb & Hc & Hs & Hn).
  rewrite E. simpl in *. exists unc, bs. split_and!; [done..|lia|apply Hc|].
  intros key a Ha. rewrite (ct_free _ _ _ Hc) in Ha. split.
  - unfold remaining in Ha. apply fmap_Some in Ha as (b & Hkey & ->).
    destruct (load_free p w profiles now key b Hkey) as (d & ? & ? & ->). by exists d.
  - intros Hbud. eapply books_left; [exact Hwf|exact Hb| |exact Ha].
    intros k b (d & Hd & _ & ->)%load_free. specialize (Hbud d Hd). revert Hbud.
    unfold amount_le, usage, total, not_negative. simpl. lia.
Qed.

(** ** Every job counts for one platform that can run it *)
Lemma or_else_Some {A} (a b : option A) x : or_else a b = Some x ↔ a = Some x ∨ (a = None ∧ b = Some x).
Proof. destruct a; simpl; naive_solver. Qed.

Lemma placed_on_elem available r platforms index :
  placed_on available r platforms = Some index → index ∈ platforms.
Proof.
  unfold placed_on. intros E.
  destruct platforms as [|x [|y l]]; [done|injection E as <-; by left|].
  apply or_else_Some in E as [E|[_ [E|[_ E]]%or_else_Some]].
  - by apply max_by_elem, elem_of_select in E as [? _].
  - by apply fetch_Some in E as [? _].
  - injection E as <-. by left.
Qed.

Lemma placed_on_None available r platforms : placed_on available r platforms = None ↔ platforms = [].
Proof.
  unfold placed_on. destruct platforms as [|x [|y l]]; [done..|]. split; [|done].
  destruct (max_by _ _); [done|]. cbn [or_else]. by destruct (fetch _ _).
Qed.

Lemma attribute_job_jobs available s job :
  at_jobs (attribute_job available s job) = at_jobs s ∧ job.1 = []
  ∨ ∃ index, index ∈ job.1 ∧ at_jobs (attribute_job available s job) = (at_jobs s ++ [(job.2, index)])%list.
Proof.
  unfold attribute_job. destruct (covered _ _ _) as [index|] eqn:Ec.
  - right. exists index. split; [|done]. by apply fetch_Some in Ec as [? _].
  - destruct (placed_on _ _ _) as [index|] eqn:Ep.
    + right. exists index. split; [|done]. by eapply placed_on_elem.
    + left. split; [done|]. by apply placed_on_None in Ep.
Qed.

Definition runnable (job : list nat * QueuedJob) : bool := negb (bool_decide (job.1 = [])).

Lemma attribute_fold_jobs available l s :
  let s' := fold_left (attribute_job available) l s in
  fst <$> at_jobs s' = ((fst <$> at_jobs s) ++ (snd <$> select runnable l))%list
  ∧ ∀ job index, (job, index) ∈ at_jobs s' →
      (job, index) ∈ at_jobs s ∨ ∃ platforms, (platforms, job) ∈ l ∧ index ∈ platforms.
Proof.
  revert s. induction l as [|job l IH]; intros s; simpl; [rewrite app_nil_r; auto|].
  destruct (IH (attribute_job available s job)) as [E Hin]. rewrite E. clear E.
  destruct (attribute_job_jobs available s job) as [[E Hnil]|(index & Hi & E)].
  - rewrite E in *. unfold runnable. rewrite bool_decide_true by done. simpl. split; [done|].
    intros j i [?|(q & ? & ?)]%Hin; [by left|right; exists q; set_solver].
  - rewrite E, fmap_app, <-app_assoc. unfold runnable at 2. rewrite bool_decide_false by (intros Hn; rewrite Hn in Hi; by apply elem_of_nil in Hi).
    simpl. split; [done|]. intros j i [Hj|(q & ? & ?)]%Hin; [|right; exists q; set_solver].
    rewrite E in Hj. apply elem_of_app in Hj as [?|[= -> ->]%list_elem_of_singleton]; [by left|].
    right. exists job.1. destruct job. set_solver.
Qed.

Lemma select_perm {A} (q : A → bool) l l' : l ≡ₚ l' → select q l ≡ₚ select q l'.
Proof.
  induction 1 as [|a l l' _ IH|a b l|l1 l2 l3 _ IH1 _ IH2]; simpl.
  - done.
  - destruct (q a); by rewrite IH.
  - destruct (q a), (q b); try done. apply Permutation_swap.
  - by rewrite IH1.
Qed.

(** Every queued job of the pool that some platform can run is attributed
    exactly once, to a platform whose operating system, architecture and
    labels it asks for; the others are left out. *)
Theorem jobs_attributed_once (arch : string) (p : Policy) (w : Work) (pool : string)
    (configured : list string) (profiles : list Profile) (available : list bool)
    (runners : list PoolRunner) (now : Z) :
  let jobs := (attribute_queued_jobs arch p w pool configured profiles available runners now).1 in
  fst <$> jobs ≡ₚ select (λ job, negb (bool_decide (supporting profiles configured job = [])))
                    (queued_job_assignments arch p pool now)
  ∧ ∀ job index, (job, index) ∈ jobs →
      ∃ x, profiles !! index = Some x
        ∧ platform_supports_labels (in_execution_os (pf_input x)) (in_architecture (pf_input x))
            (qj_labels job) configured = true.
Proof.
  unfold attribute_queued_jobs, attribute_jobs. simpl.
  set (room := fold_left (take_waiting profiles) _ _). set (assigned := queued_job_assignments arch p pool now).
  set (l := order_by (λ a b, several a <=? several b) _).
  assert (l ≡ₚ (λ job, (supporting profiles configured job, job)) <$> assigned) as Hl by apply order_by_perm.
  destruct (attribute_fold_jobs available l {| at_room := room; at_spare := spare_runners profiles runners;
                                               at_jobs := [] |}) as [E Hin].
  split.
  - rewrite E. simpl. rewrite (select_perm runnable _ _ Hl). clear.
    induction assigned as [|job l IH]; simpl; [done|]. unfold runnable at 1. simpl.
    destruct (bool_decide (supporting profiles configured job = [])); simpl; [exact IH|by rewrite IH].
  - intros job index [[]%elem_of_nil|(q & Hq & Hi)]%Hin. rewrite Hl in Hq.
    apply list_elem_of_fmap in Hq as (j & [= -> ->] & _).
    apply elem_of_select in Hi as [_ Hs]. destruct (profiles !! index) as [x|]; [by exists x|done].
Qed.

(** ** The choice *)
Section choice_spec.
Context (factor : Z) (profiles : list Profile) (rows : list PoolRunner) (jobs : list (QueuedJob * nat)).
Notation unmet := (unmet_on factor profiles rows jobs).
Notation deficit := (platform_deficit factor profiles rows jobs).
Notation count := (length profiles).

Lemma index_le_total {A} (key : A → nat) (a b : A) : (key b <=? key a)%nat = true ∨ (key a <=? key b)%nat = true.
Proof. rewrite !Nat.leb_le. lia. Qed.

Lemma most_urgent_spec :
  match most_urgent factor profiles rows jobs with
  | Some index => (index < count)%nat ∧ ∃ since, unmet index = Some since
      ∧ ∀ j s, (j < count)%nat → unmet j = Some s → since ≤ s ∧ (since = s → (index ≤ j)%nat)
  | None => ∀ j, (j < count)%nat → unmet j = None
  end.
Proof.
  unfold most_urgent. set (l := omap _ _).
  assert (∀ s j, (s, j) ∈ l ↔ (j < count)%nat ∧ unmet j = Some s) as Hl.
  { intros s j. unfold l. rewrite list_elem_of_omap. setoid_rewrite fmap_Some. setoid_rewrite elem_of_seq.
    split; [intros (i & ? & s' & ? & [= -> ->]); split; [lia|done]|].
    intros [? ?]. exists j. split; [lia|]. by exists s. }
  destruct (order_by _ l) as [|[since index] l'] eqn:E; simpl.
  - intros j Hj. destruct (unmet j) as [s|] eqn:Es; [|done]. exfalso.
    assert ((s, j) ∈ order_by (lex_le fst (λ a b : Z * nat, Nat.leb a.2 b.2)) l) as Hin
      by (apply elem_of_order_by; by apply Hl).
    rewrite E in Hin. by apply elem_of_nil in Hin.
  - assert ((since, index) ∈ l) as [Hi Hs]%Hl.
    { apply (elem_of_order_by (lex_le fst (λ a b : Z * nat, Nat.leb a.2 b.2))). rewrite E. by left. }
    split; [done|]. exists since. split; [done|]. intros j s Hj Hjs.
    assert (lex_le fst (λ a b : Z * nat, Nat.leb a.2 b.2) (since, index) (s, j) = true) as Hle.
    { eapply order_by_head; [| |exact E|by apply Hl].
      - intros. apply lex_le_total. intros. apply index_le_total.
      - intros ???. apply lex_le_trans. intros ???. rewrite !Nat.leb_le. lia. }
    apply key_le in Hle as [? Hle]. split; [done|]. intros Heq. by apply Nat.leb_le, Hle.
Qed.

Lemma furthest_behind_spec :
  match furthest_behind factor profiles rows jobs with
  | Some index => (index < count)%nat ∧ 0 < deficit index
      ∧ ∀ j, (j < count)%nat → deficit j ≤ deficit index ∧ (deficit j = deficit index → (index ≤ j)%nat)
  | None => ∀ j, (j < count)%nat → deficit j ≤ 0
  end.
Proof.
  unfold furthest_behind. set (l := select _ _).
  assert (∀ j, j ∈ l ↔ (j < count)%nat ∧ 0 < deficit j) as Hl.
  { intros j. unfold l. rewrite elem_of_select, elem_of_seq, Z.gtb_lt. lia. }
  destruct (max_by _ l) as [index|] eqn:E.
  - apply max_by_spec in E as [[Hi Hd]%Hl Hmax].
    + split; [done|]. split; [done|]. intros j Hj. destruct (Z.le_gt_cases (deficit j) 0); [lia|].
      destruct (key_le _ _ _ _ (Hmax j (proj2 (Hl j) (conj Hj ltac:(done))))) as [? Hle]. split; [done|].
      intros Heq. by apply Nat.leb_le, Hle.
    + intros. apply lex_le_total. intros. apply (index_le_total id).
    + intros ???. apply lex_le_trans. intros ???. rewrite !Nat.leb_le. lia.
  - intros j Hj. destruct (Z.le_gt_cases (deficit j) 0); [done|]. exfalso.
    assert (j ∈ l) as Hin by (by apply Hl). destruct l; [by apply elem_of_nil in Hin|done].
Qed.

Lemma idle_choice_spec room available :
  match idle_choice profiles room available with
  | Some index => (index < count)%nat
  | None => profiles = []
  end.
Proof.
  unfold idle_choice. destruct (or_else _ _) as [index|] eqn:E.
  - apply or_else_Some in E as [E|[_ [E|[_ E]]%or_else_Some]].
    + apply fetch_Some in E as [?%elem_of_seq _]. lia.
    + apply fetch_Some in E as [?%elem_of_seq _]. lia.
    + destruct profiles; [done|]. injection E as <-. simpl. lia.
  - destruct (fetch _ _); [done|]. simpl in E. destruct (fetch _ _); [done|]. simpl in E.
    by destruct (bool_decide_reflect (profiles = [])).
Qed.
End choice_spec.

(** The platform of the next runner is one of the pool's, and there is
    one whenever the pool has platforms.  It is marked as behind exactly when
    some platform has a prioritised job that lacks a runner or more queued
    work than runners; then it is the one whose prioritised job waits longest
    or, if none has one, the one with the largest deficit, the first of
    equals. *)
Theorem chosen_platform_is_furthest_behind (arch : string) (p : Policy) (w : Work) (pool : string)
    (configured : list string) (factor : Z) (profiles : list Profile) (now : Z) :
  let rows := pool_runners p w pool in
  let jobs := (attribute_queued_jobs arch p w pool configured profiles
                 (machines_available p profiles now) rows now).1 in
  let unmet := unmet_on factor profiles rows jobs in
  let deficit := platform_deficit factor profiles rows jobs in
  match choose_platform arch p w pool configured factor profiles now with
  | None => profiles = []
  | Some (x, behind) => ∃ index, profiles !! index = Some x
      ∧ if behind
        then (∃ since, unmet index = Some since
                ∧ ∀ j s, (j < length profiles)%nat → unmet j = Some s →
                    since ≤ s ∧ (since = s → (index ≤ j)%nat))
             ∨ (0 < deficit index
                ∧ ∀ j, (j < length profiles)%nat →
                    unmet j = None ∧ deficit j ≤ deficit index
                    ∧ (deficit j = deficit index → (index ≤ j)%nat))
        else ∀ j, (j < length profiles)%nat → unmet j = None ∧ deficit j ≤ 0
  end.
Proof.
  intros rows jobs unmet deficit. unfold choose_platform. fold rows. unfold jobs in *. clear jobs.
  destruct (attribute_queued_jobs _ _ _ _ _ _ _ _ _) as [jobs room]. simpl in unmet, deficit.
  pose proof (most_urgent_spec factor profiles rows jobs) as Hu.
  pose proof (furthest_behind_spec factor profiles rows jobs) as Hb.
  pose proof (idle_choice_spec profiles room (machines_available p profiles now)) as Hi.
  unfold choice. destruct (most_urgent factor profiles rows jobs) as [index|]; simpl.
  { destruct Hu as (Hlt & Hs). destruct (lookup_lt_is_Some_2 _ _ Hlt) as [x Hx]. rewrite Hx. simpl.
    exists index. auto. }
  destruct (furthest_behind factor profiles rows jobs) as [index|]; simpl.
  { destruct Hb as (Hlt & Hd & Hall). destruct (lookup_lt_is_Some_2 _ _ Hlt) as [x Hx]. rewrite Hx. simpl.
    exists index. split; [done|]. right. split; [done|]. intros j Hj. split; [by apply Hu|by apply Hall]. }
  destruct (idle_choice _ _ _) as [index|]; simpl; [|done].
  destruct (lookup_lt_is_Some_2 _ _ Hi) as [x Hx]. rewrite Hx. simpl. exists index.
  split; [done|]. intros j Hj. split; [by apply Hu|by apply Hb].
Qed.

(** ** Concrete runs *)
Module SamplePlatforms.
Import SampleFleet SampleRun.

Definition platform : Profile :=
  {| pf_id := SampleFleet.id 40; pf_revision := 3;
     pf_input := {| in_enabled := true; in_runtime_kind := Docker; in_execution_os := Linux;
                    in_architecture := X64; in_mode := Ephemeral; in_image := "runner:latest";
                    in_labels := ["linux"]; in_cpu_millis := 2000; in_memory_mib := 2048;
                    in_disk_bytes := 0; in_requires_docker_socket := false; in_placement := Machines |};
     pf_target_ids := [SampleFleet.id 30] |}.

Lemma platform_read : pool_profiles policy "pool" = Ok [platform].
Proof. by vm_compute. Qed.

(** Two domains that name each other as parent. *)
Definition cycle : Room :=
  {| room_free := ∅;
     room_parents := <[("h", "a") := Some "b"]> (<[("h", "b") := Some "a"]> ∅);
     room_backends := []; room_request := [] |}.

Lemma path_terminates_witness :
  path_loop 9 (room_parents cycle) "h" [] (Some "a") = Some [("h", "a"); ("h", "b")].
Proof.
  etrans; [apply (path_terminates cycle ("h", "a") 9); vm_compute; lia|by vm_compute].
Defined.

Definition offer : Candidate := row_candidate host (backend false) (profile false).

Lemma room_agrees_with_admission_witness :
  0 < Room_fits (Room_load policy empty [platform] 2000) 0 (SampleFleet.id 5, SampleFleet.id 21)
  ∧ domains_fit policy empty offer = Ok None
  ∧ domains_fit policy w_placed offer = Ok (Some "child_resource_exhausted").
Proof.
  assert (domains_fit policy empty offer = Ok None) as E by by vm_compute.
  split; [|split; [exact E|by vm_compute]].
  apply (room_agrees_with_admission policy empty [platform] 2000 0 offer [child_domain; root_domain]).
  - vm_compute. repeat constructor; rewrite ?list_elem_of_In; cbn; intuition discriminate.
  - split; [constructor|]. repeat constructor; by vm_compute.
  - repeat split; by vm_compute.
  - reflexivity.
  - by vm_compute.
  - exact E.
Defined.

(** The runner that waits takes its room. *)
Definition attributed : list (QueuedJob * nat) * Room :=
  attribute_queued_jobs "x86_64" policy SampleService.submitted "pool" [] [platform] [true] [] 2000.

Lemma attribution_never_overbooks_witness :
  ∃ bs, books (Room_load policy SampleService.submitted [platform] 2000) [O] bs
    ∧ room_free attributed.2 !! (SampleFleet.id 5, SampleFleet.id 21)
      = Some {| ax_cpu := 1000; ax_memory := 2048; ax_disk := 1000000 |}
    ∧ remaining (Room_load policy SampleService.submitted [platform] 2000) bs (SampleFleet.id 5, SampleFleet.id 21)
      = Some {| ax_cpu := 1000; ax_memory := 2048; ax_disk := 1000000 |}.
Proof.
  assert (room_free attributed.2 !! (SampleFleet.id 5, SampleFleet.id 21)
          = Some {| ax_cpu := 1000; ax_memory := 2048; ax_disk := 1000000 |}) as E by by vm_compute.
  assert (attributed.1 = []) as Ej by by vm_compute.
  assert (Forall (λ x, not_negative (profile_request x)) [platform]) as Hreq
    by (constructor; [|constructor]; split_and!; by vm_compute).
  pose proof (attribution_never_overbooks "x86_64" policy SampleService.submitted "pool" [] [platform] [true] []
           2000 Hreq) as Ht.
  cbv zeta in Ht. fold attributed in Ht. destruct attributed as [jobs r]. simpl in E, Ej. subst jobs.
  destruct Ht as (unc & bs & Hb & Hs & _ & Hfree & _). apply sublist_nil_r in Hs as ->.
  exists bs. rewrite <-Hfree. split; [|done]. exact Hb.
Defined.

(** A job for the platform, and a spare runner that already covers it. *)
Definition job : QueuedJob :=
  {| qj_repository_id := 12; qj_labels := ["self-hosted"; "linux"]; qj_queued_at := 100;
     qj_prioritised := false |}.

Example covered_job_takes_no_room :
  at_jobs (attribute_jobs [platform] [true] cycle [[Some 12]] [] [job]) = [(job, O)]
  ∧ at_spare (attribute_jobs [platform] [true] cycle [[Some 12]] [] [job]) = [[]].
Proof. by vm_compute. Qed.
End SamplePlatforms.
