(* ===== verification/Driver.v ===== *)
(** * Driving fleet runners
    ([crates/gridops-reconciler/src/fleet.rs], [placements] of
    [fleet/placement.rs], and the token lookup of
    [crates/gridops-reconciler/src/main.rs]).

    The reconciler runs outside a transaction: each statement commits by
    itself, and other processes (the API, the machines through it) commit
    before any of them.  A [Drive] is such a run.  What others commit, the
    clock and the draws come from [Surroundings], indexed by the number of
    statements made so far; the answers of GitHub come from [Upstream]. *)
From stdpp Require Import pretty.
From S2P Require Import Prelude Base64 Ids Domain Protocol Outcomes Capabilities Crypto Store.
From S2P Require Import Service Admission Commands Placement Autoscaling Targets Platforms.
#[local] Open Scope string_scope.
#[local] Open Scope Z_scope.

(** ** The world of a run *)
Record SecretRow := { sec_key : string; sec_value : string }.

Record CapacitySampleRow := {
  smp_pool_id : string; smp_available : Z; smp_busy : Z; smp_queued : Z; smp_recorded_at : Z }.
#[export] Instance SampleRow_fields : Fields CapacitySampleRow := λ x,
  {| smp_pool_id := smp_pool_id x; smp_available := smp_available x; smp_busy := smp_busy x;
     smp_queued := smp_queued x; smp_recorded_at := smp_recorded_at x |}.

Record CleanupRow := {
  gc_id : string; gc_installation_id : Z; gc_target_owner : string;
  gc_target_repository : option string; gc_github_runner_id : option Z; gc_runner_name : string;
  gc_attempts : Z; gc_last_error : option string; gc_next_attempt_at : Z }.
#[export] Instance CleanupRow_fields : Fields CleanupRow := λ x,
  {| gc_id := gc_id x; gc_installation_id := gc_installation_id x;
     gc_target_owner := gc_target_owner x; gc_target_repository := gc_target_repository x;
     gc_github_runner_id := gc_github_runner_id x; gc_runner_name := gc_runner_name x;
     gc_attempts := gc_attempts x; gc_last_error := gc_last_error x;
     gc_next_attempt_at := gc_next_attempt_at x |}.

(** What the manager of the built-in host was told. *)
Inductive Call :=
| ReservedLease (lease : string)
| ReleasedLease (lease : string)
| ReleaseFailed (lease : string)
| CreatedContainer (lease container : string)
| RemovedContainer (container : string).

Record World := {
  policy : Policy; work : Work; runtime_secrets : list SecretRow;
  github_runner_cleanup : list CleanupRow; capacity_samples : list CapacitySampleRow; calls : list Call;
  turn : nat }.
#[export] Instance World_fields : Fields World := λ s,
  {| policy := policy s; work := work s; runtime_secrets := runtime_secrets s;
     github_runner_cleanup := github_runner_cleanup s; capacity_samples := capacity_samples s;
     calls := calls s; turn := turn s |}.

Class Surroundings := {
  clock : nat → Z;
  draws : nat → nat → Uuid;
  nonces : nat → list Z;
  moments : nat → nat → Moment;
  meanwhile : nat → Policy * Work → Policy * Work }.

Inductive Failure :=
| FleetFailure (e : FleetError)
| Lacking (context : string)
| UpstreamFailure (message : string)
| Panicked.

Definition Drive (A : Type) : Type := World → Result A Failure * World.

#[export] Instance Drive_ret : MRet Drive := λ A a s, (Ok a, s).
#[export] Instance Drive_bind : MBind Drive := λ A B k c s,
  match c s with
  | (Ok a, s) => k a s
  | (Err e, s) => (Err e, s)
  end.

Definition fails {A} (e : Failure) : Drive A := λ s, (Err e, s).
Definition lift {A} (r : Result A FleetError) : Drive A := λ s, (map_err FleetFailure r, s).
Definition context {A} (what : string) (o : option A) : Drive A := λ s, (ok_or (Lacking what) o, s).

(** [if let Err(error) = c.await { tracing::warn!(...) }]. *)
Definition attempt {A} (c : Drive A) : Drive (Result A Failure) := λ s, let (r, s) := c s in (Ok r, s).

(** [for a in l { f(a).await?; }]. *)
Fixpoint for_each {A} (f : A → Drive unit) (l : list A) : Drive unit :=
  match l with
  | [] => mret tt
  | a :: l => _ ← f a; for_each f l
  end.

Definition for_each_logged {A} (f : A → Drive unit) : list A → Drive unit :=
  for_each (λ a, _ ← attempt (f a); mret tt).

Section statements.
Context `{Surroundings}.

(** What others commit before the next statement. *)
Definition others (s : World) : World :=
  let '(p, w) := meanwhile (turn s) (policy s, work s) in
  s <| policy := p |> <| work := w |> <| turn ::= S |>.

Definition now_millis : Drive Z := λ s, (Ok (clock (turn s)), s <| turn ::= S |>).
Definition new_v4 : Drive Uuid := λ s, (Ok (draws (turn s) 0%nat), s <| turn ::= S |>).

Definition new_nonce : Drive (list Z) := λ s, (Ok (nonces (turn s)), s <| turn ::= S |>).
Definition slice_moments : Drive (nat → Moment) := λ s, (Ok (moments (turn s)), s <| turn ::= S |>).

Definition ask {A} (q : Policy → Work → A) : Drive A := λ s,
  let s := others s in (Ok (q (policy s) (work s)), s).
Definition ask_result {A} (q : Policy → Work → Result A FleetError) : Drive A :=
  r ← ask q; lift r.

(** Statements on the tables of [Policy]. *)
Definition action {A} (a : (nat → Uuid) → Action A) : Drive A := λ s,
  let s := others s in
  let '(r, p) := a (draws (turn s)) (policy s) in
  (map_err FleetFailure r, s <| policy := p |> <| turn ::= S |>).
Definition execute_policy (f : Policy → Policy) : Drive unit :=
  action (λ _ p, (Ok tt, f p)).

(** A transaction on [Work], rolled back by an error; and a sequence of them. *)
Definition commits {A} (f : Policy → Work → Work * Result A FleetError) : Drive A := λ s,
  let s := others s in
  let '(w, r) := f (policy s) (work s) in (map_err FleetFailure r, s <| work := w |>).
Definition transaction {A} (f : Policy → Work → Result (Work * A) FleetError) : Drive A :=
  commits (λ p w, match f p w with Ok (w', a) => (w', Ok a) | Err e => (w, Err e) end).
End statements.

(** ** Placements as the reconciler sees them *)
Record PlacementView := {
  v_id : Uuid; v_workload_id : string; v_host_id : Uuid; v_state : PlacementState;
  v_runner_id : option string; v_pool_id : string; v_profile_id : string; v_target_id : string;
  v_runtime_kind : string; v_mode : string; v_labels : list string; v_updated_at : Z }.

Section placements.
Context `{UuidText}.

Definition view (row : PlacementRow * IntentRow * ProfileRow) : Result PlacementView FleetError :=
  let '(pl, i, pr) := row in
  let? id := parse_id (pl_id pl) in
  let? host := parse_id (pl_host_id pl) in
  let? labels := ok_or (Invariant "profile labels") (p_labels pr) in
  Ok {| v_id := id; v_workload_id := pl_workload_id pl; v_host_id := host;
        v_state := pl_state pl; v_runner_id := pl_runner_id pl; v_pool_id := i_pool_id i;
        v_profile_id := i_profile_id i; v_target_id := pl_target_id pl;
        v_runtime_kind := p_runtime_kind pr; v_mode := p_mode pr; v_labels := labels;
        v_updated_at := pl_updated_at pl |}.

Definition joined (p : Policy) (w : Work) (pl : PlacementRow)
    : option (PlacementRow * IntentRow * ProfileRow) :=
  i ← fetch (λ i, String.eqb (i_id i) (pl_intent_id pl)) (workload_intents w);
  pr ← fetch (λ x, String.eqb (p_id x) (i_profile_id i)) (pool_execution_profiles p);
  Some (pl, i, pr).

Definition placements (states : list PlacementState) (p : Policy) (w : Work)
    : Result (list PlacementView) FleetError :=
  traverse view (omap (joined p w)
    (order_by (lex_le pl_created_at (λ a b, String.leb (pl_id a) (pl_id b)))
       (select (λ pl, bool_decide (pl_state pl ∈ states)) (workload_placements w)))).
End placements.

(** ** Upstream *)
Inductive RunnerTarget := Repository (owner repository : string) | Organization (organization : string).

Record JitRequest := {
  jr_name : string; jr_runner_group_id : Z; jr_labels : list string; jr_work_folder : string }.

(** What a start command's bootstrap material says. *)
Inductive Material :=
| GithubJit (jit_config : string)
| GithubRegistration (token url name : string) (labels : list string).

(** The clients of GitHub and serde, and the credentials of the environment. *)
Class Upstream := {
  config_app_id : option string;
  config_private_key : option string;
  installation_token_with_credentials : nat → Z → string → string → option string;
  generate_jit_config : nat → RunnerTarget → string → JitRequest → option (Z * string);
  generate_registration_token : nat → RunnerTarget → string → option string;
  material_json : Material → string }.

Definition QUEUE_TIMEOUT_MILLIS : Z := 10 * 60000.
Definition INSPECT_INTERVAL_MILLIS : Z := 30000.
Definition START_WINDOW_MILLIS : Z := 60000.
Definition START_COMMAND_DEADLINE_MILLIS : Z := 30000.

(** [for label in configured { ... }] of [runner_labels]. *)
Definition push_label (labels : list string) (label : string) : list string :=
  if negb (is_runner_system_label label) && negb (bool_decide (label ∈ labels))
  then (labels ++ [label])%list else labels.

Definition runner_labels (prepare : PrepareEnvironment) (configured : list string) : list string :=
  let os := match pe_execution_os prepare with
            | Linux => "Linux" | Macos => "macOS" | Windows => "Windows" end in
  let arch := match pe_architecture prepare with X64 => "X64" | Arm64 => "ARM64" end in
  fold_left push_label configured ["self-hosted"; os; arch].

Definition runner_registration_url (account_login : string) (repository : option (string * string))
    : string :=
  match repository with
  | Some (owner, name) => "https://github.com/" +:+ owner +:+ "/" +:+ name
  | None => "https://github.com/" +:+ account_login
  end.

Definition host_serves (arch : string) (pool : PoolRow) (profile : Profile) : bool :=
  let has name := bool_decide (name ∈ pool_providers pool) in
  let host_arch := match in_architecture (pf_input profile) with X64 => "x64" | Arm64 => "arm64" end in
  match in_execution_os (pf_input profile) with
  | Linux => has "docker" && String.eqb (runner_arch_label arch) host_arch
  | Macos => has "tart" && bool_decide (in_architecture (pf_input profile) = Arm64)
  | Windows => false
  end.

Definition container_name_of (identity : LocalResourceIdentity) : string :=
  match identity with
  | ResDocker object_id => take_chars 12 object_id
  | ResTartVm name => name
  | ResNativeProcess _ process_id _ => "pid-" +:+ pretty process_id
  end.

(** [Uuid::simple], cut to eight characters. *)
Fixpoint without_hyphens (s : string) : string :=
  match s with
  | String.EmptyString => String.EmptyString
  | String.String c rest =>
      if byte_of c =? 45 then without_hyphens rest else String.String c (without_hyphens rest)
  end.

Definition external_id (value : Z) : Drive Z :=
  lift (let? raw := ok_or (InvalidRequest "external ID") (u64_try_from value) in
        map_err (λ _, InvalidRequest "external ID") (ExternalId_try_from raw)).

(** ** Rows of runners *)
Inductive ProvisionAttempt :=
| Provisioned
| NoDemand
| Deferred (reason full_provider : option string).

Definition runner_named (id : string) (x : RunnerRow) : bool := String.eqb (rn_id x) id.

Definition set_runners (q : RunnerRow → bool) (f : RunnerRow → RunnerRow) (p : Policy) : Policy :=
  p <| runners ::= update_where q f |>.

(** [INSERT INTO runners]: the key is free, and the pool and the repository
    are there. *)
Definition insert_runner (x : RunnerRow) (p : Policy) : Result unit FleetError * Policy :=
  if exists_row (runner_named (rn_id x)) (runners p)
     || negb (exists_row (λ q, String.eqb (pool_id q) (rn_pool_id x)) (runner_pools p))
     || match rn_target_repository_id x with
        | Some id => negb (exists_row (λ r, repo_id r =? id) (repositories p))
        | None => false
        end
  then (Err Database, p)
  else (Ok tt, p <| runners ::= (λ l, l ++ [x])%list |>).

Definition new_fleet_runner (pool : PoolRow) (profile : Profile) (id : string) (repository : option Z)
    (name : string) (now : Z) : RunnerRow :=
  let input := pf_input profile in
  let docker := bool_decide (in_runtime_kind input = Docker) in
  {| rn_id := id; rn_pool_id := pool_id pool; rn_target_repository_id := repository;
     rn_provider := if docker then "docker" else "tart"; rn_status := "starting"; rn_busy := false;
     rn_deleted_at := None; rn_ci_platform := "github";
     rn_os := match in_execution_os input with
              | Linux => "linux" | Macos => "macOS" | Windows => "windows" end;
     rn_updated_at := now; rn_name := name;
     rn_architecture := match in_architecture input with X64 => "X64" | Arm64 => "ARM64" end;
     rn_ephemeral := bool_decide (in_mode input = Ephemeral);
     rn_configuration_version := pool_configuration_version pool;
     rn_runtime := if docker then "vm" else "native"; rn_created_at := now;
     rn_failure_reason := None; rn_github_runner_id := None; rn_container_id := None;
     rn_container_name := None; rn_registered_at := None; rn_last_heartbeat_at := None;
     rn_bitbucket_connection_id := None; rn_bitbucket_runner_uuid := None |}.

(** [UPDATE runners SET status='failed',failure_reason=?,updated_at=? WHERE id=?]. *)
Definition fail_runner (id : string) (reason : option string) (now : Z) : Policy → Policy :=
  set_runners (runner_named id)
    (λ x, x <| rn_status := "failed" |> <| rn_failure_reason := reason |> <| rn_updated_at := now |>).

Definition ended_status (status : string) : bool := bool_decide (status ∈ ["deleted"; "failed"]).

(** [UPDATE runners SET status='failed',updated_at=? WHERE id=? AND status NOT
    IN ('deleted','failed')]. *)
Definition retire_runner (id : string) (now : Z) : Policy → Policy :=
  set_runners (λ x, runner_named id x && negb (ended_status (rn_status x)))
    (λ x, x <| rn_status := "failed" |> <| rn_updated_at := now |>).

(** ** Which repository *)
Definition want (wanted : gmap Z (Z * Z * option Z)) (job : QueuedJob) : gmap Z (Z * Z * option Z) :=
  let '(queued, prioritised, since) := default (0, 0, None) (wanted !! qj_repository_id job) in
  <[qj_repository_id job :=
      if qj_prioritised job
      then (queued + 1, prioritised + 1,
            Some (match since with Some t => Z.min t (qj_queued_at job) | None => qj_queued_at job end))
      else (queued + 1, prioritised, since)]> wanted.

Definition wanted_capacity (wanted : gmap Z (Z * Z * option Z)) (capacity : RepositoryCapacity)
    : option (Z * RepositoryCapacity) :=
  (λ x : Z * Z * option Z, (x.1.1, capacity <| rc_prioritised := x.1.2 |> <| rc_prioritised_since := x.2 |>))
    <$> wanted !! rc_repository_id capacity.

(** The order of the key: unmet priority, the longest wait, the deficit and
    then the smallest identifier. *)
Definition platform_key_le (factor : Z) : Z * RepositoryCapacity → Z * RepositoryCapacity → bool :=
  lex_le (λ x, match unmet_priority x.2 factor with Some _ => 1 | None => 0 end)
    (lex_le (λ x, - default 0 (unmet_priority x.2 factor))
       (lex_le (λ x, x.1 - rc_active x.2)
          (λ a b, - rc_repository_id a.2 <=? - rc_repository_id b.2))).

Section driver.
Context `{UuidText, Codec, RequestJson, ResultJson, Aead, Surroundings, Upstream}.
Context (arch : string) (vault : Vault).

Definition enabled_profiles (pool : string) : Drive (list Profile) :=
  all ← ask_result (λ p _, pool_profiles p pool);
  mret (select (λ x, in_enabled (pf_input x)) all).

Definition choose_profile (pool : PoolRow) (profiles : list Profile) : Drive (option (Profile * bool)) :=
  now ← now_millis;
  ask (λ p w, choose_platform arch p w (pool_id pool) (pool_labels pool)
                (pool_queue_scale_factor pool) profiles now).

Definition repository_for_platform (pool : PoolRow) (profiles : list Profile) (profile : Profile)
    : Drive (option RepositoryCapacity) :=
  now ← now_millis;
  jobs ← ask (λ p w, platform_jobs arch p w (pool_id pool) (pool_labels pool) profiles
                       (pf_id profile) now);
  let wanted := fold_left want jobs ∅ in
  now ← now_millis;
  capacities ← ask (λ p _, repository_capacities arch p (pool_id pool) now);
  mret (snd <$> max_by (platform_key_le (pool_queue_scale_factor pool))
                  (omap (wanted_capacity wanted) capacities)).

Definition fleet_machine_ready (pool : PoolRow) (profile : Profile) : Drive bool :=
  now ← now_millis;
  ask (λ p w, machine_ready p w (pool_id pool) (pf_id profile) now).

(** [service.admit_queued(&Principal::Reconciler, 100)]. *)
Definition admit_waiting : Drive unit :=
  now ← now_millis;
  times ← slice_moments;
  _ ← commits (λ p w, admit_queued p w PrincipalReconciler 100 now times);
  mret tt.

Definition runner_target (pool : PoolRow) (profiles : list Profile) (profile : Profile)
    : Drive (string * option Z) :=
  if String.eqb (pool_scope pool) "repository" then
    found ← repository_for_platform pool profiles profile;
    repository ← match found with
                 | Some repository => mret repository
                 | None =>
                     now ← now_millis;
                     next ← ask (λ p _, next_runner_repository arch p (pool_id pool)
                                          (pool_queue_scale_factor pool) now);
                     context "runner pool has no available repositories" next
                 end;
    installation_id ← external_id (rc_installation_id repository);
    repository_id ← external_id (rc_repository_id repository);
    target ← action (λ drawn, ensure_target (drawn 0%nat)
                                (GithubRepository installation_id repository_id));
    _ ← execute_policy (link_pool_target (pool_id pool) target);
    mret (target, Some (rc_repository_id repository))
  else
    targets ← action (λ drawn, pool_targets drawn (pool_id pool));
    target ← context "organization pool has no fleet target" (head targets);
    mret (target, None).

Definition fleet_provision (pool : PoolRow) (profiles : list Profile) (profile : Profile)
    : Drive ProvisionAttempt :=
  '(target_id, repository_id) ← runner_target pool profiles profile;
  runner_id ← new_v4;
  drawn ← new_v4;
  let suffix := String.substring 0 8 (without_hyphens (to_string drawn)) in
  let name := pool_name pool +:+ "-" +:+ suffix in
  now ← now_millis;
  _ ← action (λ _, insert_runner
                     (new_fleet_runner pool profile (to_string runner_id) repository_id name now));
  profile_id ← lift (parse_id (pf_id profile));
  target ← lift (parse_id target_id);
  workload_id ← lift (invariant_err "workload ID" (fleet_uuid_try_new runner_id));
  generation ← lift (invariant_err "generation" (Generation_new 1));
  let request :=
    {| si_idempotency_key := "runner:" +:+ to_string runner_id; si_pool_id := pool_id pool;
       si_profile_id := profile_id; si_target_id := target; si_workload_id := workload_id;
       si_generation := generation; si_kind := CiRunner; si_agent_run_id := None;
       si_expected_profile_revision := u64_try_from (pf_revision profile) |} in
  submitted ← attempt (operation ← new_v4;
                       now ← now_millis;
                       transaction (λ p w, submit_intent p w PrincipalReconciler request operation now));
  match submitted with
  | Err e =>
      now ← now_millis;
      _ ← execute_policy (fail_runner (to_string runner_id)
                            (Some "Fleet placement request was rejected.") now);
      fails e
  | Ok _ => _ ← admit_waiting; mret Provisioned
  end.

(** ** One pass *)
Definition stale (p : Policy) (w : Work) (bound : Z) : list (string * string) :=
  omap (λ i, if bool_decide (i_status i = IntentQueued) && (i_created_at i <? bound)
                && exists_row (λ x, runner_named (i_workload_id i) x
                                    && String.eqb (rn_status x) "starting") (runners p)
             then Some (i_id i, i_workload_id i) else None) (workload_intents w).

Definition expire_row (row : string * string) : Drive unit :=
  now ← now_millis;
  cancelled ← commits (λ _ w, let '(w', b) := cancel_queued w row.1 "no_capacity" now in (w', Ok b));
  if cancelled : bool then
    now ← now_millis;
    execute_policy (fail_runner row.2 (Some "No fleet host had capacity for this runner.") now)
  else mret tt.

Definition expire_queued : Drive unit :=
  now ← now_millis;
  rows ← ask (λ p w, stale p w (now - QUEUE_TIMEOUT_MILLIS));
  for_each expire_row rows.

(** *** Tokens *)
Definition upstream {A} (message : string) (call : nat → option A) : Drive A := λ s,
  (ok_or (UpstreamFailure message) (call (turn s)), s <| turn ::= S |>).

Definition runtime_secret (key : string) : Drive (option string) := λ s,
  let s := others s in
  match fetch (λ x, String.eqb (sec_key x) key) (runtime_secrets s) with
  | None => (Ok None, s)
  | Some x => match open vault (sec_value x) with
              | Ok text => (Ok (Some text), s)
              | Err _ => (Err (Lacking "could not decrypt runtime secret"), s)
              end
  end.

Definition installation_token (installation_id : Z) : Drive (option string) :=
  stored_app ← runtime_secret "github.app_id";
  stored_key ← runtime_secret "github.app_private_key";
  match or_else stored_app config_app_id, or_else stored_key config_private_key with
  | Some app_id, Some private_key =>
      token ← upstream "installation token" (λ n,
        installation_token_with_credentials n installation_id app_id private_key);
      mret (Some token)
  | _, _ => mret None
  end.

(** *** Starting *)
Record RunnerToStart := {
  rs_name : string; rs_status : string; rs_installation : Z; rs_account_login : string;
  rs_labels : list string; rs_runner_group_id : Z; rs_repository : option (string * string) }.

Definition runner_to_start (id : string) (p : Policy) : option RunnerToStart :=
  r ← fetch (runner_named id) (runners p);
  q ← fetch (λ q, String.eqb (pool_id q) (rn_pool_id r)) (runner_pools p);
  pool_installation ← pool_installation_id q;
  inst ← fetch (λ i, ins_id i =? pool_installation) (installations p);
  let repo := fetch (λ x, eq_sql (Some (repo_id x)) (rn_target_repository_id r)) (repositories p) in
  Some {| rs_name := rn_name r; rs_status := rn_status r;
          rs_installation := match repo with
                             | Some x => repo_installation_id x | None => pool_installation end;
          rs_account_login := ins_account_login inst; rs_labels := pool_labels q;
          rs_runner_group_id := pool_runner_group_id q;
          rs_repository := (λ x, (repo_owner x, repo_name x)) <$> repo |}.

Definition target_for (runner : RunnerToStart) : RunnerTarget :=
  match rs_repository runner with
  | Some (owner, repository) => Repository owner repository
  | None => Organization (rs_account_login runner)
  end.

(** Registers the runner with GitHub: what its machine needs to start it. *)
Definition registration (placement : PlacementView) (prepare : PrepareEnvironment)
    (runner : RunnerToStart) (token : string) : Drive Material :=
  let labels := runner_labels prepare (rs_labels runner) in
  match pe_mode prepare with
  | Ephemeral =>
      '(github_runner_id, encoded) ← upstream "jit config" (λ n,
        generate_jit_config n (target_for runner) token
          {| jr_name := rs_name runner; jr_runner_group_id := rs_runner_group_id runner;
             jr_labels := labels; jr_work_folder := "_work" |});
      now ← now_millis;
      _ ← execute_policy (set_runners (runner_named (v_workload_id placement))
            (λ x, x <| rn_github_runner_id := Some github_runner_id |> <| rn_updated_at := now |>));
      mret (GithubJit encoded)
  | Persistent =>
      registered ← upstream "registration token" (λ n,
        generate_registration_token n (target_for runner) token);
      found ← ask (λ p _, fetch (λ x, String.eqb (repo_owner x) (default "" (fst <$> rs_repository runner))
                                      && String.eqb (repo_name x) (default "" (snd <$> rs_repository runner)))
                            (repositories p));
      mret (GithubRegistration registered
              (runner_registration_url (rs_account_login runner)
                 ((λ x, (repo_owner x, repo_name x)) <$> found))
              (rs_name runner) labels)
  end.

(** [placement::issue_command], with its own clock and draw. *)
Definition issues (placement : Uuid) (op : AgentOperation) (key : string) (ttl_ms : Z)
    : Drive (option Uuid) :=
  drawn ← new_v4;
  now ← now_millis;
  transaction (λ p w, issue_command p w placement op key ttl_ms drawn now).

Definition abandons (placement : Uuid) : Drive unit :=
  now ← now_millis;
  _ ← transaction (λ _ w, abandon_unstarted w placement now);
  mret tt.

Definition start_key (placement : Uuid) : string := "start:" +:+ to_string placement.

Definition start_runner (placement : PlacementView) (environment : Uuid) (prepare : PrepareEnvironment)
    (material : Material) : Drive unit :=
  now ← now_millis;
  drawn ← new_v4;
  nonce ← new_nonce;
  stored_at ← now_millis;
  reference ← transaction (λ _ w, store_bootstrap w vault (v_id placement) (material_json material)
                                    START_WINDOW_MILLIS drawn nonce stored_at);
  expires ← lift (timestamp (now + START_WINDOW_MILLIS));
  let operation := OpStartRunner
    {| sr_prepared_environment_id := environment;
       sr_execution_profile_id := pe_execution_profile_id prepare;
       sr_profile_revision := pe_profile_revision prepare; sr_bootstrap_reference := reference;
       sr_bootstrap_expires_at := expires; sr_resource_request := pe_resource_request prepare;
       sr_allocation_ids := pe_allocation_ids prepare |} in
  issued ← issues (v_id placement) operation (start_key (v_id placement))
             START_COMMAND_DEADLINE_MILLIS;
  match issued with
  | Some _ =>
      now ← now_millis;
      transaction (λ _ w, let? w' := mark_starting w (v_id placement) (v_workload_id placement) now in
                          Ok (w', tt))
  | None => mret tt
  end.

Definition register_and_start (placement : PlacementView) : Drive unit :=
  now ← now_millis;
  trusted ← ask (λ p w, host_has_authority p w (v_id placement) now);
  if negb trusted then mret tt else
  found ← ask (λ _ w, prepared_environment w (v_id placement));
  environment ← context "prepared environment is missing" found;
  found ← ask (λ _ w, prepared_with w (v_id placement));
  prepare ← context "prepare command is missing" found;
  found ← ask (λ p _, runner_to_start (v_workload_id placement) p);
  runner ← context "runner row is missing" found;
  if negb (String.eqb (rs_status runner) "starting") then abandons (v_id placement) else
  found ← installation_token (rs_installation runner);
  token ← context "GitHub App credentials are unavailable" found;
  material ← registration placement prepare runner token;
  start_runner placement environment prepare material.

(** *** Following *)
Definition started_identity (evidence : option SuccessEvidence) : option LocalResourceIdentity :=
  match evidence with Some (EvRunnerStarted _ _ _ identity) => Some identity | _ => None end.

Definition cleanup_key (placement : Uuid) (now : Z) : string :=
  "cleanup:" +:+ to_string placement +:+ ":" +:+ pretty (now ÷ 60000).

Definition cleans_up (placement : Uuid) (identity : LocalResourceIdentity) : Drive unit :=
  now ← now_millis;
  _ ← issues placement (OpCleanup identity) (cleanup_key placement now) 55000;
  mret tt.

(** A start that was cancelled or has had no answer for five minutes. *)
Definition watch_start (placement : PlacementView) : Drive unit :=
  found ← ask (λ _ w, command_state w (v_id placement) "start_runner");
  now ← now_millis;
  let stuck := match found with
               | Some (state, issued) =>
                   bool_decide (state = CsCancelled) || (issued <? now - 5 * 60000)
               | None => false
               end in
  if stuck then
    now ← now_millis;
    _ ← commits (λ _ w, let '(w', b) := set_state w (v_id placement) Starting Uncertain now in
                        (w', Ok b));
    mret tt
  else mret tt.

Definition mark_online (placement : PlacementView) (identity : LocalResourceIdentity) : Drive unit :=
  now ← now_millis;
  execute_policy (set_runners
    (λ x, runner_named (v_workload_id placement) x && String.eqb (rn_status x) "starting")
    (λ x, x <| rn_status := "online" |> <| rn_container_name := Some (container_name_of identity) |>
            <| rn_registered_at := Some now |> <| rn_last_heartbeat_at := Some now |>
            <| rn_updated_at := now |>)).

Definition runner_exited (id : string) (now : Z) : Policy → Policy :=
  set_runners (λ x, runner_named id x && negb (ended_status (rn_status x)))
    (λ x, x <| rn_status := "failed" |> <| rn_failure_reason := None |> <| rn_updated_at := now |>).

Definition follow (placement : PlacementView) : Drive unit :=
  runner_status ← ask (λ p _, rn_status <$> fetch (runner_named (v_workload_id placement)) (runners p));
  started ← ask (λ _ w, succeeded_evidence w (v_id placement) "start_runner");
  if bool_decide (v_state placement = Starting) then watch_start placement else
  match started_identity started with
  | None => mret tt
  | Some identity =>
      _ ← (if bool_decide (v_state placement = Running) && bool_decide (runner_status = Some "starting")
           then mark_online placement identity else mret tt);
      let deleted := match runner_status with None => true | Some status => ended_status status end in
      exited ← ask (λ _ w, reported_gone w (v_id placement) "inspect");
      if deleted || exited || bool_decide (v_state placement = Stopped) then
        _ ← (if deleted then mret tt else
             now ← now_millis; execute_policy (runner_exited (v_workload_id placement) now));
        cleans_up (v_id placement) identity
      else
        now ← now_millis;
        _ ← issues (v_id placement) (OpInspect identity)
              ("inspect:" +:+ to_string (v_id placement) +:+ ":"
                 +:+ pretty (now ÷ INSPECT_INTERVAL_MILLIS))
              (INSPECT_INTERVAL_MILLIS - 5000);
        mret tt
  end.

(** *** The end of a placement *)
Definition finish (placement : PlacementView) : Drive unit :=
  _ ← (if bool_decide (v_state placement = TerminalFailure) then abandons (v_id placement)
       else mret tt);
  _ ← (if bool_decide (v_state placement = Uncertain) then
         started ← ask (λ _ w, succeeded_evidence w (v_id placement) "start_runner");
         match started_identity started with
         | Some identity => cleans_up (v_id placement) identity
         | None => mret tt
         end
       else mret tt);
  now ← now_millis;
  execute_policy (retire_runner (v_workload_id placement) now).

Definition retire_ended : Drive unit :=
  ended ← ask_result (placements [TerminalFailure; Cleaned; Uncertain]);
  for_each finish ended.

Definition tick : Drive unit :=
  _ ← admit_waiting;
  _ ← expire_queued;
  registering ← ask_result (placements [Registering]);
  _ ← for_each_logged register_and_start registering;
  following ← ask_result (placements [Starting; Running; Stopped]);
  _ ← for_each_logged follow following;
  retire_ended.
End driver.
