(* ===== verification/DriverSpec.v ===== *)
(** * What the passes of the reconciler guarantee

    A relation on the written tables that holds over every transaction the
    driver makes, and over what others commit, holds over its runs
    ([Respected]).  Two relations are used: being a sequence of the fleet's
    transactions, and keeping the invariant that a placement is started
    once. *)
From stdpp Require Import pretty.
From S2P Require Import Prelude Base64 Ids Domain Protocol Outcomes Capabilities Crypto Store.
From S2P Require Import Service Admission AdmissionSpec Deletion Commands Placement Evolution Fleet.
From S2P Require Import Autoscaling Targets Platforms Driver.
#[local] Open Scope string_scope.
#[local] Open Scope Z_scope.

(** ** Runs that respect a relation *)
Create HintDb drive.

Section respected.
Context `{UuidText, Codec, RequestJson, ResultJson, Aead, Surroundings, Upstream}.

(** What the driver does to the written tables. *)
Class Respected (R : relation Work) : Prop := {
  resp_order :: PreOrder R;
  resp_others n p w : R w (meanwhile n (p, w)).2;
  resp_admit p w id n k w' outcome :
    let m := moments n k in
    admit_operation p w PrincipalReconciler id (m_now m) (m_clock m) (m_draws m) = Ok (w', outcome) →
    R w w';
  resp_submit p w request drawn now w' s :
    submit_intent p w PrincipalReconciler request drawn now = Ok (w', s) → R w w';
  resp_cancel w id now : R w (cancel_queued w id "no_capacity" now).1;
  resp_store w v placement material drawn nonce now w' r :
    store_bootstrap w v placement material START_WINDOW_MILLIS drawn nonce now = Ok (w', r) → R w w';
  resp_start p w placement start drawn now w' r :
    issue_command p w placement (OpStartRunner start) (start_key placement)
      START_COMMAND_DEADLINE_MILLIS drawn now = Ok (w', r) → R w w';
  resp_issue p w placement op key ttl drawn now w' r :
    database_kind op ≠ "start_runner" →
    issue_command p w placement op key ttl drawn now = Ok (w', r) → R w w';
  resp_mark w placement runner now w' : mark_starting w placement runner now = Ok w' → R w w';
  resp_abandon w placement now w' b : abandon_unstarted w placement now = Ok (w', b) → R w w';
  resp_stuck w placement now : R w (set_state w placement Starting Uncertain now).1 }.

Context (R : relation Work) {HR : Respected R}.

Definition respects {A} (c : Drive A) : Prop := ∀ s, R (work s) (work (c s).2).

Lemma respects_ret {A} (a : A) : respects (mret a).
Proof. by intros s. Qed.
Lemma respects_fails {A} e : respects (fails (A:=A) e).
Proof. by intros s. Qed.
Lemma respects_lift {A} (r : Result A FleetError) : respects (lift r).
Proof. by intros s. Qed.
Lemma respects_context {A} what (o : option A) : respects (context what o).
Proof. by intros s. Qed.
Lemma respects_now : respects now_millis.
Proof. by intros s. Qed.
Lemma respects_draw : respects new_v4.
Proof. by intros s. Qed.
Lemma respects_nonce : respects new_nonce.
Proof. by intros s. Qed.
Lemma respects_moments : respects slice_moments.
Proof. by intros s. Qed.
Lemma respects_upstream {A} message (call : nat → option A) : respects (upstream message call).
Proof. by intros s. Qed.

Lemma respects_bind {A B} (c : Drive A) (k : A → Drive B) :
  respects c → (∀ a, respects (k a)) → respects (c ≫= k).
Proof.
  intros Hc Hk s. specialize (Hc s). unfold mbind, Drive_bind.
  destruct (c s) as [[a|e] s1]; simpl in *; [|done]. etrans; [exact Hc|apply Hk].
Qed.

Lemma respects_attempt {A} (c : Drive A) : respects c → respects (attempt c).
Proof. intros Hc s. specialize (Hc s). unfold attempt. by destruct (c s). Qed.

Lemma respects_for_each {A} (f : A → Drive unit) l :
  (∀ a, respects (f a)) → respects (for_each f l).
Proof.
  intros Hf. induction l as [|a l IH]; simpl; [apply respects_ret|].
  apply respects_bind; [apply Hf|done].
Qed.

Lemma respects_logged {A} (f : A → Drive unit) l :
  (∀ a, respects (f a)) → respects (for_each_logged f l).
Proof.
  intros Hf. apply respects_for_each. intros a. apply respects_bind; [by apply respects_attempt|].
  intros ?. apply respects_ret.
Qed.

Lemma others_respects s : R (work s) (work (others s)).
Proof.
  unfold others. pose proof (resp_others (turn s) (policy s) (work s)) as Ho.
  by destruct (meanwhile _ _) as [p w].
Qed.

Lemma respects_ask {A} (q : Policy → Work → A) : respects (ask q).
Proof. intros s. apply others_respects. Qed.

Lemma respects_ask_result {A} (q : Policy → Work → Result A FleetError) : respects (ask_result q).
Proof. apply respects_bind; [apply respects_ask|]. intros r. apply respects_lift. Qed.

Lemma respects_action {A} (a : (nat → Uuid) → Action A) : respects (action a).
Proof.
  intros s. unfold action. pose proof (others_respects s) as Ho.
  by destruct (a _ _) as [r p].
Qed.

Lemma respects_commits {A} (f : Policy → Work → Work * Result A FleetError) :
  (∀ p w, R w (f p w).1) → respects (commits f).
Proof.
  intros Hf s. unfold commits. specialize (Hf (policy (others s)) (work (others s))).
  destruct (f _ _) as [w r]. simpl in *. etrans; [apply others_respects|done].
Qed.

Lemma respects_transaction {A} (f : Policy → Work → Result (Work * A) FleetError) :
  (∀ p w w' a, f p w = Ok (w', a) → R w w') → respects (transaction f).
Proof.
  intros Hf. apply respects_commits. intros p w.
  destruct (f p w) as [[w' a]|e] eqn:E; [by eapply Hf|done].
Qed.

Lemma slice_loop_respects p w ms report rows :
  (∀ k, ∃ n k', ms k = moments n k') →
  R w (run_slice_loop p w PrincipalReconciler ms report rows).1.
Proof.
  revert w ms report. induction rows as [|i rows IH]; intros w ms report Hms; simpl; [done|].
  destruct (admit_operation _ _ _ _ _ _ _) as [[w1 outcome]|e] eqn:E; [|done].
  destruct (Hms 0%nat) as (n & k & Em). rewrite Em in E.
  etrans; [by eapply resp_admit|]. by apply IH.
Qed.

Lemma slice_respects p w now n : R w (admit_queued p w PrincipalReconciler 100 now (moments n)).1.
Proof.
  unfold admit_queued. destruct (ScanLimit_new 100) as [limit|e]; [|done].
  apply slice_loop_respects. eauto.
Qed.

#[local] Hint Resolve respects_ret respects_fails respects_lift respects_context respects_now
  respects_draw respects_nonce respects_moments respects_upstream respects_ask respects_ask_result
  respects_action : drive.

Ltac drive :=
  repeat first
    [ progress intros | solve [eauto with drive nocore] | apply respects_bind
    | apply respects_attempt | apply respects_for_each | apply respects_transaction
    | apply respects_commits | progress case_match ].

(** *** The operations of the driver *)
Lemma respects_admit_waiting : respects admit_waiting.
Proof.
  unfold admit_waiting. apply respects_bind; [apply respects_now|]. intros now s.
  set (s1 := s <| turn ::= S |>). pose proof (others_respects s1) as Ho.
  pose proof (slice_respects (policy (others s1)) (work (others s1)) now (turn s)) as Hs.
  unfold mbind, Drive_bind, slice_moments, commits. fold s1. cbv beta iota.
  destruct (admit_queued _ _ _ _ _ _) as [w r]. cbn in Hs.
  etrans; [exact Ho|]. by destruct r.
Qed.
#[local] Hint Resolve respects_admit_waiting : drive.

Lemma respects_issues placement op key ttl :
  database_kind op ≠ "start_runner" → respects (issues placement op key ttl).
Proof. intros Hop. unfold issues. drive. all: by eapply resp_issue; [|eassumption]. Qed.

Lemma respects_abandons placement : respects (abandons placement).
Proof. unfold abandons. drive. by eapply resp_abandon. Qed.

Lemma respects_runtime_secret vault key : respects (runtime_secret vault key).
Proof. intros s. unfold runtime_secret. pose proof (others_respects s). by repeat case_match. Qed.
#[local] Hint Resolve respects_abandons respects_runtime_secret : drive.

Lemma respects_start_runner vault placement environment prepare material :
  respects (start_runner vault placement environment prepare material).
Proof.
  unfold start_runner, issues. drive.
  - by eapply resp_store.
  - by eapply resp_start.
  - inv_result. by eapply resp_mark.
Qed.

Lemma respects_cleans_up placement identity : respects (cleans_up placement identity).
Proof. unfold cleans_up. drive. all: by eapply resp_issue; [|eassumption]. Qed.
#[local] Hint Resolve respects_start_runner respects_cleans_up : drive.

Lemma respects_register vault placement : respects (register_and_start vault placement).
Proof. unfold register_and_start, installation_token, registration. drive. Qed.

Lemma respects_watch placement : respects (watch_start placement).
Proof.
  unfold watch_start. drive; match goal with E : set_state ?w ?id _ _ ?now = _ |- _ =>
    pose proof (resp_stuck w id now) as Hs; by rewrite E in Hs end.
Qed.
#[local] Hint Resolve respects_watch : drive.

Lemma respects_follow placement : respects (follow placement).
Proof. unfold follow, mark_online, execute_policy. drive. all: by eapply resp_issue; [|eassumption]. Qed.

Lemma respects_finish placement : respects (finish placement).
Proof. unfold finish, execute_policy. drive. Qed.

Lemma respects_expire_row row : respects (expire_row row).
Proof.
  unfold expire_row, execute_policy. drive; match goal with E : cancel_queued ?w ?id _ ?now = _ |- _ =>
    pose proof (resp_cancel w id now) as Hs; by rewrite E in Hs end.
Qed.
#[local] Hint Resolve respects_register respects_follow respects_finish respects_expire_row : drive.

Lemma respects_expire : respects expire_queued.
Proof. unfold expire_queued. drive. Qed.
#[local] Hint Resolve respects_expire : drive.

Lemma respects_tick vault : respects (tick vault).
Proof. unfold tick, for_each_logged, retire_ended. drive. Qed.

Lemma respects_provision arch pool profiles profile :
  respects (fleet_provision arch pool profiles profile).
Proof.
  unfold fleet_provision, runner_target, repository_for_platform, external_id, execute_policy. drive.
  by eapply resp_submit.
Qed.
End respected.

Lemma both_respected `{UuidText, Codec, RequestJson, ResultJson, Aead, Surroundings, Upstream}
    (R S : relation Work) :
  Respected R → Respected S → Respected (λ w w', R w w' ∧ S w w').
Proof.
  intros [? ? ? ? ? ? ? ? ? ? ?] [? ? ? ? ? ? ? ? ? ? ?]. split; [|intros; split; by eauto..].
  split; [by intros w|]. intros w1 w2 w3 [] []. split; by etrans.
Qed.

(** ** A run is a sequence of the fleet's transactions *)
#[export] Instance Policy_inhabited : Inhabited Policy := populate
  {| users := []; user_installations := []; installations := []; repositories := [];
     runner_pools := []; runner_pool_installations := []; runner_pool_repositories := [];
     runner_pool_bitbucket_connections := []; runner_pool_priority_repositories := [];
     runner_pool_priorities := []; bitbucket_connections := []; bitbucket_user_grants := [];
     settings := []; agent_runs := []; runners := []; workflow_runs := []; workflow_jobs := [];
     fleet_control_plane := None; fleet_hosts := []; host_credentials := [];
     host_resource_domains := []; host_backends := []; fleet_ci_targets := [];
     host_target_grants := []; host_user_grants := []; host_sessions := [];
     host_session_target_grants := []; pool_execution_profiles := []; profile_ci_targets := [];
     profile_host_selectors := [] |}.

Section fleet.
Context `{UuidText, Codec, RequestJson, ResultJson, Aead, Surroundings, Upstream}.

Lemma one_step p w w' : step p w w' → rtc any_step w w'.
Proof. intros Hs. apply rtc_once, any_work. by exists p. Qed.

Lemma fleet_respected :
  (∀ n p w, rtc any_step w (meanwhile n (p, w)).2) → Respected (rtc any_step).
Proof.
  intros Ho. split; [apply _|exact Ho|..]; intros; eapply one_step.
  - by eapply step_admit.
  - by eapply step_submit.
  - by eapply (step_cancel inhabitant).
  - by eapply (step_store inhabitant).
  - by eapply step_issue.
  - by eapply step_issue.
  - by eapply (step_mark inhabitant).
  - by eapply (step_abandon inhabitant).
  - by eapply (step_set_state inhabitant).
Qed.

(** Whatever the reconciler does in a pass over the placements, or to make
    a runner, the written tables change only by the fleet's transactions, one
    after the other, also when other processes commit theirs between any two
    of its statements and however the pass ends, with an error or without.
    So every invariant of the reachable states holds after it. *)
Theorem passes_are_fleet_transactions (vault : Vault) (arch : string) (pool : PoolRow)
    (profiles : list Profile) (profile : Profile) (s : World) :
  (∀ n p w, rtc any_step w (meanwhile n (p, w)).2) →
  rtc any_step (work s) (work (tick vault s).2)
  ∧ rtc any_step (work s) (work (fleet_provision arch pool profiles profile s).2).
Proof.
  intros Ho%fleet_respected. split; [apply (respects_tick _)|apply (respects_provision _)].
Qed.
End fleet.

(** ** A placement is started once *)
Section starts.
Context `{UuidText, Codec, RequestJson, ResultJson, Aead}.

(** The placement, host and key of each start command. *)
Definition is_start (c : CommandRow) : bool := String.eqb (c_kind c) "start_runner".

Definition start_rows (w : Work) : list (option string * string * string) :=
  (λ c, (c_placement_id c, c_host_id c, c_idempotency_key c)) <$> select is_start (host_commands w).

Record started_once (w : Work) : Prop := {
  so_bound : ∀ x, x ∈ start_rows w → ∃ pl, pl ∈ workload_placements w
    ∧ x = (Some (pl_id pl), pl_host_id pl, "start:" +:+ pl_id pl);
  so_once : NoDup ((λ x, x.1.1) <$> start_rows w) }.

Definition keeps_starts (w w' : Work) : Prop :=
  start_rows w' = start_rows w
  ∧ ∀ pl, pl ∈ workload_placements w →
      ∃ pl', pl' ∈ workload_placements w' ∧ pl_id pl' = pl_id pl ∧ pl_host_id pl' = pl_host_id pl.

Lemma keeps_started_once w w' : keeps_starts w w' → started_once w → started_once w'.
Proof.
  intros [Er Hpl] [Hb Hn]. split; rewrite Er; [|done].
  intros x Hx. destruct (Hb x Hx) as (pl & Hin & ->). destruct (Hpl pl Hin) as (pl' & Hin' & Hi & Hh).
  exists pl'. split; [done|]. by rewrite Hi, Hh.
Qed.

Lemma keeps_same w w' :
  host_commands w' = host_commands w → workload_placements w' = workload_placements w →
  keeps_starts w w'.
Proof. intros EC EP. unfold keeps_starts, start_rows. rewrite EC, EP. eauto. Qed.

Lemma start_rows_evolve l l' :
  Forall2 c_evolves l l' →
  (λ c, (c_placement_id c, c_host_id c, c_idempotency_key c)) <$> select is_start l'
  = (λ c, (c_placement_id c, c_host_id c, c_idempotency_key c)) <$> select is_start l.
Proof.
  induction 1 as [|c c' l l' Hc _ IH]; [done|]. simpl.
  assert (is_start c' = is_start c) as ->
    by (unfold is_start; by rewrite <-(c_evolves_field c_kind ltac:(done) _ _ Hc)).
  destruct (is_start c); [|exact IH]. simpl. f_equal; [|exact IH].
  symmetry. by apply (c_evolves_field (λ c, (c_placement_id c, c_host_id c, c_idempotency_key c))).
Qed.

Lemma evolves_keeps w w' : evolves w w' → keeps_starts w w'.
Proof.
  intros He. pose proof He as [HP _ HC _ _]. split; [by apply start_rows_evolve|].
  intros pl Hin. destruct (Forall2_elem_of_l _ _ _ _ HP Hin) as (pl' & Hin' & Hev). exists pl'.
  by rewrite <-(pl_evolves_field pl_id ltac:(done) _ _ Hev),
    <-(pl_evolves_field pl_host_id ltac:(done) _ _ Hev).
Qed.

(** A command that is not a start, appended. *)
Lemma appended_keeps w w' cmd :
  host_commands w' = (host_commands w ++ [cmd])%list → c_kind cmd ≠ "start_runner" →
  (∀ pl, pl ∈ workload_placements w → pl ∈ workload_placements w') → keeps_starts w w'.
Proof.
  intros EC Hk Hpl. split; [|eauto]. unfold start_rows. rewrite EC, select_app, fmap_app. simpl.
  apply String.eqb_neq in Hk. change (is_start cmd) with (String.eqb (c_kind cmd) "start_runner").
  by rewrite Hk, app_nil_r.
Qed.

Lemma submit_keeps p w principal request drawn now w' s :
  submit_intent p w principal request drawn now = Ok (w', s) → keeps_starts w w'.
Proof.
  intros (identity & hash & _ & _ & _ & E)%submit_intent_Ok. apply keeps_same;
    (destruct (operation_by_key _ _ _); [by destruct E as [-> _]|]);
    by destruct E as (? & _ & _ & _ & _ & _ & -> & _).
Qed.

Lemma cancel_keeps w id reason now : keeps_starts w (cancel_queued w id reason now).1.
Proof. apply keeps_same; unfold cancel_queued; simpl; by case_match. Qed.

Lemma admit_keeps p w controller id now clock draws w' outcome :
  admit_operation p w controller id now clock draws = Ok (w', outcome) → keeps_starts w w'.
Proof.
  intros [_ E]%admit_operation_Ok. destruct outcome; [| |subst; by apply keeps_same].
  - destruct E as (intent & c & cs & t & _ & _ & _ & _ & _ & _ & _ & Hins%insert_admission_Ok).
    pose proof (ar_placement _ _ _ _ _ _ _ Hins) as EP.
    destruct (ar_allocations _ _ _ _ _ _ _ Hins)
      as (path & ids & _ & _ & _ & e & sealed & _ & _ & Hc).
    eapply appended_keeps; [exact Hc|done|intros pl; rewrite EP; set_solver].
  - destruct E as [reason ->]. by apply keeps_same.
Qed.

(** A command that is issued names its placement, that placement's host and a
    key no command of the host has. *)
Lemma issue_command_row p w placement op key ttl drawn now w' r :
  issue_command p w placement op key ttl drawn now = Ok (w', r) →
  w' = w ∨ ∃ pl cmd, w' = set_commands w (host_commands w ++ [cmd])%list
    ∧ pl ∈ workload_placements w ∧ pl_id pl = to_string placement
    ∧ c_placement_id cmd = Some (pl_id pl) ∧ c_host_id cmd = pl_host_id pl
    ∧ c_idempotency_key cmd = key ∧ c_kind cmd = database_kind op
    ∧ ∀ x, x ∈ host_commands w → c_host_id x = c_host_id cmd → c_idempotency_key x ≠ key.
Proof.
  unfold issue_command, commandable, placement_row. intros E.
  destruct (fetch _ (workload_placements w)) as [pl|] eqn:Epl; [|left; simpl in E; by simplify_eq].
  apply fetch_Some in Epl as [Hin Hid%String.eqb_eq]. simpl in E.
  case_match eqn:Ec; [|left; by simplify_eq]. destruct p0 as [[[pl' h] session] inc].
  assert (pl' = pl) as ->.
  { repeat (apply bind_Some in Ec as (? & _ & Ec)). by case_match; simplify_eq. }
  apply bind_Ok in E as (command & _ & E). apply bind_Ok in E as (e & E2 & E).
  apply bind_Ok in E as (sealed & E3%map_err_Ok & E). apply bind_Ok in E as ([w1 b] & E4 & E).
  unfold insert_issued in E4. destruct (exists_row _ _) eqn:Ek; [left; by simplify_eq|].
  destruct (_ || _) eqn:Ebad; [done|]. simplify_eq/=. right. eexists pl, _. split; [done|].
  assert (operation e = op) as Eo by (unfold issued_envelope, timestamp, invariant_err in E2; by inv_result).
  pose proof (seal_hash_fields _ _ E3) as (_ & Fo & _). simpl. rewrite Fo, Eo, Hid.
  rewrite !orb_false_iff, !negb_false_iff in Ebad. destruct Ebad as [[[_ _] Hh%String.eqb_eq] _].
  split_and!; try done. intros x Hx Hhost Hkey.
  rewrite exists_row_false in Ek. specialize (Ek x Hx). simpl in Ek, Hhost.
  by rewrite Hhost, Hkey, !String.eqb_refl in Ek.
Qed.

Lemma issue_keeps p w placement op key ttl drawn now w' r :
  database_kind op ≠ "start_runner" →
  issue_command p w placement op key ttl drawn now = Ok (w', r) → keeps_starts w w'.
Proof.
  intros Hop [->|(pl & cmd & -> & _ & _ & _ & _ & _ & Hk & _)]%issue_command_row;
    [by apply keeps_same|].
  by apply (appended_keeps _ _ cmd); [|rewrite Hk|].
Qed.

(** The key of a start names the placement, so a second one is not stored. *)
Lemma start_once p w placement start ttl drawn now w' r :
  consistent w → started_once w →
  issue_command p w placement (OpStartRunner start) (start_key placement) ttl drawn now = Ok (w', r) →
  started_once w'.
Proof.
  intros Hw [Hb Hn] [->|(pl & cmd & -> & Hin & Hid & Hpl & Hh & Hkey & Hk & Hfresh)]%issue_command_row;
    [done|].
  assert (start_rows (set_commands w (host_commands w ++ [cmd])) =
    (start_rows w ++ [(Some (pl_id pl), pl_host_id pl, "start:" +:+ pl_id pl)])%list) as Er.
  { unfold start_rows. simpl. rewrite select_app, fmap_app. f_equal. simpl.
    unfold is_start. rewrite Hk. simpl. rewrite Hpl, Hh, Hkey. unfold start_key. by rewrite Hid. }
  split; rewrite Er.
  - intros x [Hx|Hx%list_elem_of_singleton]%elem_of_app; [by apply Hb|]. exists pl. by subst x.
  - rewrite fmap_app. simpl. apply NoDup_app. split; [done|]. split; [|by apply NoDup_singleton].
    intros o (x & -> & Hx)%list_elem_of_fmap Ho%list_elem_of_singleton.
    destruct (Hb x Hx) as (pl' & Hin' & ->). simpl in Ho. injection Ho as Ho.
    assert (pl' = pl) as -> by (by eapply unique_by; [apply (inv_placements _ Hw)|..]).
    apply list_elem_of_fmap in Hx as (c & Ec & Hc). apply elem_of_select in Hc as [Hc _].
    injection Ec as _ Ech Eck. apply (Hfresh c Hc); [congruence|].
    unfold start_key. by rewrite <-Eck, <-Hid.
Qed.

(** What other processes commit: any of the fleet's transactions, but only
    the reconciler issues starts. *)
Definition other_step (w w' : Work) : Prop :=
  any_step w w'
  ∧ ∀ c', c' ∈ host_commands w' → is_start c' = true →
      ∃ c, c ∈ host_commands w ∧ c_id c = c_id c'.

Lemma work_step_keeps p w w' :
  consistent w → step p w w' →
  (∀ c', c' ∈ host_commands w' → is_start c' = true → ∃ c, c ∈ host_commands w ∧ c_id c = c_id c') →
  keeps_starts w w'.
Proof.
  intros Hw Hs Hno. pose proof (inv_commands _ Hw) as Hnd.
  destruct Hs as [|id reason now ? b E| | | | | | |? op ? ? ? ? ? ? E| | | |????? b E];
    eauto using submit_keeps, admit_keeps, evolves_keeps, poll_commands_evolves,
      claim_bootstrap_evolves, record_command_result_evolves, settle_unreceived_evolves,
      repair_unconfirmed_evolves, store_bootstrap_evolves, mark_starting_evolves,
      abandon_unstarted_evolves.
  - pose proof (cancel_keeps w id reason now) as Hk. by rewrite E in Hk.
  - destruct (decide (database_kind op = "start_runner")) as [Hop|Hop]; [|by eapply issue_keeps].
    apply issue_command_Ok in E as [[-> _]|(cmd & -> & Hwf & _ & _ & _ & Hpay & _ & _ & Hf)];
      [by apply keeps_same|].
    destruct Hwf as (_ & _ & Hk & _). destruct (Hno cmd) as (x & Hx & Hid); [set_solver| |by destruct (Hf x Hx)].
    unfold is_start. by rewrite Hk, Hpay, Hop.
  - injection E as <- <-. apply evolves_keeps, set_state_evolves.
Qed.

(** A deletion takes starts with their placements. *)
Lemma select_comm {A} (p q : A → bool) l : select p (select q l) = select q (select p l).
Proof. induction l as [|a l IH]; [done|]. simpl. destruct (q a) eqn:Eq, (p a) eqn:Ep; simpl; rewrite ?Ep, ?Eq, IH; done. Qed.

Lemma delete_started_once w pool : started_once w → started_once (delete_work w pool).
Proof.
  intros [Hb Hn]. split.
  - intros x (c & -> & [Hc Hst]%elem_of_select)%list_elem_of_fmap. apply kept_command in Hc as [Hc Hk].
    destruct (Hb (c_placement_id c, c_host_id c, c_idempotency_key c)) as (pl & Hpl & Ex).
    { apply list_elem_of_fmap. exists c. split; [done|]. by apply elem_of_select. }
    exists pl. split; [|done]. apply elem_of_delete. split; [done|]. apply bool_decide_eq_false.
    apply Hk. by injection Ex.
  - unfold start_rows in Hn |- *. rewrite <-list_fmap_compose in Hn |- *. simpl. unfold delete_where.
    rewrite select_comm. by apply delete_column.
Qed.

Lemma other_step_starts w w' : consistent w → other_step w w' → started_once w → started_once w'.
Proof.
  intros Hw [[[p Hs]|p pool p' (_ & _ & ->)%delete_pool_Ok] Hno]; [|apply delete_started_once].
  by apply keeps_started_once; eapply work_step_keeps.
Qed.

Definition driver_invariant (w : Work) : Prop := consistent w ∧ started_once w.

Lemma other_steps_invariant w w' : rtc other_step w w' → driver_invariant w → driver_invariant w'.
Proof.
  induction 1 as [|w w1 w2 Hs _ IH]; [done|]. intros [Hc Ho]. apply IH. split.
  - destruct Hs as [Hs _]. by eapply any_step_consistent.
  - by eapply other_step_starts, Ho.
Qed.
End starts.

Section started.
Context `{UuidText, Codec, RequestJson, ResultJson, Aead, Surroundings, Upstream}.
Context (Hothers : ∀ n p w, consistent w → rtc other_step w (meanwhile n (p, w)).2).

Definition invariant_kept (w w' : Work) : Prop := driver_invariant w → driver_invariant w'.

Lemma kept_by p w w' : step p w w' → keeps_starts w w' → invariant_kept w w'.
Proof.
  intros Hs Hk [Hc Ho]. split; [by eapply step_consistent|by eapply keeps_started_once].
Qed.

#[local] Instance invariant_respected : Respected invariant_kept.
Proof.
  split; intros.
  - split; [intros w Hw; exact Hw|]. intros w1 w2 w3 H12 H23 Hw. by apply H23, H12.
  - intros Hw. by eapply other_steps_invariant, Hw; apply Hothers, Hw.
  - eapply kept_by; [by eapply step_admit|by eapply admit_keeps].
  - eapply kept_by; [by eapply step_submit|by eapply submit_keeps].
  - eapply kept_by; [by eapply (step_cancel inhabitant)|by apply cancel_keeps].
  - eapply kept_by; [by eapply (step_store inhabitant)|by eapply evolves_keeps, store_bootstrap_evolves].
  - intros [Hc Ho]. split; [by eapply step_consistent; [eapply step_issue|]|by eapply start_once].
  - eapply kept_by; [by eapply step_issue|by eapply issue_keeps].
  - eapply kept_by; [by eapply (step_mark inhabitant)|by eapply evolves_keeps, mark_starting_evolves].
  - eapply kept_by; [by eapply (step_abandon inhabitant)|by eapply evolves_keeps, abandon_unstarted_evolves].
  - eapply kept_by; [by eapply (step_set_state inhabitant)|by eapply evolves_keeps, set_state_evolves].
Qed.

(** The states a fleet reaches whose reconciler runs alone: from a new
    database, by its passes and by making runners, with whatever others commit
    meanwhile. *)
Inductive driven (vault : Vault) (arch : string) : World → Prop :=
| driven_new s : work s = new_database → driven vault arch s
| driven_tick s : driven vault arch s → driven vault arch (tick vault s).2
| driven_provision s pool profiles profile :
    driven vault arch s → driven vault arch (fleet_provision arch pool profiles profile s).2.

Lemma driven_invariant vault arch s : driven vault arch s → driver_invariant (work s).
Proof.
  induction 1 as [s Hs|s _ IH|s pool profiles profile _ IH].
  - rewrite Hs. split; [apply new_database_consistent|].
    split; [by intros x Hx%elem_of_nil|apply NoDup_nil_2].
  - by apply (respects_tick invariant_kept).
  - by apply (respects_provision invariant_kept).
Qed.

Lemma starts_of_placement placement l :
  NoDup (c_placement_id <$> select is_start l) →
  (length (select (command_of placement "start_runner") l) ≤ 1)%nat.
Proof.
  intros Hnd. assert (select (command_of placement "start_runner") l
    = select (λ c, eq_sql (c_placement_id c) (Some placement)) (select is_start l)) as ->.
  { clear. induction l as [|c l IH]; [done|]. simpl. unfold command_of at 1.
    change (is_start c) with (String.eqb (c_kind c) "start_runner").
    destruct (String.eqb _ _); simpl; destruct (eq_sql _ _); simpl; first [exact IH|f_equal; exact IH]. }
  destruct (select _ (select is_start l)) as [|c l'] eqn:E; [simpl; lia|].
  assert (c ∈ select is_start l ∧ eq_sql (c_placement_id c) (Some placement) = true) as [Hc Hq]
    by (apply (elem_of_select (λ c, eq_sql (c_placement_id c) (Some placement))); rewrite E; by left).
  pose proof (count_one _ (λ c, eq_sql (c_placement_id c) (Some placement)) _ c Hnd Hc Hq) as Hone.
  unfold count_rows in Hone. rewrite E in Hone. enough (Z.of_nat (length (c :: l')) = 1) by lia.
  apply Hone. intros b _ Hb. apply eq_sql_true in Hb as (x & -> & ?), Hq as (y & -> & ?). congruence.
Qed.

(** C9: the reconciler starts a placement once.  From a new database, after
    any number of passes and new runners, and whatever the fleet's other
    transactions do between its statements, a placement has at most one start
    command: a pass that finds it still registering, after a crash or because
    its own state change was lost, does not start a second runner. *)
Theorem placement_started_once (vault : Vault) (arch : string) (s : World) (placement : string) :
  driven vault arch s →
  count_rows (command_of placement "start_runner") (host_commands (work s)) ≤ 1.
Proof.
  intros [_ Ho]%driven_invariant. pose proof (so_once _ Ho) as Hn. unfold start_rows in Hn.
  rewrite <-list_fmap_compose in Hn. pose proof (starts_of_placement placement _ Hn).
  unfold count_rows. lia.
Qed.
End started.

(** ** What a run leaves retired *)
Lemma drive_bind_Ok {A B} (c : Drive A) (k : A → Drive B) s b s' :
  (c ≫= k) s = (Ok b, s') → ∃ a s1, c s = (Ok a, s1) ∧ k a s1 = (Ok b, s').
Proof. unfold mbind, Drive_bind. destruct (c s) as [[a|e] s1]; [eauto|done]. Qed.

(** A runner that no row shows alive. *)
Definition retired (id : string) (p : Policy) : Prop :=
  ∀ x, x ∈ runners p → rn_id x = id → ended_status (rn_status x) = true.

Lemma retire_runner_retired id now p other :
  retired other p ∨ other = id → retired other (retire_runner id now p).
Proof.
  unfold retired, retire_runner, set_runners. simpl. intros Ho x (y & Hy & ->)%elem_of_update_where Hid.
  destruct (runner_named id y && negb (ended_status (rn_status y))) eqn:E; [done|].
  destruct Ho as [Ho| ->]; [by apply Ho|]. unfold runner_named in E. rewrite Hid, String.eqb_refl in E.
  by apply negb_false_iff in E.
Qed.

Lemma placements_listed `{UuidText} states p w l :
  placements states p w = Ok l →
  (∀ pl, pl ∈ workload_placements w → pl_state pl ∈ states → is_Some (joined p w pl) →
     ∃ v, v ∈ l ∧ v_workload_id v = pl_workload_id pl)
  ∧ ∀ v, v ∈ l → ∃ pl, pl ∈ workload_placements w ∧ parse_id (pl_id pl) = Ok (v_id v)
      ∧ pl_state pl = v_state v.
Proof.
  intros HF%traverse_Ok.
  assert (∀ pl i pr v, view (pl, i, pr) = Ok v → parse_id (pl_id pl) = Ok (v_id v)
    ∧ pl_state pl = v_state v ∧ v_workload_id v = pl_workload_id pl) as Hview.
  { intros pl i pr v E. unfold view in E. by inv_result. }
  assert (∀ pl row, joined p w pl = Some row → row.1.1 = pl) as Hj.
  { intros pl row E. unfold joined in E. apply bind_Some in E as (i & _ & E).
    by apply bind_Some in E as (pr & _ & [= <-]). }
  split.
  - intros pl Hin Hst [row Hrow].
    assert (row ∈ omap (joined p w) (order_by (lex_le pl_created_at (λ a b, String.leb (pl_id a) (pl_id b)))
      (select (λ pl, bool_decide (pl_state pl ∈ states)) (workload_placements w)))) as Hr.
    { apply list_elem_of_omap. exists pl. split; [|done]. apply elem_of_order_by, elem_of_select.
      by rewrite bool_decide_eq_true. }
    destruct (Forall2_elem_of_l _ _ _ _ HF Hr) as (v & Hv & E). exists v. split; [done|].
    destruct row as [[pl0 i] pr]. apply Hview in E as (_ & _ & ->). by rewrite <-(Hj pl _ Hrow).
  - intros v Hv. destruct (Forall2_elem_of_r _ _ _ _ HF Hv) as ([[pl i] pr] & Hr & E).
    apply list_elem_of_omap in Hr as (pl0 & Hin%elem_of_order_by & Hrow). apply elem_of_select in Hin as [Hin _].
    pose proof (Hj _ _ Hrow) as Epl. simpl in Epl. subst pl0. apply Hview in E as (? & ? & _). by exists pl.
Qed.

Section retiring.
Context `{UuidText, Codec, RequestJson, ResultJson, Aead, Surroundings, Upstream}.
(** Whatever else other processes commit, they bring no retired runner back. *)
Context (Hretired : ∀ n p w id, retired id p → retired id (meanwhile n (p, w)).1).

Definition keeps_retired {A} (c : Drive A) : Prop :=
  ∀ s id, retired id (policy s) → retired id (policy (c s).2).

Lemma others_retired s id : retired id (policy s) → retired id (policy (others s)).
Proof. unfold others. intros Hr. apply (Hretired (turn s) _ (work s)) in Hr. by destruct (meanwhile _ _). Qed.

Lemma bind_retired {A B} (c : Drive A) (k : A → Drive B) :
  keeps_retired c → (∀ a, keeps_retired (k a)) → keeps_retired (c ≫= k).
Proof.
  intros Hc Hk s id Hr. unfold mbind, Drive_bind. apply (Hc s) in Hr.
  destruct (c s) as [[a|e] s1]; [by apply Hk|done].
Qed.

Lemma ret_retired {A} (a : A) : keeps_retired (mret a).
Proof. intros s id Hr. exact Hr. Qed.

Lemma now_retired : keeps_retired now_millis.
Proof. intros s id Hr. exact Hr. Qed.

Lemma draw_retired : keeps_retired new_v4.
Proof. intros s id Hr. exact Hr. Qed.

Lemma ask_retired {A} (q : Policy → Work → A) : keeps_retired (ask q).
Proof. intros s id Hr. simpl. by apply others_retired. Qed.

Lemma transaction_retired {A} (f : Policy → Work → Result (Work * A) FleetError) :
  keeps_retired (transaction f).
Proof.
  intros s id Hr. apply others_retired in Hr. unfold transaction, commits.
  by destruct (match f _ _ with Ok _ => _ | Err _ => _ end).
Qed.

Lemma retire_retired id now : keeps_retired (execute_policy (retire_runner id now)).
Proof.
  intros s other Hr. unfold execute_policy, action. simpl. apply retire_runner_retired. left.
  by apply others_retired.
Qed.

Create HintDb retired discriminated.
#[local] Hint Resolve bind_retired ret_retired now_retired draw_retired ask_retired transaction_retired
  retire_retired : retired.

Lemma abandons_retired id : keeps_retired (abandons id).
Proof. unfold abandons. eauto 10 with retired. Qed.

Lemma cleans_up_retired id identity : keeps_retired (cleans_up id identity).
Proof. unfold cleans_up, issues. eauto 10 with retired. Qed.

#[local] Hint Resolve abandons_retired cleans_up_retired : retired.

Lemma finish_retired v : keeps_retired (finish v).
Proof.
  unfold finish. apply bind_retired; [case_bool_decide; eauto with retired|intros _].
  apply bind_retired; [|eauto with retired].
  case_bool_decide; [|eauto with retired]. apply bind_retired; [eauto with retired|].
  intros o. case_match; eauto with retired.
Qed.

Lemma finish_retires v s s' : finish v s = (Ok tt, s') → retired (v_workload_id v) (policy s').
Proof.
  intros (u & s1 & _ & E)%drive_bind_Ok. apply drive_bind_Ok in E as (u' & s2 & _ & E).
  apply drive_bind_Ok in E as (now & s3 & _ & E). unfold execute_policy, action in E. simplify_eq/=.
  apply retire_runner_retired. by right.
Qed.

Lemma finish_all_retired l s s' :
  for_each finish l s = (Ok tt, s') →
  (∀ id, retired id (policy s) → retired id (policy s'))
  ∧ ∀ v, v ∈ l → retired (v_workload_id v) (policy s').
Proof.
  revert s. induction l as [|v l IH]; intros s; simpl.
  - intros [= <-]. split; [done|]. by intros v Hv%elem_of_nil.
  - intros ([] & s1 & E1 & E)%drive_bind_Ok. destruct (IH _ E) as [Hk Hl].
    assert (∀ id, retired id (policy s) → retired id (policy s1)) as Hk1.
    { intros id Hr. pose proof (finish_retired v s id Hr) as Hr1. by rewrite E1 in Hr1. }
    split; [auto|]. intros x [->|Hx]%elem_of_cons; [|auto]. by apply Hk, (finish_retires v s).
Qed.

(** A pass up to the statement that lists the placements that ended. *)
Definition before_end (vault : Vault) : Drive unit :=
  _ ← admit_waiting;
  _ ← expire_queued;
  registering ← ask_result (placements [Registering]);
  _ ← for_each_logged (register_and_start vault) registering;
  following ← ask_result (placements [Starting; Running; Stopped]);
  for_each_logged follow following.

Lemma tick_before_end vault s s' :
  tick vault s = (Ok tt, s') → retire_ended (before_end vault s).2 = (Ok tt, s').
Proof.
  intros (? & s1 & E1 & E)%drive_bind_Ok. apply drive_bind_Ok in E as (? & s2 & E2 & E).
  apply drive_bind_Ok in E as (l & s3 & E3 & E). apply drive_bind_Ok in E as (? & s4 & E4 & E).
  apply drive_bind_Ok in E as (l' & s5 & E5 & E). apply drive_bind_Ok in E as (? & s6 & E6 & E).
  unfold before_end, mbind, Drive_bind. rewrite E1, E2, E3, E4, E5, E6. exact E.
Qed.

End retiring.

(** ** Passes that nothing interrupts *)
Section quiet.
Context `{UuidText, Codec, RequestJson, ResultJson, Aead, Surroundings, Upstream}.
Context (Hquiet : ∀ n x, meanwhile n x = x).

Lemma others_quiet s : others s = s <| turn ::= S |>.
Proof. unfold others. rewrite Hquiet. by destruct s. Qed.

Lemma quiet_fleet n p w : rtc any_step w (meanwhile n (p, w)).2.
Proof. by rewrite Hquiet. Qed.

(** *** Queued intents give up *)
Lemma elem_of_stale p w bound row :
  row ∈ stale p w bound ↔ ∃ i, i ∈ workload_intents w ∧ row = (i_id i, i_workload_id i)
    ∧ i_status i = IntentQueued ∧ i_created_at i < bound
    ∧ ∃ x, x ∈ runners p ∧ rn_id x = i_workload_id i ∧ rn_status x = "starting".
Proof.
  unfold stale. rewrite list_elem_of_omap. split.
  - intros (i & Hi & E). case_match eqn:C; [|done]. simplify_eq. exists i.
    rewrite !andb_true_iff, bool_decide_eq_true, Z.ltb_lt, exists_row_true in C.
    destruct C as [[? ?] (x & Hx & Hq)]. apply andb_true_iff in Hq as [?%String.eqb_eq ?%String.eqb_eq].
    split_and!; try done. by exists x.
  - intros (i & Hi & -> & Hq & Hb & x & Hx & Hid & Hs). exists i. split; [done|].
    rewrite bool_decide_true by done. rewrite (proj2 (Z.ltb_lt _ _) Hb). simpl.
    assert (exists_row (λ x, runner_named (i_workload_id i) x && String.eqb (rn_status x) "starting")
      (runners p) = true) as ->; [|done].
    apply exists_row_true. exists x. unfold runner_named. by rewrite Hid, Hs, !String.eqb_refl.
Qed.

Definition given_up (row : string * string) (s : World) : Prop :=
  (∃ i, i ∈ workload_intents (work s) ∧ i_id i = row.1 ∧ i_status i = IntentCancelled
     ∧ i_reason_code i = Some "no_capacity")
  ∧ ∀ x, x ∈ runners (policy s) → rn_id x = row.2 → rn_status x = "failed".

#[local] Opaque cancel_queued.
(** One turn in full: the intent and, when it was cancelled, the runner. *)
Lemma expire_row_run row s :
  let t := clock (turn s) in
  let c := cancel_queued (work s) row.1 "no_capacity" t in
  (expire_row row s).1 = Ok tt ∧ work (expire_row row s).2 = c.1
  ∧ policy (expire_row row s).2
    = if c.2 then fail_runner row.2 (Some "No fleet host had capacity for this runner.")
                    (clock (S (S (turn s)))) (policy s)
      else policy s.
Proof.
  unfold expire_row, mbind, Drive_bind, now_millis, commits. simpl. rewrite others_quiet. simpl.
  destruct (cancel_queued (work s) row.1 "no_capacity" (clock (turn s))) as [w' [|]]; [|by split_and!]. simpl.
  unfold execute_policy, action. rewrite others_quiet. by split_and!.
Qed.

#[local] Transparent cancel_queued.

Definition cancellable (w : Work) (id : string) (i : IntentRow) : bool :=
  String.eqb (i_id i) id && bool_decide (i_status i = IntentQueued)
  && negb (exists_row (λ pl, String.eqb (pl_intent_id pl) (i_id i)) (workload_placements w)).

Lemma cancel_intents w id reason now :
  workload_intents (cancel_queued w id reason now).1
  = update_where (cancellable w id) (i_set IntentCancelled (Some reason) now) (workload_intents w).
Proof. unfold cancel_queued. simpl. by case_match. Qed.

(** A queued intent has no placement. *)
Lemma queued_cancellable w i :
  consistent w → i ∈ workload_intents w → i_status i = IntentQueued → cancellable w (i_id i) i = true.
Proof.
  intros Hw Hi Hq. unfold cancellable. rewrite String.eqb_refl, bool_decide_true by done. simpl.
  apply negb_true_iff, exists_row_false. intros pl Hpl. apply String.eqb_neq. intros He.
  destruct (inv_admitted _ Hw pl Hpl) as (j & Hj & Hid & Hst).
  assert (j = i) as -> by (eapply unique_by; [apply (inv_intents _ Hw)|done..|congruence]). congruence.
Qed.

Lemma failed_runners id reason now p x :
  x ∈ runners (fail_runner id reason now p) →
  ∃ y, y ∈ runners p ∧ rn_id x = rn_id y
    ∧ ((rn_id y = id ∧ rn_status x = "failed") ∨ (rn_id y ≠ id ∧ x = y)).
Proof.
  unfold fail_runner, set_runners. simpl. intros (y & Hy & ->)%elem_of_update_where. exists y.
  split; [done|]. unfold runner_named. destruct (String.eqb_spec (rn_id y) id); auto.
Qed.

Lemma expire_row_shrinks row bound s x :
  consistent (work s) → x ∈ stale (policy (expire_row row s).2) (work (expire_row row s).2) bound →
  x ∈ stale (policy s) (work s) bound ∧ x ≠ row.
Proof.
  intros Hw (i & Hi & -> & Hq & Hb & r & Hr & Hid & Hst)%elem_of_stale.
  destruct (expire_row_run row s) as (_ & Ew & Ep). rewrite Ew, cancel_intents in Hi.
  apply elem_of_update_where in Hi as (j & Hj & Eij).
  destruct (cancellable (work s) row.1 j) eqn:Ec; [by subst i|]. subst i. split.
  - apply elem_of_stale. exists j. split_and!; try done. rewrite Ep in Hr.
    case_match; [|by exists r]. apply failed_runners in Hr as (y & Hy & He & [[_ Hf]|[_ ->]]); [congruence|].
    by exists y.
  - intros <-. cbn [fst] in Ec. by rewrite queued_cancellable in Ec.
Qed.

Definition named (row : string * string) (w : Work) : Prop :=
  ∃ i, i ∈ workload_intents w ∧ row = (i_id i, i_workload_id i).

Definition pending (row : string * string) (w : Work) : Prop :=
  ∃ i, i ∈ workload_intents w ∧ row = (i_id i, i_workload_id i) ∧ i_status i = IntentQueued.

Lemma expire_row_settles row s :
  consistent (work s) → pending row (work s) → given_up row (expire_row row s).2.
Proof.
  intros Hw (i & Hi & -> & Hq). set (row := (i_id i, i_workload_id i)).
  destruct (expire_row_run row s) as (_ & Ew & Ep).
  assert ((cancel_queued (work s) row.1 "no_capacity" (clock (turn s))).2 = true) as Hc.
  { unfold cancel_queued. simpl. apply Z.eqb_eq.
    apply (count_one i_id _ _ i); [apply Hw|done|by apply queued_cancellable|].
    intros b _ Hb. by apply andb_true_iff in Hb as [[->%String.eqb_eq _]%andb_true_iff _]. }
  rewrite Hc in Ep. split.
  - rewrite Ew, cancel_intents. exists (i_set IntentCancelled (Some "no_capacity") (clock (turn s)) i).
    split; [|done]. apply elem_of_update_where. exists i. cbn [row fst]. by rewrite queued_cancellable.
  - intros x Hx Hid. rewrite Ep in Hx. apply failed_runners in Hx as (y & _ & He & [[_ Hf]|[Hne ->]]); [done|].
    by destruct Hne.
Qed.

Lemma expire_row_keeps_named row other s : named other (work s) → named other (work (expire_row row s).2).
Proof.
  intros (i & Hi & ->). destruct (expire_row_run row s) as (_ & -> & _). unfold named.
  rewrite cancel_intents. eexists. split; [apply elem_of_update_where; eauto|]. by case_match.
Qed.

Lemma expire_row_keeps_pending row other s :
  consistent (work s) → other ≠ row → named row (work s) → pending other (work s) →
  pending other (work (expire_row row s).2).
Proof.
  intros Hw Hne (j & Hj & ->) (i & Hi & -> & Hq). exists i. split; [|done].
  destruct (expire_row_run (i_id j, i_workload_id j) s) as (_ & -> & _). rewrite cancel_intents.
  apply elem_of_update_where. exists i. split; [done|]. unfold cancellable. simpl.
  destruct (String.eqb_spec (i_id i) (i_id j)); [|done].
  by assert (i = j) as -> by (by eapply unique_by; [apply (inv_intents _ Hw)|..]).
Qed.

Lemma expire_row_keeps_given_up row other s :
  given_up other s → given_up other (expire_row row s).2.
Proof.
  intros [(i & Hi & Hid & Hst & Hr) Hx]. destruct (expire_row_run row s) as (_ & Ew & Ep). split.
  - exists i. split; [|done]. rewrite Ew, cancel_intents. apply elem_of_update_where. exists i.
    split; [done|]. unfold cancellable. by rewrite (bool_decide_false (i_status i = _)), andb_false_r by congruence.
  - intros x Hin Hn. rewrite Ep in Hin. case_match; [|by apply Hx].
    apply failed_runners in Hin as (y & Hy & He & [[_ Hf]|[_ ->]]); [done|by apply Hx].
Qed.

Lemma expire_row_all bound rows s :
  consistent (work s) → Forall (λ row, named row (work s)) rows →
  (∀ x, x ∈ stale (policy s) (work s) bound → x ∈ rows) →
  let r := for_each expire_row rows s in
  r.1 = Ok tt ∧ stale (policy r.2) (work r.2) bound = []
  ∧ ∀ x, (x ∈ rows ∧ pending x (work s)) ∨ given_up x s → given_up x r.2.
Proof.
  revert s. induction rows as [|row rows IH]; intros s Hw Hnamed Hsub; simpl.
  - assert (stale (policy s) (work s) bound = []) as Hnil.
    { destruct (stale _ _ _) as [|x l]; [done|]. exfalso. eapply elem_of_nil, (Hsub x). left. }
    split_and!; try done. intros x [[Hx%elem_of_nil _]|?]; done.
  - apply Forall_cons in Hnamed as [Hrow Hnamed]. unfold mbind, Drive_bind.
    destruct (expire_row_run row s) as (Er & Ew & _).
    assert (consistent (work (expire_row row s).2)) as Hw1.
    { rewrite Ew. by eapply cancel_consistent, Hw; apply surjective_pairing. }
    pose proof (λ x, expire_row_shrinks row bound s x Hw) as Hshr.
    pose proof (expire_row_settles row s Hw) as Hset.
    pose proof (λ x Hx, expire_row_keeps_pending row x s Hw Hx Hrow) as Hpend.
    pose proof (λ x, expire_row_keeps_named row x s) as Hname.
    pose proof (λ x, expire_row_keeps_given_up row x s) as Hkeep.
    destruct (expire_row row s) as [r1 s1]. simpl in *. subst r1.
    destruct (IH s1 Hw1) as (E1 & E2 & E3).
    { by eapply Forall_impl. }
    { intros x [Hx Hne]%Hshr. by apply Hsub in Hx as [?|?]%elem_of_cons. }
    split_and!; try done. intros x [[Hx Hp]|Hx]; apply E3; [|by right; apply Hkeep].
    destruct (decide (x = row)) as [->|Hne]; [by right; apply Hset|].
    apply elem_of_cons in Hx as [?|Hx]; [done|]. left. by split; [|apply Hpend].
Qed.

(** No runner waits for ever.  After the pass looked for waiting intents,
    none that is older than ten minutes is left whose runner is still
    starting: each was cancelled for lack of capacity and its runner failed,
    so that the pool can try again.  The statement cannot fail. *)
Theorem waiting_runners_expire (s : World) :
  consistent (work s) →
  let bound := clock (turn s) - QUEUE_TIMEOUT_MILLIS in
  let r := expire_queued s in
  r.1 = Ok tt ∧ stale (policy r.2) (work r.2) bound = []
  ∧ ∀ row, row ∈ stale (policy s) (work s) bound → given_up row r.2.
Proof.
  intros Hw bound. unfold expire_queued, mbind, Drive_bind, now_millis, ask. simpl.
  rewrite others_quiet. simpl.
  destruct (expire_row_all bound (stale (policy s) (work s) bound) (s <| turn ::= S |> <| turn ::= S |>))
    as (E1 & E2 & E3); try done.
  - apply Forall_forall. intros row (i & ? & ? & _)%elem_of_stale. by exists i.
  - split_and!; try done. intros row Hrow. apply E3. left. split; [done|].
    apply elem_of_stale in Hrow as (i & ? & ? & ? & _). by exists i.
Qed.

(** *** Runs that succeed, statement by statement *)
Definition same_tables (s s' : World) : Prop := policy s' = policy s ∧ work s' = work s.

Lemma ask_quiet {A} (q : Policy → Work → A) s a s' :
  ask q s = (Ok a, s') → a = q (policy s) (work s) ∧ same_tables s s'.
Proof. unfold ask. rewrite others_quiet. intros E. by simplify_eq/=. Qed.

Lemma ask_result_quiet {A} (q : Policy → Work → Result A FleetError) s a s' :
  ask_result q s = (Ok a, s') → q (policy s) (work s) = Ok a ∧ same_tables s s'.
Proof.
  intros (r & s1 & [-> Hs]%ask_quiet & E)%drive_bind_Ok. unfold lift in E. injection E as E <-.
  by apply map_err_Ok in E.
Qed.

Lemma transaction_quiet {A} (f : Policy → Work → Result (Work * A) FleetError) s a s' :
  transaction f s = (Ok a, s') → f (policy s) (work s) = Ok (work s', a) ∧ policy s' = policy s.
Proof.
  unfold transaction, commits. rewrite others_quiet. simpl.
  destruct (f (policy s) (work s)) as [[w' b]|e]; intros E; by simplify_eq/=.
Qed.

Lemma execute_quiet f s r s' :
  execute_policy f s = (r, s') → policy s' = f (policy s) ∧ work s' = work s.
Proof. unfold execute_policy, action. rewrite others_quiet. intros E. by simplify_eq/=. Qed.

(** *** The runners of ended placements *)
Definition placement_columns (pl : PlacementRow) : string * string * string * PlacementState :=
  (pl_id pl, pl_intent_id pl, pl_workload_id pl, pl_state pl).

Record framed (s s' : World) : Prop := {
  fr_intents : workload_intents (work s') = workload_intents (work s);
  fr_profiles : pool_execution_profiles (policy s') = pool_execution_profiles (policy s);
  fr_placements : placement_columns <$> workload_placements (work s')
                  = placement_columns <$> workload_placements (work s);
  fr_retired : ∀ id, retired id (policy s) → retired id (policy s') }.

Lemma framed_refl s s' : same_tables s s' → framed s s'.
Proof. intros [Ep Ew]. by split; rewrite ?Ep, ?Ew. Qed.

Lemma framed_trans s1 s2 s3 : framed s1 s2 → framed s2 s3 → framed s1 s3.
Proof. intros [? ? ? ?] [? ? ? ?]. split; [congruence..|eauto]. Qed.

(** The view is of a placement that is there, and of the only one. *)
Definition seen (v : PlacementView) (s : World) : Prop :=
  NoDup (pl_id <$> workload_placements (work s))
  ∧ ∃ pl, pl ∈ workload_placements (work s) ∧ pl_id pl = to_string (v_id v) ∧ pl_state pl = v_state v.

Lemma framed_seen v s s' : framed s s' → seen v s → seen v s'.
Proof.
  intros [_ _ Hp _] [Hnd (pl & Hin & Hid & Hst)]. split.
  - assert (pl_id <$> workload_placements (work s') = pl_id <$> workload_placements (work s)) as ->; [|done].
    apply (f_equal (fmap (λ x, x.1.1.1))) in Hp. by rewrite <-!list_fmap_compose in Hp.
  - apply (list_elem_of_fmap_2 placement_columns) in Hin. rewrite <-Hp in Hin.
    apply list_elem_of_fmap in Hin as (pl' & E & Hin'). injection E as E1 _ _ E4. exists pl'. split_and!; congruence.
Qed.

Lemma abandon_frame w placement now w' b pl :
  abandon_unstarted w placement now = Ok (w', b) → NoDup (pl_id <$> workload_placements w) →
  pl ∈ workload_placements w → pl_id pl = to_string placement → pl_state pl = TerminalFailure →
  workload_intents w' = workload_intents w
  ∧ placement_columns <$> workload_placements w' = placement_columns <$> workload_placements w.
Proof.
  unfold abandon_unstarted. intros E Hnd Hin Hid Hst. case_match; [by simplify_eq|].
  apply bind_Ok in E as (w2 & E & [= <- _]). unfold release_allocations in E.
  case_match; [done|]. injection E as <-. split; [done|]. simpl. apply update_where_fmap_in.
  intros x Hx Hq. apply andb_true_iff in Hq as [Hxid%String.eqb_eq _].
  assert (x = pl) as -> by (eapply unique_by; [done..|congruence]). unfold placement_columns. simpl.
  by rewrite Hst.
Qed.

Lemma issue_frame p w placement op key ttl drawn now w' r :
  issue_command p w placement op key ttl drawn now = Ok (w', r) →
  workload_intents w' = workload_intents w ∧ workload_placements w' = workload_placements w.
Proof. by intros [[-> _]|(cmd & -> & _)]%issue_command_Ok. Qed.

Lemma tables_trans s1 s2 s3 : same_tables s1 s2 → same_tables s2 s3 → same_tables s1 s3.
Proof. intros [] []. split; congruence. Qed.

Lemma now_quiet s a s' : now_millis s = (Ok a, s') → same_tables s s'.
Proof. intros E. by injection E as _ <-. Qed.

Lemma draw_quiet s a s' : new_v4 s = (Ok a, s') → same_tables s s'.
Proof. intros E. by injection E as _ <-. Qed.

Lemma ret_quiet {A} (a b : A) s s' : (mret a : Drive A) s = (Ok b, s') → same_tables s s'.
Proof. intros E. by injection E as _ <-. Qed.

Lemma abandons_framed v s s' :
  abandons (v_id v) s = (Ok tt, s') → v_state v = TerminalFailure → seen v s → framed s s'.
Proof.
  intros (now & s1 & [Ep Ew]%now_quiet & E)%drive_bind_Ok Hst (Hnd & pl & Hin & Hid & Hpl).
  apply drive_bind_Ok in E as (b & s2 & [E Ep2]%transaction_quiet & [Ep3 Ew3]%ret_quiet).
  rewrite Ew in E. eapply abandon_frame in E as [Hi Hp]; [|done..|congruence].
  split; rewrite ?Ep3, ?Ew3, ?Ep2, ?Ep; auto.
Qed.

Lemma cleans_up_framed id identity s s' : cleans_up id identity s = (Ok tt, s') → framed s s'.
Proof.
  intros (now & s1 & [Ep Ew]%now_quiet & E)%drive_bind_Ok.
  apply drive_bind_Ok in E as (r & s2 & E & [Ep3 Ew3]%ret_quiet).
  apply drive_bind_Ok in E as (drawn & s4 & [Ep4 Ew4]%draw_quiet & E).
  apply drive_bind_Ok in E as (t & s5 & [Ep5 Ew5]%now_quiet & [E Ep6]%transaction_quiet).
  apply issue_frame in E as [Hi Hp]. rewrite Ew5, Ew4, Ew in Hi, Hp.
  split; rewrite ?Ep3, ?Ew3, ?Ep6, ?Ep5, ?Ep4, ?Ep; auto. by rewrite Hp.
Qed.

Lemma finish_framed v s s' :
  finish v s = (Ok tt, s') → seen v s → framed s s' ∧ retired (v_workload_id v) (policy s').
Proof.
  intros (u & s1 & E1 & E)%drive_bind_Ok Hseen.
  assert (framed s s1) as F1.
  { destruct u. clear E. case_bool_decide; [by eapply abandons_framed|by eapply framed_refl, ret_quiet]. }
  apply drive_bind_Ok in E as (u' & s2 & E2 & E). assert (framed s1 s2) as F2.
  { clear E E1. case_bool_decide; [|by eapply framed_refl, ret_quiet].
    apply drive_bind_Ok in E2 as (o & s3 & [_ Hs]%ask_quiet & E2).
    eapply framed_trans; [by apply framed_refl|]. case_match; [|by eapply framed_refl, ret_quiet].
    destruct u'. by eapply cleans_up_framed. }
  apply drive_bind_Ok in E as (now & s3 & Hs%now_quiet & [Ep Ew]%execute_quiet).
  split; [|rewrite Ep; apply retire_runner_retired; by right].
  eapply framed_trans; [by eapply framed_trans|]. eapply framed_trans; [by apply framed_refl|].
  split; rewrite ?Ew, ?Ep; try done. intros id Hr. apply retire_runner_retired. by left.
Qed.

Lemma finish_all l s s' :
  for_each finish l s = (Ok tt, s') → Forall (λ v, seen v s) l →
  framed s s' ∧ ∀ v, v ∈ l → retired (v_workload_id v) (policy s').
Proof.
  revert s. induction l as [|v l IH]; intros s; simpl.
  - intros Hs%ret_quiet _. split; [by apply framed_refl|]. by intros v Hv%elem_of_nil.
  - intros ([] & s1 & E1 & E)%drive_bind_Ok [Hv Hl]%Forall_cons.
    destruct (finish_framed _ _ _ E1 Hv) as [F1 R1].
    destruct (IH _ E) as [F R]; [by eapply Forall_impl; [exact Hl|]; intros; eapply framed_seen|].
    split; [by eapply framed_trans|]. intros x [->|Hx]%elem_of_cons; [by eapply fr_retired|auto].
Qed.

(** Identifiers are stored as they are printed. *)
Definition canonical_ids (w : Work) : Prop :=
  ∀ pl id, pl ∈ workload_placements w → parse_id (pl_id pl) = Ok id → to_string id = pl_id pl.

Lemma retire_ended_Ok s s' :
  retire_ended s = (Ok tt, s') → NoDup (pl_id <$> workload_placements (work s)) →
  canonical_ids (work s) → ∀ pl, pl ∈ workload_placements (work s') →
  pl_state pl ∈ [TerminalFailure; Cleaned; Uncertain] → is_Some (joined (policy s') (work s') pl) →
  retired (pl_workload_id pl) (policy s').
Proof.
  intros (l & s1 & [El [Ep Ew]]%ask_result_quiet & E)%drive_bind_Ok Hnd Hc pl Hin Hst Hj.
  destruct (placements_listed _ _ _ _ El) as [Hl Hv].
  destruct (finish_all _ _ _ E) as [[Fi Fp Fl _] Hr].
  { apply Forall_forall. intros v (x & Hx & Hid & Hs)%Hv. unfold seen. rewrite Ew. split; [done|].
    exists x. split_and!; [done| |done]. symmetry. by apply (Hc x). }
  apply (list_elem_of_fmap_2 placement_columns) in Hin. rewrite Fl, Ew in Hin.
  apply list_elem_of_fmap in Hin as (x & Ex & Hx). injection Ex as _ Ei Ewl Es.
  destruct (Hl x Hx) as (v & Hvl & Hw); [congruence| |rewrite Ewl, <-Hw; by apply Hr].
  unfold joined in Hj |- *. rewrite Ei, Fi, Fp, Ew, Ep in Hj. destruct Hj as [row Hrow].
  apply bind_Some in Hrow as (i & -> & Hrow). apply bind_Some in Hrow as (pr & Hpr & _).
  simpl. rewrite Hpr. by eexists.
Qed.

Lemma canonical_columns w w' :
  pl_id <$> workload_placements w' = pl_id <$> workload_placements w →
  canonical_ids w → canonical_ids w'.
Proof.
  intros E Hc pl id Hin. apply (list_elem_of_fmap_2 pl_id) in Hin. rewrite E in Hin.
  apply list_elem_of_fmap in Hin as (x & -> & Hx). by apply Hc.
Qed.

Lemma evolves_canonical w w' : evolves w w' → canonical_ids w → canonical_ids w'.
Proof. intros He. by eapply canonical_columns, (evolves_placement_column pl_id). Qed.

Lemma admit_canonical p w controller id now clock draws w' outcome :
  0 ≤ dr_placement draws < 2 ^ 128 →
  admit_operation p w controller id now clock draws = Ok (w', outcome) →
  canonical_ids w → canonical_ids w'.
Proof.
  intros Hd [_ E]%admit_operation_Ok Hc. destruct outcome; [| |by subst].
  - destruct E as (intent & c & cs & t & _ & _ & _ & _ & _ & _ & _ & Hins%insert_admission_Ok).
    intros pl u Hin Hu. rewrite (ar_placement _ _ _ _ _ _ _ Hins) in Hin.
    apply elem_of_app in Hin as [Hin|Hin%list_elem_of_singleton]; [by apply Hc|]. subst pl. simpl in Hu |- *.
    unfold parse_id, fleet_uuid_from_str in Hu. rewrite parse_to_string in Hu by done.
    apply map_err_Ok, bind_Ok in Hu as (x & Hx & Hu). simpl in Hx.
    apply map_err_Ok, fleet_uuid_try_new_Ok in Hu as [-> _]. by simplify_eq.
  - destruct E as [reason ->]. exact Hc.
Qed.

Context (Hdraws : ∀ n k, 0 ≤ dr_placement (m_draws (moments n k)) < 2 ^ 128).

Definition canonical_kept (w w' : Work) : Prop := canonical_ids w → canonical_ids w'.

#[local] Instance canonical_respected : Respected canonical_kept.
Proof.
  split; intros; unfold canonical_kept.
  - split; [intros w Hw; exact Hw|]. intros w1 w2 w3 H12 H23 Hw. by apply H23, H12.
  - by rewrite Hquiet.
  - by eapply admit_canonical.
  - apply canonical_columns. match goal with E : submit_intent _ _ _ _ _ _ = _ |- _ =>
      apply submit_intent_Ok in E as (? & ? & _ & _ & _ & E);
      (destruct (operation_by_key _ _ _); [by destruct E as [-> _]|]);
      by destruct E as (? & _ & _ & _ & _ & _ & -> & _) end.
  - apply canonical_columns. unfold cancel_queued. simpl. by case_match.
  - by eapply evolves_canonical, store_bootstrap_evolves.
  - match goal with E : _ |- _ => apply issue_frame in E as [_ E]; apply canonical_columns; by rewrite E end.
  - match goal with E : issue_command _ _ _ _ _ _ _ _ = _ |- _ =>
      apply issue_frame in E as [_ E]; apply canonical_columns; by rewrite E end.
  - by eapply evolves_canonical, mark_starting_evolves.
  - by eapply evolves_canonical, abandon_unstarted_evolves.
  - by eapply evolves_canonical, set_state_evolves.
Qed.

Lemma respects_run (R : relation Work) {A} (c : Drive A) s r s' :
  respects R c → c s = (r, s') → R (work s) (work s').
Proof. intros Hc E. specialize (Hc s). by rewrite E in Hc. Qed.

(** The states before the last part of a pass. *)
Lemma tick_Ok vault (R : relation Work) `{!Respected R} s s' :
  tick vault s = (Ok tt, s') → ∃ s1, R (work s) (work s1) ∧ retire_ended s1 = (Ok tt, s').
Proof.
  intros (? & s1 & E1 & E)%drive_bind_Ok. apply drive_bind_Ok in E as (? & s2 & E2 & E).
  apply drive_bind_Ok in E as (l & s3 & E3 & E). apply drive_bind_Ok in E as (? & s4 & E4 & E).
  apply drive_bind_Ok in E as (l' & s5 & E5 & E). apply drive_bind_Ok in E as (? & s6 & E6 & E).
  exists s6. split; [|exact E].
  apply (respects_run R) in E1; [|apply (respects_admit_waiting R)].
  apply (respects_run R) in E2; [|apply (respects_expire R)].
  apply (respects_run R) in E3; [|apply (respects_ask_result R)].
  apply (respects_run R) in E4; [|apply (respects_logged R); intros; apply (respects_register R)].
  apply (respects_run R) in E5; [|apply (respects_ask_result R)].
  apply (respects_run R) in E6; [|apply (respects_logged R); intros; apply (respects_follow R)].
  by repeat (etrans; [eassumption|]).
Qed.

(** After a pass that nothing interrupted and that met no error, also the
    placements the pass itself ended have given their runners up. *)
Theorem undisturbed_pass_retires_runners (vault : Vault) (s s' : World) (pl : PlacementRow)
    (x : RunnerRow) :
  consistent (work s) → canonical_ids (work s) → tick vault s = (Ok tt, s') →
  pl ∈ workload_placements (work s') → pl_state pl ∈ [TerminalFailure; Cleaned; Uncertain] →
  is_Some (joined (policy s') (work s') pl) →
  x ∈ runners (policy s') → rn_id x = pl_workload_id pl → ended_status (rn_status x) = true.
Proof.
  intros Hw Hc E Hin Hst Hj Hx Hid.
  pose proof (both_respected _ _ (fleet_respected quiet_fleet) canonical_respected) as Hboth.
  destruct (tick_Ok vault _ _ _ E) as (s1 & [Hr Hk] & E1).
  assert (consistent (work s1)) as Hw1 by by eapply rtc_consistent.
  eapply (retire_ended_Ok _ _ E1); [apply Hw1|by apply Hk|done..].
Qed.
End quiet.

(** ** Samples *)
Module SampleDriver.
#[local] Existing Instances Hyphenated.uuid_text Plain.codec PlainAead.aead SampleRun.result_json
  SampleService.request_json.
Import SampleFleet.

(** GitHub answers everything; the App's credentials are in the environment. *)
#[export] Instance github : Upstream :=
  {| config_app_id := Some "app"; config_private_key := Some "key";
     installation_token_with_credentials _ _ _ _ := Some "token";
     generate_jit_config n _ _ _ := Some (Z.of_nat n, "jit");
     generate_registration_token _ _ _ := Some "registration";
     material_json m := match m with GithubJit config => config | GithubRegistration t _ _ _ => t end |}.

(** The machine's answer to a command: it does what it is told. *)
Definition answer (n : nat) (e : AgentCommandEnvelope) : AgentCommandResult :=
  {| res_result_id := Z.of_nat n; res_command_id := command_id e; res_operation_id := operation_id e;
     res_host_id := host_id e; res_host_epoch := host_epoch e;
     res_control_plane_incarnation := control_plane_incarnation e;
     res_authority_session_id := authority_session_id e; res_scope := scope e;
     res_generation := Some 1; res_request_hash := default [] (b64_decode (request_hash e));
     res_observed_at := 4000;
     res_outcome := match operation e with
       | OpStartRunner start => OutSucceeded (EvRunnerStarted (sr_prepared_environment_id start)
                                  (sr_execution_profile_id start) (sr_profile_revision start)
                                  (ResDocker "0123456789abcdef"))
       | _ => OutSucceeded (EvPreparedEnvironment 100)
       end |}.

Definition now_at (n : nat) : Z := 2000 + 10 * Z.of_nat n.

Definition machine_polls (n : nat) (w : Work) : Work :=
  SampleRun.after w (poll_commands SampleFleet.policy w SampleRun.auth 7 (now_at n)).
Definition machine_answers (n : nat) (w : Work) : Work :=
  match fetch (λ c, bool_decide (c_state c = CsDelivered)) (host_commands w) with
  | Some c => SampleRun.after w (record_command_result SampleFleet.policy w SampleRun.auth
                                   (answer n (c_payload c)) (now_at n))
  | None => w
  end.

Definition sample_moment (n k : nat) : Moment :=
  {| m_now := now_at n; m_clock _ := now_at n;
     m_draws := {| dr_placement := 1000 + Z.of_nat n mod 1000; dr_command := 2000 + Z.of_nat n;
                   dr_allocation k := 3000 + 10 * Z.of_nat n + Z.of_nat k |} |}.

Definition surroundings (others : nat → Policy * Work → Policy * Work) : Surroundings :=
  {| clock := now_at; draws n k := 4000 + 10 * Z.of_nat n + Z.of_nat k; nonces _ := replicate 12 0;
     moments := sample_moment; meanwhile := others |}.

Definition policy : Policy :=
  SampleFleet.policy <| runner_pool_repositories :=
    [{| rpr_pool_id := "pool"; rpr_repository_id := 12; rpr_created_at := 0 |}] |>.

Definition world : World :=
  {| Driver.policy := policy; work := new_database; runtime_secrets := []; github_runner_cleanup := [];
     capacity_samples := []; calls := []; turn := 0 |}.

Definition machine : Profile :=
  {| pf_id := id 40; pf_revision := 3;
     pf_input := {| in_enabled := true; in_runtime_kind := Docker; in_execution_os := Linux;
                    in_architecture := X64; in_mode := Ephemeral; in_image := "runner:latest";
                    in_labels := ["linux"]; in_cpu_millis := 2000; in_memory_mib := 2048;
                    in_disk_bytes := 0; in_requires_docker_socket := false;
                    in_placement := Machines |};
     pf_target_ids := [id 30] |}.

(** The machine polls and answers twice: before the first pass lists the
    placements that register, and before the second one's first statement. *)
Definition works (n : nat) (x : Policy * Work) : Policy * Work :=
  if bool_decide (n ∈ [23; 57]%nat) then (x.1, machine_answers n (machine_polls n x.2)) else x.
Definition working : Surroundings := surroundings works.

Section working.
#[local] Existing Instance working.

(** A runner is made, the first pass registers and starts it, the second
    finds it running. *)
Definition made : World := (fleet_provision "x86_64" SampleFleet.pool [machine] machine world).2.
Definition first_pass : World := (tick PlainAead.vault made).2.
Definition second_pass : World := (tick PlainAead.vault first_pass).2.

Lemma after_step {A} (p : Policy) (w : Work) (r : Result (Work * A) RegistryError) :
  (∀ w' a, r = Ok (w', a) → step p w w') → rtc any_step w (SampleRun.after w r).
Proof. intros Hs. destruct r as [[w' a]|]; [|done]. apply rtc_once, any_work. exists p. by eapply Hs. Qed.

Lemma evolving_other w w' : any_step w w' → evolves w w' → other_step w w'.
Proof.
  intros Hs He. split; [done|]. intros c' Hc' _. apply (list_elem_of_fmap_2 c_id) in Hc'.
  rewrite (evolves_command_column c_id _ _ ltac:(done) He) in Hc'.
  apply list_elem_of_fmap in Hc' as (c & ? & ?). by exists c.
Qed.

Lemma works_steps n p w : rtc any_step w (works n (p, w)).2.
Proof.
  unfold works. case_bool_decide; [|done]. simpl. transitivity (machine_polls n w).
  - apply (after_step SampleFleet.policy). intros. by eapply step_poll.
  - unfold machine_answers. case_match; [|done]. apply (after_step SampleFleet.policy). intros.
    by eapply step_result.
Qed.

Lemma works_other_steps n p w : consistent w → rtc other_step w (works n (p, w)).2.
Proof.
  intros Hw. unfold works. case_bool_decide; [|done]. simpl. transitivity (machine_polls n w).
  - unfold machine_polls. destruct (poll_commands _ _ _ _ _) as [[w' l]|] eqn:E; [|done]. simpl.
    apply rtc_once, evolving_other; [apply any_work; exists SampleFleet.policy; by eapply step_poll|].
    eapply poll_commands_evolves; [apply Hw|done].
  - unfold machine_answers. case_match; [|done].
    destruct (record_command_result _ _ _ _ _) as [[w' d]|] eqn:E; [|done]. simpl.
    apply rtc_once, evolving_other; [apply any_work; exists SampleFleet.policy; by eapply step_result|].
    by eapply record_command_result_evolves.
Qed.

Lemma passes_are_fleet_transactions_witness :
  rtc any_step (work first_pass) (work second_pass)
  ∧ (pl_state <$> workload_placements (work first_pass)) = [Starting]
  ∧ (pl_state <$> workload_placements (work second_pass)) = [Running]
  ∧ (rn_status <$> runners (Driver.policy second_pass)) = ["online"].
Proof.
  split; [|by vm_compute].
  exact (proj1 (passes_are_fleet_transactions PlainAead.vault "x86_64" SampleFleet.pool [machine]
    machine first_pass works_steps)).
Defined.

Lemma placement_started_once_witness :
  driven PlainAead.vault "x86_64" second_pass
  ∧ count_rows (command_of (to_string 1019) "start_runner") (host_commands (work second_pass)) = 1
  ∧ count_rows (command_of (to_string 1019) "start_runner") (host_commands (work second_pass)) ≤ 1.
Proof.
  assert (driven PlainAead.vault "x86_64" second_pass) as Hd.
  { apply driven_tick, driven_tick, driven_provision, driven_new. done. }
  split_and!; [done|by vm_compute|].
  exact (placement_started_once works_other_steps PlainAead.vault "x86_64" second_pass
    (to_string 1019) Hd).
Defined.

End working.

(** A pass that is alone.  Alice's workload waits for a machine for a quarter
    of an hour. *)
#[local] Instance alone : Surroundings := surroundings (λ _ x, x).
Lemma alone_quiet n x : @meanwhile alone n x = x.
Proof. done. Qed.

Definition runner : RunnerRow := new_fleet_runner SampleFleet.pool machine (id 50) (Some 12) "pool-1" 500.
Definition with_runner : Policy := policy <| runners := [runner] |>.
Definition waiting : World :=
  {| Driver.policy := with_runner; work := SampleService.submitted; runtime_secrets := []; github_runner_cleanup := [];
     capacity_samples := []; calls := []; turn := Z.to_nat 90000 |}.

Lemma submitted_consistent : consistent SampleService.submitted.
Proof.
  unfold SampleService.submitted.
  destruct (SampleService.submit SampleFleet.empty 500) as [[w s]|e] eqn:E;
    [|apply new_database_consistent].
  unfold SampleService.submit in E. eapply submit_consistent; [exact E|apply new_database_consistent].
Qed.

Lemma waiting_runners_expire_witness :
  stale with_runner SampleService.submitted (now_at (Z.to_nat 90000) - QUEUE_TIMEOUT_MILLIS)
    = [(id 60, id 50)]
  ∧ given_up (id 60, id 50) (expire_queued waiting).2.
Proof.
  assert (stale with_runner SampleService.submitted (now_at (Z.to_nat 90000) - QUEUE_TIMEOUT_MILLIS)
    = [(id 60, id 50)]) as Hs by (vm_compute; reflexivity).
  split; [exact Hs|].
  apply (proj2 (proj2 (waiting_runners_expire alone_quiet waiting submitted_consistent))).
  change (clock (turn waiting)) with (now_at (Z.to_nat 90000)).
  change (Driver.policy waiting) with with_runner. change (work waiting) with SampleService.submitted.
  rewrite Hs. left.
Defined.

(** The preparation of the workload failed. *)
Definition broken : World :=
  {| Driver.policy := with_runner; work := SampleRun.w_failed; runtime_secrets := []; github_runner_cleanup := [];
     capacity_samples := []; calls := []; turn := 0 |}.
Definition after_pass : World := (tick PlainAead.vault broken).2.

Lemma moments_bounded n k : 0 ≤ dr_placement (m_draws (@moments alone n k)) < 2 ^ 128.
Proof. simpl. pose proof (Z.mod_pos_bound (Z.of_nat n) 1000). lia. Qed.

Lemma failed_canonical : canonical_ids SampleRun.w_failed.
Proof.
  intros pl u Hy Hu. vm_compute in Hy. apply list_elem_of_singleton in Hy as ->.
  vm_compute in Hu. injection Hu as <-. by vm_compute.
Qed.

Lemma after_pass_Ok : tick PlainAead.vault broken = (Ok tt, after_pass).
Proof.
  assert ((tick PlainAead.vault broken).1 = Ok tt) as E by (vm_compute; reflexivity).
  rewrite <-E. apply surjective_pairing.
Qed.

Lemma others_bring_none_back n p w id :
  retired id p → retired id (@meanwhile alone n (p, w)).1.
Proof. done. Qed.

End SampleDriver.
