(* ===== verification/Scaling.v ===== *)
(** * Scaling pools
    ([crates/gridops-reconciler/src/main.rs], and the decisions of
    [crates/gridops-core/src/provisioning.rs] and [github.rs] it uses).

    The pass over a pool, as a [Drive]: the state of its runners, the ones it
    removes, the size it wants and the runners it makes, on the built-in host
    or on the fleet's machines.  The manager, GitHub and Bitbucket answer
    through [Services]; what they are told is kept in [calls].  Events, audit
    rows and archived logs are not kept. *)
From stdpp Require Import pretty.
From S2P Require Import Prelude Base64 Ids Domain Protocol Outcomes Capabilities Crypto Store.
From S2P Require Import Service Admission Commands Placement Autoscaling Targets Platforms Driver.
#[local] Open Scope string_scope.
#[local] Open Scope Z_scope.

(** ** Pools and runners as they are read *)
Record Pool := { pool_row : PoolRow; account_login : string }.

Definition load_pools (p : Policy) : list Pool :=
  omap (λ q, installation ← pool_installation_id q;
             i ← fetch (λ i, ins_id i =? installation) (installations p);
             Some {| pool_row := q; account_login := ins_account_login i |})
    (order_by (λ a b, pool_created_at a <=? pool_created_at b)
       (select (λ q, negb (String.eqb (pool_state q) "deleting")) (runner_pools p))).

Record Runner := {
  ru_id : string; ru_installation_id : Z; ru_name : string; ru_container_id : option string;
  ru_github_runner_id : option Z; ru_ci_platform : string;
  ru_bitbucket_connection_id : option string; ru_bitbucket_runner_uuid : option string;
  ru_target_repository_id : option Z; ru_repository : option (string * string);
  ru_provider : string; ru_status : string; ru_busy : bool; ru_configuration_version : Z;
  ru_updated_at : Z; ru_fleet : bool }.

Definition read_runner (p : Policy) (w : Work) (x : RunnerRow) : option Runner :=
  q ← fetch (λ q, String.eqb (pool_id q) (rn_pool_id x)) (runner_pools p);
  installation ← pool_installation_id q;
  let repo := fetch (λ r, eq_sql (Some (repo_id r)) (rn_target_repository_id x)) (repositories p) in
  Some {| ru_id := rn_id x;
          ru_installation_id := match repo with
                                | Some r => repo_installation_id r | None => installation end;
          ru_name := rn_name x; ru_container_id := rn_container_id x;
          ru_github_runner_id := rn_github_runner_id x; ru_ci_platform := rn_ci_platform x;
          ru_bitbucket_connection_id := rn_bitbucket_connection_id x;
          ru_bitbucket_runner_uuid := rn_bitbucket_runner_uuid x;
          ru_target_repository_id := rn_target_repository_id x;
          ru_repository := (λ r, (repo_owner r, repo_name r)) <$> repo;
          ru_provider := rn_provider x; ru_status := rn_status x; ru_busy := rn_busy x;
          ru_configuration_version := rn_configuration_version x; ru_updated_at := rn_updated_at x;
          ru_fleet := exists_row (λ i, String.eqb (i_workload_id i) (rn_id x)) (workload_intents w) |}.

Definition current_runners (pool : string) (p : Policy) (w : Work) : list Runner :=
  omap (read_runner p w)
    (order_by (λ a b, rn_created_at b <=? rn_created_at a)
       (select (λ x, String.eqb (rn_pool_id x) pool && is_null (rn_deleted_at x)) (runners p))).

Definition active_status (status : string) : bool :=
  bool_decide (status ∈ ["starting"; "online"; "idle"; "busy"; "paused"; "stopped"]).

Definition is_active (runner : Runner) : bool := active_status (ru_status runner).

Definition runner_needs_update (pool : Pool) (runner : Runner) : bool :=
  ru_configuration_version runner <? pool_configuration_version (pool_row pool).

Definition idle_period_elapsed (now idle_timeout_minutes last_activity : Z) : bool :=
  i64_saturating_mul idle_timeout_minutes 60000 <=? i64_saturating_sub now last_activity.

(** [UPDATE runner_pools SET ... WHERE id=?]. *)
Definition set_pool (id : string) (f : PoolRow → PoolRow) (p : Policy) : Policy :=
  p <| runner_pools ::= update_where (λ q, String.eqb (pool_id q) id) f |>.

(** ** Times between attempts *)
Definition i64_saturating_pow2 (exponent : Z) : Z := i64_clamp (2 ^ exponent).

Definition clamp (lower upper z : Z) : Z := Z.max lower (Z.min upper z).

Definition provision_backoff_ms (attempts : Z) : Z :=
  let exponent := clamp 0 10 (i64_saturating_sub attempts 1) in
  i64_saturating_mul 30000 (i64_saturating_pow2 exponent).

Definition PROVISION_CIRCUIT_COOLDOWN_MS : Z := 15 * 60 * 1000.

Definition provision_failure_policy (attempts : Z) : bool * Z :=
  if 3 <=? attempts then (true, PROVISION_CIRCUIT_COOLDOWN_MS)
  else (false, provision_backoff_ms attempts).

Definition github_cleanup_backoff_ms (attempts : Z) : Z :=
  let exponent := clamp 0 7 (i64_saturating_sub attempts 1) in
  Z.min (i64_saturating_mul 30000 (Z.shiftl 1 exponent)) 3600000.

(** ** Which runner to remove *)
Definition surplus_count (active busy queued factor : Z) : bool :=
  i64_saturating_add busy (i64_saturating_mul queued factor) <? active.

Definition surplus_runner (runners : list Runner) (capacities : list RepositoryCapacity)
    (provider_capacities : list ProviderCapacity) (providers : list string) (factor : Z)
    (provider : option string) : option Runner :=
  let repository_needs_capacity := existsb (λ c, 0 <? repository_capacity_deficit c factor) capacities in
  let provider_needs_capacity := existsb (λ c, 0 <? provider_capacity_deficit c factor) provider_capacities in
  if negb repository_needs_capacity && negb provider_needs_capacity then None else
  let surplus := rc_repository_id <$> select (λ c, surplus_count (rc_active c) (rc_busy c) (rc_queued c) factor)
                   capacities in
  let provider_surplus := pc_provider <$> select (λ c, surplus_count (pc_active c) (pc_busy c) (pc_queued c) factor)
                            provider_capacities in
  let membership := rc_repository_id <$> capacities in
  fetch (λ runner,
    negb (String.eqb (ru_ci_platform runner) "bitbucket") && negb (ru_busy runner) && is_active runner
    && match provider with Some x => String.eqb (ru_provider runner) x | None => true end
    && (bool_decide (ru_provider runner ∈ provider_surplus)
        || negb (bool_decide (ru_provider runner ∈ providers))
        || match ru_target_repository_id runner with
           | Some id => bool_decide (id ∈ surplus) || negb (bool_decide (id ∈ membership))
           | None => false
           end)) runners.

(** Whether a waiting job asks for the runner's operating system, or for none.
    [instr] looks for the quoted name in the JSON text of the labels, which
    hold no quotes themselves. *)
Definition job_wants_os (os : string) (job : WorkflowJobRow) : bool :=
  let has name := existsb (λ label, String.eqb (lower label) name) (wj_labels job) in
  has (lower os) || (negb (has "linux") && negb (has "windows") && negb (has "macos")).

Definition FLEET_IDLE_EVICTION_GRACE_MS : Z := 2 * 60 * 1000.

(** The idle fleet runner that has waited longest where no job needs it. *)
Definition idle_fleet_runner (pool : string) (now : Z) (p : Policy) (w : Work) : option string :=
  let needed r job :=
    bool_decide (wj_status job ∈ ["queued"; "waiting"]) && job_wants_os (rn_os r) job
    && exists_row (λ run, (wr_id run =? wj_run_id job)
                          && eq_sql (Some (wr_repository_id run)) (rn_target_repository_id r)
                          && negb (String.eqb (wr_status run) "completed")) (workflow_runs p) in
  rn_id <$> head (order_by (λ a b, rn_updated_at a <=? rn_updated_at b)
    (select (λ r, String.eqb (rn_pool_id r) pool && bool_decide (rn_status r ∈ ["online"; "idle"])
                  && negb (rn_busy r) && (rn_updated_at r <? now - FLEET_IDLE_EVICTION_GRACE_MS)
                  && exists_row (λ own, String.eqb (i_workload_id own) (rn_id r)) (workload_intents w)
                  && exists_row (λ i, String.eqb (i_pool_id i) (rn_pool_id r)
                                      && bool_decide (i_status i = IntentQueued)) (workload_intents w)
                  && negb (exists_row (needed r) (workflow_jobs p))) (runners p))).

(** ** Provisioning decisions ([provisioning.rs]) *)
Record ProvisioningPlan := {
  plan_provider : string; plan_platform : string; plan_mode : string; plan_ephemeral : bool;
  plan_runtime : string; plan_image : string }.

Definition for_selected_provider (provider : string) (bitbucket_connection_selected : bool)
    (pool_mode : string) (pool_ephemeral : bool) (macos_runtime docker_image tart_image : string)
    : ProvisioningPlan :=
  let platform := if bitbucket_connection_selected then "bitbucket" else "github" in
  let runtime := if String.eqb provider "tart" && String.eqb platform "github"
                 then macos_runtime else "vm" in
  {| plan_provider := provider; plan_platform := platform;
     plan_mode := if bitbucket_connection_selected then "persistent" else pool_mode;
     plan_ephemeral := String.eqb platform "github" && pool_ephemeral; plan_runtime := runtime;
     plan_image := if String.eqb provider "tart"
                   then if String.eqb runtime "native" then "" else tart_image
                   else docker_image |}.

Record FailureCleanup := {
  release_capacity : bool; remove_provider_runner : bool; remove_manager_runner : bool }.

Definition failure_cleanup (capacity_reserved provider_runner_registered manager_runner_created : bool)
    : FailureCleanup :=
  {| release_capacity := capacity_reserved; remove_provider_runner := provider_runner_registered;
     remove_manager_runner := manager_runner_created |}.

(** ** Bitbucket *)
(** The bytes of a label: [a-z], [0-9] and the dot. *)
Definition label_byte (b : Z) : bool :=
  ((97 <=? b) && (b <=? 122)) || ((48 <=? b) && (b <=? 57)) || (b =? 46).

Definition bitbucket_label (label : string) : bool :=
  negb (is_empty label) && forallb label_byte (bytes label).

Fixpoint dots_for_hyphens (s : string) : string :=
  match s with
  | String.EmptyString => String.EmptyString
  | String.String c rest =>
      String.String (if byte_of c =? 45 then char_of 46 else c) (dots_for_hyphens rest)
  end.

(** [Vec::dedup]: equal neighbours become one. *)
Fixpoint dedup_neighbours (l : list string) : list string :=
  match l with
  | a :: ((b :: _) as rest) => if String.eqb a b then dedup_neighbours rest else a :: dedup_neighbours rest
  | _ => l
  end.

Definition bitbucket_runner_labels (pool_name : string) (labels : list string)
    : Result (list string) Failure :=
  let output := (["self.hosted"; "macos"; "gridops." +:+ dots_for_hyphens pool_name]
                 ++ select (λ label, negb (String.eqb label pool_name)) labels)%list in
  let output := dedup_neighbours (order_by String.leb output) in
  if (Z.of_nat (length output) <=? 10) && forallb bitbucket_label output then Ok output
  else Err (Lacking "Bitbucket runner labels must use lowercase letters, numbers, and dots; at most 10 are allowed.").

Definition bitbucket_registration (runner : Runner) : option string :=
  uuid ← ru_bitbucket_runner_uuid runner; if is_empty uuid then None else Some uuid.

(** The first connection of the pool that has no runner yet. *)
Definition next_bitbucket_connection (pool : string) (p : Policy) : option ConnectionRow :=
  let taken c := exists_row (λ r, String.eqb (rn_pool_id r) pool
      && String.eqb (rn_ci_platform r) "bitbucket"
      && eq_sql (rn_bitbucket_connection_id r) (Some (bc_id c)) && is_null (rn_deleted_at r)
      && active_status (rn_status r)) (runners p) in
  let member m := c ← fetch (λ c, String.eqb (bc_id c) (rpc_connection_id m)) (bitbucket_connections p);
                  if taken c then None else Some (m, c) in
  snd <$> head (order_by (lex_le (λ x, rpc_created_at x.1)
                            (λ a b : PoolConnectionRow * ConnectionRow, String.leb (bc_id a.2) (bc_id b.2)))
                  (omap member (select (λ m, String.eqb (rpc_pool_id m) pool)
                                  (runner_pool_bitbucket_connections p)))).

(** ** Services *)
Record ManagedRunner := { mr_id : string; mr_state : string; mr_labels : list (string * string) }.
Record CreatedRunner := { cr_id : string; cr_name : string; cr_state : string }.

Definition label_of (key : string) (runner : ManagedRunner) : option string :=
  snd <$> fetch (λ x, String.eqb x.1 key) (mr_labels runner).

(** Stopped containers of this installation whose runner is gone. *)
Definition orphaned_manager_containers (managed : list ManagedRunner) (live_runner_ids : list string)
    : list ManagedRunner :=
  select (λ runner,
    bool_decide (mr_state runner ∈ ["created"; "exited"; "dead"])
    && bool_decide (label_of "io.gridops.managed" runner = Some "true")
    && match label_of "io.gridops.runner-id" runner with
       | Some id => negb (bool_decide (id ∈ live_runner_ids))
       | None => false
       end) managed.

(** What a runner is registered with. *)
Inductive Credentials :=
| WithJit (config : string)
| WithToken (token url : string) (group : option string)
| WithBitbucket (account_uuid runner_uuid client_id secret : string).

Record CreateRequest := {
  rq_runner_id : string; rq_pool_id : string; rq_name : string; rq_plan : ProvisioningPlan;
  rq_labels : list string; rq_lease : string; rq_credentials : Credentials }.

Record BitbucketRunner := { bb_uuid : string; bb_client_id : string; bb_secret : option string }.

(** The answers of the manager, GitHub and Bitbucket, the [n]th statement of
    the run; an error is its message. *)
Class Services := {
  manager_admissions : nat → string → string → string → Result (option string) string;
  manager_release : nat → string → Result unit string;
  manager_create : nat → CreateRequest → Result CreatedRunner string;
  manager_policy : nat → bool → Result unit string;
  manager_runners : nat → Result (list ManagedRunner) string;
  manager_delete : nat → string → Result unit string;
  runner_by_name : nat → RunnerTarget → string → string → Result (option Z) string;
  try_delete : nat → string → string → Result (option (Z * string)) string;
  runner_group_name : nat → string → Z → string → Result string string;
  bitbucket_create : nat → string → string → string → list string → Result BitbucketRunner string;
  bitbucket_delete : nat → string → string → string → Result unit string;
  database_message : FleetError → string }.

Definition contains (needle s : string) : bool :=
  match String.index 0 needle s with Some _ => true | None => false end.

Definition host_capacity_exhausted (reason : option string) : bool :=
  match reason with Some text => contains "[host_capacity_exhausted]" text | None => false end.

Section pools.
Context `{UuidText, Codec, RequestJson, ResultJson, Aead, Surroundings, Upstream, Services}.
Context (arch : string) (vault : Vault).

(** [error.to_string()]. *)
Definition message_of (e : Failure) : string :=
  match e with
  | FleetFailure e => database_message e
  | Lacking what => what
  | UpstreamFailure message => message
  | Panicked => ""
  end.

Definition deferred_manager_error (e : Failure) : bool :=
  existsb (λ code, contains code (message_of e))
    ["[host_capacity_exhausted]"; "[host_disk_guardrail]"; "[provisioning_paused]"].

Definition asks {A} (call : nat → Result A string) : Drive A := λ s,
  (map_err UpstreamFailure (call (turn s)), s <| turn ::= S |>).

Definition told (c : Call) : Drive unit := λ s, (Ok tt, s <| calls ::= (λ l, l ++ [c])%list |>).

Definition list_runners (pool : Pool) : Drive (list Runner) :=
  ask (current_runners (pool_id (pool_row pool))).

(** *** Removing a runner *)
Definition remove_runner (path token : string) : Drive bool :=
  refused ← asks (λ n, try_delete n path token);
  match refused with
  | None => mret true
  | Some (status, details) =>
      if (status =? 422) && contains "running a job" details then mret false
      else fails (UpstreamFailure details)
  end.

Definition runner_path (repository : option (string * string)) (account : string) (id : Z) : string :=
  match repository with
  | Some (owner, name) => "/repos/" +:+ owner +:+ "/" +:+ name +:+ "/actions/runners/" +:+ pretty id
  | None => "/orgs/" +:+ account +:+ "/actions/runners/" +:+ pretty id
  end.

Definition target_of_runner (repository : option (string * string)) (account : string) : RunnerTarget :=
  match repository with
  | Some (owner, name) => Repository owner name
  | None => Organization account
  end.

(** [true] when GitHub no longer knows the runner, [false] when it says that
    the runner runs a job. *)
Definition github_cleanup (pool : Pool) (runner : Runner) (token : string) : Drive bool :=
  let target := target_of_runner (ru_repository runner) (account_login pool) in
  found ← match ru_github_runner_id runner with
          | Some id => mret (Some id)
          | None => asks (λ n, runner_by_name n target token (ru_name runner))
          end;
  match found with
  | None => mret true
  | Some id => remove_runner (runner_path (ru_repository runner) (account_login pool) id) token
  end.

Definition deregister_bitbucket_runner (runner : Runner) (runner_uuid : string) : Drive unit :=
  connection_id ← context "Bitbucket runner is missing its workspace connection"
                    (ru_bitbucket_connection_id runner);
  found ← ask (λ p _, fetch (λ c, String.eqb (bc_id c) connection_id) (bitbucket_connections p));
  connection ← context "Bitbucket workspace connection no longer exists" found;
  found ← runtime_secret vault (bc_access_token_key connection);
  access_token ← context "Bitbucket workspace credentials are unavailable" found;
  asks (λ n, bitbucket_delete n (bc_workspace connection) access_token runner_uuid).

Definition remove_manager_container (container_id : string) : Drive unit :=
  _ ← asks (λ n, manager_delete n container_id);
  told (RemovedContainer container_id).

Definition mark_busy (id : string) (now : Z) : Policy → Policy :=
  set_runners (λ x, runner_named id x && is_null (rn_deleted_at x))
    (λ x, x <| rn_busy := true |> <| rn_status := "busy" |> <| rn_updated_at := now |>).

Definition mark_deleted (id : string) (now : Z) : Policy → Policy :=
  set_runners (runner_named id)
    (λ x, x <| rn_status := "deleted" |> <| rn_busy := false |> <| rn_deleted_at := Some now |>
            <| rn_updated_at := now |>).

(** Whether the runner may go, after its registration was removed as far as
    that could be done. *)
Definition deregister (pool : Pool) (runner : Runner) : Drive bool :=
  if String.eqb (ru_ci_platform runner) "bitbucket" then
    match bitbucket_registration runner with
    | Some runner_uuid => _ ← deregister_bitbucket_runner runner runner_uuid; mret true
    | None => mret true
    end
  else
    token ← attempt (installation_token vault (ru_installation_id runner));
    match token with
    | Ok (Some token) =>
        removed ← attempt (github_cleanup pool runner token);
        match removed with
        | Ok false =>
            if String.eqb (ru_status runner) "failed" then mret true
            else
              now ← now_millis;
              _ ← execute_policy (mark_busy (ru_id runner) now);
              mret false
        | _ => mret true
        end
    | _ => mret true
    end.

Definition delete_runner (pool : Pool) (runner : Runner) : Drive bool :=
  gone ← deregister pool runner;
  if gone : bool then
    _ ← match ru_container_id runner with
        | Some container_id => remove_manager_container container_id
        | None => mret tt
        end;
    now ← now_millis;
    _ ← execute_policy (mark_deleted (ru_id runner) now);
    mret true
  else mret false.

(** *** The size of a pool *)
Definition positive (z : Z) : Z := Z.max z 0.
Definition sum_of (l : list Z) : Z := fold_right Z.add 0 l.

Definition maybe_scale_up (pool : Pool) (rs : list Runner) : Drive unit :=
  let q := pool_row pool in
  if negb (pool_autoscaling_enabled q) || pool_paused q then mret tt else
  queued ← ask (λ p _, assigned_queued_jobs arch p (pool_id q));
  if queued =? 0 then mret tt else
  let busy := count_rows (λ r, ru_busy r && is_active r) rs in
  let aggregate_target := scale_up_target (pool_desired_count q) busy queued
                            (pool_queue_scale_factor q) (pool_max_count q) in
  now ← now_millis;
  repository_placement_needed ←
    (if String.eqb (pool_scope q) "repository" then
       capacities ← ask (λ p _, repository_capacities arch p (pool_id q) now);
       mret (sum_of ((λ c, positive (repository_capacity_deficit c (pool_queue_scale_factor q)))
                       <$> capacities))
     else mret 0);
  now ← now_millis;
  capacities ← ask (λ p _, provider_capacities arch p (pool_id q) (pool_providers q) (pool_labels q) now);
  let provider_placement_needed :=
    sum_of ((λ c, positive (provider_capacity_deficit c (pool_queue_scale_factor q))) <$> capacities) in
  let active := count_rows is_active rs in
  let target := Z.min (Z.max (Z.max aggregate_target
                                (i64_saturating_add active repository_placement_needed))
                         (i64_saturating_add active provider_placement_needed)) (pool_max_count q) in
  if target <=? pool_desired_count q then mret tt
  else execute_policy (set_pool (pool_id q)
         (λ x, x <| pool_desired_count := target |> <| pool_state := "scaling" |>)).

Definition last_activity (rs : list Runner) : Z :=
  match ru_updated_at <$> rs with [] => 0 | a :: l => fold_left Z.max l a end.

Definition maybe_scale_down (pool : Pool) (rs : list Runner) : Drive unit :=
  let q := pool_row pool in
  if negb (pool_autoscaling_enabled q) || pool_paused q || (pool_desired_count q <=? pool_min_count q)
  then mret tt else
  if existsb (λ r, String.eqb (ru_ci_platform r) "bitbucket") rs then mret tt else
  if existsb ru_busy rs then mret tt else
  queued ← ask (λ p _, assigned_queued_jobs arch p (pool_id q));
  if 0 <? queued then mret tt else
  now ← now_millis;
  if negb (idle_period_elapsed now (pool_idle_timeout_minutes q) (last_activity rs)) then mret tt
  else execute_policy (set_pool (pool_id q)
         (λ x, x <| pool_desired_count := pool_min_count q |> <| pool_state := "scaling" |>)).

Definition evict_surplus_runner (pool : Pool) (current : list Runner) (provider : option string)
    : Drive bool :=
  let q := pool_row pool in
  now ← now_millis;
  capacities ← (if String.eqb (pool_scope q) "repository"
                then ask (λ p _, repository_capacities arch p (pool_id q) now) else mret []);
  now ← now_millis;
  provider_capacities ← ask (λ p _, provider_capacities arch p (pool_id q) (pool_providers q)
                                      (pool_labels q) now);
  match surplus_runner (select (λ r, negb (ru_fleet r)) current) capacities provider_capacities
          (pool_providers q) (pool_queue_scale_factor q) provider with
  | None => mret false
  | Some runner => delete_runner pool runner
  end.

Definition rebalance_repository_capacity (pool : Pool) (desired : Z) : Drive bool :=
  if pool_paused (pool_row pool) then mret false else
  current ← list_runners pool;
  if (desired <? 0) || (count_rows is_active current <? desired) then mret false
  else evict_surplus_runner pool current None.

Definition evict_idle_fleet_runner (pool : Pool) : Drive bool :=
  now ← now_millis;
  idle ← ask (idle_fleet_runner (pool_id (pool_row pool)) now);
  match idle with
  | None => mret false
  | Some id =>
      current ← list_runners pool;
      match fetch (λ r, String.eqb (ru_id r) id) current with
      | None => mret false
      | Some runner => delete_runner pool runner
      end
  end.

(** *** Attempts that fail or wait *)
Definition defer_pool_capacity (pool : Pool) : Drive unit :=
  now ← now_millis;
  let retry_at := i64_saturating_add now 30000 in
  execute_policy (set_pool (pool_id (pool_row pool))
    (λ x, x <| pool_state := "waiting" |> <| pool_provision_retry_at := Some retry_at |>)).

Definition record_provision_failure (pool : Pool) : Drive unit :=
  let attempts := i64_saturating_add (pool_provision_failure_count (pool_row pool)) 1 in
  let '(circuit_open, delay_ms) := provision_failure_policy attempts in
  now ← now_millis;
  let retry_at := i64_saturating_add now delay_ms in
  execute_policy (set_pool (pool_id (pool_row pool))
    (λ x, x <| pool_provision_failure_count := attempts |>
            <| pool_provision_retry_at := Some retry_at |>
            <| pool_provision_circuit_open := circuit_open |>
            <| pool_state := if circuit_open then "blocked" else "backoff" |>)).

(** *** A runner on the built-in host *)
Record CapacityAdmission := { ca_lease_id : option string; ca_reason : option string }.

Definition reserve_runner_capacity (runner_id pool provider : string) : Drive CapacityAdmission :=
  response ← attempt (asks (λ n, manager_admissions n runner_id pool provider));
  match response with
  | Ok (Some lease) => _ ← told (ReservedLease lease); mret {| ca_lease_id := Some lease; ca_reason := None |}
  | Ok None => mret {| ca_lease_id := None; ca_reason := None |}
  | Err e => if deferred_manager_error e
             then mret {| ca_lease_id := None; ca_reason := Some (message_of e) |}
             else fails e
  end.

(** A refusal, or a reply that is lost, is only logged. *)
Definition release_runner_capacity (lease : string) : Drive unit :=
  released ← attempt (asks (λ n, manager_release n lease));
  told (match released with Ok _ => ReleasedLease lease | Err _ => ReleaseFailed lease end).

Definition new_host_runner (pool : PoolRow) (plan : ProvisioningPlan) (id name : string)
    (repository : option RepositoryCapacity) (connection : option ConnectionRow) (now : Z) : RunnerRow :=
  let tart := String.eqb (plan_provider plan) "tart" in
  {| rn_id := id; rn_pool_id := pool_id pool;
     rn_target_repository_id := if String.eqb (plan_platform plan) "github"
                                then rc_repository_id <$> repository else None;
     rn_provider := plan_provider plan; rn_status := "starting"; rn_busy := false;
     rn_deleted_at := None; rn_ci_platform := plan_platform plan;
     rn_os := if tart then "macOS" else "linux"; rn_updated_at := now; rn_name := name;
     rn_architecture := if tart then "ARM64" else runner_arch_label arch;
     rn_ephemeral := plan_ephemeral plan;
     rn_configuration_version := pool_configuration_version pool; rn_runtime := plan_runtime plan;
     rn_created_at := now; rn_failure_reason := None; rn_github_runner_id := None;
     rn_container_id := None; rn_container_name := None; rn_registered_at := None;
     rn_last_heartbeat_at := None; rn_bitbucket_connection_id := bc_id <$> connection;
     rn_bitbucket_runner_uuid := None |}.

Definition checked_labels (pool : PoolRow) : Drive (list string) := λ s,
  (bitbucket_runner_labels (pool_name pool) (pool_labels pool), s).

(** Registers the runner: its credentials and its identifiers upstream. *)
Definition register_on_bitbucket (connection : ConnectionRow) (pool : Pool) (name : string)
    : Drive (Credentials * string) :=
  found ← runtime_secret vault (bc_access_token_key connection);
  access_token ← context "Bitbucket workspace credentials are unavailable" found;
  labels ← checked_labels (pool_row pool);
  runner ← asks (λ n, bitbucket_create n (bc_workspace connection) access_token name labels);
  secret ← context "Bitbucket did not return the one-time runner OAuth secret" (bb_secret runner);
  mret (WithBitbucket (bc_workspace_uuid connection) (bb_uuid runner) (bb_client_id runner) secret,
        bb_uuid runner).

Definition register_on_github (pool : Pool) (provider name : string)
    (repository : option RepositoryCapacity) : Drive (Credentials * option Z) :=
  let q := pool_row pool in
  installation ← context "installation" (or_else (rc_installation_id <$> repository) (pool_installation_id q));
  found ← installation_token vault installation;
  token ← context "GitHub App credentials are required for autonomous reconciliation" found;
  let named := (λ r, (rc_owner r, rc_name r)) <$> repository in
  let target := target_of_runner named (account_login pool) in
  if pool_ephemeral q then
    '(github_runner_id, encoded) ← upstream "jit config" (λ n,
      generate_jit_config n target token
        {| jr_name := name; jr_runner_group_id := pool_runner_group_id q;
           jr_labels := effective_runner_labels arch provider (pool_labels q);
           jr_work_folder := "_work" |});
    mret (WithJit encoded, Some github_runner_id)
  else
    registered ← upstream "registration token" (λ n, generate_registration_token n target token);
    group ← (if String.eqb (pool_scope q) "organization" && negb (pool_runner_group_id q =? 1) then
               name ← asks (λ n, runner_group_name n (account_login pool) (pool_runner_group_id q) token);
               mret (Some name)
             else mret None);
    mret (WithToken registered (runner_registration_url (account_login pool) named) group, None).

(** The manager refused: a Bitbucket registration is taken back. *)
Definition take_back (connection : option ConnectionRow) (runner_uuid : option string) : Drive unit :=
  match connection, runner_uuid with
  | Some connection, Some runner_uuid =>
      found ← attempt (runtime_secret vault (bc_access_token_key connection));
      match found with
      | Ok (Some access_token) =>
          _ ← attempt (asks (λ n, bitbucket_delete n (bc_workspace connection) access_token runner_uuid));
          mret tt
      | _ => mret tt
      end
  | _, _ => mret tt
  end.

Definition create_runner (request : CreateRequest) (connection : option ConnectionRow)
    (runner_uuid : option string) : Drive CreatedRunner :=
  answer ← attempt (asks (λ n, manager_create n request));
  match answer with
  | Ok created => _ ← told (CreatedContainer (rq_lease request) (cr_id created)); mret created
  | Err e =>
      _ ← (if remove_provider_runner (failure_cleanup true (bool_decide (is_Some runner_uuid)) false)
           then take_back connection runner_uuid else mret tt);
      fails e
  end.

(** [UPDATE runners]: a container belongs to one runner. *)
Definition record_created (id : string) (github_runner_id : option Z) (runner_uuid : option string)
    (created : CreatedRunner) (now : Z) (p : Policy) : Result unit FleetError * Policy :=
  if exists_row (λ x, negb (runner_named id x)
                      && eq_sql (rn_container_id x) (Some (cr_id created))) (runners p)
     && exists_row (runner_named id) (runners p)
  then (Err Database, p)
  else (Ok tt, set_runners (runner_named id)
         (λ x, x <| rn_github_runner_id := github_runner_id |>
                 <| rn_bitbucket_runner_uuid := runner_uuid |>
                 <| rn_container_id := Some (cr_id created) |>
                 <| rn_container_name := Some (cr_name created) |>
                 <| rn_status := if String.eqb (cr_state created) "running" then "online" else "starting" |>
                 <| rn_registered_at := Some now |> <| rn_last_heartbeat_at := Some now |>
                 <| rn_updated_at := now |>) p).

Definition launch (pool : Pool) (plan : ProvisioningPlan) (runner_id name lease : string)
    (repository : option RepositoryCapacity) (connection : option ConnectionRow) : Drive unit :=
  '(credentials, github_runner_id, runner_uuid) ←
    match connection with
    | Some connection =>
        '(credentials, uuid) ← register_on_bitbucket connection pool name;
        mret (credentials, None, Some uuid)
    | None =>
        '(credentials, id) ← register_on_github pool (plan_provider plan) name repository;
        mret (credentials, id, None)
    end;
  _ ← match github_runner_id with
      | Some id =>
          now ← now_millis;
          execute_policy (set_runners (runner_named runner_id)
            (λ x, x <| rn_github_runner_id := Some id |> <| rn_updated_at := now |>))
      | None => mret tt
      end;
  created ← create_runner
    {| rq_runner_id := runner_id; rq_pool_id := pool_id (pool_row pool); rq_name := name;
       rq_plan := plan; rq_labels := pool_labels (pool_row pool); rq_lease := lease;
       rq_credentials := credentials |} connection runner_uuid;
  now ← now_millis;
  action (λ _, record_created runner_id github_runner_id runner_uuid created now).

Definition cleanup_unrecorded_manager_runner (runner_id : string) : Drive unit :=
  managed ← asks manager_runners;
  match fetch (λ r, bool_decide (label_of "io.gridops.runner-id" r = Some runner_id)) managed with
  | None => mret tt
  | Some runner => remove_manager_container (mr_id runner)
  end.

(** What is done when the launch failed. *)
Definition launch_failed (pool : Pool) (provider runner_id lease : string) (e : Failure)
    : Drive ProvisionAttempt :=
  _ ← (if release_capacity (failure_cleanup true false false)
       then release_runner_capacity lease else mret tt);
  let message := take_chars 2000 (message_of e) in
  _ ← attempt (cleanup_unrecorded_manager_runner runner_id);
  now ← now_millis;
  _ ← execute_policy (fail_runner runner_id (Some message) now);
  if deferred_manager_error e
  then mret (Deferred (Some message)
               (if host_capacity_exhausted (Some message) then Some provider else None))
  else _ ← record_provision_failure pool; fails e.

Definition chosen_provider (pool : Pool) (pending : option ConnectionRow)
    (repository : option RepositoryCapacity) : Drive string :=
  let q := pool_row pool in
  let providers := match pool_providers q with [] => [pool_provider q] | l => l end in
  if bool_decide (is_Some pending) && bool_decide ("tart" ∈ providers) then mret "tart"
  else
    now ← now_millis;
    next ← ask (λ p _, next_runner_provider arch p (pool_id q) (rc_repository_id <$> repository)
                         providers (pool_labels q) (pool_queue_scale_factor q) now);
    context "runner pool has no configured providers" next.

Definition provision_on_host (pool : Pool) : Drive ProvisionAttempt :=
  let q := pool_row pool in
  drawn ← new_v4;
  let runner_id := to_string drawn in
  drawn ← new_v4;
  let name := pool_name q +:+ "-" +:+ String.substring 0 8 (without_hyphens (to_string drawn)) in
  repository ←
    (if String.eqb (pool_scope q) "repository" then
       now ← now_millis;
       next ← ask (λ p _, next_runner_repository arch p (pool_id q) (pool_queue_scale_factor q) now);
       found ← context "runner pool has no available repositories" next;
       mret (Some found)
     else mret None);
  pending ← ask (λ p _, next_bitbucket_connection (pool_id q) p);
  provider ← chosen_provider pool pending repository;
  let connection := if String.eqb provider "tart" then pending else None in
  let plan := for_selected_provider provider (bool_decide (is_Some connection)) (pool_mode q)
                (pool_ephemeral q) (pool_macos_runtime q) (pool_docker_image q) (pool_tart_image q) in
  admission ← reserve_runner_capacity runner_id (pool_id q) provider;
  match ca_lease_id admission with
  | None => mret (Deferred (ca_reason admission)
                    (if host_capacity_exhausted (ca_reason admission) then Some provider else None))
  | Some lease =>
      now ← now_millis;
      inserted ← attempt (action (λ _, insert_runner
                            (new_host_runner q plan runner_id name repository connection now)));
      match inserted with
      | Err e =>
          _ ← (if release_capacity (failure_cleanup true false false)
               then release_runner_capacity lease else mret tt);
          fails e
      | Ok _ =>
          result ← attempt (launch pool plan runner_id name lease repository connection);
          match result with
          | Err e => launch_failed pool provider runner_id lease e
          | Ok _ =>
              _ ← execute_policy (set_pool (pool_id q)
                    (λ x, x <| pool_provision_failure_count := 0 |> <| pool_provision_retry_at := None |>
                            <| pool_provision_circuit_open := false |>));
              mret Provisioned
          end
      end
  end.

(** *** A runner, on the host or on a machine *)
Definition on_machines (x : Placement) : bool := match x with Machines => true | _ => false end.

Definition active_rows (pool : string) (p : Policy) : Z :=
  count_rows (λ x, String.eqb (rn_pool_id x) pool && is_null (rn_deleted_at x)
                   && active_status (rn_status x)) (runners p).

Definition provision (pool : Pool) : Drive ProvisionAttempt :=
  let q := pool_row pool in
  profiles ← enabled_profiles (pool_id q);
  chosen ← choose_profile arch q profiles;
  match chosen with
  | None => provision_on_host pool
  | Some (profile, behind) =>
      let placement := in_placement (pf_input profile) in
      idle ← (if negb behind && on_machines placement then
                active ← ask (λ p _, active_rows (pool_id q) p);
                mret (pool_min_count q <=? active)
              else mret false);
      if idle : bool then mret NoDemand else
      let host := host_serves arch q profile in
      let fleet := fleet_provision arch q profiles profile in
      match placement with
      | Machines => fleet
      | MachinesFirst =>
          if negb host then fleet else
          ready ← fleet_machine_ready q profile;
          if ready : bool then fleet else provision_on_host pool
      | HostFirst =>
          if negb host then fleet else
          tried ← provision_on_host pool;
          match tried with
          | Deferred _ _ =>
              ready ← fleet_machine_ready q profile;
              if ready : bool then fleet else mret tried
          | _ => mret tried
          end
      end
  end.

(** *** One pass over a pool *)
Definition synced_status (states : gmap string string) (runner : Runner) (container : string) : string :=
  let docker_state := default "missing" (states !! container) in
  if String.eqb docker_state "running" then if ru_busy runner then "busy" else "online"
  else if String.eqb docker_state "paused" then "paused"
  else if bool_decide (docker_state ∈ ["exited"; "dead"]) && String.eqb (ru_status runner) "stopped"
  then "stopped"
  else if bool_decide (docker_state ∈ ["exited"; "dead"; "missing"]) then "failed"
  else docker_state.

Definition sync_runner (states : gmap string string) (runner : Runner) : Drive unit :=
  match ru_container_id runner with
  | None => mret tt
  | Some container =>
      let status := synced_status states runner container in
      heartbeat ← now_millis;
      execute_policy (set_runners (runner_named (ru_id runner))
        (λ x, x <| rn_status := status |> <| rn_last_heartbeat_at := Some heartbeat |>
                <| rn_updated_at := if String.eqb (rn_status x) status then rn_updated_at x
                                    else heartbeat |>))
  end.

Definition delete_each (pool : Pool) (rs : list Runner) : Drive unit :=
  for_each (λ r, _ ← delete_runner pool r; mret tt) rs.

Definition rotate (pool : Pool) (blocked : bool) : Drive unit :=
  current ← list_runners pool;
  if blocked then mret tt else
  match fetch (λ r, negb (String.eqb (ru_ci_platform r) "bitbucket") && negb (ru_busy r)
                    && runner_needs_update pool r) current with
  | Some stale => _ ← delete_runner pool stale; mret tt
  | None => mret tt
  end.

(** [for _ in active.len()..desired]; [true] when capacity was deferred. *)
Fixpoint fill (pool : Pool) (missing : nat) : Drive bool :=
  match missing with
  | O => mret false
  | S missing =>
      tried ← provision pool;
      tried ← match tried with
              | Deferred _ (Some provider) =>
                  current ← list_runners pool;
                  evicted ← evict_surplus_runner pool current (Some provider);
                  if evicted : bool then provision pool else mret tried
              | _ => mret tried
              end;
      match tried with
      | Provisioned => fill pool missing
      | NoDemand => mret false
      | Deferred _ _ => _ ← defer_pool_capacity pool; mret true
      end
  end.

(** [active.len() < desired as usize], and what follows it. *)
Definition as_usize (z : Z) : Z := z mod 2 ^ 64.

Definition adjust (pool : Pool) (blocked : bool) (desired : Z) : Drive bool :=
  refreshed ← list_runners pool;
  let active := select is_active refreshed in
  let count := Z.of_nat (length active) in
  if negb blocked && (count <? as_usize desired) then
    fill pool (Z.to_nat (as_usize desired - count))
  else if as_usize desired <? count then
    let excess := Z.to_nat (count - as_usize desired) in
    _ ← delete_each pool (take excess (select (λ r, negb (String.eqb (ru_ci_platform r) "bitbucket")
                                                    && negb (ru_busy r)) active));
    mret false
  else mret false.

Definition desired_size (pool : Pool) : Drive Z :=
  let q := pool_row pool in
  if pool_paused q then mret 0 else
  found ← ask (λ p _, pool_desired_count <$> fetch (λ x, String.eqb (pool_id x) (pool_id q)) (runner_pools p));
  match found with
  | None => fails (FleetFailure Database)
  | Some desired =>
      if pool_max_count q <? pool_min_count q then fails Panicked
      else mret (clamp (pool_min_count q) (pool_max_count q) desired)
  end.

Definition pool_state_after (pool : Pool) (provisioning_paused capacity_deferred retry_deferred : bool)
    (outdated active desired : Z) : string :=
  if pool_paused (pool_row pool) then "paused"
  else if provisioning_paused then "provisioning-paused"
  else if pool_provision_circuit_open (pool_row pool) then "blocked"
  else if capacity_deferred || (retry_deferred && (pool_provision_failure_count (pool_row pool) =? 0))
  then "waiting"
  else if retry_deferred then "backoff"
  else if 0 <? outdated then "updating"
  else if as_usize desired <? active then "draining"
  else "active".

(** [INSERT ... ON CONFLICT(pool_id,recorded_at) DO UPDATE]. *)
Definition record_sample (x : CapacitySampleRow) (l : list CapacitySampleRow) : list CapacitySampleRow :=
  let same y := String.eqb (smp_pool_id y) (smp_pool_id x)
                && (smp_recorded_at y =? smp_recorded_at x) in
  if existsb same l
  then update_where same (λ y, y <| smp_available := smp_available x |> <| smp_busy := smp_busy x |>
                                 <| smp_queued := smp_queued x |>) l
  else (l ++ [x])%list.

Definition update_samples (f : list CapacitySampleRow → list CapacitySampleRow) : Drive unit := λ s,
  (Ok tt, others s <| capacity_samples ::= f |>).

Definition record_capacity_sample (pool : Pool) (rs : list Runner) : Drive unit :=
  let online := count_rows (λ r, bool_decide (ru_status r ∈ ["online"; "idle"; "busy"])) rs in
  let busy := count_rows ru_busy rs in
  queued ← ask (λ p _, assigned_queued_jobs arch p (pool_id (pool_row pool)));
  now ← now_millis;
  update_samples (record_sample
    {| smp_pool_id := pool_id (pool_row pool); smp_available := Z.max 0 (online - busy);
       smp_busy := busy; smp_queued := queued; smp_recorded_at := now / 60000 * 60000 |}).

(** What follows the state of the runners. *)
Definition resize_pool (pool : Pool) (provisioning_paused : bool) : Drive unit :=
  current ← list_runners pool;
  _ ← delete_each pool (select (λ r, String.eqb (ru_status r) "failed") current);
  now ← now_millis;
  let retry_deferred := match pool_provision_retry_at (pool_row pool) with
                        | Some retry_at => now <? retry_at | None => false end in
  let blocked := provisioning_paused || retry_deferred in
  _ ← rotate pool blocked;
  current ← list_runners pool;
  _ ← (if blocked then mret tt else maybe_scale_up pool current);
  _ ← maybe_scale_down pool current;
  desired ← desired_size pool;
  _ ← (if blocked then mret false else rebalance_repository_capacity pool desired);
  capacity_deferred ← adjust pool blocked desired;
  _ ← (if blocked then mret false else evict_idle_fleet_runner pool);
  final ← list_runners pool;
  _ ← execute_policy (set_pool (pool_id (pool_row pool))
        (λ x, x <| pool_state := pool_state_after pool provisioning_paused capacity_deferred
                     retry_deferred (count_rows (runner_needs_update pool) final)
                     (count_rows is_active final) desired |>));
  record_capacity_sample pool final.

Definition reconcile_pool (pool : Pool) (container_states : gmap string string)
    (provisioning_paused : bool) : Drive unit :=
  known ← list_runners pool;
  _ ← for_each (sync_runner container_states) known;
  resize_pool pool provisioning_paused.

(** *** Orphaned containers and deferred clean-ups *)
Definition cleanup_orphaned_manager_containers (managed : list ManagedRunner) : Drive unit :=
  live ← ask (λ p _, rn_id <$> select (λ x, is_null (rn_deleted_at x)) (runners p));
  for_each_logged (λ r, remove_manager_container (mr_id r)) (orphaned_manager_containers managed live).

Definition cleanup_runner (row : CleanupRow) : Drive unit :=
  found ← installation_token vault (gc_installation_id row);
  token ← context "GitHub App credentials are unavailable" found;
  let named := (λ repository, (gc_target_owner row, repository)) <$> gc_target_repository row in
  found ← match gc_github_runner_id row with
          | Some id => mret (Some id)
          | None => asks (λ n, runner_by_name n (target_of_runner named (gc_target_owner row)) token
                                 (gc_runner_name row))
          end;
  match found with
  | None => mret tt
  | Some id =>
      refused ← asks (λ n, try_delete n (runner_path named (gc_target_owner row) id) token);
      match refused with
      | None => mret tt
      | Some (_, details) => fails (UpstreamFailure details)
      end
  end.

Definition update_cleanup (f : list CleanupRow → list CleanupRow) : Drive unit := λ s,
  (Ok tt, others s <| github_runner_cleanup ::= f |>).

Definition retry_cleanup (now : Z) (row : CleanupRow) : Drive unit :=
  result ← attempt (cleanup_runner row);
  update_cleanup
    match result with
    | Ok _ => select (λ x, negb (String.eqb (gc_id x) (gc_id row)))
    | Err e =>
        let attempts := i64_saturating_add (gc_attempts row) 1 in
        update_where (λ x, String.eqb (gc_id x) (gc_id row))
          (λ x, x <| gc_attempts := attempts |>
                  <| gc_last_error := Some (take_chars 2000 (message_of e)) |>
                  <| gc_next_attempt_at := i64_saturating_add now (github_cleanup_backoff_ms attempts) |>)
    end.

Definition due (now : Z) (l : list CleanupRow) : list CleanupRow :=
  take 25 (order_by (λ a b, gc_next_attempt_at a <=? gc_next_attempt_at b)
             (select (λ x, gc_next_attempt_at x <=? now) l)).

Definition due_cleanups (now : Z) : Drive (list CleanupRow) := λ s,
  let s := others s in (Ok (due now (github_runner_cleanup s)), s).

Definition retry_github_runner_cleanup : Drive unit :=
  now ← now_millis;
  pending ← due_cleanups now;
  for_each (retry_cleanup now) pending.

(** ** A whole pass *)
(** [collect] into a [HashMap]: the last one of a container is kept. *)
Definition container_states (managed : list ManagedRunner) : gmap string string :=
  fold_left (λ m r, <[mr_id r := mr_state r]> m) managed ∅.

(** [provisioning_paused] is the setting as it is read; what is deleted after
    its time at the end of the pass is not modelled. *)
Definition reconcile (provisioning_paused : bool) : Drive unit :=
  _ ← attempt retry_github_runner_cleanup;
  _ ← attempt (tick vault);
  _ ← attempt (asks (λ n, manager_policy n provisioning_paused));
  managed ← attempt (asks manager_runners);
  match managed with
  | Err _ => mret tt
  | Ok managed =>
      _ ← attempt (cleanup_orphaned_manager_containers managed);
      pools ← ask (λ p _, load_pools p);
      for_each_logged (λ pool, reconcile_pool pool (container_states managed) provisioning_paused) pools
  end.
End pools.
