(* ===== verification/ScalingSpec.v ===== *)
(** * What scaling a pool guarantees

    A property of the runners and of what the manager was told that every
    statement of a pass keeps is kept by the pass ([Kept]).  Two are used: a
    busy runner stays, and no capacity lease is forgotten. *)
From stdpp Require Import pretty.
From S2P Require Import Prelude Base64 Ids Domain Protocol Outcomes Capabilities Crypto Store.
From S2P Require Import Service Admission Commands Placement Autoscaling Targets Platforms Driver.
From S2P Require Import Fleet AutoscalingSpec DriverSpec Scaling.
#[local] Open Scope string_scope.
#[local] Open Scope Z_scope.

(** ** Statements on policy that leave runners alone *)
Definition same_pools (p p' : Policy) : Prop := runners p' = runners p ∧ runner_pools p' = runner_pools p.

#[local] Instance same_pools_order : PreOrder same_pools.
Proof. split; [by intros p|]. intros p1 p2 p3 [? ?] [? ?]. split; congruence. Qed.

Definition same_runners {A} (a : Action A) : Prop := ∀ p, same_pools p (a p).2.

Lemma same_of_result {A} (r : Result A FleetError) : same_runners (of_result r).
Proof. by intros p. Qed.

Lemma same_query {A} (q : Policy → Result A FleetError) : same_runners (query q).
Proof. by intros p. Qed.

Lemma same_succeed {A} (a : A) : same_runners (succeed a).
Proof. by intros p. Qed.

Lemma same_and_then {A B} (c : Action A) (k : A → Action B) :
  same_runners c → (∀ a, same_runners (k a)) → same_runners (and_then c k).
Proof.
  intros Hc Hk p. unfold and_then. specialize (Hc p). destruct (c p) as [[a|e] p1]; [|done].
  etrans; [exact Hc|apply Hk].
Qed.

Lemma same_each {A B} (f : nat → A → Action B) n l :
  (∀ n a, same_runners (f n a)) → same_runners (each f n l).
Proof.
  intros Hf. revert n. induction l as [|a l IH]; intros n; [by intros p|]. simpl.
  apply same_and_then; [done|]. intros b. apply same_and_then; [done|]. intros bs. apply same_succeed.
Qed.

Section targets.
Context `{UuidText}.

Lemma same_ensure_target drawn target : same_runners (ensure_target drawn target).
Proof.
  unfold ensure_target. apply same_and_then; [apply same_of_result|]. intros row.
  apply same_and_then; [|intros; apply same_query]. intros p. unfold insert_target. by repeat case_match.
Qed.

Lemma same_pool_targets draws pool : same_runners (pool_targets draws pool).
Proof.
  intros p. unfold pool_targets. repeat case_match; try done.
  - apply same_each. intros n r. unfold repository_target.
    do 2 (apply same_and_then; [apply same_of_result|]; intros). apply same_ensure_target.
  - do 2 (apply same_and_then; [apply same_of_result|]; intros).
    apply same_and_then; [apply same_ensure_target|]. intros. apply same_succeed.
Qed.
End targets.

Lemma link_pool_target_same pool target p : same_pools p (link_pool_target pool target p).
Proof. unfold link_pool_target. by repeat case_match. Qed.

(** ** Properties that statements keep *)
Create HintDb keep.

Section kept.
Context `{UuidText, Codec, RequestJson, ResultJson, Aead, Surroundings, Upstream, Services}.

(** [P] speaks of the runners, the pools and what the manager was told; the
    rows of runners a statement may write are the [free] ones (new ones, and
    runners that are idle or have failed), and a pool's size is only changed
    to one that is [scaled]. *)
Class Kept (P : Policy → list Call → Prop) (free : string → Prop) (scaled : Z → Prop) : Prop := {
  k_others n p w cs : P p cs → P (meanwhile n (p, w)).1 cs;
  k_frame p p' cs : same_pools p p' → P p cs → P p' cs;
  k_insert x p cs : P p cs → (∀ y, y ∈ runners p → rn_id y ≠ rn_id x) →
    P (p <| runners ::= (λ l, l ++ [x])%list |>) cs ∧ free (rn_id x);
  k_update id q f p cs : free id → (∀ x, q x = true → rn_id x = id) → (∀ x, rn_id (f x) = rn_id x) →
    P p cs → P (set_runners q f p) cs;
  k_pool id f p cs :
    (∀ x, pool_id (f x) = pool_id x ∧
          (pool_desired_count (f x) = pool_desired_count x ∨ scaled (pool_desired_count (f x)))) →
    P p cs → P (set_pool id f p) cs;
  k_idle p cs x : P p cs → x ∈ runners p → rn_busy x = false ∨ rn_status x = "failed" → free (rn_id x);
  k_removed p cs container : P p cs → P p (cs ++ [RemovedContainer container])%list;
  k_released p cs lease : P p cs → P p (cs ++ [ReleasedLease lease])%list;
  k_refused p cs lease : P p cs → P p (cs ++ [ReleaseFailed lease])%list;
  k_created p cs lease container : P p cs → P p (cs ++ [CreatedContainer lease container])%list }.

Context (P : Policy → list Call → Prop) (free : string → Prop) (scaled : Z → Prop) `{!Kept P free scaled}.

Definition holds (s : World) : Prop := P (policy s) (calls s).
Definition keeps {A} (c : Drive A) : Prop := ∀ s, holds s → holds (c s).2.

(** A run keeps [P], and a value it returns satisfies [Q]. *)
Definition gives {A} (c : Drive A) (Q : A → Prop) : Prop :=
  ∀ s, holds s → holds (c s).2 ∧ ∀ a, (c s).1 = Ok a → Q a.

Lemma keeps_ret {A} (a : A) : keeps (mret a).
Proof. by intros s. Qed.
Lemma keeps_fails {A} e : keeps (fails (A:=A) e).
Proof. by intros s. Qed.
Lemma keeps_lift {A} (r : Result A FleetError) : keeps (lift r).
Proof. by intros s. Qed.
Lemma keeps_context {A} what (o : option A) : keeps (context what o).
Proof. by intros s. Qed.
Lemma keeps_now : keeps now_millis.
Proof. by intros s. Qed.
Lemma keeps_draw : keeps new_v4.
Proof. by intros s. Qed.
Lemma keeps_moments : keeps slice_moments.
Proof. by intros s. Qed.
Lemma keeps_upstream {A} message (call : nat → option A) : keeps (upstream message call).
Proof. by intros s. Qed.
Lemma keeps_asks {A} (call : nat → Result A string) : keeps (asks call).
Proof. by intros s. Qed.
Lemma keeps_labels pool : keeps (checked_labels pool).
Proof. by intros s. Qed.

Lemma gives_bind {A B} (c : Drive A) (Q : A → Prop) (k : A → Drive B) :
  gives c Q → (∀ a, Q a → keeps (k a)) → keeps (c ≫= k).
Proof.
  intros Hc Hk s Hs. destruct (Hc s Hs) as [Hs' Hq]. unfold mbind, Drive_bind.
  destruct (c s) as [[a|e] s1]; simpl in *; [|done]. apply Hk; [by apply Hq|done].
Qed.

Lemma keeps_bind {A B} (c : Drive A) (k : A → Drive B) :
  keeps c → (∀ a, keeps (k a)) → keeps (c ≫= k).
Proof. intros Hc Hk. eapply (gives_bind _ (λ _, True)); [|auto]. intros s Hs. split; [by apply Hc|done]. Qed.

Lemma keeps_attempt {A} (c : Drive A) : keeps c → keeps (attempt c).
Proof. intros Hc s Hs. specialize (Hc s Hs). unfold attempt. by destruct (c s). Qed.

Lemma gives_attempt {A} (c : Drive A) (Q : A → Prop) :
  gives c Q → gives (attempt c) (λ r, ∀ a, r = Ok a → Q a).
Proof.
  intros Hc s Hs. destruct (Hc s Hs) as [Hs' Hq]. unfold attempt. destruct (c s) as [r s1]. simpl in *.
  split; [done|]. intros a [= <-]. done.
Qed.

Lemma keeps_for_each {A} (f : A → Drive unit) l :
  (∀ a, a ∈ l → keeps (f a)) → keeps (for_each f l).
Proof.
  induction l as [|a l IH]; intros Hf; simpl; [apply keeps_ret|].
  apply keeps_bind; [apply Hf; left|]. intros _. apply IH. intros b Hb. apply Hf. by right.
Qed.

Lemma others_holds s : holds s → holds (others s).
Proof.
  unfold holds, others. intros Hs. pose proof (k_others (turn s) (policy s) (work s) (calls s) Hs) as Ho.
  by destruct (meanwhile _ _) as [p w].
Qed.

Lemma gives_ask {A} (q : Policy → Work → A) (Q : A → Prop) :
  (∀ p w cs, P p cs → Q (q p w)) → gives (ask q) Q.
Proof.
  intros Hq s Hs%others_holds. split; [done|]. intros a [= <-]. by eapply Hq.
Qed.

Lemma keeps_ask {A} (q : Policy → Work → A) : keeps (ask q).
Proof. intros s Hs. by apply others_holds. Qed.

Lemma keeps_ask_result {A} (q : Policy → Work → Result A FleetError) : keeps (ask_result q).
Proof. apply keeps_bind; [apply keeps_ask|]. intros r. apply keeps_lift. Qed.

Lemma keeps_commits {A} (f : Policy → Work → Work * Result A FleetError) : keeps (commits f).
Proof. intros s Hs%others_holds. unfold commits. by destruct (f _ _). Qed.

Lemma keeps_transaction {A} (f : Policy → Work → Result (Work * A) FleetError) : keeps (transaction f).
Proof. apply keeps_commits. Qed.

Lemma gives_action {A} (a : (nat → Uuid) → Action A) (Q : A → Prop) :
  (∀ drawn p cs, P p cs → P (a drawn p).2 cs ∧ ∀ x, (a drawn p).1 = Ok x → Q x) → gives (action a) Q.
Proof.
  intros Ha s Hs%others_holds. unfold action. unfold holds in Hs.
  destruct (Ha (draws (turn (others s))) _ _ Hs) as [Hp Hq]. destruct (a _ _) as [r p]. simpl in *.
  split; [done|]. intros x Hx. apply Hq. by apply map_err_Ok in Hx.
Qed.

Lemma keeps_action {A} (a : (nat → Uuid) → Action A) :
  (∀ drawn, same_runners (a drawn)) → keeps (action a).
Proof.
  intros Ha s Hs%others_holds. unfold action, holds in *.
  specialize (Ha (draws (turn (others s))) (policy (others s))).
  destruct (a _ _) as [r p]. simpl in *. by eapply k_frame.
Qed.

Lemma keeps_execute f : (∀ p cs, P p cs → P (f p) cs) → keeps (execute_policy f).
Proof. intros Hf s Hs%others_holds. by apply Hf. Qed.

Lemma keeps_set_size id f :
  (∀ x, pool_id (f x) = pool_id x ∧
        (pool_desired_count (f x) = pool_desired_count x ∨ scaled (pool_desired_count (f x)))) →
  keeps (execute_policy (set_pool id f)).
Proof. intros Hf. apply keeps_execute. intros p cs. by eapply k_pool. Qed.

Lemma keeps_set_pool id f :
  (∀ x, pool_id (f x) = pool_id x ∧ pool_desired_count (f x) = pool_desired_count x) →
  keeps (execute_policy (set_pool id f)).
Proof. intros Hf. apply keeps_set_size. intros x. destruct (Hf x). auto. Qed.

Lemma keeps_set_runners id q f :
  free id → (∀ x, q x = true → rn_id x = id) → (∀ x, rn_id (f x) = rn_id x) →
  keeps (execute_policy (set_runners q f)).
Proof. intros Hid Hq Hf. apply keeps_execute. intros p cs. by eapply k_update. Qed.

Lemma keeps_told c :
  (∀ p cs, P p cs → P p (cs ++ [c])%list) → keeps (told c).
Proof. intros Hc s Hs. unfold told. by apply Hc. Qed.

Lemma keeps_secret vault key : keeps (runtime_secret vault key).
Proof. intros s Hs%others_holds. unfold runtime_secret. by repeat case_match. Qed.

#[local] Hint Extern 1 (∀ x : PoolRow, _ ∧ _) => by intros x; split : keep.
#[local] Hint Resolve keeps_ret keeps_fails keeps_lift keeps_context keeps_now keeps_draw keeps_moments
  keeps_upstream keeps_asks keeps_labels keeps_ask keeps_ask_result keeps_commits keeps_transaction
  keeps_set_pool keeps_secret : keep.

Ltac keep :=
  repeat match goal with
    | |- ∀ _, _ => intro
    | |- keeps _ => solve [eauto with keep nocore]
    | |- keeps (_ ≫= _) => apply keeps_bind
    | |- keeps (attempt _) => apply keeps_attempt
    | |- _ => progress case_match
    end.

(** *** Removing runners *)
Lemma runner_named_id id x : runner_named id x = true → rn_id x = id.
Proof. apply String.eqb_eq. Qed.

Lemma named_and id q x : runner_named id x && q = true → rn_id x = id.
Proof. intros [Hn _]%andb_true_iff. by apply runner_named_id. Qed.

Lemma keeps_token vault installation : keeps (installation_token vault installation).
Proof. unfold installation_token. keep. Qed.
#[local] Hint Resolve keeps_token : keep.

Lemma keeps_remove_container container : keeps (remove_manager_container container).
Proof. unfold remove_manager_container. keep. apply keeps_told. intros. by apply k_removed. Qed.
#[local] Hint Resolve keeps_remove_container : keep.

Lemma keeps_deregister vault pool runner :
  free (ru_id runner) → keeps (deregister vault pool runner).
Proof.
  intros Hf. unfold deregister, deregister_bitbucket_runner, github_cleanup, remove_runner. keep.
  all: eapply (keeps_set_runners (ru_id runner)); [done| |done]; intros x; apply named_and.
Qed.
#[local] Hint Resolve keeps_deregister : keep.

Lemma keeps_delete_runner vault pool runner :
  free (ru_id runner) → keeps (delete_runner vault pool runner).
Proof.
  intros Hf. unfold delete_runner. keep.
  all: eapply (keeps_set_runners (ru_id runner)); [done|apply runner_named_id|done].
Qed.
#[local] Hint Resolve keeps_delete_runner : keep.

(** The runners of a list that are idle or have failed may be removed. *)
Definition removable (rs : list Runner) : Prop :=
  ∀ r, r ∈ rs → ru_busy r = false ∨ ru_status r = "failed" → free (ru_id r).

Lemma current_runners_row pool p w r :
  r ∈ current_runners pool p w →
  ∃ x, x ∈ runners p ∧ rn_id x = ru_id r ∧ rn_busy x = ru_busy r ∧ rn_status x = ru_status r
    ∧ rn_container_id x = ru_container_id r ∧ rn_deleted_at x = None.
Proof.
  unfold current_runners. intros (x & Hx%elem_of_order_by & E)%list_elem_of_omap.
  apply elem_of_select in Hx as [Hx Hd]. apply andb_true_iff in Hd as [_ Hd]. exists x.
  unfold read_runner in E. apply bind_Some in E as (q & _ & E). apply bind_Some in E as (i & _ & [= <-]).
  split_and!; try done. by destruct (rn_deleted_at x).
Qed.

Lemma gives_list pool : gives (list_runners pool) removable.
Proof.
  apply gives_ask. intros p w cs Hp r (x & Hx & <- & <- & <- & _)%current_runners_row Hr.
  by eapply k_idle.
Qed.

Lemma keeps_delete_each vault pool rs :
  (∀ r, r ∈ rs → free (ru_id r)) → keeps (delete_each vault pool rs).
Proof. intros Hf. apply keeps_for_each. intros r Hr. keep. Qed.

Lemma surplus_runner_idle rs capacities providers_capacities providers factor provider r :
  surplus_runner rs capacities providers_capacities providers factor provider = Some r →
  r ∈ rs ∧ ru_busy r = false ∧ ru_ci_platform r ≠ "bitbucket" ∧ is_active r = true.
Proof.
  unfold surplus_runner. case_match; [done|]. intros [Hr Hq]%fetch_Some.
  rewrite !andb_true_iff, !negb_true_iff in Hq. destruct Hq as [[[[Hb Hbusy] Ha] _] _].
  split_and!; try done. by apply String.eqb_neq.
Qed.

Section pool.
Context (arch : string) (vault : Vault).
Context (Hhost : ∀ pool, keeps (provision_on_host arch vault pool)).

Lemma keeps_evict_surplus pool current provider :
  removable current → keeps (evict_surplus_runner arch vault pool current provider).
Proof.
  intros Hc. unfold evict_surplus_runner. keep. apply keeps_delete_runner.
  match goal with E : surplus_runner _ _ _ _ _ _ = _ |- _ =>
    apply surplus_runner_idle in E as ([Hr _]%elem_of_select & ? & _) end. apply Hc; auto.
Qed.

Lemma keeps_rebalance pool desired : keeps (rebalance_repository_capacity arch vault pool desired).
Proof.
  unfold rebalance_repository_capacity. case_match; [apply keeps_ret|].
  eapply gives_bind; [apply gives_list|]. intros rs Hrs. case_match; [apply keeps_ret|].
  by apply keeps_evict_surplus.
Qed.

Lemma keeps_evict_idle pool : keeps (evict_idle_fleet_runner vault pool).
Proof.
  unfold evict_idle_fleet_runner. apply keeps_bind; [apply keeps_now|]. intros now.
  eapply (gives_bind _ (λ o, ∀ id, o = Some id → free id)).
  { apply gives_ask. intros p w cs Hp id E. unfold idle_fleet_runner in E.
    apply fmap_Some in E as (x & E%order_by_head_elem & ->). apply elem_of_select in E as [Hx Hq].
    rewrite !andb_true_iff, !negb_true_iff in Hq. eapply k_idle; [done..|]. left. apply Hq. }
  intros [id|] Hid; keep. apply keeps_delete_runner.
  match goal with E : fetch _ _ = Some ?r |- _ => apply fetch_Some in E as [_ ->%String.eqb_eq] end.
  by apply Hid.
Qed.

Lemma keeps_rotate pool blocked : keeps (rotate vault pool blocked).
Proof.
  unfold rotate. eapply gives_bind; [apply gives_list|]. intros rs Hrs. keep. apply keeps_delete_runner.
  match goal with E : fetch _ _ = Some ?r |- _ => apply fetch_Some in E as [Hr Hq] end.
  rewrite !andb_true_iff, !negb_true_iff in Hq. apply Hrs; [done|]. left. apply Hq.
Qed.

(** The sizes the pass may choose: a larger one up to the maximum when jobs
    wait, and the minimum when the pool is idle. *)
Definition may_scale (pool : Pool) : Prop :=
  (∀ z, pool_desired_count (pool_row pool) < z ≤ pool_max_count (pool_row pool) → scaled z) ∧
  (pool_min_count (pool_row pool) < pool_desired_count (pool_row pool) →
   scaled (pool_min_count (pool_row pool))).

Lemma keeps_scale_up pool rs : may_scale pool → keeps (maybe_scale_up arch pool rs).
Proof.
  intros [Hup _]. unfold maybe_scale_up. keep. apply keeps_set_size. intros x. split; [done|].
  right. apply Hup. cbn. lia.
Qed.

Lemma keeps_scale_down pool rs : may_scale pool → keeps (maybe_scale_down arch pool rs).
Proof.
  intros [_ Hdown]. unfold maybe_scale_down. keep. apply keeps_set_size. intros x. split; [done|].
  right. apply Hdown. cbn. rewrite !orb_false_iff in *. lia.
Qed.

(** *** Making runners *)
Lemma gives_insert x : gives (action (λ _, insert_runner x)) (λ _, free (rn_id x)).
Proof.
  apply gives_action. intros _ p cs Hp. unfold insert_runner. case_match eqn:E; [done|].
  rewrite !orb_false_iff in E. destruct E as [[E _] _]. rewrite exists_row_false in E.
  destruct (k_insert x p cs Hp) as [? ?]; [|done].
  intros y Hy Hid. specialize (E y Hy). unfold runner_named in E. by rewrite Hid, String.eqb_refl in E.
Qed.

Lemma keeps_fleet_provision pool profiles profile :
  keeps (fleet_provision arch pool profiles profile).
Proof.
  unfold fleet_provision, runner_target, repository_for_platform, external_id.
  apply keeps_bind.
  { keep; (try by apply keeps_action; intros; apply same_ensure_target);
      (try by apply keeps_action; intros; apply same_pool_targets).
    apply keeps_execute. intros p cs. apply k_frame, link_pool_target_same. }
  intros [target repository]. do 3 (apply keeps_bind; [auto with keep nocore|]; intros ?).
  eapply gives_bind; [apply gives_insert|]. intros u Hfree. cbn in Hfree.
  unfold admit_waiting. keep. eapply keeps_set_runners; [exact Hfree|apply runner_named_id|done].
Qed.

Lemma keeps_provision pool : keeps (provision arch vault pool).
Proof.
  pose proof keeps_fleet_provision as Hfleet.
  unfold provision, enabled_profiles, choose_profile, fleet_machine_ready. keep.
Qed.

Lemma keeps_fill pool missing : keeps (fill arch vault pool missing).
Proof.
  induction missing as [|n IH]; simpl; [apply keeps_ret|].
  apply keeps_bind; [apply keeps_provision|]. intros tried. apply keeps_bind.
  - case_match; try apply keeps_ret. case_match; [|apply keeps_ret].
    eapply gives_bind; [apply gives_list|]. intros rs Hrs.
    apply keeps_bind; [by apply keeps_evict_surplus|]. intros [|]; [apply keeps_provision|apply keeps_ret].
  - intros r. unfold defer_pool_capacity. keep.
Qed.

Lemma keeps_adjust pool blocked desired : keeps (adjust arch vault pool blocked desired).
Proof.
  unfold adjust. eapply gives_bind; [apply gives_list|]. intros rs Hrs. case_match; [apply keeps_fill|].
  case_match; [|apply keeps_ret]. apply keeps_bind; [|intros; apply keeps_ret].
  apply keeps_delete_each. intros r Hr. apply elem_of_take in Hr as (i & Hi & _).
  apply list_elem_of_lookup_2, elem_of_select in Hi as [Hi Hq].
  apply elem_of_select in Hi as [Hi _]. apply andb_true_iff in Hq as [_ Hq%negb_true_iff]. apply Hrs; auto.
Qed.
End pool.
End kept.

(** ** A capacity lease, from its reservation to its end *)
#[export] Hint Extern 1 (∀ x : PoolRow, _ ∧ _) => by intros x; split : keep.
#[export] Hint Resolve keeps_ret keeps_fails keeps_lift keeps_context keeps_now keeps_draw keeps_moments
  keeps_upstream keeps_asks keeps_labels keeps_ask keeps_ask_result keeps_commits keeps_transaction
  keeps_set_pool keeps_secret keeps_token keeps_remove_container keeps_delete_runner : keep.

Ltac keep :=
  repeat match goal with
    | |- ∀ _, _ => intro
    | |- keeps _ _ => solve [eauto with keep nocore]
    | |- keeps _ (_ ≫= _) => apply keeps_bind
    | |- keeps _ (attempt _) => apply keeps_attempt
    | |- _ => progress case_match
    end.

Section leased.
Context `{UuidText, Codec, RequestJson, ResultJson, Aead, Surroundings, Upstream, Services}.

(** While a lease is held, the weaker [Pl lease] is kept; a lease that is
    given back, at least as far as the reconciler can, or that became a
    container, gives [P] again. *)
Class Leased (P : Policy → list Call → Prop) (Pl : string → Policy → list Call → Prop) : Prop := {
  l_reserved lease rs cs : P rs cs → Pl lease rs (cs ++ [ReservedLease lease])%list;
  l_released lease rs cs : Pl lease rs cs → P rs (cs ++ [ReleasedLease lease])%list;
  l_refused lease rs cs : Pl lease rs cs → P rs (cs ++ [ReleaseFailed lease])%list;
  l_created lease container rs cs : Pl lease rs cs → P rs (cs ++ [CreatedContainer lease container])%list;
  l_weaken lease rs cs : P rs cs → Pl lease rs cs }.

Context (P : Policy → list Call → Prop) (Pl : string → Policy → list Call → Prop).
Context (free : string → Prop) (scaled : Z → Prop) `{HP : !Kept P free scaled} `{HPl : !∀ lease, Kept (Pl lease) free scaled} `{HL : !Leased P Pl}.

(** A run that ends the lease when it succeeds, and one that ends it always. *)
Definition uses {A} (lease : string) (c : Drive A) : Prop :=
  ∀ s, holds (Pl lease) s →
    match (c s).1 with Ok _ => holds P (c s).2 | Err _ => holds (Pl lease) (c s).2 end.

Definition ends {A} (lease : string) (c : Drive A) : Prop :=
  ∀ s, holds (Pl lease) s → holds P (c s).2.

Lemma uses_after {A B} lease (c : Drive A) (k : A → Drive B) :
  keeps (Pl lease) c → (∀ a, uses lease (k a)) → uses lease (c ≫= k).
Proof.
  intros Hc Hk s Hs. specialize (Hc s Hs). unfold mbind, Drive_bind.
  destruct (c s) as [[a|e] s1]; simpl in *; [by apply Hk|done].
Qed.

Lemma uses_before {A B} lease (c : Drive A) (k : A → Drive B) :
  uses lease c → (∀ a, keeps P (k a)) → uses lease (c ≫= k).
Proof.
  intros Hc Hk s Hs. specialize (Hc s Hs). unfold mbind, Drive_bind.
  destruct (c s) as [[a|e] s1]; simpl in *; [|done]. specialize (Hk a s1 Hc).
  destruct (k a s1) as [[b|e] s2]; simpl in *; [done|]. by apply l_weaken.
Qed.

Lemma keeps_reserve {A} runner_id pool provider (k : CapacityAdmission → Drive A) :
  (∀ reason, keeps P (k {| ca_lease_id := None; ca_reason := reason |})) →
  (∀ lease, ends lease (k {| ca_lease_id := Some lease; ca_reason := None |})) →
  keeps P (reserve_runner_capacity runner_id pool provider ≫= k).
Proof.
  intros Hnone Hsome s Hs. unfold reserve_runner_capacity, mbind, Drive_bind, attempt, asks, told, mret, Drive_ret.
  destruct (manager_admissions _ _ _ _) as [[lease|]|e]; simpl.
  - apply Hsome. apply l_reserved. exact Hs.
  - apply Hnone. exact Hs.
  - destruct (deferred_manager_error _); simpl; [apply Hnone|]; exact Hs.
Qed.

Lemma ends_release {A} lease (k : unit → Drive A) :
  (∀ u, keeps P (k u)) → ends lease (release_runner_capacity lease ≫= k).
Proof.
  intros Hk s Hs. unfold release_runner_capacity, mbind, Drive_bind, attempt, asks, told. simpl. apply Hk.
  destruct (manager_release _ _); [by apply l_released|by apply l_refused].
Qed.

Lemma ends_now {A} lease (k : Z → Drive A) : (∀ now, ends lease (k now)) → ends lease (now_millis ≫= k).
Proof. intros Hk s Hs. by apply Hk. Qed.

(** [match attempt c { Ok => ..., Err => ... }]. *)
Lemma ends_kept {A B} lease (c : Drive A) (Q : A → Prop) (k : Result A Failure → Drive B) :
  gives (Pl lease) c Q → (∀ a, Q a → ends lease (k (Ok a))) → (∀ e, ends lease (k (Err e))) →
  ends lease (attempt c ≫= k).
Proof.
  intros Hc Hok Herr s Hs. destruct (Hc s Hs) as [Hs' Hq]. unfold mbind, Drive_bind, attempt.
  destruct (c s) as [[a|e] s1]; simpl in *; [apply Hok; auto|by apply Herr].
Qed.

Lemma ends_used {A B} lease (c : Drive A) (k : Result A Failure → Drive B) :
  uses lease c → (∀ a, keeps P (k (Ok a))) → (∀ e, ends lease (k (Err e))) →
  ends lease (attempt c ≫= k).
Proof.
  intros Hc Hok Herr s Hs. specialize (Hc s Hs). unfold mbind, Drive_bind, attempt.
  destruct (c s) as [[a|e] s1]; simpl in *; [by apply Hok|by apply Herr].
Qed.

Lemma uses_create vault lease request connection runner_uuid :
  rq_lease request = lease → uses lease (create_runner vault request connection runner_uuid).
Proof.
  intros <-. unfold create_runner. apply uses_after; [keep|]. intros [created|e].
  - apply uses_before; [|keep]. intros s Hs. by apply l_created.
  - apply uses_after; [|intros; by intros s]. unfold take_back. keep.
Qed.

Lemma keeps_record_created id github uuid created now :
  free id → keeps P (action (λ _, record_created id github uuid created now)).
Proof.
  intros Hid s Hs. eapply (gives_action P free scaled _ (λ _, True)); [|exact Hs].
  intros _ p cs Hp. unfold record_created. split; [|done]. case_match; [done|].
  eapply k_update; [exact Hid|apply runner_named_id|done..].
Qed.

Lemma uses_launch vault arch pool plan runner_id name lease repository connection :
  free runner_id → uses lease (launch arch vault pool plan runner_id name lease repository connection).
Proof.
  intros Hid. unfold launch. apply uses_after.
  { unfold register_on_bitbucket, register_on_github. keep. }
  intros [[credentials github] uuid]. apply uses_after.
  { keep. eapply keeps_set_runners; [done|exact Hid|apply runner_named_id|done]. }
  intros u. apply uses_before; [by apply uses_create|]. intros created. keep. by apply keeps_record_created.
Qed.

Lemma ends_launch_failed pool provider runner_id lease e :
  free runner_id → ends lease (launch_failed pool provider runner_id lease e).
Proof.
  intros Hid. unfold launch_failed. apply ends_release. intros u.
  unfold cleanup_unrecorded_manager_runner, record_provision_failure. keep.
  eapply keeps_set_runners; [done|exact Hid|apply runner_named_id|done].
Qed.

Lemma keeps_provision_on_host arch vault pool : keeps P (provision_on_host arch vault pool).
Proof.
  unfold provision_on_host, chosen_provider. do 5 (apply keeps_bind; [keep|]; intros ?).
  apply keeps_reserve; [intros reason; apply keeps_ret|]. intros lease. apply ends_now. intros now.
  eapply ends_kept; [apply (gives_insert (Pl lease) free scaled)| |].
  - intros u Hid. cbn in Hid. apply ends_used; [by apply uses_launch|keep|].
    intros e. by apply ends_launch_failed.
  - intros e. apply ends_release. keep.
Qed.

Lemma keeps_resize arch vault pool paused : may_scale scaled pool → keeps P (resize_pool arch vault pool paused).
Proof.
  intros Hsize. pose proof (keeps_provision_on_host arch vault) as Hhost.
  unfold resize_pool. eapply gives_bind; [apply (gives_list P free scaled)|]. intros current Hcurrent.
  apply keeps_bind.
  { apply (keeps_delete_each P free scaled). intros r [Hr Hq%String.eqb_eq]%elem_of_select. apply Hcurrent; auto. }
  intros u. unfold record_capacity_sample, desired_size. keep.
  all: first [by apply (keeps_rotate P free scaled) | by apply (keeps_scale_up P free scaled)
    | by apply (keeps_scale_down P free scaled) | by apply (keeps_rebalance P free scaled)
    | by apply (keeps_adjust P free scaled) | by apply (keeps_evict_idle P free scaled) | idtac].
  all: intros s Hs; by apply (others_holds P free scaled).
Qed.
End leased.

(** ** A busy runner stays *)
Section busy.
Context `{UuidText, Codec, RequestJson, ResultJson, Aead, Surroundings, Upstream, Services}.

(** The manager reports a container that has not ended. *)
Definition alive (states : gmap string string) (container : string) : Prop :=
  default "missing" (states !! container) ∉ ["exited"; "dead"; "missing"; "failed"].

(** The runner is there, runs a job, and its container, if any, is alive. *)
Definition working (states : gmap string string) (x : RunnerRow) : Prop :=
  rn_busy x = true ∧ rn_status x ≠ "failed" ∧ rn_deleted_at x = None ∧
  ∀ container, rn_container_id x = Some container → alive states container.

Definition at_work (id : string) (states : gmap string string) (rs : list RunnerRow) : Prop :=
  NoDup (rn_id <$> rs) ∧ ∃ x, x ∈ rs ∧ rn_id x = id ∧ working states x.

Lemma at_work_row id states rs x : at_work id states rs → x ∈ rs → rn_id x = id → working states x.
Proof.
  intros [Hnd (y & Hy & Hid & Hw)] Hx Hx'. assert (x = y) as ->; [|done].
  eapply unique_by; [exact Hnd|done..|congruence].
Qed.

Lemma at_work_update id states q f rs :
  (∀ x, rn_id (f x) = rn_id x) →
  (∀ x, x ∈ rs → rn_id x = id → q x = true → working states x → working states (f x)) →
  at_work id states rs → at_work id states (update_where q f rs).
Proof.
  intros Hf Hw [Hnd (x & Hx & Hid & Hwork)]. split; [by rewrite update_where_fmap|].
  exists (if q x then f x else x). split; [apply elem_of_update_where; eauto|].
  destruct (q x) eqn:Hq; [|done]. split; [by rewrite Hf|by apply Hw].
Qed.

(** What others do while the pass runs leaves the runner at work. *)
Context (id : string) (states : gmap string string).
Context (Hothers : ∀ n p w, at_work id states (runners p) → at_work id states (runners (meanwhile n (p, w)).1)).

#[local] Instance at_work_kept : Kept (λ p _, at_work id states (runners p)) (λ x, x ≠ id) (λ _, True).
Proof.
  split; try done.
  - intros n p w _. apply Hothers.
  - intros p p' _ [Hr _]. by rewrite Hr.
  - intros x p _ [Hnd (y & Hy & <- & Hw)] Hfresh. split; [split|]; cbn.
    + by apply NoDup_snoc.
    + exists y. rewrite elem_of_app. auto.
    + intros E. by apply (Hfresh y).
  - intros id' q f p _ Hne Hq Hf. apply at_work_update; [done|]. intros x _ <- Hx. by apply Hq in Hx.
  - intros p _ x Hrs Hx Hidle E. destruct (at_work_row _ _ _ _ Hrs Hx E) as (Hb & Hs & _).
    destruct Hidle; congruence.
Qed.

#[local] Instance at_work_leased :
  Leased (λ p _, at_work id states (runners p)) (λ _ p _, at_work id states (runners p)).
Proof. by split. Qed.

Lemma synced_working runner container :
  ru_busy runner = true → alive states container → synced_status states runner container ≠ "failed".
Proof.
  unfold synced_status, alive. intros -> Ha. set (state := default _ _) in *.
  destruct (String.eqb_spec state "running"); [done|]. destruct (String.eqb_spec state "paused"); [done|].
  rewrite !bool_decide_eq_false_2; simpl; set_solver.
Qed.

Lemma sync_keeps_working runner :
  (ru_id runner = id → ru_busy runner = true ∧ ∀ c, ru_container_id runner = Some c → alive states c) →
  keeps (λ p _, at_work id states (runners p)) (sync_runner states runner).
Proof.
  intros Hr. unfold sync_runner. destruct (ru_container_id runner) as [c|]; [|apply keeps_ret].
  apply keeps_bind; [apply keeps_now|]. intros now. eapply (keeps_execute _ _ _).
  intros p _. apply at_work_update; [done|]. intros x _ Hx Hn%runner_named_id (Hb & Hs & Hd & Hc).
  destruct Hr as [Hbusy Halive]; [congruence|]. split_and!; try done. by apply synced_working; auto.
Qed.

Lemma reconcile_keeps_working arch vault pool paused :
  keeps (λ p _, at_work id states (runners p)) (reconcile_pool arch vault pool states paused).
Proof.
  unfold reconcile_pool. eapply (gives_bind _ _ (λ known, ∀ r, r ∈ known → ru_id r = id →
    ru_busy r = true ∧ ∀ c, ru_container_id r = Some c → alive states c)).
  - eapply (gives_ask _ _ _). intros p w _ Hp r (x & Hx & Hid & Hb & _ & Hc & _)%current_runners_row E.
    destruct (at_work_row id states _ x Hp Hx) as (Hbusy & _ & _ & Ha); [congruence|].
    rewrite <-Hb, <-Hc. auto.
  - intros known Hknown. apply keeps_bind; [|intros; by eapply (keeps_resize _ _ _ _)].
    apply keeps_for_each. intros r Hr. apply sync_keeps_working. by apply Hknown.
Qed.
End busy.

(** ** Leases *)
Section leases.
Context `{UuidText, Codec, RequestJson, ResultJson, Aead, Surroundings, Upstream, Services}.

(** The leases that were reserved and neither given back nor used. *)
Definition account (held : gset string) (c : Call) : gset string :=
  match c with
  | ReservedLease lease => {[lease]} ∪ held
  | ReleasedLease lease | CreatedContainer lease _ => held ∖ {[lease]}
  | ReleaseFailed _ | RemovedContainer _ => held
  end.

Definition outstanding (cs : list Call) : gset string := fold_left account cs ∅.

Lemma outstanding_snoc cs c : outstanding (cs ++ [c])%list = account (outstanding cs) c.
Proof. apply fold_left_app. Qed.

(** The leases the manager did not take back. *)
Definition not_taken_back (cs : list Call) : gset string :=
  list_to_set (omap (λ c, match c with ReleaseFailed lease => Some lease | _ => None end) cs).

Lemma refused_snoc cs c :
  not_taken_back (cs ++ [c])%list = not_taken_back cs ∪ match c with ReleaseFailed lease => {[lease]} | _ => ∅ end.
Proof.
  unfold not_taken_back. rewrite omap_app, list_to_set_app_L. f_equal. destruct c; set_solver.
Qed.

(** Calls since [before] that leave at most [extra] and the refused leases
    outstanding. *)
Definition accounted (before : list Call) (extra : gset string) (_ : Policy) (cs : list Call) : Prop :=
  ∃ new, cs = (before ++ new)%list ∧ outstanding cs ⊆ extra ∪ outstanding before ∪ not_taken_back new.

#[local] Instance outstanding_kept before extra : Kept (accounted before extra) (λ _, True) (λ _, True).
Proof.
  split; unfold accounted; try done; intros;
    match goal with Hx : ∃ _, _ |- _ => destruct Hx as (new & -> & Hsub) end.
  all: eexists; (split; [by rewrite <-app_assoc|]); rewrite outstanding_snoc, refused_snoc; simpl; set_solver.
Qed.

#[local] Instance outstanding_leased before :
  Leased (accounted before ∅) (λ lease, accounted before {[lease]}).
Proof.
  split; intros; match goal with Hx : accounted _ _ _ _ |- _ => destruct Hx as (new & -> & Hsub) end.
  5: exists new; split; [done|set_solver].
  all: eexists; (split; [by rewrite <-app_assoc|]); rewrite outstanding_snoc, refused_snoc; simpl; set_solver.
Qed.

Section limit.
Context (before : list Call).
Notation kept := (keeps (accounted before ∅)).

Lemma kept_execute f : kept (execute_policy f).
Proof. by eapply (keeps_execute _ _ _). Qed.
Lemma kept_action {A} (a : (nat → Uuid) → Action A) : kept (action a).
Proof. intros s Hs%(others_holds _ _ _). unfold action. by destruct (a _ _). Qed.
Lemma kept_nonce : kept new_nonce.
Proof. by intros s. Qed.
Lemma kept_cleanup f : kept (update_cleanup f).
Proof. intros s Hs%(others_holds _ _ _). done. Qed.
Lemma kept_due now : kept (due_cleanups now).
Proof. intros s Hs%(others_holds _ _ _). done. Qed.
#[local] Hint Resolve outstanding_kept kept_execute kept_action kept_nonce kept_cleanup kept_due : keep.

Lemma kept_logged {A} (f : A → Drive unit) l : (∀ a, kept (f a)) → kept (for_each_logged f l).
Proof. intros Hf. apply keeps_for_each. intros a _. specialize (Hf a). keep. Qed.

Lemma kept_start vault placement environment prepare material :
  kept (start_runner vault placement environment prepare material).
Proof. unfold start_runner, issues. keep. Qed.
#[local] Hint Resolve kept_start : keep.

Lemma kept_register vault placement : kept (register_and_start vault placement).
Proof. unfold register_and_start, abandons, registration. keep. Qed.

Lemma kept_follow placement : kept (follow placement).
Proof. unfold follow, watch_start, mark_online, cleans_up, issues. keep. Qed.

Lemma kept_finish placement : kept (finish placement).
Proof. unfold finish, abandons, cleans_up, issues. keep. Qed.

Lemma kept_tick vault : kept (tick vault).
Proof.
  unfold tick, admit_waiting, expire_queued, retire_ended. keep.
  - apply keeps_for_each. intros row _. unfold expire_row. keep.
  - apply kept_logged, kept_register.
  - apply kept_logged, kept_follow.
  - apply keeps_for_each. intros placement _. apply kept_finish.
Qed.

Lemma kept_retries vault : kept (retry_github_runner_cleanup vault).
Proof.
  unfold retry_github_runner_cleanup. keep. apply keeps_for_each. intros row _.
  unfold retry_cleanup, cleanup_runner. keep.
Qed.

Lemma kept_pool arch vault pool states paused : kept (reconcile_pool arch vault pool states paused).
Proof.
  unfold reconcile_pool. apply keeps_bind; [eapply (keeps_ask _ _ _)|]. intros known.
  apply keeps_bind; [|intros; by apply (keeps_resize (accounted before ∅) (λ lease, accounted before {[lease]})
                                   (λ _, True) (λ _, True))].
  apply keeps_for_each. intros r _.
  unfold sync_runner. keep.
Qed.

Lemma kept_reconcile arch vault paused : kept (reconcile arch vault paused).
Proof.
  pose proof kept_tick. pose proof kept_retries.
  unfold reconcile, cleanup_orphaned_manager_containers. keep.
  - apply kept_logged. keep.
  - apply kept_logged. intros pool. apply kept_pool.
Qed.
End limit.
End leases.

(** ** The size of a pool *)
Section sizes.
Context `{UuidText, Codec, RequestJson, ResultJson, Aead, Surroundings, Upstream, Services}.
Context (lower upper : Z) (id : string).

(** The size the pool's row asks for lies within the bounds. *)
Definition within (p : Policy) : Prop :=
  ∀ x, x ∈ runner_pools p → pool_id x = id → lower ≤ pool_desired_count x ≤ upper.

Context (Hothers : ∀ n p w, within p → within (meanwhile n (p, w)).1).

#[local] Instance within_kept : Kept (λ p _, within p) (λ _, True) (λ z, lower ≤ z ≤ upper).
Proof.
  split; try done.
  - intros n p w _. apply Hothers.
  - intros p p' _ [_ Hp]. unfold within. by rewrite Hp.
  - intros id' f p _ Hf Hp x (y & Hy & ->)%elem_of_update_where.
    case_match; [|by apply Hp]. destruct (Hf y) as [-> [->|?]]; auto.
Qed.

#[local] Instance within_leased : Leased (λ p _, within p) (λ _ p _, within p).
Proof. by split. Qed.

Lemma reconcile_keeps_within arch vault pool states paused :
  lower ≤ pool_min_count (pool_row pool) → lower ≤ pool_desired_count (pool_row pool) →
  pool_max_count (pool_row pool) ≤ upper → pool_desired_count (pool_row pool) ≤ upper →
  keeps (λ p _, within p) (reconcile_pool arch vault pool states paused).
Proof.
  intros. unfold reconcile_pool. apply keeps_bind; [eapply (keeps_ask _ _ _)|]. intros known.
  apply keeps_bind; [|intros; eapply (keeps_resize _ _ _ _); split; intros; lia].
  apply keeps_for_each. intros r _. unfold sync_runner. keep. by eapply (keeps_execute _ _ _).
Qed.
End sizes.

(** ** Runs that tell the manager nothing *)
Section silent.
Context `{UuidText, Codec, RequestJson, ResultJson, Aead, Surroundings, Upstream, Services}.

Definition silent {A} (c : Drive A) : Prop := ∀ s, calls (c s).2 = calls s.

Lemma calls_others s : calls (others s) = calls s.
Proof. unfold others. by destruct (meanwhile _ _). Qed.

Lemma silent_bind {A B} (c : Drive A) (k : A → Drive B) :
  silent c → (∀ a, silent (k a)) → silent (c ≫= k).
Proof.
  intros Hc Hk s. specialize (Hc s). unfold mbind, Drive_bind.
  destruct (c s) as [[a|e] s1]; simpl in *; [by rewrite Hk|done].
Qed.

Lemma silent_secret vault key : silent (runtime_secret vault key).
Proof. intros s. unfold runtime_secret. repeat case_match; apply calls_others. Qed.

Lemma silent_token vault installation : silent (installation_token vault installation).
Proof.
  apply silent_bind; [apply silent_secret|]. intros app. apply silent_bind; [apply silent_secret|].
  intros key. repeat case_match; try by intros ?. apply silent_bind; [|intros a]; by intros ?.
Qed.

(** GitHub refuses to remove a runner that runs a job. *)
Definition refuses_running : Prop :=
  ∀ n path token, ∃ details, try_delete n path token = Ok (Some (422, details))
    ∧ contains "running a job" details = true.

(** A runner GitHub says is running a job is kept: it is marked busy and its
    container is left alone. *)
Theorem running_job_is_spared vault pool runner id token s :
  refuses_running → ru_ci_platform runner ≠ "bitbucket" → ru_status runner ≠ "failed" →
  ru_github_runner_id runner = Some id →
  (installation_token vault (ru_installation_id runner) s).1 = Ok (Some token) →
  ∃ p now, (delete_runner vault pool runner s).1 = Ok false
  ∧ calls (delete_runner vault pool runner s).2 = calls s
  ∧ policy (delete_runner vault pool runner s).2 = mark_busy (ru_id runner) now p.
Proof.
  intros Hrefuse Hplatform Hstatus Hid Htoken.
  pose proof (silent_token vault (ru_installation_id runner) s) as Hcalls.
  unfold delete_runner, deregister, github_cleanup, remove_runner, mbind, Drive_bind, attempt, asks, execute_policy.
  rewrite (proj2 (String.eqb_neq _ _) Hplatform), Hid. cbn.
  destruct (installation_token vault _ s) as [r s1]. cbn in *. subst r. cbn.
  destruct (Hrefuse (turn s1) (runner_path (ru_repository runner) (account_login pool) id) token)
    as (details & -> & Hd). cbn. rewrite Hd. cbn.
  rewrite (proj2 (String.eqb_neq _ _) Hstatus). cbn. eexists _, _. split; [done|].
  split; [|done]. cbn. rewrite calls_others. done.
Qed.
End silent.

(** ** Times between attempts *)
(** A pool that failed is tried again after half a minute to a quarter of an
    hour, and the third failure in a row opens the circuit. *)
Theorem provision_retry_bounded attempts :
  in_i64 attempts →
  30000 ≤ (provision_failure_policy attempts).2 ≤ PROVISION_CIRCUIT_COOLDOWN_MS
  ∧ ((provision_failure_policy attempts).1 = true ↔ 3 ≤ attempts).
Proof.
  intros Ha. unfold provision_failure_policy. case_match; [split; [by vm_compute|]; split; [lia|done]|].
  split; [|split; [done|lia]]. unfold provision_backoff_ms.
  assert (clamp 0 10 (i64_saturating_sub attempts 1) = 0
          ∨ clamp 0 10 (i64_saturating_sub attempts 1) = 1) as Hc.
  { unfold clamp, i64_saturating_sub, i64_clamp, i64_min, i64_max in *. lia. }
  cbn [snd]. destruct Hc as [-> | ->]; by vm_compute.
Qed.

(** ** Labels for Bitbucket *)
Lemma elem_of_dedup a l : a ∈ dedup_neighbours l ↔ a ∈ l.
Proof.
  induction l as [|b [|c l] IH]; [done..|]. cbn. destruct (String.eqb_spec b c) as [->|].
  - rewrite IH. set_solver.
  - rewrite elem_of_cons, IH. set_solver.
Qed.

(** A pool's labels that Bitbucket accepts: at most ten, each of lower-case
    letters, digits and dots, and every label of the pool but its name is
    among them. *)
Theorem bitbucket_labels_accepted name labels out :
  bitbucket_runner_labels name labels = Ok out →
  Z.of_nat (length out) ≤ 10
  ∧ (∀ label, label ∈ out → bitbucket_label label = true)
  ∧ ∀ label, label ∈ out ↔
      label ∈ ["self.hosted"; "macos"; "gridops." +:+ dots_for_hyphens name]
      ∨ label ∈ labels ∧ label ≠ name.
Proof.
  unfold bitbucket_runner_labels. set (all := ([_; _; _] ++ _)%list).
  assert (∀ label, label ∈ all ↔ label ∈ ["self.hosted"; "macos"; "gridops." +:+ dots_for_hyphens name]
                                 ∨ label ∈ labels ∧ label ≠ name) as Hin.
  { intros label. unfold all. by rewrite elem_of_app, elem_of_select, negb_true_iff, String.eqb_neq. }
  clearbody all. case_match eqn:E; [|done]. intros [= <-].
  apply andb_true_iff in E as [Hlen Hall]. rewrite forallb_forall in Hall. apply Z.leb_le in Hlen. split_and!; [done| |].
  - intros label Hl. by apply Hall, list_elem_of_In.
  - intros label. by rewrite elem_of_dedup, elem_of_order_by.
Qed.

(** ** A pass over a pool *)
Section passes.
Context `{UuidText, Codec, RequestJson, ResultJson, Aead, Surroundings, Upstream, Services}.
Context (arch : string) (vault : Vault) (pool : Pool) (states : gmap string string) (paused : bool).

(** C21: a runner that runs a job, and whose container the manager reports
    alive, is not taken away: whatever a pass over the pool does (removing
    failed runners, replacing outdated ones, shrinking, rebalancing, evicting,
    making new ones, with any answer of the services), the runner is still
    there, busy and neither failed nor deleted, as long as the transactions
    of others leave it so. *)
Theorem busy_runner_survives id s :
  (∀ n p w, at_work id states (runners p) → at_work id states (runners (meanwhile n (p, w)).1)) →
  at_work id states (runners (policy s)) →
  at_work id states (runners (policy (reconcile_pool arch vault pool states paused s).2)).
Proof. intros Hothers Hs. exact (reconcile_keeps_working id states Hothers arch vault pool paused s Hs). Qed.

(** C20: no capacity lease is forgotten.  Whatever fails during a pass of the
    reconciler over its machines and pools, each lease that an answer of the
    manager granted it has, when the pass ends, become a container, or was given
    back, or the reconciler asked the manager to take it back and the manager
    refused or did not answer. *)
Theorem leases_accounted s :
  ∃ new, calls (reconcile arch vault paused s).2 = (calls s ++ new)%list
    ∧ outstanding (calls (reconcile arch vault paused s).2) ⊆ outstanding (calls s) ∪ not_taken_back new.
Proof.
  destruct (kept_reconcile (calls s) arch vault paused s) as (new & E & Hsub).
  - exists []. by rewrite app_nil_r; split; [|set_solver].
  - exists new. split; [done|]. set_solver.
Qed.

(** C22: the size a pool asks for stays within its bounds: a pass over the
    pool raises it at most to the maximum and lowers it at most to the
    minimum, as long as the transactions of others keep it within them. *)
Theorem size_within_bounds s :
  let q := pool_row pool in
  let bounded := within (pool_min_count q) (pool_max_count q) (pool_id q) in
  pool_min_count q ≤ pool_desired_count q ≤ pool_max_count q →
  (∀ n p w, bounded p → bounded (meanwhile n (p, w)).1) →
  bounded (policy s) → bounded (policy (reconcile_pool arch vault pool states paused s).2).
Proof.
  intros q bounded Hq Hothers Hs.
  refine (reconcile_keeps_within _ _ _ Hothers arch vault pool states paused _ _ _ _ s Hs); subst q; lia.
Qed.
End passes.

(** ** A pool on the built-in host *)
Module SamplePool.
#[local] Existing Instances Hyphenated.uuid_text Plain.codec PlainAead.aead SampleRun.result_json
  SampleService.request_json SampleDriver.github SampleDriver.alone.

Definition managed : list ManagedRunner :=
  (λ id, {| mr_id := "container-" +:+ id; mr_state := "running";
            mr_labels := [("io.gridops.managed", "true"); ("io.gridops.runner-id", id)] |}) <$> ["a"; "b"].

(** The manager grants leases and starts containers; GitHub lets runners go. *)
#[export] Instance services : Services :=
  {| manager_admissions n _ _ _ := Ok (Some ("lease-" +:+ pretty n)); manager_release _ _ := Ok tt;
     manager_create n request := Ok {| cr_id := "new-" +:+ pretty n; cr_name := rq_name request;
                                       cr_state := "running" |};
     manager_policy _ _ := Ok tt; manager_runners _ := Ok managed; manager_delete _ _ := Ok tt;
     runner_by_name _ _ _ _ := Ok None; try_delete _ _ _ := Ok None;
     runner_group_name _ _ _ _ := Ok "default";
     bitbucket_create _ _ _ _ _ := Err "no workspace"; bitbucket_delete _ _ _ _ := Ok tt;
     database_message _ := "database" |}.

(** A pool of one runner, with an outdated runner that is idle, one that is
    busy, and a job that waits. *)
Definition pool : PoolRow :=
  SampleScaling.pool "host" 2 <| pool_desired_count := 1 |> <| pool_min_count := 1 |>
    <| pool_configuration_version := 2 |>.

Definition runner (id : string) (busy : bool) : RunnerRow :=
  SampleDriver.runner <| rn_id := id |> <| rn_pool_id := "host" |> <| rn_busy := busy |>
    <| rn_status := if busy then "busy" else "online" |> <| rn_configuration_version := 1 |>
    <| rn_container_id := Some ("container-" +:+ id) |> <| rn_github_runner_id := Some 7 |>.

Definition policy : Policy :=
  SampleScaling.policy <| runner_pools := [SampleScaling.pool "machines" 1; pool] |>
    <| runners := [runner "a" false; runner "b" true] |>.

Definition world : World := SampleDriver.world <| Driver.policy := policy |>.

Definition states : gmap string string :=
  {[ "container-a" := "running"; "container-b" := "running" ]}.

Definition acme : Pool := {| pool_row := pool; account_login := "acme" |}.

Definition pass : World := (reconcile_pool "x86_64" PlainAead.vault acme states false world).2.

(** The idle runner is replaced and the pool grows; the busy one stays. *)
Example pass_result :
  calls pass = [RemovedContainer "container-a"; ReservedLease "lease-39"; CreatedContainer "lease-39" "new-50"]
  ∧ (rn_status <$> runners (Driver.policy pass)) = ["deleted"; "busy"; "online"]
  ∧ (pool_desired_count <$> runner_pools (Driver.policy pass)) = [0; 2].
Proof. by vm_compute. Qed.

(** The same, as part of a whole pass. *)
Example whole_pass :
  let s := (reconcile "x86_64" PlainAead.vault false world).2 in
  length (calls s) = 3%nat ∧ outstanding (calls s) = ∅
  ∧ (rn_status <$> runners (Driver.policy s)) = ["deleted"; "busy"; "online"].
Proof. by vm_compute. Qed.

Lemma busy_runner_survives_witness :
  at_work "b" states (runners policy) ∧ at_work "b" states (runners (Driver.policy pass)).
Proof.
  assert (at_work "b" states (runners policy)) as Hb.
  { split; [vm_compute; apply (bool_decide_unpack _); by vm_compute|]. exists (runner "b" true).
    split; [right; left|]. split; [done|]. split_and!; [done|by vm_compute|done|]. intros c [= <-].
    apply (bool_decide_unpack _). by vm_compute. }
  split; [exact Hb|].
  exact (busy_runner_survives "x86_64" PlainAead.vault acme states false "b" world (λ _ _ _ Hw, Hw) Hb).
Defined.

Lemma size_within_bounds_witness :
  within 1 5 "host" policy ∧ within 1 5 "host" (Driver.policy pass).
Proof.
  assert (within 1 5 "host" policy) as Hb.
  { intros x Hx Hid. repeat (apply elem_of_cons in Hx as [->|Hx]; [by vm_compute in Hid || by vm_compute|]).
    by apply elem_of_nil in Hx. }
  split; [exact Hb|].
  refine (size_within_bounds "x86_64" PlainAead.vault acme states false world _ (λ _ _ _ Hw, Hw) Hb).
  by vm_compute.
Defined.
End SamplePool.
