(* ===== verification/Manager.v ===== *)
(** * The manager of the built-in host
    ([crates/gridops-manager/src/main.rs], and [create_sandbox] and
    [delete_sandbox] of [sandbox.rs]).

    Capacity leases, and the containers they become.  A handler is a [Serve]:
    before each of its statements other handlers and the containers themselves
    may act ([between]).  [provision_lock] lets one reservation, creation or
    start run at a time, so these are the requests of a sequence ([serve_all]).
    Docker is the class [Engine]; the Tart agent, the disk and the clock answer
    through [Machine].  Numbers in messages and the text of start scripts are not
    kept.  A handler runs to its end: a request's timeout, which drops the
    handler at one of its awaits, is not modelled, and neither are logs, health,
    the listings and archives. *)
From Stdlib Require Import SpecFloat.
From stdpp Require Import pretty.
From S2P Require Import Prelude Store.
#[local] Open Scope string_scope.
#[local] Open Scope Z_scope.

(** ** [f64]: IEEE 754 binary64 *)
Definition f64 : Type := spec_float.
Definition f64_add : f64 → f64 → f64 := SFadd 53 1024.
Definition f64_sub : f64 → f64 → f64 := SFsub 53 1024.
Definition f64_mul : f64 → f64 → f64 := SFmul 53 1024.
Definition f64_div : f64 → f64 → f64 := SFdiv 53 1024.
Definition f64_of_Z (z : Z) : f64 := binary_normalize 53 1024 z 0 false.
Definition f64_zero : f64 := S754_zero false.
(** [f64::EPSILON], 2^-52. *)
Definition EPSILON : f64 := binary_normalize 53 1024 1 (-52) false.
Definition f64_gt (a b : f64) : bool := SFltb b a.
Definition is_finite (a : f64) : bool :=
  match a with S754_zero _ | S754_finite _ _ _ => true | _ => false end.

(** [as i64]: truncation, at the ends of the range. *)
Definition f64_to_i64 (a : f64) : Z :=
  match a with
  | S754_zero _ | S754_nan => 0
  | S754_infinity s => if s then i64_min else i64_max
  | S754_finite s m e =>
      let magnitude := if 0 <=? e then Z.pos m * 2 ^ e else Z.pos m / 2 ^ (- e) in
      i64_clamp (if s then - magnitude else magnitude)
  end.

(** [i64] multiplication of a release build. *)
Definition i64_wrapping_mul (a b : Z) : Z := (a * b + 2 ^ 63) mod 2 ^ 64 - 2 ^ 63.
Definition usize_saturating_add (a b : Z) : Z := Z.min u64_max (a + b).

(** ** Errors *)
Inductive ManagerError :=
| Unauthorized | Forbidden (message : string) | BadRequest (message : string)
| Conflict (message : string) | Guardrail (code : string) | NotFound (message : string)
| UpstreamError (status : Z) (code : string) | PayloadTooLarge | Internal.

Inductive DockerError :=
| ServerError (status_code : Z) (message : string) | RequestTimeoutError | OtherError.

Definition from_docker (error : DockerError) : ManagerError :=
  match error with
  | ServerError 404 _ => NotFound "Managed runner container was not found."
  | ServerError 409 message => Conflict message
  | _ => Internal
  end.

(** ** Data *)
Record SharedDockerSocket := { host_path : string; group_id : Z }.

(** With the socket of [ManagerState] that runners share. *)
Record ManagerLimits := {
  available_cpus : f64; total_memory_mb : Z; cpu_budget : f64; memory_budget_mb : Z;
  ml_max_runners : Z; min_free_disk_mb : Z; min_free_disk_percent : Z; runner_network : string;
  log_max_size : string; log_max_files : Z; runner_pids_limit : Z; runner_swap_percent : Z;
  shared_docker_socket : option SharedDockerSocket }.

Record CapacityBudget := { cb_cpu : f64; cb_memory_mb : Z; cb_max_runners : Z }.
Record CapacityReservation := {
  cr_runner_id : string; cr_pool_id : string; cr_provider : string; cr_cpu_limit : f64;
  cr_memory_limit_mb : Z; cr_expires_at : Z }.
Record CapacityUsage := { active_runners : Z; cu_cpu : f64; cu_memory_mb : Z }.
Record DiskCapacity := { total_mb : Z; available_mb : Z; minimum_free_mb : Z }.

Record BitbucketBootstrap := {
  account_uuid : string; repository_uuid : option string; runner_uuid : string;
  oauth_client_id : string }.

Record ProvisionRunner := {
  pr_runner_id : string; pr_pool_id : string; pr_name : string; pr_image : string; pr_mode : string;
  pr_provider : string; pr_platform : string; pr_jit_config : option string;
  pr_registration_token : option string; pr_registration_url : option string;
  pr_labels : list string; pr_runner_group : option string; pr_bitbucket : option BitbucketBootstrap;
  pr_bitbucket_oauth_client_secret : option string; pr_pull_image : bool; pr_cpu_limit : f64;
  pr_memory_limit_mb : Z; pr_network : string; pr_capacity_lease : string; pr_runtime : string }.

Record CapacityRequest := {
  cq_runner_id : string; cq_pool_id : string; cq_provider : string; cq_cpu_limit : f64;
  cq_memory_limit_mb : Z }.

Record CreateSandbox := {
  sb_sandbox_id : string; sb_image : string; sb_pull_image : bool; sb_cpu_limit : f64;
  sb_memory_limit_mb : Z; sb_network : string; sb_capacity_lease : string }.

Record LeaseClaim := {
  lc_lease_id : string; lc_runner_id : string; lc_pool_id : string; lc_provider : string;
  lc_cpu_limit : f64; lc_memory_limit_mb : Z }.

(** What a container is created with. *)
Record ContainerCreateBody := {
  cc_image : string; cc_entrypoint : list string; cc_cmd : list string; cc_user : option string;
  cc_working_dir : option string; cc_env : list string; cc_labels : gmap string string;
  cc_open_stdin : bool; cc_network_mode : string; cc_nano_cpus : option Z; cc_memory : option Z;
  cc_memory_swap : option Z; cc_pids_limit : Z; cc_binds : option (list string);
  cc_group_add : option (list string); cc_cap_drop : list string; cc_cap_add : list string;
  cc_security_opt : list string; cc_log_max_size : string; cc_log_max_files : string }.

Record Container := { ct_id : option string; ct_name : string; ct_state : string; ct_body : ContainerCreateBody }.

(** ** Checks on texts *)
Definition alphanumeric (b : Z) : bool :=
  ((48 <=? b) && (b <=? 57)) || ((65 <=? b) && (b <=? 90)) || ((97 <=? b) && (b <=? 122)).
Definition hexdigit (b : Z) : bool :=
  ((48 <=? b) && (b <=? 57)) || ((65 <=? b) && (b <=? 70)) || ((97 <=? b) && (b <=? 102)).
Definition has_byte (l : list Z) (s : string) : bool :=
  existsb (λ b, bool_decide (b ∈ l)) (bytes s).
Definition has_newline : string → bool := has_byte [10; 13].
Definition len_in (lower upper : Z) (s : string) : bool := (lower <=? byte_len s) && (byte_len s <=? upper).

Definition valid_docker_name (value : string) : bool :=
  negb (is_empty value) && (byte_len value <=? 128)
  && forallb (λ b, alphanumeric b || bool_decide (b ∈ [46; 95; 45])) (bytes value).

(** [u8::is_ascii_whitespace]: tab, line feed, form feed, carriage return, space. *)
Definition valid_registration_url (value : string) : bool :=
  String.prefix "https://github.com/" value && (byte_len value <=? 512)
  && negb (has_byte [9; 10; 12; 13; 32] value).

Definition validate_container_id (id : string) : Result unit ManagerError :=
  if len_in 12 64 id && forallb hexdigit (bytes id) then Ok tt
  else Err (BadRequest "Container identifier is invalid.").

Definition is_tart_id (id : string) : bool :=
  String.prefix "tart-" id
  && (let suffix := drop 5 (bytes id) in
      (Z.of_nat (length suffix) =? 32) && forallb hexdigit suffix).

Definition managed_labels (labels : gmap string string) : bool :=
  let present key := match labels !! key with Some value => negb (is_empty value) | None => false end in
  bool_decide (labels !! "io.gridops.managed" = Some "true")
  && present "io.gridops.runner-id" && present "io.gridops.pool-id".

Definition SANDBOX_LABEL : string := "io.gridops.agent-sandbox".
Definition SANDBOX_ID_LABEL : string := "io.gridops.sandbox-id".

Definition sandbox_labels (sandbox_id : string) : gmap string string :=
  {[ SANDBOX_LABEL := "true"; SANDBOX_ID_LABEL := sandbox_id ]}.

Definition sandbox_labels_match (labels : gmap string string) (sandbox_id : string) : bool :=
  bool_decide (labels !! SANDBOX_LABEL = Some "true")
  && bool_decide (labels !! SANDBOX_ID_LABEL = Some sandbox_id)
  && negb (bool_decide (labels !! "io.gridops.managed" = Some "true")).

Definition sandbox_container_name (sandbox_id : string) : string := "gridops-agent-" +:+ sandbox_id.

Definition valid_sandbox_id (id : string) : bool :=
  len_in 8 64 id
  && forallb (λ b, ((97 <=? b) && (b <=? 122)) || ((48 <=? b) && (b <=? 57)) || (b =? 45)) (bytes id).

Definition validate_sandbox_id (id : string) : Result unit ManagerError :=
  if valid_sandbox_id id then Ok tt
  else Err (BadRequest "Sandbox identifier must be 8 to 64 lowercase letters, digits, or hyphens.").

Definition active_container_state (state : string) : bool :=
  bool_decide (state ∈ ["created"; "running"; "restarting"; "paused"]).

(** ** The disk *)
Definition free_disk_floor_mb (minimum_mb percent total_mb : Z) : Z :=
  if percent =? 0 then minimum_mb
  else Z.min minimum_mb (Z.min u64_max (total_mb * percent) / 100).

(** The pieces of a text between separators. *)
Fixpoint split_bytes (separator : Z → bool) (current : list Z) (l : list Z) : list (list Z) :=
  match l with
  | [] => [rev current]
  | b :: l => if separator b then rev current :: split_bytes separator [] l
              else split_bytes separator (b :: current) l
  end.

(** Tab, line feed, vertical tab, form feed, carriage return and space: what
    separates the words of an ASCII text. *)
Definition space_byte (b : Z) : bool := bool_decide (b ∈ [9; 10; 11; 12; 13; 32]).
Definition split_whitespace (line : list Z) : list (list Z) :=
  select (λ word, match word with [] => false | _ => true end) (split_bytes space_byte [] line).

(** [str::parse::<u64>]. *)
Definition parse_u64 (word : list Z) : option Z :=
  let digits := match word with 43 :: rest => rest | _ => word end in
  match digits with
  | [] => None
  | _ => if forallb (λ b, (48 <=? b) && (b <=? 57)) digits
         then let n := fold_left (λ n b, 10 * n + (b - 48)) digits 0 in
              if n <=? u64_max then Some n else None
         else None
  end.

Definition parse_df_capacity (output : string) : option (Z * Z) :=
  let lines := split_bytes (λ b, b =? 10) [] (bytes output) in
  row ← select (λ line, existsb (λ b, negb (space_byte b)) line) lines !! 1%nat;
  let columns := split_whitespace row in
  total ← columns !! 1%nat; total_kb ← parse_u64 total;
  available ← columns !! 3%nat; available_kb ← parse_u64 available;
  Some (total_kb / 1024, available_kb / 1024).

(** ** Settings *)
Definition valid_log_size (value : string) : bool :=
  match rev (bytes value) with
  | suffix :: number => bool_decide (suffix ∈ [107; 109; 103])
                        && match parse_u64 (rev number) with Some size => 0 <? size | None => false end
  | [] => false
  end.

(** The variables of the environment that are set, as they parse. *)
Record Environment := {
  env_cpu_budget : option f64; env_memory_budget_mb : option Z; env_max_runners : option Z;
  env_min_free_disk_mb : option Z; env_min_free_disk_percent : option Z; env_pids_limit : option Z;
  env_swap_percent : option Z; env_log_max_size : option string; env_log_max_files : option Z;
  env_runner_network : option string }.

Definition f64_max (a b : f64) : f64 := if SFltb a b then b else a.
Definition ensure (b : bool) : option unit := if b then Some tt else None.
Definition within_range (lower upper z : Z) : bool := (lower <=? z) && (z <=? upper).

(** [None] is an error. *)
Definition from_environment (env : Environment) (socket : option SharedDockerSocket)
    (cpus total_memory_bytes : Z) : option ManagerLimits :=
  let available_cpus := f64_of_Z (Z.max cpus 1) in
  let total_memory_mb := Z.max (total_memory_bytes ÷ 1024 ÷ 1024) 512 in
  let default_cpu_budget := f64_max (f64_mul available_cpus (f64_div (f64_of_Z 95) (f64_of_Z 100))) (f64_of_Z 1) in
  let default_memory_budget_mb := Z.max (total_memory_mb * 95 ÷ 100) 512 in
  let cpu_budget := default default_cpu_budget (env_cpu_budget env) in
  let memory_budget_mb := default default_memory_budget_mb (env_memory_budget_mb env) in
  _ ← ensure (f64_gt cpu_budget f64_zero && SFleb cpu_budget available_cpus);
  _ ← ensure (within_range 256 total_memory_mb memory_budget_mb);
  let default_max_runners :=
    Z.max (Z.min (f64_to_i64 (f64_div cpu_budget (f64_of_Z 2))) (memory_budget_mb ÷ 2048)) 1 in
  let max_runners := default default_max_runners (env_max_runners env) in
  _ ← ensure (within_range 1 1000 max_runners);
  let min_free_disk_percent := default 10 (env_min_free_disk_percent env) in
  _ ← ensure (min_free_disk_percent <=? 95);
  let runner_pids_limit := default 1024 (env_pids_limit env) in
  _ ← ensure (within_range 64 32768 runner_pids_limit);
  let runner_swap_percent := default 100 (env_swap_percent env) in
  _ ← ensure (within_range 0 400 runner_swap_percent);
  let log_max_size := default "20m" (env_log_max_size env) in
  _ ← ensure (valid_log_size log_max_size);
  let log_max_files := default 5 (env_log_max_files env) in
  _ ← ensure (within_range 1 100 log_max_files);
  let runner_network := default "gridops-runners" (env_runner_network env) in
  _ ← ensure (valid_docker_name runner_network);
  Some {| available_cpus := available_cpus; total_memory_mb := total_memory_mb; cpu_budget := cpu_budget;
          memory_budget_mb := memory_budget_mb; ml_max_runners := max_runners;
          min_free_disk_mb := default 10240 (env_min_free_disk_mb env);
          min_free_disk_percent := min_free_disk_percent; runner_network := runner_network;
          log_max_size := log_max_size; log_max_files := log_max_files;
          runner_pids_limit := runner_pids_limit; runner_swap_percent := runner_swap_percent;
          shared_docker_socket := socket |}.

(** ** What a request must look like *)
Definition refuse (b : bool) (message : string) : Result unit ManagerError :=
  if b then Err (BadRequest message) else Ok tt.

(** [is_none_or], [is_some_and]. *)
Definition none_or {A} (f : A → bool) (o : option A) : bool := match o with Some a => f a | None => true end.
Definition some_and {A} (f : A → bool) (o : option A) : bool := match o with Some a => f a | None => false end.

Definition unusable_secret (upper : Z) (value : string) : bool :=
  negb (len_in 20 upper value) || has_newline value.
Definition valid_value (value : string) : bool :=
  negb (is_empty value) && (byte_len value <=? 255) && negb (has_newline value).

Definition validate_registration (input : ProvisionRunner) : Result unit ManagerError :=
  if String.eqb (pr_platform input) "github" then
    if String.eqb (pr_mode input) "ephemeral" then
      refuse (none_or (unusable_secret 900000) (pr_jit_config input)) "Runner JIT configuration is invalid."
    else if String.eqb (pr_mode input) "persistent" then
      refuse (none_or (unusable_secret 2048) (pr_registration_token input)
              || none_or (λ url, negb (valid_registration_url url)) (pr_registration_url input)
              || (Z.of_nat (length (pr_labels input)) =? 0) || (100 <? Z.of_nat (length (pr_labels input)))
              || existsb (λ label, is_empty label || (100 <? byte_len label) || has_byte [44; 10; 13] label)
                   (pr_labels input)
              || some_and (λ group, is_empty group || (100 <? byte_len group) || has_newline group)
                   (pr_runner_group input))
        "Persistent runner registration is invalid."
    else Err (BadRequest "Runner mode must be ephemeral or persistent.")
  else if String.eqb (pr_platform input) "bitbucket" then
    if String.eqb (pr_mode input) "persistent" then
      refuse (negb (String.eqb (pr_provider input) "tart")
              || none_or (λ x, negb (valid_value (account_uuid x))
                               || some_and (λ value, negb (valid_value value)) (repository_uuid x)
                               || negb (valid_value (runner_uuid x)) || negb (valid_value (oauth_client_id x)))
                   (pr_bitbucket input)
              || none_or (unusable_secret 2048) (pr_bitbucket_oauth_client_secret input))
        "Bitbucket macOS runner registration is invalid."
    else Err (BadRequest "Bitbucket runners are persistent until their VM is drained.")
  else Err (BadRequest "Runner platform is invalid.").

Definition positive_limits (cpu : f64) (memory : Z) : bool :=
  is_finite cpu && SFltb f64_zero cpu && (0 <? memory).

Definition known_provider (provider : string) : bool := bool_decide (provider ∈ ["docker"; "tart"]).

Definition validate_runner (input : ProvisionRunner) : Result unit ManagerError :=
  let? _ := refuse (is_empty (pr_runner_id input) || is_empty (pr_pool_id input)
                    || is_empty (pr_capacity_lease input) || (128 <? byte_len (pr_capacity_lease input)))
              "Runner, pool, and capacity lease identifiers are required." in
  let? _ := refuse (negb (valid_docker_name (pr_name input))
                    || (String.eqb (pr_provider input) "docker" && negb (valid_docker_name (pr_network input))))
              "Runner or network name contains unsupported characters." in
  let native := String.eqb (pr_runtime input) "native" in
  let? _ := refuse ((negb native && is_empty (trim (pr_image input))) || (512 <? byte_len (pr_image input)))
              "Runner image is invalid." in
  let? _ := refuse (negb (bool_decide (pr_runtime input ∈ ["vm"; "native"])))
              "Runner runtime must be vm or native." in
  let? _ := refuse (native && negb (String.eqb (pr_provider input) "tart"))
              "Native execution is only available on the macOS agent." in
  let? _ := validate_registration input in
  let? _ := refuse (negb (known_provider (pr_provider input))) "Runner provider must be Docker or Tart." in
  let? _ := refuse (String.eqb (pr_provider input) "tart" && String.eqb (pr_platform input) "github"
                    && negb (String.eqb (pr_mode input) "ephemeral")) "Tart runner pools must be ephemeral." in
  refuse (negb (positive_limits (pr_cpu_limit input) (pr_memory_limit_mb input)))
    "Runner CPU and memory must be positive values.".

Definition validate_request (input : CapacityRequest) : Result unit ManagerError :=
  let? _ := refuse (is_empty (cq_runner_id input) || (128 <? byte_len (cq_runner_id input))
                    || is_empty (cq_pool_id input) || (128 <? byte_len (cq_pool_id input)))
              "Runner and pool identifiers are invalid." in
  let? _ := refuse (negb (positive_limits (cq_cpu_limit input) (cq_memory_limit_mb input)))
              "Runner CPU and memory must be positive values." in
  refuse (negb (known_provider (cq_provider input))) "Runner provider must be Docker or Tart.".

(** [char::is_whitespace] anywhere in the text. *)
Fixpoint any_space (l : list Ascii.ascii) : bool :=
  match l with
  | [] => false
  | _ :: rest => existsb (λ x, match strip_prefix x l with Some _ => true | None => false end) WHITE_SPACE
                 || any_space rest
  end.

Definition SANDBOX_MIN_CPU : f64 := f64_div (f64_of_Z 1) (f64_of_Z 4).
Definition SANDBOX_MAX_CPU : f64 := f64_of_Z 64.
Definition SANDBOX_MIN_MEMORY_MB : Z := 256.
Definition SANDBOX_MAX_MEMORY_MB : Z := 262144.

Definition validate_sandbox (input : CreateSandbox) : Result unit ManagerError :=
  let? _ := validate_sandbox_id (sb_sandbox_id input) in
  let image := sb_image input in
  let? _ := refuse (is_empty (trim image) || (512 <? byte_len image)
                    || any_space (String.list_ascii_of_string image) || has_control image)
              "Sandbox image is invalid." in
  let? _ := refuse (negb (is_finite (sb_cpu_limit input))
                    || negb (SFleb SANDBOX_MIN_CPU (sb_cpu_limit input)
                             && SFleb (sb_cpu_limit input) SANDBOX_MAX_CPU)
                    || negb ((SANDBOX_MIN_MEMORY_MB <=? sb_memory_limit_mb input)
                             && (sb_memory_limit_mb input <=? SANDBOX_MAX_MEMORY_MB)))
              "Sandbox CPU or memory is out of range." in
  let? _ := refuse (negb (valid_docker_name (sb_network input)))
              "Sandbox network name contains unsupported characters." in
  refuse (is_empty (sb_capacity_lease input) || (128 <? byte_len (sb_capacity_lease input)))
    "Sandbox capacity lease identifier is required.".

(** ** What a lease is for *)
Definition lease_claim (input : ProvisionRunner) : LeaseClaim :=
  {| lc_lease_id := pr_capacity_lease input; lc_runner_id := pr_runner_id input;
     lc_pool_id := pr_pool_id input; lc_provider := pr_provider input;
     lc_cpu_limit := pr_cpu_limit input; lc_memory_limit_mb := pr_memory_limit_mb input |}.

Definition SANDBOX_POOL_ID : string := "gridops-agent".

Definition sandbox_lease_claim (input : CreateSandbox) : LeaseClaim :=
  {| lc_lease_id := sb_capacity_lease input; lc_runner_id := sb_sandbox_id input;
     lc_pool_id := SANDBOX_POOL_ID; lc_provider := "docker"; lc_cpu_limit := sb_cpu_limit input;
     lc_memory_limit_mb := sb_memory_limit_mb input |}.

Definition claim_matches (claim : LeaseClaim) (reservation : CapacityReservation) : bool :=
  String.eqb (cr_runner_id reservation) (lc_runner_id claim)
  && String.eqb (cr_pool_id reservation) (lc_pool_id claim)
  && String.eqb (cr_provider reservation) (lc_provider claim)
  && SFleb (SFabs (f64_sub (cr_cpu_limit reservation) (lc_cpu_limit claim))) EPSILON
  && (cr_memory_limit_mb reservation =? lc_memory_limit_mb claim).

(** ** Capacity *)
Definition no_usage : CapacityUsage := {| active_runners := 0; cu_cpu := f64_zero; cu_memory_mb := 0 |}.

Definition docker_budget (limits : ManagerLimits) : CapacityBudget :=
  {| cb_cpu := cpu_budget limits; cb_memory_mb := memory_budget_mb limits;
     cb_max_runners := ml_max_runners limits |}.

(** [values] of a [HashMap], in some order. *)
Definition provider_reservations (reservations : gmap string CapacityReservation) (provider : string)
    : CapacityUsage :=
  fold_left (λ usage reservation,
      {| active_runners := active_runners usage + 1;
         cu_cpu := f64_add (cu_cpu usage) (cr_cpu_limit reservation);
         cu_memory_mb := i64_saturating_add (cu_memory_mb usage) (cr_memory_limit_mb reservation) |})
    (select (λ reservation, String.eqb (cr_provider reservation) provider)
       (snd <$> map_to_list reservations)) no_usage.

(** [retain(|_, reservation| reservation.expires_at > now)]. *)
Definition retain_live (now : Z) (reservations : gmap string CapacityReservation)
    : gmap string CapacityReservation :=
  filter (λ x, now < cr_expires_at x.2) reservations.

Definition usage_total (runners sandboxes : CapacityUsage) : CapacityUsage :=
  {| active_runners := usize_saturating_add (active_runners runners) (active_runners sandboxes);
     cu_cpu := f64_add (cu_cpu runners) (cu_cpu sandboxes);
     cu_memory_mb := i64_saturating_add (cu_memory_mb runners) (cu_memory_mb sandboxes) |}.

Definition NANO : f64 := f64_of_Z 1000000000.

Definition requested_by (body : ContainerCreateBody) : CapacityUsage :=
  {| active_runners := 1; cu_cpu := f64_div (f64_of_Z (default 0 (cc_nano_cpus body))) NANO;
     cu_memory_mb := default 0 (cc_memory body) ÷ 1024 ÷ 1024 |}.

Definition add_container (usage : CapacityUsage) (body : ContainerCreateBody) : CapacityUsage :=
  {| active_runners := active_runners usage + 1;
     cu_cpu := f64_add (cu_cpu usage) (cu_cpu (requested_by body));
     cu_memory_mb := i64_saturating_add (cu_memory_mb usage) (cu_memory_mb (requested_by body)) |}.

Definition disk_guardrail (disk : DiskCapacity) : Result unit ManagerError :=
  if available_mb disk <? minimum_free_mb disk then Err (Guardrail "host_disk_guardrail") else Ok tt.

Definition enforce_capacity (budget : CapacityBudget) (active reserved requested : CapacityUsage)
    (disk : option DiskCapacity) : Result unit ManagerError :=
  let? _ := match disk with Some disk => disk_guardrail disk | None => Ok tt end in
  let projected_runners := usize_saturating_add
    (usize_saturating_add (active_runners active) (active_runners reserved)) (active_runners requested) in
  if cb_max_runners budget <? projected_runners then Err (Guardrail "host_capacity_exhausted") else
  let projected_cpu := f64_add (f64_add (cu_cpu active) (cu_cpu reserved)) (cu_cpu requested) in
  if f64_gt projected_cpu (f64_add (cb_cpu budget) EPSILON) then Err (Guardrail "host_capacity_exhausted")
  else
  let projected_memory := i64_saturating_add
    (i64_saturating_add (cu_memory_mb active) (cu_memory_mb reserved)) (cu_memory_mb requested) in
  if cb_memory_mb budget <? projected_memory then Err (Guardrail "host_capacity_exhausted") else Ok tt.

(** ** The containers of runners and sandboxes *)
Definition memory_swap (memory_bytes percent : Z) : Z :=
  i64_saturating_add memory_bytes (i64_wrapping_mul memory_bytes percent ÷ 100).

Definition memory_bytes_of (memory_limit_mb : Z) : Z :=
  i64_wrapping_mul (i64_wrapping_mul memory_limit_mb 1024) 1024.

Definition runner_cap_drop : list string := ["ALL"].
Definition runner_cap_add : list string := ["CHOWN"; "DAC_OVERRIDE"; "FOWNER"; "SETUID"; "SETGID"].

Fixpoint join_labels (l : list string) : string :=
  match l with [] => "" | [a] => a | a :: l => a +:+ "," +:+ join_labels l end.

Section bodies.
(** The text of the start script of a mode ([instrumented_runner_script]). *)
Context (runner_script : string → string).

Definition runner_command (input : ProvisionRunner) : Result (list string * list string) ManagerError :=
  let cmd := ["/bin/bash"; "-lc"; runner_script (pr_mode input)] in
  if String.eqb (pr_mode input) "ephemeral" then Ok (cmd, [])
  else if String.eqb (pr_mode input) "persistent" then
    let? url := ok_or (BadRequest "Runner registration URL is required.") (pr_registration_url input) in
    Ok (cmd, ["GRIDOPS_REGISTRATION_URL=" +:+ url; "GRIDOPS_RUNNER_NAME=" +:+ pr_name input;
              "GRIDOPS_RUNNER_LABELS=" +:+ join_labels (pr_labels input);
              "GRIDOPS_RUNNER_GROUP=" +:+ default "" (pr_runner_group input)])
  else Err (BadRequest "Runner mode is invalid.").

(** [input.jit_config.take()] or [input.registration_token.take()]. *)
Definition take_bootstrap_secret (input : ProvisionRunner) : Result string ManagerError :=
  ok_or (BadRequest "Runner bootstrap credential is required.")
    (if String.eqb (pr_mode input) "ephemeral" then pr_jit_config input
     else if String.eqb (pr_mode input) "persistent" then pr_registration_token input else None).

Definition runner_container_body (limits : ManagerLimits) (input : ProvisionRunner)
    : Result ContainerCreateBody ManagerError :=
  let memory_bytes := memory_bytes_of (pr_memory_limit_mb input) in
  let? command := runner_command input in
  Ok {| cc_image := pr_image input; cc_entrypoint := [""]; cc_cmd := command.1; cc_user := None;
        cc_working_dir := None; cc_env := (command.2 ++ ["RUNNER_ALLOW_RUNASROOT=1"])%list;
        cc_labels := {[ "io.gridops.managed" := "true"; "io.gridops.runner-id" := pr_runner_id input;
                        "io.gridops.pool-id" := pr_pool_id input; "io.gridops.mode" := pr_mode input ]};
        cc_open_stdin := true; cc_network_mode := pr_network input;
        cc_nano_cpus := Some (f64_to_i64 (f64_mul (pr_cpu_limit input) NANO));
        cc_memory := Some memory_bytes;
        cc_memory_swap := Some (memory_swap memory_bytes (runner_swap_percent limits));
        cc_pids_limit := runner_pids_limit limits;
        cc_binds := (λ socket, [host_path socket +:+ ":/var/run/docker.sock"]) <$> shared_docker_socket limits;
        cc_group_add := (λ socket, [pretty (group_id socket)]) <$> shared_docker_socket limits;
        cc_cap_drop := runner_cap_drop; cc_cap_add := runner_cap_add;
        cc_security_opt := ["no-new-privileges:true"]; cc_log_max_size := log_max_size limits;
        cc_log_max_files := pretty (log_max_files limits) |}.

Definition sandbox_container_body (input : CreateSandbox) (limits : ManagerLimits) : ContainerCreateBody :=
  let memory_bytes := memory_bytes_of (sb_memory_limit_mb input) in
  {| cc_image := sb_image input; cc_entrypoint := ["/bin/sh"; "-c"];
     cc_cmd := ["mkdir -p /workspace && exec sleep infinity"]; cc_user := Some "0:0";
     cc_working_dir := Some "/workspace"; cc_env := []; cc_labels := sandbox_labels (sb_sandbox_id input);
     cc_open_stdin := false; cc_network_mode := sb_network input;
     cc_nano_cpus := Some (f64_to_i64 (f64_mul (sb_cpu_limit input) NANO));
     cc_memory := Some memory_bytes;
     cc_memory_swap := Some (memory_swap memory_bytes (runner_swap_percent limits));
     cc_pids_limit := runner_pids_limit limits; cc_binds := None; cc_group_add := None;
     cc_cap_drop := ["ALL"]; cc_cap_add := ["CHOWN"; "DAC_OVERRIDE"; "FOWNER"; "SETUID"; "SETGID"];
     cc_security_opt := ["no-new-privileges:true"]; cc_log_max_size := log_max_size limits;
     cc_log_max_files := pretty (log_max_files limits) |}.
End bodies.

(** ** Docker *)
(** [containers] is what the engine holds; operations may fail at any time. *)
Class Engine (E : Type) := {
  containers : E → gmap string Container;
  engine_list : E → string → Result (list (string * Container)) DockerError;
  engine_inspect : E → string → Result Container DockerError;
  engine_named : E → string → Result (list (string * Container)) DockerError;
  engine_create : E → string → ContainerCreateBody → E * Result string DockerError;
  engine_start : E → string → E * Result unit DockerError;
  engine_stop : E → string → E * Result unit DockerError;
  engine_pause : E → string → E * Result unit DockerError;
  engine_unpause : E → string → E * Result unit DockerError;
  engine_restart : E → string → E * Result unit DockerError;
  engine_remove : E → string → E * Result unit DockerError }.

Definition Reservations : Type := gmap string CapacityReservation.

(** What else the manager sees at the [n]th statement: the clock, fresh
    identifiers, [df], networks and images being ready, the Tart agent, writing
    to a container's input; and what happens before the statement. *)
Class Machine (E : Type) := {
  instant : nat → Z;
  fresh_id : nat → string;
  between : nat → E * Reservations → E * Reservations;
  df_output : nat → option string;
  network_ready : nat → string → Result unit ManagerError;
  image_ready : nat → string → bool → Result unit ManagerError;
  tart_configured : bool;
  tart_capacity : nat → Result (CapacityBudget * CapacityUsage) ManagerError;
  tart_provision : nat → ProvisionRunner → Result unit ManagerError;
  tart_request : nat → string → Result unit ManagerError;
  write_input : nat → string → string → Result unit ManagerError }.

Record Host (E : Type) := {
  docker : E; reservations : Reservations; provisioning_paused : bool; steps : nat }.
Arguments docker {E}. Arguments reservations {E}. Arguments provisioning_paused {E}. Arguments steps {E}.

Definition Serve (E A : Type) : Type := Host E → Result A ManagerError * Host E.

#[export] Instance Serve_ret E : MRet (Serve E) := λ A a h, (Ok a, h).
#[export] Instance Serve_bind E : MBind (Serve E) := λ A B k c h,
  match c h with
  | (Ok a, h) => k a h
  | (Err e, h) => (Err e, h)
  end.

Section handlers.
Context {E : Type} `{Engine E, Machine E}.
Context (runner_script : string → string) (limits : ManagerLimits).

Definition refuses {A} (e : ManagerError) : Serve E A := λ h, (Err e, h).
Definition check {A} (r : Result A ManagerError) : Serve E A := λ h, (r, h).
Definition tries {A} (c : Serve E A) : Serve E (Result A ManagerError) := λ h, let (r, h) := c h in (Ok r, h).

(** What others do before the next statement. *)
Definition passing (h : Host E) : Host E :=
  let '(e, r) := between (steps h) (docker h, reservations h) in
  {| docker := e; reservations := r; provisioning_paused := provisioning_paused h; steps := S (steps h) |}.

Definition answers {A} (f : nat → A) : Serve E A := λ h, let h := passing h in (Ok (f (steps h)), h).
Definition answers_of {A} (q : E → A) : Serve E A := λ h, let h := passing h in (Ok (q (docker h)), h).
Definition looks {A} (q : E → Result A DockerError) : Serve E A := λ h,
  let h := passing h in (map_err from_docker (q (docker h)), h).
Definition acts {A} (op : E → E * Result A DockerError) : Serve E A := λ h,
  let h := passing h in
  let '(e, r) := op (docker h) in
  (map_err from_docker r,
   {| docker := e; reservations := reservations h; provisioning_paused := provisioning_paused h;
      steps := steps h |}).
(** The mutex of the reservations is held over [f]. *)
Definition with_reservations {A} (f : Z → Reservations → Result A ManagerError * Reservations) : Serve E A :=
  λ h, let h := passing h in
       let '(r, m) := f (instant (steps h)) (reservations h) in
       (r, {| docker := docker h; reservations := m; provisioning_paused := provisioning_paused h;
              steps := steps h |}).

Definition ensure_provisioning_enabled : Serve E unit := λ h,
  if provisioning_paused h then (Err (Guardrail "provisioning_paused"), h) else (Ok tt, h).

Definition validate_capacity_lease (claim : LeaseClaim) : Serve E unit :=
  with_reservations (λ now m,
    let m := retain_live now m in
    match m !! lc_lease_id claim with
    | None => (Err (Guardrail "capacity_lease_invalid"), m)
    | Some reservation =>
        if claim_matches claim reservation then (Ok tt, m)
        else (Err (Forbidden "Runner capacity reservation does not match the provisioning request."), m)
    end).

Definition drop_lease (lease_id : string) : Serve E bool :=
  with_reservations (λ _ m, (Ok (bool_decide (is_Some (m !! lease_id))), delete lease_id m)).

(** *** Usage *)
Definition active_container_ids (label : string) : Serve E (list string) :=
  found ← looks (λ e, engine_list e label);
  mret (fst <$> select (λ x : string * Container, active_container_state (ct_state x.2)) found).

(** A container that was removed since it was listed holds no capacity. *)
Fixpoint containers_usage (usage : CapacityUsage) (ids : list string) : Serve E CapacityUsage :=
  match ids with
  | [] => mret usage
  | id :: ids =>
      found ← looks (λ e, match engine_inspect e id with
                          | Ok container => Ok (Some container)
                          | Err (ServerError 404 _) => Ok None
                          | Err error => Err error
                          end);
      containers_usage (match found with
                        | Some container => add_container usage (ct_body container)
                        | None => usage
                        end) ids
  end.

Definition docker_active_capacity : Serve E CapacityUsage :=
  runners ← active_container_ids "io.gridops.managed";
  sandboxes ← active_container_ids SANDBOX_LABEL;
  let sandboxes := select (λ id, negb (bool_decide (id ∈ runners))) sandboxes in
  runners ← containers_usage no_usage runners;
  sandboxes ← containers_usage no_usage sandboxes;
  mret (usage_total runners sandboxes).

Definition reserved_capacity (provider : string) : Serve E CapacityUsage :=
  with_reservations (λ now m, let m := retain_live now m in (Ok (provider_reservations m provider), m)).

Definition disk_capacity : Serve E DiskCapacity :=
  output ← answers df_output;
  check (ok_or Internal (text ← output;
                         '(total, available) ← parse_df_capacity text;
                         Some {| total_mb := total; available_mb := available;
                                 minimum_free_mb := free_disk_floor_mb (min_free_disk_mb limits)
                                                      (min_free_disk_percent limits) total |})).

Definition ensure_disk_capacity : Serve E unit := disk ← disk_capacity; check (disk_guardrail disk).

Definition tart_provider_disabled : ManagerError := UpstreamError 503 "tart_provider_disabled".

(** *** Leases *)
Definition LEASE_MILLIS : Z := 5 * 60 * 1000.

Definition admits (input : CapacityRequest) (budget : CapacityBudget) (active : CapacityUsage)
    (disk : option DiskCapacity) (lease_id : string) : Serve E string :=
  with_reservations (λ now m,
    let m := retain_live now m in
    let reserved := provider_reservations m (cq_provider input) in
    match enforce_capacity budget active reserved
            {| active_runners := 1; cu_cpu := cq_cpu_limit input;
               cu_memory_mb := cq_memory_limit_mb input |} disk with
    | Err e => (Err e, m)
    | Ok _ => (Ok lease_id,
               <[lease_id := {| cr_runner_id := cq_runner_id input; cr_pool_id := cq_pool_id input;
                                cr_provider := cq_provider input; cr_cpu_limit := cq_cpu_limit input;
                                cr_memory_limit_mb := cq_memory_limit_mb input;
                                cr_expires_at := now + LEASE_MILLIS |}]> m)
    end).

Definition reserve_capacity (input : CapacityRequest) : Serve E string :=
  _ ← check (validate_request input);
  _ ← ensure_provisioning_enabled;
  '(budget, active, disk) ←
    (if String.eqb (cq_provider input) "tart" then
       if negb tart_configured then refuses tart_provider_disabled else
       answer ← answers tart_capacity;
       '(budget, active) ← check answer;
       mret (budget, active, None)
     else
       active ← docker_active_capacity;
       disk ← disk_capacity;
       mret (docker_budget limits, active, Some disk));
  lease_id ← answers fresh_id;
  admits input budget active disk lease_id.

Definition release_capacity (lease_id : string) : Serve E bool := drop_lease lease_id.

(** *** Creating *)
(** [let _ = remove_container(..).await; return Err(error)]. *)
Definition removes_and_refuses {A} (id : string) (e : ManagerError) : Serve E A :=
  _ ← tries (acts (λ s, engine_remove s id)); refuses e.

Definition provision_runner_inner (input : ProvisionRunner) : Serve E Container :=
  secret ← check (take_bootstrap_secret input);
  ready ← answers (λ n, network_ready n (pr_network input));
  _ ← check ready;
  ready ← answers (λ n, image_ready n (pr_image input) (pr_pull_image input));
  _ ← check ready;
  _ ← ensure_disk_capacity;
  existing ← looks (λ e, engine_named e (pr_name input));
  if existsb (λ x : string * Container, String.eqb (ct_name x.2) (pr_name input)) existing
  then refuses (Conflict "A runner container with this name already exists.") else
  body ← check (runner_container_body runner_script limits input);
  id ← acts (λ e, engine_create e (pr_name input) body);
  started ← tries (acts (λ e, engine_start e id));
  match started with
  | Err error => removes_and_refuses id error
  | Ok _ =>
      written ← answers (λ n, write_input n id secret);
      match written with
      | Err error => removes_and_refuses id error
      | Ok _ => looks (λ e, engine_inspect e id)
      end
  end.

(** The container, or what the Tart agent answered. *)
Definition provision_runner (input : ProvisionRunner) : Serve E (option Container) :=
  _ ← check (validate_runner input);
  _ ← ensure_provisioning_enabled;
  if negb (String.eqb (pr_network input) (runner_network limits))
  then refuses (Forbidden "Runner containers may only join the configured GridOps runner network.") else
  _ ← validate_capacity_lease (lease_claim input);
  result ← tries (if String.eqb (pr_provider input) "tart" then
                    if negb tart_configured then refuses tart_provider_disabled else
                    answer ← answers (λ n, tart_provision n input);
                    _ ← check answer; mret None
                  else container ← provision_runner_inner input; mret (Some container));
  _ ← drop_lease (pr_capacity_lease input);
  check result.

Definition create_sandbox_inner (input : CreateSandbox) : Serve E Container :=
  ready ← answers (λ n, network_ready n (sb_network input));
  _ ← check ready;
  ready ← answers (λ n, image_ready n (sb_image input) (sb_pull_image input));
  _ ← check ready;
  _ ← ensure_disk_capacity;
  let name := sandbox_container_name (sb_sandbox_id input) in
  existing ← looks (λ e, match engine_inspect e name with
                         | Ok _ => Ok true
                         | Err (ServerError 404 _) => Ok false
                         | Err error => Err error
                         end);
  if existing : bool
  then refuses (Conflict "An agent sandbox with this identifier already exists.") else
  id ← acts (λ e, engine_create e name (sandbox_container_body input limits));
  started ← tries (acts (λ e, engine_start e id));
  match started with
  | Err error => removes_and_refuses id error
  | Ok _ => looks (λ e, engine_inspect e id)
  end.

Definition create_sandbox (input : CreateSandbox) : Serve E Container :=
  _ ← check (validate_sandbox input);
  _ ← ensure_provisioning_enabled;
  if negb (String.eqb (sb_network input) (runner_network limits))
  then refuses (Forbidden "Agent sandboxes may only join the configured GridOps runner network.") else
  _ ← validate_capacity_lease (sandbox_lease_claim input);
  result ← tries (create_sandbox_inner input);
  _ ← drop_lease (sb_capacity_lease input);
  check result.

(** *** Controlling *)
Definition managed_container_labels (id : string) : Serve E (gmap string string) :=
  container ← looks (λ e, engine_inspect e id);
  let labels := cc_labels (ct_body container) in
  if managed_labels labels then mret labels
  else refuses (Forbidden "GridOps can only control containers carrying its managed-runner label.").

Definition not_modified_is_fine (op : E → E * Result unit DockerError) (e : E) : E * Result unit DockerError :=
  match op e with
  | (e, Err (ServerError 304 _)) => (e, Ok tt)
  | answer => answer
  end.

(** A stopped container that starts needs capacity again. *)
Definition start_capacity (id : string) : Serve E unit :=
  details ← looks (λ e, engine_inspect e id);
  if active_container_state (ct_state details) then mret tt else
  active ← docker_active_capacity;
  reserved ← reserved_capacity "docker";
  disk ← disk_capacity;
  check (enforce_capacity (docker_budget limits) active reserved (requested_by (ct_body details)) (Some disk)).

Definition perform (id action : string) : Serve E string :=
  if String.eqb action "start" then
    _ ← acts (not_modified_is_fine (λ e, engine_start e id)); mret "running"
  else if String.eqb action "stop" then
    _ ← acts (not_modified_is_fine (λ e, engine_stop e id)); mret "stopped"
  else if String.eqb action "pause" then _ ← acts (λ e, engine_pause e id); mret "paused"
  else if String.eqb action "resume" then _ ← acts (λ e, engine_unpause e id); mret "running"
  else if String.eqb action "restart" then _ ← acts (λ e, engine_restart e id); mret "running"
  else refuses (BadRequest "Runner action must be start, stop, pause, resume, or restart.").

Definition control_runner (id action : string) : Serve E string :=
  if is_tart_id id then
    if negb tart_configured then refuses tart_provider_disabled else
    answer ← answers (λ n, tart_request n ("v1/runners/" +:+ id +:+ "/" +:+ action));
    _ ← check answer; mret action
  else
  _ ← check (validate_container_id id);
  labels ← managed_container_labels id;
  if bool_decide (action ∈ ["start"; "restart"]) && bool_decide (labels !! "io.gridops.mode" = Some "ephemeral")
  then refuses (Conflict "Ephemeral runners cannot be started or restarted; rebuild the runner instead.") else
  _ ← (if bool_decide (action ∈ ["start"; "resume"; "restart"]) then ensure_provisioning_enabled else mret tt);
  _ ← (if String.eqb action "start" then start_capacity id else mret tt);
  perform id action.

Definition delete_container (id : string) : Serve E unit :=
  if is_tart_id id then
    if negb tart_configured then refuses tart_provider_disabled else
    answer ← answers (λ n, tart_request n ("v1/runners/" +:+ id)); check answer
  else
  _ ← check (validate_container_id id);
  _ ← managed_container_labels id;
  acts (λ e, engine_remove e id).

Definition sandbox_docker_error (error : DockerError) : ManagerError :=
  match error with
  | ServerError 404 _ => NotFound "Agent sandbox was not found."
  | error => from_docker error
  end.

Definition find_sandbox (sandbox_id : string) : Serve E Container :=
  found ← answers_of (λ e, engine_inspect e (sandbox_container_name sandbox_id));
  details ← check (map_err sandbox_docker_error found);
  if negb (sandbox_labels_match (cc_labels (ct_body details)) sandbox_id)
  then refuses (Forbidden "GridOps can only control containers carrying its agent-sandbox labels.")
  else mret details.

Definition delete_sandbox (sandbox_id : string) : Serve E unit :=
  _ ← check (validate_sandbox_id sandbox_id);
  found ← tries (find_sandbox sandbox_id);
  match found with
  | Err (NotFound _) => mret tt
  | Err error => refuses error
  | Ok details =>
      let id := default (sandbox_container_name sandbox_id) (ct_id details) in
      acts (λ e, match engine_remove e id with
                 | (e, Err (ServerError 404 _)) => (e, Ok tt)
                 | answer => answer
                 end)
  end.

Definition update_policy (paused : bool) : Serve E unit := λ h,
  (Ok tt, {| docker := docker h; reservations := reservations h; provisioning_paused := paused;
             steps := steps h |}).

(** ** Requests *)
Inductive Request :=
| Reserve (input : CapacityRequest) | Release (lease_id : string)
| Provision (input : ProvisionRunner) | Sandbox (input : CreateSandbox)
| Control (id action : string) | Delete (id : string)
| DeleteSandbox (sandbox_id : string) | SetPolicy (paused : bool).

Definition serve (request : Request) : Serve E unit :=
  match request with
  | Reserve input => _ ← reserve_capacity input; mret tt
  | Release lease_id => _ ← release_capacity lease_id; mret tt
  | Provision input => _ ← provision_runner input; mret tt
  | Sandbox input => _ ← create_sandbox input; mret tt
  | Control id action => _ ← control_runner id action; mret tt
  | Delete id => delete_container id
  | DeleteSandbox sandbox_id => delete_sandbox sandbox_id
  | SetPolicy paused => update_policy paused
  end.

(** Requests are answered in the order in which they take [provision_lock]. *)
Fixpoint serve_all (requests : list Request) (h : Host E) : Host E :=
  match requests with
  | [] => h
  | request :: requests => serve_all requests (serve request h).2
  end.
End handlers.
