(* ===== verification/ManagerSpec.v ===== *)
(** * What the manager guarantees

    The runners, agent sandboxes and leases of the built-in host stay within
    its number of runners and its memory, whatever containers do on their own
    and however handlers fail, unless a stopped container is restarted. *)
From Stdlib Require Import SpecFloat.
From stdpp Require Import pretty.
From S2P Require Import Prelude Store Manager.
#[local] Open Scope string_scope.
#[local] Open Scope Z_scope.

(** ** Sums over maps *)
Section totals.
Context {V : Type}.
Implicit Types (f g : V → Z) (m : gmap string V).

Definition total f m : Z := map_fold (λ _ v acc, f v + acc) 0 m.

Lemma total_empty f : total f ∅ = 0.
Proof. apply map_fold_empty. Qed.

Lemma total_insert f m k v : m !! k = None → total f (<[k:=v]> m) = f v + total f m.
Proof. intros Hk. unfold total. apply (map_fold_insert_L (λ _ v acc, f v + acc)); [|done]. intros. lia. Qed.

Lemma total_delete f m k v : m !! k = Some v → total f m = f v + total f (delete k m).
Proof.
  intros Hk. rewrite <-(total_insert f (delete k m) k v) by apply lookup_delete_eq.
  by rewrite insert_delete_id.
Qed.

Lemma total_nonneg f m : (∀ k v, m !! k = Some v → 0 ≤ f v) → 0 ≤ total f m.
Proof.
  induction m as [|k v m Hk IH] using map_ind; intros Hf; [by rewrite total_empty|].
  rewrite total_insert by done. pose proof (Hf k v (lookup_insert_eq _ _ _)).
  enough (0 ≤ total f m) by lia. apply IH. intros k' v' Hk'. apply (Hf k').
  rewrite lookup_insert_ne; [done|]. congruence.
Qed.

(** A map whose entries weigh no more, or nothing, weighs no more. *)
Lemma total_mono f g m m' :
  (∀ k v, m !! k = Some v → 0 ≤ f v) →
  (∀ k v', m' !! k = Some v' → g v' ≤ 0 ∨ ∃ v, m !! k = Some v ∧ g v' ≤ f v) →
  total g m' ≤ total f m.
Proof.
  revert m. induction m' as [|k v' m' Hk IH] using map_ind; intros m Hf Hg.
  { rewrite total_empty. by apply total_nonneg. }
  rewrite total_insert by done. destruct (Hg k v' (lookup_insert_eq _ _ _)) as [H0|(v & Hv & Hle)].
  - enough (total g m' ≤ total f m) by lia. apply IH; [done|]. intros k2 v2 Hk2. apply Hg.
    rewrite lookup_insert_ne; [done|]. congruence.
  - rewrite (total_delete f m k v) by done. enough (total g m' ≤ total f (delete k m)) by lia.
    apply IH.
    + intros k2 v2 [_ Hk2]%lookup_delete_Some. by apply (Hf k2).
    + intros k2 v2 Hk2. assert (k ≠ k2) by congruence.
      destruct (Hg k2 v2) as [?|(v3 & Hv3 & ?)]; [by rewrite lookup_insert_ne|auto|].
      right. exists v3. by rewrite lookup_delete_ne.
Qed.

(** A map whose entries that weigh anything are among the keys. *)
Lemma total_keys f m ids :
  NoDup ids → (∀ k v, m !! k = Some v → f v ≤ 0 ∨ k ∈ ids) →
  total f m ≤ sum_rows (λ id, default 0 (f <$> m !! id)) ids.
Proof.
  intros Hnd. revert m. induction Hnd as [|id ids Hid Hnd IH]; intros m Hm; simpl.
  { rewrite <-(total_empty f). apply total_mono; [done|]. intros k v Hk.
    destruct (Hm k v Hk) as [?|?%elem_of_nil]; [by left|done]. }
  assert (sum_rows (λ i, default 0 (f <$> delete id m !! i)) ids =
          sum_rows (λ i, default 0 (f <$> m !! i)) ids) as Hsum.
  { clear -Hid. induction ids as [|i ids IH]; [done|]. simpl. apply not_elem_of_cons in Hid as [? ?].
    rewrite lookup_delete_ne by done. rewrite IH by done. done. }
  assert (total f (delete id m) ≤ sum_rows (λ i, default 0 (f <$> m !! i)) ids) as Hrest.
  { rewrite <-Hsum. apply IH. intros k v [Hne Hk]%lookup_delete_Some.
    destruct (Hm k v Hk) as [?|[->|?]%elem_of_cons]; [by left|done|by right]. }
  destruct (m !! id) as [v|] eqn:Hv; simpl.
  - rewrite (total_delete f m id v) by done. lia.
  - rewrite delete_id in Hrest by done. lia.
Qed.

(** The sum over the values, in the order of [map_to_list]. *)
Lemma total_list f m : total f m = sum_rows f (snd <$> map_to_list m).
Proof.
  induction m as [|k v m Hk IH] using map_ind; [by rewrite total_empty, map_to_list_empty|].
  rewrite total_insert, IH by done.
  assert (∀ l l', l ≡ₚ l' → sum_rows f l = sum_rows f l') as Hperm.
  { induction 1; simpl; lia. }
  rewrite (Hperm _ _ (fmap_Permutation snd _ _ (map_to_list_insert m k v Hk))). done.
Qed.

Lemma sum_select f (q : V → bool) l : sum_rows f (select q l) = sum_rows (λ v, if q v then f v else 0) l.
Proof. induction l as [|v l IH]; simpl; [done|]. case_match; simpl; lia. Qed.
End totals.

(** ** What Docker and the surroundings promise *)
(** Containers stop, or are removed; none starts or appears. *)
Definition settles `{Engine E} (e e' : E) : Prop :=
  ∀ id c', containers e' !! id = Some c' → ∃ c, containers e !! id = Some c ∧ ct_body c' = ct_body c
    ∧ (active_container_state (ct_state c') = true → active_container_state (ct_state c) = true).

(** One container changes its state. *)
Definition changes_only `{Engine E} (id : string) (e e' : E) : Prop :=
  (∀ i, i ≠ id → containers e' !! i = containers e !! i)
  ∧ ∀ c', containers e' !! id = Some c' → ∃ c, containers e !! id = Some c ∧ ct_body c' = ct_body c.

(** [denotes e text id]: the container a text names, by its identifier, the
    beginning of one, or its name. *)
Class EngineLaws (E : Type) `{Engine E} := {
  denotes : E → string → string → Prop;
  l_identifier e id c : containers e !! id = Some c → denotes e id id;
  l_denotes e e' text i j : settles e e' → denotes e text i → denotes e' text j → j = i;
  l_memory e id c : containers e !! id = Some c → 0 ≤ default 0 (cc_memory (ct_body c));
  l_list e label l : engine_list e label = Ok l →
    NoDup l.*1 ∧ ∀ id c, (id, c) ∈ l ↔ containers e !! id = Some c
                          ∧ cc_labels (ct_body c) !! label = Some "true";
  l_inspect e text c : engine_inspect e text = Ok c → ∃ id, denotes e text id ∧ containers e !! id = Some c;
  l_missing e text message : engine_inspect e text = Err (ServerError 404 message) →
    containers e !! text = None;
  l_create e name body e' r : engine_create e name body = (e', r) →
    match r with
    | Ok id => containers e !! id = None ∧ containers e' =
        <[id := {| ct_id := Some id; ct_name := name; ct_state := "created"; ct_body := body |}]> (containers e)
    | Err _ => containers e' = containers e
    end;
  l_start e text : settles e (engine_start e text).1
    ∨ ∃ id, denotes e text id ∧ changes_only id e (engine_start e text).1;
  l_stop e text : settles e (engine_stop e text).1;
  l_pause e text : settles e (engine_pause e text).1;
  l_unpause e text : settles e (engine_unpause e text).1;
  l_restart e text : settles e (engine_restart e text).1
    ∨ ∃ id, denotes e text id ∧ changes_only id e (engine_restart e text).1;
  l_remove e text : settles e (engine_remove e text).1 }.

(** Between statements containers may stop and be removed, and leases be
    released; the clock does not go back. *)
Class MachineLaws (E : Type) `{Engine E, Machine E} := {
  l_between n e m : settles e (between n (e, m)).1 ∧ (between n (e, m)).2 ⊆ m;
  l_instant n k : (n ≤ k)%nat → instant n ≤ instant k }.

(** ** Statements that only ease the host *)
Section easing.
Context {E : Type} `{EngineLaws E, !Machine E, !MachineLaws E}.

#[export] Instance settles_order : PreOrder (settles (E:=E)).
Proof.
  split; [intros e id c Hc; eauto|]. intros e1 e2 e3 H12 H23 id c3 H3.
  destruct (H23 id c3 H3) as (c2 & H2 & Hb & Ha). destruct (H12 id c2 H2) as (c1 & H1 & Hb' & Ha').
  exists c1. split_and!; [done|congruence|auto].
Qed.

Definition after_host (h h' : Host E) : Prop :=
  settles (docker h) (docker h') ∧ reservations h' ⊆ reservations h ∧ (steps h ≤ steps h')%nat.

#[export] Instance later_order : PreOrder after_host.
Proof.
  split; [done|]. intros h1 h2 h3 (? & ? & ?) (? & ? & ?). split_and!; [by etrans|by etrans|lia].
Qed.

Lemma passing_later h : after_host h (passing h).
Proof.
  unfold passing. destruct (l_between (steps h) (docker h) (reservations h)) as [He Hm].
  destruct (between _ _) as [e m]. split_and!; simpl in *; [done|done|lia].
Qed.

Definition eases {A} (c : Serve E A) : Prop := ∀ h, after_host h (c h).2.

Lemma eases_ret {A} (a : A) : eases (mret a).
Proof. by intros h. Qed.
Lemma eases_refuses {A} e : eases (refuses (A:=A) e).
Proof. by intros h. Qed.
Lemma eases_check {A} (r : Result A ManagerError) : eases (check r).
Proof. by intros h. Qed.
Lemma eases_answers {A} (f : nat → A) : eases (answers f).
Proof. intros h. apply passing_later. Qed.
Lemma eases_looks {A} (q : E → Result A DockerError) : eases (looks q).
Proof. intros h. apply passing_later. Qed.
Lemma eases_answers_of {A} (q : E → A) : eases (answers_of q).
Proof. intros h. apply passing_later. Qed.
Lemma eases_enabled : eases ensure_provisioning_enabled.
Proof. intros h. unfold ensure_provisioning_enabled. by case_match. Qed.

Lemma eases_acts {A} (op : E → E * Result A DockerError) : (∀ e, settles e (op e).1) → eases (acts op).
Proof.
  intros Hop h. etrans; [apply passing_later|]. unfold acts. specialize (Hop (docker (passing h))).
  destruct (op _) as [e r]. by split_and!.
Qed.

Lemma eases_with {A} (f : Z → Reservations → Result A ManagerError * Reservations) :
  (∀ now m, (f now m).2 ⊆ m) → eases (with_reservations f).
Proof.
  intros Hf h. etrans; [apply passing_later|]. unfold with_reservations.
  specialize (Hf (instant (steps (passing h))) (reservations (passing h))).
  destruct (f _ _) as [r m]. by split_and!.
Qed.

Lemma eases_bind {A B} (c : Serve E A) (k : A → Serve E B) :
  eases c → (∀ a, eases (k a)) → eases (c ≫= k).
Proof.
  intros Hc Hk h. specialize (Hc h). unfold mbind, Serve_bind.
  destruct (c h) as [[a|e] h1]; simpl in *; [|done]. etrans; [exact Hc|apply Hk].
Qed.

Lemma eases_tries {A} (c : Serve E A) : eases c → eases (tries c).
Proof. intros Hc h. specialize (Hc h). unfold tries. by destruct (c h). Qed.

Lemma retain_live_subset now m : retain_live now m ⊆ m.
Proof. apply map_filter_subseteq. Qed.

Lemma eases_validate claim : eases (validate_capacity_lease claim).
Proof. apply eases_with. intros now m. simpl. repeat case_match; apply retain_live_subset. Qed.
Lemma eases_drop lease : eases (drop_lease lease).
Proof. apply eases_with. intros now m. apply delete_subseteq. Qed.
Lemma eases_reserved provider : eases (reserved_capacity provider).
Proof. apply eases_with. intros now m. apply retain_live_subset. Qed.
Lemma eases_remove id : eases (acts (λ e, engine_remove e id)).
Proof. apply eases_acts. intros e. apply l_remove. Qed.
End easing.

Create HintDb ease.
#[export] Hint Resolve eases_ret eases_refuses eases_check eases_answers eases_answers_of eases_looks eases_enabled
  eases_validate eases_drop eases_reserved eases_remove : ease.

Ltac ease :=
  repeat match goal with
    | |- ∀ _, _ => intro
    | |- eases _ => solve [eauto with ease nocore]
    | |- eases (_ ≫= _) => apply eases_bind
    | |- eases (tries _) => apply eases_tries
    | |- _ => progress case_match
    end.

Section usage.
Context {E : Type} `{EngineLaws E, !Machine E, !MachineLaws E}.
Context (limits : ManagerLimits).

Lemma eases_disk : eases (disk_capacity limits).
Proof. unfold disk_capacity. ease. Qed.

Lemma eases_ids label : eases (active_container_ids label).
Proof. unfold active_container_ids. ease. Qed.

Lemma eases_usage usage ids : eases (containers_usage usage ids).
Proof. revert usage. induction ids as [|id ids IH]; intros usage; simpl; ease. Qed.

Lemma eases_capacity : eases docker_active_capacity.
Proof. unfold docker_active_capacity. pose proof eases_ids. pose proof eases_usage. ease. Qed.

(** The containers that hold a slot of the host. *)
Definition counted (c : Container) : bool :=
  active_container_state (ct_state c)
  && (bool_decide (cc_labels (ct_body c) !! "io.gridops.managed" = Some "true")
      || bool_decide (cc_labels (ct_body c) !! SANDBOX_LABEL = Some "true")).

Lemma listed_ids label h ids h' :
  active_container_ids label h = (Ok ids, h') →
  NoDup ids ∧ ∀ e id c, settles (docker h') e → containers e !! id = Some c →
    active_container_state (ct_state c) = true → cc_labels (ct_body c) !! label = Some "true" → id ∈ ids.
Proof.
  unfold active_container_ids, looks, mbind, Serve_bind. simpl.
  destruct (engine_list _ _) as [l|] eqn:El; simpl; [|done]. intros [= <- <-].
  apply l_list in El as [Hnd Hl]. split.
  - clear -Hnd. induction l as [|[id c] l IH]; simpl in *; [constructor|].
    apply NoDup_cons in Hnd as [Hid Hnd]. case_match; [|auto]. apply NoDup_cons. split; [|auto].
    intros (x & Hx & [Hin _]%elem_of_select)%list_elem_of_fmap. apply Hid, list_elem_of_fmap. eauto.
  - intros e id c He Hc Ha Hlabel. destruct (He id c Hc) as (c0 & Hc0 & Hb & Ha0).
    apply list_elem_of_fmap. exists (id, c0). split; [done|]. apply elem_of_select.
    split; [|by apply Ha0]. apply Hl. by rewrite <-Hb.
Qed.
End usage.

(** ** Two measures of the host's use *)
(** A quantity of containers, leases and counted usage.  Sums stop at [m_top]. *)
Class Measure := {
  m_top : Z; m_of_body : ContainerCreateBody → Z; m_of_lease : CapacityReservation → Z;
  m_of_usage : CapacityUsage → Z; m_of_budget : CapacityBudget → Z;
  m_top_nonneg : 0 ≤ m_top;
  m_none : m_of_usage no_usage = 0;
  m_body_nonneg body : 0 ≤ default 0 (cc_memory body) → 0 ≤ m_of_body body;
  m_requested body : m_of_usage (requested_by body) = m_of_body body;
  m_add usage body :
    Z.min m_top (m_of_usage usage + m_of_body body) ≤ m_of_usage (add_container usage body);
  m_total a b : Z.min m_top (m_of_usage a + m_of_usage b) ≤ m_of_usage (usage_total a b);
  m_leases l usage :
    (∀ r, r ∈ l → 0 ≤ m_of_lease r) →
    Z.min m_top (m_of_usage usage + sum_rows m_of_lease l) ≤ m_of_usage
      (fold_left (λ usage r,
         {| active_runners := active_runners usage + 1; cu_cpu := f64_add (cu_cpu usage) (cr_cpu_limit r);
            cu_memory_mb := i64_saturating_add (cu_memory_mb usage) (cr_memory_limit_mb r) |}) l usage);
  m_enforced budget active reserved requested disk :
    enforce_capacity budget active reserved requested disk = Ok tt → 0 ≤ m_of_usage requested →
    m_of_budget budget < m_top →
    m_of_usage active + m_of_usage reserved + m_of_usage requested ≤ m_of_budget budget }.

Lemma enforced_fits budget active reserved requested disk :
  enforce_capacity budget active reserved requested disk = Ok tt →
  usize_saturating_add (usize_saturating_add (active_runners active) (active_runners reserved))
    (active_runners requested) ≤ cb_max_runners budget
  ∧ i64_saturating_add (i64_saturating_add (cu_memory_mb active) (cu_memory_mb reserved))
      (cu_memory_mb requested) ≤ cb_memory_mb budget.
Proof.
  unfold enforce_capacity. destruct (match disk with Some _ => _ | None => _ end); [|done]. simpl.
  repeat case_match; try done. intros _. lia.
Qed.

#[export] Program Instance count_measure : Measure :=
  {| m_top := u64_max; m_of_body _ := 1; m_of_lease _ := 1; m_of_usage := active_runners;
     m_of_budget := cb_max_runners |}.
Solve Obligations with (intros; simpl; unfold usize_saturating_add, u64_max; lia).
Next Obligation.
  intros l usage _. revert usage. induction l as [|r l IH]; intros usage; simpl; [lia|].
  etrans; [|apply IH]. simpl. lia.
Qed.
Next Obligation.
  intros budget active reserved requested disk [Hc _]%enforced_fits. unfold usize_saturating_add in Hc.
  lia.
Qed.

#[export] Program Instance memory_measure : Measure :=
  {| m_top := i64_max; m_of_body body := cu_memory_mb (requested_by body);
     m_of_lease := cr_memory_limit_mb; m_of_usage := cu_memory_mb; m_of_budget := cb_memory_mb |}.
Solve Obligations with
  (intros; simpl; unfold i64_saturating_add, i64_clamp, i64_min, i64_max; lia).
Next Obligation. intros body Hb. simpl. do 2 (apply Z.quot_pos; [|lia]). done. Qed.
Next Obligation.
  intros l. induction l as [|r l IH]; intros usage Hl; simpl; [lia|].
  etrans; [|apply IH; intros r' Hr'; apply Hl; by right]. simpl.
  assert (0 ≤ sum_rows cr_memory_limit_mb l).
  { apply sum_rows_nonneg. intros r' Hr'. apply Hl. by right. }
  unfold i64_saturating_add, i64_clamp, i64_min, i64_max. lia.
Qed.
Next Obligation.
  intros budget active reserved requested disk [_ Hm]%enforced_fits.
  unfold i64_saturating_add, i64_clamp, i64_min in Hm. lia.
Qed.

Section measured.
Context {E : Type} `{EngineLaws E, !Machine E, !MachineLaws E} `{!Measure}.

(** What the containers of the host use, and what the live leases of the
    Docker host hold. *)
Definition weight (c : Container) : Z := if counted c then m_of_body (ct_body c) else 0.
Definition load (e : E) : Z := total weight (containers e).

Definition live (now : Z) (r : CapacityReservation) : bool :=
  String.eqb (cr_provider r) "docker" && (now <? cr_expires_at r).
Definition lease_weight (now : Z) (r : CapacityReservation) : Z := if live now r then m_of_lease r else 0.
Definition held (now : Z) (m : Reservations) : Z := total (lease_weight now) m.

Lemma body_nonneg e id c : containers e !! id = Some c → 0 ≤ m_of_body (ct_body c).
Proof. intros Hc. eapply m_body_nonneg, l_memory. exact Hc. Qed.

Lemma weight_nonneg e id c : containers e !! id = Some c → 0 ≤ weight c.
Proof. intros Hc. unfold weight. case_match; [by eapply body_nonneg|done]. Qed.

Lemma weight_body e id c : containers e !! id = Some c → weight c ≤ m_of_body (ct_body c).
Proof. intros Hc%body_nonneg. unfold weight. case_match; lia. Qed.

Lemma weight_settles c c' :
  0 ≤ m_of_body (ct_body c) → ct_body c' = ct_body c →
  (active_container_state (ct_state c') = true → active_container_state (ct_state c) = true) →
  weight c' ≤ weight c.
Proof.
  intros Hc Hb Ha. unfold weight, counted. rewrite Hb.
  destruct (active_container_state (ct_state c')); simpl; [rewrite Ha by done; done|]. case_match; lia.
Qed.

(** *** The usage that is counted covers what is there later *)
Definition weight_at (e : E) (id : string) : Z := default 0 (weight <$> containers e !! id).

Lemma weight_at_nonneg e id : 0 ≤ weight_at e id.
Proof. unfold weight_at. destruct (containers e !! id) eqn:Hc; simpl; [by eapply weight_nonneg|done]. Qed.

Lemma inspected_covers e0 e id :
  settles e0 e →
  match engine_inspect e0 id with
  | Ok c => weight_at e id ≤ m_of_body (ct_body c)
  | Err (ServerError 404 _) => weight_at e id = 0
  | Err _ => True
  end.
Proof.
  intros He. unfold weight_at. destruct (containers e !! id) as [c'|] eqn:Hc'; simpl.
  - destruct (He id c' Hc') as (c0 & Hc0 & Hb & _).
    destruct (engine_inspect e0 id) as [c|[s message| |]] eqn:Ei; [| |done|done].
    + apply l_inspect in Ei as (i & Hi & Hc). apply l_identifier in Hc0 as Hd.
      rewrite (l_denotes e0 e0 id id i ltac:(done) Hd Hi) in Hc.
      assert (c = c0) as -> by congruence. rewrite <-Hb. by eapply weight_body.
    + repeat case_match; try done. subst. apply l_missing in Ei. congruence.
  - destruct (engine_inspect e0 id) as [c|[s message| |]] eqn:Ei; [|by repeat case_match|done|done].
    apply l_inspect in Ei as (i & _ & Hc). by eapply body_nonneg.
Qed.

Lemma usage_covers ids usage h usage' h' :
  containers_usage usage ids h = (Ok usage', h') →
  ∀ e, settles (docker h') e →
    Z.min m_top (m_of_usage usage + sum_rows (weight_at e) ids) ≤ m_of_usage usage'.
Proof.
  revert usage h. induction ids as [|id ids IH]; intros usage h; simpl.
  { intros [= <- <-] e _. lia. }
  unfold looks, mbind, Serve_bind. intros Hrun e He.
  pose proof (inspected_covers (docker (passing h)) e id) as Hcover.
  pose proof (weight_at_nonneg e id) as Hid.
  assert (0 ≤ sum_rows (weight_at e) ids) as Hids by (apply sum_rows_nonneg; intros; apply weight_at_nonneg).
  assert (∀ u, containers_usage u ids (passing h) = (Ok usage', h') → settles (docker (passing h)) e) as Hlater.
  { intros u Hu. pose proof (eases_usage u ids (passing h)) as (Hs & _). rewrite Hu in Hs. by etrans. }
  destruct (engine_inspect _ id) as [c|[s message| |]]; [| |done|done].
  - simpl in Hrun. specialize (IH _ _ Hrun e He). specialize (Hcover (Hlater _ Hrun)).
    pose proof (m_add usage (ct_body c)). lia.
  - assert (s = 404) as ->.
    { simpl in Hrun. by repeat case_match. }
    simpl in Hrun. specialize (IH _ _ Hrun e He). rewrite (Hcover (Hlater _ Hrun)). lia.
Qed.

Lemma capacity_covers h usage h' :
  docker_active_capacity h = (Ok usage, h') → ∀ e, settles (docker h') e → Z.min m_top (load e) ≤ m_of_usage usage.
Proof.
  unfold docker_active_capacity, mbind, Serve_bind.
  destruct (active_container_ids _ h) as [[runners|] h1] eqn:E1; [|done].
  destruct (active_container_ids _ h1) as [[sandboxes|] h2] eqn:E2; [|done].
  destruct (containers_usage _ runners h2) as [[u1|] h3] eqn:E3; [|done].
  destruct (containers_usage _ _ h3) as [[u2|] h4] eqn:E4; [|done]. intros [= <- <-] e He.
  pose proof (eases_ids SANDBOX_LABEL h1) as (S2 & _). rewrite E2 in S2. simpl in S2.
  pose proof (eases_usage no_usage runners h2) as (S3 & _). rewrite E3 in S3. simpl in S3.
  pose proof (eases_usage no_usage (select (λ id, negb (bool_decide (id ∈ runners))) sandboxes) h3) as (S4 & _).
  rewrite E4 in S4. simpl in S4.
  destruct (listed_ids _ _ _ _ E1) as [N1 L1]. destruct (listed_ids _ _ _ _ E2) as [N2 L2].
  pose proof (usage_covers _ _ _ _ _ E3 e) as C3. pose proof (usage_covers _ _ _ _ _ E4 e) as C4.
  set (rest := select _ sandboxes) in *. rewrite m_none in *.
  assert (settles (docker h2) e) as T2 by (etrans; [|exact He]; etrans; [exact S3|exact S4]).
  assert (load e ≤ sum_rows (weight_at e) (runners ++ rest)) as Hload.
  { apply total_keys.
    - apply NoDup_app. split_and!; [done| |].
      + intros id Hr [_ Hn]%elem_of_select. by rewrite bool_decide_eq_true_2 in Hn.
      + clear -N2. unfold rest. induction N2 as [|id l Hid N2 IH]; simpl; [constructor|].
        case_match; [|done]. apply NoDup_cons. split; [|done]. by intros [? _]%elem_of_select.
    - intros id c Hc. unfold weight. destruct (counted c) eqn:Hcount; [|by left]. right.
      apply andb_true_iff in Hcount as [Ha Hl]. apply elem_of_app.
      destruct (decide (id ∈ runners)) as [?|Hr]; [by left|]. right. apply elem_of_select.
      rewrite bool_decide_eq_false_2 by done. split; [|done].
      apply orb_true_iff in Hl as [Hl%bool_decide_eq_true|Hl%bool_decide_eq_true].
      + destruct Hr. eapply L1; [|done..]. by etrans.
      + by eapply L2. }
  rewrite sum_rows_app in Hload. specialize (C3 (transitivity S4 He)). specialize (C4 He).
  assert (0 ≤ sum_rows (weight_at e) runners) by (apply sum_rows_nonneg; intros; apply weight_at_nonneg).
  assert (0 ≤ sum_rows (weight_at e) rest) by (apply sum_rows_nonneg; intros; apply weight_at_nonneg).
  pose proof (m_total u1 u2). pose proof m_top_nonneg. lia.
Qed.
End measured.

(** ** Room *)
Definition but {V} (key : option string) (m : gmap string V) : gmap string V :=
  match key with Some k => delete k m | None => m end.

Lemma but_Some {V} key (m : gmap string V) k v : but key m !! k = Some v ↔ m !! k = Some v ∧ key ≠ Some k.
Proof. destruct key as [i|]; simpl; [rewrite lookup_delete_Some|]; naive_solver. Qed.

Section room.
Context {E : Type} `{EngineLaws E, !Machine E, !MachineLaws E} `{!Measure}.
Implicit Types (h : Host E) (id lease : option string).

(** The containers but [id] and the leases but [lease] leave room for [w],
    which is enough for [id]. *)
Record room id (w : Z) lease (budget : Z) h : Prop := {
  room_sum : total weight (but id (containers (docker h))) + w
             + held (instant (steps h)) (but lease (reservations h)) ≤ budget;
  room_apart i c : id = Some i → containers (docker h) !! i = Some c → m_of_body (ct_body c) ≤ w;
  room_leases k r : reservations h !! k = Some r → 0 ≤ m_of_lease r;
  room_nonneg : 0 ≤ w }.

Lemma held_mono now now' m m' :
  (∀ k r, m !! k = Some r → 0 ≤ m_of_lease r) → m' ⊆ m → now ≤ now' → held now' m' ≤ held now m.
Proof.
  intros Hm Hsub Hnow. apply total_mono; unfold lease_weight.
  - intros k r Hr. case_match; [by eapply Hm|done].
  - intros k r Hr. pose proof (lookup_weaken _ _ _ _ Hr Hsub) as Hr'. pose proof (Hm k r Hr') as Hpos.
    right. exists r. split; [done|]. unfold live.
    destruct (String.eqb _ _), (Z.ltb_spec now' (cr_expires_at r)), (Z.ltb_spec now (cr_expires_at r));
      simpl; lia.
Qed.

Lemma but_mono {V} key (m m' : gmap string V) : m' ⊆ m → but key m' ⊆ but key m.
Proof. destruct key; simpl; [by apply delete_mono|done]. Qed.

Lemma held_but now lease m : (∀ k r, m !! k = Some r → 0 ≤ m_of_lease r) → 0 ≤ held now (but lease m).
Proof.
  intros Hm. apply total_nonneg. intros k r [Hr _]%but_Some. unfold lease_weight.
  case_match; [by eapply Hm|done].
Qed.

Lemma load_but id (e : E) : 0 ≤ total weight (but id (containers e)).
Proof. apply total_nonneg. intros k c [Hc _]%but_Some. by eapply weight_nonneg. Qed.

Lemma room_later id w lease budget h h' :
  after_host h h' → room id w lease budget h → room id w lease budget h'.
Proof.
  intros (He & Hm & Hn) [Hsum Hapart Hleases Hw]. split; [| |by eauto using lookup_weaken|done].
  - assert (held (instant (steps h')) (but lease (reservations h')) ≤
            held (instant (steps h)) (but lease (reservations h))).
    { apply held_mono; [|by apply but_mono|by apply l_instant]. intros k r [Hr _]%but_Some. by eapply Hleases. }
    enough (total weight (but id (containers (docker h'))) ≤ total weight (but id (containers (docker h)))) by lia.
    apply total_mono; [intros k c [Hc _]%but_Some; by eapply weight_nonneg|].
    intros k c' [Hc' Hne]%but_Some. destruct (He k c' Hc') as (c & Hc & Hb & Ha). right. exists c.
    split; [by apply but_Some|]. apply weight_settles; [by eapply body_nonneg|done..].
  - intros i c' -> Hc'. destruct (He i c' Hc') as (c & Hc & -> & _). by eapply Hapart.
Qed.

Lemma room_weaken w w' lease budget h :
  room None w lease budget h → 0 ≤ w' ≤ w → room None w' lease budget h.
Proof. intros [Hsum _ Hleases _] Hw. split; [lia|done|done|lia]. Qed.

Lemma room_join i w lease budget h : room (Some i) w lease budget h → room None 0 lease budget h.
Proof.
  intros [Hsum Hapart Hleases Hw]. split; [|done|done|done]. simpl in *.
  destruct (containers (docker h) !! i) as [c|] eqn:Hc.
  - rewrite (total_delete weight _ i c) by done. pose proof (Hapart i c eq_refl Hc).
    pose proof (weight_body _ _ _ Hc). lia.
  - rewrite delete_id in Hsum by done. lia.
Qed.

Lemma room_split i c lease budget h :
  containers (docker h) !! i = Some c → weight c = m_of_body (ct_body c) →
  room None 0 lease budget h → room (Some i) (m_of_body (ct_body c)) lease budget h.
Proof.
  intros Hc Hw [Hsum _ Hleases _]. simpl in *. rewrite (total_delete weight _ i c) in Hsum by done.
  split; [simpl; lia| |done|by eapply body_nonneg]. intros i' c' [= <-] Hc'. simpl in *.
  by replace c' with c by congruence.
Qed.

Lemma room_changes i w lease budget h h' :
  changes_only i (docker h) (docker h') → reservations h' = reservations h → steps h' = steps h →
  room (Some i) w lease budget h → room (Some i) w lease budget h'.
Proof.
  intros [Hother Hi] Hm Hn [Hsum Hapart Hleases Hw]. rewrite <-Hm, <-Hn in *. split; [| |done|done].
  - replace (but (Some i) (containers (docker h'))) with (but (Some i) (containers (docker h))); [done|].
    simpl. apply map_eq. intros k. destruct (decide (i = k)) as [->|].
    + by rewrite !lookup_delete_eq.
    + rewrite !lookup_delete_ne by done. by rewrite Hother.
  - intros i' c' [= <-] Hc'. destruct (Hi c' Hc') as (c & Hc & ->). by eapply Hapart.
Qed.

Lemma room_lease k r budget h :
  reservations h !! k = Some r → live (instant (steps h)) r = true →
  room None 0 None budget h → room None (m_of_lease r) (Some k) budget h.
Proof.
  intros Hr Hlive [Hsum _ Hleases _]. split; [|done|done|by eapply Hleases]. simpl in *.
  unfold held in *. rewrite (total_delete _ _ k r) in Hsum by done.
  unfold lease_weight in Hsum at 1. rewrite Hlive in Hsum. lia.
Qed.

Lemma room_create e' name body i lease budget h :
  engine_create (docker h) name body = (e', Ok i) →
  room None (m_of_body body) lease budget h →
  room (Some i) (m_of_body body) lease budget
    {| docker := e'; reservations := reservations h; provisioning_paused := provisioning_paused h;
       steps := steps h |}.
Proof.
  intros [Hi He]%l_create [Hsum _ Hleases Hw]. split; [| |done|done]; simpl in *; rewrite He.
  - by rewrite delete_insert_id.
  - intros i' c [= <-]. rewrite lookup_insert_eq. by intros [= <-].
Qed.

Lemma room_drop k budget h :
  room None 0 (Some k) budget h → room None 0 None budget (drop_lease k h).2.
Proof.
  intros [Hsum Ha Hleases Hw]%(room_later _ _ _ _ _ _ (passing_later h)). split; [done|done| |done].
  intros k' r Hr. cbn in Hr. apply lookup_delete_Some in Hr as [_ Hr]. by eapply Hleases.
Qed.
End room.

(** ** Handlers *)
Section handlers.
Context {E : Type} `{EngineLaws E, !Machine E, !MachineLaws E}.
Implicit Types (P Q : Host E → Prop).

(** From [P] to [R] when it succeeds and to [Q] when it fails. *)
Definition step {A} P (R : A → Host E → Prop) Q (c : Serve E A) : Prop :=
  ∀ h, P h → match c h with (Ok a, h') => R a h' | (Err _, h') => Q h' end.

Definition stable P : Prop := ∀ h h', after_host h h' → P h → P h'.

Lemma step_bind {A B} P (R : A → Host E → Prop) (S : B → Host E → Prop) Q (c : Serve E A) k :
  step P R Q c → (∀ a, step (R a) S Q (k a)) → step P S Q (c ≫= k).
Proof.
  intros Hc Hk h Hh. specialize (Hc h Hh). unfold mbind, Serve_bind.
  destruct (c h) as [[a|e] h1]; [|done]. exact (Hk a h1 Hc).
Qed.

Lemma step_eases {A} P Q (c : Serve E A) :
  eases c → stable P → (∀ h, P h → Q h) → step P (λ _, P) Q c.
Proof.
  intros Hc Hst Hq h Hh. specialize (Hst h _ (Hc h) Hh). destruct (c h) as [[a|e] h1]; [done|by apply Hq].
Qed.

Lemma step_tries {A} P Q (c : Serve E A) : step P (λ _, Q) Q c → ∀ Q', step P (λ _, Q) Q' (tries c).
Proof. intros Hc Q' h Hh. specialize (Hc h Hh). unfold tries. by destruct (c h) as [[a|e] h1]. Qed.

Lemma step_post {A} P (R R' : A → Host E → Prop) Q Q' (c : Serve E A) :
  step P R Q c → (∀ a h, R a h → R' a h) → (∀ h, Q h → Q' h) → step P R' Q' c.
Proof. intros Hc HR HQ h Hh. specialize (Hc h Hh). destruct (c h) as [[a|e] h1]; auto. Qed.

(** The container a text named in an earlier state. *)
Definition known (text id : string) (h : Host E) : Prop :=
  ∃ e, denotes e text id ∧ settles e (docker h).

Lemma known_stable text id : stable (known text id).
Proof. intros h h' (He & _) (e & Hd & Hs). exists e. split; [done|by etrans]. Qed.

Lemma known_denotes text id h i : known text id h → denotes (docker h) text i → i = id.
Proof. intros (e & Hd & Hs) Hi. by eapply l_denotes. Qed.

Lemma stable_and P Q : stable P → stable Q → stable (λ h, P h ∧ Q h).
Proof. intros HP HQ h h' Hl [? ?]. split; eauto. Qed.

Section measured.
Context `{!Measure} (budget : Z).

Lemma room_stable id w lease : stable (room id w lease budget).
Proof. intros h h' Hl. by apply room_later. Qed.

Lemma step_start text id w lease (op : E → E * Result unit DockerError) :
  (∀ e, settles e (op e).1 ∨ ∃ i, denotes e text i ∧ changes_only i e (op e).1) →
  step (λ h, room (Some id) w lease budget h ∧ known text id h)
    (λ _, room (Some id) w lease budget) (room (Some id) w lease budget) (acts op).
Proof.
  intros Hop h [Hr Hk]. apply (room_later _ _ _ _ _ _ (passing_later h)) in Hr.
  apply (known_stable _ _ _ _ (passing_later h)) in Hk. unfold acts.
  specialize (Hop (docker (passing h))). destruct (op _) as [e r] eqn:Eop. simpl in Hop.
  set (h' := {| docker := e; reservations := _; provisioning_paused := _; steps := _ |}).
  assert (room (Some id) w lease budget h') as Hroom.
  { destruct Hop as [Hs|(i & Hi & Hc)].
    - eapply room_later; [|exact Hr]. by split_and!.
    - rewrite (known_denotes _ _ _ _ Hk Hi) in Hc. by eapply room_changes. }
  by destruct r.
Qed.

Lemma step_create w lease name body :
  m_of_body body = w →
  step (room None w lease budget)
    (λ id h, room (Some id) w lease budget h ∧ known id id h) (room None 0 lease budget)
    (acts (λ e, engine_create e name body)).
Proof.
  intros <- h Hr%(room_later _ _ _ _ _ _ (passing_later h)). unfold acts.
  destruct (engine_create _ _ _) as [e [id|error]] eqn:Ec; simpl.
  - split; [by eapply room_create|]. exists e. split; [|done]. apply l_create in Ec as [_ Ec].
    eapply l_identifier. rewrite Ec. apply lookup_insert_eq.
  - apply l_create in Ec. eapply room_weaken; [|split; [done|by apply Hr]].
    eapply room_later; [|exact Hr]. split_and!; simpl; [|done|done].
    intros i c Hc. rewrite Ec in Hc. eauto.
Qed.

Lemma step_rest {A} id w lease (c : Serve E A) :
  eases c → step (room (Some id) w lease budget) (λ _, room None 0 lease budget) (room None 0 lease budget) c.
Proof.
  intros Hc. eapply step_post; [apply (step_eases _ (room (Some id) w lease budget));
    [exact Hc|apply room_stable|done]| |]; [intros a h|intros h]; apply room_join.
Qed.

Lemma step_before {A} w lease (c : Serve E A) :
  eases c → step (room None w lease budget) (λ _, room None w lease budget) (room None 0 lease budget) c.
Proof.
  intros Hc. apply step_eases; [done|apply room_stable|]. intros h Hr. eapply room_weaken; [exact Hr|].
  split; [done|apply Hr].
Qed.

Lemma step_none {A} w lease (c : Serve E A) :
  eases c → step (room None w lease budget) (λ _, room None 0 lease budget) (room None 0 lease budget) c.
Proof.
  intros Hc. eapply step_post; [by apply step_before| |done]. intros a h Hr. eapply room_weaken; [exact Hr|].
  split; [done|apply Hr].
Qed.

(** A container is created and started; what remains only eases the host. *)
Lemma step_launch {A} w lease name body (k : string → Result unit ManagerError → Serve E A) :
  m_of_body body = w → (∀ id r, eases (k id r)) →
  step (room None w lease budget) (λ _, room None 0 lease budget) (room None 0 lease budget)
    (id ← acts (λ e, engine_create e name body); started ← tries (acts (λ e, engine_start e id)); k id started).
Proof.
  intros Hw Hk. eapply step_bind; [by apply step_create|]. intros id. eapply step_bind.
  - apply step_tries. apply (step_start id id). intros e. apply l_start.
  - intros r. apply step_rest, Hk.
Qed.

Lemma step_runner script limits w lease input :
  (∀ body, runner_container_body script limits input = Ok body → m_of_body body = w) →
  step (room None w lease budget) (λ _, room None 0 lease budget) (room None 0 lease budget)
    (provision_runner_inner script limits input).
Proof.
  intros Hbody. pose proof (eases_disk limits). unfold provision_runner_inner, ensure_disk_capacity, removes_and_refuses.
  repeat match goal with
    | |- step _ _ _ (check (runner_container_body _ _ _) ≫= _) => fail 1
    | |- step _ _ _ (if _ then _ else _) => case_match; [apply step_none; by ease|]
    | |- step _ _ _ (_ ≫= _) => eapply step_bind; [apply step_before; by ease|]; intros ?
    end.
  destruct (runner_container_body _ _ _) as [body|e];
    [|intros h Hr; eapply room_weaken; [exact Hr|split; [done|apply Hr]]].
  intros h Hh. refine (step_launch w lease _ body _ _ _ h Hh); [by apply Hbody|]. ease.
Qed.

Lemma step_sandbox limits w lease input :
  m_of_body (sandbox_container_body input limits) = w →
  step (room None w lease budget) (λ _, room None 0 lease budget) (room None 0 lease budget)
    (create_sandbox_inner limits input).
Proof.
  intros Hbody. pose proof (eases_disk limits). unfold create_sandbox_inner, ensure_disk_capacity, removes_and_refuses.
  repeat match goal with
    | |- step _ _ _ (acts _ ≫= _) => fail 1
    | |- step _ _ _ (if _ then _ else _) => case_match; [apply step_none; by ease|]
    | |- step _ _ _ (_ ≫= _) => eapply step_bind; [apply step_before; by ease|]; intros ?
    end.
  apply step_launch; [done|]. ease.
Qed.

(** The leases that are counted cover the live ones. *)
Lemma leases_cover now (m : gmap string CapacityReservation) :
  (∀ k r, m !! k = Some r → 0 ≤ m_of_lease r) → (∀ k r, m !! k = Some r → now < cr_expires_at r) →
  Z.min m_top (held now m) ≤ m_of_usage (provider_reservations m "docker").
Proof.
  intros Hpos Hlive. unfold held. rewrite total_list. unfold provider_reservations.
  etrans; [|apply m_leases].
  - rewrite m_none, sum_select. apply Z.min_le_compat_l. apply Z.eq_le_incl. simpl. apply sum_rows_ext.
    intros r ([k r'] & -> & Hr)%list_elem_of_fmap. apply elem_of_map_to_list in Hr. simpl.
    unfold lease_weight, live. specialize (Hlive k r' Hr). by rewrite (proj2 (Z.ltb_lt _ _) Hlive), andb_true_r.
  - intros r [([k r'] & -> & Hr)%list_elem_of_fmap _]%elem_of_select.
    apply elem_of_map_to_list in Hr. by eapply Hpos.
Qed.

Lemma held_insert now k r (m : gmap string CapacityReservation) :
  (∀ k r, m !! k = Some r → 0 ≤ m_of_lease r) → 0 ≤ m_of_lease r →
  held now (<[k := r]> m) ≤ m_of_lease r + held now m.
Proof.
  intros Hm Hr. unfold held. rewrite <-(insert_delete_eq m k r), total_insert by apply lookup_delete_eq.
  assert (total (lease_weight now) (delete k m) ≤ total (lease_weight now) m).
  { apply held_mono; [done|apply delete_subseteq|done]. }
  unfold lease_weight at 1. case_match; lia.
Qed.

Lemma counted_room top load held active reserved requested limit :
  0 ≤ top → Z.min top load ≤ active → Z.min top held ≤ reserved → active + reserved + requested ≤ limit →
  limit < top → 0 ≤ load → 0 ≤ held → 0 ≤ requested → load + 0 + (requested + held) ≤ limit.
Proof. lia. Qed.

(** Containers the usage was counted from, in a later state. *)
Definition fits_active (active : CapacityUsage) (h : Host E) : Prop :=
  ∀ e, settles (docker h) e → Z.min m_top (load e) ≤ m_of_usage active.

Lemma covered_stable active : stable (fits_active active).
Proof. intros h h' (He & _) Hc e Hs. apply Hc. by etrans. Qed.

Lemma step_capacity lease :
  step (room None 0 lease budget) (λ active h, room None 0 lease budget h ∧ fits_active active h)
    (room None 0 lease budget) docker_active_capacity.
Proof.
  intros h Hr. pose proof (eases_capacity h) as Hl. pose proof (capacity_covers h) as Hc.
  destruct (docker_active_capacity h) as [[u|e] h']; simpl in Hl.
  - split; [by eapply room_later|]. exact (Hc u h' eq_refl).
  - by eapply room_later.
Qed.

Lemma step_admit limits input active disk lease_id :
  m_of_budget (docker_budget limits) = budget → budget < m_top → cq_provider input = "docker" →
  (∀ cpu r, cr_memory_limit_mb r = cq_memory_limit_mb input →
     m_of_usage {| active_runners := 1; cu_cpu := cpu; cu_memory_mb := cq_memory_limit_mb input |} = m_of_lease r
     ∧ 0 ≤ m_of_lease r) →
  step (λ h, room None 0 None budget h ∧ fits_active active h) (λ _, room None 0 None budget)
    (room None 0 None budget) (admits input (docker_budget limits) active (Some disk) lease_id).
Proof.
  intros Hb Htop Hp Hq h [Hr Hc]. apply (room_later _ _ _ _ _ _ (passing_later h)) in Hr.
  apply (covered_stable _ _ _ (passing_later h)) in Hc. unfold admits, with_reservations. rewrite Hp.
  set (h1 := passing h) in *. set (now := instant (steps h1)).
  set (m := retain_live now (reservations h1)). destruct Hr as [Hsum _ Hleases _]. simpl in Hsum.
  assert (∀ k r, m !! k = Some r → 0 ≤ m_of_lease r ∧ now < cr_expires_at r) as Hm.
  { intros k r [Hr Hlive]%map_lookup_filter_Some. split; [by eapply Hleases|done]. }
  assert (held now m ≤ held now (reservations h1)) as Hheld.
  { apply held_mono; [done|apply retain_live_subset|done]. }
  destruct (enforce_capacity _ _ _ _ _) as [[]|e] eqn:Ee; simpl.
  - pose (new := {| cr_runner_id := cq_runner_id input; cr_pool_id := cq_pool_id input;
      cr_provider := "docker"; cr_cpu_limit := cq_cpu_limit input;
      cr_memory_limit_mb := cq_memory_limit_mb input; cr_expires_at := now + LEASE_MILLIS |}).
    destruct (Hq (cq_cpu_limit input) new eq_refl) as [Hval Hpos].
    apply m_enforced in Ee; [|by rewrite Hval|by rewrite Hb]. rewrite Hval, Hb in Ee.
    pose proof (leases_cover now m ltac:(apply Hm) ltac:(apply Hm)) as Hcover.
    specialize (Hc (docker h1) ltac:(done)).
    pose proof (held_insert now lease_id new m ltac:(apply Hm) Hpos) as Hnew.
    pose proof (load_but None (docker h1)). pose proof (held_but now None m ltac:(apply Hm)).
    simpl in *. unfold load in *. split; [|done| |done]; simpl.
    + fold now m. fold new. etrans; [apply Zplus_le_compat_l; exact Hnew|].
      eapply counted_room; [apply m_top_nonneg|done..].
    + intros k r [[<- <-]|[_ Hr]]%lookup_insert_Some; [done|by eapply Hm].
  - split; [|done| |done]; [|intros k r Hr; by eapply Hm]. simpl.
    etrans; [apply Zplus_le_compat_l; exact Hheld|exact Hsum].
Qed.

Lemma step_admit_elsewhere input other active disk lease_id :
  cq_provider input ≠ "docker" →
  (∀ r, cr_memory_limit_mb r = cq_memory_limit_mb input → 0 ≤ m_of_lease r) →
  step (room None 0 None budget) (λ _, room None 0 None budget) (room None 0 None budget)
    (admits input other active disk lease_id).
Proof.
  intros Hp Hq h Hr%(room_later _ _ _ _ _ _ (passing_later h)). unfold admits, with_reservations.
  set (now := instant _). set (m := retain_live now _).
  assert (∀ k r, m !! k = Some r → 0 ≤ m_of_lease r) as Hm.
  { intros k r [Hr' _]%map_lookup_filter_Some. by eapply Hr. }
  assert (held now m ≤ held now (reservations (passing h))) as Hheld.
  { apply held_mono; [apply Hr|apply retain_live_subset|done]. }
  destruct Hr as [Hsum _ Hleases _]. destruct (enforce_capacity _ _ _ _ _) as [_|e]; simpl.
  - set (new := {| cr_runner_id := _ |}). split; [|done| |done]; simpl.
    + etrans; [|exact Hsum]. apply Zplus_le_compat_l. etrans; [|exact Hheld].
      rewrite <-(insert_delete_eq m lease_id new). unfold held. rewrite total_insert by apply lookup_delete_eq.
      unfold lease_weight at 1, live. change (cr_provider new) with (cq_provider input).
      rewrite (proj2 (String.eqb_neq _ _) Hp). simpl.
      apply held_mono; [done|apply delete_subseteq|done].
    + intros k r [[<- <-]|[_ Hr]]%lookup_insert_Some; [by apply Hq|by eapply Hm].
  - split; [|done|by eauto|done]. simpl. etrans; [apply Zplus_le_compat_l; exact Hheld|exact Hsum].
Qed.

Lemma validated_request input :
  validate_request input = Ok tt →
  0 < cq_memory_limit_mb input ∧ (cq_provider input = "docker" ∨ cq_provider input = "tart").
Proof.
  unfold validate_request, refuse, positive_limits, known_provider. repeat case_match; try done; simpl in *.
  intros _. rewrite negb_false_iff, ?andb_true_iff, ?bool_decide_eq_true in *. split; [lia|set_solver].
Qed.

Lemma step_reserve limits input :
  m_of_budget (docker_budget limits) = budget → budget < m_top →
  (∀ cpu r, 0 < cq_memory_limit_mb input → cr_memory_limit_mb r = cq_memory_limit_mb input →
     m_of_usage {| active_runners := 1; cu_cpu := cpu; cu_memory_mb := cq_memory_limit_mb input |} = m_of_lease r
     ∧ 0 ≤ m_of_lease r) →
  step (room None 0 None budget) (λ _, room None 0 None budget) (room None 0 None budget)
    (reserve_capacity limits input).
Proof.
  intros Hb Htop Hq. unfold reserve_capacity.
  destruct (validate_request input) as [[]|e] eqn:Ev; [|by apply step_none].
  apply validated_request in Ev as [Hmem Hp].
  do 2 (eapply step_bind; [apply step_before; by ease|]; intros ?).
  destruct Hp as [Hp|Hp]; rewrite Hp; simpl.
  - eapply (step_bind _ (λ x h, room None 0 None budget h ∧ fits_active x.1.2 h ∧ x.1.1 = docker_budget limits
                                 ∧ ∃ disk, x.2 = Some disk)).
    + eapply step_bind; [apply step_capacity|]. intros active. eapply step_bind.
      * apply (step_eases (λ h, room None 0 None budget h ∧ fits_active active h)); [apply eases_disk| |by intros h [? _]].
        apply stable_and; [apply room_stable|apply covered_stable].
      * intros disk h [Hr Hc]. simpl. eauto.
    + intros [[b active] disk]. simpl. intros h (Hr & Hc & -> & disk' & ->).
      revert h Hr Hc. intros h Hr Hc. refine (step_bind (λ h, room None 0 None budget h ∧ fits_active active h)
        (λ _ h, room None 0 None budget h ∧ fits_active active h) _ _ _ _ _ _ h (conj Hr Hc)).
      * apply step_eases; [apply eases_answers| |by intros ? [? _]].
        apply stable_and; [apply room_stable|apply covered_stable].
      * intros lease. apply step_admit; [done|done|done|]. intros cpu r. by apply Hq.
  - eapply step_bind; [apply step_before; ease|]. intros [[b active] disk].
    eapply step_bind; [apply step_before; by ease|]. intros lease.
    apply step_admit_elsewhere; [by rewrite Hp|]. intros r Hr. by apply (Hq (cq_cpu_limit input) r Hmem Hr).
Qed.

(** *** Starting a stopped container *)
Definition lease_covered (reserved : CapacityUsage) (h : Host E) : Prop :=
  Z.min m_top (held (instant (steps h)) (reservations h)) ≤ m_of_usage reserved.

(** The room for a container that the check before a start found, or that the
    container already takes. *)
Definition may_start (text : string) (h : Host E) : Prop :=
  ∃ id w, room (Some id) w None budget h ∧ known text id h.

Lemma counted_stable active reserved :
  stable (λ h, room None 0 None budget h ∧ fits_active active h ∧ lease_covered reserved h).
Proof.
  intros h h' Hl (Hr & Hc & Hl'). split_and!; [by eapply room_later|by eapply covered_stable|].
  unfold lease_covered in *. destruct Hl as (_ & Hm & Hn).
  pose proof (held_mono (instant (steps h)) (instant (steps h')) _ _ (room_leases _ _ _ _ _ Hr) Hm
    (l_instant _ _ Hn)). lia.
Qed.

Lemma step_reserved active :
  step (λ h, room None 0 None budget h ∧ fits_active active h)
    (λ reserved h, room None 0 None budget h ∧ fits_active active h ∧ lease_covered reserved h)
    (room None 0 None budget) (reserved_capacity "docker").
Proof.
  intros h [Hr Hc]. pose proof (eases_reserved "docker" h) as Hl.
  assert (∀ k r, reservations (passing h) !! k = Some r → 0 ≤ m_of_lease r) as Hpos.
  { apply (room_later _ _ _ _ _ _ (passing_later h) Hr). }
  split_and!; [by eapply room_later|by eapply covered_stable|]. unfold lease_covered. simpl.
  apply leases_cover; intros k r [Hk Hlive]%map_lookup_filter_Some; [by eapply Hpos|done].
Qed.

Lemma room_enforced limits id c active reserved disk h :
  m_of_budget (docker_budget limits) = budget → budget < m_top →
  enforce_capacity (docker_budget limits) active reserved (requested_by (ct_body c)) (Some disk) = Ok tt →
  room None 0 None budget h → fits_active active h → lease_covered reserved h →
  0 ≤ m_of_body (ct_body c) →
  (∀ c', containers (docker h) !! id = Some c' → ct_body c' = ct_body c) →
  room (Some id) (m_of_body (ct_body c)) None budget h.
Proof.
  intros Hb Htop He [Hsum _ Hleases _] Hc Hl Hpos Hid. apply m_enforced in He; [| |by rewrite Hb].
  2:{ by rewrite m_requested. }
  rewrite m_requested, Hb in He. specialize (Hc (docker h) ltac:(done)).
  pose proof (load_but None (docker h)) as H1'. pose proof (held_but (instant (steps h)) None _ Hleases) as H2'.
  pose proof (counted_room _ _ _ _ _ _ _ m_top_nonneg Hc Hl He Htop H1' H2' Hpos) as Hroom.
  split; [|intros i c' [= <-] Hc'; by rewrite (Hid c' Hc')|done|done]. simpl in *. etrans; [|exact Hroom].
  assert (total weight (delete id (containers (docker h))) ≤ load (docker h)); [|lia].
  apply total_mono; [intros k c' Hc'; by eapply weight_nonneg|].
  intros k c' [_ Hc']%lookup_delete_Some. right. by exists c'.
Qed.

(** The container a text names carries the label of managed runners. *)
Definition managed_at (text : string) (h : Host E) : Prop :=
  ∃ id, known text id h ∧ ∀ c, containers (docker h) !! id = Some c →
    cc_labels (ct_body c) !! "io.gridops.managed" = Some "true".

Lemma managed_stable text : stable (managed_at text).
Proof.
  intros h h' Hl (id & Hk & Hm). exists id. split; [by eapply known_stable|]. intros c Hc.
  destruct Hl as (He & _). destruct (He id c Hc) as (c0 & Hc0 & -> & _). by apply Hm.
Qed.

Lemma step_labels text P :
  stable P → step P (λ _ h, P h ∧ managed_at text h) P (managed_container_labels text).
Proof.
  intros Hst h Hh. apply (Hst _ _ (passing_later h)) in Hh.
  unfold managed_container_labels, looks, mbind, Serve_bind.
  destruct (engine_inspect _ text) as [c|] eqn:Ei; simpl; [|done].
  destruct (managed_labels _) eqn:El; [|done]. split; [done|].
  apply l_inspect in Ei as (id & Hd & Hc). exists id. split; [by exists (docker (passing h))|].
  intros c' Hc'. assert (c' = c) as -> by congruence. unfold managed_labels in El.
  rewrite !andb_true_iff in El. by destruct El as [[?%bool_decide_eq_true _] _].
Qed.

Lemma step_start_capacity limits text :
  m_of_budget (docker_budget limits) = budget → budget < m_top →
  step (λ h, room None 0 None budget h ∧ managed_at text h) (λ _, may_start text) (room None 0 None budget)
    (start_capacity limits text).
Proof.
  intros Hb Htop h [Hr Hm]. apply (room_later _ _ _ _ _ _ (passing_later h)) in Hr.
  apply (managed_stable _ _ _ (passing_later h)) in Hm. unfold start_capacity.
  match goal with |- context [(looks ?q ≫= ?k) h] => set (rest := k); unfold looks, mbind at 1, Serve_bind at 1 end.
  destruct (engine_inspect _ text) as [c|] eqn:Ei; simpl; [|done]. unfold rest. clear rest.
  apply l_inspect in Ei as (id & Hd & Hc). set (h1 := passing h) in *.
  assert (known text id h1) as Hknown by by exists (docker h1).
  destruct (active_container_state (ct_state c)) eqn:Ha.
  - simpl. exists id, (m_of_body (ct_body c)). split; [|done]. apply room_split; [done| |done].
    destruct Hm as (id' & Hk & Hlabel). rewrite <-(known_denotes _ _ _ _ Hk Hd) in Hlabel.
    unfold weight, counted. by rewrite Ha, (bool_decide_eq_true_2 _ (Hlabel c Hc)).
  - pose proof (body_nonneg _ _ _ Hc) as Hpos.
    assert (stable (λ h, known text id h ∧ ∀ c', containers (docker h) !! id = Some c' → ct_body c' = ct_body c)) as Hst.
    { intros h2 h3 Hl [Hk Hbody]. split; [by eapply known_stable|]. intros c' Hc'. destruct Hl as (He & _).
      destruct (He id c' Hc') as (c0 & Hc0 & -> & _). by apply Hbody. }
    assert (known text id h1 ∧ ∀ c', containers (docker h1) !! id = Some c' → ct_body c' = ct_body c) as Hbody.
    { split; [done|]. intros c' Hc'. by replace c' with c by congruence. }
    set (run := _ ≫= _). enough (step (room None 0 None budget) (λ _ h, ∃ reserved active disk,
      room None 0 None budget h ∧ fits_active active h ∧ lease_covered reserved h ∧
      enforce_capacity (docker_budget limits) active reserved (requested_by (ct_body c)) (Some disk) = Ok tt)
      (room None 0 None budget) run) as Hrun.
    + pose proof (Hrun h1 Hr) as Hres. assert (eases run) as Hease.
      { unfold run. pose proof eases_capacity. pose proof (eases_disk limits). ease. }
      apply (Hst _ _ (Hease h1)) in Hbody. destruct (run h1) as [[u|e] h2]; [|done]. simpl in *.
      destruct Hres as (reserved & active & disk & Hr2 & Hc2 & Hl2 & He). destruct Hbody as [Hk2 Hb2].
      exists id, (m_of_body (ct_body c)). split; [|done]. by eapply room_enforced.
    + unfold run. eapply step_bind; [apply step_capacity|]. intros active.
      eapply step_bind; [apply step_reserved|]. intros reserved. eapply step_bind.
      * apply (step_eases (λ h, room None 0 None budget h ∧ fits_active active h ∧ lease_covered reserved h));
          [apply eases_disk|apply counted_stable|by intros ? [? _]].
      * intros disk h2 (Hr2 & Hc2 & Hl2). unfold check.
        destruct (enforce_capacity _ _ _ _ _) as [[]|e] eqn:Ee; [|done]. eauto 10.
Qed.

Lemma not_modified_state (op : E → E * Result unit DockerError) e : (not_modified_is_fine op e).1 = (op e).1.
Proof. unfold not_modified_is_fine. destruct (op e) as [e' [|[s m| |]]]; try done. by repeat case_match. Qed.

Lemma eases_perform id action : action ≠ "start" → action ≠ "restart" → eases (perform id action).
Proof.
  intros Hs Hr. unfold perform. rewrite (proj2 (String.eqb_neq _ _) Hs), (proj2 (String.eqb_neq _ _) Hr).
  ease; apply eases_acts; intros e; rewrite ?not_modified_state; [apply l_stop|apply l_pause|apply l_unpause].
Qed.

Lemma step_control limits text action :
  m_of_budget (docker_budget limits) = budget → budget < m_top → action ≠ "restart" →
  step (room None 0 None budget) (λ _, room None 0 None budget) (room None 0 None budget)
    (control_runner limits text action).
Proof.
  intros Hb Htop Hre. unfold control_runner. case_match; [apply step_none; by ease|].
  eapply step_bind; [apply step_before; by ease|]. intros ?.
  eapply step_bind; [apply step_labels, room_stable|]. intros labels.
  assert (stable (λ h, room None 0 None budget h ∧ managed_at text h)) as Hst
    by (apply stable_and; [apply room_stable|apply managed_stable]).
  case_match; [by intros h [? _]|].
  eapply step_bind; [apply (step_eases (λ h, room None 0 None budget h ∧ managed_at text h));
    [by ease|done|by intros h [? _]]|]. intros ?.
  destruct (String.eqb_spec action "start") as [->|Hs].
  - eapply step_bind; [by apply step_start_capacity|]. intros ?. unfold perform. simpl.
    eapply (step_bind _ (λ _, room None 0 None budget)); [|intros ?; by apply step_none].
    intros h (id & w & Hroom & Hk).
    pose proof (step_start text id w None (not_modified_is_fine (λ e, engine_start e text))) as Hstart.
    assert (∀ e, settles e (not_modified_is_fine (λ e, engine_start e text) e).1
      ∨ ∃ i, denotes e text i ∧ changes_only i e (not_modified_is_fine (λ e, engine_start e text) e).1) as Hop.
    { intros e. rewrite not_modified_state. apply l_start. }
    specialize (Hstart Hop h (conj Hroom Hk)). destruct (acts _ h) as [[u|e] h']; by eapply room_join.
  - eapply step_bind; [apply (step_eases (λ h, room None 0 None budget h ∧ managed_at text h));
      [by ease|done|by intros h [? _]]|]. intros ? h [Hr _]. revert h Hr.
    apply step_none, eases_perform; done.
Qed.

Lemma eases_delete id : eases (delete_container id).
Proof. unfold delete_container, managed_container_labels. ease. Qed.

Lemma eases_delete_sandbox id : eases (delete_sandbox id).
Proof.
  unfold delete_sandbox, find_sandbox. ease. apply eases_acts. intros e.
  match goal with |- context [engine_remove e ?i] => pose proof (l_remove e i) end.
  by repeat case_match; simplify_eq/=.
Qed.
End measured.

(** *** The Docker host *)
(** The host's number of runners and memory, in the range of the settings. *)
Definition sane (limits : ManagerLimits) : Prop :=
  ml_max_runners limits < u64_max ∧ memory_budget_mb limits < 2 ^ 43.

Lemma environment_sane env socket cpus bytes limits :
  in_i64 bytes → from_environment env socket cpus bytes = Some limits → sane limits.
Proof.
  intros Hb. unfold from_environment. rewrite !bind_Some. intros (_ & _ & H1).
  repeat setoid_rewrite bind_Some in H1. destruct H1 as ([] & Hm & [] & Hr & H1).
  repeat (destruct H1 as ([] & _ & H1)). injection H1 as <-. unfold ensure in *. simpl in *.
  repeat case_match; try done. unfold sane, within_range, in_i64, i64_min, i64_max, u64_max in *. simpl.
  pose proof (Z.quot_le_mono bytes (2 ^ 63 - 1) 1024) as Hq.
  pose proof (Z.quot_le_mono (bytes ÷ 1024) ((2 ^ 63 - 1) ÷ 1024) 1024) as Hq'.
  change ((2 ^ 63 - 1) ÷ 1024 ÷ 1024) with (2 ^ 43 - 1) in Hq'. lia.
Qed.

Context (script : string → string) (limits : ManagerLimits) (Hsane : sane limits).

Definition both (slots memory : Z) (lease : option string) (h : Host E) : Prop :=
  room (H1:=count_measure) None slots lease (ml_max_runners limits) h
  ∧ room (H1:=memory_measure) None memory lease (memory_budget_mb limits) h.

(** The containers and the live leases stay within the budget. *)
Definition fits : Host E → Prop := both 0 0 None.

Lemma step_and {A} P P' (R R' : A → Host E → Prop) Q Q' (c : Serve E A) :
  step P R Q c → step P' R' Q' c → step (λ h, P h ∧ P' h) (λ a h, R a h ∧ R' a h) (λ h, Q h ∧ Q' h) c.
Proof. intros H1 H2 h [? ?]. specialize (H1 h). specialize (H2 h). destruct (c h) as [[a|e] h']; auto. Qed.

Lemma both_stable slots memory lease : stable (both slots memory lease).
Proof. apply stable_and; apply room_stable. Qed.

Lemma memory_bytes_mb mb : 0 ≤ mb < 2 ^ 43 → memory_bytes_of mb ÷ 1024 ÷ 1024 = mb.
Proof.
  intros Hmb. unfold memory_bytes_of, i64_wrapping_mul.
  rewrite (Z.mod_small (mb * 1024 + 2 ^ 63)) by lia.
  replace (mb * 1024 + 2 ^ 63 - 2 ^ 63) with (mb * 1024) by lia.
  rewrite (Z.mod_small (mb * 1024 * 1024 + 2 ^ 63)) by lia.
  replace (mb * 1024 * 1024 + 2 ^ 63 - 2 ^ 63) with (mb * 1024 * 1024) by lia.
  by rewrite !Z.quot_mul by lia.
Qed.

(** A lease that is accepted is room for what it was reserved for. *)
Lemma step_validated claim :
  lc_provider claim = "docker" →
  step fits
    (λ _ h, both 1 (lc_memory_limit_mb claim) (Some (lc_lease_id claim)) h
            ∧ 0 ≤ lc_memory_limit_mb claim < 2 ^ 43)
    fits (validate_capacity_lease claim).
Proof.
  intros Hp h Hf. pose proof (both_stable _ _ _ _ _ (eases_validate claim h) Hf) as Hf'.
  unfold validate_capacity_lease, with_reservations in *.
  set (now := instant (steps (passing h))) in *. set (m := retain_live now _) in *.
  destruct (m !! lc_lease_id claim) as [r|] eqn:Hr; [|done]. destruct (claim_matches claim r) eqn:Hc; [|done].
  simpl in *. unfold claim_matches in Hc. rewrite !andb_true_iff in Hc.
  destruct Hc as [[[[_ _] Hprov%String.eqb_eq] _] Hmem%Z.eqb_eq]. rewrite <-Hmem.
  assert (live now r = true) as Hlive.
  { unfold live. rewrite Hprov, Hp. simpl. apply map_lookup_filter_Some in Hr as [_ Hr]. simpl in Hr. lia. }
  destruct Hf' as [H1 H2]. set (h' := {| docker := _; reservations := m |}) in *.
  pose proof (room_lease (H1:=count_measure) (lc_lease_id claim) r _ h' Hr Hlive H1) as R1.
  pose proof (room_lease (H1:=memory_measure) (lc_lease_id claim) r _ h' Hr Hlive H2) as R2.
  split; [by split|].
  pose proof (load_but (H1:=memory_measure) None (docker (passing h))).
  pose proof (held_but (H1:=memory_measure) now (Some (lc_lease_id claim)) m (room_leases _ _ _ _ _ R2)).
  destruct R2 as [Hsum _ _ Hpos]. simpl in *. fold now in Hsum. destruct Hsane. unfold load in *. lia.
Qed.

Definition keeps {A} (c : Serve E A) : Prop := step fits (λ _, fits) fits c.

Lemma keeps_eases {A} (c : Serve E A) : eases c → keeps c.
Proof. intros Hc. apply step_eases; [done|apply both_stable|done]. Qed.

(** What follows the check of a lease, and its end. *)
Lemma keeps_leased {A} claim (c : Serve E A) :
  lc_provider claim = "docker" →
  (0 ≤ lc_memory_limit_mb claim < 2 ^ 43 →
   step (both 1 (lc_memory_limit_mb claim) (Some (lc_lease_id claim)))
     (λ _, both 0 0 (Some (lc_lease_id claim))) (both 0 0 (Some (lc_lease_id claim))) c) →
  keeps (_ ← validate_capacity_lease claim; result ← tries c; _ ← drop_lease (lc_lease_id claim); check result).
Proof.
  intros Hp Hc. eapply step_bind; [by apply step_validated|]. intros u h [Hb Hmb]. simpl in Hb, Hmb.
  revert h Hb. eapply step_bind; [by apply step_tries, Hc|]. intros r.
  eapply (step_bind _ (λ _, fits)); [|intros ?; apply keeps_eases; by ease].
  intros h [H1 H2]. by split; apply room_drop.
Qed.

Lemma keeps_fit_bind {A B} (c : Serve E A) (k : A → Serve E B) :
  keeps c → (∀ a, keeps (k a)) → keeps (c ≫= k).
Proof. intros Hc Hk. by eapply step_bind. Qed.

Lemma body_memory input body :
  runner_container_body script limits input = Ok body →
  cu_memory_mb (requested_by body) = memory_bytes_of (pr_memory_limit_mb input) ÷ 1024 ÷ 1024.
Proof. unfold runner_container_body. destruct (runner_command _ _); [|done]. by intros [= <-]. Qed.

Lemma refuse_bind {A} b message (k : unit → Result A ManagerError) a :
  result_bind (refuse b message) k = Ok a → b = false ∧ k tt = Ok a.
Proof. unfold refuse. by destruct b. Qed.

Lemma provider_known input :
  validate_runner input = Ok tt → pr_provider input = "docker" ∨ pr_provider input = "tart".
Proof.
  unfold validate_runner. intros Hv. do 5 apply refuse_bind in Hv as [_ Hv].
  destruct (validate_registration input); [|done]. simpl in Hv. apply refuse_bind in Hv as [Hp _].
  apply negb_false_iff, bool_decide_eq_true in Hp. set_solver.
Qed.

Lemma keeps_fit_provision input : keeps (provision_runner script limits input).
Proof.
  unfold provision_runner. destruct (validate_runner input) as [[]|e] eqn:Ev; [|by apply keeps_eases].
  do 2 (apply keeps_fit_bind; [apply keeps_eases; by ease|]; intros ?).
  case_match; [apply keeps_eases; by ease|]. apply provider_known in Ev as [Hp|Hp]; rewrite Hp; simpl.
  - apply (keeps_leased (lease_claim input)); [done|]. simpl. intros Hmb.
    assert (∀ lease, step (both 1 (pr_memory_limit_mb input) lease) (λ _, both 0 0 lease) (both 0 0 lease)
              (provision_runner_inner script limits input)) as Hinner.
    { intros lease. apply step_and; apply step_runner; [done|].
      intros body Hbody. etrans; [exact (body_memory input body Hbody)|]. by apply memory_bytes_mb. }
    eapply step_bind; [apply Hinner|]. intros c. by intros h Hh.
  - apply keeps_eases. ease.
Qed.

Lemma keeps_sandbox input : keeps (create_sandbox limits input).
Proof.
  unfold create_sandbox. do 2 (apply keeps_fit_bind; [apply keeps_eases; by ease|]; intros ?).
  case_match; [apply keeps_eases; by ease|]. apply (keeps_leased (sandbox_lease_claim input)); [done|].
  simpl. intros Hmb. apply step_and; apply step_sandbox; [done|]. simpl. by apply memory_bytes_mb.
Qed.

Lemma keeps_both {A} (c : Serve E A) :
  (∀ (M : Measure) budget, m_of_budget (docker_budget limits) = budget → budget < m_top →
     (∀ cpu mb r, 0 < mb → cr_memory_limit_mb r = mb →
        m_of_usage {| active_runners := 1; cu_cpu := cpu; cu_memory_mb := mb |} = m_of_lease r
        ∧ 0 ≤ m_of_lease r) →
     step (room None 0 None budget) (λ _, room None 0 None budget) (room None 0 None budget) c) →
  keeps c.
Proof.
  intros Hc. destruct Hsane as [Hcount Hmem]. apply step_and; apply Hc; try done.
  - simpl. unfold i64_max. lia.
  - intros cpu mb r Hmb <-. simpl. lia.
Qed.

Lemma keeps_serve request :
  (∀ id, request ≠ Control id "restart") → keeps (serve script limits request).
Proof.
  intros Hre. assert (∀ A (c : Serve E A), keeps c → keeps (_ ← c; mret tt)) as Hdrop.
  { intros A c Hc. apply keeps_fit_bind; [done|]. intros a. apply keeps_eases. by ease. }
  destruct request as [input|lease|input|input|id action|id|id|paused]; simpl.
  - apply Hdrop, keeps_both. intros M budget Hb Ht Hq. apply step_reserve; [done..|]. intros. by apply Hq.
  - apply Hdrop, keeps_eases, eases_drop.
  - apply Hdrop, keeps_fit_provision.
  - apply Hdrop, keeps_sandbox.
  - apply Hdrop, keeps_both. intros M budget Hb Ht _. apply step_control; [done..|].
    intros ->. by apply (Hre id).
  - apply keeps_eases, eases_delete.
  - apply keeps_eases, eases_delete_sandbox.
  - intros h [H1 H2]. split; [destruct H1|destruct H2]; by split.
Qed.

Lemma serve_all_fits requests h :
  (∀ id, Control id "restart" ∉ requests) → fits h → fits (serve_all script limits requests h).
Proof.
  revert h. induction requests as [|request requests IH]; intros h Hre Hh; [done|]. simpl. apply IH.
  - intros id Hin. apply (Hre id). by right.
  - pose proof (keeps_serve request) as Hk. assert (∀ id, request ≠ Control id "restart") as Hne.
    { intros id ->. apply (Hre id). left. }
    specialize (Hk Hne h Hh). destruct (serve script limits request h) as [[u|e] h']; exact Hk.
Qed.
End handlers.

(** ** The host stays within its budget *)
Section budget.
Context {E : Type} `{EngineLaws E, !Machine E, !MachineLaws E}.
Context (script : string → string) (limits : ManagerLimits).

(** C10: the built-in host is never over-committed.  From a host whose
    containers and live leases fit, after any sequence of reservations,
    releases, new runners and sandboxes, starts, stops, pauses, deletions and
    changes of policy, the active runners and sandboxes together with the live
    leases are within the number of runners and the memory of the host:
    whatever Docker refuses, whatever containers stop or disappear and leases
    are released or expire while a handler runs.  Restarts are not among them. *)
Theorem host_never_overcommitted requests h :
  sane limits → (∀ id, Control id "restart" ∉ requests) → fits limits h →
  let h' := serve_all script limits requests h in
  fits limits h'
  ∧ count_rows counted (snd <$> map_to_list (containers (docker h'))) ≤ ml_max_runners limits.
Proof.
  intros Hsane Hre Hh h'. assert (fits limits h') as Hf by by apply serve_all_fits. split; [done|].
  destruct Hf as [[Hsum _ Hleases _] _]. simpl in Hsum.
  pose proof (held_but (H1:=count_measure) (instant (steps h')) None _ Hleases) as Hheld. simpl in Hheld.
  rewrite total_list in Hsum. etrans; [|etrans; [|exact Hsum]].
  - assert (∀ l, count_rows counted l = sum_rows (weight (H1:=count_measure)) l) as ->; [|done].
    intros l. induction l as [|c l IH]; [done|]. rewrite count_rows_cons. simpl. unfold weight at 1. simpl.
    by rewrite IH.
  - lia.
Qed.
End budget.

(** ** A lease is used once *)
Section once.
Context {E : Type} `{EngineLaws E, !Machine E, !MachineLaws E}.
Context (script : string → string) (limits : ManagerLimits).

Lemma drop_absent lease h : reservations (drop_lease lease h).2 !! lease = None.
Proof. cbn. apply lookup_delete_eq. Qed.

Lemma validate_absent claim h :
  reservations h !! lc_lease_id claim = None → ∃ e, (validate_capacity_lease claim h).1 = Err e.
Proof.
  intros Hnone. destruct (passing_later h) as (_ & Hm & _). unfold validate_capacity_lease, with_reservations.
  destruct (retain_live _ _ !! lc_lease_id claim) as [r|] eqn:Hr; [|by eexists].
  apply map_lookup_filter_Some in Hr as [Hr _]. pose proof (lookup_weaken _ _ _ _ Hr Hm) as Hr'.
  change (reservations h !! lc_lease_id claim = Some r) in Hr'. by rewrite Hnone in Hr'.
Qed.

(** A run that checked the lease had it, and drops it. *)
Lemma leased_once {A} claim (c : Serve E A) h a :
  let run := _ ← validate_capacity_lease claim;
             result ← tries c; _ ← drop_lease (lc_lease_id claim); check result in
  (run h).1 = Ok a →
  reservations h !! lc_lease_id claim ≠ None ∧ reservations (run h).2 !! lc_lease_id claim = None.
Proof.
  intros run Hok. assert (reservations h !! lc_lease_id claim ≠ None) as Hsome.
  { intros Hnone. destruct (validate_absent claim h Hnone) as [e He]. unfold run, mbind, Serve_bind in Hok.
    destruct (validate_capacity_lease claim h) as [r h']. simpl in He. by subst r. }
  split; [done|]. unfold run, tries, mbind, Serve_bind in *.
  destruct (validate_capacity_lease claim h) as [[[]|e] h1]; [|done]. destruct (c h1) as [r h2]. apply drop_absent.
Qed.

Lemma check_bind {A B} (a : A) (k : A → Serve E B) h : (check (Ok a) ≫= k) h = k a h.
Proof. done. Qed.

Lemma enabled_bind {B} (k : unit → Serve E B) h :
  (ensure_provisioning_enabled ≫= k) h =
  if provisioning_paused h then (Err (Guardrail "provisioning_paused"), h) else k tt h.
Proof. unfold ensure_provisioning_enabled, mbind, Serve_bind. by destruct (provisioning_paused h). Qed.

Lemma provisioned_had input h c :
  (provision_runner script limits input h).1 = Ok c →
  reservations h !! pr_capacity_lease input ≠ None
  ∧ reservations (provision_runner script limits input h).2 !! pr_capacity_lease input = None.
Proof.
  unfold provision_runner. destruct (validate_runner input) as [[]|e]; [|done].
  rewrite check_bind, enabled_bind. destruct (provisioning_paused h); [done|].
  destruct (negb (String.eqb (pr_network input) _)); [done|]. apply (leased_once (lease_claim input)).
Qed.

(** *** A lease that is gone stays gone *)
Section spent.
Context (lease : string) (base : nat).

Definition spent (h : Host E) : Prop := reservations h !! lease = None ∧ (base ≤ steps h)%nat.
Definition stays_spent {A} (c : Serve E A) : Prop := ∀ h, spent h → spent (c h).2.

Lemma spent_later h h' : after_host h h' → spent h → spent h'.
Proof.
  intros (_ & Hm & Hs) [Hnone Hb]. split; [|lia].
  destruct (reservations h' !! lease) as [r|] eqn:Hr; [|done]. pose proof (lookup_weaken _ _ _ _ Hr Hm) as Hr'.
  by replace (reservations h !! lease) with (Some r) in Hnone.
Qed.

Lemma spent_eases {A} (c : Serve E A) : eases c → stays_spent c.
Proof. intros Hc h. by apply spent_later. Qed.

Lemma spent_acts {A} (op : E → E * Result A DockerError) : stays_spent (acts op).
Proof.
  intros h Hh. apply (spent_later _ (passing h)) in Hh; [|apply passing_later]. unfold acts. by destruct (op _).
Qed.

Lemma spent_bind {A B} (c : Serve E A) (k : A → Serve E B) :
  stays_spent c → (∀ a, stays_spent (k a)) → stays_spent (c ≫= k).
Proof.
  intros Hc Hk h Hh. specialize (Hc h Hh). unfold mbind, Serve_bind.
  destruct (c h) as [[a|e] h1]; simpl in *; [by apply Hk|done].
Qed.

Lemma spent_tries {A} (c : Serve E A) : stays_spent c → stays_spent (tries c).
Proof. intros Hc h Hh. specialize (Hc h Hh). unfold tries. by destruct (c h). Qed.

Lemma spent_policy paused : stays_spent (update_policy paused).
Proof. by intros h Hh. Qed.

#[local] Hint Resolve spent_acts spent_policy : ease.
#[local] Hint Extern 3 (stays_spent _) => apply spent_eases; solve [eauto with ease nocore] : ease.

Ltac stay :=
  repeat match goal with
    | |- ∀ _, _ => intro
    | |- stays_spent _ => solve [eauto with ease nocore]
    | |- stays_spent (_ ≫= _) => apply spent_bind
    | |- stays_spent (tries _) => apply spent_tries
    | |- _ => progress case_match
    end.

Lemma spent_inner input : stays_spent (provision_runner_inner script limits input).
Proof. unfold provision_runner_inner, removes_and_refuses, ensure_disk_capacity, disk_capacity. stay. Qed.

Lemma spent_sandbox input : stays_spent (create_sandbox_inner limits input).
Proof. unfold create_sandbox_inner, removes_and_refuses, ensure_disk_capacity, disk_capacity. stay. Qed.

Lemma spent_admit input budget active disk id : id ≠ lease → stays_spent (admits input budget active disk id).
Proof.
  intros Hid h Hh. apply (spent_later _ (passing h)) in Hh as [Hnone Hb]; [|apply passing_later].
  unfold admits, with_reservations.
  set (m := retain_live (instant (steps (passing h))) (reservations (passing h))).
  assert (m !! lease = None) as Hm.
  { destruct (m !! lease) as [r|] eqn:Hr; [|done]. apply map_lookup_filter_Some in Hr as [Hr _].
    change (reservations (passing h) !! lease = Some r) in Hr. congruence. }
  destruct (enforce_capacity _ _ _ _ _) as [|e]; (split; [|done]); simpl; [|exact Hm].
  etrans; [by apply (lookup_insert_ne (M:=gmap string))|exact Hm].
Qed.

(** Identifiers are not granted twice. *)
Hypothesis fresh : ∀ n, (base ≤ n)%nat → fresh_id n ≠ lease.

Lemma spent_reserve input : stays_spent (reserve_capacity limits input).
Proof.
  unfold reserve_capacity. pose proof (eases_capacity (E:=E)) as Hcap. pose proof (eases_disk (E:=E) limits) as Hdisk.
  apply spent_bind; [by stay|intros _]. apply spent_bind; [by stay|intros _].
  apply spent_bind; [by repeat (stay; try by apply spent_eases)|]. intros [[budget active] disk].
  intros h Hh. apply (spent_later _ (passing h)) in Hh; [|apply passing_later].
  apply spent_admit; [|done]. apply fresh, Hh.
Qed.

Lemma spent_serve request : stays_spent (serve script limits request).
Proof.
  pose proof spent_inner as Hinner. pose proof spent_sandbox as Hsandbox. pose proof spent_reserve as Hreserve.
  destruct request; simpl; try (apply spent_bind; [|by stay]).
  - apply Hreserve.
  - by stay.
  - unfold provision_runner. stay; apply Hinner.
  - unfold create_sandbox. stay; apply Hsandbox.
  - unfold control_runner, managed_container_labels, start_capacity, perform.
    pose proof (eases_capacity (E:=E)). pose proof (eases_disk (E:=E) limits).
    repeat (stay; try by apply spent_eases).
  - apply spent_eases, eases_delete.
  - apply spent_eases, eases_delete_sandbox.
  - apply spent_policy.
Qed.

Lemma spent_all requests h : spent h → spent (serve_all script limits requests h).
Proof. revert h. induction requests as [|r requests IH]; intros h Hh; [done|]. by apply IH, spent_serve. Qed.
End spent.

(** C11: a lease is used once.  After a runner was made with it, whatever the
    manager is asked for in between, no runner is made with it again; the
    identifiers of new leases are not given out twice. *)
Theorem lease_is_used_once input input' requests h c :
  (provision_runner script limits input h).1 = Ok c →
  pr_capacity_lease input' = pr_capacity_lease input →
  let h' := (provision_runner script limits input h).2 in
  (∀ n, (steps h' ≤ n)%nat → fresh_id n ≠ pr_capacity_lease input) →
  ∀ c', (provision_runner script limits input' (serve_all script limits requests h')).1 ≠ Ok c'.
Proof.
  intros Hok Heq h' Hfresh c' Hok'. apply provisioned_had in Hok as [_ Hnone].
  apply provisioned_had in Hok' as [Hsome _]. rewrite Heq in Hsome.
  destruct (spent_all _ _ Hfresh requests h') as [Hgone _]; done.
Qed.
End once.

(** ** A table of containers as the engine *)
Module Table.
Definition healthy (x : string * Container) : Prop := 0 ≤ default 0 (cc_memory (ct_body x.2)).
Definition table (e : gmap string Container) : gmap string Container := filter healthy e.

Definition not_found : DockerError := ServerError 404 "no such container".
Definition answer {A} (o : option A) : Result A DockerError := ok_or not_found o.

Definition move_state (e : gmap string Container) (id : string) (from : string → bool) (state : string)
    : gmap string Container * Result unit DockerError :=
  match table e !! id with
  | None => (table e, Err not_found)
  | Some c => if from (ct_state c)
              then (<[id := {| ct_id := ct_id c; ct_name := ct_name c; ct_state := state; ct_body := ct_body c |}]> (table e), Ok tt)
              else (table e, Err (ServerError 409 "conflict"))
  end.

(** Identifiers of growing length; a taken one, or a negative limit, is refused. *)
Fixpoint letters (n : nat) : string :=
  match n with O => "" | S n => String.String (Ascii.ascii_of_nat 97) (letters n) end.

Definition create (e : gmap string Container) (name : string) (body : ContainerCreateBody)
    : gmap string Container * Result string DockerError :=
  let id := letters (12 + size (table e)) in
  match table e !! id with
  | Some _ => (table e, Err (ServerError 409 "conflict"))
  | None => if 0 <=? default 0 (cc_memory body)
            then (<[id := {| ct_id := Some id; ct_name := name; ct_state := "created"; ct_body := body |}]> (table e), Ok id)
            else (table e, Err OtherError)
  end.

#[export] Instance engine : Engine (gmap string Container) :=
  {| containers := table;
     engine_list e label := Ok (select (λ x : string * Container,
       bool_decide (cc_labels (ct_body x.2) !! label = Some "true")) (map_to_list (table e)));
     engine_inspect e id := answer (table e !! id);
     engine_named e name := Ok (select (λ x : string * Container, String.eqb (ct_name x.2) name)
                                  (map_to_list (table e)));
     engine_create := create;
     engine_start e id := move_state e id (λ _, true) "running";
     engine_stop e id := move_state e id (λ _, true) "exited";
     engine_pause e id := move_state e id (String.eqb "running") "paused";
     engine_unpause e id := move_state e id (String.eqb "paused") "running";
     engine_restart e id := move_state e id (λ _, true) "running";
     engine_remove e id := (delete id (table e), Ok tt) |}.

Lemma table_idem e : table (table e) = table e.
Proof. apply map_filter_id. intros i c [_ Hc]%map_lookup_filter_Some. done. Qed.

Lemma table_insert e id c c' :
  table e !! id = Some c → ct_body c' = ct_body c → table (<[id := c']> (table e)) = <[id := c']> (table e).
Proof.
  intros [_ Hc]%map_lookup_filter_Some Hb. apply map_filter_id. intros i x [[<- <-]|[_ Hx]]%lookup_insert_Some.
  - unfold healthy. simpl. by rewrite Hb.
  - by apply map_lookup_filter_Some in Hx as [_ ?].
Qed.

(** The table is unchanged, or the container's state is. *)
Lemma set_state_cases e id from state :
  table (move_state e id from state).1 = table e
  ∨ ∃ c, table e !! id = Some c ∧ from (ct_state c) = true ∧ table (move_state e id from state).1 =
      <[id := {| ct_id := ct_id c; ct_name := ct_name c; ct_state := state; ct_body := ct_body c |}]> (table e).
Proof.
  unfold move_state. destruct (table e !! id) as [c|] eqn:Hc; [|left; apply table_idem].
  destruct (from (ct_state c)) eqn:Hf; [|left; apply table_idem]. right. exists c.
  split_and!; [done|done|]. by apply (table_insert e id c).
Qed.

Lemma set_state_changes e id from state : changes_only id e (move_state e id from state).1.
Proof.
  unfold changes_only. simpl. destruct (set_state_cases e id from state) as [->|(c & Hc & _ & ->)]; split.
  - done.
  - eauto.
  - intros i Hi. by rewrite lookup_insert_ne.
  - intros c'. rewrite lookup_insert_eq. intros [= <-]. eauto.
Qed.

Lemma set_state_settles e id from state :
  (∀ s, from s = true → active_container_state state = true → active_container_state s = true) →
  settles e (move_state e id from state).1.
Proof.
  intros Hfrom i c'. simpl. destruct (set_state_cases e id from state) as [->|(c & Hc & Hf & ->)]; [eauto|].
  intros [[<- <-]|[_ Hc']]%lookup_insert_Some; [|eauto]. exists c. split_and!; [done|done|].
  exact (Hfrom _ Hf).
Qed.

Lemma list_law e label l :
  engine_list e label = Ok l →
  NoDup l.*1 ∧ ∀ id c, (id, c) ∈ l ↔ table e !! id = Some c ∧ cc_labels (ct_body c) !! label = Some "true".
Proof.
  intros [= <-]. split.
  - assert (NoDup (map_to_list (table e)).*1) as Hnd by apply NoDup_fst_map_to_list.
    induction (map_to_list (table e)) as [|x l IH]; simpl in *; [constructor|].
    apply NoDup_cons in Hnd as [Hx Hnd]. case_match; [|auto]. apply NoDup_cons. split; [|auto].
    intros (y & Hy & [Hin _]%elem_of_select)%list_elem_of_fmap. apply Hx, list_elem_of_fmap. eauto.
  - intros id c. rewrite elem_of_select, elem_of_map_to_list, bool_decide_eq_true. done.
Qed.

Lemma create_law e name body e' r :
  create e name body = (e', r) →
  match r with
  | Ok id => table e !! id = None ∧ table e' =
      <[id := {| ct_id := Some id; ct_name := name; ct_state := "created"; ct_body := body |}]> (table e)
  | Err _ => table e' = table e
  end.
Proof.
  unfold create. destruct (table e !! letters _) as [c|] eqn:Hc; [intros [= <- <-]; apply table_idem|].
  destruct (0 <=? _) eqn:Hm; intros [= <- <-]; [|apply table_idem]. split; [done|]. apply map_filter_id.
  intros i x [[<- <-]|[_ Hx]]%lookup_insert_Some; [unfold healthy; cbn; by apply Z.leb_le|].
  by apply map_lookup_filter_Some in Hx as [_ ?].
Qed.

#[export] Instance laws : EngineLaws (gmap string Container).
Proof.
  refine {| denotes _ text id := text = id |}.
  - done.
  - intros. by subst.
  - by intros e id c [_ Hc]%map_lookup_filter_Some.
  - apply list_law.
  - intros e text c. simpl. unfold answer, ok_or. case_match; [|done]. intros [= <-]. eauto.
  - intros e text message. simpl. unfold answer, ok_or. by case_match.
  - apply create_law.
  - intros e text. right. exists text. split; [done|apply set_state_changes].
  - intros e text. by apply set_state_settles.
  - intros e text. apply set_state_settles. by intros s <-%String.eqb_eq _.
  - intros e text. apply set_state_settles. by intros s <-%String.eqb_eq _.
  - intros e text. right. exists text. split; [done|apply set_state_changes].
  - intros e text i c Hc. exists c. split; [|done]. apply map_lookup_filter_Some in Hc as [Hc _].
    simpl in Hc. by apply lookup_delete_Some in Hc as [_ Hc].
Defined.
End Table.

(** ** A small host *)
Module SampleHost.
Import Table.

Definition header : string := "Filesystem 1024-blocks Used Available Capacity Mounted".
Definition disk : string := "/dev/vda1 104857600 52428800 52428800 50% /".
Definition newline : string := String.String (Ascii.ascii_of_nat 10) "".

(** A millisecond for each statement of the host, which is alone. *)
#[export] Instance machine : Machine (gmap string Container) :=
  {| instant n := Z.of_nat n; fresh_id n := "lease-" +:+ pretty n; between _ x := x;
     df_output _ := Some (header +:+ newline +:+ disk +:+ newline);
     network_ready _ _ := Ok tt; image_ready _ _ _ := Ok tt; tart_configured := false;
     tart_capacity _ := Err Internal; tart_provision _ _ := Err Internal; tart_request _ _ := Err Internal;
     write_input _ _ _ := Ok tt |}.

#[export] Instance machine_laws : MachineLaws (gmap string Container).
Proof. split; [by split|]. intros n k Hnk. simpl. lia. Qed.

Definition limits : ManagerLimits :=
  {| available_cpus := f64_of_Z 4; total_memory_mb := 8192; cpu_budget := f64_of_Z 4;
     memory_budget_mb := 4096; ml_max_runners := 1; min_free_disk_mb := 1024; min_free_disk_percent := 10;
     runner_network := "gridops-runners"; log_max_size := "20m"; log_max_files := 5;
     runner_pids_limit := 1024; runner_swap_percent := 100; shared_docker_socket := None |}.

Definition wants (runner : string) : CapacityRequest :=
  {| cq_runner_id := runner; cq_pool_id := "pool"; cq_provider := "docker"; cq_cpu_limit := f64_of_Z 2;
     cq_memory_limit_mb := 2048 |}.

Definition runner (id lease : string) : ProvisionRunner :=
  {| pr_runner_id := id; pr_pool_id := "pool"; pr_name := "runner-" +:+ id; pr_image := "runner:latest";
     pr_mode := "persistent"; pr_provider := "docker"; pr_platform := "github"; pr_jit_config := None;
     pr_registration_token := Some "registration-token-0001";
     pr_registration_url := Some "https://github.com/acme"; pr_labels := ["linux"];
     pr_runner_group := None; pr_bitbucket := None; pr_bitbucket_oauth_client_secret := None;
     pr_pull_image := false; pr_cpu_limit := f64_of_Z 2; pr_memory_limit_mb := 2048;
     pr_network := "gridops-runners"; pr_capacity_lease := lease; pr_runtime := "vm" |}.

Definition script (_ : string) : string := "run".
Definition start : Host (gmap string Container) :=
  {| docker := ∅; reservations := ∅; provisioning_paused := false; steps := 0 |}.

Definition after (requests : list Request) : Host (gmap string Container) :=
  serve_all script limits requests start.
Definition states (h : Host (gmap string Container)) : list (string * string) :=
  (λ x, (x.1, ct_state x.2)) <$> map_to_list (containers (docker h)).

(** Two runners, of which the first is stopped before the second is made; the
    host has room for one. *)
Definition made : list Request := [Reserve (wants "a"); Provision (runner "a" "lease-4")].
Definition replaced : list Request :=
  (made ++ [Control "aaaaaaaaaaaa" "stop"; Reserve (wants "b"); Provision (runner "b" "lease-21")])%list.

Lemma start_fits : fits limits start.
Proof. split; split; (try done); by vm_compute. Qed.

Lemma host_never_overcommitted_witness :
  fits limits (after replaced)
  ∧ states (after replaced) = [("aaaaaaaaaaaaa", "running"); ("aaaaaaaaaaaa", "exited")].
Proof.
  split; [|by vm_compute].
  refine (proj1 (host_never_overcommitted script limits replaced start _ _ start_fits)); [by vm_compute|].
  intros id Hin. repeat (apply elem_of_cons in Hin as [Hin|Hin]; [done|]). by apply elem_of_nil in Hin.
Defined.

Definition first_use : Result (option Container) ManagerError * Host (gmap string Container) :=
  provision_runner script limits (runner "a" "lease-4") (after [Reserve (wants "a")]).

Lemma first_use_succeeds : ∃ c, first_use.1 = Ok c.
Proof.
  assert (is_ok first_use.1 = true) as Hok by by vm_compute. destruct (first_use.1) as [c|e]; [by exists c|done].
Qed.

Definition busy_day : list Request := [Reserve (wants "b"); Control "aaaaaaaaaaaa" "stop"; Reserve (wants "b")].

Lemma lease_is_used_once_witness :
  (∃ c, first_use.1 = Ok c)
  ∧ ∀ c', (provision_runner script limits (runner "b" "lease-4")
             (serve_all script limits busy_day first_use.2)).1 ≠ Ok c'.
Proof.
  split; [exact first_use_succeeds|]. destruct first_use_succeeds as [c Hc].
  refine (lease_is_used_once script limits (runner "a" "lease-4") (runner "b" "lease-4") busy_day
    (after [Reserve (wants "a")]) c Hc eq_refl _).
  assert (4 < steps first_use.2)%nat as Hs by (vm_compute; lia).
  intros n Hn Heq. change (steps first_use.2 ≤ n)%nat in Hn.
  change ("lease-" +:+ pretty n = "lease-" +:+ pretty 4%nat) in Heq. apply (inj _) in Heq. apply (inj pretty) in Heq. lia.
Defined.

(** Restarting a stopped container is not checked against the host's
    capacity.  On a host for one runner, with one that runs and one that was
    stopped to make room for it, starting the stopped one is refused because
    the host is full, and restarting it is not: both run, and the host is
    over-committed. *)
Theorem restart_overcommits :
  let h := after replaced in
  let h' := after (replaced ++ [Control "aaaaaaaaaaaa" "restart"])%list in
  fits limits h
  ∧ (serve script limits (Control "aaaaaaaaaaaa" "start") h).1 = Err (Guardrail "host_capacity_exhausted")
  ∧ (serve script limits (Control "aaaaaaaaaaaa" "restart") h).1 = Ok tt
  ∧ count_rows counted (snd <$> map_to_list (containers (docker h'))) = 2
  ∧ ml_max_runners limits = 1.
Proof.
  split; [|by vm_compute]. apply serve_all_fits; [by vm_compute| |apply start_fits].
  intros id Hin. repeat (apply elem_of_cons in Hin as [Hin|Hin]; [done|]). by apply elem_of_nil in Hin.
Qed.
End SampleHost.
