(* ===== verification/Sandbox.v ===== *)
(** * Commands and archives in agent sandboxes
    ([crates/gridops-manager/src/sandbox.rs]).

    The checks and the plan of a command, the capture of its output, its
    outcome, and where archives may be unpacked.  Docker's answers to one
    command are the class [Execs]: the frames of its output up to its end or to
    the manager's backstop, the time it took, what inspecting it says, and its answer to an
    archive.  Numbers in messages are not kept. *)
From stdpp Require Import pretty.
From S2P Require Import Prelude Ids Base64 Crypto Store Manager.
#[local] Open Scope string_scope.
#[local] Open Scope Z_scope.

Definition SANDBOX_WORKSPACE : string := "/workspace".
Definition EXEC_DEFAULT_TIMEOUT_SECONDS : Z := 300.
Definition EXEC_MIN_TIMEOUT_SECONDS : Z := 1.
Definition EXEC_MAX_TIMEOUT_SECONDS : Z := 1200.
Definition EXEC_KILL_GRACE_SECONDS : Z := 5.
Definition EXEC_DEFAULT_MAX_OUTPUT_BYTES : Z := 65536.
Definition EXEC_MIN_MAX_OUTPUT_BYTES : Z := 1024.
Definition EXEC_MAX_MAX_OUTPUT_BYTES : Z := 1048576.
Definition EXEC_MAX_ARGUMENTS : Z := 4096.
Definition EXEC_MAX_COMMAND_BYTES : Z := 262144.
Definition EXEC_MAX_ENV_ENTRIES : Z := 128.
Definition EXEC_MAX_ENV_VALUE_BYTES : Z := 32768.
Definition MAX_PATH_BYTES : Z := 4096.
Definition ARCHIVE_MAX_BYTES : Z := Z.shiftl 1 30.

(** ** Paths *)
(** [split('/')]. *)
Fixpoint split_slashes (s : string) : string * list string :=
  match s with
  | String.EmptyString => ("", [])
  | String.String c s =>
      let '(first, rest) := split_slashes s in
      if byte_of c =? 47 then ("", first :: rest) else (String.String c first, rest)
  end.

Fixpoint join_slashes (l : list string) : string :=
  match l with [] => "" | [a] => a | a :: l => a +:+ "/" +:+ join_slashes l end.

Definition segments_of (path : string) : list string :=
  let '(first, rest) := split_slashes path in select (λ segment, negb (is_empty segment)) (first :: rest).

Definition normalized_absolute_path (path : string) : option string :=
  if negb (String.prefix "/" path) || (MAX_PATH_BYTES <? byte_len path) || has_control path then None else
  let segments := segments_of path in
  if existsb (λ segment, String.eqb segment "." || String.eqb segment "..") segments then None
  else Some ("/" +:+ join_slashes segments).

Definition under (path root : string) : bool := String.eqb path root || String.prefix (root +:+ "/") path.

Definition archive_destination (path : string) : Result string ManagerError :=
  match normalized_absolute_path path with
  | Some path => if existsb (under path) ["/workspace"; "/tmp"] then Ok path
                 else Err (BadRequest "Archive path must be an absolute path under /workspace or /tmp without . or .. segments.")
  | None => Err (BadRequest "Archive path must be an absolute path under /workspace or /tmp without . or .. segments.")
  end.

(** ** Plans *)
Record SandboxExecRequest := {
  xr_command : list string; xr_workdir : option string; xr_timeout_seconds : option Z;
  xr_max_output_bytes : option Z; xr_env : list (string * string) }.
Record ExecPlan := {
  xp_command : list string; xp_workdir : string; xp_env : list string; xp_timeout : Z;
  xp_max_output_bytes : Z }.
Record SandboxExecResponse := {
  xs_exit_code : Z; xs_stdout : list Z; xs_stderr : list Z; xs_stdout_truncated : bool;
  xs_stderr_truncated : bool; xs_timed_out : bool; xs_duration_ms : Z }.

Definition validate_command (command : list string) : Result unit ManagerError :=
  let total := sum_rows byte_len command in
  if match head command with Some program => is_empty (trim program) | None => true end
     || (EXEC_MAX_ARGUMENTS <? Z.of_nat (length command)) || (EXEC_MAX_COMMAND_BYTES <? total)
     || existsb (has_byte [0]) command
  then Err (BadRequest "Exec command must be a non-empty argument list without NUL bytes.") else Ok tt.

Definition valid_env_name (name : string) : bool :=
  (byte_len name <=? 256)
  && match bytes name with
     | first :: rest => ((65 <=? first) && (first <=? 90) || (97 <=? first) && (first <=? 122) || (first =? 95))
                        && forallb (λ b, alphanumeric b || (b =? 95)) rest
     | [] => false
     end.

(** The variables in the order of their names, as the map keeps them. *)
Definition exec_environment (env : list (string * string)) : Result (list string) ManagerError :=
  if EXEC_MAX_ENV_ENTRIES <? Z.of_nat (length env)
  then Err (BadRequest "Exec environment may set at most 128 variables.") else
  traverse (λ '(name, value),
    if negb (valid_env_name name) || (EXEC_MAX_ENV_VALUE_BYTES <? byte_len value) || has_byte [0] value
    then Err (BadRequest "Exec environment variable is invalid.")
    else Ok (name +:+ "=" +:+ value)) env.

Definition clamp_to (value lower upper : Z) : Z := Z.min (Z.max value lower) upper.
Definition clamp_timeout_seconds (value : option Z) : Z :=
  clamp_to (default EXEC_DEFAULT_TIMEOUT_SECONDS value) EXEC_MIN_TIMEOUT_SECONDS EXEC_MAX_TIMEOUT_SECONDS.
Definition clamp_max_output_bytes (value : option Z) : Z :=
  clamp_to (default EXEC_DEFAULT_MAX_OUTPUT_BYTES value) EXEC_MIN_MAX_OUTPUT_BYTES EXEC_MAX_MAX_OUTPUT_BYTES.

Definition plan (r : SandboxExecRequest) : Result ExecPlan ManagerError :=
  let? _ := validate_command (xr_command r) in
  let? workdir := match xr_workdir r with
                  | None => Ok SANDBOX_WORKSPACE
                  | Some value =>
                      ok_or (BadRequest "Exec working directory must be an absolute path without . or .. segments.")
                        (normalized_absolute_path value)
                  end in
  let? env := exec_environment (xr_env r) in
  let timeout := clamp_timeout_seconds (xr_timeout_seconds r) in
  Ok {| xp_command := (["timeout"; "-k"; pretty EXEC_KILL_GRACE_SECONDS; pretty timeout] ++ xr_command r)%list;
        xp_workdir := workdir; xp_env := env; xp_timeout := timeout;
        xp_max_output_bytes := clamp_max_output_bytes (xr_max_output_bytes r) |}.

(** ** [String::from_utf8_lossy]: each maximal part of an ill-formed sequence
    becomes one U+FFFD. *)
Definition replacement : list Z := [239; 191; 189].

(** How many of the bytes after a lead byte belong to its sequence, and how
    many it needs: the second byte's range depends on the lead. *)
Definition second_in_range (b0 b1 : Z) : bool :=
  if b0 =? 224 then in_range 160 191 b1
  else if b0 =? 237 then in_range 128 159 b1
  else if b0 =? 240 then in_range 144 191 b1
  else if b0 =? 244 then in_range 128 143 b1
  else is_continuation b1.

Definition needed (b0 : Z) : nat :=
  if in_range 194 223 b0 then 1 else if in_range 224 239 b0 then 2 else if in_range 240 244 b0 then 3 else 0.

Fixpoint continuations (n : nat) (l : list Z) : nat :=
  match n, l with
  | S n, b :: l => if is_continuation b then S (continuations n l) else 0
  | _, _ => 0
  end.

Definition accepted (b0 : Z) (l : list Z) : nat :=
  match needed b0, l with
  | S n, b1 :: l => if second_in_range b0 b1 then S (continuations n l) else 0
  | _, _ => 0
  end.

(** [fuel] bounds the number of sequences; the length is enough. *)
Fixpoint lossy (fuel : nat) (l : list Z) : list Z :=
  match fuel, l with
  | S fuel, b0 :: l =>
      if b0 <? 128 then b0 :: lossy fuel l else
      let n := accepted b0 l in
      if (0 <? needed b0)%nat && (n =? needed b0)%nat
      then (b0 :: take n l ++ lossy fuel (drop n l))%list
      else (replacement ++ lossy fuel (drop n l))%list
  | _, _ => []
  end.
Definition from_utf8_lossy (l : list Z) : list Z := lossy (length l) l.

(** ** The capture of output *)
Module OutputCapture.
Record State := { head : list Z; tail : list Z; head_limit : Z; tail_limit : Z; total : Z }.

Definition new (max_bytes : Z) : State :=
  let head_limit := max_bytes / 4 in
  {| head := []; tail := []; head_limit := head_limit; tail_limit := max_bytes - head_limit; total := 0 |}.

Definition push (s : State) (bytes : list Z) : State :=
  let total := usize_saturating_add (total s) (Z.of_nat (length bytes)) in
  let head_room := Z.max (head_limit s - Z.of_nat (length (head s))) 0 in
  let n := Z.to_nat (Z.min head_room (Z.of_nat (length bytes))) in
  let rest := drop n bytes in
  let head' := (head s ++ take n bytes)%list in
  if tail_limit s <=? Z.of_nat (length rest) then
    {| head := head'; tail := drop (length rest - Z.to_nat (tail_limit s)) rest;
       head_limit := head_limit s; tail_limit := tail_limit s; total := total |}
  else
    let overflow := Z.max (Z.of_nat (length (tail s)) + Z.of_nat (length rest) - tail_limit s) 0 in
    {| head := head'; tail := (drop (Z.to_nat overflow) (tail s) ++ rest)%list;
       head_limit := head_limit s; tail_limit := tail_limit s; total := total |}.

Definition truncated_mark (dropped : Z) : list Z :=
  (10 :: [226; 128; 166] ++ bytes ("[" +:+ pretty dropped +:+ " bytes truncated]") ++ [226; 128; 166] ++ [10])%list.

Definition finish (s : State) : list Z * bool :=
  let dropped := total s - Z.of_nat (length (head s)) - Z.of_nat (length (tail s)) in
  if dropped =? 0 then (from_utf8_lossy (head s ++ tail s)%list, false)
  else ((from_utf8_lossy (head s) ++ truncated_mark dropped ++ from_utf8_lossy (tail s))%list, true).
End OutputCapture.

(** ** Running a command *)
Inductive Frame := StdOut (message : list Z) | StdErr (message : list Z) | Console (message : list Z) | StdIn (message : list Z).

(** The output as far as it came, whether the backstop ended it, and the time. *)
Record Attached := {
  frames : list (Result Frame DockerError); backstopped : bool; elapsed_ms : Z }.

Class Execs := {
  exec_create : string → ExecPlan → Result string DockerError;
  exec_start : string → Result (option Attached) DockerError;
  exec_inspect : string → nat → Result (option bool * option Z) DockerError;
  archive_upload : string → string → list (list Z) → Result unit DockerError }.

Fixpoint collect (l : list (Result Frame DockerError)) (stdout stderr : OutputCapture.State)
    : Result (OutputCapture.State * OutputCapture.State) DockerError :=
  match l with
  | [] => Ok (stdout, stderr)
  | Err e :: _ => Err e
  | Ok frame :: l =>
      match frame with
      | StdOut message | Console message => collect l (OutputCapture.push stdout message) stderr
      | StdErr message => collect l stdout (OutputCapture.push stderr message)
      | StdIn _ => collect l stdout stderr
      end
  end.

Definition timed_out_exit (exit_code elapsed timeout : Z) : bool :=
  bool_decide (exit_code ∈ [124; 137]) && (timeout * 1000 <=? elapsed + 500).

Section run.
Context `{Execs}.

(** The [tries] inspections that are left; the [n]th is next. *)
Fixpoint exit_code_loop (id : string) (tries n : nat) : Result Z ManagerError :=
  match tries with
  | O => Ok (-1)
  | S tries =>
      let? inspect := map_err sandbox_docker_error (exec_inspect id n) in
      if bool_decide (inspect.1 = Some true) then exit_code_loop id tries (S n)
      else Ok (default (-1) inspect.2)
  end.
Definition exec_exit_code (id : string) : Result Z ManagerError := exit_code_loop id 40 0.

Definition run_exec (container_id : string) (p : ExecPlan) : Result SandboxExecResponse ManagerError :=
  let? id := map_err sandbox_docker_error (exec_create container_id p) in
  let? attached := map_err sandbox_docker_error (exec_start id) in
  let? output := ok_or Internal attached in
  let? captured := map_err sandbox_docker_error
    (collect (frames output) (OutputCapture.new (xp_max_output_bytes p)) (OutputCapture.new (xp_max_output_bytes p))) in
  let? outcome := (if backstopped output then Ok (-1, true)
                   else let? exit_code := exec_exit_code id in
                        Ok (exit_code, timed_out_exit exit_code (elapsed_ms output) (xp_timeout p))) in
  let '(stdout, stdout_truncated) := OutputCapture.finish captured.1 in
  let '(stderr, stderr_truncated) := OutputCapture.finish captured.2 in
  Ok {| xs_exit_code := outcome.1; xs_stdout := stdout; xs_stderr := stderr;
        xs_stdout_truncated := stdout_truncated; xs_stderr_truncated := stderr_truncated;
        xs_timed_out := outcome.2; xs_duration_ms := Z.min (elapsed_ms output) u64_max |}.

(** [find_sandbox] for the engine as it is at that moment. *)
Definition located {E} `{Engine E} (e : E) (sandbox_id : string) : Result Container ManagerError :=
  let? details := map_err sandbox_docker_error (engine_inspect e (sandbox_container_name sandbox_id)) in
  if sandbox_labels_match (cc_labels (ct_body details)) sandbox_id then Ok details
  else Err (Forbidden "GridOps can only control containers carrying its agent-sandbox labels.").

Definition exec_in_sandbox {E} `{Engine E} (e : E) (sandbox_id : string) (input : SandboxExecRequest)
    : Result SandboxExecResponse ManagerError :=
  let? _ := validate_sandbox_id sandbox_id in
  let? p := plan input in
  let? details := located e sandbox_id in
  if negb (String.eqb (ct_state details) "running") then Err (Conflict "Agent sandbox is not running.") else
  run_exec (default (sandbox_container_name sandbox_id) (ct_id details)) p.

Definition create_directory (container_id path : string) : Result unit ManagerError :=
  let? outcome := run_exec container_id
    {| xp_command := ["mkdir"; "-p"; "--"; path]; xp_workdir := "/"; xp_env := []; xp_timeout := 30;
       xp_max_output_bytes := 4096 |} in
  if negb (xs_exit_code outcome =? 0)
  then Err (BadRequest "Could not create the upload directory in the agent sandbox.") else Ok tt.


(** ** Archives *)
(** What the stream passes on: each chunk while the sum stays within the limit. *)
Inductive UploadFailure := UploadOk | UploadTooLarge | UploadInterrupted.

Fixpoint limited_archive_stream (limit received : Z) (body : list (option (list Z)))
    : list (list Z) * UploadFailure :=
  match body with
  | [] => ([], UploadOk)
  | None :: _ => ([], UploadInterrupted)
  | Some chunk :: body =>
      let received := Z.min (received + Z.of_nat (length chunk)) u64_max in
      if limit <? received then ([], UploadTooLarge)
      else let '(passed, failure) := limited_archive_stream limit received body in (chunk :: passed, failure)
  end.

Definition declared_length_exceeds (content_length : option Z) (limit : Z) : bool :=
  match content_length with Some n => limit <? n | None => false end.

Definition archive_docker_error (error : DockerError) : ManagerError :=
  match error with
  | ServerError 404 _ => NotFound "The upload path does not exist in the agent sandbox."
  | ServerError 400 message => BadRequest (take_chars 2000 message)
  | ServerError 403 message => Forbidden (take_chars 2000 message)
  | ServerError status _ =>
      if 500 <=? status then UpstreamError 502 "sandbox_archive_failed" else from_docker error
  | RequestTimeoutError => UpstreamError 504 "sandbox_archive_timeout"
  | error => from_docker error
  end.

Definition upload_sandbox_archive {E} `{Engine E} (e : E) (sandbox_id : string) (path : option string)
    (content_length : option Z) (body : list (option (list Z))) : Result unit ManagerError :=
  let? _ := validate_sandbox_id sandbox_id in
  let? path := archive_destination (default SANDBOX_WORKSPACE path) in
  if declared_length_exceeds content_length ARCHIVE_MAX_BYTES then Err PayloadTooLarge else
  let? details := located e sandbox_id in
  let id := default (sandbox_container_name sandbox_id) (ct_id details) in
  let? _ := (if String.eqb (ct_state details) "running" then create_directory id path else Ok tt) in
  let '(passed, failure) := limited_archive_stream ARCHIVE_MAX_BYTES 0 body in
  let result := archive_upload id path passed in
  match failure with
  | UploadTooLarge => Err PayloadTooLarge
  | UploadInterrupted => Err (BadRequest "The archive upload was interrupted before it completed.")
  | UploadOk => map_err archive_docker_error result
  end.
End run.
