(* ===== verification/SandboxSpec.v ===== *)
(** * What commands and archives in sandboxes are held to.

    The capture of output is the two ends of the whole output however it is cut
    into frames; archives land under the workspace or the scratch space; plans
    and answers stay within their bounds. *)
From stdpp Require Import pretty.
From S2P Require Import Prelude Ids Base64 Crypto Store Manager ManagerSpec Sandbox.
#[local] Open Scope string_scope.
#[local] Open Scope Z_scope.

(** ** The capture is the ends of the output *)
Section capture.
Import OutputCapture.

(** What is kept of a whole output. *)
Definition ends (max : Z) (whole : list Z) : State :=
  let h := Z.to_nat (max / 4) in
  let rest := drop h whole in
  {| head := take h whole; tail := drop (length rest - Z.to_nat (max - max / 4)) rest;
     head_limit := max / 4; tail_limit := max - max / 4; total := Z.of_nat (length whole) |}.

Lemma last_of_app (n : nat) (a b : list Z) :
  (n ≤ length b)%nat → drop (length (a ++ b) - n) (a ++ b)%list = drop (length b - n) b.
Proof.
  intros Hn. rewrite length_app, drop_app_ge by lia. f_equal. lia.
Qed.

Lemma last_of_app_short (n : nat) (a b : list Z) :
  (length b < n)%nat →
  drop (length (a ++ b) - n) (a ++ b)%list
  = (drop (length (drop (length a - n) a) + length b - n) (drop (length a - n) a) ++ b)%list.
Proof.
  intros Hn. rewrite length_app, length_drop, drop_drop, drop_app_le by lia. f_equal. f_equal. lia.
Qed.

Lemma push_ends max whole bytes :
  0 ≤ max → Z.of_nat (length whole + length bytes) ≤ u64_max →
  push (ends max whole) bytes = ends max (whole ++ bytes)%list.
Proof.
  intros Hmax Htotal. pose proof (Z.div_pos max 4 Hmax ltac:(lia)) as Hh.
  pose proof (Z.div_le_upper_bound max 4 max ltac:(lia) ltac:(lia)) as Hh'.
  unfold push, ends. cbn [head tail head_limit tail_limit total].
  set (h := Z.to_nat (max / 4)). set (t := Z.to_nat (max - max / 4)).
  assert (usize_saturating_add (Z.of_nat (length whole)) (Z.of_nat (length bytes))
          = Z.of_nat (length (whole ++ bytes)%list)) as -> by (unfold usize_saturating_add; rewrite length_app; lia).
  set (n := Z.to_nat (Z.min (Z.max (max / 4 - Z.of_nat (length (take h whole))) 0) (Z.of_nat (length bytes)))).
  assert (n = Nat.min (h - length whole) (length bytes)) as Hn by (unfold n; rewrite length_take; lia).
  assert (take h whole ++ take n bytes = take h (whole ++ bytes))%list as Hhead.
  { rewrite take_app. f_equal. rewrite Hn. destruct (Nat.min_spec (h - length whole) (length bytes)) as [[_ ->]|[Hle ->]];
      [done|]. rewrite !take_ge by lia. done. }
  assert (drop h (whole ++ bytes) = drop h whole ++ drop n bytes)%list as Hrest.
  { rewrite drop_app. f_equal. rewrite Hn. destruct (Nat.min_spec (h - length whole) (length bytes)) as [[_ ->]|[Hle ->]];
      [done|]. rewrite !drop_ge by lia. done. }
  rewrite Hhead, Hrest. assert (Z.of_nat t = max - max / 4) as Ht by (unfold t; lia). rewrite <-Ht.
  destruct (Z.leb_spec (Z.of_nat t) (Z.of_nat (length (drop n bytes)))) as [Hle|Hlt].
  - by rewrite last_of_app by lia.
  - rewrite last_of_app_short by lia. f_equal. f_equal. f_equal. rewrite length_drop. lia.
Qed.

Lemma captured max chunks :
  0 ≤ max → Z.of_nat (length (concat chunks)) ≤ u64_max → foldl push (new max) chunks = ends max (concat chunks).
Proof.
  intros Hmax. assert (new max = ends max []) as -> by (unfold new, ends; by rewrite take_nil, drop_nil).
  change (concat chunks) with ([] ++ concat chunks)%list. generalize (@nil Z).
  induction chunks as [|c chunks IH]; intros whole Hl; simpl; [by rewrite app_nil_r|].
  simpl in Hl. rewrite push_ends by (rewrite ?length_app in *; lia).
  rewrite IH; [|by rewrite <-app_assoc]. by rewrite <-app_assoc.
Qed.

(** C15: the captured output of a command is the two ends of what it wrote.
    However the output is cut into frames, all of it is given when it fits in
    the budget, and otherwise its first quarter of the budget, a mark with the
    number of bytes left out, and its last three quarters. *)
Theorem capture_keeps_the_ends max chunks :
  0 ≤ max → Z.of_nat (length (concat chunks)) ≤ u64_max →
  let whole := concat chunks in
  let n := Z.of_nat (length whole) in
  finish (foldl push (new max) chunks)
  = if n <=? max then (from_utf8_lossy whole, false)
    else ((from_utf8_lossy (take (Z.to_nat (max / 4)) whole) ++ truncated_mark (n - max)
           ++ from_utf8_lossy (drop (length whole - Z.to_nat (max - max / 4)) whole))%list, true).
Proof.
  intros Hmax Hl whole n. rewrite captured by done. fold whole.
  pose proof (Z.div_pos max 4 Hmax ltac:(lia)) as Hh.
  pose proof (Z.div_le_upper_bound max 4 max ltac:(lia) ltac:(lia)) as Hh'.
  unfold finish, ends. cbn [head tail total]. set (h := Z.to_nat (max / 4)). set (t := Z.to_nat (max - max / 4)).
  rewrite length_take, !length_drop. destruct (Z.leb_spec n max) as [Hn|Hn].
  - replace (length whole - h - t)%nat with 0%nat by lia. rewrite drop_0, take_drop.
    rewrite (proj2 (Z.eqb_eq _ _)) by lia. done.
  - rewrite (proj2 (Z.eqb_neq _ _)) by lia. rewrite drop_drop.
    replace (h + (length whole - h - t))%nat with (length whole - t)%nat by lia.
    do 3 f_equal. f_equal. lia.
Qed.
End capture.

(** ** Paths *)
Definition plain_segment (s : string) : Prop :=
  s ≠ "" ∧ s ≠ "." ∧ s ≠ ".." ∧ ∀ c, c ∈ String.list_ascii_of_string s → byte_of c ≠ 47.

Lemma split_slashes_no_slash s first rest :
  split_slashes s = (first, rest) →
  Forall (λ x, ∀ c, c ∈ String.list_ascii_of_string x → byte_of c ≠ 47) (first :: rest).
Proof.
  revert first rest. induction s as [|c s IH]; intros first rest Heq; simpl in Heq.
  - simplify_eq. repeat constructor. by intros c ?%elem_of_nil.
  - destruct (split_slashes s) as [f r]. specialize (IH f r eq_refl).
    destruct (Z.eqb_spec (byte_of c) 47) as [Hc|Hc]; simplify_eq.
    + constructor; [by intros x ?%elem_of_nil|done].
    + apply Forall_cons in IH as [Hf Hr]. constructor; [|done]. intros x [->|Hx]%elem_of_cons; auto.
Qed.

Lemma segments_no_slash path s :
  s ∈ segments_of path → s ≠ "" ∧ ∀ c, c ∈ String.list_ascii_of_string s → byte_of c ≠ 47.
Proof.
  unfold segments_of. destruct (split_slashes path) as [first rest] eqn:Hs. apply split_slashes_no_slash in Hs.
  intros [Hin Hne]%elem_of_select. rewrite Forall_forall in Hs. split; [|by apply Hs].
  intros ->. done.
Qed.

Lemma split_slashes_app s t :
  (∀ c, c ∈ String.list_ascii_of_string s → byte_of c ≠ 47) →
  split_slashes (s +:+ "/" +:+ t) = (s, (split_slashes t).1 :: (split_slashes t).2).
Proof.
  induction s as [|c s IH]; intros Hs.
  { change ("" +:+ "/" +:+ t) with (String.String (Ascii.ascii_of_N 47) t). simpl. by destruct (split_slashes t). }
  change ((String.String c s) +:+ "/" +:+ t) with (String.String c (s +:+ "/" +:+ t)). cbn [split_slashes].
  rewrite IH by (intros x Hx; apply Hs; by right).
  rewrite (proj2 (Z.eqb_neq _ _)); [done|]. apply Hs. by left.
Qed.

Lemma split_slashes_whole s :
  (∀ c, c ∈ String.list_ascii_of_string s → byte_of c ≠ 47) → split_slashes s = (s, []).
Proof.
  induction s as [|c s IH]; intros Hs; [done|]. cbn [split_slashes].
  rewrite IH by (intros x Hx; apply Hs; by right).
  rewrite (proj2 (Z.eqb_neq _ _)); [done|]. apply Hs. by left.
Qed.

Lemma split_join a l :
  Forall (λ x, ∀ c, c ∈ String.list_ascii_of_string x → byte_of c ≠ 47) (a :: l) →
  split_slashes (join_slashes (a :: l)) = (a, l).
Proof.
  revert a. induction l as [|b l IH]; intros a [Ha Hl]%Forall_cons; [by apply split_slashes_whole|].
  change (join_slashes (a :: b :: l)) with (a +:+ "/" +:+ join_slashes (b :: l)).
  rewrite split_slashes_app by done. by rewrite IH.
Qed.

Lemma segments_join l :
  (∀ s, s ∈ l → s ≠ "" ∧ ∀ c, c ∈ String.list_ascii_of_string s → byte_of c ≠ 47) →
  segments_of ("/" +:+ join_slashes l) = l.
Proof.
  intros Hl. unfold segments_of. change ("/" +:+ join_slashes l) with ("" +:+ "/" +:+ join_slashes l).
  rewrite split_slashes_app by by intros c ?%elem_of_nil. destruct l as [|a l]; [done|].
  rewrite split_join by (apply Forall_forall; intros s Hs; by apply Hl). simpl.
  assert (∀ k, (∀ s, s ∈ k → s ≠ "") → select (λ s, negb (is_empty s)) k = k) as Hid.
  { induction k as [|b k IH]; intros Hk; [done|]. simpl.
    unfold is_empty at 1. rewrite (proj2 (String.eqb_neq b "")) by (apply Hk; by left). simpl. rewrite IH; [done|]. intros s Hs. apply Hk. by right. }
  change (is_empty a) with (String.eqb a ""). rewrite (proj2 (String.eqb_neq a "")) by (apply Hl; by left). simpl.
  rewrite Hid; [done|]. intros s Hs. apply Hl. by right.
Qed.

Lemma normalized_plain path p :
  normalized_absolute_path path = Some p →
  segments_of p = segments_of path ∧ p = "/" +:+ join_slashes (segments_of path)
  ∧ Forall plain_segment (segments_of p).
Proof.
  unfold normalized_absolute_path. intros Hn. inv_result. destruct (existsb _ _) eqn:He; [done|]. inv_result.
  assert (segments_of ("/" +:+ join_slashes (segments_of path)) = segments_of path) as Hseg
    by (apply segments_join; intros s; apply segments_no_slash).
  split_and!; [done|done|]. rewrite Hseg. apply Forall_forall. intros s Hs.
  destruct (segments_no_slash path s Hs) as [Hne Hc]. apply not_true_iff_false in He.
  split_and!; [done| | |done]; intros ->; apply He, existsb_exists; [exists "."|exists ".."];
    (split; [by apply list_elem_of_In|reflexivity]).
Qed.

Lemma prefix_app a s : String.prefix a s = true → ∃ t, s = a +:+ t.
Proof.
  revert s. induction a as [|c a IH]; intros s; simpl; [by exists s|]. destruct s as [|d s]; [done|].
  change (String.prefix (String.String c a) (String.String d s))
    with (if Ascii.ascii_dec c d then String.prefix a s else false).
  destruct (Ascii.ascii_dec c d) as [->|]; [|done]. intros [t ->]%IH. by exists t.
Qed.

(** C16: an archive is unpacked inside the workspace or the scratch space.  The
    place it goes to names the directories the caller named, from the root, in
    one spelling, begins with [workspace] or [tmp], and has no segment that
    leads up or nowhere. *)
Theorem archive_stays_inside path p :
  archive_destination path = Ok p →
  segments_of p = segments_of path ∧ p = "/" +:+ join_slashes (segments_of p)
  ∧ Forall plain_segment (segments_of p)
  ∧ (list.head (segments_of p) = Some "workspace" ∨ list.head (segments_of p) = Some "tmp").
Proof.
  unfold archive_destination. destruct (normalized_absolute_path path) as [q|] eqn:Hn; [|done].
  destruct (existsb (under q) _) eqn:Hu; [|done]. intros [= ->].
  destruct (normalized_plain path p Hn) as (Hseg & Hp & Hplain). rewrite Hseg in *. split_and!; [done..|].
  assert (∀ root, (root = "workspace" ∨ root = "tmp") → under p ("/" +:+ root) = true →
    list.head (segments_of path) = Some root) as Hroot.
  { intros root Hroot. unfold under. intros [Heq%String.eqb_eq|Hpre]%orb_true_iff.
    - rewrite <-Hseg, Heq. by destruct Hroot as [-> | ->].
    - apply prefix_app in Hpre as [t Ht]. rewrite <-Hseg, Ht. unfold segments_of.
      assert (∀ c, c ∈ String.list_ascii_of_string root → byte_of c ≠ 47) as Hslash.
      { destruct Hroot as [-> | ->]; intros c Hc; repeat (apply elem_of_cons in Hc as [->|Hc]; [done|]);
          by apply elem_of_nil in Hc. }
      assert ((("/" +:+ root) +:+ "/") +:+ t = "" +:+ "/" +:+ root +:+ "/" +:+ t) as ->
        by by destruct Hroot as [-> | ->].
      rewrite split_slashes_app by by intros c ?%elem_of_nil. rewrite split_slashes_app by done.
      by destruct Hroot as [-> | ->]. }
  simpl in Hu. rewrite orb_false_r in Hu. apply orb_true_iff in Hu as [Hu|Hu]; [left|right]; by apply Hroot; auto.
Qed.

(** ** Bounds *)
Lemma lossy_length fuel l : (length (lossy fuel l) ≤ 3 * length l)%nat.
Proof.
  revert l. induction fuel as [|fuel IH]; intros [|b l]; simpl; try lia. case_match.
  - cbn [length]. specialize (IH l). lia.
  - set (n := accepted b l). specialize (IH (drop n l)). rewrite length_drop in IH. case_match; cbn [length].
    + rewrite length_app, length_take. assert (length l - n + Nat.min n (length l) = length l)%nat by lia. lia.
    + lia.
Qed.

Lemma from_utf8_lossy_length l : Z.of_nat (length (from_utf8_lossy l)) ≤ 3 * Z.of_nat (length l).
Proof. unfold from_utf8_lossy. pose proof (lossy_length (length l) l). lia. Qed.

Section bounds.
Import OutputCapture.

Definition bounded (max : Z) (s : State) : Prop :=
  head_limit s = max / 4 ∧ tail_limit s = max - max / 4
  ∧ Z.of_nat (length (head s)) ≤ max / 4 ∧ Z.of_nat (length (tail s)) ≤ max - max / 4.

Lemma bounded_new max : 0 ≤ max → bounded max (new max).
Proof.
  intros Hmax. pose proof (Z.div_pos max 4 Hmax ltac:(lia)).
  pose proof (Z.div_le_upper_bound max 4 max ltac:(lia) ltac:(lia)). split_and!; simpl; lia.
Qed.

Lemma bounded_push max s bytes : 0 ≤ max → bounded max s → bounded max (push s bytes).
Proof.
  intros Hmax (Hh & Ht & Hhl & Htl). pose proof (Z.div_pos max 4 Hmax ltac:(lia)) as H4.
  pose proof (Z.div_le_upper_bound max 4 max ltac:(lia) ltac:(lia)) as H4'.
  unfold push, bounded. rewrite Hh, Ht. set (n := Z.to_nat _).
  assert (Z.of_nat n ≤ Z.max (max / 4 - Z.of_nat (length (head s))) 0) as Hn by lia.
  case_match eqn:Hle; bool_to_prop; cbn [head tail head_limit tail_limit];
    rewrite length_app, length_take, ?length_app, ?length_drop in *; split_and!; lia.
Qed.

Lemma bounded_collect max l out err captured :
  0 ≤ max → bounded max out → bounded max err → collect l out err = Ok captured →
  bounded max captured.1 ∧ bounded max captured.2.
Proof.
  intros Hmax. revert out err. induction l as [|[frame|e] l IH]; intros out err Ho He Hc; simpl in Hc; [by inv_result| |done].
  destruct frame; eapply IH; try exact Hc; auto using bounded_push.
Qed.
End bounds.

(** The longest text of a number of bytes. *)
Lemma finish_length max s :
  0 ≤ max → bounded max s →
  Z.of_nat (length (OutputCapture.finish s).1)
  ≤ 3 * max + Z.of_nat (length (OutputCapture.truncated_mark
      (OutputCapture.total s - Z.of_nat (length (OutputCapture.head s)) - Z.of_nat (length (OutputCapture.tail s))))).
Proof.
  intros Hmax (_ & _ & Hh & Ht). unfold OutputCapture.finish. case_match; cbn [fst].
  - pose proof (from_utf8_lossy_length (OutputCapture.head s ++ OutputCapture.tail s)%list) as Hl.
    rewrite length_app in Hl. lia.
  - rewrite !length_app. pose proof (from_utf8_lossy_length (OutputCapture.head s)).
    pose proof (from_utf8_lossy_length (OutputCapture.tail s)). lia.
Qed.

(** A command in a sandbox is held to its bounds.  A plan runs its command
    under a deadline of one second to twenty minutes, in an absolute directory
    without segments that lead up; and of its output at most the budget is kept
    while it runs, between one kibibyte and one mebibyte. *)
Theorem exec_within_bounds `{Execs} r p container_id answer :
  plan r = Ok p →
  take 4 (xp_command p) = ["timeout"; "-k"; "5"; pretty (xp_timeout p)]
  ∧ drop 4 (xp_command p) = xr_command r
  ∧ 1 ≤ xp_timeout p ≤ 1200 ∧ 1024 ≤ xp_max_output_bytes p ≤ 1048576
  ∧ Forall plain_segment (segments_of (xp_workdir p))
  ∧ (run_exec container_id p = Ok answer →
     ∃ out err, xs_stdout answer = (OutputCapture.finish out).1 ∧ xs_stderr answer = (OutputCapture.finish err).1
       ∧ bounded (xp_max_output_bytes p) out ∧ bounded (xp_max_output_bytes p) err
       ∧ (xs_timed_out answer = true → xs_exit_code answer ∈ [-1; 124; 137])).
Proof.
  intros Hp. unfold plan in Hp. inv_result. cbn [xp_command xp_timeout xp_max_output_bytes xp_workdir].
  assert (1024 ≤ clamp_max_output_bytes (xr_max_output_bytes r) ≤ 1048576) as Hmax
    by (unfold clamp_max_output_bytes, clamp_to, EXEC_MIN_MAX_OUTPUT_BYTES, EXEC_MAX_MAX_OUTPUT_BYTES; lia).
  assert (1 ≤ clamp_timeout_seconds (xr_timeout_seconds r) ≤ 1200) as Htime
    by (unfold clamp_timeout_seconds, clamp_to, EXEC_MIN_TIMEOUT_SECONDS, EXEC_MAX_TIMEOUT_SECONDS; lia).
  split; [done|]. split; [done|]. split; [done|]. split; [done|]. split.
  - destruct (xr_workdir r); inv_result; [by eapply normalized_plain|]. repeat constructor;
      (try done); intros c Hc; repeat (apply elem_of_cons in Hc as [->|Hc]; [done|]); by apply elem_of_nil in Hc.
  - intros Hr. unfold run_exec in Hr. cbn [xp_command xp_timeout xp_max_output_bytes xp_workdir] in Hr. inv_result.
    match goal with Hc : collect _ _ _ = Ok ?c |- _ => rename c into captured;
      apply (bounded_collect (clamp_max_output_bytes (xr_max_output_bytes r))) in Hc as [Ho He]; [|lia|..] end;
      [|apply bounded_new; lia..].
    destruct (OutputCapture.finish captured.1) as [stdout ot] eqn:Hout.
    destruct (OutputCapture.finish captured.2) as [stderr et] eqn:Herr. inv_result.
    exists captured.1, captured.2. rewrite Hout, Herr. split_and!; [done..|]. simpl.
    intros Hto. destruct (backstopped _); inv_result; [by left|]. simpl in *. unfold timed_out_exit in Hto.
    apply andb_true_iff in Hto as [Hto%bool_decide_eq_true _]. by right.
Qed.


(** ** Archives *)
Lemma archive_passes limit received body :
  0 ≤ received → limit < u64_max →
  received + Z.of_nat (length (concat (limited_archive_stream limit received body).1)) ≤ Z.max limit received.
Proof.
  revert received. induction body as [|[chunk|] body IH]; intros received Hr Hl; simpl; try lia.
  destruct (Z.ltb_spec limit (Z.min (received + Z.of_nat (length chunk)) u64_max)) as [Hgt|Hle]; simpl; [lia|].
  specialize (IH (Z.min (received + Z.of_nat (length chunk)) u64_max) ltac:(unfold u64_max in *; lia) Hl).
  destruct (limited_archive_stream _ _ body) as [passed failure]. simpl in *. rewrite length_app. lia.
Qed.

(** Docker gets at most a gibibyte of an archive, and all of one that is
    accepted. *)
Theorem archive_within_limit body :
  let r := limited_archive_stream ARCHIVE_MAX_BYTES 0 body in
  Z.of_nat (length (concat r.1)) ≤ 2 ^ 30
  ∧ (r.2 = UploadOk → body = Some <$> r.1).
Proof.
  split.
  - pose proof (archive_passes ARCHIVE_MAX_BYTES 0 body ltac:(done) ltac:(done)). unfold ARCHIVE_MAX_BYTES in *.
    change (Z.shiftl 1 30) with (2 ^ 30) in *. lia.
  - generalize 0. induction body as [|[chunk|] body IH]; intros received; simpl; [done| |done].
    case_match; [done|]. specialize (IH (Z.min (received + Z.of_nat (length chunk)) u64_max)).
    destruct (limited_archive_stream _ _ body) as [passed failure]. simpl in *. intros Hok. by rewrite IH.
Qed.

(** ** A sandbox *)
Module SampleSandbox.
Definition request : SandboxExecRequest :=
  {| xr_command := ["make"; "test"]; xr_workdir := Some "/workspace//repo/"; xr_timeout_seconds := Some 5000;
     xr_max_output_bytes := Some 0; xr_env := [("CI", "true")] |}.
Definition planned : ExecPlan :=
  {| xp_command := ["timeout"; "-k"; "5"; "1200"; "make"; "test"]; xp_workdir := "/workspace/repo";
     xp_env := ["CI=true"]; xp_timeout := 1200; xp_max_output_bytes := 1024 |}.

#[local] Instance docker : Execs :=
  {| exec_create _ _ := Ok "exec"; exec_inspect _ n := Ok (if (n =? 3)%nat then (Some false, Some 0) else (Some true, None));
     exec_start _ := Ok (Some {| frames := [Ok (StdOut (bytes "ok")); Ok (StdErr [195; 40])]; backstopped := false;
                                 elapsed_ms := 900 |});
     archive_upload _ _ _ := Ok tt |}.

Definition answered : SandboxExecResponse :=
  {| xs_exit_code := 0; xs_stdout := bytes "ok"; xs_stderr := [239; 191; 189; 40]; xs_stdout_truncated := false;
     xs_stderr_truncated := false; xs_timed_out := false; xs_duration_ms := 900 |}.

Lemma exec_within_bounds_witness :
  plan request = Ok planned ∧ run_exec "box" planned = Ok answered
  ∧ Forall plain_segment (segments_of (xp_workdir planned))
  ∧ ∃ out err, xs_stdout answered = (OutputCapture.finish out).1 ∧ xs_stderr answered = (OutputCapture.finish err).1
    ∧ bounded 1024 out ∧ bounded 1024 err.
Proof.
  assert (plan request = Ok planned) as Hp by by vm_compute.
  assert (run_exec "box" planned = Ok answered) as Hr by by vm_compute.
  destruct (exec_within_bounds request planned "box" answered Hp) as (_ & _ & _ & _ & Hseg & Hrun).
  destruct (Hrun Hr) as (out & err & Ho & He & Hbo & Hbe & _).
  split; [exact Hp|]. split; [exact Hr|]. split; [exact Hseg|]. exists out, err. done.
Defined.

Lemma capture_keeps_the_ends_witness :
  OutputCapture.finish (foldl OutputCapture.push (OutputCapture.new 8) [[1; 2; 3]; [4; 5; 6; 7; 8; 9]; [10]])
  = ((from_utf8_lossy [1; 2] ++ OutputCapture.truncated_mark 2 ++ from_utf8_lossy [5; 6; 7; 8; 9; 10])%list, true).
Proof. apply (capture_keeps_the_ends 8 [[1; 2; 3]; [4; 5; 6; 7; 8; 9]; [10]]); by vm_compute. Defined.

Lemma archive_stays_inside_witness :
  archive_destination "//workspace//repo/" = Ok "/workspace/repo"
  ∧ segments_of "/workspace/repo" = segments_of "//workspace//repo/".
Proof.
  split; [by vm_compute|]. refine (proj1 (archive_stays_inside "//workspace//repo/" "/workspace/repo" _)).
  by vm_compute.
Defined.
End SampleSandbox.
