(* ===== verification/Cursor.v ===== *)
(** * Fleet cursors ([crates/gridops-core/src/fleet/cursor.rs]).

    A cursor is a signed text that carries a position in a stream, bound to the
    reader's scope and to the control plane's incarnation.  Serde and the length
    of a MAC are the classes [CursorJson] and [MacBytes]. *)
From stdpp Require Import pretty.
From S2P Require Import Prelude Base64 Ids Domain Protocol Crypto Store Service.
#[local] Open Scope string_scope.
#[local] Open Scope Z_scope.

(** ** Data *)
Inductive CursorStream :=
| StreamHosts | StreamBackends | StreamDomains | StreamRunners | StreamSamples | StreamFleetEvents
| StreamHostEvents | StreamCommands | StreamAgentEvents | StreamLogs | StreamArtifacts
| StreamExternalRunners.
#[export] Instance CursorStream_dec : EqDecision CursorStream.
Proof. solve_decision. Defined.

Inductive CursorPosition :=
| RowPosition (after : Z) | EntityPosition (after : Uuid) | LegacyEntityPosition (after : string)
| BytesPosition (offset : Z).

Record Claims := {
  version : Z;
  incarnation : Uuid;
  scope_digest : list Z;
  stream : CursorStream;
  position : CursorPosition;
  issued_at_ms : Z;
  expires_at_ms : Z }.

Inductive RetainedFrom := RetainedRow (first : Z) | RetainedByte (first : Z) | Catalog.
Inductive CursorError := CursorInvalid | CursorExpired | CursorRetentionGap | CursorSigning.

(** Serde's text of the claims, which reads back to them, and of the three
    texts of a scope; and the digest HMAC-SHA-256 gives, 32 bytes. *)
Class CursorJson := {
  claims_json : Claims → option (list Z);
  claims_of_json : list Z → option Claims;
  scope_json : string → string → string → list Z;
  claims_json_bytes : ∀ c bs, claims_json c = Some bs → Forall is_byte bs;
  claims_json_text : ∀ c bs, claims_json c = Some bs → bs ≠ [];
  claims_of_json_json : ∀ c bs, claims_json c = Some bs → claims_of_json bs = Some c;
  scope_json_inj : ∀ p r q p' r' q',
    scope_json p r q = scope_json p' r' q' → p = p' ∧ r = r' ∧ q = q' }.

Class MacBytes `{Aead} : Prop := {
  hmac_length : ∀ key text, length (hmac_sha256 key text) = 32%nat;
  hmac_bytes : ∀ key text, Forall is_byte (hmac_sha256 key text) }.

Definition MAX_CURSOR_BYTES : Z := 4096.
Definition MAX_CURSOR_LIFETIME_MS : Z := 30 * 24 * 60 * 60 * 1000.
Definition CURSOR_DOMAIN : string := "gridops:fleet-cursor:v1" +:+ String.String Ascii.zero "".

(** [str::split('.')]. *)
Fixpoint split_dots (s : string) : string * list string :=
  match s with
  | String.EmptyString => ("", [])
  | String.String c s =>
      let '(first, rest) := split_dots s in
      if byte_of c =? 46 then ("", first :: rest) else (String.String c first, rest)
  end.

(** ** Operations *)
Definition CursorScope_new `{Codec, CursorJson} (principal_key resource_key normalized_query : string)
    : Result (list Z) CursorError :=
  if is_empty principal_key || is_empty resource_key || (1024 <? byte_len principal_key)
     || (1024 <? byte_len resource_key) || (4096 <? byte_len normalized_query)
  then Err CursorInvalid
  else Ok (sha256 (scope_json principal_key resource_key normalized_query)).

Definition for_browser `{Codec, CursorJson} (principal : Principal) (resource_key normalized_query : string)
    : Result (list Z) CursorError :=
  match principal with
  | AuthenticatedUser user_id => CursorScope_new ("user:" +:+ user_id) resource_key normalized_query
  | _ => Err CursorInvalid
  end.

Definition agent_key `{UuidText} (session : ExpectedAgentSession) : string :=
  "agent:" +:+ to_string (es_host_id session) +:+ ":" +:+ pretty (es_host_epoch session)
  +:+ ":" +:+ to_string (es_control_plane_incarnation session)
  +:+ ":" +:+ to_string (es_authority_session_id session)
  +:+ ":" +:+ pretty (es_credential_generation session).

Definition for_agent `{UuidText, Codec, CursorJson} (session : ExpectedAgentSession)
    (resource_key normalized_query : string) : Result (list Z) CursorError :=
  CursorScope_new (agent_key session) resource_key normalized_query.

Definition compatible (s : CursorStream) (p : CursorPosition) : bool :=
  match s, p with
  | (StreamLogs | StreamArtifacts), BytesPosition _ => true
  | (StreamHosts | StreamBackends | StreamDomains | StreamExternalRunners), EntityPosition _ => true
  | StreamRunners, LegacyEntityPosition _ => true
  | (StreamSamples | StreamFleetEvents | StreamHostEvents | StreamCommands | StreamAgentEvents),
    RowPosition _ => true
  | _, _ => false
  end.

Definition check_position (s : CursorStream) (p : CursorPosition) : Result unit CursorError :=
  if compatible s p then Ok tt else Err CursorInvalid.

Definition check_times (issued expires : Z) : Result unit CursorError :=
  let? ttl := ok_or CursorInvalid (i64_checked_sub expires issued) in
  if (issued <? 0) || (ttl <=? 0) || (MAX_CURSOR_LIFETIME_MS <? ttl) then Err CursorInvalid else Ok tt.

(** Whether the position lies before what is retained. *)
Definition retention_gap (p : CursorPosition) (retained : RetainedFrom) : Result bool CursorError :=
  match p, retained with
  | RowPosition after, RetainedRow first =>
      let? next := ok_or CursorInvalid (u64_checked_add after 1) in Ok (next <? first)
  | BytesPosition offset, RetainedByte first => Ok (offset <? first)
  | (EntityPosition _ | LegacyEntityPosition _), Catalog => Ok false
  | _, _ => Err CursorInvalid
  end.

Section codec.
Context `{Aead, CursorJson} (vault : Vault).

(** A MAC takes a key of any length, so signing does not fail. *)
Definition CursorCodec_issue (scope : list Z) (inc : Uuid) (s : CursorStream) (p : CursorPosition)
    (now expires : Z) : Result string CursorError :=
  let? _ := check_times now expires in
  let? _ := check_position s p in
  let claims := {| version := 1; incarnation := inc; scope_digest := scope; stream := s; position := p;
                   issued_at_ms := now; expires_at_ms := expires |} in
  let? json := ok_or CursorInvalid (claims_json claims) in
  let payload := b64_encode json in
  let signature := sign vault (CURSOR_DOMAIN +:+ payload) in
  let token := "v1." +:+ payload +:+ "." +:+ signature in
  if MAX_CURSOR_BYTES <? byte_len token then Err CursorInvalid else Ok token.

(** The payload of a token whose signature is right. *)
Definition authenticated_payload (token : string) : Result string CursorError :=
  if MAX_CURSOR_BYTES <? byte_len token then Err CursorInvalid else
  match split_dots token with
  | (v, [payload; signature]) =>
      if negb (String.eqb v "v1") || negb (byte_len signature =? 43) || is_empty payload then Err CursorInvalid
      else if negb (verify vault (CURSOR_DOMAIN +:+ payload) signature) then Err CursorInvalid
      else Ok payload
  | _ => Err CursorInvalid
  end.

Definition CursorCodec_verify (token : string) (scope : list Z) (inc : Uuid) (s : CursorStream) (now : Z)
    (retained : RetainedFrom) : Result CursorPosition CursorError :=
  let? payload := authenticated_payload token in
  let? decoded := ok_or CursorInvalid (b64_decode payload) in
  if negb (String.eqb (b64_encode decoded) payload) then Err CursorInvalid else
  let? claims := ok_or CursorInvalid (claims_of_json decoded) in
  let? _ := check_times (issued_at_ms claims) (expires_at_ms claims) in
  let? _ := check_position (stream claims) (position claims) in
  if negb (version claims =? 1) || negb (incarnation claims =? inc)
     || negb (bool_decide (scope_digest claims = scope)) || negb (bool_decide (stream claims = s))
     || (now <? issued_at_ms claims)
  then Err CursorInvalid
  else if expires_at_ms claims <=? now then Err CursorExpired else
  let? gap := retention_gap (position claims) retained in
  if gap : bool then Err CursorRetentionGap else Ok (position claims).
End codec.
