(* ===== verification/CursorSpec.v ===== *)
(** * What fleet cursors promise.

    An issued cursor gives its position back to the reader it was made for,
    until it expires or the position is no longer retained, and to nobody else;
    an accepted cursor carries the vault's signature; and agents' scopes differ
    as soon as anything that fences the agent does. *)
From stdpp Require Import pretty.
From S2P Require Import Prelude Base64 Ids Domain Protocol Crypto Store Service Cursor.
#[local] Open Scope string_scope.
#[local] Open Scope Z_scope.

(** ** Texts *)
Definition chars (s : string) : list Ascii.ascii := String.list_ascii_of_string s.
Definition lacks (b : Z) (s : string) : Prop := ∀ c, c ∈ chars s → byte_of c ≠ b.

Lemma lacks_cons b c s : lacks b (String.String c s) ↔ byte_of c ≠ b ∧ lacks b s.
Proof.
  unfold lacks, chars. simpl. split.
  - intros Hs. split; [apply Hs; by left|]. intros x Hx. apply Hs. by right.
  - intros [Hc Hs] x [->|Hx]%elem_of_cons; auto.
Qed.

Lemma split_dots_whole s : lacks 46 s → split_dots s = (s, []).
Proof.
  induction s as [|c s IH]; [done|]. intros [Hc Hs]%lacks_cons. simpl. rewrite IH by done.
  by rewrite (proj2 (Z.eqb_neq _ _) Hc).
Qed.

Lemma split_dots_app s t :
  lacks 46 s → split_dots (s +:+ "." +:+ t) = (s, (split_dots t).1 :: (split_dots t).2).
Proof.
  induction s as [|c s IH].
  { intros _. change ("" +:+ "." +:+ t) with (String.String (Ascii.ascii_of_N 46) t). simpl.
    by destruct (split_dots t). }
  intros [Hc Hs]%lacks_cons. change ((String.String c s) +:+ "." +:+ t)
    with (String.String c (s +:+ "." +:+ t)). cbn [split_dots].
  rewrite IH by done. by rewrite (proj2 (Z.eqb_neq _ _) Hc).
Qed.

(** The pieces, put together again. *)
Lemma split_dots_join s first rest :
  split_dots s = (first, rest) → s = foldl (λ a b, a +:+ "." +:+ b) first rest.
Proof.
  assert (∀ (l : list string) c a, foldl (λ a b, a +:+ "." +:+ b) (String.String c a) l
    = String.String c (foldl (λ a b, a +:+ "." +:+ b) a l)) as Hcons.
  { induction l as [|b l IH]; intros c a; [done|]. simpl. apply IH. }
  revert first rest. induction s as [|c s IH]; intros first rest Heq; simpl in Heq; [by simplify_eq/=|].
  destruct (split_dots s) as [f r]. rewrite (IH f r eq_refl).
  destruct (Z.eqb_spec (byte_of c) 46) as [Hc|Hc]; simplify_eq/=.
  - assert (c = Ascii.ascii_of_N 46) as ->.
    { rewrite <-(Ascii.ascii_N_embedding c). unfold byte_of in Hc. f_equal. lia. }
    by rewrite <-Hcons.
  - by rewrite Hcons.
Qed.

Lemma lacks_split b s s' t t' c :
  byte_of c = b → lacks b s → lacks b s' →
  s +:+ String.String c t = s' +:+ String.String c t' → s = s' ∧ t = t'.
Proof.
  intros Hc. revert s'. induction s as [|x s IH]; intros [|x' s'] Hs Hs' Heq; simpl in Heq.
  - by simplify_eq/=.
  - injection Heq as <- _. by apply lacks_cons in Hs' as [? _].
  - injection Heq as -> _. by apply lacks_cons in Hs as [? _].
  - apply lacks_cons in Hs as [_ Hs], Hs' as [_ Hs']. injection Heq as <- Heq.
    destruct (IH s' Hs Hs' Heq) as [-> ->]. done.
Qed.

Lemma digits_lack b x s : ¬ 48 ≤ b ≤ 57 → lacks b s → lacks b (pretty_N_go x s).
Proof.
  intros Hb. revert s. induction (N.lt_wf_0 x) as [x _ IH]; intros s Hs.
  destruct (decide (0 < x)%N) as [Hx|Hx]; [|by replace x with 0%N by lia].
  rewrite pretty_N_go_step by done. apply IH; [apply N.div_lt; lia|].
  apply lacks_cons. split; [|done]. unfold pretty_N_char. repeat case_match; vm_compute; lia.
Qed.

Lemma pretty_lacks (z : Z) b : ¬ 48 ≤ b ≤ 57 → b ≠ 45 → lacks b (pretty z).
Proof.
  assert (∀ n : N, ¬ 48 ≤ b ≤ 57 → lacks b (pretty n)) as Hn.
  { intros n Hb. unfold pretty, pretty_N. case_decide; [|by apply digits_lack; [|intros c ?%elem_of_nil]].
    apply lacks_cons. split; [vm_compute; lia|by intros c ?%elem_of_nil]. }
  intros Hb H45. destruct z as [|p|p]; unfold pretty, pretty_Z; [apply (Hn 0%N)|apply (Hn (N.pos p))|]; try done.
  apply lacks_cons. split; [vm_compute; lia|]. by apply (Hn (N.pos p)).
Qed.

Lemma b64_lacks_dot bs : Forall is_byte bs → lacks 46 (b64_encode bs).
Proof. intros Hb c. by apply b64_no_dot. Qed.

(** ** Issued cursors *)
Section codec.
Context `{MacBytes, !Codec, !CursorJson} (vault : Vault).

Lemma signature_length text : byte_len (sign vault text) = 43.
Proof.
  unfold sign, byte_len, b64_encode. rewrite string_of_list_length, length_fmap.
  pose proof (hmac_length (session_secret vault) (bytes text)) as Hl.
  remember (hmac_sha256 _ _) as mac. clear Heqmac.
  do 32 (destruct mac as [|? mac]; [discriminate Hl|]). by destruct mac.
Qed.

Lemma verify_sign value signature : verify vault value signature = true ↔ signature = sign vault value.
Proof.
  unfold verify. rewrite bool_decide_eq_true. split; [|by intros ->].
  intros Heq. symmetry. by apply bytes_inj.
Qed.

Lemma payload_of_token payload :
  lacks 46 payload → payload ≠ "" →
  let token := "v1." +:+ payload +:+ "." +:+ sign vault (CURSOR_DOMAIN +:+ payload) in
  byte_len token ≤ MAX_CURSOR_BYTES → authenticated_payload vault token = Ok payload.
Proof.
  intros Hl Hne token Hlen. unfold authenticated_payload.
  rewrite (proj2 (Z.ltb_ge _ _) Hlen). unfold token.
  change ("v1." +:+ payload +:+ "." +:+ ?x) with ("v1" +:+ "." +:+ payload +:+ "." +:+ x).
  rewrite split_dots_app by (intros c Hc; set_unfold; naive_solver).
  rewrite split_dots_app by done. simpl.
  rewrite split_dots_whole by (apply b64_lacks_dot, hmac_bytes). simpl.
  rewrite signature_length. destruct payload as [|c payload]; [done|]. simpl.
  by rewrite (proj2 (verify_sign _ _) eq_refl).
Qed.

(** What a reader gets for the claims of a genuine cursor. *)
Definition verdict (claims : Claims) (scope : list Z) (inc : Uuid) (s : CursorStream) (now : Z)
    (retained : RetainedFrom) : Result CursorPosition CursorError :=
  if (incarnation claims =? inc) && bool_decide (scope_digest claims = scope)
     && bool_decide (stream claims = s) && (issued_at_ms claims <=? now)
  then if expires_at_ms claims <=? now then Err CursorExpired
       else match retention_gap (position claims) retained with
            | Ok true => Err CursorRetentionGap
            | Ok false => Ok (position claims)
            | Err e => Err e
            end
  else Err CursorInvalid.

(** C17: an issued cursor is good for its reader.  Its position comes back for
    the scope, incarnation and stream it was issued for, from its issue until
    it expires, while the position is retained; any other reader or stream and
    an earlier clock get [Invalid], a late reader [Expired], and one whose
    position is gone [RetentionGap]. *)
Theorem issued_cursor_verdict scope inc s p now expires token scope' inc' s' now' retained :
  CursorCodec_issue vault scope inc s p now expires = Ok token →
  CursorCodec_verify vault token scope' inc' s' now' retained =
  verdict {| version := 1; incarnation := inc; scope_digest := scope; stream := s; position := p;
             issued_at_ms := now; expires_at_ms := expires |} scope' inc' s' now' retained.
Proof.
  unfold CursorCodec_issue. intros Hi. inv_result. rename x into u, Hx into Ht, x0 into u', Hx0 into Hp.
  destruct u, u'. pose proof (claims_json_bytes _ _ Hx1) as Hb. pose proof (claims_json_text _ _ Hx1) as Hne.
  unfold CursorCodec_verify. rewrite payload_of_token; [|by apply b64_lacks_dot| |by apply Z.ltb_ge].
  2: { intros He. apply (f_equal b64_decode) in He. rewrite b64_decode_encode in He by done.
       by injection He as ->. }
  cbn [result_bind]. rewrite b64_decode_encode by done. cbn [ok_or result_bind]. rewrite String.eqb_refl. simpl negb.
  rewrite (claims_of_json_json _ _ Hx1). simpl. rewrite Ht, Hp. simpl. unfold verdict. simpl.
  destruct (inc =? inc'), (bool_decide (scope = scope')), (bool_decide (s = s')); simpl; try done.
  rewrite (Z.leb_antisym now' now). destruct (now' <? now); [done|]. simpl. destruct (expires <=? now'); [done|].
  by destruct (retention_gap p retained) as [[]|].
Qed.

(** An accepted cursor was signed.  It is the text [v1.payload.signature]
    with the vault's signature of that payload, and what the payload says is
    for this scope, incarnation and stream, in its time, which is at most
    thirty days, at a position of the stream's kind that is retained. *)
Theorem accepted_cursor_is_genuine token scope inc s now retained p :
  CursorCodec_verify vault token scope inc s now retained = Ok p →
  ∃ payload json claims,
    token = "v1." +:+ payload +:+ "." +:+ sign vault (CURSOR_DOMAIN +:+ payload)
    ∧ b64_decode payload = Some json ∧ claims_of_json json = Some claims
    ∧ scope_digest claims = scope ∧ incarnation claims = inc ∧ stream claims = s ∧ position claims = p
    ∧ issued_at_ms claims ≤ now < expires_at_ms claims
    ∧ expires_at_ms claims - issued_at_ms claims ≤ MAX_CURSOR_LIFETIME_MS
    ∧ compatible s p = true ∧ retention_gap p retained = Ok false.
Proof.
  unfold CursorCodec_verify. intros Hv. inv_result.
  rename x into payload, x0 into json, x1 into claims. unfold authenticated_payload in Hx. inv_result.
  destruct (split_dots token) as [v [|pl [|signature [|]]]] eqn:Hs; try done. inv_result.
  apply split_dots_join in Hs. simpl in Hs. bool_to_prop. simplify_eq/=.
  match goal with Hg : verify _ _ _ = true |- _ => apply verify_sign in Hg as -> end.
  unfold check_times, check_position, i64_checked_sub in *. inv_result. bool_to_prop.
  eexists _, json, claims. split_and!; try done; try lia.
Qed.
End codec.

(** ** Scopes of agents *)
Section scopes.
Context `{UuidText, Codec, CursorJson}.

Lemma to_string_same u u' :
  0 ≤ u < 2 ^ 128 → 0 ≤ u' < 2 ^ 128 → to_string u = to_string u' → u = u'.
Proof.
  intros Hu Hu' Heq. apply (f_equal parse_str) in Heq. rewrite !parse_to_string in Heq by done. congruence.
Qed.

Record session_ids (s : ExpectedAgentSession) : Prop := {
  host_uuid : 0 ≤ es_host_id s < 2 ^ 128;
  incarnation_uuid : 0 ≤ es_control_plane_incarnation s < 2 ^ 128;
  session_uuid : 0 ≤ es_authority_session_id s < 2 ^ 128 }.

Definition colon (s : string) : string := String.String (Ascii.ascii_of_N 58) s.

Lemma after_id u u' t t' :
  0 ≤ u < 2 ^ 128 → 0 ≤ u' < 2 ^ 128 → to_string u +:+ colon t = to_string u' +:+ colon t' → u = u' ∧ t = t'.
Proof.
  intros Hu Hu' Heq. apply same_length_split in Heq as [Heq Ht]; [|by rewrite !to_string_length].
  unfold colon in Ht. simplify_eq. split; [|done]. by apply to_string_same.
Qed.

Lemma agent_key_inj s s' :
  session_ids s → session_ids s' → agent_key s = agent_key s' →
  es_host_id s = es_host_id s' ∧ es_host_epoch s = es_host_epoch s'
  ∧ es_control_plane_incarnation s = es_control_plane_incarnation s'
  ∧ es_authority_session_id s = es_authority_session_id s'
  ∧ es_credential_generation s = es_credential_generation s'.
Proof.
  intros [Hh Hi Hs] [Hh' Hi' Hs'] Heq. unfold agent_key in Heq. apply (inj (String.append "agent:")) in Heq.
  apply after_id in Heq as [-> Heq]; [|done..].
  apply (lacks_split 58) in Heq as [He Heq];
    [|vm_compute; lia|apply pretty_lacks; lia|apply pretty_lacks; lia].
  apply (inj pretty) in He as ->.
  apply after_id in Heq as [-> Heq]; [|done..]. apply after_id in Heq as [-> Heq]; [|done..].
  by apply (inj pretty) in Heq as ->.
Qed.

(** An agent's cursor scope fences the agent.  Two agent scopes are the
    same only for the same host, epoch, incarnation, authority session,
    credential generation, resource and query; the digests of the two are
    assumed not to collide. *)
Theorem agent_scopes_differ s s' resource resource' query query' d :
  session_ids s → session_ids s' →
  (let text := scope_json (agent_key s) resource query in
   let text' := scope_json (agent_key s') resource' query' in
   sha256 text = sha256 text' → text = text') →
  for_agent s resource query = Ok d → for_agent s' resource' query' = Ok d →
  es_host_id s = es_host_id s' ∧ es_host_epoch s = es_host_epoch s'
  ∧ es_control_plane_incarnation s = es_control_plane_incarnation s'
  ∧ es_authority_session_id s = es_authority_session_id s'
  ∧ es_credential_generation s = es_credential_generation s' ∧ resource = resource' ∧ query = query'.
Proof.
  intros Hs Hs' Hcol Hd Hd'. unfold for_agent, CursorScope_new in *. inv_result. simpl in *.
  assert (scope_json (agent_key s) resource query = scope_json (agent_key s') resource' query') as Ht
    by (apply Hcol; congruence).
  destruct (scope_json_inj _ _ _ _ _ _ Ht) as (Hk & -> & ->).
  destruct (agent_key_inj _ _ Hs Hs' Hk) as (-> & -> & -> & -> & ->). done.
Qed.
End scopes.

(** ** A codec whose texts are the bits of an encoding *)
Module SampleCursor.
#[local] Instance stream_countable : Countable CursorStream.
Proof.
  refine (inj_countable (λ s, match s with
    | StreamHosts => 0 | StreamBackends => 1 | StreamDomains => 2 | StreamRunners => 3 | StreamSamples => 4
    | StreamFleetEvents => 5 | StreamHostEvents => 6 | StreamCommands => 7 | StreamAgentEvents => 8
    | StreamLogs => 9 | StreamArtifacts => 10 | StreamExternalRunners => 11 end)
    (λ n, [StreamHosts; StreamBackends; StreamDomains; StreamRunners; StreamSamples; StreamFleetEvents;
           StreamHostEvents; StreamCommands; StreamAgentEvents; StreamLogs; StreamArtifacts;
           StreamExternalRunners] !! Z.to_nat n) _). by intros [].
Defined.
#[local] Instance position_dec : EqDecision CursorPosition.
Proof. solve_decision. Defined.
#[local] Instance position_countable : Countable CursorPosition.
Proof.
  refine (inj_countable' (λ p, match p with
    | RowPosition n => inl (inl n) | EntityPosition n => inl (inr n)
    | LegacyEntityPosition s => inr (inl s) | BytesPosition n => inr (inr n) end)
    (λ p, match p with
    | inl (inl n) => RowPosition n | inl (inr n) => EntityPosition n
    | inr (inl s) => LegacyEntityPosition s | inr (inr n) => BytesPosition n end) _). by intros [].
Defined.
#[local] Instance claims_dec : EqDecision Claims.
Proof. solve_decision. Defined.
#[local] Instance claims_countable : Countable Claims.
Proof.
  refine (inj_countable' (λ c, (version c, incarnation c, scope_digest c, stream c, position c,
                                issued_at_ms c, expires_at_ms c))
    (λ '(v, i, d, s, p, a, b), {| version := v; incarnation := i; scope_digest := d; stream := s;
       position := p; issued_at_ms := a; expires_at_ms := b |}) _). by intros [].
Defined.

Fixpoint bits (p : positive) : list Z :=
  match p with xH => [2] | xO p => 0 :: bits p | xI p => 1 :: bits p end.
Fixpoint of_bits (l : list Z) : option positive :=
  match l with
  | [] => None
  | [_] => Some xH
  | b :: l => p ← of_bits l; Some (if b =? 0 then xO p else xI p)
  end.

Lemma of_bits_bits p : of_bits (bits p) = Some p.
Proof.
  assert (∀ b p, of_bits (b :: bits p) = (p ← of_bits (bits p); Some (if b =? 0 then xO p else xI p))) as Hc.
  { intros b q. by destruct q. }
  induction p as [p IH|p IH|]; cbn [bits]; [rewrite Hc, IH|rewrite Hc, IH|]; done.
Qed.

#[local, program] Instance json : CursorJson :=
  {| claims_json c := Some (bits (encode c)); claims_of_json l := of_bits l ≫= decode;
     scope_json p r q := bits (encode (p, r, q)) |}.
Next Obligation. intros c bs [= <-]. generalize (encode c). intros p. induction p; repeat constructor; done. Qed.
Next Obligation. intros c bs [= <-]. by destruct (encode c). Qed.
Next Obligation. intros c bs [= <-]. rewrite of_bits_bits. simpl. apply decode_encode. Qed.
Next Obligation.
  intros p r q p' r' q' Heq. apply (f_equal of_bits) in Heq. rewrite !of_bits_bits in Heq.
  injection Heq as Heq. apply (inj encode) in Heq. by simplify_eq.
Qed.

(** A MAC of 32 bytes: as many of the text's own, from its end. *)
#[local, program] Instance aead : Aead :=
  {| aes_encrypt _ _ text := Some text; aes_decrypt _ _ sealed := Some sealed;
     hmac_sha256 _ value := take 32 (((λ b, b mod 256) <$> rev value) ++ replicate 32 0) |}.
Next Obligation. by intros ? ? ? ? [= <-]. Qed.
Next Obligation. by intros ? ? ? ? [= <-]. Qed.

#[local] Instance mac : MacBytes.
Proof.
  split; intros key text; cbn [hmac_sha256 aead].
  - rewrite length_take, length_app, length_replicate. lia.
  - apply Forall_take, Forall_app. split; [|by apply Forall_replicate].
    apply Forall_fmap, Forall_forall. intros b _. simpl. unfold is_byte. pose proof (Z.mod_pos_bound b 256). lia.
Qed.

#[local] Existing Instance Plain.codec.
#[local] Existing Instance Hyphenated.uuid_text.

Definition token : Result string CursorError :=
  CursorCodec_issue PlainAead.vault [1; 2] 7 StreamCommands (RowPosition 40) 1000 61000.
Definition token_text : string := match token with Ok t => t | Err _ => "" end.

Lemma issued_cursor_verdict_witness :
  CursorCodec_verify PlainAead.vault token_text [1; 2] 7 StreamCommands 60999 (RetainedRow 41) = Ok (RowPosition 40)
  ∧ CursorCodec_verify PlainAead.vault token_text [1; 2] 7 StreamCommands 60999 (RetainedRow 42) = Err CursorRetentionGap
  ∧ CursorCodec_verify PlainAead.vault token_text [1; 2] 7 StreamCommands 61000 (RetainedRow 41) = Err CursorExpired
  ∧ CursorCodec_verify PlainAead.vault token_text [1; 3] 7 StreamCommands 2000 (RetainedRow 41) = Err CursorInvalid.
Proof.
  assert (token = Ok token_text) as Hi by by vm_compute.
  split_and!; exact (issued_cursor_verdict PlainAead.vault [1; 2] 7 StreamCommands (RowPosition 40) 1000 61000
    token_text _ _ _ _ _ Hi).
Defined.

Lemma accepted_cursor_is_genuine_witness :
  ∃ payload, token_text = "v1." +:+ payload +:+ "." +:+ sign PlainAead.vault (CURSOR_DOMAIN +:+ payload).
Proof.
  assert (CursorCodec_verify PlainAead.vault token_text [1; 2] 7 StreamCommands 5000 (RetainedRow 0)
          = Ok (RowPosition 40)) as Hv by by vm_compute.
  destruct (accepted_cursor_is_genuine _ _ _ _ _ _ _ _ Hv) as (payload & json & claims & Ht & _).
  exists payload. exact Ht.
Defined.

Definition session (generation : Z) : ExpectedAgentSession :=
  {| es_host_id := 11; es_host_epoch := 1; es_control_plane_incarnation := 12; es_authority_session_id := 13;
     es_credential_generation := generation; es_authority_expires_at := 5 |}.

(** The digest as the identity, for texts to be compared by. *)
Definition whole : Codec := {| sha256 := id; envelope_json e := None |}.

Lemma agent_scopes_differ_witness :
  for_agent (H0:=whole) (session 1) "host" "q" ≠ for_agent (H0:=whole) (session 2) "host" "q".
Proof.
  intros Heq. destruct (for_agent (H0:=whole) (session 2) "host" "q") as [d|e] eqn:Hd; [|by vm_compute in Hd].
  assert (session_ids (session 1)) as H1 by by split. assert (session_ids (session 2)) as H2 by by split.
  pose proof (agent_scopes_differ (H0:=whole) (session 1) (session 2) "host" "host" "q" "q" d H1 H2
    (λ H, H) Heq Hd) as Hall.
  by destruct Hall as (_ & _ & _ & _ & Hg & _).
Defined.
End SampleCursor.
