(* ===== verification/Output.v ===== *)
(** * Console output of runners
    ([crates/gridops-core/src/fleet/registry/output.rs],
    [src/migrations/0033_fleet_runner_output.sql]).

    A chunk says where in the runner's output it starts.  It is written to a
    file between two transactions, under a lock of the process ([FILE_WRITES]),
    so appends do not interleave with each other; everything else may commit
    before each of their actions ([others]), and every action may fail or be the
    last one of the process ([Fault]).  Files are those of the log directory;
    nothing else writes or removes the file of a stream while its row exists. *)
From stdpp Require Import pretty.
From S2P Require Import Prelude Base64 Ids Domain Protocol Outcomes Crypto Store Service Commands.
#[local] Open Scope string_scope.
#[local] Open Scope Z_scope.

(** ** Standard base64, with padding *)
Definition standard_digit (c : Ascii.ascii) : option Z :=
  let n := byte_of c in
  if (65 <=? n) && (n <=? 90) then Some (n - 65)
  else if (97 <=? n) && (n <=? 122) then Some (n - 71)
  else if (48 <=? n) && (n <=? 57) then Some (n + 4)
  else if n =? 43 then Some 62
  else if n =? 47 then Some 63 else None.

Definition strip_pad (l : list Ascii.ascii) : list Ascii.ascii :=
  match l with
  | c :: l' => if byte_of c =? 61 then l' else l
  | [] => []
  end.

(** [STANDARD.decode]: whole groups of four, padded with at most two [=]. *)
Definition standard_decode (s : string) : option (list Z) :=
  let l := String.list_ascii_of_string s in
  if negb (Z.of_nat (length l) mod 4 =? 0) then None else
  mapM standard_digit (rev (strip_pad (strip_pad (rev l)))) ≫= of_digits.

(** ** Tables *)
Record LogStreamRow := {
  ls_id : string; ls_runner_id : option string; ls_job_id : option Z; ls_installation_id : option Z;
  ls_runner_name : string; ls_pool_name : string; ls_source : string;
  ls_path : string; ls_size_bytes : Z; ls_complete : bool; ls_expires_at : option Z;
  ls_created_at : Z; ls_updated_at : Z }.
#[export] Instance LogStreamRow_fields : Fields LogStreamRow := λ x,
  {| ls_id := ls_id x; ls_runner_id := ls_runner_id x; ls_job_id := ls_job_id x;
     ls_installation_id := ls_installation_id x; ls_runner_name := ls_runner_name x;
     ls_pool_name := ls_pool_name x; ls_source := ls_source x;
     ls_path := ls_path x; ls_size_bytes := ls_size_bytes x; ls_complete := ls_complete x;
     ls_expires_at := ls_expires_at x; ls_created_at := ls_created_at x; ls_updated_at := ls_updated_at x |}.

Record OutputStreamRow := { os_placement_id : string; os_log_stream_id : string; os_received_bytes : Z }.

(** [runners.current_job_id] and [runners.last_job_id]. *)
Record RunnerJobRow := { rj_runner_id : string; rj_current_job_id : option Z; rj_last_job_id : option Z }.

Record OutputDb := {
  od_policy : Policy; od_work : Work; runner_jobs : list RunnerJobRow;
  log_streams : list LogStreamRow; fleet_output_streams : list OutputStreamRow }.

(** ** Requests *)
Record RunnerOutputChunk := {
  oc_authority_session_id : Uuid; oc_placement_id : Uuid; oc_offset : Z; oc_data : string;
  oc_finished : bool }.
Record RunnerOutputReceipt := { or_received : Z; or_finished : bool }.

(** A placement's output stream as stored. *)
Record Stream := {
  stream_id : string; stream_path : string; stream_size : Z; stream_received : Z; stream_new : bool }.

Definition MAX_OUTPUT_CHUNK_BYTES : Z := 256 * 1024.
Definition MAX_STREAM_BYTES : Z := 32 * 1024 * 1024.
Definition KEEP_STREAM_BYTES : Z := 16 * 1024 * 1024.

(** ** Transactions *)
Section tables.
Context `{UuidText}.

Definition authorize_output (db : OutputDb) (auth : AuthenticatedHost) (chunk : RunnerOutputChunk) (now : Z)
    : Result string RegistryError :=
  let? _ := ensure_authenticated_generation (od_policy db) auth now in
  let host := to_string (ah_host_id auth) in
  let authorized := match fetch (λ h, String.eqb (h_id h) host) (fleet_hosts (od_policy db)) with
                    | Some h => eq_sql (h_agent_session_id h) (Some (to_string (oc_authority_session_id chunk)))
                                && match h_authority_expires_at h with Some t => now <? t | None => false end
                    | None => false
                    end in
  if negb authorized then Err RegForbidden else
  let mine p := String.eqb (pl_id p) (to_string (oc_placement_id chunk)) && String.eqb (pl_host_id p) host
                && (pl_host_epoch p =? Z.min (ah_epoch auth) i64_max) in
  ok_or RegNotFound
    (head (omap (λ p, if mine p then
                        runner ← pl_runner_id p;
                        if exists_row (λ r, String.eqb (rn_id r) runner) (runners (od_policy db))
                        then Some runner else None
                      else None) (workload_placements (od_work db)))).

(** The join of a placement's output stream with its log stream. *)
Definition output_row (db : OutputDb) (placement : string) : option (OutputStreamRow * LogStreamRow) :=
  head (omap (λ o, if String.eqb (os_placement_id o) placement
                   then s ← fetch (λ s, String.eqb (ls_id s) (os_log_stream_id o)) (log_streams db); Some (o, s)
                   else None) (fleet_output_streams db)).

Definition new_stream (id : string) : Stream :=
  {| stream_id := id; stream_path := id +:+ ".log"; stream_size := 0; stream_received := 0;
     stream_new := true |}.

Definition stored_stream (o : OutputStreamRow) (s : LogStreamRow) : Stream :=
  {| stream_id := ls_id s; stream_path := ls_path s; stream_size := Z.max (ls_size_bytes s) 0;
     stream_received := Z.max (os_received_bytes o) 0; stream_new := false |}.

(** The value of the setting [logRetentionDays], read by serde. *)
Context (read_days : string → option Z).

Definition retention_days (db : OutputDb) : Z :=
  default 30 (s ← fetch (λ s, String.eqb (set_key s) "logRetentionDays") (settings (od_policy db));
              read_days (set_value s)).

(** The two inserts for the first chunk, with the keys of the tables; the
    repository's name, which nothing reads, is left out. *)
Definition insert_stream (db : OutputDb) (chunk : RunnerOutputChunk) (runner : string) (s : Stream)
    (path : string) (now : Z) : Result OutputDb RegistryError :=
  let p := od_policy db in
  let? r := ok_or RegDatabase (fetch (λ r, String.eqb (rn_id r) runner) (runners p)) in
  let? pool := ok_or RegDatabase (fetch (λ q, String.eqb (pool_id q) (rn_pool_id r)) (runner_pools p)) in
  let row :=
    {| ls_id := stream_id s; ls_runner_id := Some runner; ls_job_id := None;
       ls_installation_id := pool_installation_id pool; ls_runner_name := rn_name r;
       ls_pool_name := pool_name pool;
       ls_source := rn_provider r; ls_path := path; ls_size_bytes := 0; ls_complete := false;
       ls_expires_at := Some (i64_saturating_add now (i64_saturating_mul (retention_days db) 86400000));
       ls_created_at := now; ls_updated_at := now |} in
  let placement := to_string (oc_placement_id chunk) in
  if exists_row (λ x, String.eqb (ls_id x) (stream_id s)) (log_streams db)
     || exists_row (λ o, String.eqb (os_placement_id o) placement
                         || String.eqb (os_log_stream_id o) (stream_id s)) (fleet_output_streams db)
  then Err RegDatabase
  else Ok {| od_policy := p; od_work := od_work db; runner_jobs := runner_jobs db;
             log_streams := log_streams db ++ [row];
             fleet_output_streams := fleet_output_streams db
               ++ [{| os_placement_id := placement; os_log_stream_id := stream_id s;
                      os_received_bytes := 0 |}] |}.

(** The job of the runner, when its output ends. *)
Definition job_of_runner (db : OutputDb) (runner : string) : option Z :=
  x ← fetch (λ x, String.eqb (rj_runner_id x) runner) (runner_jobs db);
  job ← match rj_current_job_id x with Some job => Some job | None => rj_last_job_id x end;
  if exists_row (λ j, wj_id j =? job) (workflow_jobs (od_policy db)) then Some job else None.

(** The two updates, each on a row. *)
Definition recorded_row (chunk : RunnerOutputChunk) (path : string) (size now : Z) (job : option Z)
    (x : LogStreamRow) : LogStreamRow :=
  x <| ls_path := path |> <| ls_size_bytes := Z.min size i64_max |> <| ls_complete := oc_finished chunk |>
    <| ls_updated_at := now |>
    <| ls_job_id := if oc_finished chunk
                    then match ls_job_id x with Some j => Some j | None => job end
                    else ls_job_id x |>.
Definition received_row (received : Z) (o : OutputStreamRow) : OutputStreamRow :=
  {| os_placement_id := os_placement_id o; os_log_stream_id := os_log_stream_id o;
     os_received_bytes := Z.min received i64_max |}.

Definition record_output (db : OutputDb) (auth : AuthenticatedHost) (chunk : RunnerOutputChunk)
    (runner : string) (s : Stream) (path : string) (size received now : Z)
    : Result (OutputDb * bool) RegistryError :=
  let? _ := authorize_output db auth chunk now in
  let? db := (if stream_new s then insert_stream db chunk runner s path now else Ok db) in
  let open x := String.eqb (ls_id x) (stream_id s) && negb (ls_complete x) in
  if negb (exists_row open (log_streams db)) then Ok (db, false) else
  Ok ({| od_policy := od_policy db; od_work := od_work db; runner_jobs := runner_jobs db;
         log_streams := update_where open (recorded_row chunk path size now (job_of_runner db runner)) (log_streams db);
         fleet_output_streams :=
           update_where (λ o, String.eqb (os_log_stream_id o) (stream_id s)) (received_row received)
             (fleet_output_streams db) |}, true).
End tables.

(** ** Files and their faults *)
Notation Files := (gmap string (list Z)).

(** What happens at an action: it succeeds, it fails, or the process ends with
    it.  The number says how much of it was done before. *)
Inductive Fault := Fine | Fails (progress : nat) | Dies (progress : nat).

Record Disk := { st_db : OutputDb; st_files : Files; st_step : nat }.

Class Circumstances := {
  fault : nat → Fault;
  others : nat → OutputDb → OutputDb;
  clock_at : nat → Z;
  drawn : nat → Uuid }.

Inductive Trouble := Refused (e : RegistryError) | Died.
Definition Act (A : Type) : Type := Disk → Result A Trouble * Disk.
#[export] Instance Act_ret : MRet Act := λ A a w, (Ok a, w).
#[export] Instance Act_bind : MBind Act := λ A B k c w,
  match c w with
  | (Ok a, w) => k a w
  | (Err e, w) => (Err e, w)
  end.
Definition rejects {A} (e : RegistryError) : Act A := λ w, (Err (Refused e), w).

(** [let r = action.await;]: an error is a value, the end of the process is not. *)
Definition attempt {A} (c : Act A) : Act (Result A RegistryError) := λ w,
  match c w with
  | (Ok a, w) => (Ok (Ok a), w)
  | (Err (Refused e), w) => (Ok (Err e), w)
  | (Err Died, w) => (Err Died, w)
  end.

Section actions.
Context `{Circumstances}.

Definition arrive (w : Disk) : Disk :=
  {| st_db := others (st_step w) (st_db w); st_files := st_files w; st_step := S (st_step w) |}.

Definition read_clock : Act Z := λ w, (Ok (clock_at (st_step w)), w).
Definition draw : Act Uuid := λ w,
  (Ok (drawn (st_step w)), {| st_db := st_db w; st_files := st_files w; st_step := S (st_step w) |}).

(** A transaction, which an ending process may still have committed. *)
Definition transaction {A} (f : OutputDb → Result (OutputDb * A) RegistryError) : Act A := λ w,
  let w := arrive w in
  let commit db := {| st_db := db; st_files := st_files w; st_step := st_step w |} in
  match fault (st_step w), f (st_db w) with
  | Fine, Ok (db, a) => (Ok a, commit db)
  | Fine, Err e => (Err (Refused e), w)
  | Fails _, _ => (Err (Refused RegDatabase), w)
  | Dies O, _ => (Err Died, w)
  | Dies (S _), Ok (db, _) => (Err Died, commit db)
  | Dies (S _), Err _ => (Err Died, w)
  end.

(** An action on the files; [f] is told how much of it is done, [None] for all
    of it, and answers nothing when the system rejects it. *)
Definition on_files {A} (f : option nat → Files → option (A * Files)) : Act A := λ w,
  let w := arrive w in
  let leave fs := {| st_db := st_db w; st_files := fs; st_step := st_step w |} in
  match fault (st_step w) with
  | Fine => match f None (st_files w) with
            | Some (a, fs) => (Ok a, leave fs)
            | None => (Err (Refused Storage), w)
            end
  | Fails n => (Err (Refused Storage),
                match f (Some n) (st_files w) with Some (_, fs) => leave fs | None => w end)
  | Dies n => (Err Died, match f (Some n) (st_files w) with Some (_, fs) => leave fs | None => w end)
  end.

(** Done or not done at all. *)
Definition whole {A} (f : Files → option (A * Files)) (done : option nat) (fs : Files) : option (A * Files) :=
  match done with None | Some (S _) => f fs | Some O => None end.

Definition resize (n : nat) (f : list Z) : list Z := take n f ++ replicate (n - length f) 0.
Definition write_at (n : nat) (data f : list Z) : list Z := take n f ++ data ++ drop (n + length data) f.

Definition create_dir : Act unit := on_files (whole (λ fs, Some (tt, fs))).
Definition open_create (path : string) : Act unit :=
  on_files (whole (λ fs, Some (tt, <[path := default [] (fs !! path)]> fs))).
Definition set_len (path : string) (n : Z) : Act unit :=
  on_files (whole (λ fs, f ← fs !! path; Some (tt, <[path := resize (Z.to_nat n) f]> fs))).
Definition write_all (path : string) (n : Z) (data : list Z) : Act unit :=
  on_files (λ done fs, f ← fs !! path;
            let data := match done with None => data | Some k => take k data end in
            Some (tt, <[path := write_at (Z.to_nat n) data f]> fs)).
Definition flush : Act unit := on_files (whole (λ fs, Some (tt, fs))).
Definition fs_write (path : string) (data : list Z) : Act unit :=
  on_files (λ done fs, let data := match done with None => data | Some k => take k data end in
                       Some (tt, <[path := data]> fs)).
Definition read_at (path : string) (n count : Z) : Act (list Z) :=
  on_files (whole (λ fs, f ← fs !! path; Some (take (Z.to_nat count) (drop (Z.to_nat n) f), fs))).
Definition remove_file (path : string) : Act unit :=
  on_files (whole (λ fs, _ ← fs !! path; Some (tt, delete path fs))).

(** ** Appending *)
(** [position(|b| b == '\n').map_or(0, |n| n + 1)], and the drain. *)
Fixpoint from_next_line (l : list Z) : option (list Z) :=
  match l with
  | [] => None
  | b :: l => if b =? 10 then Some l else from_next_line l
  end.

Definition newest_output (path : string) (size : Z) (fresh : list Z) : Act (list Z) :=
  let kept := Z.min (Z.max (KEEP_STREAM_BYTES - Z.of_nat (length fresh)) 0) size in
  found ← read_at path (size - kept) kept;
  let output := (found ++ fresh)%list in
  mret (default output (from_next_line output)).

(** The file's part: the path and the size to record. *)
Definition write_output (s : Stream) (fresh : list Z) (end_ : Z) : Act (string * Z) :=
  if bool_decide (fresh = []) then mret (stream_path s, stream_size s)
  else if stream_size s + Z.of_nat (length fresh) <=? MAX_STREAM_BYTES then
    _ ← create_dir;
    _ ← open_create (stream_path s);
    _ ← set_len (stream_path s) (stream_size s);
    _ ← write_all (stream_path s) (stream_size s) fresh;
    _ ← flush;
    mret (stream_path s, stream_size s + Z.of_nat (length fresh))
  else
    kept ← newest_output (stream_path s) (stream_size s) fresh;
    let next := stream_id s +:+ "." +:+ pretty end_ +:+ ".log" in
    _ ← fs_write next kept;
    mret (next, Z.of_nat (length kept)).

Context `{UuidText} (read_days : string → option Z).

(** The first transaction: the runner, and the stream if there is one. *)
Definition read_output (auth : AuthenticatedHost) (chunk : RunnerOutputChunk) (now : Z) (db : OutputDb)
    : Result (OutputDb * (string * option (OutputStreamRow * LogStreamRow))) RegistryError :=
  let? runner := authorize_output db auth chunk now in
  Ok (db, (runner, output_row db (to_string (oc_placement_id chunk)))).

Definition append_to (auth : AuthenticatedHost) (chunk : RunnerOutputChunk) (data : list Z) (end_ : Z)
    (runner : string) (s : Stream) : Act RunnerOutputReceipt :=
  let skip := Z.min (Z.max (stream_received s - oc_offset chunk) 0) (Z.of_nat (length data)) in
  let fresh := drop (Z.to_nat skip) data in
  '(path, size) ← write_output s fresh end_;
  let received := Z.max (stream_received s) end_ in
  now ← read_clock;
  recorded ← attempt (transaction (λ db, record_output read_days db auth chunk runner s path size received now));
  _ ← (if String.eqb path (stream_path s) then mret tt
       else _ ← attempt (remove_file (match recorded with Ok true => stream_path s | _ => path end)); mret tt);
  match recorded with
  | Err e => rejects e
  | Ok false => mret {| or_received := stream_received s; or_finished := true |}
  | Ok true => mret {| or_received := received; or_finished := oc_finished chunk |}
  end.

Definition append_runner_output (auth : AuthenticatedHost) (chunk : RunnerOutputChunk)
    : Act RunnerOutputReceipt :=
  match standard_decode (oc_data chunk) with
  | None => rejects (RegInvalidRequest "runner output is not base64")
  | Some data =>
      if MAX_OUTPUT_CHUNK_BYTES <? Z.of_nat (length data)
      then rejects (RegInvalidRequest "runner output chunk is too large") else
      let end_ := oc_offset chunk + Z.of_nat (length data) in
      if i64_max <? end_ then rejects (RegInvalidRequest "runner output offset is too large") else
      now ← read_clock;
      '(runner, found) ← transaction (read_output auth chunk now);
      match found with
      | Some (o, row) =>
          if ls_complete row
          then mret {| or_received := Z.max (os_received_bytes o) 0; or_finished := true |}
          else append_to auth chunk data end_ runner (stored_stream o row)
      | None =>
          id ← draw;
          append_to auth chunk data end_ runner (new_stream (to_string id))
      end
  end.
End actions.
