(* ===== verification/OutputSpec.v ===== *)
(** * The stored output of a runner is what the runner wrote.

    [good]: for every stream, the part of its file that its row counts is the
    end of what was received of the runner's output.  It holds before and after
    every action of an append, so it holds wherever an append fails or the
    process ends. *)
From stdpp Require Import pretty.
From S2P Require Import Prelude Base64 Ids Domain Protocol Outcomes Crypto Store Service AdmissionSpec Commands Placement Fleet Output.
#[local] Open Scope string_scope.
#[local] Open Scope Z_scope.

(** ** Lists *)
Definition last_bytes (n : Z) (l : list Z) : list Z := drop (length l - Z.to_nat n) l.

Lemma last_bytes_app n m a b :
  m = Z.of_nat (length b) → 0 ≤ n → last_bytes (n + m) (a ++ b)%list = (last_bytes n a ++ b)%list.
Proof.
  intros -> Hn. unfold last_bytes. rewrite length_app, drop_app_le by lia.
  f_equal. f_equal. lia.
Qed.

Lemma last_bytes_all l : last_bytes (Z.of_nat (length l)) l = l.
Proof. unfold last_bytes. by replace (length l - Z.to_nat (Z.of_nat (length l)))%nat with 0%nat by lia. Qed.

Lemma last_bytes_of a b : last_bytes (Z.of_nat (length b)) (a ++ b)%list = b.
Proof. unfold last_bytes. rewrite length_app, drop_app_ge by lia. 
  by replace (length a + length b - Z.to_nat (Z.of_nat (length b)) - length a)%nat with 0%nat by lia. Qed.

Lemma last_bytes_nil n l : n ≤ 0 → last_bytes n l = [].
Proof. intros Hn. unfold last_bytes. apply drop_ge. lia. Qed.

Lemma last_bytes_suffix n l k : l = last_bytes n k → ∃ a, k = (a ++ l)%list.
Proof. intros ->. exists (take (length k - Z.to_nat n) k). unfold last_bytes. by rewrite take_drop. Qed.

Lemma from_next_line_suffix l t : from_next_line l = Some t → ∃ a, l = (a ++ t)%list.
Proof.
  induction l as [|b l IH]; simpl; [done|]. case_match.
  - intros [= <-]. by exists [b].
  - intros [a ->]%IH. by exists (b :: a).
Qed.

(** ** What a chunk adds *)
Section text.
Context (O : list Z).
Definition so_far (n : Z) : list Z := take (Z.to_nat n) O.

(** The stored end of what was received, followed by the fresh part of an
    honest chunk, is the end of what is received then. *)
Lemma fresh_extends offset len received size :
  0 ≤ offset → 0 ≤ len → offset + len ≤ Z.of_nat (length O) → 0 ≤ size ≤ received →
  received ≤ Z.of_nat (length O) → offset ≤ received ∨ size = 0 →
  let data := take (Z.to_nat len) (drop (Z.to_nat offset) O) in
  let skip := Z.min (Z.max (received - offset) 0) (Z.of_nat (length data)) in
  let fresh := drop (Z.to_nat skip) data in
  let size' := size + Z.of_nat (length fresh) in
  let received' := Z.max received (offset + len) in
  size' ≤ received' ∧ (last_bytes size (so_far received) ++ fresh)%list = last_bytes size' (so_far received').
Proof.
  intros Ho Hl Hend Hs Hr Hor data skip fresh size' received'.
  assert (length data = Z.to_nat len) as Hd by (unfold data; rewrite length_take, length_drop; lia).
  assert (length fresh = Z.to_nat (len - skip)) as Hf by (unfold fresh; rewrite length_drop; lia).
  assert (0 ≤ skip ≤ len) as Hskip by lia.
  assert (fresh = drop (Z.to_nat (offset + skip)) (so_far (offset + len))) as Hfr.
  { unfold fresh, data, so_far. rewrite take_drop_commute, drop_drop. f_equal; [lia|]. f_equal. lia. }
  destruct (decide (fresh = [])) as [He|Hne].
  { assert (skip = len) by (rewrite He in Hf; simpl in Hf; lia). rewrite He, app_nil_r.
    subst size'. rewrite He. cbn [length]. change (Z.of_nat 0) with 0. rewrite Z.add_0_r.
    destruct (decide (offset + len ≤ received)) as [Hle|Hgt].
    - replace received' with received by lia. split; [lia|done].
    - assert (size = 0) as -> by lia. split; [lia|]. by rewrite !last_bytes_nil by lia. }
  assert (0 < len - skip) as Hpos by (destruct fresh; [done|]; simpl in Hf; lia).
  assert (received' = offset + len) as Hr' by lia.
  split; [subst size'; lia|].
  destruct (decide (offset ≤ received)) as [Hle|Hgt].
  - assert (skip = received - offset) by lia.
    assert (so_far received' = so_far received ++ fresh)%list as ->.
    { rewrite Hr', Hfr. replace (offset + skip) with received by lia.
      replace (so_far received) with (take (Z.to_nat received) (so_far (offset + len))).
      - by rewrite take_drop.
      - unfold so_far. rewrite take_take. f_equal. lia. }
    subst size'. by rewrite last_bytes_app by lia.
  - assert (size = 0) as Hs0 by lia. rewrite (last_bytes_nil size) by lia. simpl.
    subst size'. rewrite Hs0, Hr'. simpl.
    assert (so_far (offset + len) = take (Z.to_nat (offset + skip)) (so_far (offset + len)) ++ fresh)%list as Hsplit
      by (by rewrite Hfr, take_drop).
    rewrite Hsplit. symmetry. by apply last_bytes_of.
Qed.
End text.

(** ** The invariant *)
Section spec.
Context `{Circumstances, UuidText} (read_days : string → option Z) (output : string → list Z).
(** The identifiers drawn before [horizon] are all different: an identifier
    has 122 random bits. *)
Context (horizon : nat).

Definition file (fs : Files) (path : string) : list Z := default [] (fs !! path).
Definition stored (fs : Files) (path : string) (size : Z) : list Z := take (Z.to_nat size) (file fs path).

Definition path_of (id : string) (received : Z) (path : string) : Prop :=
  path = id +:+ ".log" ∨ ∃ e, 0 ≤ e ≤ received ∧ path = id +:+ "." +:+ pretty e +:+ ".log".

Record row_ok (fs : Files) (o : OutputStreamRow) (s : LogStreamRow) : Prop := {
  row_path : path_of (ls_id s) (os_received_bytes o) (ls_path s);
  row_size : 0 ≤ ls_size_bytes s ≤ MAX_STREAM_BYTES;
  row_received : ls_size_bytes s ≤ os_received_bytes o;
  row_known : os_received_bytes o ≤ Z.of_nat (length (output (os_placement_id o))) ∧ os_received_bytes o ≤ i64_max;
  row_length : ls_size_bytes s ≤ Z.of_nat (length (file fs (ls_path s)));
  row_text : stored fs (ls_path s) (ls_size_bytes s)
             = last_bytes (ls_size_bytes s) (so_far (output (os_placement_id o)) (os_received_bytes o)) }.

Record good (w : Disk) : Prop := {
  stream_keys : NoDup (ls_id <$> log_streams (st_db w));
  output_keys : NoDup (os_log_stream_id <$> fleet_output_streams (st_db w));
  key_length : ∀ o, o ∈ fleet_output_streams (st_db w) → String.length (os_log_stream_id o) = 36%nat;
  keys_used : ∀ s n, (n < horizon)%nat → s ∈ log_streams (st_db w) → ls_id s = to_string (drawn n) →
    (n < st_step w)%nat;
  rows_ok : ∀ o s, o ∈ fleet_output_streams (st_db w) → s ∈ log_streams (st_db w) →
    os_log_stream_id o = ls_id s → row_ok (st_files w) o s }.

(** What other transactions may do with the streams: close and delete them,
    change what the rows say beyond path and size, and make log streams of
    their own. *)
Record tidies (db db' : OutputDb) : Prop := {
  t_outputs : ∀ o, o ∈ fleet_output_streams db' → o ∈ fleet_output_streams db;
  t_streams : ∀ s', s' ∈ log_streams db' →
    (∃ s, s ∈ log_streams db ∧ ls_id s' = ls_id s ∧ ls_path s' = ls_path s ∧ ls_size_bytes s' = ls_size_bytes s)
    ∨ (∀ n, (n < horizon)%nat → ls_id s' ≠ to_string (drawn n)) ∧ ∀ o, o ∈ fleet_output_streams db' → os_log_stream_id o ≠ ls_id s';
  t_stream_keys : NoDup (ls_id <$> log_streams db) → NoDup (ls_id <$> log_streams db');
  t_output_keys : NoDup (os_log_stream_id <$> fleet_output_streams db) →
    NoDup (os_log_stream_id <$> fleet_output_streams db') }.

Class CircumstanceLaws : Prop := {
  l_others : ∀ n db, tidies db (others n db);
  l_drawn : ∀ n m, (n < horizon)%nat → (m < horizon)%nat → to_string (drawn n) = to_string (drawn m) → n = m }.
Context `{!CircumstanceLaws}.

Lemma row_ok_same fs o s s' :
  ls_id s' = ls_id s → ls_path s' = ls_path s → ls_size_bytes s' = ls_size_bytes s →
  row_ok fs o s → row_ok fs o s'.
Proof. intros Hi Hp Hs [? ? ? ? ? ?]. split; rewrite ?Hi, ?Hp, ?Hs; done. Qed.

Lemma good_arrive w : good w → good (arrive w).
Proof.
  intros [Hs Ho Hl Hu Hr]. destruct (l_others (st_step w) (st_db w)) as [Hto Hts Hks Hko].
  split; simpl; [auto|auto|auto| |].
  - intros s n Hlt Hin Heq. destruct (Hts s Hin) as [(s0 & Hin0 & Hid & _)|[Hn _]]; [|by apply Hn in Heq].
    rewrite Hid in Heq. specialize (Hu s0 n Hlt Hin0 Heq). lia.
  - intros o s Hino Hins Heq. destruct (Hts s Hins) as [(s0 & Hin0 & Hid & Hp & Hz)|[_ Hn]].
    + eapply row_ok_same; [exact Hid|exact Hp|exact Hz|]. apply Hr; [auto|done|congruence].
    + by apply Hn in Heq.
Qed.

(** *** Files *)
(** Only the file at [p] differs, and not in its first [n] bytes. *)
Record harmless (p : string) (n : Z) (fs fs' : Files) : Prop := {
  h_others : ∀ q, q ≠ p → fs' !! q = fs !! q;
  h_kept : stored fs' p n = stored fs p n;
  h_length : n ≤ Z.of_nat (length (file fs p)) → n ≤ Z.of_nat (length (file fs' p)) }.

Lemma harmless_refl p n fs : harmless p n fs fs.
Proof. by split. Qed.

(** A path no other stream uses, or uses for no more than [n] bytes. *)
Definition covers (p : string) (n : Z) (db : OutputDb) : Prop :=
  ∀ o s, o ∈ fleet_output_streams db → s ∈ log_streams db → os_log_stream_id o = ls_id s →
    ls_path s = p → ls_size_bytes s ≤ n.

Lemma row_ok_harmless p n fs fs' o s :
  harmless p n fs fs' → (ls_path s = p → ls_size_bytes s ≤ n) → row_ok fs o s → row_ok fs' o s.
Proof.
  intros [Ho Hk Hlen] Hc [? ? ? ? Hl Ht]. destruct (decide (ls_path s = p)) as [Hp|Hp].
  - specialize (Hc Hp). split; try done.
    + rewrite Hp in *. unfold stored in Hk. destruct (decide (n ≤ Z.of_nat (length (file fs p)))) as [Hn|Hn];
        [specialize (Hlen Hn); lia|].
      apply (f_equal length) in Hk. rewrite !length_take in Hk. lia.
    + rewrite <-Ht, Hp. unfold stored in *.
      replace (Z.to_nat (ls_size_bytes s)) with (Z.to_nat (ls_size_bytes s) `min` Z.to_nat n)%nat by lia.
      by rewrite <-!take_take, Hk.
  - assert (file fs' (ls_path s) = file fs (ls_path s)) as Hf by (unfold file; by rewrite Ho).
    split; unfold stored; rewrite ?Hf; done.
Qed.

Lemma good_harmless p n w fs :
  harmless p n (st_files w) fs → covers p n (st_db w) → good w →
  good {| st_db := st_db w; st_files := fs; st_step := st_step w |}.
Proof.
  intros Hh Hc [? ? ? ? Hr]. split; simpl; try done. intros o s Hino Hins Heq.
  eapply row_ok_harmless; [exact Hh| |auto]. intros Hp. by eapply Hc.
Qed.

Lemma covers_arrive p n w : covers p n (st_db w) → covers p n (st_db (arrive w)).
Proof.
  intros Hc o s Hino Hins Heq Hp. destruct (l_others (st_step w) (st_db w)) as [Hto Hts _ _].
  destruct (Hts s Hins) as [(s0 & Hin0 & Hid & Hp0 & Hz)|[_ Hn]]; [|by apply Hn in Heq].
  rewrite Hz. eapply (Hc o s0); [auto|done|congruence|congruence].
Qed.

(** *** Runs *)
(** From [P], a run that returns ends in [Q] and any other in [R]. *)
Definition runs {A} (P : Disk → Prop) (c : Act A) (Q : A → Disk → Prop) (R : Disk → Prop) : Prop :=
  ∀ w, P w → match c w with (Ok a, w') => Q a w' | (Err _, w') => R w' end.

Lemma runs_bind {A B} P (c : Act A) Q (k : A → Act B) Q' R :
  runs P c Q R → (∀ a, runs (Q a) (k a) Q' R) → runs P (c ≫= k) Q' R.
Proof.
  intros Hc Hk w Hw. specialize (Hc w Hw). unfold mbind, Act_bind.
  destruct (c w) as [[a|e] w']; [by apply Hk|done].
Qed.

Lemma runs_ret {A} P (a : A) Q R : (∀ w, P w → Q a w) → runs P (mret a) Q R.
Proof. intros HP w Hw. by apply HP. Qed.

Lemma runs_rejects {A} (P : Disk → Prop) e (Q : A → Disk → Prop) (R : Disk → Prop) :
  (∀ w, P w → R w) → runs P (rejects e) Q R.
Proof. intros HP w Hw. by apply HP. Qed.

Lemma runs_clock P R : runs P read_clock (λ _, P) R.
Proof. by intros w Hw. Qed.

Lemma runs_weaken {A} (P P' : Disk → Prop) (c : Act A) (Q Q' : A → Disk → Prop) (R R' : Disk → Prop) :
  runs P c Q R → (∀ w, P' w → P w) → (∀ a w, Q a w → Q' a w) → (∀ w, R w → R' w) → runs P' c Q' R'.
Proof.
  intros Hc HP HQ HR w Hw. specialize (Hc w (HP w Hw)). destruct (c w) as [[a|e] w']; auto.
Qed.

Lemma runs_attempt {A} (P : Disk → Prop) (c : Act A) (Q : A → Disk → Prop) (R : Disk → Prop) :
  runs P c Q R → runs P (attempt c) (λ r w, match r with Ok a => Q a w | Err _ => R w end) R.
Proof.
  intros Hc w Hw. specialize (Hc w Hw). unfold attempt. by destruct (c w) as [[a|[e|]] w'].
Qed.

(** A predicate that others keep. *)
Definition lasting (P : Disk → Prop) : Prop := ∀ w, P w → P (arrive w).

(** An action on the files: harmless to [p], whatever it gets done. *)
Lemma runs_files {A} (p : string) (n : Z) (I : Files → Prop) (Q : A → Files → Prop)
    (f : option nat → Files → option (A * Files)) (K : OutputDb → nat → Prop) :
  lasting (λ w, K (st_db w) (st_step w)) →
  (∀ done fs a fs', I fs → f done fs = Some (a, fs') → harmless p n fs fs' ∧ (done = None → Q a fs')) →
  runs (λ w, good w ∧ covers p n (st_db w) ∧ K (st_db w) (st_step w) ∧ I (st_files w)) (on_files f)
       (λ a w, good w ∧ covers p n (st_db w) ∧ K (st_db w) (st_step w) ∧ Q a (st_files w)) good.
Proof.
  intros HK Hf w (Hg & Hc & Hk & Hi). unfold on_files.
  apply good_arrive in Hg. apply covers_arrive in Hc. apply (HK w) in Hk.
  change (st_files w) with (st_files (arrive w)) in Hi.
  destruct (fault (st_step (arrive w))) as [|m|m].
  - destruct (f None (st_files (arrive w))) as [[a fs]|] eqn:Hfw; [|done].
    destruct (Hf _ _ _ _ Hi Hfw) as [Hh Hq]. split_and!; [by eapply good_harmless|done|done|by apply Hq].
  - destruct (f (Some m) (st_files (arrive w))) as [[a fs]|] eqn:Hfw; [|done].
    destruct (Hf _ _ _ _ Hi Hfw) as [Hh _]. by eapply good_harmless.
  - destruct (f (Some m) (st_files (arrive w))) as [[a fs]|] eqn:Hfw; [|done].
    destruct (Hf _ _ _ _ Hi Hfw) as [Hh _]. by eapply good_harmless.
Qed.

Lemma runs_transaction {A} (f : OutputDb → Result (OutputDb * A) RegistryError)
    (P P' : Disk → Prop) (Q : A → Disk → Prop) :
  (∀ w, P w → P' (arrive w)) → (∀ w, P' w → good w) →
  (∀ w db a, P' w → f (st_db w) = Ok (db, a) →
     let w' := {| st_db := db; st_files := st_files w; st_step := st_step w |} in good w' ∧ Q a w') →
  runs P (transaction f) Q good.
Proof.
  intros HP Hg Hf w Hw. apply HP in Hw. unfold transaction. specialize (Hf (arrive w)).
  pose proof (Hg _ Hw) as Hg'.
  destruct (fault _) as [|m|[|m]]; try done; destruct (f _) as [[db a]|e]; try done; by destruct (Hf db a Hw eq_refl).
Qed.

Lemma runs_attempt_transaction {A} (f : OutputDb → Result (OutputDb * A) RegistryError)
    (P : Disk → Prop) (Q : A → Disk → Prop) :
  lasting P → (∀ w, P w → good w) →
  (∀ w db a, P w → f (st_db w) = Ok (db, a) →
     let w' := {| st_db := db; st_files := st_files w; st_step := st_step w |} in good w' ∧ Q a w') →
  runs P (attempt (transaction f)) (λ r w, match r with Ok a => good w ∧ Q a w | Err _ => P w end) good.
Proof.
  intros HP Hg Hf w Hw. apply HP in Hw. unfold attempt, transaction. specialize (Hf (arrive w)).
  pose proof (Hg _ Hw) as Hg'.
  destruct (fault _) as [|m|[|m]]; try done; destruct (f _) as [[db a]|e]; try done; by destruct (Hf db a Hw eq_refl).
Qed.

(** *** Paths *)
Lemma path_of_id id id' r r' path :
  String.length id = 36%nat → String.length id' = 36%nat → path_of id r path → path_of id' r' path → id = id'.
Proof.
  intros Hl Hl' [->|(e & _ & ->)] [Heq|(e' & _ & Heq)]; apply same_length_split in Heq as [? _]; congruence.
Qed.

Lemma path_of_weaken id r r' path : r ≤ r' → path_of id r path → path_of id r' path.
Proof. intros Hr [->|(e & He & ->)]; [by left|right; exists e; split; [lia|done]]. Qed.

Lemma path_is_new id r path e :
  path_of id r path → 0 ≤ r < e → path ≠ id +:+ "." +:+ pretty e +:+ ".log".
Proof.
  intros [->|(e' & He' & ->)] Hr Heq; apply same_length_split in Heq as [_ Heq]; try done.
  - apply (f_equal String.length) in Heq. rewrite !string_length_app in Heq. simpl in Heq. lia.
  - apply (inj (String.append ".")) in Heq.
    apply same_length_split in Heq as [Heq _]; [apply (inj pretty) in Heq; lia|].
    apply (f_equal String.length) in Heq. rewrite !string_length_app in Heq. lia.
Qed.

(** *** A stream while it is written *)
Context (pl : string).

Record stream_ok (s : Stream) : Prop := {
  so_id : String.length (stream_id s) = 36%nat;
  so_path : path_of (stream_id s) (stream_received s) (stream_path s);
  so_size : 0 ≤ stream_size s ≤ MAX_STREAM_BYTES;
  so_received : stream_size s ≤ stream_received s;
  so_known : stream_received s ≤ Z.of_nat (length (output pl)) ∧ stream_received s ≤ i64_max }.

(** What the tables say of it: nothing if it is new. *)
Definition as_read (s : Stream) (db : OutputDb) (step : nat) : Prop :=
  (stream_new s = true → (∀ row, row ∈ log_streams db → ls_id row ≠ stream_id s)
     ∧ ∃ n, stream_id s = to_string (drawn n) ∧ (n < step)%nat ∧ (n < horizon)%nat)
  ∧ ∀ o row, o ∈ fleet_output_streams db → row ∈ log_streams db → os_log_stream_id o = ls_id row →
      ls_id row = stream_id s →
      os_placement_id o = pl ∧ ls_path row = stream_path s ∧ ls_size_bytes row = stream_size s.

Lemma as_read_lasting s : lasting (λ w, as_read s (st_db w) (st_step w)).
Proof.
  intros w [Hnew Hold]. destruct (l_others (st_step w) (st_db w)) as [Hto Hts _ _]. split.
  - intros Hn. destruct (Hnew Hn) as [Hno (n & Hd & Hlt & Hhor)]. split; [|exists n; split_and!; [done|simpl; lia|done]].
    intros row Hin Heq. destruct (Hts row Hin) as [(s0 & Hin0 & Hid & _)|[Hnd _]].
    + apply (Hno s0 Hin0). congruence.
    + apply (Hnd n Hhor). congruence.
  - intros o row Ho Hr Heq Hid. destruct (Hts row Hr) as [(s0 & Hin0 & Hid0 & Hp & Hz)|[_ Hno]];
      [|by apply Hno in Heq].
    rewrite Hp, Hz. apply Hold; [auto|done|congruence|congruence].
Qed.

Lemma as_read_covers s w :
  stream_ok s → good w → as_read s (st_db w) (st_step w) → covers (stream_path s) (stream_size s) (st_db w).
Proof.
  intros Hs Hg [_ Hold] o row Ho Hr Heq Hp. pose proof (rows_ok w Hg o row Ho Hr Heq) as Hrow.
  pose proof (row_path _ _ _ Hrow) as Hpo. rewrite Hp in Hpo.
  assert (ls_id row = stream_id s) as Hid.
  { eapply path_of_id; [|apply so_id, Hs|exact Hpo|apply so_path, Hs].
    rewrite <-Heq. by apply (key_length w). }
  destruct (Hold o row Ho Hr Heq Hid) as (_ & _ & ->). lia.
Qed.

Definition unused (p : string) (db : OutputDb) : Prop :=
  ∀ o row, o ∈ fleet_output_streams db → row ∈ log_streams db → os_log_stream_id o = ls_id row → ls_path row ≠ p.

Lemma unused_covers p db : unused p db → covers p 0 db.
Proof. intros Hu o row Ho Hr Heq Hp. by destruct (Hu o row Ho Hr Heq). Qed.

Lemma as_read_unused s w p r :
  stream_ok s → good w → as_read s (st_db w) (st_step w) → path_of (stream_id s) r p → p ≠ stream_path s → unused p (st_db w).
Proof.
  intros Hs Hg [_ Hold] Hp Hne o row Ho Hr Heq Hrp. pose proof (rows_ok w Hg o row Ho Hr Heq) as Hrow.
  pose proof (row_path _ _ _ Hrow) as Hpo. rewrite Hrp in Hpo.
  assert (ls_id row = stream_id s) as Hid.
  { eapply path_of_id; [|apply so_id, Hs|exact Hpo|exact Hp]. rewrite <-Heq. by apply (key_length w). }
  destruct (Hold o row Ho Hr Heq Hid) as (_ & Hpath & _). congruence.
Qed.

Lemma runs_remove p : runs (λ w, good w ∧ unused p (st_db w)) (attempt (remove_file p)) (λ _ w, good w) good.
Proof.
  assert (runs (λ w, good w ∧ unused p (st_db w)) (remove_file p) (λ _ w, good w) good) as Hr.
  { eapply runs_weaken; [apply (runs_files p 0 (λ _, True) (λ _ _, True) _ (λ _ _, True))| | |].
    - done.
    - intros done_ fs a fs' _ Hf. split; [|done]. unfold whole in Hf.
      destruct done_ as [[|]|]; [done| |]; destruct (fs !! p); simplify_eq/=;
        (split; [intros q Hq; by rewrite lookup_delete_ne|done|lia]).
    - intros w [Hg Hu]. split_and!; auto using unused_covers.
    - by intros ? w [? _].
    - done. }
  intros w Hw. specialize (Hr w Hw). unfold attempt. by destruct (remove_file p w) as [[a|[e|]] w'].
Qed.

(** *** Writing *)
(** The file at [p] holds [text] in its first [n] bytes. *)
Definition holds (p : string) (n : Z) (text : list Z) (fs : Files) : Prop :=
  n ≤ Z.of_nat (length (file fs p)) ∧ stored fs p n = text.

Lemma harmless_insert p n text fs f' :
  holds p n text fs → take (Z.to_nat n) f' = text → n ≤ Z.of_nat (length f') →
  harmless p n fs (<[p := f']> fs) ∧ holds p n text (<[p := f']> fs).
Proof.
  intros [Hl Ht] Hf' Hn. assert (file (<[p := f']> fs) p = f') as Hp by (unfold file; by rewrite lookup_insert_eq).
  split; [split|split]; unfold stored in *; rewrite ?Hp; try done; [|congruence].
  intros q Hq. by rewrite lookup_insert_ne.
Qed.

Lemma take_write_at n data f : (n ≤ length f)%nat → take n (write_at n data f) = take n f.
Proof. intros Hn. unfold write_at. rewrite take_app_le by (rewrite length_take; lia). by rewrite take_take, Nat.min_id. Qed.

Lemma write_at_text n data f :
  (n ≤ length f)%nat → take (n + length data) (write_at n data f) = (take n f ++ data)%list
  ∧ (n + length data ≤ length (write_at n data f))%nat.
Proof.
  intros Hn. unfold write_at. split; [|rewrite !length_app, length_take; lia].
  rewrite app_assoc, take_app_le by (rewrite length_app, length_take; lia).
  apply take_ge. rewrite length_app, length_take. lia.
Qed.

Section writing.
Context (s : Stream) (Hs : stream_ok s) (text : list Z).
Let p := stream_path s.
Let n := stream_size s.
Definition writing (I : Files → Prop) (w : Disk) : Prop :=
  good w ∧ covers p n (st_db w) ∧ as_read s (st_db w) (st_step w) ∧ I (st_files w).

Lemma runs_whole {A} (I : Files → Prop) (Q : A → Files → Prop) (f : Files → option (A * Files)) :
  (∀ fs a fs', I fs → f fs = Some (a, fs') → harmless p n fs fs' ∧ Q a fs') →
  runs (writing I) (on_files (whole f)) (λ a, writing (Q a)) good.
Proof.
  intros Hf. apply (runs_files p n I Q (whole f) (as_read s)); [by apply as_read_lasting|].
  intros done_ fs a fs' Hi Hfs. unfold whole in Hfs. destruct done_ as [[|]|]; [done| |];
    destruct (Hf _ _ _ Hi Hfs); done.
Qed.

Definition present (fs : Files) : Prop := holds p n text fs ∧ is_Some (fs !! p).

Lemma runs_create : runs (writing (holds p n text)) create_dir (λ _, writing (holds p n text)) good.
Proof. apply runs_whole. intros fs a fs' Hi [= _ <-]. split; [apply harmless_refl|done]. Qed.

Lemma runs_open : runs (writing (holds p n text)) (open_create p) (λ _, writing present) good.
Proof.
  apply runs_whole. intros fs a fs' Hi [= _ <-]. change (default [] (fs !! p)) with (file fs p).
  destruct (harmless_insert p n text fs (file fs p) Hi) as [Hh Hk]; [apply Hi..|].
  split; [done|]. split; [done|]. by rewrite lookup_insert_eq.
Qed.

Lemma runs_set_len : runs (writing present) (set_len p n) (λ _, writing present) good.
Proof.
  apply runs_whole. intros fs a fs' [Hi [f Hf]] Hset. rewrite Hf in Hset. simplify_eq/=.
  assert (file fs p = f) as Hfile by (unfold file; by rewrite Hf).
  assert (Z.to_nat n ≤ length f)%nat as Hn by (destruct Hi as [Hl _]; rewrite Hfile in Hl; lia).
  assert (resize (Z.to_nat n) f = take (Z.to_nat n) f) as ->.
  { unfold resize. replace (Z.to_nat n - length f)%nat with 0%nat by lia. by rewrite app_nil_r. }
  destruct (harmless_insert p n text fs (take (Z.to_nat n) f) Hi) as [Hh Hk].
  - rewrite take_take, Nat.min_id. destruct Hi as [_ <-]. unfold stored. by rewrite Hfile.
  - rewrite length_take. destruct (so_size s Hs). unfold n in *. lia.
  - split; [done|]. split; [done|]. by rewrite lookup_insert_eq.
Qed.

Lemma runs_write data :
  runs (writing present) (write_all p n data)
       (λ _, writing (holds p (n + Z.of_nat (length data)) (text ++ data)%list)) good.
Proof.
  apply (runs_files p n present (λ _, holds p (n + Z.of_nat (length data)) (text ++ data)%list) _ (as_read s));
    [by apply as_read_lasting|].
  intros done_ fs a fs' [Hi [f Hf]] Hw. rewrite Hf in Hw. simplify_eq/=.
  assert (file fs p = f) as Hfile by (unfold file; by rewrite Hf).
  destruct (so_size s Hs) as [Hn0 _]. fold n in Hn0.
  assert (Z.to_nat n ≤ length f)%nat as Hn by (destruct Hi as [Hl _]; rewrite Hfile in Hl; lia).
  assert (take (Z.to_nat n) f = text) as Ht by (destruct Hi as [_ <-]; unfold stored; by rewrite Hfile).
  set (d := match done_ with None => data | Some k => take k data end).
  destruct (write_at_text (Z.to_nat n) d f Hn) as [Hwt Hwl].
  split.
  - apply (harmless_insert p n text fs _ Hi); [by rewrite take_write_at|lia].
  - intros ->. subst d. unfold holds, stored, file. rewrite lookup_insert_eq. simpl.
    rewrite <-Ht, <-Hwt. replace (Z.to_nat (n + Z.of_nat (length data))) with (Z.to_nat n + length data)%nat by lia.
    split; [lia|done].
Qed.

Lemma runs_flush I : runs (writing I) flush (λ _, writing I) good.
Proof. apply runs_whole. intros fs a fs' Hi [= _ <-]. split; [apply harmless_refl|done]. Qed.

Lemma runs_read count : 0 ≤ count ≤ n →
  runs (writing (holds p n text)) (read_at p (n - count) count)
       (λ found w, writing (holds p n text) w ∧ found = last_bytes count text) good.
Proof.
  intros Hc. eapply runs_weaken;
    [apply (runs_whole (holds p n text) (λ found fs, holds p n text fs ∧ found = last_bytes count text))|done| |done].
  - intros fs a fs' Hi Hr. destruct (fs !! p) as [f|] eqn:Hf; [|done]. simplify_eq/=.
    split; [apply harmless_refl|]. split; [done|]. destruct Hi as [Hl <-].
    unfold stored, file in *. rewrite Hf in *. simpl in *. unfold last_bytes.
    rewrite length_take, take_drop_commute. f_equal; [lia|]. f_equal. lia.
  - intros a w (? & ? & ? & ? & ?). by split; [split_and!|].
Qed.

(** What the record says then is true of the file. *)
Record written (received : Z) (path : string) (size : Z) (w : Disk) : Prop := {
  wr_good : good w;
  wr_read : as_read s (st_db w) (st_step w);
  wr_path : path_of (stream_id s) received path;
  wr_size : 0 ≤ size ≤ MAX_STREAM_BYTES;
  wr_received : size ≤ received;
  wr_holds : holds path size (last_bytes size (so_far (output pl) received)) (st_files w) }.

Lemma written_lasting received path size : lasting (written received path size).
Proof.
  intros w [Hg Hr ? ? ? ?]. split; try done; [by apply good_arrive|]. by apply (as_read_lasting s).
Qed.

Lemma writing_unused w I path r :
  writing I w → path_of (stream_id s) r path → path ≠ stream_path s → unused path (st_db w).
Proof. intros (Hg & _ & Hr & _) Hp Hne. by eapply as_read_unused. Qed.

Context (fresh : list Z) (end_ received' : Z).
Hypothesis Hfits : n + Z.of_nat (length fresh) ≤ received'
  ∧ (text ++ fresh)%list = last_bytes (n + Z.of_nat (length fresh)) (so_far (output pl) received').
Hypothesis Hchunk : Z.of_nat (length fresh) ≤ MAX_OUTPUT_CHUNK_BYTES.
Hypothesis Hend : stream_received s ≤ received' ∧ (fresh ≠ [] → stream_received s < end_ ∧ received' = end_).

Lemma runs_newest :
  runs (writing (holds p n text)) (newest_output p n fresh)
    (λ out w, writing (holds p n text) w ∧ 0 ≤ Z.of_nat (length out) ≤ MAX_STREAM_BYTES
              ∧ out = last_bytes (Z.of_nat (length out)) (so_far (output pl) received')) good.
Proof.
  destruct (so_size s Hs) as [Hn0 _]. fold n in Hn0. unfold newest_output.
  set (kept := Z.min _ _). assert (0 ≤ kept ≤ n) as Hkept by lia.
  eapply runs_bind; [by apply runs_read|]. intros found. apply runs_ret. intros w [Hw ->]. split; [done|].
  set (out := default _ _).
  assert (∃ a, (last_bytes kept text ++ fresh)%list = (a ++ out)%list) as [a Ha].
  { unfold out. destruct (from_next_line _) as [t|] eqn:Ht; [by apply from_next_line_suffix|by exists []]. }
  assert (∃ b, so_far (output pl) received' = (b ++ out)%list) as [b Hb].
  { destruct Hfits as [_ Heq]. destruct (last_bytes_suffix _ _ _ Heq) as [c Hc].
    destruct (last_bytes_suffix kept _ text eq_refl) as [c' Hc'].
    exists (c ++ c' ++ a)%list. rewrite Hc, Hc', <-!app_assoc, Ha. done. }
  rewrite Hb, last_bytes_of. split; [|done]. split; [lia|].
  apply (f_equal length) in Ha. rewrite !length_app in Ha. unfold last_bytes in Ha. rewrite length_drop in Ha.
  unfold MAX_OUTPUT_CHUNK_BYTES, MAX_STREAM_BYTES, KEEP_STREAM_BYTES in *. lia.
Qed.

Lemma runs_write_output :
  runs (writing (holds p n text)) (write_output s fresh end_) (λ '(path, size), written received' path size) good.
Proof.
  destruct (so_size s Hs) as [Hn0 HnM]. fold n in Hn0, HnM. destruct Hfits as [Hle Heq].
  pose proof (so_path s Hs) as Hp. unfold write_output. case_bool_decide as Hfr.
  - apply runs_ret. intros w (Hg & _ & Hr & Hi). rewrite Hfr, app_nil_r in Heq.
    rewrite Hfr in Hle. simpl in *. rewrite Z.add_0_r in *. rewrite Heq in Hi.
    split; try done. eapply path_of_weaken; [|exact Hp]. lia.
  - destruct Hend as [_ Hafter]. destruct (Hafter Hfr) as [He Hr'].
    destruct (Z.leb_spec (stream_size s + Z.of_nat (length fresh)) MAX_STREAM_BYTES) as [Hm|Hm].
    + eapply runs_bind; [apply runs_create|]. intros ?. eapply runs_bind; [apply runs_open|]. intros ?.
      eapply runs_bind; [apply runs_set_len|]. intros ?. eapply runs_bind; [apply runs_write|]. intros ?.
      eapply runs_bind; [apply runs_flush|]. intros ?. apply runs_ret.
      intros w (Hg & _ & Hr & Hi). rewrite Heq in Hi. split; try done.
      * eapply path_of_weaken; [|exact Hp]. lia.
      * unfold n in *. lia.
    + eapply runs_bind; [apply runs_newest|]. intros out.
      set (next := stream_id s +:+ "." +:+ pretty end_ +:+ ".log").
      assert (path_of (stream_id s) received' next) as Hnext.
      { right. exists end_. pose proof (so_received s Hs). split; [unfold n in *; lia|done]. }
      assert (next ≠ stream_path s) as Hne.
      { intros Hx. eapply path_is_new; [exact Hp| |symmetry; exact Hx]. pose proof (so_received s Hs).
        unfold n in *. lia. }
      destruct (decide (0 ≤ Z.of_nat (length out) ≤ MAX_STREAM_BYTES
        ∧ out = last_bytes (Z.of_nat (length out)) (so_far (output pl) received'))) as [[Hlen Hout]|Hno];
        [|intros w (_ & Hx & Hy); destruct Hno; by split].
      eapply runs_bind; [|intros u; apply runs_ret; intros w Hw; exact Hw].
      eapply runs_weaken; [apply (runs_files next 0 (λ _, True) (λ _ fs, file fs next = out) _ (as_read s))
        | | |done].
      * by apply as_read_lasting.
      * intros done_ fs a fs' _ [= _ <-]. unfold file. split; [|intros ->; by rewrite lookup_insert_eq].
        split; [intros q Hq; by rewrite lookup_insert_ne|done|lia].
      * intros w [Hw _]. split_and!; [apply Hw| |apply Hw|done].
        by eapply unused_covers, writing_unused.
      * intros u w (Hg & _ & Hr & Hf). split; try done.
        -- rewrite Hout. unfold last_bytes. rewrite length_drop. unfold so_far at 1. rewrite length_take.
           pose proof (so_received s Hs). unfold n in *. lia.
        -- unfold holds, stored. rewrite Hf. split; [done|]. rewrite Nat2Z.id. rewrite firstn_all. done.
Qed.
End writing.

(** *** Recording *)
(** The tables with the stream's rows, when it is new. *)
Record opened (s : Stream) (w : Disk) (db : OutputDb) : Prop := {
  op_streams : NoDup (ls_id <$> log_streams db);
  op_outputs : NoDup (os_log_stream_id <$> fleet_output_streams db);
  op_length : ∀ o, o ∈ fleet_output_streams db → String.length (os_log_stream_id o) = 36%nat;
  op_used : ∀ x n, (n < horizon)%nat → x ∈ log_streams db → ls_id x = to_string (drawn n) → (n < st_step w)%nat;
  op_rows : ∀ o x, o ∈ fleet_output_streams db → x ∈ log_streams db → os_log_stream_id o = ls_id x →
    if decide (ls_id x = stream_id s) then os_placement_id o = pl
    else o ∈ fleet_output_streams (st_db w) ∧ x ∈ log_streams (st_db w) }.

Lemma opened_stored s w : good w → as_read s (st_db w) (st_step w) → opened s w (st_db w).
Proof.
  intros [Hk Ho Hl Hu _] [_ Hold]. split; try done. intros o x Hino Hinx Heq.
  case_decide as Hid; [|done]. by apply (Hold o x).
Qed.

Lemma opened_new s w chunk runner path now db :
  stream_ok s → good w → as_read s (st_db w) (st_step w) → stream_new s = true →
  pl = to_string (oc_placement_id chunk) →
  insert_stream read_days (st_db w) chunk runner s path now = Ok db →
  opened s w db ∧ exists_row (λ x, String.eqb (ls_id x) (stream_id s) && negb (ls_complete x)) (log_streams db) = true.
Proof.
  intros Hs [Hk Ho Hl Hu _] [Hnew _] Hn -> Hi. destruct (Hnew Hn) as [Hno (n & Hd & Hlt & Hhor)].
  unfold insert_stream in Hi. inv_result. apply orb_false_iff in E as [_ E2].
  assert (∀ o, o ∈ fleet_output_streams (st_db w) → os_log_stream_id o ≠ stream_id s) as Hno'.
  { intros o Hin Heq. apply not_true_iff_false in E2. apply E2, existsb_exists. exists o.
    split; [by apply list_elem_of_In|]. by rewrite Heq, String.eqb_refl, orb_true_r. }
  split; [split; simpl|].
  - apply NoDup_snoc; [done|]. intros b Hb. by apply Hno.
  - apply NoDup_snoc; [done|]. intros b Hb. by apply Hno'.
  - intros o [Hin| ->%list_elem_of_singleton]%elem_of_app; [auto|]. apply Hs.
  - intros y m Hm [Hin| ->%list_elem_of_singleton]%elem_of_app Heq; [by eapply Hu|].
    simpl in Heq. rewrite Hd in Heq. by apply l_drawn in Heq as ->.
  - intros o y [Hin| ->%list_elem_of_singleton]%elem_of_app Hy Heq; simpl in *.
    + apply elem_of_app in Hy as [Hy| ->%list_elem_of_singleton]; [|by apply Hno' in Heq].
      rewrite decide_False; [done|by apply Hno].
    + by rewrite decide_True by congruence.
  - cbn [log_streams]. rewrite exists_row_app. simpl. by rewrite String.eqb_refl, orb_true_r.
Qed.

Definition default_row (s : Stream) : LogStreamRow :=
  {| ls_id := stream_id s; ls_runner_id := None; ls_job_id := None; ls_installation_id := None;
     ls_runner_name := ""; ls_pool_name := ""; ls_source := ""; ls_path := stream_path s; ls_size_bytes := 0;
     ls_complete := false; ls_expires_at := None; ls_created_at := 0; ls_updated_at := 0 |}.

Lemma record_good s w auth chunk runner path size received now db b :
  stream_ok s → written s received path size w → pl = to_string (oc_placement_id chunk) →
  received ≤ Z.of_nat (length (output pl)) → 0 ≤ received ≤ i64_max →
  record_output read_days (st_db w) auth chunk runner s path size received now = Ok (db, b) →
  let w' := {| st_db := db; st_files := st_files w; st_step := st_step w |} in
  good w' ∧ if b then path = stream_path s ∨ unused (stream_path s) db else db = st_db w.
Proof.
  intros Hs [Hg Hr Hp Hz Hzr Hh] Hpl Hout Hmax Hrec w'. unfold record_output in Hrec.
  apply bind_Ok in Hrec as (owner & _ & Hrec). apply bind_Ok in Hrec as (db0 & Hdb0 & Hrec).
  set (live := λ x, String.eqb (ls_id x) (stream_id s) && negb (ls_complete x)) in *.
  assert (opened s w db0 ∧ (stream_new s = true → exists_row live (log_streams db0) = true)
          ∧ (stream_new s = false → db0 = st_db w)) as (Hop & Hex & Hsame).
  { destruct (stream_new s) eqn:Hn.
    - destruct (opened_new s w chunk runner path now db0) as [? ?]; done.
    - injection Hdb0 as <-. split_and!; [by apply opened_stored|done|done]. }
  destruct (exists_row live (log_streams db0)) eqn:Hlive; simpl in Hrec; injection Hrec as <- <-.
  2: { destruct (stream_new s); [by discriminate Hex|]. assert (w' = w) as -> by (unfold w'; rewrite Hsame by done; by destruct w).
       split; [done|]. by apply Hsame. }
  destruct Hop as [Hks Hko Hlen Hused Hrows].
  assert (∀ x, x ∈ log_streams db0 → ls_id x = stream_id s → live x = true) as Hall.
  { intros x Hx Hid. apply existsb_exists in Hlive as (y & Hy%list_elem_of_In & Hly).
    assert (ls_id y = stream_id s) as Hyid by (unfold live in Hly; bool_to_prop; done).
    assert (x = y) as ->; [|done]. eapply unique_by; [exact Hks|done|done|congruence]. }
  set (write := recorded_row _ _ _ _ _).
  assert (∀ x, ls_id (write x) = ls_id x) as Hid by done.
  assert (Z.min size i64_max = size) as Hmin by (unfold MAX_STREAM_BYTES, i64_max in *; lia).
  assert (row_ok (st_files w) {| os_placement_id := pl; os_log_stream_id := stream_id s;
            os_received_bytes := Z.min received i64_max |} (write (default_row s))) as Hrow.
  { rewrite Z.min_l by lia. split; simpl; rewrite ?Hmin; try done; [split; [done|lia]|apply Hh|apply Hh]. }
  split.
  - split; simpl.
    + rewrite update_where_fmap; done.
    + rewrite update_where_fmap; done.
    + intros o (o0 & Hin & ->)%elem_of_update_where. specialize (Hlen o0 Hin). by destruct (String.eqb _ _).
    + intros x n Hhor (x0 & Hin & ->)%elem_of_update_where Hx. apply (Hused x0 n Hhor Hin). by destruct (live x0).
    + intros o x (o0 & Hino & ->)%elem_of_update_where (x0 & Hinx & ->)%elem_of_update_where Heq.
      assert (os_log_stream_id o0 = ls_id x0) as Heq0 by (revert Heq; by destruct (String.eqb _ _), (live x0)).
      specialize (Hrows o0 x0 Hino Hinx Heq0). destruct (String.eqb_spec (os_log_stream_id o0) (stream_id s)) as [Ho|Ho].
      * rewrite decide_True in Hrows by congruence. rewrite (Hall x0) by congruence.
        destruct Hrow as [Hr1 Hr2 Hr3 Hr4 Hr5 Hr6]. split; simpl in *; rewrite ?Hrows; try done. by rewrite <-Heq0, Ho.
      * rewrite decide_False in Hrows by congruence. destruct (live x0) eqn:Hlx.
        { exfalso. unfold live in Hlx. bool_to_prop. congruence. }
        destruct Hrows. by apply (rows_ok w Hg).
  - destruct (decide (path = stream_path s)) as [|Hne]; [by left|right].
    intros o x (o0 & Hino & ->)%elem_of_update_where (x0 & Hinx & ->)%elem_of_update_where Heq.
    assert (os_log_stream_id o0 = ls_id x0) as Heq0 by (revert Heq; by destruct (String.eqb _ _), (live x0)).
    specialize (Hrows o0 x0 Hino Hinx Heq0). destruct (decide (ls_id x0 = stream_id s)) as [Hx|Hx].
    + by rewrite (Hall x0) by done.
    + destruct (live x0) eqn:Hlx; [exfalso; unfold live in Hlx; bool_to_prop; congruence|].
      destruct Hrows as [Hin1 Hin2]. intros Hpath. apply Hx.
      pose proof (row_path _ _ _ (rows_ok w Hg o0 x0 Hin1 Hin2 Heq0)) as Hpo. rewrite Hpath in Hpo.
      eapply path_of_id; [|apply so_id, Hs|exact Hpo|apply so_path, Hs]. rewrite <-Heq0. by apply (key_length w).
Qed.


(** *** Appending *)
(** A chunk that tells the truth about the runner's output. *)
Record honest (chunk : RunnerOutputChunk) (data : list Z) : Prop := {
  ho_offset : 0 ≤ oc_offset chunk;
  ho_end : oc_offset chunk + Z.of_nat (length data) ≤ Z.of_nat (length (output pl));
  ho_data : data = take (length data) (drop (Z.to_nat (oc_offset chunk)) (output pl)) }.

Definition text_of_stream (s : Stream) : list Z :=
  last_bytes (stream_size s) (so_far (output pl) (stream_received s)).

Lemma runs_append_to s auth chunk data runner :
  stream_ok s → pl = to_string (oc_placement_id chunk) → honest chunk data →
  oc_offset chunk ≤ stream_received s ∨ stream_size s = 0 →
  Z.of_nat (length data) ≤ MAX_OUTPUT_CHUNK_BYTES → oc_offset chunk + Z.of_nat (length data) ≤ i64_max →
  runs (writing s (holds (stream_path s) (stream_size s) (text_of_stream s)))
       (append_to read_days auth chunk data (oc_offset chunk + Z.of_nat (length data)) runner s)
       (λ _, good) good.
Proof.
  intros Hs Hpl [Ho He Hd] Hor Hlen Hmax. unfold append_to.
  set (skip := Z.min _ _). set (fresh := drop (Z.to_nat skip) data).
  set (received := Z.max (stream_received s) _).
  destruct (so_size s Hs) as [Hn0 _], (so_known s Hs) as [Hk1 Hk2]. pose proof (so_received s Hs) as Hsr.
  pose proof (fresh_extends (output pl) (oc_offset chunk) (Z.of_nat (length data)) (stream_received s)
    (stream_size s) Ho ltac:(lia) He (conj Hn0 Hsr) Hk1 Hor) as Hext.
  rewrite Nat2Z.id, <-Hd in Hext. destruct Hext as [Hfit Htext].
  change (drop (Z.to_nat _) data) with fresh in Hfit, Htext.
  change (Z.max (stream_received s) (oc_offset chunk + Z.of_nat (length data))) with received in Hfit, Htext.
  assert (length fresh = length data - Z.to_nat skip)%nat as Hfl by apply length_drop.
  eapply runs_bind.
  { apply (runs_write_output s Hs (text_of_stream s) fresh _ received); [exact (conj Hfit Htext)|lia|].
    split; [lia|]. intros Hne. assert (length fresh ≠ 0%nat) by (intros Hz; by apply Hne, nil_length_inv).
    assert (0 ≤ skip < Z.of_nat (length data)) as Hsk by lia. unfold skip, received in *. lia. }
  intros [path size]. eapply runs_bind; [apply runs_clock|]. intros now.
  eapply runs_bind.
  { apply (runs_attempt_transaction _ (written s received path size)
      (λ b w, if b : bool then path = stream_path s ∨ unused (stream_path s) (st_db w)
              else as_read s (st_db w) (st_step w) ∧ path_of (stream_id s) received path)).
    - by apply written_lasting.
    - by intros w [].
    - intros w db b Hw Hrec. destruct (record_good s w _ _ _ _ _ _ _ _ _ Hs Hw Hpl ltac:(lia) ltac:(lia) Hrec)
        as [Hg Hb]. split; [done|]. destruct b; [done|]. simpl. rewrite Hb. split; apply Hw. }
  intros recorded. eapply (runs_bind _ _ (λ _, good)).
  - destruct (String.eqb_spec path (stream_path s)) as [Hp|Hp].
    { apply runs_ret. intros w Hw. destruct recorded as [b|e]; [apply Hw|by destruct Hw]. }
    eapply (runs_bind _ _ (λ _, good)); [|intros ?; by apply runs_ret].
    eapply runs_weaken; [apply runs_remove| |done|done]. intros w Hw. destruct recorded as [[]|e].
    + destruct Hw as [Hg [?|Hu]]; [done|by split].
    + destruct Hw as (Hg & Hr & Hpo). split; [done|]. by eapply as_read_unused.
    + destruct Hw as [Hg Hr Hpo _ _ _]. split; [done|]. by eapply as_read_unused.
  - intros ?. destruct recorded as [[]|e]; [by apply runs_ret|by apply runs_ret|by apply runs_rejects].
Qed.

(** The chunk starts within what its stream has received. *)
Definition continues (chunk : RunnerOutputChunk) (db : OutputDb) : Prop :=
  ∀ o row, o ∈ fleet_output_streams db → row ∈ log_streams db → os_log_stream_id o = ls_id row →
    os_placement_id o = pl → oc_offset chunk ≤ os_received_bytes o.

Lemma continues_lasting chunk : lasting (λ w, continues chunk (st_db w)).
Proof.
  intros w Hc o row Ho Hr Heq Hp. destruct (l_others (st_step w) (st_db w)) as [Hto Hts _ _].
  destruct (Hts row Hr) as [(s0 & Hin0 & Hid & _)|[_ Hn]]; [|by apply Hn in Heq].
  apply (Hc o s0); [auto|done|congruence|done].
Qed.

Lemma output_row_Some db o row :
  output_row db pl = Some (o, row) →
  o ∈ fleet_output_streams db ∧ row ∈ log_streams db ∧ os_log_stream_id o = ls_id row ∧ os_placement_id o = pl.
Proof.
  unfold output_row. intros Hh. assert ((o, row) ∈ omap (λ o, if String.eqb (os_placement_id o) pl
     then s ← fetch (λ s, String.eqb (ls_id s) (os_log_stream_id o)) (log_streams db); Some (o, s)
     else None) (fleet_output_streams db)) as Hin.
  { destruct (omap _ _); [done|]. simpl in Hh. injection Hh as ->. by left. }
  apply list_elem_of_omap in Hin as (o' & Hin & Ho'). destruct (String.eqb_spec (os_placement_id o') pl) as [Hp|]; [|done].
  apply bind_Some in Ho' as (s & [Hs Heq%String.eqb_eq]%fetch_Some & [= <- <-]). done.
Qed.

Lemma stored_ok w o row :
  good w → output_row (st_db w) pl = Some (o, row) →
  let s := stored_stream o row in
  stream_ok s ∧ writing s (holds (stream_path s) (stream_size s) (text_of_stream s)) w
  ∧ stream_received s = os_received_bytes o.
Proof.
  intros Hg (Ho & Hr & Heq & Hp)%output_row_Some s. pose proof (rows_ok w Hg o row Ho Hr Heq) as Hrow.
  destruct Hrow as [Hpath Hsize Hrec Hknown Hlength Htext].
  assert (stream_size s = ls_size_bytes row) as Hz by (simpl; lia).
  assert (stream_received s = os_received_bytes o) as Hv by (simpl; lia).
  assert (stream_ok s) as Hs.
  { split; rewrite ?Hz, ?Hv; try done; [|by rewrite <-Hp]. simpl. rewrite <-Heq. by apply (key_length w). }
  assert (as_read s (st_db w) (st_step w)) as Hread.
  { split; [done|]. intros o' row' Ho' Hr' Heq' Hid. simpl in Hid.
    assert (row' = row) as -> by (eapply unique_by; [apply (stream_keys w Hg)|done..]).
    assert (o' = o) as -> by (eapply unique_by; [apply (output_keys w Hg)|done..|congruence]).
    by rewrite Hz. }
  split_and!; [done| |done]. split_and!; [done|by apply as_read_covers|done|].
  unfold holds, text_of_stream. rewrite Hz, Hv, <-Hp. done.
Qed.

Lemma runs_append auth chunk data :
  pl = to_string (oc_placement_id chunk) → standard_decode (oc_data chunk) = Some data → honest chunk data →
  runs (λ w, good w ∧ continues chunk (st_db w) ∧ (S (st_step w) < horizon)%nat)
       (append_runner_output read_days auth chunk) (λ _, good) good.
Proof.
  intros Hpl Hdata Hh. unfold append_runner_output. rewrite Hdata.
  destruct (Z.ltb_spec MAX_OUTPUT_CHUNK_BYTES (Z.of_nat (length data))); [by apply runs_rejects; intros ? []|].
  destruct (Z.ltb_spec i64_max (oc_offset chunk + Z.of_nat (length data))); [by apply runs_rejects; intros ? []|].
  eapply runs_bind; [apply runs_clock|]. intros now. simpl.
  eapply (runs_bind _ _ (λ x w, good w ∧ continues chunk (st_db w) ∧ (st_step w < horizon)%nat
    ∧ x.2 = output_row (st_db w) pl)).
  { apply (runs_transaction _ _ (λ w, good w ∧ continues chunk (st_db w) ∧ (st_step w < horizon)%nat)).
    - intros w (Hg & Hc & Hh'). split_and!; [by apply good_arrive|by apply (continues_lasting chunk w)|done].
    - by intros w [].
    - intros w db [runner found] (Hg & Hc & Hh') Hr. unfold read_output in Hr. inv_result. simpl. destruct w.
      split_and!; try done. by rewrite Hpl. }
  intros [runner [[o row]|]].
  - destruct (ls_complete row); [apply runs_ret; by intros w []|].
    intros w (Hg & Hc & _ & Hfound). simpl in Hfound. symmetry in Hfound.
    destruct (stored_ok w o row Hg Hfound) as (Hs & Hw & Hv).
    apply output_row_Some in Hfound as (Ho & Hr & Heq & Hp).
    eapply (runs_append_to _ auth chunk data runner Hs Hpl Hh); [|done|done|exact Hw].
    left. rewrite Hv. by eapply Hc.
  - intros w (Hg & Hc & Hhor & _). set (s := new_stream (to_string (drawn (st_step w)))).
    assert (stream_ok s) as Hs.
    { split; simpl; try done; [apply to_string_length|by left|unfold i64_max; lia]. }
    set (w' := {| st_db := st_db w; st_files := st_files w; st_step := S (st_step w) |}).
    assert (good w') as Hg'. { destruct Hg as [? ? ? Hu ?]. split; try done. intros x n Hn Hx Heq. simpl.
      specialize (Hu x n Hn Hx Heq). lia. }
    assert (as_read s (st_db w') (st_step w')) as Hread.
    { split.
      - intros _. split; [|exists (st_step w); split_and!; [done|simpl; lia|done]].
        intros row Hin Heq. pose proof (keys_used w Hg row _ Hhor Hin Heq). lia.
      - intros o row Ho Hr Heq Hid. pose proof (keys_used w Hg row _ Hhor Hr Hid). lia. }
    apply (runs_append_to s auth chunk data runner Hs Hpl Hh); [by right|done|done|].
    split_and!; [done|by apply as_read_covers|done|]. split; [simpl; lia|done].
Qed.
End spec.

(** ** The log of a runner *)
Section log.
Context `{Circumstances, UuidText} (horizon : nat) `{!CircumstanceLaws horizon} (read_days : string → option Z).
(** What the runner of each placement wrote, to its end. *)
Context (output : string → list Z).

(** Honest chunks that start within what was received, however the append
    ends, and everything else that happens to the tables. *)
Inductive output_step : Disk → Disk → Prop :=
| append_step auth chunk data w :
    standard_decode (oc_data chunk) = Some data →
    honest output (to_string (oc_placement_id chunk)) chunk data →
    continues (to_string (oc_placement_id chunk)) chunk (st_db w) → (S (st_step w) < horizon)%nat →
    output_step w (append_runner_output read_days auth chunk w).2
| other_step w : output_step w (arrive w).

Lemma good_step w w' : output_step w w' → good output horizon w → good output horizon w'.
Proof.
  intros [auth chunk data w1 Hd Hh Hc Hhor|w1] Hg; [|by apply good_arrive].
  pose proof (runs_append read_days output horizon _ auth chunk data eq_refl Hd Hh w1 (conj Hg (conj Hc Hhor))) as Hr.
  by destruct (append_runner_output read_days auth chunk w1) as [[]].
Qed.

Lemma good_reach w0 w :
  fleet_output_streams (st_db w0) = [] → NoDup (ls_id <$> log_streams (st_db w0)) →
  (∀ s n, (n < horizon)%nat → s ∈ log_streams (st_db w0) → ls_id s ≠ to_string (drawn n)) →
  rtc output_step w0 w → good output horizon w.
Proof.
  intros Ho Hk Hd Hsteps. assert (good output horizon w0) as Hg0.
  { split; rewrite ?Ho; try done; try apply NoDup_nil_2; try by intros ? ?%elem_of_nil.
    - intros s n Hn Hin Heq. by destruct (Hd s n Hn Hin).
    - intros o s Hin%elem_of_nil. done. }
  clear Ho Hk Hd. induction Hsteps; [done|]. eauto using good_step.
Qed.

(** C14: the stored log of a runner is what the runner wrote.  Wherever appends
    fail or the process ends, however often chunks are sent again and whatever
    else is committed in between, the bytes a stream's row counts are in its
    file and are the last of what was received of that placement's output, at
    most 32 MiB of it. *)
Theorem stored_log_is_genuine w0 w :
  fleet_output_streams (st_db w0) = [] → NoDup (ls_id <$> log_streams (st_db w0)) →
  (∀ s n, (n < horizon)%nat → s ∈ log_streams (st_db w0) → ls_id s ≠ to_string (drawn n)) →
  rtc output_step w0 w →
  ∀ o s, o ∈ fleet_output_streams (st_db w) → s ∈ log_streams (st_db w) → os_log_stream_id o = ls_id s →
    stored (st_files w) (ls_path s) (ls_size_bytes s)
    = last_bytes (ls_size_bytes s) (so_far (output (os_placement_id o)) (os_received_bytes o))
    ∧ Z.of_nat (length (stored (st_files w) (ls_path s) (ls_size_bytes s))) = ls_size_bytes s
    ∧ 0 ≤ ls_size_bytes s ≤ MAX_STREAM_BYTES
    ∧ ls_size_bytes s ≤ os_received_bytes o ≤ Z.of_nat (length (output (os_placement_id o))).
Proof.
  intros Ho Hk Hd Hsteps. pose proof (good_reach w0 w Ho Hk Hd Hsteps) as Hg.
  intros o s Hino Hins Heq. destruct (rows_ok output horizon w Hg o s Hino Hins Heq) as [_ Hz Hr [Hlen _] Hl Ht].
  split_and!; try done; try lia. unfold stored. rewrite length_take. lia.
Qed.

(** ** Without faults *)
Section quiet.
Hypothesis calm : ∀ n, fault n = Fine.
Hypothesis alone : ∀ n db, others n db = db.

Lemma quiet_files {A} (f : option nat → Files → option (A * Files)) w a fs :
  f None (st_files w) = Some (a, fs) →
  on_files f w = (Ok a, {| st_db := st_db w; st_files := fs; st_step := S (st_step w) |}).
Proof. intros Hf. unfold on_files, arrive. simpl. by rewrite calm, alone, Hf. Qed.

Lemma quiet_transaction {A} (f : OutputDb → Result (OutputDb * A) RegistryError) w db a :
  f (st_db w) = Ok (db, a) →
  transaction f w = (Ok a, {| st_db := db; st_files := st_files w; st_step := S (st_step w) |}).
Proof. intros Hf. unfold transaction, arrive. simpl. by rewrite calm, alone, Hf. Qed.

Lemma quiet_write s fresh end_ w :
  0 ≤ stream_size s → (0 < stream_size s → is_Some (st_files w !! stream_path s)) →
  Z.of_nat (length fresh) ≤ MAX_OUTPUT_CHUNK_BYTES →
  ∃ path size fs step, write_output s fresh end_ w
    = (Ok (path, size), {| st_db := st_db w; st_files := fs; st_step := step |}).
Proof.
  intros H0' Hfile Hlen. unfold write_output. case_bool_decide; [destruct w; by eexists _, _, _, _|].
  destruct (Z.leb_spec (stream_size s + Z.of_nat (length fresh)) MAX_STREAM_BYTES) as [Hm|Hm];
    unfold mbind, Act_bind.
  - unfold create_dir. erewrite quiet_files by done. unfold open_create. erewrite quiet_files by done.
    unfold set_len. erewrite quiet_files; [|simpl; by rewrite lookup_insert_eq].
    unfold write_all. erewrite quiet_files; [|simpl; by rewrite lookup_insert_eq].
    unfold flush. erewrite quiet_files by done. by eexists _, _, _, _.
  - destruct Hfile as [f Hf]; [unfold MAX_OUTPUT_CHUNK_BYTES, MAX_STREAM_BYTES in *; lia|].
    unfold newest_output, mbind, Act_bind, read_at. erewrite quiet_files; [|simpl; by rewrite Hf].
    simpl. unfold fs_write. erewrite quiet_files by done. by eexists _, _, _, _.
Qed.

Lemma quiet_remove path w : ∃ r fs step, attempt (remove_file path) w
  = (Ok r, {| st_db := st_db w; st_files := fs; st_step := step |}).
Proof.
  unfold attempt, remove_file, on_files, arrive. simpl. rewrite calm, alone.
  destruct (st_files w !! path); simpl; by eexists _, _, _.
Qed.

(** The tables say that the stream received the chunk. *)
Definition says (chunk : RunnerOutputChunk) (received : Z) (db : OutputDb) : Prop :=
  ∃ o row, o ∈ fleet_output_streams db ∧ row ∈ log_streams db ∧ os_log_stream_id o = ls_id row
    ∧ os_placement_id o = to_string (oc_placement_id chunk)
    ∧ os_received_bytes o = received ∧ ls_complete row = oc_finished chunk.

Lemma record_says db auth chunk runner o row path size received now :
  authorize_output db auth chunk now = Ok runner →
  output_row db (to_string (oc_placement_id chunk)) = Some (o, row) → ls_complete row = false →
  received ≤ i64_max →
  ∃ db', record_output read_days db auth chunk runner (stored_stream o row) path size received now = Ok (db', true)
         ∧ says chunk received db'.
Proof.
  intros Hauth (Ho & Hr & Heq & Hp)%output_row_Some Hopen Hmax. unfold record_output. rewrite Hauth. simpl.
  assert (String.eqb (ls_id row) (ls_id row) && negb (ls_complete row) = true) as Hlive
    by (by rewrite String.eqb_refl, Hopen).
  rewrite (proj2 (existsb_exists _ _)) by (exists row; split; [by apply list_elem_of_In|done]). simpl.
  eexists. split; [done|].
  exists (received_row received o), (recorded_row chunk path size now (job_of_runner db runner) row).
  split_and!; try done.
  - apply elem_of_update_where. exists o. split; [done|]. by rewrite Heq, String.eqb_refl.
  - apply elem_of_update_where. exists row. split; [done|]. by rewrite Hlive.
  - simpl. lia.
Qed.

Lemma quiet_append_to auth chunk data end_ runner s w db path size fs step :
  let fresh := drop (Z.to_nat (Z.min (Z.max (stream_received s - oc_offset chunk) 0) (Z.of_nat (length data)))) data in
  write_output s fresh end_ w = (Ok (path, size), {| st_db := st_db w; st_files := fs; st_step := step |}) →
  record_output read_days (st_db w) auth chunk runner s path size (Z.max (stream_received s) end_)
    (clock_at step) = Ok (db, true) →
  ∃ fs' step', append_to read_days auth chunk data end_ runner s w
    = (Ok {| or_received := Z.max (stream_received s) end_; or_finished := oc_finished chunk |},
       {| st_db := db; st_files := fs'; st_step := step' |}).
Proof.
  intros fresh Hw Hrec. unfold append_to. fold fresh. unfold mbind at 1, Act_bind at 1. rewrite Hw.
  unfold mbind at 1, Act_bind at 1, read_clock. unfold mbind at 1, Act_bind at 1, attempt at 1.
  erewrite quiet_transaction by exact Hrec.
  destruct (String.eqb path (stream_path s)); [by eexists _, _|]. unfold mbind, Act_bind.
  match goal with |- context [attempt (remove_file ?p) ?x] => destruct (quiet_remove p x) as (rr & fs' & step' & ->) end.
  by eexists _, _.
Qed.

(** An append that meets no fault takes the whole chunk.  It answers with
    the end of the chunk, or what was received if that is more, and the stream
    says the same. *)
Theorem append_completes auth chunk data runner w o row :
  good output horizon w → standard_decode (oc_data chunk) = Some data → Z.of_nat (length data) ≤ MAX_OUTPUT_CHUNK_BYTES →
  oc_offset chunk + Z.of_nat (length data) ≤ i64_max →
  (∀ n, authorize_output (st_db w) auth chunk (clock_at n) = Ok runner) →
  output_row (st_db w) (to_string (oc_placement_id chunk)) = Some (o, row) → ls_complete row = false →
  let received := Z.max (os_received_bytes o) (oc_offset chunk + Z.of_nat (length data)) in
  let r := append_runner_output read_days auth chunk w in
  r.1 = Ok {| or_received := received; or_finished := oc_finished chunk |} ∧ says chunk received (st_db r.2).
Proof.
  intros Hg Hd Hlen Hmax Hauth Hrow Hopen received.
  destruct (stored_ok output horizon _ w o row Hg Hrow) as (Hs & (_ & _ & _ & [Hl _]) & Hv).
  set (s := stored_stream o row) in *. set (end_ := oc_offset chunk + Z.of_nat (length data)) in *.
  pose proof (so_size _ _ s Hs) as [Hz _]. pose proof (so_known _ _ s Hs) as [_ Hk].
  set (w1 := {| st_db := st_db w; st_files := st_files w; st_step := S (st_step w) |}).
  destruct (quiet_write s (drop (Z.to_nat (Z.min (Z.max (stream_received s - oc_offset chunk) 0)
    (Z.of_nat (length data)))) data) end_ w1 Hz) as (path & size & fs & step & Hw).
  { intros Hpos. unfold file in Hl. simpl in *. destruct (st_files w !! ls_path row); [done|simpl in Hl; lia]. }
  { rewrite length_drop. lia. }
  destruct (record_says (st_db w) auth chunk runner o row path size (Z.max (stream_received s) end_) (clock_at step))
    as (db & Hrec & Hsays); [done..|lia|].
  destruct (quiet_append_to auth chunk data end_ runner s w1 db path size fs step Hw Hrec) as (fs' & step' & Hto).
  assert (append_runner_output read_days auth chunk w = append_to read_days auth chunk data end_ runner s w1) as ->.
  { unfold append_runner_output. rewrite Hd, (proj2 (Z.ltb_ge _ _) Hlen). fold end_.
    rewrite (proj2 (Z.ltb_ge _ _) Hmax). unfold mbind, Act_bind, read_clock.
    erewrite quiet_transaction; [|unfold read_output; rewrite Hauth; simpl; by rewrite Hrow].
    simpl. by rewrite Hopen. }
  rewrite Hto. unfold received. rewrite <-Hv. done.
Qed.
End quiet.
End log.

(** ** Two lines of output, and an end of the process in between *)
Module SampleOutput.
#[local] Existing Instances Hyphenated.uuid_text Plain.codec PlainAead.aead SampleRun.result_json.
Import SampleFleet SampleRun.

Definition runner : RunnerRow :=
  {| rn_id := "runner"; rn_pool_id := "pool"; rn_target_repository_id := None; rn_provider := "fleet";
     rn_status := "idle"; rn_busy := false; rn_deleted_at := None; rn_ci_platform := "github"; rn_os := "linux";
     rn_updated_at := 0; rn_name := "runner-1"; rn_architecture := "x64"; rn_ephemeral := true;
     rn_configuration_version := 1; rn_runtime := "container"; rn_created_at := 0; rn_failure_reason := None;
     rn_github_runner_id := None; rn_container_id := None; rn_container_name := None;
     rn_registered_at := None; rn_last_heartbeat_at := None; rn_bitbucket_connection_id := None;
     rn_bitbucket_runner_uuid := None |}.

Definition empty_log : Disk :=
  {| st_db := {| od_policy := policy <| runners := [runner] |>; od_work := w_running; runner_jobs := [];
                 log_streams := []; fleet_output_streams := [] |};
     st_files := ∅; st_step := 0 |}.

(** The process ends when it has written the second line and not recorded it. *)
#[local] Instance stumbles : Circumstances :=
  {| fault n := if bool_decide (n = 15%nat) then Dies 0 else Fine; others _ db := db;
     clock_at n := 7000 + Z.of_nat n; drawn n := 1000 + Z.of_nat n |}.

Lemma counted_laws `{Circumstances} :
  (∀ n db, others n db = db) → (∀ n, drawn n = 1000 + Z.of_nat n) → CircumstanceLaws 100.
Proof.
  intros Hothers Hdrawn. split.
  - intros n db. rewrite Hothers. split; [done| |done|done]. intros s Hs. left. by exists s.
  - intros n m Hn Hm Heq. apply (f_equal parse_str) in Heq.
    rewrite !parse_to_string in Heq by (rewrite Hdrawn; lia). rewrite !Hdrawn in Heq. simplify_eq. lia.
Qed.
#[local] Instance stumbles_laws : CircumstanceLaws 100.
Proof. by apply counted_laws. Qed.

Definition days (text : string) : option Z := None.
Definition wrote (placement : string) : list Z := bytes ("hello" +:+ String.String (Ascii.ascii_of_N 10) "world!").

Definition chunk (offset : Z) (data : string) (finished : bool) : RunnerOutputChunk :=
  {| oc_authority_session_id := 7; oc_placement_id := 70; oc_offset := offset; oc_data := data;
     oc_finished := finished |}.
Definition hello : RunnerOutputChunk := chunk 0 "aGVsbG8K" false.
Definition world : RunnerOutputChunk := chunk 6 "d29ybGQh" true.

Definition then_append (c : RunnerOutputChunk) (w : Disk) : Disk := (append_runner_output days auth c w).2.
Definition first : Disk := then_append hello empty_log.
Definition cut : Disk := then_append world first.
Definition again : Disk := then_append world cut.

Lemma goes_on (c : RunnerOutputChunk) data w :
  standard_decode (oc_data c) = Some data → honest wrote (id 70) c data → oc_placement_id c = 70 →
  forallb (λ o, oc_offset c <=? os_received_bytes o) (fleet_output_streams (st_db w)) = true →
  (S (st_step w) <? 100)%nat = true → output_step 100 days wrote w (then_append c w).
Proof.
  intros Hd Hh Hp Hc Hs%Nat.ltb_lt. rewrite forallb_forall in Hc.
  eapply append_step; [exact Hd| | |exact Hs]; rewrite Hp; [exact Hh|].
  intros o row Ho _ _ _. by apply Z.leb_le, Hc, list_elem_of_In.
Qed.

Lemma step_hello : output_step 100 days wrote empty_log first.
Proof. unfold first. eapply goes_on; [by vm_compute|by split|done|by vm_compute|by vm_compute]. Qed.
Lemma step_cut : output_step 100 days wrote first cut.
Proof. unfold cut. eapply goes_on; [by vm_compute|by split|done|by vm_compute|by vm_compute]. Qed.
Lemma step_again : output_step 100 days wrote cut again.
Proof. unfold again. eapply goes_on; [by vm_compute|by split|done|by vm_compute|by vm_compute]. Qed.

Lemma reaches_again : rtc (output_step 100 days wrote) empty_log again.
Proof. exact (rtc_l _ _ _ _ step_hello (rtc_l _ _ _ _ step_cut (rtc_once _ _ step_again))). Qed.

Definition the_row (w : Disk) : option (OutputStreamRow * LogStreamRow) := output_row (st_db w) (id 70).

Definition facts (w : Disk) : Prop :=
  match the_row w with
  | Some (o, s) => (os_placement_id o, os_received_bytes o, ls_complete s, ls_size_bytes s) = (id 70, 12, true, 12)
  | None => False
  end.

Lemma stored_log_is_genuine_witness :
  (append_runner_output days auth world first).1 = Err Died
  ∧ ∃ o s, the_row again = Some (o, s) ∧ os_received_bytes o = 12 ∧ ls_complete s = true
    ∧ stored (st_files again) (ls_path s) (ls_size_bytes s) = last_bytes 12 (so_far (wrote (id 70)) 12).
Proof.
  split; [by vm_compute|]. assert (facts again) as Hfacts by by vm_compute.
  pose proof reaches_again as Hreach. revert Hfacts Hreach. generalize again. intros w Hfacts Hreach.
  unfold facts in Hfacts. destruct (the_row w) as [[o s]|] eqn:Hf; [|destruct Hfacts].
  injection Hfacts as Hp Hr Hc Hz. exists o, s. split; [done|]. split; [exact Hr|]. split; [exact Hc|].
  destruct (output_row_Some (id 70) (st_db w) o s Hf) as (Ho & Hs & Heq & _).
  destruct (stored_log_is_genuine 100 days wrote empty_log w eq_refl (NoDup_nil_2)
    (λ s n _ Hin, match not_elem_of_nil s Hin with end) Hreach o s Ho Hs Heq) as [Ht _].
  rewrite Hp, Hr, Hz in Ht. rewrite Hz. exact Ht.
Defined.

(** A calm day. *)
Definition calm_day : Circumstances :=
  {| fault _ := Fine; others _ db := db; clock_at n := 7000; drawn n := 1000 + Z.of_nat n |}.

Lemma append_completes_witness :
  ∃ w, (append_runner_output (H:=calm_day) days auth hello empty_log).2 = w
  ∧ (append_runner_output (H:=calm_day) days auth world w).1 = Ok {| or_received := 12; or_finished := true |}.
Proof.
  eexists. split; [reflexivity|].
  assert (CircumstanceLaws (H:=calm_day) 100) as Hlaws by by apply counted_laws.
  assert (output_step (H:=calm_day) 100 days wrote empty_log (append_runner_output (H:=calm_day) days auth hello empty_log).2)
    as Hstep by (eapply append_step; [by vm_compute|by split|by intros o row ?%elem_of_nil|vm_compute; lia]).
  pose proof (good_reach (H:=calm_day) 100 days wrote empty_log _ eq_refl NoDup_nil_2
    (λ s n _ Hin, match not_elem_of_nil s Hin with end) (rtc_once _ _ Hstep)) as Hg.
  set (w := (append_runner_output (H:=calm_day) days auth hello empty_log).2) in *.
  assert (match the_row w with Some (o, s) => (os_received_bytes o, ls_complete s) = (6, false) | None => False end)
    as Hrow by by vm_compute.
  assert (authorize_output (st_db w) auth world 7000 = Ok "runner") as Hauth by by vm_compute.
  clearbody w. unfold the_row in Hrow. destruct (output_row (st_db w) (id 70)) as [[o s]|] eqn:Hf; [|destruct Hrow].
  injection Hrow as Hr Hc.
  pose proof (append_completes (H:=calm_day) 100 days wrote (λ _, eq_refl) (λ _ _, eq_refl) auth world
    (bytes "world!") "runner" w o s Hg eq_refl ltac:(by vm_compute) ltac:(by vm_compute) (λ _, Hauth) Hf Hc) as [Hres _].
  rewrite Hr in Hres. exact Hres.
Defined.
End SampleOutput.
