(* ===== verification/AgentLogs.v ===== *)
(** * The agent's own log: its buffer on the machine
    ([crates/gridops-host-agent/src/logs.rs], [ship_logs] of [supervisor.rs])
    and its storage
    ([crates/gridops-core/src/fleet/registry/logs.rs],
    [src/migrations/0029_fleet_placement_mode_and_agent_logs.sql]).

    Events are given as the lines they become; how tracing formats them is not
    modelled. *)
From stdpp Require Import pretty.
From S2P Require Import Prelude Base64 Ids Domain Protocol Outcomes Crypto Store Service Commands.
#[local] Open Scope string_scope.
#[local] Open Scope Z_scope.

Record AgentLogLine := {
  al_logged_at : Z; al_level : string; al_target : string; al_message : string }.
#[export] Instance AgentLogLine_dec : EqDecision AgentLogLine.
Proof. solve_decision. Defined.

(** ** The buffer of the agent *)
Module LogBuffer.
Definition BUFFER_LINES : Z := 5000.
Definition BATCH_LINES : nat := 500.
Definition BATCH_BYTES : Z := 512 * 1024.

Record State := { lines : list AgentLogLine; dropped : Z }.

Definition line_bytes (line : AgentLogLine) : Z := byte_len (al_message line) + byte_len (al_target line) + 64.

(** [take_while] over the running sum of the bytes, counted. *)
Fixpoint fitting (bytes : Z) (l : list AgentLogLine) : nat :=
  match l with
  | [] => 0
  | line :: l => if bytes + line_bytes line <=? BATCH_BYTES then S (fitting (bytes + line_bytes line) l) else 0
  end.

Definition batch_count (l : list AgentLogLine) : nat :=
  Nat.max (fitting 0 (take BATCH_LINES l)) (match l with [] => 0 | _ => 1 end).

Definition take_batch (s : State) : (list AgentLogLine * Z) * State :=
  let count := batch_count (lines s) in
  ((take count (lines s), dropped s), {| lines := drop count (lines s); dropped := 0 |}).

Definition full (s : State) : bool := BUFFER_LINES <=? Z.of_nat (length (lines s)).

(** A step of the loop of [restore]. *)
Definition put_back (s : State) (line : AgentLogLine) : State :=
  if full s then {| lines := lines s; dropped := dropped s + 1 |}
  else {| lines := line :: lines s; dropped := dropped s |}.

Definition restore (batch : list AgentLogLine) (n : Z) (s : State) : State :=
  foldl put_back {| lines := lines s; dropped := dropped s + n |} (rev batch).

Definition push (line : AgentLogLine) (s : State) : State :=
  let s := if full s then {| lines := tail (lines s); dropped := dropped s + 1 |} else s in
  {| lines := (lines s ++ [line])%list; dropped := dropped s |}.
End LogBuffer.

(** What becomes of an upload: it succeeds, it fails, which puts the batch
    back, or the session ends while it is under way, which drops the future
    that holds the batch. *)
Inductive Upload := Delivered | Failed | Abandoned.

(** [ship_logs] between its awaits: the buffer, which the agent goes on
    filling, and the batch it holds while [post_logs] is under way. *)
Record Uploader := { waiting : LogBuffer.State; sending : option (list AgentLogLine * Z) }.

(** The inner loop up to [post_logs]: an empty batch ends it. *)
Definition ship_take (u : Uploader) : Uploader :=
  match sending u with
  | Some _ => u
  | None =>
      let '((batch, n), s) := LogBuffer.take_batch (waiting u) in
      {| waiting := s; sending := if bool_decide (batch = []) && (n =? 0) then None else Some (batch, n) |}
  end.

(** The end of [post_logs], and what follows it. *)
Definition ship_end (upload : Upload) (u : Uploader) : Uploader :=
  match sending u with
  | None => u
  | Some (batch, n) =>
      {| waiting := match upload with
                    | Delivered | Abandoned => waiting u
                    | Failed => LogBuffer.restore batch n (waiting u)
                    end; sending := None |}
  end.

(** ** Storage *)
Record AgentLogBatch := { ab_lines : list AgentLogLine; ab_dropped : Z }.

Record AgentLogRow := { lg_id : Z; lg_host_id : string; lg_line : AgentLogLine; lg_received_at : Z }.

Definition AGENT_LOG_RETENTION_MILLIS : Z := 86400000.
Definition MAX_BATCH : Z := 500.
Definition AGENT_LOG_LINES_PER_HOUR : Z := 6000.
Definition HOUR_MILLIS : Z := 3600000.
Definition NOTICE_TARGET : string := "gridops".

(** [is_char_boundary], and the loop that looks for one. *)
Definition is_char_boundary (value : string) (n : nat) : bool :=
  match n with
  | O => true
  | _ => match bytes value !! n with
         | Some b => negb (is_continuation b)
         | None => (n =? String.length value)%nat
         end
  end.

Fixpoint boundary_from (value : string) (n : nat) : nat :=
  match n with
  | O => O
  | S n' => if is_char_boundary value n then n else boundary_from value n'
  end.

Definition truncate (value : string) (max : nat) : string :=
  if (max <? String.length value)%nat then String.substring 0 (boundary_from value max) value else value.

Definition clean_line (line : AgentLogLine) : AgentLogLine :=
  {| al_logged_at := al_logged_at line;
     al_level := if bool_decide (al_level line ∈ ["error"; "warn"; "info"; "debug"; "trace"])
                 then al_level line else "info";
     al_target := truncate (al_target line) 128;
     al_message := truncate (al_message line) 8192 |}.

Definition notice (now : Z) (message : string) : AgentLogLine :=
  {| al_logged_at := now; al_level := "warn"; al_target := NOTICE_TARGET; al_message := message |}.

Definition dropped_notice (now n : Z) : AgentLogLine :=
  notice now (pretty n +:+ " agent log lines were dropped while GridOps was unreachable").
Definition flood_notice (now : Z) : AgentLogLine :=
  notice now ("this machine sent more than " +:+ pretty AGENT_LOG_LINES_PER_HOUR
              +:+ " log lines this hour; the rest of the hour's lines are dropped").

(** [ORDER BY id DESC]. *)
Definition newest_first (a b : AgentLogRow) : bool := lg_id b <=? lg_id a.

Definition shipped_by (host : string) (r : AgentLogRow) : bool :=
  String.eqb (lg_host_id r) host && negb (String.eqb (al_target (lg_line r)) NOTICE_TARGET).

Definition newest_line (rows : list AgentLogRow) (host : string) : option AgentLogLine :=
  lg_line <$> head (order_by newest_first (select (shipped_by host) rows)).

(** [rposition] and the drain: what follows the last occurrence. *)
Fixpoint after_last (line : AgentLogLine) (l : list AgentLogLine) : option (list AgentLogLine) :=
  match l with
  | [] => None
  | a :: l => match after_last line l with
              | Some rest => Some rest
              | None => if bool_decide (a = line) then Some l else None
              end
  end.

Definition not_yet_stored (rows : list AgentLogRow) (host : string) (l : list AgentLogLine) : list AgentLogLine :=
  match newest_line rows host with
  | Some newest => default l (after_last newest l)
  | None => l
  end.

Definition stored_this_hour (rows : list AgentLogRow) (host : string) (now : Z) : Z :=
  count_rows (λ r, String.eqb (lg_host_id r) host && (now - now mod HOUR_MILLIS <=? lg_received_at r)) rows.

(** The cap: [room] lines, and once a notice. *)
Definition within_cap (stored now : Z) (l : list AgentLogLine) : list AgentLogLine :=
  let room := Z.max (AGENT_LOG_LINES_PER_HOUR - stored) 0 in
  if room <? Z.of_nat (length l)
  then (take (Z.to_nat room) l
        ++ if stored <=? AGENT_LOG_LINES_PER_HOUR then [flood_notice now] else [])%list
  else l.

Definition lines_to_store (rows : list AgentLogRow) (host : string) (batch : AgentLogBatch) (now : Z)
    : list AgentLogLine :=
  let l := not_yet_stored rows host (clean_line <$> ab_lines batch) in
  let l := if 0 <? ab_dropped batch then (l ++ [dropped_notice now (ab_dropped batch)])%list else l in
  within_cap (stored_this_hour rows host now) now l.

(** [INTEGER PRIMARY KEY]: one more than the greatest there is. *)
Definition next_id (rows : list AgentLogRow) : Z := foldr (λ r m, Z.max (lg_id r) m) 0 rows + 1.

Definition insert_line (host : string) (now : Z) (rows : list AgentLogRow) (line : AgentLogLine)
    : list AgentLogRow :=
  (rows ++ [{| lg_id := next_id rows; lg_host_id := host; lg_line := line; lg_received_at := now |}])%list.

Definition expired (host : string) (now : Z) (r : AgentLogRow) : bool :=
  String.eqb (lg_host_id r) host && (lg_received_at r <? now - AGENT_LOG_RETENTION_MILLIS).

Section storage.
Context `{UuidText} (p : Policy).

Definition store_agent_logs (rows : list AgentLogRow) (auth : AuthenticatedHost) (batch : AgentLogBatch) (now : Z)
    : Result (list AgentLogRow) RegistryError :=
  if MAX_BATCH <? Z.of_nat (length (ab_lines batch)) then Err (RegInvalidRequest "too many log lines") else
  let? _ := ensure_authenticated_generation p auth now in
  let host := to_string (ah_host_id auth) in
  let rows' := foldl (insert_line host now) rows (lines_to_store rows host batch now) in
  Ok (select (λ r, negb (expired host now r)) rows').

(** The newest lines, oldest first. *)
Definition agent_logs (rows : list AgentLogRow) (principal : Principal) (host : Uuid) (limit : Z)
    : Result (list AgentLogRow) RegistryError :=
  match principal with
  | AuthenticatedUser user =>
      let? _ := ensure_system_admin p user in
      let mine := order_by newest_first
                    (select (λ r, String.eqb (lg_host_id r) (to_string host)) rows) in
      Ok (order_by (λ a b, lg_id a <=? lg_id b) (take (Z.to_nat (Z.min limit 1000)) mine))
  | _ => Err RegForbidden
  end.
End storage.
