(* ===== verification/AgentLogsSpec.v ===== *)
(** * What becomes of an agent's log lines.

    On the machine the only lines that vanish uncounted are those of an upload
    that was abandoned.  In the database a machine stores at most 6001
    lines in a clock hour, and a batch that is sent again is stored once. *)
From stdpp Require Import pretty.
From S2P Require Import Prelude Base64 Ids Domain Protocol Outcomes Crypto Store Service AdmissionSpec Commands Placement Fleet AgentLogs.
#[local] Open Scope string_scope.
#[local] Open Scope Z_scope.

(** ** The buffer *)
Section buffer.
Import LogBuffer.
Implicit Types (s : State) (l : list AgentLogLine).

(** What happened: a line was logged, the uploader took a batch, or the upload
    of the batch it held ended. *)
Inductive Event := Logged (line : AgentLogLine) | Taken | Ended (upload : Upload).

(** The batches that were acknowledged and those that were abandoned. *)
Record Tally := {
  acknowledged : list (list AgentLogLine * Z); abandoned : list (list AgentLogLine * Z);
  uploader : Uploader }.

Definition happen (t : Tally) (e : Event) : Tally :=
  match e with
  | Logged line =>
      {| acknowledged := acknowledged t; abandoned := abandoned t;
         uploader := {| waiting := push line (waiting (uploader t)); sending := sending (uploader t) |} |}
  | Taken => {| acknowledged := acknowledged t; abandoned := abandoned t; uploader := ship_take (uploader t) |}
  | Ended upload =>
      let batch := option_list (sending (uploader t)) in
      {| acknowledged := match upload with Delivered => acknowledged t ++ batch | _ => acknowledged t end;
         abandoned := match upload with Abandoned => abandoned t ++ batch | _ => abandoned t end;
         uploader := ship_end upload (uploader t) |}
  end%list.

Definition nothing : Tally :=
  {| acknowledged := []; abandoned := [];
     uploader := {| waiting := {| lines := []; dropped := 0 |}; sending := None |} |}.
Definition history (events : list Event) : Tally := foldl happen nothing events.
Definition logged (events : list Event) : list AgentLogLine :=
  omap (λ e, match e with Logged line => Some line | _ => None end) events.

(** The lines of batches, and what they say was dropped. *)
Definition lines_of (batches : list (list AgentLogLine * Z)) : list AgentLogLine := concat (fst <$> batches).
Definition told_dropped (batches : list (list AgentLogLine * Z)) : Z := sum_rows snd batches.
Definition in_flight (t : Tally) : list (list AgentLogLine * Z) := option_list (sending (uploader t)).
Definition kept_lines (t : Tally) : list AgentLogLine := lines (waiting (uploader t)).

(** The lines that were acknowledged, are under way or wait, and those that
    are counted as dropped. *)
Definition accounted (t : Tally) : Z :=
  Z.of_nat (length (lines_of (acknowledged t))) + Z.of_nat (length (lines_of (in_flight t)))
  + Z.of_nat (length (kept_lines t))
  + told_dropped (acknowledged t) + told_dropped (in_flight t) + dropped (waiting (uploader t)).

(** What abandoned uploads took with them. *)
Definition forgotten (t : Tally) : Z :=
  Z.of_nat (length (lines_of (abandoned t))) + told_dropped (abandoned t).

Lemma log_lines_app a b : lines_of (a ++ b)%list = (lines_of a ++ lines_of b)%list.
Proof. unfold lines_of. by rewrite fmap_app, concat_app. Qed.
Lemma told_dropped_app a b : told_dropped (a ++ b)%list = told_dropped a + told_dropped b.
Proof. apply sum_rows_app. Qed.

Lemma lines_of_one batch n : lines_of [(batch, n)] = batch.
Proof. unfold lines_of. simpl. by rewrite app_nil_r. Qed.
Lemma told_dropped_one (batch : list AgentLogLine) n : told_dropped [(batch, n)] = n.
Proof. unfold told_dropped. simpl. lia. Qed.

Lemma batch_count_le l : (batch_count l ≤ length l ∧ batch_count l ≤ BATCH_LINES)%nat.
Proof.
  assert (∀ k b, fitting b k ≤ length k)%nat as Hf.
  { induction k as [|a k IH]; intros b; simpl; [lia|]. case_match; [|lia]. specialize (IH (b + line_bytes a)). lia. }
  unfold batch_count. specialize (Hf (take BATCH_LINES l) 0). rewrite length_take in Hf.
  unfold BATCH_LINES in *. destruct l; cbn [length] in *; lia.
Qed.

Lemma put_back_all batch s :
  let s' := foldl put_back s batch in
  lines s' `sublist_of` (rev batch ++ lines s)%list
  ∧ Z.of_nat (length (lines s')) + dropped s' = Z.of_nat (length batch) + Z.of_nat (length (lines s)) + dropped s
  ∧ (Z.of_nat (length (lines s)) ≤ BUFFER_LINES → Z.of_nat (length (lines s')) ≤ BUFFER_LINES).
Proof.
  revert s. induction batch as [|a batch IH]; intros s; simpl; [split_and!; [done|lia|done]|].
  destruct (IH (put_back s a)) as (Hk & Hd & Hb). rewrite <-app_assoc. simpl. unfold put_back in *.
  destruct (full s) eqn:Hf; unfold full in Hf; bool_to_prop; cbn [lines dropped length] in *.
  - split_and!; [|lia|done]. etrans; [exact Hk|]. apply sublist_app; [done|]. by apply sublist_cons.
  - split_and!; [done|lia|lia].
Qed.

Lemma restore_all batch n s :
  let s' := restore batch n s in
  lines s' `sublist_of` (batch ++ lines s)%list
  ∧ Z.of_nat (length (lines s')) + dropped s' = Z.of_nat (length batch) + Z.of_nat (length (lines s)) + dropped s + n
  ∧ (Z.of_nat (length (lines s)) ≤ BUFFER_LINES → Z.of_nat (length (lines s')) ≤ BUFFER_LINES).
Proof.
  destruct (put_back_all (rev batch) {| lines := lines s; dropped := dropped s + n |}) as (Hs & Hd & Hb).
  rewrite rev_involutive, length_rev in *. simpl in *. unfold restore. split_and!; [done|lia|done].
Qed.

(** Kept by every event. *)
Record faithful (l : list AgentLogLine) (t : Tally) : Prop := {
  f_order : (lines_of (acknowledged t) ++ lines_of (in_flight t) ++ kept_lines t)%list `sublist_of` l;
  f_count : accounted t + forgotten t = Z.of_nat (length l);
  f_bound : Z.of_nat (length (kept_lines t)) ≤ BUFFER_LINES;
  f_flight : (length (lines_of (in_flight t)) ≤ BATCH_LINES)%nat }.

Lemma push_line line s :
  Z.of_nat (length (lines s)) ≤ BUFFER_LINES →
  let s' := push line s in
  lines s' `sublist_of` (lines s ++ [line])%list
  ∧ Z.of_nat (length (lines s')) + dropped s' = Z.of_nat (length (lines s)) + dropped s + 1
  ∧ Z.of_nat (length (lines s')) ≤ BUFFER_LINES.
Proof.
  intros Hb. unfold push, full.
  destruct (Z.leb_spec BUFFER_LINES (Z.of_nat (length (lines s)))) as [Hf|Hf]; cbn [lines dropped];
    rewrite length_app; cbn [length]; [|split_and!; [done|lia..]].
  unfold BUFFER_LINES in *. destruct (lines s) as [|a k] eqn:E; cbn [length tail] in *; [lia|].
  split_and!; [|lia..]. by apply sublist_cons.
Qed.

Lemma faithful_push l t line : faithful l t → faithful (l ++ [line])%list (happen t (Logged line)).
Proof.
  intros [Ho Hc Hb Hf]. destruct (push_line line (waiting (uploader t)) Hb) as (Hs & Hd & Hb').
  unfold accounted, forgotten, kept_lines, in_flight in *.
  split; unfold accounted, forgotten, kept_lines, in_flight;
    cbn [happen uploader waiting sending acknowledged abandoned] in *; [| |done..].
  - apply (sublist_app _ _ [line] [line]) in Ho; [|done]. etrans; [|exact Ho]. rewrite <-!app_assoc.
    apply sublist_app; [done|]. by apply sublist_app.
  - rewrite length_app. cbn [length]. lia.
Qed.

Lemma ship_take_all u :
  sending u = None →
  let u' := ship_take u in
  (lines_of (option_list (sending u')) ++ lines (waiting u'))%list = lines (waiting u)
  ∧ told_dropped (option_list (sending u')) + dropped (waiting u') = dropped (waiting u)
  ∧ (length (lines_of (option_list (sending u'))) ≤ BATCH_LINES)%nat.
Proof.
  intros Es. unfold ship_take. rewrite Es. unfold take_batch. cbn beta iota zeta.
  set (k := batch_count (lines (waiting u))).
  destruct (batch_count_le (lines (waiting u))) as [Hk Hk']. fold k in Hk, Hk'.
  assert (length (take k (lines (waiting u))) = k) as Hlen by (rewrite length_take; lia).
  cbn [waiting sending lines dropped].
  destruct (bool_decide (take k _ = []) && (_ =? 0)) eqn:He; unfold lines_of, told_dropped; simpl.
  - bool_to_prop. split_and!; [|lia..]. rewrite <-(take_drop k (lines (waiting u))) at 2.
    match goal with Hx : take k _ = [] |- _ => by rewrite Hx end.
  - rewrite app_nil_r, take_drop. split_and!; [done|lia..].
Qed.

Lemma faithful_take l t : faithful l t → faithful l (happen t Taken).
Proof.
  intros [Ho Hc Hb Hf]. destruct (sending (uploader t)) as [b|] eqn:Es.
  { replace (happen t Taken) with t; [by split|].
    destruct t as [a b' u]. simpl in *. unfold ship_take. by rewrite Es. }
  destruct (ship_take_all _ Es) as (Hl & Hd & Hn). pose proof (f_equal length Hl) as Hlen. rewrite length_app in Hlen.
  unfold accounted, forgotten, kept_lines, in_flight in *. rewrite Es in Ho, Hc, Hf.
  split; unfold accounted, forgotten, kept_lines, in_flight; cbn [happen uploader acknowledged abandoned].
  - by rewrite Hl.
  - change (told_dropped (option_list None)) with 0 in Hc.
    change (lines_of (option_list None)) with (@nil AgentLogLine) in Hc. cbn [length] in Hc. lia.
  - lia.
  - done.
Qed.

Lemma faithful_end l t upload : faithful l t → faithful l (happen t (Ended upload)).
Proof.
  intros [Ho Hc Hb Hf]. unfold accounted, forgotten, kept_lines, in_flight in *.
  destruct (sending (uploader t)) as [[batch n]|] eqn:Es.
  2: { split; unfold accounted, forgotten, kept_lines, in_flight; cbn [happen uploader acknowledged abandoned];
         unfold ship_end; rewrite Es; cbn [option_list]; rewrite ?Es, ?app_nil_r; by destruct upload. }
  destruct (restore_all batch n (waiting (uploader t))) as (Hs & Hd & Hbd). specialize (Hbd Hb).
  change (option_list (Some (batch, n))) with [(batch, n)] in *.
  rewrite ?lines_of_one, ?told_dropped_one in *.
  split; unfold accounted, forgotten, kept_lines, in_flight; cbn [happen uploader acknowledged abandoned];
    unfold ship_end; rewrite Es; cbn [sending waiting];
    change (option_list (Some (batch, n))) with [(batch, n)];
    change (lines_of (option_list None)) with (@nil AgentLogLine); change (told_dropped (option_list None)) with 0;
    destruct upload; rewrite ?log_lines_app, ?told_dropped_app, ?lines_of_one, ?told_dropped_one, ?length_app;
    cbn [app length] in *; try lia; try done.
  - by rewrite <-app_assoc.
  - etrans; [|exact Ho]. by apply sublist_app.
  - etrans; [|exact Ho]. apply sublist_app; [done|]. by apply sublist_inserts_l.
Qed.

(** C18: no line of the agent's log vanishes uncounted.  Whatever is logged,
    also while an upload is under way, and however uploads end: the lines that
    were acknowledged, those under way and those that wait are lines that were
    logged, in their order, none twice; every other one is counted, in the counts
    that were acknowledged, under way or waiting, or went with an upload that was
    abandoned when its session ended; the buffer holds at most 5000 lines, and
    an upload at most 500. *)
Theorem no_line_vanishes events :
  let t := history events in
  (lines_of (acknowledged t) ++ lines_of (in_flight t) ++ kept_lines t)%list `sublist_of` logged events
  ∧ Z.of_nat (length (logged events)) = accounted t + forgotten t
  ∧ Z.of_nat (length (kept_lines t)) ≤ BUFFER_LINES
  ∧ (length (lines_of (in_flight t)) ≤ BATCH_LINES)%nat.
Proof.
  assert (faithful (logged events) (history events)) as [Ho Hc Hb Hf]; [|by split_and!].
  unfold history, logged. induction events as [|e events IH] using rev_ind; [split; simpl; (done || lia)|].
  rewrite foldl_app, omap_app. destruct e as [line| |upload]; cbn [omap list_omap foldl].
  - by apply faithful_push.
  - rewrite app_nil_r. by apply faithful_take.
  - rewrite app_nil_r. by apply faithful_end.
Qed.
End buffer.

(** ** The table *)
Section table.
Implicit Types (rows : list AgentLogRow) (l : list AgentLogLine).

(** The rows that the lines become. *)
Fixpoint new_rows (host : string) (now id : Z) l : list AgentLogRow :=
  match l with
  | [] => []
  | line :: l => {| lg_id := id; lg_host_id := host; lg_line := line; lg_received_at := now |}
                 :: new_rows host now (id + 1) l
  end.

Lemma next_id_above rows r : r ∈ rows → lg_id r < next_id rows.
Proof.
  unfold next_id. induction rows as [|a rows IH]; [by intros ?%elem_of_nil|].
  intros [->|Hin]%elem_of_cons; simpl; [lia|]. specialize (IH Hin). lia.
Qed.

Lemma next_id_snoc rows host line now :
  next_id (rows ++ [{| lg_id := next_id rows; lg_host_id := host; lg_line := line; lg_received_at := now |}])
  = next_id rows + 1.
Proof.
  assert (∀ r, next_id (rows ++ [r]) = Z.max (next_id rows) (Z.max (lg_id r) 0 + 1)) as Happ.
  { intros r. unfold next_id. induction rows as [|a rows IH]; simpl; lia. }
  rewrite Happ. simpl. assert (0 < next_id rows); [|lia].
  unfold next_id. clear. induction rows as [|a rows IH]; simpl; lia.
Qed.

Lemma inserted rows host now l :
  foldl (insert_line host now) rows l = (rows ++ new_rows host now (next_id rows) l)%list.
Proof.
  revert rows. induction l as [|a l IH]; intros rows; simpl; [by rewrite app_nil_r|].
  rewrite IH. unfold insert_line. rewrite next_id_snoc, <-app_assoc. done.
Qed.

Lemma new_rows_In host now id l r :
  r ∈ new_rows host now id l → lg_host_id r = host ∧ lg_received_at r = now ∧ lg_line r ∈ l ∧ id ≤ lg_id r < id + Z.of_nat (length l).
Proof.
  revert id. induction l as [|a l IH]; intros id; simpl; [by intros ?%elem_of_nil|].
  intros [->|Hin]%elem_of_cons; cbn [length lg_host_id lg_received_at lg_line lg_id];
    [split_and!; (done || by left || lia)|].
  destruct (IH _ Hin) as (-> & -> & Hl & Hid). split_and!; (done || by right || lia).
Qed.

Lemma length_new_rows host now id l : length (new_rows host now id l) = length l.
Proof. revert id. induction l; intros id; simpl; auto. Qed.

Lemma count_rows_le {A} (q q' : A → bool) (k : list A) :
  (∀ a, a ∈ k → q a = true → q' a = true) → count_rows q k ≤ count_rows q' k.
Proof.
  induction k as [|a k IH]; intros Hq; [done|]. rewrite !count_rows_cons.
  assert (count_rows q k ≤ count_rows q' k) by (apply IH; intros b Hb; apply Hq; by right).
  destruct (q a) eqn:Ha; [rewrite (Hq a) by (done || by left)|case_match]; lia.
Qed.

Lemma count_rows_length {A} (q : A → bool) (k : list A) : count_rows q k ≤ Z.of_nat (length k).
Proof. induction k as [|a k IH]; [done|]. rewrite count_rows_cons. cbn [length]. case_match; lia. Qed.

Lemma count_rows_select {A} (q r : A → bool) (k : list A) : count_rows q (select r k) ≤ count_rows q k.
Proof. induction k as [|a k IH]; [done|]. simpl. destruct (r a); rewrite ?count_rows_cons; case_match; lia. Qed.

(** *** The cap *)
(** The lines of a machine in the clock hour that starts at [hour]. *)
Definition in_hour (host : string) (hour : Z) (r : AgentLogRow) : bool :=
  String.eqb (lg_host_id r) host && (hour <=? lg_received_at r) && (lg_received_at r <? hour + HOUR_MILLIS).

Lemma within_cap_bound stored now l :
  0 ≤ stored →
  stored ≤ AGENT_LOG_LINES_PER_HOUR + 1 →
  stored + Z.of_nat (length (within_cap stored now l)) ≤ AGENT_LOG_LINES_PER_HOUR + 1.
Proof.
  intros H0 H1. unfold within_cap. destruct (Z.ltb_spec (Z.max (AGENT_LOG_LINES_PER_HOUR - stored) 0)
    (Z.of_nat (length l))) as [Hl|Hl]; [|lia].
  rewrite length_app, length_take. destruct (Z.leb_spec stored AGENT_LOG_LINES_PER_HOUR); cbn [length]; lia.
Qed.

Lemma over_cap stored now l : AGENT_LOG_LINES_PER_HOUR < stored → within_cap stored now l = [].
Proof.
  intros Hs. unfold within_cap. rewrite Z.max_r by lia.
  rewrite (proj2 (Z.leb_gt _ _) Hs). destruct l; [done|]. simpl. done.
Qed.

Context `{UuidText} (p : Policy).

Inductive logs_step : list AgentLogRow → list AgentLogRow → Prop :=
| logs_stored rows auth batch now rows' :
    store_agent_logs p rows auth batch now = Ok rows' → logs_step rows rows'.

Lemma hour_kept rows rows' host k :
  logs_step rows rows' → let hour := k * HOUR_MILLIS in
  count_rows (in_hour host hour) rows ≤ AGENT_LOG_LINES_PER_HOUR + 1 →
  count_rows (in_hour host hour) rows' ≤ AGENT_LOG_LINES_PER_HOUR + 1.
Proof.
  intros [rows1 auth batch now rows2 Hstore] hour Hold. unfold store_agent_logs in Hstore. inv_result.
  etrans; [apply count_rows_select|]. rewrite inserted, count_rows_app.
  set (sender := to_string (ah_host_id auth)). set (l := lines_to_store rows1 sender batch now).
  destruct (decide (host = sender ∧ hour = now - now mod HOUR_MILLIS)) as [[-> Hhour]|Hno].
  - pose proof (count_rows_length (in_hour sender hour) (new_rows sender now (next_id rows1) l)) as Hn.
    rewrite length_new_rows in Hn.
    assert (count_rows (in_hour sender hour) rows1 ≤ stored_this_hour rows1 sender now) as Hle.
    { apply count_rows_le. intros r _ Hr. unfold in_hour in Hr. rewrite <-Hhour.
      by apply andb_true_iff in Hr as [Hr _]. }
    unfold l, lines_to_store in *.
    destruct (decide (stored_this_hour rows1 sender now ≤ AGENT_LOG_LINES_PER_HOUR)) as [Hs|Hs].
    + assert (0 ≤ stored_this_hour rows1 sender now) as H0' by (unfold stored_this_hour, count_rows; lia).
      pose proof (within_cap_bound (stored_this_hour rows1 sender now) now
        (let l := not_yet_stored rows1 sender (clean_line <$> ab_lines batch) in
         if 0 <? ab_dropped batch then (l ++ [dropped_notice now (ab_dropped batch)])%list else l) H0' ltac:(lia)).
      cbn zeta in *. lia.
    + rewrite over_cap in Hn |- * by lia. simpl in *. lia.
  - rewrite (count_rows_none _ (new_rows _ _ _ _)); [lia|]. intros r (Hh & Ht & _ & _)%new_rows_In.
    unfold in_hour. rewrite Hh, Ht. destruct (String.eqb_spec sender host) as [->|]; [|done]. simpl.
    apply not_true_iff_false. intros [H1 H2]%andb_true_iff. bool_to_prop. apply Hno. split; [done|].
    unfold hour in *. assert (k = now / HOUR_MILLIS) as ->.
    { unfold HOUR_MILLIS in *. apply Z.div_unique with (now - k * 3600000); lia. }
    pose proof (Z.div_mod now HOUR_MILLIS ltac:(done)). lia.
Qed.

(** C19: a machine cannot flood the log.  After any batches from any machines,
    at any clock readings, no machine has more than 6000 lines, and the notice
    that says so, from one clock hour. *)
Theorem hourly_cap rows host k :
  rtc logs_step [] rows →
  count_rows (in_hour host (k * HOUR_MILLIS)) rows ≤ AGENT_LOG_LINES_PER_HOUR + 1.
Proof.
  intros Hr. assert (count_rows (in_hour host (k * HOUR_MILLIS)) [] ≤ AGENT_LOG_LINES_PER_HOUR + 1) as H0' by done.
  revert H0'. induction Hr as [|rows1 rows2 rows3 Hs _ IH]; [done|]. intros Hle. apply IH. by eapply hour_kept.
Qed.

(** *** Batches that are sent again *)
Lemma after_last_none line b : line ∉ b → after_last line b = None.
Proof.
  induction b as [|c b IH]; [done|]. intros [Hc Hb]%not_elem_of_cons. simpl. rewrite IH by done.
  by rewrite bool_decide_false.
Qed.

Lemma after_last_app line a b : line ∉ b → after_last line (a ++ line :: b)%list = Some b.
Proof.
  intros Hb%after_last_none.
  induction a as [|c a IH]; simpl; [by rewrite Hb, bool_decide_true|by rewrite IH].
Qed.

Lemma within_cap_id stored now l :
  stored + Z.of_nat (length l) ≤ AGENT_LOG_LINES_PER_HOUR → within_cap stored now l = l.
Proof. intros Hl. unfold within_cap. by rewrite (proj2 (Z.ltb_ge _ _)) by lia. Qed.

Lemma newest_is rows host r line :
  r ∈ rows → lg_host_id r = host → lg_line r = line → al_target line ≠ NOTICE_TARGET →
  (∀ r', r' ∈ rows → r' = r ∨ lg_id r' < lg_id r) → newest_line rows host = Some line.
Proof.
  intros Hin Hh Hl Ht Hmax. unfold newest_line.
  assert (r ∈ select (shipped_by host) rows) as Hsel.
  { apply elem_of_select. split; [done|]. unfold shipped_by. rewrite Hh, Hl, String.eqb_refl.
    by rewrite (proj2 (String.eqb_neq _ _)). }
  destruct (order_by newest_first (select (shipped_by host) rows)) as [|x l] eqn:Ho.
  { apply (elem_of_order_by newest_first) in Hsel. rewrite Ho in Hsel. by apply elem_of_nil in Hsel. }
  simpl. assert (x ∈ rows) as Hx.
  { assert (x ∈ order_by newest_first (select (shipped_by host) rows)) as Hx' by (rewrite Ho; by left).
    apply elem_of_order_by, elem_of_select in Hx' as [? _]. done. }
  assert (newest_first x r = true) as Hle.
  { eapply (order_by_head newest_first); [| |exact Ho|done]; unfold newest_first; intros; bool_to_prop; lia. }
  destruct (Hmax x Hx) as [->|Hlt]; [by rewrite Hl|].
  unfold newest_first in Hle. bool_to_prop. lia.
Qed.

Lemma new_rows_app host now id a b :
  new_rows host now id (a ++ b)%list
  = (new_rows host now id a ++ new_rows host now (id + Z.of_nat (length a)) b)%list.
Proof.
  revert id. induction a as [|x a IH]; intros id; simpl; [by rewrite Z.add_0_r|]. rewrite IH.
  do 3 f_equal. lia.
Qed.

Lemma newest_after_store rows rows1 host first last now :
  al_target (clean_line last) ≠ NOTICE_TARGET →
  rows1 = select (λ r, negb (expired host now r))
            (rows ++ new_rows host now (next_id rows) (clean_line <$> (first ++ [last])%list))%list →
  newest_line rows1 host = Some (clean_line last).
Proof.
  intros Ht ->. rewrite fmap_app, new_rows_app. simpl. rewrite length_fmap.
  set (r := {| lg_id := next_id rows + Z.of_nat (length first); lg_host_id := host; lg_line := clean_line last;
               lg_received_at := now |}).
  apply (newest_is _ _ r); try done.
  - apply elem_of_select. split; [rewrite !elem_of_app; right; right; by left|].
    unfold expired. simpl. unfold AGENT_LOG_RETENTION_MILLIS. rewrite (proj2 (Z.ltb_ge _ _)) by lia.
    by rewrite andb_false_r.
  - intros x [Hx _]%elem_of_select. rewrite !elem_of_app, list_elem_of_singleton in Hx.
    destruct Hx as [Hx%next_id_above|[(_ & _ & _ & Hx)%new_rows_In| ->]]; [right|right|by left]; simpl;
      rewrite ?length_fmap in *; lia.
Qed.

(** A batch that is sent again is stored once.  A machine that did not see
    the answer sends its batch again, now with newer lines behind it; of these
    two requests the second stores the newer lines only. *)
Theorem resent_batch_stored_once rows rows1 rows2 auth first last newer now1 now2 :
  let host := to_string (ah_host_id auth) in
  let batch := (first ++ [last])%list in
  al_target (clean_line last) ≠ NOTICE_TARGET → clean_line last ∉ clean_line <$> newer →
  (∀ line, newest_line rows host = Some line → line ∉ clean_line <$> batch) →
  stored_this_hour rows host now1 + Z.of_nat (length batch) ≤ AGENT_LOG_LINES_PER_HOUR →
  store_agent_logs p rows auth {| ab_lines := batch; ab_dropped := 0 |} now1 = Ok rows1 →
  stored_this_hour rows1 host now2 + Z.of_nat (length newer) ≤ AGENT_LOG_LINES_PER_HOUR →
  store_agent_logs p rows1 auth {| ab_lines := (batch ++ newer)%list; ab_dropped := 0 |} now2 = Ok rows2 →
  rows1 = select (λ r, negb (expired host now1 r))
            (rows ++ new_rows host now1 (next_id rows) (clean_line <$> batch))%list
  ∧ rows2 = select (λ r, negb (expired host now2 r))
              (rows1 ++ new_rows host now2 (next_id rows1) (clean_line <$> newer))%list.
Proof.
  intros host batch Ht Hnew Hfresh Hcap1 Hs1 Hcap2 Hs2.
  assert (lines_to_store rows host {| ab_lines := batch; ab_dropped := 0 |} now1 = clean_line <$> batch) as Hl1.
  { unfold lines_to_store, not_yet_stored. simpl. rewrite within_cap_id.
    - destruct (newest_line rows host); [|done]. by rewrite after_last_none by auto.
    - destruct (newest_line rows host); [rewrite after_last_none by auto|]; simpl; by rewrite length_fmap. }
  assert (rows1 = select (λ r, negb (expired host now1 r))
            (rows ++ new_rows host now1 (next_id rows) (clean_line <$> batch))%list) as Hrows1.
  { unfold store_agent_logs in Hs1. inv_result. fold host. by rewrite Hl1, inserted. }
  split; [done|]. assert (newest_line rows1 host = Some (clean_line last)) as Hlast by (by eapply newest_after_store).
  assert (lines_to_store rows1 host {| ab_lines := (batch ++ newer)%list; ab_dropped := 0 |} now2
          = clean_line <$> newer) as Hl2.
  { unfold lines_to_store, not_yet_stored. rewrite Hlast. simpl. unfold batch. rewrite !fmap_app, <-app_assoc. simpl.
    rewrite after_last_app by done. simpl. apply within_cap_id. by rewrite length_fmap. }
  unfold store_agent_logs in Hs2. inv_result. fold host. by rewrite Hl2, inserted.
Qed.

End table.

(** ** A machine's log *)
Module SampleLogs.
#[local] Existing Instances Hyphenated.uuid_text Plain.codec PlainAead.aead SampleRun.result_json.
Import SampleFleet SampleRun.

Definition line (n : Z) : AgentLogLine :=
  {| al_logged_at := n; al_level := "info"; al_target := "agent"; al_message := "line " +:+ pretty n |}.

(** Two lines are taken; a third is logged while their upload is under way, which
    fails; then all three go. *)
Definition bad_day : list Event :=
  [Logged (line 1); Logged (line 2); Taken; Logged (line 3); Ended Failed; Taken; Logged (line 4); Ended Delivered].

Example bad_day_arrives :
  lines_of (acknowledged (history bad_day)) = [line 1; line 2; line 3]
  ∧ kept_lines (history bad_day) = [line 4] ∧ forgotten (history bad_day) = 0.
Proof. by vm_compute. Qed.

Definition store (rows : list AgentLogRow) (l : list AgentLogLine) (n now : Z) : list AgentLogRow :=
  match store_agent_logs policy rows auth {| ab_lines := l; ab_dropped := n |} now with
  | Ok rows => rows | Err _ => [] end.

(** An upload that is under way when the session ends loses its lines.
    Nothing puts the batch back and nothing counts it: two lines were logged,
    none arrived, none waits and none is counted as dropped. *)
Theorem abandoned_upload_forgets :
  let events := [Logged (line 1); Logged (line 2); Taken; Ended Abandoned] in
  length (logged events) = 2%nat ∧ accounted (history events) = 0.
Proof. by vm_compute. Qed.

(** A batch that reports dropped lines and is sent again reports them twice. *)
Theorem dropped_lines_told_twice :
  let batch := [line 1; line 2] in
  lg_line <$> store (store [] batch 3 5000) batch 3 6000
  = [line 1; line 2; dropped_notice 5000 3; dropped_notice 6000 3].
Proof. by vm_compute. Qed.

Definition once : list AgentLogRow := store [] [line 1; line 2] 0 5000.
Definition twice : list AgentLogRow := store once [line 1; line 2; line 3] 0 6000.

Lemma hourly_cap_witness : count_rows (in_hour (id 5) (0 * HOUR_MILLIS)) twice ≤ 6000 + 1.
Proof.
  apply (hourly_cap policy). apply (rtc_l _ _ once).
  - apply (logs_stored policy [] auth {| ab_lines := [line 1; line 2]; ab_dropped := 0 |} 5000). by vm_compute.
  - apply rtc_once, (logs_stored policy once auth {| ab_lines := [line 1; line 2; line 3]; ab_dropped := 0 |} 6000).
    by vm_compute.
Defined.

Lemma resent_batch_stored_once_witness :
  lg_line <$> once = [line 1; line 2]
  ∧ twice = select (λ r, negb (expired (id 5) 6000 r))
              (once ++ new_rows (id 5) 6000 (next_id once) (clean_line <$> [line 3]))%list.
Proof.
  split; [by vm_compute|].
  refine (proj2 (resent_batch_stored_once policy [] once twice auth [line 1] (line 2) [line 3] 5000 6000 _ _ _ _ _ _ _)).
  - by vm_compute.
  - intros Hin. apply list_elem_of_singleton in Hin. by vm_compute in Hin.
  - by vm_compute.
  - by vm_compute.
  - by vm_compute.
  - by vm_compute.
  - by vm_compute.
Defined.
End SampleLogs.
