(* ===== verification/OutputRows.v ===== *)
(** * What an append does to the rows of output streams.

    [shown] is what the tables say of a placement's stream: how much was
    received, how much of it is stored, and whether it is complete.  An append
    changes it in one transaction or not at all, and only for its placement.
    Here the other transactions leave these rows alone ([Undisturbed]): nothing
    expires or closes a log while its runner's output is shipped. *)
From stdpp Require Import pretty.
From S2P Require Import Prelude Base64 Ids Domain Protocol Outcomes Crypto Store Service Commands Output OutputSpec.
#[local] Open Scope string_scope.
#[local] Open Scope Z_scope.

Record Shown := { sh_received : Z; sh_size : Z; sh_complete : bool }.
#[export] Instance Shown_dec : EqDecision Shown.
Proof. solve_decision. Defined.

Definition shown_by (o : OutputStreamRow) (row : LogStreamRow) : Shown :=
  {| sh_received := os_received_bytes o; sh_size := ls_size_bytes row; sh_complete := ls_complete row |}.

Definition shown (db : OutputDb) (pl : string) (a : Shown) : Prop :=
  ∃ o row, o ∈ fleet_output_streams db ∧ row ∈ log_streams db ∧ os_log_stream_id o = ls_id row
    ∧ os_placement_id o = pl ∧ a = shown_by o row.

(** The unique keys of the two tables. *)
Record keyed (db : OutputDb) : Prop := {
  k_streams : NoDup (ls_id <$> log_streams db);
  k_outputs : NoDup (os_log_stream_id <$> fleet_output_streams db);
  k_placements : NoDup (os_placement_id <$> fleet_output_streams db) }.

Lemma shown_unique db pl a b : keyed db → shown db pl a → shown db pl b → a = b.
Proof.
  intros [Hs Ho Hp] (o & row & Hino & Hinr & Heq & Hpl & ->) (o' & row' & Hino' & Hinr' & Heq' & Hpl' & ->).
  assert (o' = o) as -> by (eapply unique_by; [exact Hp|done..|congruence]).
  assert (row' = row) as -> by (eapply unique_by; [exact Hs|done..|congruence]). done.
Qed.

Lemma output_row_None db pl : output_row db pl = None → ∀ a, ¬ shown db pl a.
Proof.
  unfold output_row. intros Hh a (o & row & Hino & Hinr & Heq & Hpl & _).
  set (look := λ o, if String.eqb (os_placement_id o) pl then _ else _) in Hh.
  assert (is_Some (look o)) as [x Hx].
  { unfold look. rewrite Hpl, String.eqb_refl. destruct (fetch _ _) eqn:Hf; [by eexists|].
    rewrite fetch_None in Hf. specialize (Hf row Hinr). simpl in Hf. by rewrite Heq, String.eqb_refl in Hf. }
  assert (x ∈ omap look (fleet_output_streams db)) as Hin by (apply list_elem_of_omap; eauto).
  destruct (omap look (fleet_output_streams db)); [by apply elem_of_nil in Hin|done].
Qed.

Class Undisturbed `{Circumstances} : Prop := {
  u_outputs n db : fleet_output_streams (others n db) = fleet_output_streams db;
  u_streams n db : NoDup (ls_id <$> log_streams db) → NoDup (ls_id <$> log_streams (others n db));
  u_shown n db pl a : shown (others n db) pl a ↔ shown db pl a }.

(** ** Recording *)
Section record.
Context `{UuidText} (read_days : string → option Z).

(** The tables when the stream has its rows. *)
Definition mine (s : Stream) (pl : string) (db : OutputDb) : Prop :=
  ∃ o, o ∈ fleet_output_streams db ∧ os_log_stream_id o = stream_id s ∧ os_placement_id o = pl.

Lemma insert_shown db chunk runner s path now db' :
  keyed db → insert_stream read_days db chunk runner s path now = Ok db' →
  let pl := to_string (oc_placement_id chunk) in
  keyed db' ∧ mine s pl db' ∧ (∀ a, ¬ shown db pl a)
  ∧ shown db' pl {| sh_received := 0; sh_size := 0; sh_complete := false |}
  ∧ ∀ pl' a, pl' ≠ pl → shown db' pl' a ↔ shown db pl' a.
Proof.
  intros [Hs Ho Hp] Hi pl. unfold insert_stream in Hi. apply bind_Ok in Hi as (rn0 & _ & Hi).
  apply bind_Ok in Hi as (pool0 & _ & Hi). destruct (_ || _) eqn:E; [done|]. injection Hi as <-.
  apply orb_false_iff in E as [E1 E2].
  rewrite exists_row_false in E1. rewrite exists_row_false in E2.
  set (o := {| os_placement_id := _; os_log_stream_id := _; os_received_bytes := 0 |}).
  set (row := {| ls_id := _ |}).
  assert (∀ x, x ∈ log_streams db → ls_id x ≠ stream_id s) as Hn1.
  { intros x Hx Heq. specialize (E1 x Hx). simpl in E1. by rewrite Heq, String.eqb_refl in E1. }
  assert (∀ x, x ∈ fleet_output_streams db → os_placement_id x ≠ pl ∧ os_log_stream_id x ≠ stream_id s) as Hn2.
  { intros x Hx. specialize (E2 x Hx). simpl in E2. apply orb_false_iff in E2 as [E2 E3].
    by apply String.eqb_neq in E2, E3. }
  split_and!.
  - split; simpl; apply NoDup_snoc; try done; intros x Hx; by apply Hn2 || apply Hn1.
  - exists o. split; [|done]. apply elem_of_app. right. by left.
  - intros a (x & ? & Hx & _ & _ & Hpl & _). by destruct (Hn2 x Hx).
  - exists o, row. split_and!; try done; apply elem_of_app; right; by left.
  - intros pl' a Hne. split.
    + intros (x & y & [Hx| ->%list_elem_of_singleton]%elem_of_app & Hy & Heq & Hpl & ->); [|by subst].
      apply elem_of_app in Hy as [Hy| ->%list_elem_of_singleton]; [by exists x, y|].
      by destruct (Hn2 x Hx).
    + intros (x & y & Hx & Hy & Heq & Hpl & ->). exists x, y. split_and!; try done; apply elem_of_app; by left.
Qed.

Definition appended (size received : Z) (finished : bool) : Shown :=
  {| sh_received := Z.min received i64_max; sh_size := Z.min size i64_max; sh_complete := finished |}.

(** The two updates: the stream is as recorded, if it was open. *)
Lemma update_shown db chunk s path size received now job :
  let pl := to_string (oc_placement_id chunk) in
  let open x := String.eqb (ls_id x) (stream_id s) && negb (ls_complete x) in
  let db' := {| od_policy := od_policy db; od_work := od_work db; runner_jobs := runner_jobs db;
     log_streams := update_where open (recorded_row chunk path size now job) (log_streams db);
     fleet_output_streams :=
       update_where (λ o, String.eqb (os_log_stream_id o) (stream_id s)) (received_row received)
         (fleet_output_streams db) |} in
  keyed db → mine s pl db → exists_row open (log_streams db) = true →
  keyed db' ∧ (∀ a, shown db' pl a ↔ a = appended size received (oc_finished chunk))
  ∧ (∃ a, shown db pl a ∧ sh_complete a = false)
  ∧ ∀ pl' a, pl' ≠ pl → shown db' pl' a ↔ shown db pl' a.
Proof.
  intros pl open db' [Hs Ho Hp] (o0 & Hino & Hid & Hpl) (row0 & Hinr & Hopen)%exists_row_true.
  assert (ls_id row0 = stream_id s ∧ ls_complete row0 = false) as [Hid0 Hc0] by (unfold open in Hopen; by bool_to_prop).
  assert (keyed db') as Hk.
  { split; unfold db'; simpl; rewrite update_where_fmap; done. }
  set (o1 := received_row received o0). set (row1 := recorded_row chunk path size now job row0).
  assert (shown db' pl (appended size received (oc_finished chunk))) as Hnew.
  { exists o1, row1. split_and!; try done.
    - apply elem_of_update_where. exists o0. split; [done|]. by rewrite Hid, String.eqb_refl.
    - apply elem_of_update_where. exists row0. split; [done|]. by rewrite Hopen.
    - simpl. congruence. }
  split_and!; [done| | |].
  - intros a. split; [|by intros ->]. intros Ha. by eapply shown_unique.
  - exists (shown_by o0 row0). split; [|done]. exists o0, row0. split_and!; try done. congruence.
  - intros pl' a Hne. split.
    + intros (x & y & (x0 & Hx & ->)%elem_of_update_where & (y0 & Hy & ->)%elem_of_update_where & Heq & Hpl' & ->).
      destruct (String.eqb_spec (os_log_stream_id x0) (stream_id s)) as [Hx0|Hx0].
      { exfalso. apply Hne. rewrite <-Hpl', <-Hpl. simpl.
        assert (x0 = o0) as -> by (eapply unique_by; [exact Ho|done..|congruence]). done. }
      assert (open y0 = false) as Hy0.
      { unfold open. destruct (String.eqb_spec (ls_id y0) (stream_id s)) as [He|]; [|done].
        exfalso. apply Hx0. rewrite Heq. by destruct (open y0). }
      rewrite Hy0 in Heq |- *. by exists x0, y0.
    + intros (x & y & Hx & Hy & Heq & Hpl' & ->).
      assert (os_log_stream_id x ≠ stream_id s) as Hxs.
      { intros He. apply Hne. assert (x = o0) as -> by (eapply unique_by; [exact Ho|done..|congruence]). congruence. }
      exists x, y. split_and!; try done; apply elem_of_update_where.
      * exists x. split; [done|]. by rewrite (proj2 (String.eqb_neq _ _)).
      * exists y. split; [done|]. unfold open. by rewrite (proj2 (String.eqb_neq _ _)) by congruence.
Qed.

Lemma record_shown db auth chunk runner s path size received now db' b :
  let pl := to_string (oc_placement_id chunk) in
  keyed db → (stream_new s = false → mine s pl db) →
  record_output read_days db auth chunk runner s path size received now = Ok (db', b) →
  keyed db' ∧ (∀ pl' a, pl' ≠ pl → shown db' pl' a ↔ shown db pl' a)
  ∧ if b then (∀ a, shown db' pl a ↔ a = appended size received (oc_finished chunk))
              ∧ (stream_new s = true → ∀ a, ¬ shown db pl a)
    else db' = db ∧ stream_new s = false ∧ ∀ a, shown db pl a → sh_complete a = true.
Proof.
  intros pl Hk Hm Hr. unfold record_output in Hr. apply bind_Ok in Hr as (owner & _ & Hr).
  apply bind_Ok in Hr as (db0 & Hdb0 & Hr).
  set (open := λ x, String.eqb (ls_id x) (stream_id s) && negb (ls_complete x)) in *.
  destruct (stream_new s) eqn:Hn.
  - destruct (insert_shown db chunk runner s path now db0 Hk Hdb0) as (Hk0 & Hm0 & Hno & Hz & Hother).
    assert (exists_row open (log_streams db0) = true) as Hex.
    { unfold insert_stream in Hdb0. inv_result. cbn [log_streams]. rewrite exists_row_app. unfold open. simpl.
      by rewrite String.eqb_refl, orb_true_r. }
    rewrite Hex in Hr. simpl in Hr. injection Hr as <- <-.
    destruct (update_shown db0 chunk s path size received now (job_of_runner db0 runner) Hk0 Hm0 Hex)
      as (Hk' & Ha & _ & Ho'). split_and!; try done.
    intros pl' a Hne. etransitivity; [by apply Ho'|by apply Hother].
  - injection Hdb0 as <-. specialize (Hm eq_refl). destruct (exists_row open (log_streams db)) eqn:Hex; simpl in Hr.
    + injection Hr as <- <-.
      destruct (update_shown db chunk s path size received now (job_of_runner db runner) Hk Hm Hex)
        as (Hk' & Ha & _ & Ho'). done.
    + injection Hr as <- <-. split_and!; try done. intros a (o & row & Hino & Hinr & Heq & Hpl & ->).
      destruct Hm as (o0 & Hino0 & Hid0 & Hpl0).
      assert (o = o0) as -> by (eapply unique_by; [apply (k_placements _ Hk)|done..|congruence]).
      rewrite exists_row_false in Hex. specialize (Hex row Hinr). unfold open in Hex.
      rewrite <-Heq, Hid0, String.eqb_refl in Hex. simpl in *. by destruct (ls_complete row).
Qed.
End record.

(** ** Appending *)
Section append.
Context `{Circumstances, !Undisturbed, UuidText} (read_days : string → option Z).

(** A predicate on the tables that the other transactions keep. *)
Definition durable (I : OutputDb → Prop) : Prop := ∀ n db, I db → I (others n db).
Definition tables (I : OutputDb → Prop) (w : Disk) : Prop := I (st_db w).

Lemma tables_files {A} (I : OutputDb → Prop) (f : option nat → Files → option (A * Files)) :
  durable I → runs (tables I) (on_files f) (λ _, tables I) (tables I).
Proof.
  intros HI w Hw. apply (HI (st_step w)) in Hw. unfold on_files, arrive. simpl.
  destruct (fault _); destruct (f _ _) as [[]|]; done.
Qed.

Lemma tables_attempt {A} (I : OutputDb → Prop) (c : Act A) :
  runs (tables I) c (λ _, tables I) (tables I) → runs (tables I) (attempt c) (λ _, tables I) (tables I).
Proof. intros Hc. eapply runs_weaken; [by apply runs_attempt|done| |done]. by intros [] w. Qed.

Lemma tables_write I s fresh end_ :
  durable I → 
  runs (tables I) (write_output s fresh end_)
    (λ x w, tables I w ∧ (stream_size s + Z.of_nat (length fresh) ≤ MAX_STREAM_BYTES →
                          x.2 = stream_size s + Z.of_nat (length fresh))) (tables I).
Proof.
  intros HI. unfold write_output. case_bool_decide as Hf.
  - apply runs_ret. intros w Hw. split; [done|]. rewrite Hf. simpl. lia.
  - destruct (Z.leb_spec (stream_size s + Z.of_nat (length fresh)) MAX_STREAM_BYTES).
    + do 5 (eapply runs_bind; [by apply tables_files|intros []]). by apply runs_ret.
    + eapply (runs_bind _ _ (λ _, tables I)).
      { unfold newest_output. eapply runs_bind; [by apply tables_files|]. intros found. by apply runs_ret. }
      intros kept. eapply runs_bind; [by apply tables_files|]. intros []. apply runs_ret. intros w Hw. split; [done|]. lia.
Qed.

(** The rows are as [before] says. *)
Record rows_as (before : string → Shown → Prop) (db : OutputDb) : Prop := {
  ra_keyed : keyed db;
  ra_shown : ∀ pl a, shown db pl a ↔ before pl a }.

Lemma rows_as_durable before : durable (rows_as before).
Proof.
  intros n db [[Hs Ho Hp] Ha]. split; [split; [by apply u_streams|by rewrite u_outputs..]|].
  intros pl a. by rewrite u_shown.
Qed.

Lemma mine_durable s pl : durable (mine s pl).
Proof. intros n db (o & Ho & ?). exists o. by rewrite u_outputs. Qed.

Section stream.
Context (before : string → Shown → Prop) (chunk : RunnerOutputChunk) (data : list Z) (s : Stream).
Let pl := to_string (oc_placement_id chunk).
Let end_ := oc_offset chunk + Z.of_nat (length data).
Let skip := Z.min (Z.max (stream_received s - oc_offset chunk) 0) (Z.of_nat (length data)).
Let fresh := drop (Z.to_nat skip) data.
Let received := Z.max (stream_received s) end_.

(** The rows afterwards: as before, or with the chunk. *)
Definition not_yet (db : OutputDb) : Prop := rows_as before db ∧ (stream_new s = false → mine s pl db).
Record taken (db : OutputDb) : Prop := {
  tk_keyed : keyed db;
  tk_others : ∀ pl' a, pl' ≠ pl → shown db pl' a ↔ before pl' a;
  tk_mine : ∃ size, (stream_size s + Z.of_nat (length fresh) ≤ MAX_STREAM_BYTES →
                     size = stream_size s + Z.of_nat (length fresh))
                    ∧ ∀ a, shown db pl a ↔ a = appended size received (oc_finished chunk);
  tk_new : stream_new s = true → ∀ a, ¬ before pl a }.

Lemma not_yet_durable : durable not_yet.
Proof.
  intros n db [Ha Hm]. split; [by apply rows_as_durable|]. intros Hn. by apply mine_durable, Hm.
Qed.

Lemma taken_durable : durable taken.
Proof.
  intros n db [[Hs Ho Hp] Hoth (size & Hz & Ha) Hn]. split; [split; [by apply u_streams|by rewrite u_outputs..]| | |done].
  - intros pl' a Hne. rewrite u_shown. by apply Hoth.
  - exists size. split; [done|]. intros a. by rewrite u_shown.
Qed.

Lemma either_durable (I J : OutputDb → Prop) : durable I → durable J → durable (λ db, I db ∨ J db).
Proof. intros HI HJ n db [|]; [left; by apply HI|right; by apply HJ]. Qed.

Lemma runs_record auth runner path size now :
  (stream_size s + Z.of_nat (length fresh) ≤ MAX_STREAM_BYTES → size = stream_size s + Z.of_nat (length fresh)) →
  runs (tables not_yet)
    (attempt (transaction (λ db, record_output read_days db auth chunk runner s path size received now)))
    (λ r w, match r with
            | Ok true => tables taken w
            | Ok false => tables not_yet w ∧ stream_new s = false ∧ ∀ a, before pl a → sh_complete a = true
            | Err _ => tables not_yet w
            end) (tables (λ db, not_yet db ∨ taken db)).
Proof.
  intros Hsize w Hw. apply (not_yet_durable (st_step w)) in Hw. unfold attempt, transaction, arrive. simpl.
  set (db := others (st_step w) (st_db w)) in *. destruct Hw as [[Hk Ha] Hm].
  assert (∀ db' b, record_output read_days db auth chunk runner s path size received now = Ok (db', b) →
    if b then taken db' else not_yet db' ∧ stream_new s = false ∧ ∀ a, before pl a → sh_complete a = true) as Hrec.
  { intros db' b Hr. destruct (record_shown read_days db auth chunk runner s path size received now db' b Hk Hm Hr)
      as (Hk' & Hoth & Hb). destruct b.
    - destruct Hb as [Hb Hnew]. split; [done| | |].
      + intros pl' a Hne. etransitivity; [by apply Hoth|done].
      + by exists size.
      + intros Hn a Hba. apply (Hnew Hn a). by apply Ha.
    - destruct Hb as (-> & Hn & Hc). split_and!; [by split|done|]. intros a Hba. by apply Hc, Ha. }
  destruct (fault _) as [|m|[|m]]; simpl; try (by split || (left; by split)).
  - destruct (record_output _ _ _ _ _ _ _ _ _ _) as [[db' b]|e]; simpl; [|by split].
    specialize (Hrec db' b eq_refl). by destruct b.
  - destruct (record_output _ _ _ _ _ _ _ _ _ _) as [[db' b]|e]; simpl; [|left; by split].
    specialize (Hrec db' b eq_refl). destruct b; [by right|left; apply Hrec].
Qed.

Definition receipt : RunnerOutputReceipt := {| or_received := received; or_finished := oc_finished chunk |}.

Lemma append_to_shown auth runner :
  runs (tables not_yet) (append_to read_days auth chunk data end_ runner s)
    (λ rc w, tables taken w ∧ rc = receipt
             ∨ tables not_yet w ∧ stream_new s = false ∧ ∀ a, before pl a → sh_complete a = true)
    (tables (λ db, not_yet db ∨ taken db)).
Proof.
  unfold append_to. fold skip fresh received.
  eapply runs_bind.
  { eapply runs_weaken; [apply (tables_write not_yet), not_yet_durable|done|done|]. intros w Hw. by left. }
  intros [path size]. simpl. intros w [Hw Hsize]. revert w Hw.
  change (runs (tables not_yet) (now ← read_clock; recorded ← attempt (transaction (λ db,
      record_output read_days db auth chunk runner s path size received now));
    _ ← (if String.eqb path (stream_path s) then mret tt
         else _ ← attempt (remove_file (match recorded with Ok true => stream_path s | _ => path end)); mret tt);
    match recorded with
    | Err e => rejects e
    | Ok false => mret {| or_received := stream_received s; or_finished := true |}
    | Ok true => mret {| or_received := received; or_finished := oc_finished chunk |}
    end) (λ rc w, tables taken w ∧ rc = receipt
             ∨ tables not_yet w ∧ stream_new s = false ∧ ∀ a, before pl a → sh_complete a = true)
    (tables (λ db, not_yet db ∨ taken db))).
  eapply (runs_bind _ _ (λ _, tables not_yet)); [by apply runs_clock|]. intros now.
  eapply runs_bind; [by apply runs_record|].
  assert (∀ (I J : OutputDb → Prop) p (b : bool), durable I → (∀ db, I db → J db) →
    runs (tables I) (if b then mret tt else _ ← attempt (remove_file p); mret tt : Act unit) (λ _, tables I) (tables J)) as Htidy.
  { intros I J p b HI HJ. destruct b; [by apply runs_ret|].
    eapply (runs_weaken (tables I) _ _ (λ _, tables I) _ (tables I)); [|done|done|].
    - eapply runs_bind; [apply tables_attempt; by apply tables_files|]. intros ?. by apply runs_ret.
    - intros w Hw. by apply HJ. }
  pose proof not_yet_durable. pose proof taken_durable.
  intros [[]|e].
  - eapply runs_bind; [apply (Htidy taken); [done|by right]|]. intros []. apply runs_ret. by left.
  - intros w (Hw & Hn & Hc). revert w Hw. eapply runs_bind; [apply (Htidy not_yet); [done|by left]|].
    intros []. apply runs_ret. by right.
  - eapply runs_bind; [apply (Htidy not_yet); [done|by left]|]. intros []. apply runs_rejects. by left.
Qed.
End stream.

(** What was received and stored before: nothing, if the stream is new. *)
Definition stored_before (db : OutputDb) (pl : string) (received size : Z) : Prop :=
  shown db pl {| sh_received := received; sh_size := size; sh_complete := false |}
  ∨ received = 0 ∧ size = 0 ∧ ∀ a, ¬ shown db pl a.

Record rows_after (chunk : RunnerOutputChunk) (data : list Z) (before after : OutputDb)
    (result : Result RunnerOutputReceipt Trouble) : Prop := {
  ar_keyed : keyed after;
  ar_others : ∀ pl a, pl ≠ to_string (oc_placement_id chunk) → shown after pl a ↔ shown before pl a;
  ar_mine :
    let pl := to_string (oc_placement_id chunk) in
    let end_ := oc_offset chunk + Z.of_nat (length data) in
    (∀ a, shown after pl a ↔ shown before pl a)
    ∧ (∀ rc, result = Ok rc → or_finished rc = true ∧ ∃ a, shown before pl a ∧ sh_complete a = true)
    ∨ ∃ received size size',
        stored_before before pl received size ∧ end_ ≤ i64_max
        ∧ (let fresh := Z.of_nat (length data) - Z.min (Z.max (received - oc_offset chunk) 0) (Z.of_nat (length data)) in
           size + fresh ≤ MAX_STREAM_BYTES → size' = size + fresh)
        ∧ (∀ a, shown after pl a ↔ a = appended size' (Z.max received end_) (oc_finished chunk))
        ∧ ∀ rc, result = Ok rc → rc = {| or_received := Z.max received end_; or_finished := oc_finished chunk |} }.

Lemma rows_after_none chunk data db result :
  keyed db → (∀ rc, result ≠ Ok rc) → rows_after chunk data db db result.
Proof. intros Hk Hr. split; [done|done|]. left. split; [done|]. intros rc Hrc. by destruct (Hr rc). Qed.

Definition finds (chunk : RunnerOutputChunk) (found : option (OutputStreamRow * LogStreamRow)) (w : Disk) : Prop :=
  match found with
  | Some (o, row) => shown (st_db w) (to_string (oc_placement_id chunk)) (shown_by o row)
                     ∧ o ∈ fleet_output_streams (st_db w) ∧ os_log_stream_id o = ls_id row
                     ∧ os_placement_id o = to_string (oc_placement_id chunk)
  | None => ∀ a, ¬ shown (st_db w) (to_string (oc_placement_id chunk)) a
  end.

Lemma tables_read before auth chunk now :
  runs (tables (rows_as before)) (transaction (read_output auth chunk now))
    (λ x w, tables (rows_as before) w ∧ finds chunk x.2 w) (tables (rows_as before)).
Proof.
  intros w Hw. apply (rows_as_durable before (st_step w)) in Hw. unfold transaction, arrive, read_output. simpl.
  set (db := others (st_step w) (st_db w)) in *.
  destruct (fault _) as [|m|[|m]]; simpl; try done; destruct (authorize_output db auth chunk now) as [runner|e]; simpl; try done.
  split; [done|]. unfold finds. simpl. destruct (output_row db _) as [[o row]|] eqn:Hf.
  - apply output_row_Some in Hf as (Ho & Hr & Heq & Hp). split_and!; try done. by exists o, row.
  - by apply output_row_None.
Qed.

Lemma append_to_rows auth chunk data runner s before w w0 :
  before = shown (st_db w0) → tables (not_yet before chunk s) w →
  stored_before (st_db w0) (to_string (oc_placement_id chunk)) (stream_received s) (stream_size s) →
  oc_offset chunk + Z.of_nat (length data) ≤ i64_max →
  (stream_new s = false → ∃ a, shown (st_db w0) (to_string (oc_placement_id chunk)) a ∧ sh_complete a = false) →
  let r := append_to read_days auth chunk data (oc_offset chunk + Z.of_nat (length data)) runner s w in
  rows_after chunk data (st_db w0) (st_db r.2) r.1.
Proof.
  intros -> Hw Hbefore Hend Hopen r. pose proof (append_to_shown (shown (st_db w0)) chunk data s auth runner w Hw) as Ht.
  fold r in Ht.
  assert (taken (shown (st_db w0)) chunk data s (st_db r.2) →
    (∀ rc, r.1 = Ok rc → rc = receipt chunk data s) → rows_after chunk data (st_db w0) (st_db r.2) r.1) as Htaken.
  { intros [Hk Hoth (size & Hz & Ha) _] Hrc. split; [done|done|]. right.
    exists (stream_received s), (stream_size s), size. split_and!; try done. intros fresh Hfit.
    rewrite length_drop in Hz. unfold fresh. rewrite Hz; lia. }
  assert (not_yet (shown (st_db w0)) chunk s (st_db r.2) → (∀ rc, r.1 ≠ Ok rc) →
          rows_after chunk data (st_db w0) (st_db r.2) r.1) as Hnot.
  { intros [[Hk Ha] _] Hrc. split; [done|by intros|]. left. split; [done|]. intros rc Hr. by destruct (Hrc rc). }
  destruct r as [[rc|e] w']; simpl in *.
  - destruct Ht as [[Ht ->]|(_ & Hn & Hc)]; [apply Htaken; [done|]; by intros ? [= <-]|].
    destruct (Hopen Hn) as (a & Ha & Hf). rewrite (Hc a Ha) in Hf. done.
  - destruct Ht as [Ht|Ht]; [by apply Hnot|by apply Htaken].
Qed.

(** An append takes its chunk into the row of its placement in one step, or
    leaves the row; it answers with what it took. *)
Lemma append_rows auth chunk data w :
  standard_decode (oc_data chunk) = Some data → keyed (st_db w) →
  (∀ a, shown (st_db w) (to_string (oc_placement_id chunk)) a → 0 ≤ sh_received a ∧ 0 ≤ sh_size a) →
  let r := append_runner_output read_days auth chunk w in
  rows_after chunk data (st_db w) (st_db r.2) r.1.
Proof.
  intros Hdata Hk Hpos r. unfold r, append_runner_output. rewrite Hdata. clear r.
  destruct (_ <? _); [by apply rows_after_none|]. destruct (Z.ltb_spec i64_max (oc_offset chunk + Z.of_nat (length data))) as [|Hend];
    [by apply rows_after_none|].
  unfold mbind, Act_bind, read_clock.
  set (now := clock_at (st_step w)). set (before := shown (st_db w)).
  pose proof (tables_read before auth chunk now w (Build_rows_as _ _ Hk (λ pl a, iff_refl _))) as Hread.
  destruct (transaction (read_output auth chunk now) w) as [[[runner found]|e] w1]; simpl in *.
  2: { destruct Hread as [Hk1 Ha]. split; [done|by intros|]. left. split; [done|by intros ? [=]]. }
  destruct Hread as [[Hk1 Ha] Hfound]. destruct found as [[o row]|]; simpl in Hfound.
  - destruct Hfound as (Hshown & Ho & Heq & Hp). apply Ha in Hshown. specialize (Hpos _ Hshown). simpl in Hpos.
    destruct (ls_complete row) eqn:Hc; simpl.
    { split; [done|by intros|]. left. split; [done|]. intros rc [= <-]. split; [done|].
      exists (shown_by o row). done. }
    apply (append_to_rows auth chunk data runner (stored_stream o row) before w1 w); [done| | |done|].
    + split; [by split|]. intros _. exists o. done.
    + left. simpl. unfold shown_by in Hshown. rewrite Hc in Hshown. by rewrite !Z.max_l by lia.
    + intros _. exists (shown_by o row). done.
  - unfold draw. set (w2 := {| st_db := st_db w1; st_files := st_files w1; st_step := S (st_step w1) |}).
    apply (append_to_rows auth chunk data runner (new_stream (to_string (drawn (st_step w1)))) before w2 w); [done| | |done|done].
    + split; [by split|done].
    + right. split_and!; [done..|]. intros a Hsh. apply Ha in Hsh. by destruct (Hfound a).
Qed.
End append.
