(* ===== verification/Wire.v ===== *)
(** * How errors reach an agent
    ([crates/gridops-api/src/fleet/error.rs] and [auth.rs], [ErrorCode] of
    [fleet/protocol/browser.rs], [crates/gridops-host-agent/src/client.rs]).

    The API turns an error of the registry into a code and its status, the
    agent's client turns the status back into an error it acts on. *)
From stdpp Require Import pretty.
From S2P Require Import Prelude Base64 Ids Domain Protocol Outcomes Crypto Store Service Commands.
#[local] Open Scope string_scope.
#[local] Open Scope Z_scope.

Inductive ErrorCode :=
| CodeInvalidRequest | CodeUnauthenticated | CodeForbidden | CodeNotFound | CodeRevisionConflict
| CodeIdempotencyConflict | CodeEnrollmentExpired | CodeGrantExpired | CodeCursorExpired | CodeCursorGap
| CodePayloadTooLarge | CodeRateLimited | CodeDependencyUnavailable | CodeNotReady | CodeContractRange.

Definition status (code : ErrorCode) : Z :=
  match code with
  | CodeInvalidRequest | CodeContractRange => 400
  | CodeUnauthenticated => 401
  | CodeForbidden => 403
  | CodeNotFound => 404
  | CodeRevisionConflict | CodeIdempotencyConflict => 409
  | CodeEnrollmentExpired | CodeGrantExpired | CodeCursorExpired | CodeCursorGap => 410
  | CodePayloadTooLarge => 413
  | CodeRateLimited => 429
  | CodeDependencyUnavailable | CodeNotReady => 503
  end.

Definition registry_error (e : RegistryError) : ErrorCode :=
  match e with
  | RegDatabase | RegJson | Storage => CodeDependencyUnavailable
  | RegForbidden | TargetScopeForbidden => CodeForbidden
  | RegNotFound => CodeNotFound
  | EnrollmentGone => CodeEnrollmentExpired
  | InvalidCredential => CodeUnauthenticated
  | StaleRevision | StaleGeneration => CodeRevisionConflict
  | RotationConflict | RegIdempotencyConflict => CodeIdempotencyConflict
  | RotationGone => CodeGrantExpired
  | EnrollmentScopeMismatch | RegInvalidRequest _ | RegInvalidIdentifier | CredentialFailure | InputFailure =>
      CodeInvalidRequest
  end.

Inductive ClientError :=
| InsecureUrl
| ClientUnauthenticated
| ClientRefused (code : ErrorCode)
| ClientUnavailable (why : string).

(** [send], after the status of a reply that is not a success. *)
Definition client_error (code : ErrorCode) : ClientError :=
  if status code =? 401 then ClientUnauthenticated
  else if negb (500 <=? status code) && negb (status code =? 429) then ClientRefused code
  else ClientUnavailable (pretty (status code)).

(** The token of a request's one [Authorization] header. *)
Definition token_char (b : Z) : bool :=
  ((97 <=? b) && (b <=? 122)) || ((65 <=? b) && (b <=? 90)) || ((48 <=? b) && (b <=? 57)) || (b =? 95) || (b =? 45).
Definition bearer (token : string) : option string :=
  if (byte_len token =? 43) && forallb token_char (bytes token) then Some token else None.
