(* ===== verification/Shipper.v ===== *)
(** * The agent's shipping of runner output
    ([crates/gridops-host-agent/src/output.rs], [JobLines] of [activity.rs]).

    A follower of one started environment is a state machine: [Doing] says at
    which of its awaits it is, and an operation takes it from one to the next.
    What it awaits (the output reader, the heartbeat that grants authority, the
    answer of GridOps, the journal) is the argument of the operation. *)
From stdpp Require Import gmap.
From S2P Require Import Prelude Base64 Ids Domain Protocol Outcomes Store Commands Output Sandbox Agent Wire.
#[local] Open Scope string_scope.
#[local] Open Scope Z_scope.

Definition CHUNK_BYTES : Z := 192 * 1024.
Definition READ_BYTES : Z := 16 * 1024.

(** ** The engine [STANDARD] *)
Definition standard_alphabet (d : Z) : Ascii.ascii :=
  char_of (if d <? 26 then 65 + d
           else if d <? 52 then 71 + d
           else if d <? 62 then d - 4
           else if d =? 62 then 43 else 47).

Definition padding (n : Z) : list Ascii.ascii :=
  match n mod 3 with 1 => [char_of 61; char_of 61] | 2 => [char_of 61] | _ => [] end.

Definition standard_encode (data : list Z) : string :=
  String.string_of_list_ascii
    ((standard_alphabet <$> to_digits data) ++ padding (Z.of_nat (length data)))%list.

(** ** The jobs a runner picks up *)
Module JobLines.
Record State := { partial : list Z; job : option (list Ascii.ascii) }.
Definition default : State := {| partial := []; job := None |}.
Definition MAX_LINE : Z := 4096.

(** [split_inclusive(|byte| byte == '\n')], [current] being the piece begun. *)
Fixpoint pieces (current l : list Z) : list (list Z) :=
  match l with
  | [] => match current with [] => [] | _ => [current] end
  | b :: l => if b =? 10 then (current ++ [b])%list :: pieces [] l else pieces (current ++ [b])%list l
  end.
Definition split_inclusive (l : list Z) : list (list Z) := pieces [] l.

Definition ends_line (piece : list Z) : bool := bool_decide (last piece = Some 10).

Fixpoint after (separator l : list Ascii.ascii) : option (list Ascii.ascii) :=
  match strip_prefix separator l with
  | Some rest => Some rest
  | None => match l with [] => None | _ :: l => after separator l end
  end.

Definition trim_end (l : list Ascii.ascii) : list Ascii.ascii :=
  rev (trim_spaces (length l) (map (@rev _) WHITE_SPACE) (rev l)).

Definition job_name (line : list Ascii.ascii) : option (list Ascii.ascii) :=
  job ← after (String.list_ascii_of_string "Z Complete job name: ") (trim_end line);
  match job with [] => None | _ => Some job end.

Definition job_of_line (line : list Z) : option (list Ascii.ascii) :=
  job_name (char_of <$> from_utf8_lossy line).

(** One iteration of the loop: the state and the job it logs. *)
Definition scan_piece (s : State) (piece : list Z) : State * list (list Ascii.ascii) :=
  let partial := if Z.of_nat (length (partial s)) <? MAX_LINE then (partial s ++ piece)%list else partial s in
  if negb (ends_line piece) then ({| partial := partial; job := job s |}, []) else
  match job_of_line partial with
  | Some name => if bool_decide (job s = Some name) then ({| partial := []; job := job s |}, [])
                 else ({| partial := []; job := Some name |}, [name])
  | None => ({| partial := []; job := job s |}, [])
  end.

Fixpoint scan_pieces (s : State) (l : list (list Z)) : State * list (list Ascii.ascii) :=
  match l with
  | [] => (s, [])
  | piece :: l => let '(s, logged) := scan_piece s piece in
                  let '(s, more) := scan_pieces s l in (s, logged ++ more)%list
  end.
Definition scan (s : State) (data : list Z) : State * list (list Ascii.ascii) :=
  scan_pieces s (split_inclusive data).
End JobLines.

(** ** Answers *)
(** The errors that [send] waits out. *)
Definition try_again (e : ClientError) : bool :=
  match e with
  | ClientUnavailable _ | ClientUnauthenticated => true
  | ClientRefused CodeForbidden | ClientRefused CodeRateLimited => true
  | _ => false
  end.

(** [send] posts only while the session has work authority: [current.expires_at]
    and the time, where [WireTimestamp] holds it. *)
Definition may_post (expires_at : option Z) (now_millis : Z) : bool :=
  match expires_at, WireTimestamp_from_millis now_millis with
  | Some expires, Ok now => negb (expires <=? now)
  | _, _ => false
  end.

(** ** A follower *)
(** Why a follower stopped following. *)
Inductive Why := Unopened | Finished | NotTaken.

(** The awaits of a follower: [runtime.output]; in [send], for authority or for
    the answer to the chunk; in [gather], a read, with the deadline set or not;
    [journal.output_shipped]; and the end of the task. *)
Inductive Doing :=
| Opening
| Sending (chunk : RunnerOutputChunk) (posted : bool)
| Gathering (buffer : list Z) (deadline : bool)
| Recording (why : Why)
| Stopped.

Record Upload := {
  up_session : Uuid; up_placement : Uuid; up_received : Z; up_position : Z;
  up_jobs : JobLines.State; up_doing : Doing }.
#[export] Instance Upload_fields : Fields Upload := λ u,
  {| up_session := up_session u; up_placement := up_placement u; up_received := up_received u;
     up_position := up_position u; up_jobs := up_jobs u; up_doing := up_doing u |}.

Definition follow (session : Uuid) (e : Environment) : Upload :=
  {| up_session := session; up_placement := env_placement_id e; up_received := 0; up_position := 0;
     up_jobs := JobLines.default; up_doing := Opening |}.

(** [send], up to its first await. *)
Definition send (u : Upload) (offset : Z) (data : list Z) (finished : bool) : Upload :=
  u <| up_doing := Sending {| oc_authority_session_id := up_session u; oc_placement_id := up_placement u;
                              oc_offset := offset; oc_data := standard_encode data; oc_finished := finished |}
                           false |>.

(** The runtime gave a reader or it did not; [stream] starts by asking where
    GridOps is. *)
Definition opened (u : Upload) (reader : bool) : Upload :=
  match up_doing u with
  | Opening => if reader then send u 0 [] false else u <| up_doing := Recording Unopened |>
  | _ => u
  end.

(** The loop of [send] finds the session's authority. *)
Definition authorized (u : Upload) (expires_at : option Z) (now : Z) : Upload :=
  match up_doing u with
  | Sending chunk false => if may_post expires_at now then u <| up_doing := Sending chunk true |> else u
  | _ => u
  end.

(** The answer to a posted chunk. *)
Definition answered (u : Upload) (answer : Result RunnerOutputReceipt ClientError) : Upload :=
  match up_doing u with
  | Sending chunk true =>
      match answer with
      | Ok receipt =>
          let u := u <| up_received := or_received receipt |> in
          if or_finished receipt then u <| up_doing := Recording Finished |>
          else u <| up_doing := Gathering [] false |>
      | Err e => if try_again e then u <| up_doing := Sending chunk false |>
                 else u <| up_doing := Recording NotTaken |>
      end
  | _ => u
  end.

(** What a read of the output gives, no bytes at its end; [TimedOut] is the
    batch window. *)
Inductive Read := ReadOk (data : list Z) | ReadError | TimedOut.

(** A turn of the loop of [gather]: it goes on, or it returns the buffer and
    whether the output ended. *)
Definition gather (buffer : list Z) (deadline : bool) (read : Read) : list Z * bool + list Z * bool :=
  match read with
  | ReadOk [] | ReadError => inr (buffer, true)
  | TimedOut => if deadline then inr (buffer, false) else inl (buffer, false)
  | ReadOk data =>
      let buffer := (buffer ++ data)%list in
      if Z.of_nat (length buffer) <? CHUNK_BYTES then inl (buffer, true) else inr (buffer, false)
  end.

(** The rest of a turn of [stream]'s loop.  [position] is a [u64]; it counts
    bytes that were read. *)
Definition gathered (u : Upload) (buffer : list Z) (ended : bool) : Upload * list (list Ascii.ascii) :=
  let start := up_position u in
  let skip := Z.min (Z.max (up_received u - start) 0) (Z.of_nat (length buffer)) in
  let rest := drop (Z.to_nat skip) buffer in
  let '(jobs, logged) := JobLines.scan (up_jobs u) rest in
  let u := u <| up_position := start + Z.of_nat (length buffer) |> <| up_jobs := jobs |> in
  (if (skip <? Z.of_nat (length buffer)) || ended then send u (start + skip) rest ended
   else u <| up_doing := Gathering [] false |>, logged).

Definition read_step (u : Upload) (read : Read) : Upload * list (list Ascii.ascii) :=
  match up_doing u with
  | Gathering buffer deadline =>
      match gather buffer deadline read with
      | inl (buffer, deadline) => (u <| up_doing := Gathering buffer deadline |>, [])
      | inr (buffer, ended) => gathered u buffer ended
      end
  | _ => (u, [])
  end.

(** [follow] records the environment, or warns that it could not. *)
Definition recorded (u : Upload) (id : Uuid) (stored : bool) (j : Journal) : Upload * Journal :=
  match up_doing u with
  | Recording _ => (u <| up_doing := Stopped |>, if stored then output_shipped j id else j)
  | _ => (u, j)
  end.

(** ** All followers of a session *)
Definition running (u : Upload) : bool := match up_doing u with Stopped => false | _ => true end.

(** A turn of [ship]: the followers that are done are forgotten, and each
    environment whose output isn't shipped is followed, unless it is already. *)
Definition forget_done (followers : gmap Uuid Upload) : gmap Uuid Upload :=
  filter (λ x, running x.2 = true) followers.

Definition start_following (session : Uuid) (followers : gmap Uuid Upload) (e : Environment) : gmap Uuid Upload :=
  match followers !! env_id e with
  | Some _ => followers
  | None => <[env_id e := follow session e]> followers
  end.

Definition scan_journal (session : Uuid) (listed : option (list Environment)) (followers : gmap Uuid Upload)
    : gmap Uuid Upload :=
  foldl (start_following session) (forget_done followers) (default [] listed).
