(* ===== verification/ShipperSpec.v ===== *)
(** * Shipped output is the runner's whole output.

    The followers of an agent, its journal and the tables and files of GridOps
    as one system ([Sys], [ship_step]).  A posted chunk may be lost, delivered
    late, and delivered again; an answer may be lost; a session may end at any
    step, and the next one follows the same environments from the beginning. *)
From stdpp Require Import gmap pretty.
From S2P Require Import Prelude Base64 Ids Domain Protocol Outcomes Crypto Store Service AdmissionSpec Commands Placement Fleet Output OutputSpec OutputRows Sandbox Agent Wire Shipper.
#[local] Open Scope string_scope.
#[local] Open Scope Z_scope.

(** ** What is encoded is decoded *)
Lemma standard_digit_alphabet d : is_digit d → standard_digit (standard_alphabet d) = Some d.
Proof.
  unfold is_digit, standard_digit, standard_alphabet. intros Hd.
  destruct (Z.ltb_spec d 26); [|destruct (Z.ltb_spec d 52); [|destruct (Z.ltb_spec d 62);
    [|destruct (Z.eqb_spec d 62)]]]; rewrite byte_of_char_of by (unfold is_byte; lia);
    repeat (case_match; bool_cases; try lia); f_equal; lia.
Qed.

Lemma alphabet_not_pad d : is_digit d → byte_of (standard_alphabet d) ≠ 61.
Proof.
  unfold is_digit, standard_alphabet. intros Hd.
  repeat case_match; bool_to_prop; rewrite byte_of_char_of by (unfold is_byte; lia); lia.
Qed.

Lemma padded_length bs :
  Z.of_nat (length (to_digits bs)) + Z.of_nat (length (padding (Z.of_nat (length bs)))) = (Z.of_nat (length bs) + 2) / 3 * 4.
Proof.
  revert bs. fix IH 1. intros [|b0 [|b1 [|b2 bs]]]; [done..|]. specialize (IH bs). cbn [length to_digits].
  assert (padding (Z.of_nat (S (S (S (length bs))))) = padding (Z.of_nat (length bs))) as ->.
  { unfold padding. by replace (Z.of_nat (S (S (S (length bs)))) mod 3) with (Z.of_nat (length bs) mod 3) by div_lia. }
  rewrite !Nat2Z.inj_succ. div_lia.
Qed.

Lemma strip_unpadded l : (∀ c, head l = Some c → byte_of c ≠ 61) → strip_pad l = l.
Proof. destruct l as [|c l]; [done|]. intros Hc. simpl. by rewrite (proj2 (Z.eqb_neq _ _) (Hc c eq_refl)). Qed.

Lemma strip_padding l n :
  (∀ c, head l = Some c → byte_of c ≠ 61) → strip_pad (strip_pad (padding n ++ l)%list) = l.
Proof.
  intros Hl. unfold padding. assert (n mod 3 = 0 ∨ n mod 3 = 1 ∨ n mod 3 = 2) as [-> | [-> | ->]] by div_lia; simpl.
  - by rewrite !strip_unpadded; rewrite ?strip_unpadded.
  - done.
  - by apply strip_unpadded.
Qed.

Lemma rev_padding n : rev (padding n) = padding n.
Proof. unfold padding. by repeat case_match. Qed.

Lemma standard_decode_encode bs : Forall is_byte bs → standard_decode (standard_encode bs) = Some bs.
Proof.
  intros Hb. pose proof (to_digits_range bs Hb) as Hr. unfold standard_decode, standard_encode.
  rewrite String.list_ascii_of_string_of_list_ascii.
  rewrite length_app, length_fmap, Nat2Z.inj_add, padded_length, Z_mod_mult. simpl.
  rewrite rev_app_distr, rev_padding, strip_padding, rev_involutive.
  - assert (mapM standard_digit (standard_alphabet <$> to_digits bs) = Some (to_digits bs)) as ->.
    { apply mapM_Some, Forall2_fmap_l, Forall_Forall2_diag. eapply Forall_impl; [exact Hr|].
      intros. by apply standard_digit_alphabet. }
    simpl. by apply of_to_digits.
  - intros c Hc. apply head_Some_elem_of, list_elem_of_In, in_rev, list_elem_of_In, list_elem_of_fmap in Hc as (d & -> & Hd).
    rewrite Forall_forall in Hr. by apply alphabet_not_pad, Hr.
Qed.

(** ** The system *)
Record Sys := {
  sy_disk : Disk; sy_journal : Journal; sy_followers : gmap Uuid Upload;
  (** The chunks ever posted. *)
  sy_sent : list RunnerOutputChunk;
  (** The environments recorded as shipped although their output was not taken. *)
  sy_given_up : list Uuid }.
#[export] Instance Sys_fields : Fields Sys := λ s,
  {| sy_disk := sy_disk s; sy_journal := sy_journal s; sy_followers := sy_followers s;
     sy_sent := sy_sent s; sy_given_up := sy_given_up s |}.

Section system.
Context `{Circumstances, !Undisturbed, UuidText} (horizon : nat) `{!CircumstanceLaws horizon}
  (read_days : string → option Z).
(** What the runner of each placement writes, to its end; reading it again
    yields the same bytes. *)
Context (output : string → list Z) (output_bytes : ∀ pl, Forall is_byte (output pl)).
(** Whether a reader may fail before the output ends. *)
Context (breaks : Prop).

Definition text (u : Upload) : list Z := output (to_string (up_placement u)).

(** How far a follower has read. *)
Definition read_so_far (u : Upload) : Z :=
  up_position u + match up_doing u with Gathering buffer _ => Z.of_nat (length buffer) | _ => 0 end.

(** A read gives the bytes that come next, and none only at the end. *)
Definition gives (u : Upload) (read : Read) : Prop :=
  let n := read_so_far u in
  match read with
  | ReadOk [] => n = Z.of_nat (length (text u))
  | ReadOk data => Z.of_nat (length data) ≤ READ_BYTES ∧ n + Z.of_nat (length data) ≤ Z.of_nat (length (text u))
                   ∧ data = take (length data) (drop (Z.to_nat n) (text u))
  | ReadError => breaks
  | TimedOut => True
  end.

(** The rest of the agent adds environments and binds them. *)
Definition names (j : Journal) (id : Uuid) (placement : Uuid) : Prop :=
  ∃ e, e ∈ j_environments j ∧ env_id e = id ∧ env_placement_id e = placement.
Record journal_grows (j j' : Journal) : Prop := {
  jg_shipped : j_shipped_output j' = j_shipped_output j;
  jg_names : ∀ id pl, names j id pl → names j' id pl;
  jg_keys : NoDup (env_id <$> j_environments j) → NoDup (env_id <$> j_environments j') }.

Definition posted (u : Upload) : list RunnerOutputChunk :=
  match up_doing u with Sending chunk true => [chunk] | _ => [] end.
Definition not_taken (u : Upload) (id : Uuid) : list Uuid :=
  match up_doing u with Recording Finished => [] | Recording _ => [id] | _ => [] end.

Definition put (s : Sys) (id : Uuid) (u : Upload) : Sys :=
  s <| sy_followers := <[id := u]> (sy_followers s) |>.
Definition append (auth : AuthenticatedHost) (chunk : RunnerOutputChunk) (s : Sys) :=
  append_runner_output read_days auth chunk (sy_disk s).

Inductive ship_step : Sys → Sys → Prop :=
| scans session listed s :
    listed = None ∨ listed = Some (unshipped_output (sy_journal s)) →
    ship_step s (s <| sy_followers := scan_journal session listed (sy_followers s) |>)
| session_ends s : ship_step s (s <| sy_followers := ∅ |>)
| journals j s : journal_grows (sy_journal s) j → ship_step s (s <| sy_journal := j |>)
| opens id u reader s : sy_followers s !! id = Some u → ship_step s (put s id (opened u reader))
| posts id u expires_at now s :
    sy_followers s !! id = Some u →
    let u' := authorized u expires_at now in
    ship_step s (put s id u' <| sy_sent := (posted u' ++ sy_sent s)%list |>)
| delivers auth chunk s :
    chunk ∈ sy_sent s → (S (st_step (sy_disk s)) < horizon)%nat →
    ship_step s (s <| sy_disk := (append auth chunk s).2 |>)
| answers auth chunk id u receipt s :
    sy_followers s !! id = Some u → up_doing u = Sending chunk true → (S (st_step (sy_disk s)) < horizon)%nat →
    (append auth chunk s).1 = Ok receipt →
    ship_step s (put s id (answered u (Ok receipt)) <| sy_disk := (append auth chunk s).2 |>)
| fails id u e s : sy_followers s !! id = Some u → ship_step s (put s id (answered u (Err e)))
| reads id u read s : sy_followers s !! id = Some u → gives u read → ship_step s (put s id (read_step u read).1)
| records id u stored s :
    sy_followers s !! id = Some u →
    ship_step s (put s id (recorded u id stored (sy_journal s)).1
                 <| sy_journal := (recorded u id stored (sy_journal s)).2 |>
                 <| sy_given_up := (not_taken u id ++ sy_given_up s)%list |>)
| others_act s : ship_step s (s <| sy_disk := arrive (sy_disk s) |>).

(** ** What is said of a stream only grows *)
Definition reached (db : OutputDb) (pl : string) (n : Z) : Prop :=
  n ≤ 0 ∨ ∃ a, shown db pl a ∧ n ≤ sh_received a.
Definition completed (db : OutputDb) (pl : string) : Prop := ∃ a, shown db pl a ∧ sh_complete a = true.

Definition grows (db db' : OutputDb) : Prop := ∀ pl a, shown db pl a →
  ∃ a', shown db' pl a' ∧ sh_received a ≤ sh_received a' ∧ (sh_complete a = true → sh_complete a' = true).
#[local] Instance grows_preorder : PreOrder grows.
Proof.
  split.
  - intros db pl a Ha. by exists a.
  - intros d1 d2 d3 H12 H23 pl a (a2 & Ha2 & Hr & Hc)%H12. apply H23 in Ha2 as (a3 & Ha3 & Hr' & Hc').
    exists a3. split_and!; [done|lia|auto].
Qed.

Lemma reached_grows db db' pl n : grows db db' → reached db pl n → reached db' pl n.
Proof.
  intros Hg [Hn|(a & Ha & Hn)]; [by left|right]. apply Hg in Ha as (a' & Ha & Hr & _). exists a'. split; [done|lia].
Qed.
Lemma completed_grows db db' pl : grows db db' → completed db pl → completed db' pl.
Proof. intros Hg (a & Ha & Hc). apply Hg in Ha as (a' & Ha & _ & Hc'). exists a'. auto. Qed.
Lemma reached_weaken db pl n m : n ≤ m → reached db pl m → reached db pl n.
Proof. intros Hn [|(a & ? & ?)]; [left; lia|right; exists a; split; [done|lia]]. Qed.

Lemma arrive_grows w : grows (st_db w) (st_db (arrive w)).
Proof. intros pl a Ha. exists a. split; [|done]. by apply u_shown. Qed.

(** ** The invariant *)
(** A chunk tells the truth, starts within what was received, and is the last
    one only at the end of the output. *)
Record chunk_ok (db : OutputDb) (c : RunnerOutputChunk) (data : list Z) : Prop := {
  co_data : standard_decode (oc_data c) = Some data;
  co_honest : honest output (to_string (oc_placement_id c)) c data;
  co_reached : reached db (to_string (oc_placement_id c)) (oc_offset c);
  co_end : ¬ breaks → oc_finished c = true →
    oc_offset c + Z.of_nat (length data) = Z.of_nat (length (output (to_string (oc_placement_id c)))) }.

Lemma chunk_ok_grows db db' c data : grows db db' → chunk_ok db c data → chunk_ok db' c data.
Proof. intros Hg [? ? ? ?]. split; try done. by eapply reached_grows. Qed.

Definition doing_ok (db : OutputDb) (u : Upload) : Prop :=
  let pl := to_string (up_placement u) in
  match up_doing u with
  | Opening => up_position u = 0
  | Sending c _ => oc_placement_id c = up_placement u
      ∧ ∃ data, chunk_ok db c data ∧ up_position u ≤ oc_offset c + Z.of_nat (length data)
  | Gathering buffer _ => up_position u + Z.of_nat (length buffer) ≤ Z.of_nat (length (output pl))
      ∧ buffer = take (length buffer) (drop (Z.to_nat (up_position u)) (output pl))
      ∧ up_position u ≤ up_received u ∧ reached db pl (up_received u)
  | Recording Finished => completed db pl
  | Recording _ | Stopped => True
  end.
Definition follower_ok (db : OutputDb) (u : Upload) : Prop := 0 ≤ up_position u ∧ doing_ok db u.

Lemma follower_ok_grows db db' u : grows db db' → follower_ok db u → follower_ok db' u.
Proof.
  intros Hg [Hp Hd]. split; [done|]. unfold doing_ok in *. destruct (up_doing u) as [|c posted|buffer d|[]|]; try done.
  - destruct Hd as [Hpl (data & Hc & Hend)]. split; [done|]. exists data. split; [by eapply chunk_ok_grows|done].
  - destruct Hd as (? & ? & ? & ?). split_and!; try done. by eapply reached_grows.
  - by eapply completed_grows.
Qed.

(** A log of up to [MAX_STREAM_BYTES] is stored whole, and one that is
    complete was received whole. *)
Definition rows_whole (db : OutputDb) : Prop := ∀ pl a, shown db pl a →
  (sh_received a ≤ MAX_STREAM_BYTES → sh_size a = sh_received a)
  ∧ (¬ breaks → sh_complete a = true → sh_received a = Z.of_nat (length (output pl))).

Record sys_ok (s : Sys) : Prop := {
  ok_good : good output horizon (sy_disk s);
  ok_keyed : keyed (st_db (sy_disk s));
  ok_whole : rows_whole (st_db (sy_disk s));
  ok_sent : ∀ c, c ∈ sy_sent s → ∃ data, chunk_ok (st_db (sy_disk s)) c data;
  ok_followers : ∀ id u, sy_followers s !! id = Some u →
    follower_ok (st_db (sy_disk s)) u ∧ names (sy_journal s) id (up_placement u);
  ok_ids : NoDup (env_id <$> j_environments (sy_journal s));
  ok_shipped : ∀ id, id ∈ j_shipped_output (sy_journal s) → ∃ pl, names (sy_journal s) id pl
    ∧ (id ∈ sy_given_up s ∨ completed (st_db (sy_disk s)) (to_string pl)) }.

(** ** A delivery *)
Lemma good_shown w pl a :
  good output horizon w → shown (st_db w) pl a →
  0 ≤ sh_size a ≤ MAX_STREAM_BYTES ∧ sh_size a ≤ sh_received a ∧ sh_received a ≤ Z.of_nat (length (output pl))
  ∧ sh_received a ≤ i64_max.
Proof.
  intros Hg (o & row & Ho & Hr & Heq & <- & ->). destruct (rows_ok output horizon w Hg o row Ho Hr Heq) as [_ ? ? [? ?] _ _].
  done.
Qed.

Lemma chunk_continues w c data :
  keyed (st_db w) → good output horizon w → chunk_ok (st_db w) c data →
  continues (to_string (oc_placement_id c)) c (st_db w).
Proof.
  intros Hk Hg [_ _ Hr _] o row Ho Hrow Heq Hp.
  assert (shown (st_db w) (to_string (oc_placement_id c)) (shown_by o row)) as Hsh by (exists o, row; done).
  destruct Hr as [Hn|(a & Ha & Hn)].
  - pose proof (good_shown w _ _ Hg Hsh). simpl in *. lia.
  - by rewrite (shown_unique _ _ _ _ Hk Ha Hsh) in Hn.
Qed.

Lemma delivery_is_step w auth c data :
  keyed (st_db w) → good output horizon w → chunk_ok (st_db w) c data → (S (st_step w) < horizon)%nat →
  output_step horizon read_days output w (append_runner_output read_days auth c w).2.
Proof.
  intros Hk Hg Hc Hh. eapply append_step; [apply Hc|apply Hc|by eapply chunk_continues|done].
Qed.

Record answer_ok (db : OutputDb) (c : RunnerOutputChunk) (data : list Z) (rc : RunnerOutputReceipt) : Prop := {
  an_finished : or_finished rc = true → completed db (to_string (oc_placement_id c));
  an_received : or_finished rc = false → reached db (to_string (oc_placement_id c)) (or_received rc)
    ∧ oc_offset c + Z.of_nat (length data) ≤ or_received rc }.

Section delivery.
Context (w : Disk) (c : RunnerOutputChunk) (data : list Z).
Let pl := to_string (oc_placement_id c).
Let end_ := oc_offset c + Z.of_nat (length data).
Hypothesis Hg : good output horizon w.
Hypothesis Hk : keyed (st_db w).
Hypothesis Hw : rows_whole (st_db w).
Hypothesis Hc : chunk_ok (st_db w) c data.

Lemma stored_before_known received size :
  stored_before (st_db w) pl received size →
  oc_offset c ≤ received ∧ 0 ≤ size ≤ received ∧ received ≤ Z.of_nat (length (output pl)) ∧ received ≤ i64_max
  ∧ (received ≤ MAX_STREAM_BYTES → size = received).
Proof.
  destruct Hc as [_ [Ho He _] Hr _]. intros [Hsh|(-> & -> & Hno)].
  - destruct (good_shown w pl _ Hg Hsh) as (? & ? & ? & ?), (Hw _ _ Hsh) as [? _]. simpl in *. split_and!; try done; try lia.
    destruct Hr as [?|(a & Ha & Hn)]; [lia|]. by rewrite (shown_unique _ _ _ _ Hk Ha Hsh) in Hn.
  - split_and!; try lia; try done. destruct Hr as [?|(a & Ha & _)]; [lia|by apply Hno in Ha].
Qed.

Lemma rows_after_grows db' result : rows_after c data (st_db w) db' result → grows (st_db w) db'.
Proof.
  intros [_ Hoth Hm] pl' a Ha. destruct (decide (pl' = pl)) as [->|Hne].
  2: { exists a. split; [|done]. by apply Hoth. }
  destruct Hm as [[Hm _]|(received & size & size' & Hb & Hend & _ & Hm & _)].
  - exists a. split; [|done]. by apply Hm.
  - eexists. split; [by apply Hm|]. destruct (stored_before_known _ _ Hb) as (_ & _ & _ & Hmax & _).
    destruct Hb as [Hb|(_ & _ & Hno)]; [|by apply Hno in Ha].
    rewrite (shown_unique _ _ _ _ Hk Ha Hb). simpl. split; [lia|done].
Qed.

Lemma rows_after_whole db' result : rows_after c data (st_db w) db' result → rows_whole db'.
Proof.
  intros [_ Hoth Hm] pl' a Ha. destruct (decide (pl' = pl)) as [->|Hne].
  2: { apply Hw. by apply Hoth. }
  destruct Hm as [[Hm _]|(received & size & size' & Hb & Hend & Hsize & Hm & _)]; [by apply Hw, Hm|].
  apply Hm in Ha as ->. destruct (stored_before_known _ _ Hb) as (Hor & Hpos & Hlen & Hmax & Hwhole).
  destruct Hc as [_ [Ho He _] _ Hlast]. fold pl in He, Hlast. simpl. split.
  - intros Hfit. rewrite Hsize; unfold MAX_STREAM_BYTES, i64_max in *; lia.
  - intros Hb' Hf. specialize (Hlast Hb' Hf). lia.
Qed.

Lemma rows_after_answer db' result rc :
  rows_after c data (st_db w) db' result → result = Ok rc → answer_ok db' c data rc.
Proof.
  intros [_ Hoth Hm] Hrc.
  destruct Hm as [[Hm Hr]|(received & size & size' & Hb & Hend & Hsize & Hm & Hr)].
  - destruct (Hr rc Hrc) as (Hf & a & Ha & Hca). split; [|congruence]. intros _. exists a. split; [|done]. by apply Hm.
  - specialize (Hr rc Hrc) as ->. destruct (stored_before_known _ _ Hb) as (_ & _ & _ & Hmax & _). split; simpl.
    + intros Hf. eexists. split; [by apply Hm|]. done.
    + intros _. split; [|lia]. right. eexists. split; [by apply Hm|]. simpl. lia.
Qed.

Lemma delivery_ok auth :
  (S (st_step w) < horizon)%nat →
  let r := append_runner_output read_days auth c w in
  good output horizon r.2 ∧ keyed (st_db r.2) ∧ rows_whole (st_db r.2) ∧ grows (st_db w) (st_db r.2)
  ∧ ∀ rc, r.1 = Ok rc → answer_ok (st_db r.2) c data rc.
Proof.
  intros Hh r. assert (rows_after c data (st_db w) (st_db r.2) r.1) as Hr.
  { apply append_rows; [apply Hc|done|]. intros a Ha. pose proof (good_shown w _ _ Hg Ha). lia. }
  split_and!; [|apply Hr|by eapply rows_after_whole|by eapply rows_after_grows|intros rc; by apply rows_after_answer].
  eapply good_step; [done|by eapply delivery_is_step|exact Hg].
Qed.
End delivery.

(** ** A follower's operations *)
Lemma take_of_take (l b : list Z) n k :
  b = take (length b) (drop n l) → (k ≤ length b)%nat → drop k b = take (length b - k) (drop (n + k) l).
Proof.
  intros Hb Hk. rewrite Hb at 1. rewrite skipn_firstn_comm, drop_drop. done.
Qed.

Lemma text_bytes u n k : Forall is_byte (take n (drop k (text u))).
Proof. apply Forall_take, Forall_drop, output_bytes. Qed.

(** What [send] posts is true when the bytes are those at the offset. *)
Lemma send_ok db u offset data finished :
  0 ≤ up_position u ≤ offset + Z.of_nat (length data) → 0 ≤ offset →
  offset + Z.of_nat (length data) ≤ Z.of_nat (length (text u)) →
  data = take (length data) (drop (Z.to_nat offset) (text u)) → reached db (to_string (up_placement u)) offset →
  (¬ breaks → finished = true → offset + Z.of_nat (length data) = Z.of_nat (length (text u))) →
  follower_ok db (send u offset data finished).
Proof.
  intros Hp Ho He Hd Hr Hend. split; [simpl; lia|]. split; [done|]. exists data. split; [|simpl; lia].
  split; simpl; [|by split|done|done]. apply standard_decode_encode. rewrite Hd. apply text_bytes.
Qed.

Lemma opened_ok db u reader : follower_ok db u → follower_ok db (opened u reader).
Proof.
  intros [Hp Hd]. unfold opened. destruct (up_doing u) eqn:E; try done; unfold doing_ok in Hd; rewrite E in Hd.
  - destruct reader; [|done]. apply send_ok; simpl; try lia; try done. by left.
Qed.

Lemma authorized_ok db u expires now : follower_ok db u → follower_ok db (authorized u expires now).
Proof.
  intros [Hp Hd]. unfold authorized. destruct (up_doing u) as [|c []|b d|why|] eqn:E; try done.
  destruct (may_post expires now); [|done]. split; [done|]. unfold doing_ok in *. rewrite E in Hd. done.
Qed.

Lemma failed_ok db u e : follower_ok db u → follower_ok db (answered u (Err e)).
Proof.
  intros [Hp Hd]. unfold answered. destruct (up_doing u) as [|c []|b d|why|] eqn:E; try done.
  unfold doing_ok in Hd. rewrite E in Hd. by destruct (try_again e).
Qed.

Lemma answered_ok db u c data rc :
  follower_ok db u → up_doing u = Sending c true → oc_placement_id c = up_placement u →
  up_position u ≤ oc_offset c + Z.of_nat (length data) → oc_offset c + Z.of_nat (length data) ≤ Z.of_nat (length (text u)) →
  answer_ok db c data rc → follower_ok db (answered u (Ok rc)).
Proof.
  intros [Hp _] E Hpl Hpos Hlen [Hf Hr]. unfold answered. rewrite E. destruct (or_finished rc).
  - split; [done|]. unfold doing_ok. simpl. rewrite <-Hpl. by apply Hf.
  - destruct (Hr eq_refl) as [Hreach Hle]. split; [done|]. unfold doing_ok. simpl. rewrite <-Hpl.
    split_and!; [rewrite Hpl; unfold text in Hlen; lia|done|lia|done].
Qed.

Lemma gathered_ok db u buffer ended :
  0 ≤ up_position u → up_position u ≤ up_received u → reached db (to_string (up_placement u)) (up_received u) →
  up_position u + Z.of_nat (length buffer) ≤ Z.of_nat (length (text u)) →
  buffer = take (length buffer) (drop (Z.to_nat (up_position u)) (text u)) →
  (¬ breaks → ended = true → up_position u + Z.of_nat (length buffer) = Z.of_nat (length (text u))) →
  follower_ok db (gathered u buffer ended).1.
Proof.
  intros Hp Hpr Hr Hlen Hb Hend. unfold gathered.
  set (skip := Z.min _ _). destruct (JobLines.scan _ _) as [jobs logged]. simpl.
  assert (0 ≤ skip ≤ Z.of_nat (length buffer) ∧ up_position u + skip ≤ up_received u) as [Hs1 Hs2] by lia.
  destruct (_ || ended) eqn:E.
  - apply send_ok; simpl; unfold text in *; simpl; rewrite ?length_drop; try lia.
    + rewrite (take_of_take (output (to_string (up_placement u))) buffer (Z.to_nat (up_position u))) at 1; [|done|lia].
      f_equal. f_equal. lia.
    + by eapply reached_weaken.
    + intros Hn He. specialize (Hend Hn He). lia.
  - apply orb_false_iff in E as [E%Z.ltb_ge _]. split; [simpl; lia|]. unfold doing_ok. simpl.
    unfold text in Hlen. split_and!; try done; lia.
Qed.

Lemma read_step_ok db u read : follower_ok db u → gives u read → follower_ok db (read_step u read).1.
Proof.
  intros [Hp Hd] Hg. unfold read_step. unfold doing_ok in Hd. unfold gives, read_so_far in Hg.
  destruct (up_doing u) as [|c p|b deadline|why|] eqn:E; simpl; try (split; [done|]; unfold doing_ok; by rewrite E).
  destruct Hd as (Hlen & Hb & Hpr & Hr). fold (text u) in Hb. unfold gather.
  destruct read as [[|x data]| |]; simpl.
  - by apply gathered_ok.
  - set (d := x :: data) in *. destruct Hg as (Hsize & Hfit & Hd).
    assert (Z.of_nat (length (b ++ d)%list) = Z.of_nat (length b) + Z.of_nat (length d)) as Hl by (rewrite length_app; lia).
    assert ((b ++ d)%list = take (length (b ++ d)%list) (drop (Z.to_nat (up_position u)) (text u))) as Hbd.
    { rewrite length_app, <-take_take_drop, <-Hb. f_equal. rewrite drop_drop, Hd at 1. f_equal. f_equal. lia. }
    destruct (_ <? CHUNK_BYTES); simpl.
    + split; [done|]. unfold doing_ok. simpl. unfold text in *. split_and!; try done. lia.
    + apply gathered_ok; try done. lia.
  - by apply gathered_ok.
  - destruct deadline; simpl; [by apply gathered_ok|]. split; [done|]. by unfold doing_ok.
Qed.

(** ** Every step keeps the invariant *)
Lemma unshipped_elem j e : e ∈ unshipped_output j ↔
  e ∈ j_environments j ∧ env_local_identity e ≠ None ∧ env_id e ∉ j_shipped_output j.
Proof.
  unfold unshipped_output. rewrite elem_of_select, andb_true_iff, !negb_true_iff, bool_decide_eq_false.
  destruct (env_local_identity e); simpl; naive_solver.
Qed.

Lemma scanned session listed followers id u :
  scan_journal session listed followers !! id = Some u →
  followers !! id = Some u ∨ ∃ e, e ∈ default [] listed ∧ id = env_id e ∧ u = follow session e.
Proof.
  unfold scan_journal. intros Hl.
  assert (forget_done followers !! id = Some u ∨ ∃ e, e ∈ default [] listed ∧ id = env_id e ∧ u = follow session e) as [Hf|];
    [|left; by apply map_lookup_filter_Some in Hf as [? _]|by right].
  revert Hl. generalize (forget_done followers). induction (default [] listed) as [|e es IH]; intros m Hl; [by left|].
  simpl in Hl. destruct (IH _ Hl) as [Hm|(x & Hx & Hid & Hu)]; [|right; exists x; split_and!; [by right|done..]].
  unfold start_following in Hm. destruct (m !! env_id e) eqn:He; [by left|].
  apply lookup_insert_Some in Hm as [[<- <-]|[_ Hm]]; [|by left]. right. exists e. split_and!; [by left|done..].
Qed.

Lemma put_ok s id u u0 :
  sys_ok s → sy_followers s !! id = Some u0 → up_placement u = up_placement u0 →
  follower_ok (st_db (sy_disk s)) u → sys_ok (put s id u).
Proof.
  intros [Hg Hk Hw Hs Hf Hi Hsh] Hu Hpl Hok. split; try done. intros id' u' Hu'. simpl in Hu'.
  apply lookup_insert_Some in Hu' as [[<- <-]|[_ Hu']]; [|by apply Hf].
  split; [done|]. simpl. rewrite Hpl. by apply (Hf id).
Qed.

Lemma disk_ok s w :
  sys_ok s → good output horizon w → keyed (st_db w) → rows_whole (st_db w) → grows (st_db (sy_disk s)) (st_db w) →
  sys_ok (s <| sy_disk := w |>).
Proof.
  intros [_ _ _ Hs Hf Hi Hsh] Hg Hk Hw Hgr. split; try done.
  - intros c (data & Hc)%Hs. exists data. by eapply chunk_ok_grows.
  - intros id u (Hok & Hn)%Hf. split; [by eapply follower_ok_grows|done].
  - intros id (pl & Hn & Hd)%Hsh. exists pl. split; [done|]. destruct Hd as [|Hd]; [by left|right].
    by eapply completed_grows.
Qed.

Lemma arrive_keyed w : keyed (st_db w) → keyed (st_db (arrive w)).
Proof. intros [Hs Ho Hp]. split; [by apply u_streams|unfold arrive; simpl; by rewrite u_outputs..]. Qed.

Lemma names_unique j id pl pl' : NoDup (env_id <$> j_environments j) → names j id pl → names j id pl' → pl = pl'.
Proof.
  intros Hi (e & He & Hid & <-) (e' & He' & Hid' & <-). assert (e = e') as ->; [|done].
  eapply unique_by; [exact Hi|done..|congruence].
Qed.

Lemma answered_placement u r : up_placement (answered u r) = up_placement u.
Proof. unfold answered. destruct (up_doing u) as [|c []| | |], r as [rc|e]; try done; [by destruct (or_finished rc)|by destruct (try_again e)]. Qed.

Lemma read_placement u r : up_placement (read_step u r).1 = up_placement u.
Proof.
  unfold read_step. destruct (up_doing u); try done. destruct (gather _ _ _) as [[]|[]]; [done|].
  unfold gathered. destruct (JobLines.scan _ _). simpl. by case_match.
Qed.

Lemma opened_placement u r : up_placement (opened u r) = up_placement u.
Proof. unfold opened. destruct (up_doing u); try done. by destruct r. Qed.

Lemma authorized_placement u e n : up_placement (authorized u e n) = up_placement u.
Proof. unfold authorized. destruct (up_doing u) as [|c []| | |]; try done. by destruct (may_post e n). Qed.

Lemma posts_ok s id u expires now :
  sys_ok s → sy_followers s !! id = Some u →
  let u' := authorized u expires now in
  sys_ok (put s id u' <| sy_sent := (posted u' ++ sy_sent s)%list |>).
Proof.
  intros Hs Hu u'. destruct (ok_followers s Hs id u Hu) as [Hf _].
  pose proof (authorized_ok _ _ expires now Hf) as Hf'. fold u' in Hf'.
  pose proof (put_ok s id u' u Hs Hu (authorized_placement _ _ _) Hf') as [? ? ? Hsent ? ? ?]. split; try done.
  intros c [Hc|Hc]%elem_of_app; [|by apply Hsent]. unfold posted in Hc.
  destruct Hf' as [_ Hd]. unfold doing_ok in Hd. destruct (up_doing u') as [|c' []| | |]; try by apply elem_of_nil in Hc.
  apply list_elem_of_singleton in Hc as ->. destruct Hd as (_ & data & Hd & _). by exists data.
Qed.

Lemma answers_ok s auth c id u rc :
  sys_ok s → sy_followers s !! id = Some u → up_doing u = Sending c true → (S (st_step (sy_disk s)) < horizon)%nat →
  (append auth c s).1 = Ok rc → sys_ok (put s id (answered u (Ok rc)) <| sy_disk := (append auth c s).2 |>).
Proof.
  intros Hs Hu E Hh Hrc. destruct (ok_followers s Hs id u Hu) as [[Hp Hd] Hn]. unfold doing_ok in Hd. rewrite E in Hd.
  destruct Hd as (Hpl & data & Hc & Hpos).
  destruct (delivery_ok (sy_disk s) c data (ok_good s Hs) (ok_keyed s Hs) (ok_whole s Hs) Hc auth Hh)
    as (Hg & Hk & Hw & Hgr & Ha).
  assert (sys_ok (s <| sy_disk := (append auth c s).2 |>)) as Hs' by (by apply disk_ok).
  apply (put_ok _ id (answered u (Ok rc)) u Hs' Hu); [apply answered_placement|].
  destruct (ok_followers _ Hs' id u Hu) as [Hf' _].
  apply (answered_ok _ _ _ _ _ Hf' E Hpl Hpos); [|by apply Ha].
  destruct Hc as [_ [_ He _] _ _]. rewrite Hpl in He. done.
Qed.

Lemma records_ok s id u stored :
  sys_ok s → sy_followers s !! id = Some u →
  sys_ok (put s id (recorded u id stored (sy_journal s)).1
          <| sy_journal := (recorded u id stored (sy_journal s)).2 |>
          <| sy_given_up := (not_taken u id ++ sy_given_up s)%list |>).
Proof.
  intros Hs Hu. destruct (ok_followers s Hs id u Hu) as [[Hp Hd] Hn]. unfold doing_ok in Hd.
  assert (∀ x, sys_ok (put s id x) → sys_ok (put s id x <| sy_given_up := (not_taken u id ++ sy_given_up s)%list |>)) as Hmore.
  { intros x [? ? ? ? ? ? Hsh]. split; try done. intros id' (pl & Hpl & Hc)%Hsh. exists pl. split; [done|]. simpl in *.
    rewrite elem_of_app. tauto. }
  unfold recorded. destruct (up_doing u) as [|c p|b dl|why|] eqn:E;
    try (apply (Hmore u), (put_ok s id u u Hs Hu eq_refl); split; [done|]; unfold doing_ok; by rewrite E).
  assert (sys_ok (put s id (u <| up_doing := Stopped |>))) as Hput by (by apply (put_ok s id _ u Hs Hu)).
  apply Hmore in Hput. cbn [fst snd]. destruct stored; [|exact Hput]. unfold output_shipped. case_bool_decide; [exact Hput|].
  destruct Hput as [? ? ? ? ? ? Hsh]. split; try done. simpl in *.
  intros id' [Hin| ->%list_elem_of_singleton]%elem_of_app.
  - destruct (Hsh id' Hin) as (pl & Hpl & Hc). exists pl. done.
  - exists (up_placement u). split; [done|]. unfold not_taken. rewrite E, elem_of_app. destruct why; [left|by right|left]; left; by left.
Qed.

Lemma ship_step_ok s s' : ship_step s s' → sys_ok s → sys_ok s'.
Proof.
  intros Hstep Hs. destruct Hstep as [session listed s Hl|s|j s Hj|id u reader s Hu|id u expires now s Hu u'
    |auth c s Hin Hh|auth c id u rc s Hu E Hh Hrc|id u e s Hu|id u r s Hu Hr|id u stored s Hu|s].
  - destruct Hs as [? ? ? ? Hf ? ?]. split; try done. simpl. intros id u [Hu|(e & He & -> & ->)]%scanned; [by apply Hf|].
    split; [by split|]. destruct Hl as [-> | ->]; [by apply elem_of_nil in He|]. apply unshipped_elem in He as [He _]. by exists e.
  - destruct Hs as [? ? ? ? Hf ? ?]. split; try done.
  - destruct Hs as [? ? ? ? Hf Hi Hsh], Hj as [Hj1 Hj2 Hj3]. split; try done; simpl.
    + intros id u (Hok & Hn)%Hf. split; [done|]. by apply Hj2.
    + by apply Hj3.
    + rewrite Hj1. intros id (pl & Hn & Hd)%Hsh. exists pl. split; [by apply Hj2|done].
  - apply (put_ok s id _ u Hs Hu); [apply opened_placement|]. by apply opened_ok, (ok_followers s Hs id).
  - by apply posts_ok.
  - destruct (ok_sent s Hs c Hin) as (data & Hc).
    destruct (delivery_ok (sy_disk s) c data (ok_good s Hs) (ok_keyed s Hs) (ok_whole s Hs) Hc auth Hh)
      as (? & ? & ? & ? & _). by apply disk_ok.
  - by apply answers_ok.
  - apply (put_ok s id _ u Hs Hu); [apply answered_placement|]. by apply failed_ok, (ok_followers s Hs id).
  - apply (put_ok s id _ u Hs Hu); [apply read_placement|]. apply read_step_ok; [|done]. by apply (ok_followers s Hs id).
  - by apply records_ok.
  - apply disk_ok; [done|by apply good_arrive, Hs|by apply arrive_keyed, Hs| |apply arrive_grows].
    intros pl a Ha. apply (ok_whole s Hs). by apply u_shown in Ha.
Qed.

(** ** The log at the end *)
Record starts (s : Sys) : Prop := {
  st_no_output : fleet_output_streams (st_db (sy_disk s)) = [];
  st_stream_keys : NoDup (ls_id <$> log_streams (st_db (sy_disk s)));
  st_unused_ids : ∀ row n, (n < horizon)%nat → row ∈ log_streams (st_db (sy_disk s)) → ls_id row ≠ to_string (drawn n);
  st_no_followers : sy_followers s = ∅;
  st_nothing_sent : sy_sent s = [];
  st_nothing_shipped : j_shipped_output (sy_journal s) = [];
  st_environment_keys : NoDup (env_id <$> j_environments (sy_journal s)) }.

Lemma starts_ok s : starts s → sys_ok s.
Proof.
  intros [Ho Hk Hd Hf Hs Hsh Hi].
  assert (∀ pl a, ¬ shown (st_db (sy_disk s)) pl a) as Hno.
  { intros pl a (o & row & Hin & _). rewrite Ho in Hin. by apply elem_of_nil in Hin. }
  split; rewrite ?Hf, ?Hs, ?Hsh; try done.
  - eapply (good_reach horizon read_days); [done|done| |apply rtc_refl]. intros row n Hn Hin Heq. by apply (Hd row n).
  - split; rewrite ?Ho; try done; apply NoDup_nil_2.
  - intros pl a Ha. by destruct (Hno pl a).
  - by intros c ?%elem_of_nil.
  - by intros id ?%elem_of_nil.
Qed.

Lemma reaches_ok s0 s : starts s0 → rtc ship_step s0 s → sys_ok s.
Proof. intros Hs%starts_ok Hr. induction Hr; eauto using ship_step_ok. Qed.

(** C12: an environment is recorded as shipped only when its runner's whole
    output is stored.  Whatever is lost, delayed, repeated or restarted on the
    way, as long as no read of the output fails, since a failed read ends the
    output like its end does, and nobody else closes, changes or expires the
    stored logs: once the agent records an environment as shipped, unless
    GridOps did not take the output or it could not be opened, its log is
    complete and holds the end of what the runner wrote, all of it up to
    32 MiB. *)
Theorem shipped_log_is_whole s0 s :
  starts s0 → rtc ship_step s0 s → ¬ breaks →
  ∀ e, e ∈ j_environments (sy_journal s) → env_id e ∈ j_shipped_output (sy_journal s) → env_id e ∉ sy_given_up s →
  let O := output (to_string (env_placement_id e)) in
  ∃ o row, o ∈ fleet_output_streams (st_db (sy_disk s)) ∧ row ∈ log_streams (st_db (sy_disk s))
    ∧ os_log_stream_id o = ls_id row ∧ os_placement_id o = to_string (env_placement_id e)
    ∧ ls_complete row = true
    ∧ stored (st_files (sy_disk s)) (ls_path row) (ls_size_bytes row) = last_bytes (ls_size_bytes row) O
    ∧ (Z.of_nat (length O) ≤ MAX_STREAM_BYTES →
       stored (st_files (sy_disk s)) (ls_path row) (ls_size_bytes row) = O).
Proof.
  intros Hs0 Hr Hb e He Hin Hg O. pose proof (reaches_ok s0 s Hs0 Hr) as Hs.
  destruct (ok_shipped s Hs _ Hin) as (pl & Hn & [?|(a & Ha & Hc)]); [done|].
  assert (pl = env_placement_id e) as ->.
  { eapply names_unique; [apply Hs|exact Hn|by exists e]. }
  destruct (ok_whole s Hs _ _ Ha) as [Hfit Hall]. specialize (Hall Hb Hc). fold O in Hall.
  destruct Ha as (o & row & Hino & Hinr & Heq & Hpl & ->). exists o, row. simpl in *.
  destruct (rows_ok output horizon _ (ok_good s Hs) o row Hino Hinr Heq) as [_ _ _ _ _ Ht].
  rewrite Hpl in Ht. fold O in Ht. unfold so_far in Ht. rewrite Hall, Nat2Z.id, firstn_all in Ht.
  split_and!; try done. intros Hlen. rewrite Ht, Hfit, Hall by lia. apply last_bytes_all.
Qed.

(** C13: shipping only appends what continues.  Each step of the system is, for
    the tables and files, no step or one of those the stored log is proved
    genuine for: every chunk that reaches GridOps tells the truth about the
    runner's output and starts within what was received. *)
Theorem shipping_refines_appending s0 s s' :
  starts s0 → rtc ship_step s0 s → ship_step s s' →
  rtc (output_step horizon read_days output) (sy_disk s) (sy_disk s').
Proof.
  intros Hs0 Hr Hstep. pose proof (reaches_ok s0 s Hs0 Hr) as Hs.
  destruct Hstep as [session listed s Hl|s|j s Hj|id u reader s Hu|id u expires now s Hu u'
    |auth c s Hin Hh|auth c id u rc s Hu E Hh Hrc|id u e s Hu|id u r s Hu Hg|id u st s Hu|s]; simpl; try done.
  - destruct (ok_sent s Hs c Hin) as (data & Hc). apply rtc_once. by eapply delivery_is_step; [apply Hs|apply Hs|..].
  - destruct (ok_followers s Hs id u Hu) as [[_ Hd] _]. unfold doing_ok in Hd. rewrite E in Hd.
    destruct Hd as (_ & data & Hc & _). apply rtc_once. by eapply delivery_is_step; [apply Hs|apply Hs|..].
  - apply rtc_once. constructor.
Qed.
End system.

(** ** Output that is given up *)
Section given_up.
Context `{Circumstances, UuidText} (horizon : nat) (read_days : string → option Z) (output : string → list Z)
  (breaks : Prop).
#[local] Notation step := (ship_step horizon read_days output breaks).

(** Recorded as shipped, given up, and not followed. *)
Record abandoned (id : Uuid) (s : Sys) : Prop := {
  ab_shipped : id ∈ j_shipped_output (sy_journal s);
  ab_given_up : id ∈ sy_given_up s;
  ab_stopped : ∀ u, sy_followers s !! id = Some u → up_doing u = Stopped }.

Lemma output_shipped_more j id id' : id ∈ j_shipped_output j → id ∈ j_shipped_output (output_shipped j id').
Proof. unfold output_shipped. intros Hin. case_match; [done|]. simpl. apply elem_of_app. by left. Qed.

Lemma recorded_more u id' stored j id :
  id ∈ j_shipped_output j → id ∈ j_shipped_output (recorded u id' stored j).2.
Proof. unfold recorded. intros Hin. repeat (case_match; simpl; auto using output_shipped_more). Qed.

(** A follower that stopped does nothing. *)
Lemma abandoned_put id s id' u u' :
  abandoned id s → sy_followers s !! id' = Some u → (up_doing u = Stopped → up_doing u' = Stopped) →
  ∀ v, (<[id' := u']> (sy_followers s)) !! id = Some v → up_doing v = Stopped.
Proof.
  intros [_ _ Hst] Hu Hk v [[-> <-]|[_ Hv]]%lookup_insert_Some; [|by apply Hst]. by apply Hk, Hst.
Qed.

Lemma abandoned_step id s s' : step s s' → abandoned id s → abandoned id s'.
Proof.
  intros Hstep Hab. pose proof Hab as [Hsh Hg Hst].
  destruct Hstep as [session listed s Hl|s|j s Hj|id' u reader s Hu|id' u expires now s Hu u'
    |auth c s Hin Hh|auth c id' u rc s Hu E Hh Hrc|id' u e s Hu|id' u r s Hu Hgv|id' u st s Hu|s];
    split; simpl; try done.
  - intros u [Hu|(e & He & -> & _)]%scanned; [by apply Hst|]. exfalso.
    destruct Hl as [->| ->]; [by apply elem_of_nil in He|]. simpl in He. by apply unshipped_elem in He as (_ & _ & ?).
  - by rewrite (jg_shipped _ _ Hj).
  - eapply abandoned_put; [done..|]. intros E. unfold opened. by rewrite E.
  - eapply abandoned_put; [done..|]. intros E. unfold u', authorized. by rewrite E.
  - eapply abandoned_put; [done..|]. congruence.
  - eapply abandoned_put; [done..|]. intros E. unfold answered. by rewrite E.
  - eapply abandoned_put; [done..|]. intros E. unfold read_step. by rewrite E.
  - by apply recorded_more.
  - apply elem_of_app. by right.
  - eapply abandoned_put; [done..|]. intros E. unfold recorded. by rewrite E.
Qed.

(** C40: output that cannot be opened is given up for good.  When the runtime
    gives a follower no reader once, which it also does when it cannot ask
    Docker about the container, and the journal takes the record that follows,
    the environment counts as shipped: in every later state, whatever sessions
    come and go, whatever the agent journals and whatever else is shipped, it is
    in the list of shipped environments and no follower of it does anything. *)
Theorem unopened_output_is_abandoned (s s' : Sys) (id : Uuid) (u : Upload) :
  up_doing u = Opening → sy_followers s !! id = Some (opened u false) →
  let (u1, j1) := recorded (opened u false) id true (sy_journal s) in
  let s1 := put s id u1 <| sy_journal := j1 |>
              <| sy_given_up := (not_taken (opened u false) id ++ sy_given_up s)%list |> in
  step s s1 ∧ (rtc step s1 s' → abandoned id s').
Proof.
  intros Hu Hf. destruct (recorded _ _ _ _) as [u1 j1] eqn:E. split.
  { replace u1 with (recorded (opened u false) id true (sy_journal s)).1 by by rewrite E.
    replace j1 with (recorded (opened u false) id true (sy_journal s)).2 by by rewrite E. by apply records. }
  unfold recorded, opened in E. rewrite Hu in E. simpl in E. injection E as <- <-.
  intros Hr. cut (abandoned id (put s id (opened u false <| up_doing := Stopped |>)
    <| sy_journal := output_shipped (sy_journal s) id |>
    <| sy_given_up := (not_taken (opened u false) id ++ sy_given_up s)%list |>)).
  { unfold opened in Hr |- *. rewrite Hu in Hr |- *. induction Hr; eauto using abandoned_step. }
  split; simpl.
  - unfold output_shipped. case_bool_decide; [done|]. simpl. apply elem_of_app. right. by left.
  - unfold opened, not_taken. rewrite Hu. by left.
  - intros v Hv. rewrite lookup_insert_eq in Hv. by injection Hv as <-.
Qed.
End given_up.

(** ** The journal's operations *)
Lemma record_environment_grows j e j' : record_environment j e = Some j' → journal_grows j j'.
Proof.
  unfold record_environment. destruct (exists_row _ _) eqn:Hex; [done|]. intros [= <-]. rewrite exists_row_false in Hex.
  split; [done| |]; simpl.
  - intros id pl (x & Hx & ?). exists x. split; [|done]. simpl. apply elem_of_app. by left.
  - intros Hi. apply NoDup_snoc; [done|]. intros b Hb Heq. specialize (Hex b Hb). simpl in Hex.
    apply orb_false_iff in Hex as [Hex%Z.eqb_neq _]. done.
Qed.

Lemma bind_local_identity_grows j id identity j' : bind_local_identity j id identity = Some j' → journal_grows j j'.
Proof.
  unfold bind_local_identity. destruct (_ =? 1); [|done]. intros [= <-]. split; [done| |]; simpl.
  - intros i pl (x & Hx & Hid & Hpl). unfold names. simpl.
    match goal with |- context [update_where ?f ?g _] => exists (if f x then g x else x) end.
    split; [apply elem_of_update_where; by exists x|]. by case_match.
  - intros Hi. by rewrite update_where_fmap.
Qed.

(** ** A runner's two lines, with a lost answer and a restart of the agent *)
Module SampleShipper.
#[local] Existing Instances Hyphenated.uuid_text Plain.codec PlainAead.aead SampleRun.result_json.
Import SampleFleet SampleRun SampleOutput.
#[local] Existing Instance calm_day.

Lemma wrote_bytes pl : Forall is_byte (wrote pl).
Proof. apply Forall_fmap, Forall_true. intros c. apply byte_of_range. Qed.

#[local] Instance calm_undisturbed : Undisturbed.
Proof. by split. Qed.
#[local] Instance calm_laws : CircumstanceLaws 100.
Proof. by apply counted_laws. Qed.

Definition environment : Environment :=
  {| env_id := 90; env_placement_id := 70; env_generation := 1; env_workload := WorkCiRunner;
     env_runtime_kind := Docker; env_execution_os := Linux; env_docker_socket := false;
     env_prepare :=
       {| pe_execution_profile_id := 1; pe_profile_revision := 1; pe_workload := WorkCiRunner;
          pe_target := GithubRepository 1 2; pe_runtime_kind := Docker; pe_execution_os := Linux;
          pe_architecture := X64; pe_mode := Ephemeral; pe_image := "runner"; pe_labels := [];
          pe_configuration := {| ec_network := None; ec_session_id := None; ec_requires_interactive := false;
                                 ec_requires_docker_socket := false |};
          pe_resource_request := {| rq_cpu_millis := 1; rq_memory_mib := 1; rq_disk_bytes := 0 |};
          pe_allocation_ids := [] |};
     env_local_identity := Some (ResDocker "container") |}.

Definition s0 : Sys :=
  {| sy_disk := empty_log;
     sy_journal := {| j_identity := None; j_rotation := None; j_commands := []; j_environments := [environment];
                      j_shipped_output := []; j_delivered_results := [] |};
     sy_followers := ∅; sy_sent := []; sy_given_up := [] |}.

(** What happens, to the one follower. *)
Inductive Event :=
| Scan (session : Uuid) | Ends | Opens | Posts | Delivered | Answered | Lost | Reads (read : Read) | Records.

Definition given (u : Upload) (read : Read) : bool :=
  let n := read_so_far u in
  match read with
  | ReadOk [] => n =? Z.of_nat (length (text wrote u))
  | ReadOk data => (Z.of_nat (length data) <=? READ_BYTES)
                   && (n + Z.of_nat (length data) <=? Z.of_nat (length (text wrote u)))
                   && bool_decide (data = take (length data) (drop (Z.to_nat n) (text wrote u)))
  | ReadError => false
  | TimedOut => true
  end.

Definition in_time (s : Sys) : bool := (S (st_step (sy_disk s)) <? 100)%nat.

Definition play (e : Event) (s : Sys) : option Sys :=
  match e with
  | Scan session => Some (s <| sy_followers := scan_journal session (Some (unshipped_output (sy_journal s))) (sy_followers s) |>)
  | Ends => Some (s <| sy_followers := ∅ |>)
  | _ =>
    u ← sy_followers s !! 90;
    match e with
    | Opens => Some (put s 90 (opened u true))
    | Posts => let u' := authorized u (Some 60000) 7000 in Some (put s 90 u' <| sy_sent := (posted u' ++ sy_sent s)%list |>)
    | Lost => Some (put s 90 (answered u (Err (ClientUnavailable "timeout"))))
    | Reads read => if given u read then Some (put s 90 (read_step u read).1) else None
    | Records => Some (put s 90 (recorded u 90 true (sy_journal s)).1
                 <| sy_journal := (recorded u 90 true (sy_journal s)).2 |>
                 <| sy_given_up := (not_taken u 90 ++ sy_given_up s)%list |>)
    | Delivered => c ← head (sy_sent s);
                   if in_time s then Some (s <| sy_disk := (append days auth c s).2 |>) else None
    | Answered => match up_doing u with
                  | Sending c true =>
                      if in_time s then
                        match (append days auth c s).1 with
                        | Ok receipt => Some (put s 90 (answered u (Ok receipt)) <| sy_disk := (append days auth c s).2 |>)
                        | Err _ => None
                        end
                      else None
                  | _ => None
                  end
    | _ => None
    end
  end.

Notation step := (ship_step 100 days wrote False).

Lemma given_gives u read : given u read = true → gives wrote False u read.
Proof.
  unfold given, gives. destruct read as [[|x data]| |]; try done.
  - by intros ?%Z.eqb_eq.
  - rewrite !andb_true_iff, !Z.leb_le, bool_decide_eq_true. tauto.
Qed.

Lemma play_step e s s' : play e s = Some s' → step s s'.
Proof.
  unfold play. destruct e; try (intros [= <-]; by constructor; right); intros (u & Hu & He)%bind_Some.
  - injection He as <-. by apply opens.
  - injection He as <-. by apply posts.
  - apply bind_Some in He as (c & Hc & He). destruct (in_time s) eqn:Ht; [|done]. injection He as <-.
    apply delivers; [by apply head_Some_elem_of|by apply Nat.ltb_lt].
  - destruct (up_doing u) as [|c []| | |] eqn:E; try done. destruct (in_time s) eqn:Ht; [|done].
    destruct (append days auth c s).1 eqn:Hr; [|done]. injection He as <-. apply answers; try done. by apply Nat.ltb_lt.
  - injection He as <-. by apply fails.
  - destruct (given u read) eqn:Hg; [|done]. injection He as <-. apply reads; [done|]. by apply given_gives.
  - injection He as <-. by apply records.
Qed.

Fixpoint play_all (l : list Event) (s : Sys) : option Sys :=
  match l with [] => Some s | e :: l => play e s ≫= play_all l end.

Lemma play_all_steps l s s' : play_all l s = Some s' → rtc step s s'.
Proof.
  revert s. induction l as [|e l IH]; simpl; intros s Hl; [injection Hl as <-; apply rtc_refl|].
  apply bind_Some in Hl as (s1 & Hs1%play_step & Hl). eapply rtc_l; [exact Hs1|]. by apply IH.
Qed.

(** The first answer is lost; the agent restarts after the first line and
    reads all of it again; an old chunk arrives late. *)
Definition run : list Event :=
  [Scan 7; Opens; Posts; Delivered; Lost; Posts; Answered; Reads (ReadOk (bytes "hel")); Reads (ReadOk (bytes "lo"));
   Reads TimedOut; Posts; Answered; Ends;
   Scan 7; Opens; Posts; Answered; Reads (ReadOk (take 8 (wrote ""))); Reads TimedOut; Posts; Delivered; Answered;
   Reads (ReadOk (drop 8 (wrote ""))); Reads (ReadOk []); Posts; Answered; Records].

Definition finished : Sys := default s0 (play_all run s0).

Lemma finished_reached : play_all run s0 = Some finished.
Proof. unfold finished. assert (is_Some (play_all run s0)) as [x ->]; [|done]. apply is_Some_alt. by vm_compute. Qed.

Lemma s0_starts : starts 100 s0.
Proof. split; try done; [apply NoDup_nil_2|by intros row n _ ?%elem_of_nil|apply NoDup_singleton]. Qed.

Lemma shipped_log_is_whole_witness :
  ∃ o row, os_placement_id o = to_string 70 ∧ ls_complete row = true
    ∧ stored (st_files (sy_disk finished)) (ls_path row) (ls_size_bytes row) = wrote (to_string 70).
Proof.
  assert (j_environments (sy_journal finished) = [environment] ∧ j_shipped_output (sy_journal finished) = [90]
          ∧ sy_given_up finished = []) as (He & Hs & Hg) by by vm_compute.
  pose proof (play_all_steps _ _ _ finished_reached) as Hr. revert He Hs Hg Hr. generalize finished. intros s He Hs Hg Hr.
  destruct (shipped_log_is_whole 100 days wrote wrote_bytes False s0 s s0_starts Hr (λ f, f) environment)
    as (o & row & _ & _ & _ & Hpl & Hc & _ & Hall).
  - rewrite He. by left.
  - rewrite Hs. by left.
  - rewrite Hg. apply not_elem_of_nil.
  - exists o, row. split_and!; [exact Hpl|exact Hc|]. apply Hall. vm_compute. discriminate.
Defined.

Lemma shipping_refines_appending_witness :
  ∃ s, play (Scan 7) s0 = Some s ∧ rtc (output_step 100 days wrote) (sy_disk s0) (sy_disk s).
Proof.
  eexists. split; [reflexivity|].
  apply (shipping_refines_appending 100 days wrote wrote_bytes False s0 s0 _ s0_starts (rtc_refl _ _)).
  by apply (play_step (Scan 7)).
Defined.

(** The agent restarts and scans again after the runtime gave no reader. *)
Definition unopened : Sys :=
  let s := default s0 (play (Scan 7) s0) in put s 90 (opened (follow 7 environment) false).
Definition given_up : Sys := default s0 (play Records unopened).
Definition rescanned : Sys := default s0 (play_all [Ends; Scan 8] given_up).

Lemma unopened_output_is_abandoned_witness :
  abandoned 90 rescanned ∧ unshipped_output (sy_journal rescanned) = [].
Proof.
  split; [|vm_compute; reflexivity].
  refine (proj2 (unopened_output_is_abandoned 100 days wrote False unopened rescanned 90
    (follow 7 environment) _ _) _).
  - reflexivity.
  - vm_compute. reflexivity.
  - change (rtc step given_up rescanned). apply (play_all_steps [Ends; Scan 8]).
    unfold rescanned. assert (is_Some (play_all [Ends; Scan 8] given_up)) as [x ->]; [|done].
    apply is_Some_alt. by vm_compute.
Defined.
End SampleShipper.
