(* ===== verification/ActivitySpec.v ===== *)
(** * The jobs an agent logs do not depend on how the output arrives
    ([JobLines], [crates/gridops-host-agent/src/activity.rs]).

    The reference reads the whole output, line by line. *)
From S2P Require Import Prelude Base64 Ids Domain Protocol Outcomes Store Output Sandbox Agent Wire Shipper.
#[local] Open Scope Z_scope.
Import JobLines.

(** The complete lines of an output whose current line is [current] so far, and
    the line it ends in. *)
Fixpoint lines_of (current l : list Z) : list (list Z) * list Z :=
  match l with
  | [] => ([], current)
  | b :: l => if b =? 10 then let '(ls, rest) := lines_of [] l in ((current ++ [b])%list :: ls, rest)
              else lines_of (current ++ [b])%list l
  end.

(** The names the lines give, each logged unless it is the one logged last. *)
Fixpoint announced (last : option (list Ascii.ascii)) (ls : list (list Z))
    : option (list Ascii.ascii) * list (list Ascii.ascii) :=
  match ls with
  | [] => (last, [])
  | line :: ls =>
      match job_of_line line with
      | Some name => if bool_decide (last = Some name) then announced last ls
                     else let '(last, logged) := announced (Some name) ls in (last, name :: logged)
      | None => announced last ls
      end
  end.

Definition short (x : list (list Z) * list Z) : Prop :=
  Forall (λ line, Z.of_nat (length line) ≤ MAX_LINE) x.1 ∧ Z.of_nat (length x.2) ≤ MAX_LINE.

Lemma lines_of_app current a b :
  lines_of current (a ++ b) =
  let '(l1, r1) := lines_of current a in let '(l2, r2) := lines_of r1 b in ((l1 ++ l2)%list, r2).
Proof.
  revert current. induction a as [|x a IH]; intros current; simpl; [by destruct (lines_of current b)|].
  destruct (x =? 10); [|apply IH]. rewrite IH. destruct (lines_of [] a) as [l1 r1]. by destruct (lines_of r1 b).
Qed.

Lemma announced_app last a b :
  announced last (a ++ b) =
  let '(j1, n1) := announced last a in let '(j2, n2) := announced j1 b in (j2, (n1 ++ n2)%list).
Proof.
  revert last. induction a as [|x a IH]; intros last; simpl; [by destruct (announced last b)|].
  destruct (job_of_line x) as [name|]; [|apply IH]. case_bool_decide; [apply IH|]. rewrite IH.
  destruct (announced (Some name) a) as [j1 n1]. by destruct (announced j1 b).
Qed.

Lemma scan_piece_within p j piece :
  Z.of_nat (length p) < MAX_LINE →
  scan_piece {| partial := p; job := j |} piece =
  if ends_line piece then
    let '(j', logged) := announced j [(p ++ piece)%list] in ({| partial := []; job := j' |}, logged)
  else ({| partial := (p ++ piece)%list; job := j |}, []).
Proof.
  intros Hp. unfold scan_piece. cbn [partial job]. rewrite (proj2 (Z.ltb_lt _ _) Hp). destruct (ends_line piece); [|done].
  simpl. destruct (job_of_line (p ++ piece)%list) as [name|]; [|done]. by case_bool_decide.
Qed.

Lemma scan_pieces_lines p j current l :
  10 ∉ current → short (lines_of (p ++ current)%list l) →
  scan_pieces {| partial := p; job := j |} (pieces current l) =
  let '(ls, rest) := lines_of (p ++ current)%list l in
  let '(j', logged) := announced j ls in ({| partial := rest; job := j' |}, logged).
Proof.
  revert p j current. induction l as [|b l IH]; intros p j current Hn Hs; cbn [lines_of pieces] in *.
  - destruct Hs as [_ Hs]. simpl in Hs. rewrite length_app in Hs. destruct current as [|x current]; [by rewrite app_nil_r|].
    simpl. rewrite scan_piece_within by (simpl in Hs; lia). unfold ends_line. rewrite bool_decide_eq_false_2; [done|].
    intros Hl. apply Hn. by apply last_Some_elem_of.
  - destruct (Z.eqb_spec b 10) as [->|Hb].
    + destruct (lines_of [] l) as [ls rest] eqn:Hl. destruct Hs as [Hs1 Hs2]. simpl in Hs1, Hs2. inversion Hs1 as [|? ? Hline Hls]; subst.
      rewrite !length_app in Hline. cbn [length] in Hline. cbn [scan_pieces]. rewrite scan_piece_within by lia.
      unfold ends_line. rewrite last_snoc, bool_decide_eq_true_2 by done. rewrite <-app_assoc.
      pose proof (announced_app j [(p ++ current ++ [10%Z])%list] ls) as Happ. cbn [app] in Happ. rewrite Happ.
      destruct (announced j [(p ++ current ++ [10%Z])%list]) as [j1 n1].
      specialize (IH [] j1 [] ltac:(apply not_elem_of_nil)). cbn [app] in IH. rewrite Hl in IH.
      rewrite IH by done. by destruct (announced j1 ls).
    + rewrite <-app_assoc in *. apply IH; [|done]. rewrite elem_of_app, list_elem_of_singleton. intros [?|?]; [done|congruence].
Qed.

Lemma current_short current l : short (lines_of current l) → Z.of_nat (length current) ≤ MAX_LINE.
Proof.
  revert current. induction l as [|b l IH]; intros current; simpl; [by intros []|].
  destruct (b =? 10); [destruct (lines_of [] l); intros [Hs _]; inversion Hs as [|? ? Hl _]; subst|intros Hl%IH];
    rewrite length_app in Hl; lia.
Qed.

(** Scanning the output as it arrives. *)
Fixpoint scan_all (s : State) (chunks : list (list Z)) : State * list (list Ascii.ascii) :=
  match chunks with
  | [] => (s, [])
  | data :: chunks => let '(s, logged) := scan s data in
                      let '(s, more) := scan_all s chunks in (s, (logged ++ more)%list)
  end.

(** The log names the jobs of the whole output.  In whatever pieces the
    output arrives, as long as no line is longer than [MAX_LINE], the jobs logged
    are those its complete lines name, in their order, without a name that repeats
    the one before it. *)
Theorem jobs_logged_once_per_turn chunks :
  short (lines_of [] (concat chunks)) →
  (scan_all default chunks).2 = (announced None (lines_of [] (concat chunks)).1).2.
Proof.
  enough (∀ p j, short (lines_of p (concat chunks)) →
    (scan_all {| partial := p; job := j |} chunks).2 = (announced j (lines_of p (concat chunks)).1).2) as Hall by apply Hall.
  induction chunks as [|data chunks IH]; intros p j Hs; [done|]. simpl in *. rewrite lines_of_app in *.
  unfold scan, split_inclusive. rewrite scan_pieces_lines; rewrite ?app_nil_r.
  - destruct (lines_of p data) as [l1 r1] eqn:Hd. rewrite ?announced_app. destruct (announced j l1) as [j1 n1] eqn:Ha.
    assert (short (lines_of r1 (concat chunks))) as Hs'.
    { destruct (lines_of r1 (concat chunks)). destruct Hs as [Hs1 Hs2]. by apply Forall_app in Hs1 as [_ Hs1]. }
    specialize (IH r1 j1 Hs'). destruct (scan_all _ chunks) as [s' more]. simpl in IH. subst more.
    destruct (lines_of r1 (concat chunks)) as [l2 r2]. simpl. rewrite announced_app, Ha. by destruct (announced j1 l2).
  - apply not_elem_of_nil.
  - destruct (lines_of p data) as [l1 r1]. destruct (lines_of r1 (concat chunks)) as [l2 r2] eqn:Hr.
    destruct Hs as [Hs1 Hs2]. simpl in *. apply Forall_app in Hs1 as [Hs1 Hs1']. split; [done|]. simpl.
    apply (current_short r1 (concat chunks)). by rewrite Hr.
Qed.

Lemma jobs_logged_once_per_turn_witness :
  ∃ text, (scan_all default (map (λ b, [b]) (bytes text))).2
          = [String.list_ascii_of_string "Build"%string; String.list_ascii_of_string "Publish release"%string].
Proof.
  set (nl := String.String (Ascii.ascii_of_N 10) String.EmptyString).
  exists ("Z Complete job name: Build" +:+ nl +:+ "Z Complete job name: Build " +:+ nl +:+ "step" +:+ nl
          +:+ "2026 Z Complete job name: Publish release" +:+ nl +:+ "Z Complete job name: Next")%string.
  rewrite jobs_logged_once_per_turn; [by vm_compute|].
  split; [repeat (constructor; [by vm_compute|]); constructor|by vm_compute].
Defined.
