(* ===== verification/Authorization.v ===== *)
(** * Grants and the proofs minted from them
    ([crates/gridops-core/src/fleet/authorization.rs]).

    A proof's fields are private: outside this file a proof is what one of the
    [authorize] methods returned ([minted]).  The theorem says what [recheck]
    then means. *)
From stdpp Require Import gmap.
From S2P Require Import Prelude Ids Domain Protocol Store Service.
#[local] Open Scope Z_scope.

Inductive Capability :=
| ReadHost | ReadWorkload | EnrollHost | Schedule | DrainHost | MaintainHost | RetireHost | RevokeHost
| NativeExecution | InteractiveSession | DockerSocket | ExecuteSandbox.
#[export] Instance Capability_dec : EqDecision Capability.
Proof. solve_decision. Defined.
#[export] Instance Principal_dec : EqDecision Principal.
Proof. solve_decision. Defined.

Record SessionGrantSnapshot := {
  sg_session_id : Uuid; sg_host_id : Uuid; sg_target : CiTarget; sg_revision : Z;
  sg_target_grant_revision : Z; sg_ready : bool; sg_authorized : bool }.
#[export] Instance SessionGrantSnapshot_dec : EqDecision SessionGrantSnapshot.
Proof. solve_decision. Defined.

Definition is_ready (s : SessionGrantSnapshot) : bool := sg_ready s && sg_authorized s.

(** The set of capabilities as the list it is read from. *)
Record GrantSnapshot := {
  g_principal : Principal; g_host_id : Uuid; g_target : option CiTarget; g_capabilities : list Capability;
  g_revision : Z; g_expires_at_millis : Z; g_revoked : bool; g_session : option SessionGrantSnapshot }.

Definition trusted_with_session (principal : Principal) (host_id : Uuid) (target : option CiTarget)
    (capabilities : list Capability) (revision expires_at_millis : Z) (revoked : bool)
    (session : option SessionGrantSnapshot) : GrantSnapshot :=
  {| g_principal := principal; g_host_id := host_id; g_target := target; g_capabilities := capabilities;
     g_revision := revision; g_expires_at_millis := expires_at_millis; g_revoked := revoked; g_session := session |}.
Definition trusted (principal : Principal) (host_id : Uuid) (target : option CiTarget)
    (capabilities : list Capability) (revision expires_at_millis : Z) (revoked : bool) : GrantSnapshot :=
  trusted_with_session principal host_id target capabilities revision expires_at_millis revoked None.

Inductive AuthorizationError :=
| Revoked | Expired | WrongHost | TargetMismatch | MissingCapability | StaleProof | SessionUnavailable
| SessionMismatch | UnsupportedSandbox.

Record AuthorizationProof := {
  ap_principal : Principal; ap_host_id : Uuid; ap_target : option CiTarget; ap_capability : Capability;
  ap_revision : Z; ap_expires_at_millis : Z; ap_session : option SessionGrantSnapshot }.

Definition is_expired_at (p : AuthorizationProof) (now_millis : Z) : bool := ap_expires_at_millis p <=? now_millis.

Record InteractiveSessionProof := { ip_proof : AuthorizationProof; ip_session_id : Uuid }.

Record OwnedFixPlacement := {
  op_host_id : Uuid; op_workload_id : Uuid; op_placement_id : Uuid; op_generation : Z; op_host_epoch : Z;
  op_target : CiTarget; op_runtime : RuntimeKind; op_execution_os : ExecutionOs }.
Record ExecuteSandboxProof := { ep_proof : AuthorizationProof; ep_placement : OwnedFixPlacement }.

Section grant.
Context (g : GrantSnapshot).

Definition validate (host_id : Uuid) (target : option CiTarget) (capability : Capability) (now_millis : Z)
    : Result unit AuthorizationError :=
  if g_revoked g then Err Revoked else
  if g_expires_at_millis g <=? now_millis then Err Expired else
  if negb (g_host_id g =? host_id) then Err WrongHost else
  if negb (bool_decide (g_target g = target)) then Err TargetMismatch else
  if negb (bool_decide (capability ∈ g_capabilities g)) then Err MissingCapability else Ok tt.

Definition authorize (host_id : Uuid) (target : option CiTarget) (capability : Capability) (now_millis : Z)
    : Result AuthorizationProof AuthorizationError :=
  let? _ := validate host_id target capability now_millis in
  Ok {| ap_principal := g_principal g; ap_host_id := host_id; ap_target := target; ap_capability := capability;
        ap_revision := g_revision g; ap_expires_at_millis := g_expires_at_millis g; ap_session := None |}.

Definition authorize_native (host_id : Uuid) (target : CiTarget) (now_millis : Z)
    : Result AuthorizationProof AuthorizationError :=
  authorize host_id (Some target) NativeExecution now_millis.

Definition with_session (p : AuthorizationProof) (s : SessionGrantSnapshot) : AuthorizationProof :=
  {| ap_principal := ap_principal p; ap_host_id := ap_host_id p; ap_target := ap_target p;
     ap_capability := ap_capability p; ap_revision := ap_revision p;
     ap_expires_at_millis := ap_expires_at_millis p; ap_session := Some s |}.

Definition authorize_interactive (host_id : Uuid) (target : CiTarget) (session : SessionGrantSnapshot)
    (now_millis : Z) : Result InteractiveSessionProof AuthorizationError :=
  if negb (is_ready session) then Err SessionUnavailable else
  if negb (bool_decide (g_session g = Some session)) || negb (sg_host_id session =? host_id)
     || negb (bool_decide (sg_target session = target)) then Err SessionMismatch else
  let? proof := authorize host_id (Some target) InteractiveSession now_millis in
  Ok {| ip_proof := with_session proof session; ip_session_id := sg_session_id session |}.

Definition authorize_docker_socket (host_id : Uuid) (target : CiTarget) (now_millis : Z)
    : Result AuthorizationProof AuthorizationError :=
  authorize host_id (Some target) DockerSocket now_millis.

Definition authorize_sandbox (placement : OwnedFixPlacement) (now_millis : Z)
    : Result ExecuteSandboxProof AuthorizationError :=
  if negb (bool_decide (op_runtime placement = Docker)) || negb (bool_decide (op_execution_os placement = Linux))
  then Err UnsupportedSandbox else
  if negb (op_host_id placement =? g_host_id g) then Err WrongHost else
  if negb (bool_decide (g_target g = Some (op_target placement))) then Err TargetMismatch else
  let? proof := authorize (op_host_id placement) (Some (op_target placement)) ExecuteSandbox now_millis in
  Ok {| ep_proof := proof; ep_placement := placement |}.

Definition recheck (proof : AuthorizationProof) (now_millis : Z) : Result unit AuthorizationError :=
  let? _ := validate (ap_host_id proof) (ap_target proof) (ap_capability proof) now_millis in
  if negb (bool_decide (ap_principal proof = g_principal g)) || negb (ap_revision proof =? g_revision g)
     || negb (ap_expires_at_millis proof =? g_expires_at_millis g) then Err StaleProof else
  match ap_session proof with
  | None => Ok tt
  | Some expected =>
      match g_session g with
      | None => Err SessionMismatch
      | Some session =>
          if negb (is_ready session) || negb (bool_decide (session = expected))
             || negb (sg_host_id session =? ap_host_id proof)
             || negb (bool_decide (Some (sg_target session) = ap_target proof))
          then Err SessionMismatch else Ok tt
      end
  end.

(** ** The proofs a grant mints at a time *)
Inductive minted (now : Z) : AuthorizationProof → Prop :=
| by_authorize host target capability p : authorize host target capability now = Ok p → minted now p
| by_native host target p : authorize_native host target now = Ok p → minted now p
| by_interactive host target session p :
    authorize_interactive host target session now = Ok p → minted now (ip_proof p)
| by_docker_socket host target p : authorize_docker_socket host target now = Ok p → minted now p
| by_sandbox placement p : authorize_sandbox placement now = Ok p → minted now (ep_proof p).

Lemma validate_Ok host target capability now :
  validate host target capability now = Ok tt ↔
  g_revoked g = false ∧ now < g_expires_at_millis g ∧ g_host_id g = host ∧ g_target g = target
  ∧ capability ∈ g_capabilities g.
Proof.
  unfold validate. destruct (g_revoked g); [naive_solver|].
  destruct (Z.leb_spec (g_expires_at_millis g) now); [naive_solver lia|].
  destruct (Z.eqb_spec (g_host_id g) host); [|naive_solver]. simpl.
  case_bool_decide; [|naive_solver]. simpl. case_bool_decide; naive_solver.
Qed.

Lemma authorize_Ok host target capability now p :
  authorize host target capability now = Ok p ↔
  validate host target capability now = Ok tt
  ∧ p = {| ap_principal := g_principal g; ap_host_id := host; ap_target := target; ap_capability := capability;
           ap_revision := g_revision g; ap_expires_at_millis := g_expires_at_millis g; ap_session := None |}.
Proof. unfold authorize. destruct (validate _ _ _ _) as [[]|e]; simpl; naive_solver. Qed.

Lemma authorize_interactive_Ok host target session now p :
  authorize_interactive host target session now = Ok p ↔
  is_ready session = true ∧ g_session g = Some session ∧ sg_host_id session = host ∧ sg_target session = target
  ∧ ∃ q, authorize host (Some target) InteractiveSession now = Ok q
         ∧ p = {| ip_proof := with_session q session; ip_session_id := sg_session_id session |}.
Proof.
  unfold authorize_interactive. destruct (is_ready session); [|naive_solver]. simpl.
  case_bool_decide; [|naive_solver]. simpl. destruct (Z.eqb_spec (sg_host_id session) host); [|naive_solver]. simpl.
  case_bool_decide; [|naive_solver]. simpl. destruct (authorize _ _ _ _); simpl; naive_solver.
Qed.

(** What a grant mints, in one line each. *)
Lemma minted_iff now p :
  minted now p ↔
  validate (ap_host_id p) (ap_target p) (ap_capability p) now = Ok tt
  ∧ ap_principal p = g_principal g ∧ ap_revision p = g_revision g
  ∧ ap_expires_at_millis p = g_expires_at_millis g
  ∧ (ap_session p = None
     ∨ ∃ s, ap_session p = Some s ∧ ap_capability p = InteractiveSession ∧ is_ready s = true
            ∧ g_session g = Some s ∧ sg_host_id s = ap_host_id p ∧ ap_target p = Some (sg_target s)).
Proof.
  split.
  - intros [host target cap q Hq|host target q Hq|host target s q Hq|host target q Hq|placement q Hq].
    + apply authorize_Ok in Hq as [Hv ->]. simpl. tauto.
    + apply authorize_Ok in Hq as [Hv ->]. simpl. tauto.
    + apply authorize_interactive_Ok in Hq as (Hr & Hs & Hh & Ht & q' & [Hv ->]%authorize_Ok & ->). simpl.
      split_and!; try done. right. exists s. split_and!; try done. congruence.
    + apply authorize_Ok in Hq as [Hv ->]. simpl. tauto.
    + unfold authorize_sandbox in Hq. do 4 (destruct (negb _) in Hq; simpl in Hq; [done|]).
      apply bind_Ok in Hq as (q' & [Hv ->]%authorize_Ok & [= <-]). simpl. tauto.
  - destruct p as [pr host target cap rev exp session]. simpl. intros (Hv & -> & -> & -> & [->|(s & -> & -> & Hr & Hs & <- & ->)]).
    + apply (by_authorize now host target cap). by apply authorize_Ok.
    + assert (authorize (sg_host_id s) (Some (sg_target s)) InteractiveSession now = Ok _) as Ha by (by apply authorize_Ok).
      match type of Ha with _ = Ok ?q =>
        apply (by_interactive now (sg_host_id s) (sg_target s) s
                 {| ip_proof := with_session q s; ip_session_id := sg_session_id s |}) end.
      apply authorize_interactive_Ok. split_and!; try done. by eexists.
Qed.
End grant.

(** C38: a proof stands as long as the grant would mint it again.  Rechecking a
    proof that some earlier state of a grant minted passes exactly when the
    grant as it is now mints that very proof: after a revocation, an expiry, a
    change of host, target, capability, revision or session it does not. *)
Theorem recheck_means_minted_again g0 t0 g t p :
  minted g0 t0 p → recheck g p t = Ok tt ↔ minted g t p.
Proof.
  intros (_ & _ & _ & _ & Hshape)%minted_iff. rewrite minted_iff. unfold recheck.
  destruct (validate g _ _ _ t) as [[]|e]; simpl; [|naive_solver].
  case_bool_decide as Hp; simpl; [|naive_solver].
  destruct (Z.eqb_spec (ap_revision p) (g_revision g)) as [Hr|]; simpl; [|naive_solver].
  destruct (Z.eqb_spec (ap_expires_at_millis p) (g_expires_at_millis g)) as [He|]; simpl; [|naive_solver].
  destruct Hshape as [Hn|(s & Hn & Hcap & _)]; rewrite Hn.
  { split; [intros _|done]. repeat (split; [done|]). by left. }
  assert ((Some s = None ∨ ∃ s0, Some s = Some s0 ∧ ap_capability p = InteractiveSession ∧ is_ready s0 = true
            ∧ g_session g = Some s0 ∧ sg_host_id s0 = ap_host_id p ∧ ap_target p = Some (sg_target s0))
          ↔ is_ready s = true ∧ g_session g = Some s ∧ sg_host_id s = ap_host_id p ∧ ap_target p = Some (sg_target s)) as ->.
  { split; [intros [?|(x & [= <-] & _ & ?)]; done|]. intros (? & ? & ? & ?). right. by exists s. }
  destruct (g_session g) as [s'|]; [|intuition congruence].
  destruct (is_ready s') eqn:Hready; simpl; [|intuition congruence].
  case_bool_decide as Hs; simpl; [subst s'|intuition congruence].
  destruct (Z.eqb_spec (sg_host_id s) (ap_host_id p)); simpl; [|intuition congruence].
  case_bool_decide; simpl; intuition congruence.
Qed.

Lemma recheck_means_minted_again_witness :
  ∃ g p, authorize_native g 5 (GithubRepository 1 2) 10 = Ok p
  ∧ (recheck g p 20 = Ok tt ↔ minted g 20 p) ∧ recheck g p 20 = Ok tt ∧ recheck g p 100 = Err Expired.
Proof.
  exists (trusted PrincipalReconciler 5 (Some (GithubRepository 1 2)) [NativeExecution] 1 100 false). eexists.
  split; [reflexivity|]. split; [|by split].
  apply (recheck_means_minted_again (trusted PrincipalReconciler 5 (Some (GithubRepository 1 2)) [NativeExecution] 1 100 false) 10).
  by apply (by_native _ 10 5 (GithubRepository 1 2)).
Defined.
