(* ===== verification/Supervisor.v ===== *)
(** * The agent's session with GridOps: credentials
    ([run], [rotate], [commands] and [backoff] of
    [crates/gridops-host-agent/src/supervisor.rs], with the API's handlers in
    [crates/gridops-api/src/fleet/{auth,credentials,commands}.rs]).

    A request to the API may be lost on its way, or its answer on the way back
    ([Delivery]).  The agent may be stopped before any of its actions, and when
    one of the tasks of a session ends, the others are dropped at their next
    await: [rotate] runs with the number of actions it may still take. *)
From S2P Require Import Prelude Base64 Ids Domain Protocol Outcomes Capabilities Inventory Crypto Store Service Admission Commands RegistryStore Registry Observation Reconcile Agent Wire.
#[local] Open Scope string_scope.
#[local] Open Scope Z_scope.

(** ** Requests *)
Inductive Delivery := Arrives | RequestLost | ReplyLost.

Definition post {S A} (d : Delivery) (serve : S → S * Result A ErrorCode) (s : S) : S * Result A ClientError :=
  match d with
  | Arrives => let '(s, r) := serve s in (s, map_err client_error r)
  | RequestLost => (s, Err (ClientUnavailable "request lost"))
  | ReplyLost => ((serve s).1, Err (ClientUnavailable "reply lost"))
  end.

Section api.
Context `{UuidText, Codec, Aead, ResultJson, ScopeJson, ObservationJson}.

(** [FleetAgent::from_request_parts]. *)
Definition from_request_parts (r : Registry) (host_id : Uuid) (token : string) (now : Z)
    : Result AuthenticatedHost ErrorCode :=
  let? credential := ok_or CodeUnauthenticated (bearer token) in
  map_err (λ e, match e with RegDatabase => CodeDependencyUnavailable | _ => CodeUnauthenticated end)
    (authenticate r host_id credential now).

(** The handlers: the transaction is committed whatever becomes of the body of
    the answer. *)
Definition exchange (host_id : Uuid) (token : string) (operation_id : Uuid) (next_secret : string)
    (credential_id : Uuid) (now : Z) (r : Registry) : Registry * Result unit ErrorCode :=
  match from_request_parts r host_id token now with
  | Err e => (r, Err e)
  | Ok auth =>
      match exchange_rotation r auth operation_id next_secret credential_id now with
      | Err e => (r, Err (registry_error e))
      | Ok (r, receipt) =>
          (r, let? _ := map_err (λ _, CodeContractRange) (WireTimestamp_from_millis (rx_overlap_expires_at receipt)) in Ok tt)
      end
  end.

Definition acknowledge (host_id : Uuid) (token : string) (operation_id : Uuid) (now : Z) (r : Registry)
    : Registry * Result unit ErrorCode :=
  match from_request_parts r host_id token now with
  | Err e => (r, Err e)
  | Ok auth =>
      match acknowledge_rotation r auth operation_id now with
      | Err e => (r, Err (registry_error e))
      | Ok (r, receipt) =>
          (r, let? _ := map_err (λ _, CodeContractRange) (WireTimestamp_from_millis (ra_acknowledged_at receipt)) in Ok tt)
      end
  end.

(** A turn of the loop of [poll], which holds on to the identity that was
    authenticated when the request came in. *)
Definition poll_turn (p : Policy) (w : Work) (auth : AuthenticatedHost) (session : Uuid) (now : Z)
    : Work * Result (list AgentCommandEnvelope) ErrorCode :=
  match poll_commands p w auth session now with
  | Ok (w, commands) => (w, Ok commands)
  | Err e => (w, Err (registry_error e))
  end.

(** ** Rotation on the agent *)
(** What a rotation meets: the secret it would draw, the times of its two
    requests, the identifier the exchange draws, the deliveries, and what
    others commit to the registry between the two requests. *)
Record Meets := {
  mt_fresh : string; mt_credential_id : Uuid; mt_exchanged_at : Z; mt_acknowledged_at : Z;
  mt_exchange : Delivery; mt_acknowledge : Delivery; mt_between : Registry → Registry }.

Definition rotate (actions : nat) (m : Meets) (host_id : Uuid) (credential : string) (rotation : PendingRotation)
    (r : Registry) (j : Journal) : Registry * Journal * option (Result string ClientError) :=
  let operation_id := pend_operation_id rotation in
  match actions with
  | O => (r, j, None)
  | S actions =>
      let '(j, next) := rotation_secret j operation_id (pend_next_generation rotation) (mt_fresh m) in
      match actions with
      | O => (r, j, None)
      | S actions =>
          let '(r, exchanged) :=
            post (mt_exchange m)
              (exchange host_id credential operation_id next (mt_credential_id m) (mt_exchanged_at m)) r in
          match exchanged with
          | Err e => (r, j, Some (Err e))
          | Ok _ =>
              match actions with
              | O => (r, j, None)
              | S actions =>
                  let '(r, acknowledged) :=
                    post (mt_acknowledge m) (acknowledge host_id next operation_id (mt_acknowledged_at m)) (mt_between m r) in
                  match acknowledged with
                  | Err e => (r, j, Some (Err e))
                  | Ok _ =>
                      match actions with
                      | O => (r, j, None)
                      | S _ => (r, finish_rotation j next (pend_next_generation rotation), Some (Ok next))
                      end
                  end
              end
          end
      end
  end.

(** ** Sessions *)
Inductive Stop := Shutdown | Incompatible | CredentialRejected.

(** What [run] does when a session ends: it stops, or connects again after a
    delay, with one failure more. *)
Definition session_ended (failures : Z) (result : Result Stop ClientError) : Stop + Z :=
  match result with
  | Ok stop => inl stop
  | Err ClientUnauthenticated => inl CredentialRejected
  | Err _ => inr (Z.min (failures + 1) u32_max)
  end.

(** The first request of a session, with the credential of the journal. *)
Definition greet (r : Registry) (j : Journal) (now : Z) : Result AuthenticatedHost ClientError :=
  let? identity := ok_or (ClientUnavailable "identity is missing") (j_identity j) in
  map_err client_error (from_request_parts r (id_host_id identity) (id_credential identity) now).

(** The answer to a poll of [commands], as it ends the session or not. *)
Definition polled (answer : Result (list AgentCommandEnvelope) ErrorCode)
    : Result (list AgentCommandEnvelope) ClientError := map_err client_error answer.
End api.

(** [backoff], [drawn] being what [random_range] picks in its range. *)
Definition MIN_BACKOFF : Z := 1000.
Definition MAX_BACKOFF : Z := 30000.
Definition backoff_ceiling (failures : Z) : Z :=
  Z.min (Z.min (MIN_BACKOFF * Z.min (2 ^ Z.min failures 5) u32_max) u64_max) MAX_BACKOFF.
