(* ===== verification/SupervisorSpec.v ===== *)
(** * Rotation between an agent and GridOps.

    Until the acknowledgement arrives, a rotation may be cut off and repeated as
    often as one likes.  Once it has arrived, the agent has only the call that
    sent it to learn so. *)
From S2P Require Import Prelude Base64 Ids Domain Protocol Outcomes Capabilities Inventory Crypto Store Service Admission Commands RegistryStore Registry Observation Reconcile RegistrySpec ObservationSpec ReconcileSpec RegistryTrace RegistrySample RegistryProps RotationProps RegistryWitnesses SessionFrame Agent Wire Supervisor.
#[local] Open Scope string_scope.
#[local] Open Scope Z_scope.

Section rotation.
Context `{UuidText, Codec, Aead, ResultJson, ScopeJson, ObservationJson}.

(** ** Tokens *)
Lemma token_char_url b : token_char b = is_base64url b.
Proof.
  unfold token_char, is_base64url. generalize (b =? 95) (b =? 45) ((48 <=? b) && (b <=? 57))
    ((65 <=? b) && (b <=? 90)) ((97 <=? b) && (b <=? 122)). by intros [] [] [] [] [].
Qed.

Lemma bearer_secret secret : validate_secret_text secret = Ok tt → bearer secret = Some secret.
Proof.
  unfold validate_secret_text, bearer, SECRET_TEXT_LENGTH. destruct (byte_len secret =? 43); [|done]. simpl.
  destruct (forallb is_base64url (bytes secret)) eqn:E; [|done]. intros _.
  assert (forallb token_char (bytes secret) = true) as ->; [|done].
  rewrite forallb_forall in *. intros b Hb. rewrite token_char_url. by apply E.
Qed.

Lemma requests_as r host_id secret now auth :
  authenticate r host_id secret now = Ok auth → from_request_parts r host_id secret now = Ok auth.
Proof.
  intros Ha. unfold from_request_parts. rewrite bearer_secret by (by eapply authenticate_text). simpl. by rewrite Ha.
Qed.

Lemma authenticate_error r host_id secret now : authenticate r host_id secret now ≠ Err RegDatabase.
Proof.
  unfold authenticate, validate_secret_text, ok_or, map_err. intros E.
  repeat (case_match; simplify_eq/=; try done).
Qed.

Lemma requests_refused r host_id secret now :
  (∀ a, authenticate r host_id secret now ≠ Ok a) → from_request_parts r host_id secret now = Err CodeUnauthenticated.
Proof.
  intros Hn. unfold from_request_parts. unfold bearer. case_match; simpl; [|done].
  destruct (authenticate r host_id secret now) as [a|e] eqn:E; [by destruct (Hn a)|].
  pose proof (authenticate_error r host_id secret now) as Hd. rewrite E in Hd. by destruct e.
Qed.

(** An identity that was accepted once is later accepted or unauthenticated. *)
Lemma refused_as_unauthenticated q q' auth t t' :
  ensure_authenticated_generation q auth t = Ok tt → ensure_authenticated_generation q' auth t' ≠ Ok tt →
  ensure_authenticated_generation q' auth t' = Err InvalidCredential.
Proof. unfold ensure_authenticated_generation. intros E Hn. by repeat case_match. Qed.

(** ** In the meantime *)
Lemma spared_authenticates r r' host_id secret t auth :
  reg_wf r → reg_wf r' → spares (to_string host_id) r r' →
  authenticate r host_id secret t = Ok auth → authenticate r' host_id secret t = Ok auth.
Proof.
  intros Hr Hr' [Hc _ Hh] Ha. pose proof (authenticate_text _ _ _ _ _ Ha) as Htext.
  apply authenticate_Ok in Ha as (h & c & Hho & Hin & Ech & Hn & Hu & Hv & He & Hl & Hp & Eah & Eag & Eae & _).
  apply host_of_Some in Hho as [Hhin Ei]. destruct (Hh h Hhin Ei) as (h' & Hh' & Ei' & Ee' & Hen & Hli & _).
  destruct (wf_creds _ Hr c Hin) as ((u & Huu & Ecid) & _). rewrite Ecid, parse_to_string in Hp by done.
  injection Hp as Eu. apply Hc in Hin; [|done].
  rewrite (authenticate_intro r' h' c u host_id secret t); try done; [|by auto..].
  destruct auth. simpl in *. congruence.
Qed.

(** ** The rotation an agent is offered *)
Section offered.
Context (host_id : Uuid) (old : string) (auth : AuthenticatedHost) (o : RotationRow)
  (p : PendingRotation) (from : Z).
Let op := pend_operation_id p.
Let host := to_string host_id.

(** The attempts fall into the time of one overlap. *)
Definition in_window (t : Z) : Prop := from ≤ t < from + ROTATION_OVERLAP_MILLIS.

(** The dates of the wire. *)
Definition dates : Prop := year_0_millis ≤ from ∧ from + 2 * ROTATION_OVERLAP_MILLIS ≤ year_9999_end_millis.

Definition counts (r : Registry) : Prop := ∀ h, h ∈ hosts r → h_id h = host → h_revision h < i64_max.

(** The rotation waits for its exchange. *)
Record offered (r : Registry) : Prop := {
  of_wf : reg_wf r;
  of_requested : requested r o op auth from;
  of_old : ∀ t, in_window t → authenticate r host_id old t = Ok auth;
  of_expires : from + ROTATION_OVERLAP_MILLIS ≤ ro_expires_at o;
  of_revisions : counts r }.

Definition as_exchanged (next : string) (t0 : Z) : RotationRow :=
  o <| ro_phase := PhaseExchanged |> <| ro_proposed_verifier := Some (Verifier_from_secret next) |>
    <| ro_exchanged_at := Some t0 |> <| ro_overlap_expires_at := Some (t0 + ROTATION_OVERLAP_MILLIS) |>.

Definition as_new (cid : Uuid) : AuthenticatedHost :=
  {| ah_host_id := host_id; ah_credential_id := cid; ah_generation := ro_next_generation o; ah_epoch := ah_epoch auth |}.

(** The exchange was taken with [next]: both secrets work. *)
Record taken_at (r : Registry) (next : string) (cid : Uuid) (t0 : Z) : Prop := {
  tk_wf : reg_wf r;
  tk_time : in_window t0;
  tk_uuid : is_uuid cid;
  tk_parse : OneTimeSecret_parse next = Ok next;
  tk_id : ro_id o = to_string op;
  tk_of_host : ro_host_id o = host ∧ ah_host_id auth = host_id;
  tk_of_credential : ro_old_credential_id o = to_string (ah_credential_id auth);
  tk_of_generation : ro_old_generation o = ah_generation auth;
  tk_of_epoch : ro_old_host_epoch o = ah_epoch auth;
  tk_rotation : as_exchanged next t0 ∈ host_credential_rotations r;
  tk_new : new_credential cid (ro_host_id o) (ah_epoch auth) (ro_next_generation o) next t0 ∈ credentials r;
  tk_old : ∃ c, c ∈ credentials r ∧ cred_id c = to_string (ah_credential_id auth) ∧ cred_host_id c = host
            ∧ cred_generation c = ah_generation auth ∧ cred_verifier c = Verifier_from_secret old;
  tk_old_works : ∀ t, t < t0 + ROTATION_OVERLAP_MILLIS → authenticate r host_id old t = Ok auth;
  tk_new_works : ∀ t, authenticate r host_id next t = Ok (as_new cid);
  tk_revisions : counts r }.
Definition taken (r : Registry) (next : string) : Prop := ∃ cid t0, taken_at r next cid t0.

Lemma counts_spared r r' :
  reg_wf r' → spares host r r' → (∃ h, h ∈ hosts r ∧ h_id h = host) → counts r → counts r'.
Proof.
  intros Hr' Hs (h & Hh & Ei) Hc x Hx Ex. destruct (sp_hosts _ _ _ Hs h Hh Ei) as (h' & Hh' & Ei' & _ & _ & _ & Hrev).
  assert (x = h') as -> by (eapply same_host; [done..|congruence]). auto.
Qed.

Lemma known_host r secret t a : authenticate r host_id secret t = Ok a → ∃ h, h ∈ hosts r ∧ h_id h = host.
Proof. intros (h & _ & Hh & _)%authenticate_Ok. apply host_of_Some in Hh. by exists h. Qed.

Lemma window_from : in_window from.
Proof. clear op. unfold in_window, ROTATION_OVERLAP_MILLIS. lia. Qed.

Lemma old_identity r t : authenticate r host_id old t = Ok auth → ah_host_id auth = host_id.
Proof. by intros (_ & _ & _ & _ & _ & _ & _ & _ & _ & _ & _ & ? & _)%authenticate_Ok. Qed.

Lemma offered_spared r r' : reg_wf r' → spares host r r' → offered r → offered r'.
Proof.
  intros Hr' Hs [Hr Ho Hold Hex Hrev]. pose proof (Hold _ window_from) as Ha.
  assert (ro_host_id o = host) as Eh by (rewrite (rd_host _ _ _ _ _ Ho), (old_identity _ _ Ha); done).
  split; [done| | |done|].
  - destruct Ho as [Hin ? ? ? ? ? ? ? Hnext]. split; try done; [by apply Hs|].
    intros c Hc Ec. apply Hnext; [|done]. apply (sp_credentials _ _ _ Hs); [congruence|done].
  - intros t Ht. eapply spared_authenticates; [exact Hr|done..|]. by apply Hold.
  - eapply counts_spared; [done..|by eapply known_host|done].
Qed.

Lemma taken_spared r r' next : reg_wf r' → spares host r r' → taken r next → taken r' next.
Proof.
  intros Hr' Hs (cid & t0 & Htk). exists cid, t0. destruct Htk as [Hr ? ? ? ? [Eh ?] ? ? ? Hrot Hnew (c & Hc & ? & Ec & ? & ?) Hold Hn Hrev].
  split; try done.
  - by apply (sp_rotations _ _ _ Hs).
  - by apply (sp_credentials _ _ _ Hs).
  - exists c. split_and!; try done. by apply (sp_credentials _ _ _ Hs).
  - intros t Ht. eapply spared_authenticates; [exact Hr|done..|]. by apply Hold.
  - intros t. eapply spared_authenticates; [exact Hr|done..|]. by apply Hn.
  - eapply counts_spared; [done..|by eapply known_host, (Hn 0)|done].
Qed.

(** The exchange, the first time and again. *)
Lemma exchange_taken r r' next cid t :
  offered r → in_window t → fresh_credential r next cid → reg_wf r' →
  exchanged r r' o op auth next cid t → taken_at r' next cid t.
Proof.
  intros [Hr Ho Hold Hexp Hrev] Ht (Hparse & Hfmt & Huuid & Hfresh) Hr' Hx. pose proof (Hold _ Ht) as Ha.
  pose proof (old_identity _ _ Ha) as Eah. pose proof (rd_host _ _ _ _ _ Ho) as Eh. rewrite Eah in Eh.
  pose proof (authenticate_Ok _ _ _ _ _ Ha) as (h & _ & Hh & _ & _ & _ & _ & _ & He & Hl & _ & _ & _ & Eae & _).
  apply host_of_Some in Hh as [Hh Ei]. pose proof Hx as [Ehs Hnew (c & Hc & Eci & Ech & Ecg & _ & Hc2) Hrot].
  assert (validate_secret_text next = Ok tt) as Htext.
  { unfold OneTimeSecret_parse in Hparse. by apply bind_Ok in Hparse as ([] & ? & _). }
  split; try done; try apply Ho.
  - eexists. split; [exact Hc2|]. simpl. split_and!; try done; [by rewrite Ech, Eah|].
    by destruct (authenticated_credential _ _ _ _ _ _ Hr Ha Hc Eci).
  - intros t' Ht'. by eapply (overlap_old r r').
  - intros t'. rewrite (authenticate_intro r' h _ cid host_id next t' Hr' Htext ltac:(by rewrite Ehs) Ei He Hl Hnew); try done.
    unfold as_new. simpl. by rewrite Eae.
  - intros x. rewrite Ehs. apply Hrev.
Qed.

Lemma exchange_replays r next cid t0 cid' t :
  taken_at r next cid t0 → t < t0 + ROTATION_OVERLAP_MILLIS →
  ∃ receipt, exchange_rotation r auth op next cid' t = Ok (r, receipt)
             ∧ rx_overlap_expires_at receipt = t0 + ROTATION_OVERLAP_MILLIS.
Proof.
  intros [Hr _ Huuid Hparse Ei [Eh Eah] Ecr Eg Ee Hrot Hnew _ Hold _ _] Ht.
  pose proof (authenticated_is_accepted _ _ _ _ _ Hr (Hold t Ht)) as Hacc.
  destruct (wf_rots _ Hr _ Hrot) as (_ & Hgen & Hmax). simpl in Hgen, Hmax.
  unfold exchange_rotation. rewrite Hparse. simpl. rewrite Hacc. simpl.
  rewrite (rotation_of_is r _ op Hr Hrot Ei). simpl. rewrite Eh, Eah. unfold host. rewrite String.eqb_refl. simpl.
  rewrite generation_from_i64_ok by lia. simpl. rewrite Eg, Z.eqb_refl, Ecr, String.eqb_refl, Ee, Z.eqb_refl. simpl.
  unfold replay_exchange. simpl. rewrite String.eqb_refl. simpl.
  rewrite generation_from_i64_ok by lia. simpl.
  rewrite (fetch_unique (λ c, (cred_host_id c, cred_generation c)) _ (host_credentials (rg_policy r)) _
             (wf_generations _ Hr) Hnew).
  - simpl. unfold parse_uuid. rewrite parse_to_string by done. simpl. eexists. split; done.
  - simpl. by rewrite String.eqb_refl, Z.eqb_refl.
  - intros b _ Hq. simpl in *. bool_to_prop. congruence.
Qed.

(** ** The agent's side *)
Definition holds_old (j : Journal) : Prop :=
  ∃ i, j_identity j = Some i ∧ id_host_id i = host_id ∧ id_credential i = old.
Definition stores (j : Journal) (next : string) : Prop :=
  ∃ rot, j_rotation j = Some rot ∧ rot_operation_id rot = op ∧ rot_next_secret rot = next.

(** What an attempt may meet: its time, what it draws is new, and between its
    requests the machine is left alone. *)
Record meets_ok (r : Registry) (m : Meets) : Prop := {
  mo_time : in_window (mt_exchanged_at m);
  mo_acknowledged : year_0_millis ≤ mt_acknowledged_at m ≤ year_9999_end_millis;
  mo_fresh : fresh_credential r (mt_fresh m) (mt_credential_id m);
  mo_between : ∀ r', rtc (meantime host) r' (mt_between m r') }.

(** No credential has the secret. *)
Definition unspent (r : Registry) (secret : string) : Prop :=
  ∀ c, c ∈ credentials r → cred_verifier c ≠ Verifier_from_secret secret.
Definition good_secret (secret : string) : Prop :=
  OneTimeSecret_parse secret = Ok secret ∧ verifier_format (Verifier_from_secret secret) = true.

(** The acknowledgement has not arrived. *)
Record pending (r : Registry) (j : Journal) : Prop := {
  pe_identity : holds_old j;
  pe_state : offered r ∧ (∀ next, stores j next → good_secret next ∧ unspent r next)
             ∨ ∃ next, stores j next ∧ taken r next }.

Lemma pending_spared r r' j :
  reg_wf r' → spares host r r' → (∀ next, stores j next → unspent r next → unspent r' next) →
  pending r j → pending r' j.
Proof.
  intros Hr' Hs Hun [Hi Hst]. split; [done|]. destruct Hst as [[Hof Hsec]|(next & Hn & Htk)].
  - left. split; [by eapply offered_spared|]. intros next Hn. destruct (Hsec next Hn). auto.
  - right. exists next. split; [done|]. by eapply taken_spared.
Qed.

Lemma requested_at r t : offered r → in_window t → requested r o op auth t.
Proof. intros [_ [] _ ? _] [_ Ht]. split; try done. lia. Qed.

Hypothesis Hdates : dates.

Lemma window_times t : in_window t →
  i64_checked_add t ROTATION_OVERLAP_MILLIS = Some (t + ROTATION_OVERLAP_MILLIS)
  ∧ WireTimestamp_from_millis (t + ROTATION_OVERLAP_MILLIS) = Ok (t + ROTATION_OVERLAP_MILLIS).
Proof.
  unfold in_window, i64_checked_add, WireTimestamp_from_millis, ROTATION_OVERLAP_MILLIS. intros Ht.
  pose proof Hdates as Hy.
  unfold dates, year_0_millis, year_9999_end_millis, ROTATION_OVERLAP_MILLIS, i64_min, i64_max in *. split.
  - repeat case_match; bool_to_prop; try done; exfalso; lia.
  - repeat case_match; bool_to_prop; try done; exfalso; lia.
Qed.

Lemma pending_old r j t : pending r j → in_window t → authenticate r host_id old t = Ok auth.
Proof.
  intros [_ [[Hof _]|(next & _ & cid & t0 & Htk)]] Hw; [by apply Hof|]. apply (tk_old_works _ _ _ _ Htk).
  pose proof (tk_time _ _ _ _ Htk). unfold in_window in *. lia.
Qed.

(** Storing the secret. *)
Lemma secret_stored r j m j' next :
  pending r j → meets_ok r m → rotation_secret j op (pend_next_generation p) (mt_fresh m) = (j', next) →
  pending r j' ∧ stores j' next.
Proof.
  intros [Hi Hs] Hm. unfold rotation_secret.
  assert (∀ jn, (jn, mt_fresh m) = (j', next) → j_identity jn = j_identity j →
    (∀ s, ¬ stores j s) → stores jn (mt_fresh m) → pending r j' ∧ stores j' next) as Hnew.
  { intros jn [= <- <-] Hid Hno Hst. split; [|done]. split; [by unfold holds_old; rewrite Hid|].
    destruct Hs as [[Hof _]|(s & Hs & _)]; [left|by apply Hno in Hs]. split; [done|]. intros s (rot & Hrot & _ & <-).
    destruct Hst as (rot' & Hrot' & _ & Hs). rewrite Hrot in Hrot'. injection Hrot' as <-. rewrite Hs.
    destruct (mo_fresh _ _ Hm) as (? & ? & _ & Hf). split; [done|]. intros c Hc. by apply Hf. }
  destruct (j_rotation j) as [rot|] eqn:Hrot.
  - destruct (Z.eqb_spec (rot_operation_id rot) op) as [Hop|Hop].
    + intros [= <- <-]. split; [done|]. by exists rot.
    + intros Heq. apply Hnew in Heq; [done|done| |by eexists].
      intros s (rot' & Hrot' & Hop' & _). rewrite Hrot in Hrot'. by injection Hrot' as <-.
  - intros Heq. apply Hnew in Heq; [done|done| |by eexists]. intros s (rot' & Hrot' & _). by rewrite Hrot in Hrot'.
Qed.

Lemma stores_unique j s s' : stores j s → stores j s' → s = s'.
Proof. intros (rot & Hr & _ & <-) (rot' & Hr' & _ & <-). congruence. Qed.

(** When the overlap of an accepted exchange ends. *)
Lemma exchange_receipt r r' next cid t receipt :
  offered r → in_window t → exchange_rotation r auth op next cid t = Ok (r', receipt) →
  rx_overlap_expires_at receipt = t + ROTATION_OVERLAP_MILLIS.
Proof.
  intros Hof Ht Hex. pose proof (requested_at r t Hof Ht) as [Hin Ei Hph _ _ _ _ _ _].
  pose proof (of_wf r Hof) as Hr. destruct (window_times _ Ht) as [Hadd _].
  destruct (wf_rots _ Hr _ Hin) as (Hshape & _). unfold rot_shape in Hshape. rewrite Hph in Hshape.
  destruct Hshape as (Hv & _). unfold exchange_rotation in Hex. inv_result.
  match goal with H : rotation_of r op = Some ?x |- _ => rewrite (rotation_of_is r o op Hr Hin Ei) in H; injection H as <- end.
  rewrite Hv in Hex. inv_result. simplify_eq. simpl. congruence.
Qed.

Lemma exchange_served r j m next :
  pending r j → stores j next → meets_ok r m →
  ∃ r', exchange host_id old op next (mt_credential_id m) (mt_exchanged_at m) r = (r', Ok tt) ∧ taken r' next.
Proof.
  intros Hpe Hst Hm. pose proof (mo_time _ m Hm) as Ht. pose proof (pending_old r j _ Hpe Ht) as Ha.
  unfold exchange. rewrite (requests_as _ _ _ _ _ Ha). destruct (window_times _ Ht) as [Hadd Hwire].
  destruct Hpe as [_ [[Hof Hs]|(s & Hs & Htk)]].
  - destruct (Hs next Hst) as [[Hparse Hfmt] Hun]. pose proof (of_wf r Hof) as Hr.
    destruct (mo_fresh _ m Hm) as (_ & _ & Hu & Hids).
    assert (fresh_credential r next (mt_credential_id m)) as Hf.
    { split_and!; [done..|]. intros c Hc. split; [by apply Hun|by apply Hids]. }
    destruct (exchange_ok r o op auth next (mt_credential_id m) (mt_exchanged_at m) Hr
      (authenticated_is_accepted _ _ _ _ _ Hr Ha) (requested_at _ _ Hof Ht) Hf Hadd) as (r' & receipt & Hex & Hx).
    rewrite Hex. exists r'. rewrite (exchange_receipt _ _ _ _ _ _ Hof Ht Hex), Hwire. split; [done|].
    exists (mt_credential_id m), (mt_exchanged_at m). eapply exchange_taken; try done.
    by destruct (good_exchange_rotation _ _ _ _ _ _ _ _ Hu Hex Hr).
  - rewrite (stores_unique _ _ _ Hst Hs). destruct Htk as (cid & t0 & Htk). pose proof (tk_time _ _ _ _ Htk) as Ht0.
    destruct (exchange_replays r s cid t0 (mt_credential_id m) (mt_exchanged_at m) Htk) as (receipt & Hex & Hov);
      [unfold in_window in *; lia|].
    rewrite Hex, Hov. destruct (window_times _ Ht0) as [_ ->]. exists r. split; [done|]. by exists cid, t0.
Qed.

Lemma taken_pending r j next : holds_old j → stores j next → taken r next → pending r j.
Proof. intros Hi Hs Ht. split; [done|]. right. by exists next. Qed.

(** What a request does, however it fares. *)
Lemma post_exchange r j m next :
  pending r j → stores j next → meets_ok r m →
  let '(r', x) := post (mt_exchange m) (exchange host_id old op next (mt_credential_id m) (mt_exchanged_at m)) r in
  pending r' j ∧ (x = Ok tt → mt_exchange m = Arrives ∧ taken r' next) ∧ (mt_exchange m = Arrives → x = Ok tt).
Proof.
  intros Hpe Hst Hm. destruct (exchange_served r j m next Hpe Hst Hm) as (r' & Hex & Htk).
  assert (pending r' j) as Hpe' by (eapply taken_pending; [apply Hpe|done|done]).
  unfold post. destruct (mt_exchange m); rewrite ?Hex; simpl; done.
Qed.

Lemma taken_between r m r' next : meets_ok r m → taken r' next → taken (mt_between m r') next.
Proof.
  intros Hm Htk. pose proof (mo_between _ _ Hm r') as Hs.
  assert (reg_wf r') as Hr' by (destruct Htk as (cid & t0 & []); done).
  eapply taken_spared; [by eapply meantime_wf|by apply meantime_spares|done].
Qed.

(** A rotation whose acknowledgement does not arrive. *)
Definition unacknowledged (actions : nat) (m : Meets) : Prop :=
  (actions ≤ 2)%nat ∨ mt_exchange m ≠ Arrives ∨ mt_acknowledge m = RequestLost.

Lemma rotate_pending n m r j :
  pending r j → meets_ok r m → unacknowledged n m →
  let '(r', j', x) := rotate n m host_id old p r j in pending r' j' ∧ ∀ next, x ≠ Some (Ok next).
Proof.
  intros Hpe Hm Hun. destruct n as [|[|n]]; simpl; [done| |];
    destruct (rotation_secret j _ _ _) as [j1 next] eqn:Hsec;
    destruct (secret_stored r j m j1 next Hpe Hm Hsec) as [Hpe1 Hst]; [done|].
  pose proof (post_exchange r j1 m next Hpe1 Hst Hm) as Hpost. fold op.
  destruct (post _ _ r) as [r' [[]|e]]; destruct Hpost as (Hpe' & Hok & _); [|done].
  destruct (Hok eq_refl) as [Harr Htk]. destruct n as [|n]; [done|].
  destruct Hun as [?|[?|Hlost]]; [lia|done|]. rewrite Hlost. simpl. split; [|done].
  eapply taken_pending; [apply Hpe1|done|by eapply taken_between].
Qed.

(** What happens until the acknowledgement arrives: sessions of any machine,
    other transactions that leave this one alone and do not draw the secret
    its agent has stored, and attempts. *)
Inductive attempts : Registry * Journal → Registry * Journal → Prop :=
| attempt_session r r' j : session_step r r' → attempts (r, j) (r', j)
| attempt_others r r' j :
    reg_step r r' → spares host r r' → (∀ next, stores j next → unspent r next → unspent r' next) →
    attempts (r, j) (r', j)
| attempt_rotates n m r j r' j' x :
    meets_ok r m → unacknowledged n m → rotate n m host_id old p r j = (r', j', x) → attempts (r, j) (r', j').

Lemma pending_wf r j : pending r j → reg_wf r.
Proof. by intros [_ [[[] _]|(next & _ & cid & t0 & [])]]. Qed.

Lemma attempts_pending s s' : rtc attempts s s' → pending s.1 s.2 → pending s'.1 s'.2.
Proof.
  induction 1 as [|s1 s2 s3 Hs _ IH]; [done|]. intros Hpe. apply IH. pose proof (pending_wf _ _ Hpe) as Hr.
  destruct Hs as [r r' j Hs|r r' j Hs Hsp Hun|n m r j r' j' x Hm Hun Hrot]; simpl in *.
  - pose proof (session_leaves _ _ Hs) as Hl. eapply pending_spared; [|by apply leaves_spares| |done].
    + by apply (step_good _ _ (session_is_step _ _ Hs) Hr).
    + unfold unspent. by rewrite (lv_credentials _ _ Hl).
  - eapply pending_spared; [by apply (step_good _ _ Hs Hr)|done..].
  - pose proof (rotate_pending n m r j Hpe Hm Hun) as Hp. rewrite Hrot in Hp. apply Hp.
Qed.

(** The acknowledgement: the new secret works, the old one never does again. *)
Lemma acknowledge_served r next t :
  taken r next → year_0_millis ≤ t ≤ year_9999_end_millis →
  ∃ r' auth', acknowledge host_id next op t r = (r', Ok tt) ∧ reg_wf r' ∧ (∀ t, authenticate r' host_id next t = Ok auth')
  ∧ ∃ c, c ∈ credentials r' ∧ is_Some (cred_revoked_at c) ∧ cred_verifier c = Verifier_from_secret old
         ∧ cred_id c = to_string (ah_credential_id auth).
Proof.
  intros (cid & t0 & [Hr Ht0 Huuid Hparse Ei [Eh Eah] _ Eg _ Hrot Hcred (c & Hc & Eci & Ech & Ecg & Hv) _ Hnew Hrev]) Ht.
  assert (validate_secret_text next = Ok tt) as Htext.
  { unfold OneTimeSecret_parse in Hparse. by apply bind_Ok in Hparse as ([] & ? & _). }
  pose proof (authenticate_Ok _ _ _ _ _ (Hnew t)) as (h & _ & Hh & _ & _ & _ & _ & _ & Hen & Hli & _ & _ & _ & Eae & _).
  apply host_of_Some in Hh as [Hh Ehi].
  destruct (acknowledge_ok r _ op (as_new cid) t Hr (authenticated_is_accepted _ _ _ t _ Hr (Hnew t)) Hrot)
    as (r' & receipt & Hack & Hhosts & Hold & Hkeep); [done..|].
  destruct (good_acknowledge_rotation _ _ _ _ _ _ Hack Hr) as [Hr' _].
  exists r', (as_new cid). unfold acknowledge. rewrite (requests_as _ _ _ _ _ (Hnew t)), Hack.
  assert (ra_acknowledged_at receipt = t) as ->.
  { destruct (wf_rots _ Hr _ Hrot) as (Hshape & _). unfold rot_shape in Hshape. simpl in Hshape. destruct Hshape as (_ & _ & _ & Hnone & _).
    unfold acknowledge_rotation in Hack. inv_result.
    match goal with H : rotation_of r op = Some ?x |- _ =>
      rewrite (rotation_of_is r _ op Hr Hrot Ei) in H; injection H as <- end.
    simpl in Hack. rewrite Hnone in Hack. inv_result. by simplify_eq. }
  split. { unfold WireTimestamp_from_millis. destruct (Z.leb_spec year_0_millis t); [|lia].
    by destruct (Z.leb_spec t year_9999_end_millis); [|lia]. }
  split; [done|]. split.
  - intros t'. destruct (Hhosts h Hh Ehi) as (h' & Hh' & Ei' & Ee' & El' & En').
    apply Hkeep in Hcred; [|done..].
    rewrite (authenticate_intro r' h' _ cid host_id next t' Hr' Htext Hh' ltac:(congruence) ltac:(congruence) ltac:(congruence) Hcred); try done.
    unfold as_new. simpl in *. congruence.
  - destruct (Hold _ Hc) as (c3 & Hc3 & Hle & Hrev3); [done| |].
    { destruct (wf_rots _ Hr _ Hrot) as (_ & Hg & _). simpl in *. lia. }
    destruct (cred_le_fields _ _ Hle) as (Eid & _ & _ & _ & Ev). exists c3. split_and!; try done; congruence.
Qed.

(** A rotation whose acknowledgement arrives: the answer may still be lost. *)
Lemma rotate_acknowledged n m r j :
  pending r j → meets_ok r m → mt_exchange m = Arrives → mt_acknowledge m ≠ RequestLost → (3 ≤ n)%nat →
  let '(r', j', x) := rotate n m host_id old p r j in
  ∃ j1 next auth', holds_old j1 ∧ stores j1 next ∧ reg_wf r' ∧ (∀ t, authenticate r' host_id next t = Ok auth')
  ∧ (∃ c, c ∈ credentials r' ∧ is_Some (cred_revoked_at c) ∧ cred_verifier c = Verifier_from_secret old
          ∧ cred_id c = to_string (ah_credential_id auth))
  ∧ match mt_acknowledge m, n with
    | Arrives, S (S (S (S _))) => x = Some (Ok next) ∧ j' = finish_rotation j1 next (pend_next_generation p)
    | Arrives, _ => x = None ∧ j' = j1
    | _, _ => x = Some (Err (ClientUnavailable "reply lost")) ∧ j' = j1
    end.
Proof.
  intros Hpe Hm Hex Hack Hn. destruct n as [|[|[|n]]]; try lia. cbn [rotate].
  destruct (rotation_secret j _ _ _) as [j1 next] eqn:Hsec.
  destruct (secret_stored r j m j1 next Hpe Hm Hsec) as [Hpe1 Hst].
  pose proof (post_exchange r j1 m next Hpe1 Hst Hm) as Hpost. fold op.
  destruct (post (mt_exchange m) _ r) as [r' x]; destruct Hpost as (_ & Htaken & Hok). specialize (Hok Hex) as ->.
  destruct (Htaken eq_refl) as [_ Htk%(taken_between _ _ _ _ Hm)].
  destruct (acknowledge_served _ next _ Htk (mo_acknowledged _ m Hm)) as (r2 & auth' & Hserve & Hr2 & Hnew & Hc).
  unfold post. destruct (mt_acknowledge m); [|done|]; rewrite Hserve; simpl.
  - destruct n; (exists j1, next, auth'; split_and!; try done; apply Hpe1).
  - exists j1, next, auth'. split_and!; try done. apply Hpe1.
Qed.

(** A session that begins with the credential of the journal. *)
Definition begin_session (failures : Z) (r : Registry) (j : Journal) (now : Z) : Stop + Z :=
  session_ended failures (let? _ := greet r j now in Ok Shutdown).

Lemma greet_old r j t : holds_old j → authenticate r host_id old t = Ok auth → greet r j t = Ok auth.
Proof.
  intros (i & Hi & Hh & Hc) Ha. unfold greet. rewrite Hi. simpl. rewrite Hh, Hc.
  by rewrite (requests_as _ _ _ _ _ Ha).
Qed.
End offered.

(** The setting of the theorems: an administrator asked for the rotation of the
    credential the agent holds. *)
Record rotation_offered (r r1 : Registry) (principal : Principal) (request : RequestRotation) (receipt : RotationRequestReceipt)
    (now0 from : Z) (auth : AuthenticatedHost) (old : string) (p : PendingRotation) (j : Journal) : Prop := {
  ro_wf : reg_wf r;
  ro_requested : request_rotation r principal request (pend_operation_id p) now0 = Ok (r1, receipt);
  ro_new_key : ∀ o, o ∈ host_credential_rotations r → ro_host_id o = to_string (rr_host_id request) →
    ro_idempotency_key o ≠ rr_idempotency_key request;
  ro_old_works : ∀ t, in_window from t → authenticate r1 (rr_host_id request) old t = Ok auth;
  ro_expected : ah_generation auth = rr_expected_generation request;
  ro_in_time : from + ROTATION_OVERLAP_MILLIS ≤ rq_expires_at receipt;
  ro_revisions : ∀ h, h ∈ hosts r1 → h_revision h < i64_max;
  ro_times : year_0_millis ≤ from ∧ from + 2 * ROTATION_OVERLAP_MILLIS ≤ year_9999_end_millis;
  ro_identity : holds_old (rr_host_id request) old j;
  ro_not_begun : ∀ next, ¬ stores p j next }.

Lemma offered_is r r1 principal request receipt now0 from auth old p j :
  rotation_offered r r1 principal request receipt now0 from auth old p j →
  ∃ o, offered (rr_host_id request) old auth o p from r1 ∧ pending (rr_host_id request) old auth o p from r1 j.
Proof.
  intros [Hr Hreq Hkey Hold Hexp Htime Hrev Hy Hid Hno].
  destruct (good_request_rotation _ _ _ _ _ _ _ Hreq Hr) as [Hr1 _].
  destruct (request_requested _ _ _ _ _ _ _ _ _ from Hr Hreq Hkey (Hold _ (window_from from)) Hexp) as [o Ho];
    [unfold ROTATION_OVERLAP_MILLIS in *; lia|].
  destruct (request_ok _ _ _ _ _ _ _ Hreq Hkey) as (_ & o' & c & Ho' & Ei & _ & _ & _ & _ & _ & _ & _ & _ & Eex & _).
  assert (o' = o) as -> by (eapply unique_by; [by apply wf_rot_ids|done|apply Ho|rewrite Ei; symmetry; apply Ho]).
  assert (offered (rr_host_id request) old auth o p from r1) as Hof.
  { split; try done; [by rewrite Eex|]. intros h Hh _. by apply Hrev. }
  exists o. split; [done|]. split; [done|]. left. split; [done|]. intros next Hst. by destruct (Hno next).
Qed.

(** C26: a rotation survives every interruption before its acknowledgement
    arrives.  However often the agent is cut off or its requests or their
    answers are lost within the overlap, and whatever sessions of any machine,
    its own included, and other transactions that leave the machine's
    credentials and rotations alone commit before, between and inside the
    attempts, every session can begin with the journal's credential; and the
    first attempt that meets no fault finishes: the journal holds the new
    secret, which works from then on, through all such transactions. *)
Theorem rotation_survives_interruptions r r1 principal request receipt now0 from auth old p j r2 j2 :
  rotation_offered r r1 principal request receipt now0 from auth old p j →
  rtc (attempts (rr_host_id request) old p from) (r1, j) (r2, j2) →
  (∀ t, in_window from t → greet r2 j2 t = Ok auth)
  ∧ ∀ n m, meets_ok (rr_host_id request) from r2 m → mt_exchange m = Arrives → mt_acknowledge m = Arrives → (4 ≤ n)%nat →
    let '(r3, j3, x) := rotate n m (rr_host_id request) old p r2 j2 in
    ∃ next auth', x = Some (Ok next) ∧ j_rotation j3 = None
    ∧ (∃ i, j_identity j3 = Some i ∧ id_host_id i = rr_host_id request ∧ id_credential i = next
            ∧ id_credential_generation i = pend_next_generation p)
    ∧ ∀ r4 t, rtc (meantime (to_string (rr_host_id request))) r3 r4 → greet r4 j3 t = Ok auth'.
Proof.
  intros Hset Hat. destruct (offered_is _ _ _ _ _ _ _ _ _ _ _ Hset) as (o & Hof & Hpe).
  pose proof (attempts_pending _ _ auth o _ _ (ro_times _ _ _ _ _ _ _ _ _ _ _ Hset) _ _ Hat Hpe) as Hpe2. simpl in Hpe2. split.
  - intros t Ht. eapply greet_old; [apply Hpe2|]. by eapply pending_old.
  - intros n m Hm Hex Hack Hn.
    pose proof (rotate_acknowledged _ _ _ _ _ _ (ro_times _ _ _ _ _ _ _ _ _ _ _ Hset) n m r2 j2 Hpe2 Hm Hex
      ltac:(by rewrite Hack) ltac:(lia)) as Hr.
    destruct (rotate n m _ old p r2 j2) as [[r3 j3] x].
    destruct Hr as (j1 & next & auth' & (i & Hi & Hh & Hc) & _ & Hr3 & Hnew & _ & Hres).
    rewrite Hack in Hres. destruct n as [|[|[|[|n]]]]; try lia. destruct Hres as [-> ->].
    exists next, auth'. split; [done|]. split; [done|]. split.
    { unfold finish_rotation. simpl. rewrite Hi. simpl. by eexists. }
    intros r4 t Hs. unfold greet, finish_rotation. simpl. rewrite Hi. simpl. rewrite Hh.
    assert (authenticate r4 (rr_host_id request) next t = Ok auth') as Ha; [|by rewrite (requests_as _ _ _ _ _ Ha)].
    eapply spared_authenticates; [exact Hr3|by eapply meantime_wf|by apply meantime_spares|apply Hnew].
Qed.

(** C27: a lost answer to the acknowledgement locks the machine out.  When the
    acknowledgement arrives but the agent does not get to store that, because
    the answer is lost or it is cut off, its journal keeps the old credential,
    every later session stops the agent as rejected, in any later state of the
    registry; and the secret that works lies in the journal, unused. *)
Theorem lost_acknowledgement_locks_out r r1 principal request receipt now0 from auth old p j m n :
  rotation_offered r r1 principal request receipt now0 from auth old p j →
  meets_ok (rr_host_id request) from r1 m → mt_exchange m = Arrives →
  mt_acknowledge m = ReplyLost ∧ (3 ≤ n)%nat ∨ mt_acknowledge m = Arrives ∧ n = 3%nat →
  let '(r2, j2, x) := rotate n m (rr_host_id request) old p r1 j in
  (∀ r3 t failures, rtc reg_step r2 r3 → begin_session failures r3 j2 t = inl CredentialRejected)
  ∧ ∃ next auth', stores p j2 next ∧ ∀ t, authenticate r2 (rr_host_id request) next t = Ok auth'.
Proof.
  intros Hset Hm Hex Hack. destruct (offered_is _ _ _ _ _ _ _ _ _ _ _ Hset) as (o & Hof & Hpe).
  pose proof (rotate_acknowledged _ _ _ _ _ _ (ro_times _ _ _ _ _ _ _ _ _ _ _ Hset) n m r1 j Hpe Hm Hex) as Hr.
  destruct (rotate n m _ old p r1 j) as [[r2 j2] x].
  destruct Hr as (j1 & next & auth' & (i & Hi & Hh & Hc) & Hst & Hr2 & Hnew & (c & Hcin & Hrev & Hv & _) & Hres).
  { by destruct Hack as [[-> _]|[-> _]]. }
  { destruct Hack as [[_ ?]|[_ ->]]; [done|lia]. }
  assert (j2 = j1) as ->.
  { destruct Hack as [[Ha _]|[Ha ->]]; rewrite Ha in Hres; by destruct Hres. }
  split; [|by exists next, auth']. intros r3 t failures Hs. unfold begin_session, greet. rewrite Hi. simpl.
  rewrite requests_refused; [done|]. intros a. rewrite Hc. by eapply revoked_never_authenticates.
Qed.

(** C28: a rotation stops an agent that is polling.  Once the acknowledgement
    arrived, whatever the agent learns of it, the next turn of a poll that was
    accepted with the old credential is refused as unauthenticated, in any later
    state, and the session ends with the agent stopped as rejected. *)
Theorem rotation_stops_polling_agent r r1 principal request receipt now0 from auth old p j m n :
  rotation_offered r r1 principal request receipt now0 from auth old p j →
  meets_ok (rr_host_id request) from r1 m → mt_exchange m = Arrives → mt_acknowledge m ≠ RequestLost → (3 ≤ n)%nat →
  let '(r2, _, _) := rotate n m (rr_host_id request) old p r1 j in
  ∀ r3 w session t failures, rtc reg_step r2 r3 →
    (poll_turn (rg_policy r3) w auth session t).2 = Err CodeUnauthenticated
    ∧ session_ended failures (let? _ := polled (poll_turn (rg_policy r3) w auth session t).2 in Ok Shutdown)
      = inl CredentialRejected.
Proof.
  intros Hset Hm Hex Hack Hn. destruct (offered_is _ _ _ _ _ _ _ _ _ _ _ Hset) as (o & Hof & Hpe).
  pose proof (rotate_acknowledged _ _ _ _ _ _ (ro_times _ _ _ _ _ _ _ _ _ _ _ Hset) n m r1 j Hpe Hm Hex Hack Hn) as Hr.
  destruct (rotate n m _ old p r1 j) as [[r2 j2] x].
  destruct Hr as (_ & _ & _ & _ & _ & Hr2 & _ & (c & Hcin & Hrev & _ & Hid) & _).
  intros r3 w session t failures Hs.
  assert ((poll_turn (rg_policy r3) w auth session t).2 = Err CodeUnauthenticated) as ->; [|done].
  pose proof (revoked_never_accepted r2 r3 c auth t Hr2 Hcin Hrev Hs (eq_sym Hid)) as Hno.
  assert (ensure_authenticated_generation (rg_policy r1) auth from = Ok tt) as Hwas.
  { apply (authenticated_is_accepted _ (rr_host_id request) old); [apply Hof|]. apply Hset.
    unfold in_window, ROTATION_OVERLAP_MILLIS. lia. }
  unfold poll_turn, poll_commands. by rewrite (refused_as_unauthenticated _ _ _ _ _ Hwas Hno).
Qed.
End rotation.

(** ** The sample machine *)
Module SampleRotation.
Import SampleRegistry.

Definition offer : PendingRotation := {| pend_operation_id := 400; pend_next_generation := 2 |}.
Definition journal : Journal :=
  {| j_identity := Some {| id_host_id := 5; id_host_epoch := 1; id_credential := secret 2; id_credential_generation := 1 |};
     j_rotation := None; j_commands := []; j_environments := []; j_shipped_output := []; j_delivered_results := [] |}.
(** Between its two requests another handshake is served. *)
Definition meets (n cid : Z) (e a : Delivery) : Meets :=
  {| mt_fresh := secret n; mt_credential_id := cid; mt_exchanged_at := 9000; mt_acknowledged_at := 10000;
     mt_exchange := e; mt_acknowledge := a;
     mt_between := λ r, seen (handshake r w0 auth (hello 306 12 "boot") 9700) |}.

Definition unused (r : Registry) (n cid : Z) : bool :=
  forallb (λ c, negb (String.eqb (cred_verifier c) (Verifier_from_secret (secret n)))
                && negb (String.eqb (cred_id c) (to_string cid))) (credentials r)
  && verifier_format (Verifier_from_secret (secret n)).

Lemma handshake_steps r now n session : session_step r (seen (handshake r w0 auth (hello n session "boot") now)).
Proof.
  destruct (handshake r w0 auth (hello n session "boot") now) as [[r' w'] x] eqn:E. by eapply session_handshake.
Qed.

Lemma meets_are_ok r n cid e a :
  OneTimeSecret_parse (secret n) = Ok (secret n) → is_uuid cid → unused r n cid = true →
  meets_ok 5 9000 r (meets n cid e a).
Proof.
  intros Hp Hu Hn. unfold unused in Hn. apply andb_true_iff in Hn as [Hn Hf].
  split; [by unfold in_window, ROTATION_OVERLAP_MILLIS; simpl; lia|by unfold year_0_millis, year_9999_end_millis; simpl; lia| |].
  - split_and!; [done..|]. intros c Hc. rewrite forallb_forall in Hn.
    specialize (Hn c ltac:(by apply list_elem_of_In)). by bool_to_prop.
  - intros r'. apply rtc_once, by_session, handshake_steps.
Qed.

Lemma first_meets_ok e a : meets_ok 5 9000 r_requested (meets 3 92 e a).
Proof. apply meets_are_ok; [vm_compute; reflexivity|exact (small_uuid 92 eq_refl eq_refl)|vm_compute; reflexivity]. Qed.

Lemma sample_offered :
  rotation_offered r_working r_requested alice rotation rotation_receipt 8000 9000 auth (secret 2) offer journal.
Proof.
  split.
  - exact working_wf.
  - vm_compute. reflexivity.
  - assert (host_credential_rotations r_working = []) as E by (vm_compute; reflexivity).
    intros o. rewrite E. by intros []%not_elem_of_nil.
  - intros t _. vm_compute. reflexivity.
  - reflexivity.
  - unfold ROTATION_OVERLAP_MILLIS. simpl. lia.
  - assert (∃ h, only (hosts r_requested) = Some h ∧ h_revision h < i64_max) as (h & Hh & Hlt)
      by (eexists; split; [vm_compute; reflexivity|reflexivity]).
    intros h' Hin. by rewrite (only_eq _ _ _ Hh Hin).
  - unfold year_0_millis, year_9999_end_millis, ROTATION_OVERLAP_MILLIS. lia.
  - by eexists.
  - by intros next (rot & Hrot & _).
Qed.

(** Cut off after the exchange; the agent connects again; then the answer to the
    exchange is lost, then the acknowledgement on its way. *)
Definition tried (n : nat) (m : Meets) (s : Registry * Journal) : Registry * Journal :=
  (rotate n m 5 (secret 2) offer s.1 s.2).1.
Definition s_cut : Registry * Journal := tried 2 (meets 3 92 Arrives Arrives) (r_requested, journal).
Definition s_back : Registry * Journal := (seen (handshake s_cut.1 w0 auth (hello 305 11 "boot") 9500), s_cut.2).
Definition s_unanswered : Registry * Journal := tried 4 (meets 6 94 ReplyLost Arrives) s_back.
Definition s_lost : Registry * Journal := tried 4 (meets 7 95 Arrives RequestLost) s_unanswered.

Lemma tried_attempts n m s : meets_ok 5 9000 s.1 m → unacknowledged n m → attempts 5 (secret 2) offer 9000 s (tried n m s).
Proof.
  intros Hm Hun. unfold tried. destruct s as [r j]. simpl in *.
  destruct (rotate n m 5 (secret 2) offer r j) as [[r' j'] x] eqn:E. by eapply attempt_rotates.
Qed.

Lemma sample_attempts : rtc (attempts 5 (secret 2) offer 9000) (r_requested, journal) s_lost.
Proof.
  apply (rtc_l _ _ s_cut). { apply tried_attempts; [apply first_meets_ok|left; apply le_n]. }
  apply (rtc_l _ _ s_back). { rewrite (surjective_pairing s_cut). apply attempt_session, handshake_steps. }
  apply (rtc_l _ _ s_unanswered).
  { apply tried_attempts; [|right; left; discriminate].
    apply meets_are_ok; [vm_compute; reflexivity|exact (small_uuid 94 eq_refl eq_refl)|vm_compute; reflexivity]. }
  apply rtc_once, tried_attempts; [|right; right; reflexivity].
  apply meets_are_ok; [vm_compute; reflexivity|exact (small_uuid 95 eq_refl eq_refl)|vm_compute; reflexivity].
Qed.

Lemma rotation_survives_interruptions_witness :
  (∀ t, 9000 ≤ t < 309000 → greet s_lost.1 s_lost.2 t = Ok auth)
  ∧ ∃ r3 j3 x, rotate 4 (meets 8 96 Arrives Arrives) 5 (secret 2) offer s_lost.1 s_lost.2 = (r3, j3, x)
  ∧ x = Some (Ok (secret 3)) ∧ ∃ auth', ∀ r4 t, rtc (meantime (to_string 5)) r3 r4 → greet r4 j3 t = Ok auth'.
Proof.
  pose proof sample_attempts as Hat. rewrite (surjective_pairing s_lost) in Hat.
  destruct (rotation_survives_interruptions r_working r_requested alice rotation rotation_receipt 8000 9000 auth (secret 2)
    offer journal s_lost.1 s_lost.2 sample_offered Hat) as [Hold Hnext].
  split; [intros t Ht; apply Hold; exact Ht|].
  assert (meets_ok 5 9000 s_lost.1 (meets 8 96 Arrives Arrives)) as Hm.
  { apply meets_are_ok; [vm_compute; reflexivity|exact (small_uuid 96 eq_refl eq_refl)|vm_compute; reflexivity]. }
  specialize (Hnext 4%nat _ Hm eq_refl eq_refl (le_n 4)). change (rr_host_id rotation) with 5 in Hnext.
  assert ((rotate 4 (meets 8 96 Arrives Arrives) 5 (secret 2) offer s_lost.1 s_lost.2).2 = Some (Ok (secret 3))) as Hx
    by (vm_compute; reflexivity).
  destruct (rotate 4 _ 5 (secret 2) offer s_lost.1 s_lost.2) as [[r3 j3] x]. cbn [fst snd] in Hx.
  destruct Hnext as (next & auth' & _ & _ & _ & Hg). exists r3, j3, x. split; [reflexivity|]. split; [exact Hx|].
  exists auth'. exact Hg.
Defined.

Lemma lost_acknowledgement_locks_out_witness :
  ∃ r2 j2 x, rotate 4 (meets 3 92 Arrives ReplyLost) 5 (secret 2) offer r_requested journal = (r2, j2, x)
  ∧ (∀ t, begin_session 0 r2 j2 t = inl CredentialRejected)
  ∧ ∃ next auth', stores offer j2 next ∧ ∀ t, authenticate r2 5 next t = Ok auth'.
Proof.
  pose proof (lost_acknowledgement_locks_out r_working r_requested alice rotation rotation_receipt 8000 9000 auth (secret 2)
    offer journal (meets 3 92 Arrives ReplyLost) 4 sample_offered (first_meets_ok _ _) eq_refl
    (or_introl (conj eq_refl (le_S _ _ (le_n 3))))) as Ht.
  change (rr_host_id rotation) with 5 in Ht.
  destruct (rotate 4 _ 5 (secret 2) offer r_requested journal) as [[r2 j2] x]. destruct Ht as [Hs Hn].
  exists r2, j2, x. split; [done|]. split; [intros t; by apply Hs|exact Hn].
Defined.

Lemma rotation_stops_polling_agent_witness :
  ∃ r2 j2 x, rotate 4 (meets 3 92 Arrives Arrives) 5 (secret 2) offer r_requested journal = (r2, j2, x)
  ∧ x = Some (Ok (secret 3))
  ∧ ∀ w t, (poll_turn (rg_policy r2) w auth 7 t).2 = Err CodeUnauthenticated.
Proof.
  pose proof (rotation_stops_polling_agent r_working r_requested alice rotation rotation_receipt 8000 9000 auth (secret 2)
    offer journal (meets 3 92 Arrives Arrives) 4 sample_offered (first_meets_ok _ _) eq_refl ltac:(discriminate) (le_S _ _ (le_n 3))) as Ht.
  change (rr_host_id rotation) with 5 in Ht.
  assert ((rotate 4 (meets 3 92 Arrives Arrives) 5 (secret 2) offer r_requested journal).2 = Some (Ok (secret 3))) as Hx by (vm_compute; reflexivity).
  destruct (rotate 4 _ 5 (secret 2) offer r_requested journal) as [[r2 j2] x].
  exists r2, j2, x. split; [done|]. split; [exact Hx|]. intros w t. by apply (Ht r2 w 7 t 0).
Defined.
End SampleRotation.
